(* ===== verification/_CoqProject ===== *)
-Q . S2P
Prelude.v
Bytes.v
Utf8.v
Protocol.v
Gf256.v
F64.v
Rounding.v
ExactInt.v
Configuration.v
Fec.v
FecRecovery.v
FecSafety.v
FecCorrect.v
FecEndToEnd.v
RxPipeline.v
FecGate.v
Mss.v
Mtu.v
ProbeHistory.v
AutoReport.v
Link.v
Congestion.v
Delivery.v
Scheduler.v
SchedulerChoice.v
Fairness.v
Dispatch.v
Wireguard.v
Gso.v
LinkIo.v
LinkLife.v
Tuning.v
Bandwidth.v
Node.v
Events.v
Telemetry.v
MtuMonitor.v
Snapshot.v
Diag.v
Commands.v
Text.v
Firewall.v
TunnelTest.v
Web.v
Outbound.v
MmsgTx.v
Host.v
Sockets.v
Keys.v
LinkSocket.v
Cli.v
Tui.v
TuiViews.v
Startup.v
