(* ===== verification/Prelude.v ===== *)
(** * A verification development for mlvpn-rs

    mlvpn-rs is a VPN daemon that bonds several links. A packet read from the
    TUN device is given a sequence number, folded into a FEC group, placed on
    the queue of the link the scheduler chooses and sent by that link's worker;
    at the other end the receive pipeline rebuilds what was lost, drops
    duplicates and writes to the TUN device. Probes measure the links, and the
    measurements drive link states, scores and congestion and delivery factors,
    which the scheduler uses as weights. This library models the parts of the
    Rust sources that decide all this as executable definitions, and proves
    what they promise.

    ** Files and the code they model (paths under [src/src/])

    - [Prelude]: [error.rs]; Rust's results as [outcome] (a value, an error or
      a panic), with its monad, tactics and hints.
    - [Bytes], [Utf8]: machine-width integers ([wrap], [sat_sub]), big-endian
      byte strings, slicing with panics, [String::from_utf8_lossy] boundaries.
    - [Protocol]: [protocol.rs], every header and payload codec.
    - [Gf256]: module [gf] of [fec.rs].
    - [F64], [Rounding], [ExactInt]: Rust's [f64] on the Standard Library's
      [SpecFloat] (binary64, round to nearest even), the order and bounds of
      rounded sums, products and quotients, and exact integers.
    - [Configuration]: [config.rs], structs, defaults, [load] and [validate].
    - [Fec]: the sender of [fec.rs], parity placement and MTU reservation.
    - [FecRecovery]: [FecRecoveryBuffer] of [fec.rs]; [FecSafety] its reachable
      states, [FecCorrect] what it rebuilds, [FecEndToEnd] both ends together.
    - [RxPipeline]: [ReorderBuffer], [rx_deliver] and the loop of [rx_pipeline]
      in [tunnel.rs].
    - [FecGate]: [FecGate] and [FecMember] of [tunnel.rs].
    - [Mss]: [mss.rs]. [Mtu]: the MTU functions and the resize latch of
      [control.rs].
    - [ProbeHistory], [AutoReport]: [autoreport.rs].
    - [Link]: the statistics and counters of [link.rs], [monitor.rs], and what
      [tunnel.rs] does with probe results.
    - [Congestion]: [congestion.rs]. [Delivery]: [delivery.rs], [peerstats.rs]
      and the sample selection of [delivery_loop].
    - [Scheduler]: [scheduler.rs] and [pick_link]; [SchedulerChoice] and
      [Fairness] what its choices add up to over a run.
    - [Dispatch]: [TxDispatcher], the link queues, [outbound_sender]'s placing
      of jobs and [link_tx_worker] of [tunnel.rs].
    - [Wireguard]: [wireguard.rs] over the third-party session type, a class
      whose documented behaviour is a record of hypotheses.
    - [Gso], [LinkIo], [LinkLife]: [link.rs] - the planning of GSO runs, the
      sends and receives one at a time and in batches, and addresses,
      reconnection and the fallback between address families.
    - [Tuning], [Bandwidth], [Node]: [tunnel.rs] - the tuners of probe interval,
      EWMA weight and reorder window, the bandwidth tests, and
      [handle_incoming] with the timers of [link_prober].
    - [Events]: [events.rs] and the ring of [logbuf.rs]. [Telemetry]:
      [telemetry.rs].
    - [MtuMonitor]: [mtu_monitor_loop] of [control.rs], on [Mtu].
    - [Snapshot]: [build_snapshot] and [serve_client] of [control.rs] with the
      types of [ipc.rs]. [Commands]: [apply_command] and what it calls.
    - [Diag]: [diag.rs] and [diagnostics_watch_loop] of [control.rs].
    - [Text]: what the files below use of strings and of JSON values.
    - [Firewall]: [firewall.rs], the [firewall-setup] command.
    - [TunnelTest]: [tunneltest.rs], the self-test through the tunnel.
    - [Web]: [http.rs], [api.rs] and [main.rs] of [bin/mlvpn-web].
    - [Outbound]: [tun_reader] and [outbound_sender] of [tunnel.rs] with the
      parity it sends, over the gates of [FecGate]. [MmsgTx]: the batch of a
      [link_tx_worker] and module [mmsg_tx].
    - [Host]: [privilege.rs], [procstats.rs] and [sysfs_net.rs].
    - [Sockets]: how [serve] and [serve_commands] of [control.rs] create their
      sockets. [Keys]: [crypto.rs] and [genkey] of [main.rs].
    - [LinkSocket]: [bind_socket], the interface MTU calls, [MtuResizer] and
      [probe_other_family] of [link.rs], on [LinkLife].
    - [Cli]: the subcommands of [main.rs] that talk to the daemon, what [run]
      computes of the configuration, the error texts of [error.rs], and
      [diagnostics.rs].
    - [Startup]: [run] of [main.rs] and the start of [run] of [tunnel.rs], the
      tasks it spawns and [broadcast_disconnect], on [Cli] and [Node].
    - [Tui]: [model.rs] and [main.rs] of [bin/mlvpn-tui], the reader of the
      control socket and the keys; [TuiViews]: [theme.rs], [chrome.rs] and
      [views], the lines every view is made of.

    ** How the code is modelled

    A struct is a record of the same fields, an enum an inductive type. A method
    that takes [&mut self] is a function to the new state. Integers are [Z] with
    [wrap w] where a release build wraps, bit operations where the code has
    them. A [HashMap] is a [gmap]; where its iteration order can matter it is a
    parameter (class [HashIter]). Times are nanoseconds in [Z], and the readings
    of the clock are parameters of the operation; the recovery buffer reads it
    once per operation. Tasks that share state are step relations: every atomic
    action of [FecGate] and every action between two suspension points of the
    dispatcher is a step, in any order. A NaN carries no sign or payload. The
    file system, the TOML parser, the sockets and the kernel's answers are
    parameters or choices of a step.

    ** What is proved

    - Error correction: any one or two lost members of a group are rebuilt byte
      for byte ([group_survives]); nothing else is ever handed on
      ([rebuilt_is_sent]), nothing twice ([never_rebuilt_twice], whatever
      arrives, but for the groups a peer's restart finds parked, a member a
      group lists twice, and numbers too old to be remembered), in bounded
      memory ([recovery_memory_bounded]); parity is sent for whole groups only,
      every member of which reached the wire ([parity_covers_wire], from
      [parity_released_safely] of one gate, [group_accounted_once]); the
      arithmetic is that of a field ([field_arithmetic]).
    - Receiving: the pipeline refines the recovery machine, and is first in
      first out without FEC.
    - Scheduling: a link is always found ([pick_link_total]), in well-formed
      states only ([scheduler_invariant]), within caps and the penalties in
      force ([pick_respects_limits]), fairly ([swrr_fair]); the primary follows the
      rule on the history ([primary_hysteresis]).
    - Feedback: the factors stay in range and obey their hold-downs
      ([congestion_factor_invariant], [delivery_phase_invariant]); link states
      are a function of the probe history ([link_state_refines]) and probes are
      counted once ([probes_accounted]); the tuners stay within the configured
      bounds ([tuning_disciplined], [reorder_tuning_tracks]).
    - Sending: every job is accounted for in every interleaving, depths are
      exact and queues bounded ([tx_accounted]), and sending comes to rest
      ([tx_terminates]). A batch is cut into the fewest GSO runs the kernel
      allows ([gso_plan_optimal]), and the peer is handed exactly the frames of
      a batch reported as carried, in order ([batch_reaches_peer]); the send
      mode makes no difference to what is sent ([mode_independent]). The TUN
      reader loses a packet only by counting it ([tun_reader_accounts]). A session
      never panics on an attacker's bytes, and its counters agree with what it
      reported ([wg_run_counts]).
    - Links: a reconnection at every fifth error, since the last success, that
      the interface is gone, with a pause that doubles from error to error
      ([reconnects_disciplined]); the address a link starts
      with is one it resolved, and the alternate only if it answered
      ([startup_address]); the other address family is tried at the pace of its
      ladder ([family_probes_disciplined]); its socket is on its interface and
      port and of one address family, its peer's ([link_single_family]); the MTU
      thread answers requests in order ([resizer_in_order]).
    - The node: what a received frame of each type may touch
      ([incoming_confined]); a probe that is answered is measured
      ([probe_roundtrip]); a following end takes the primary it is told, if the
      name fits its field ([primary_followed]). A bandwidth stream is measured once
      ([stream_measured_once]), its result reaches who waits for it
      ([results_routed]), the ramp ends and confirms a rate it achieved
      ([ramp_finds_ceiling]), and a link's ceiling is that of a test made since
      it came up ([ceiling_is_current]).
    - Watching and steering: the events account for every rise of a counter
      ([counters_accounted]); no sample of the ten seconds after a loss is
      called healthy, and failover and the other headlines mean what they say
      ([loss_shows], [failover_headline], [health_headline]); a client of the
      control socket that is not a ringful behind gets every log line and event
      once and in order, where no line overtakes another on its way into the
      ring ([client_stream]); both ends settle on one MTU, through
      advertisements late, lost or out of order, once each end has heard the
      other's and the kernel takes the resize ([mtu_agreed]); pruning keeps the
      newest dumps ([prune_keeps_newest]); the scheduler does not pick a
      disabled link while another is usable ([disabled_link_avoided]).
    - Around the daemon: a self-test measures both directions, each once
      ([self_test_measures], [tcp_leg_measured]); opening the firewall adds what
      is missing and closing takes exactly that away ([firewall_reversible]);
      the web interface answers local, bodyless reads only
      ([only_local_reads_served]), in bounded numbers ([connections_capped]),
      and a client that polls its events gets each once ([events_polled_once]).
      A daemon that goes on after its start is not root
      ([unprivileged_after_startup]), and its own statistics are read as the
      kernel wrote them ([self_stat_read]). Its sockets are never open to more
      than they should be, whoever else creates files meanwhile
      ([sockets_private]); a generated key is read back and only the daemon
      reads it ([key_file_roundtrip]); [set-link] on the command line switches
      that link in the daemon, or fails and changes nothing
      ([set_link_end_to_end]). The tasks start with every link bound and root
      given up ([startup_ready]); no probe is written off while its link's tuned
      interval leaves it time ([probes_outlast_tuning]); a node that stops tells
      every peer once ([goodbye_heard]). The terminal viewer shows what the
      daemon had, each line once and in order, under the conditions of
      [client_stream] ([viewer_follows]), its keys keep
      its selection in range ([keys_handled]) and no view of it panics
      ([every_view_renders]).
    - Reports: events run through their life cycle, tickets are rate-limited,
      and a restart keeps what matters ([event_lifecycle],
      [reports_disciplined], [restart_roundtrip], [probe_counts_exact]).
    - Formats: codecs round-trip and never panic; on a whole packet the MSS
      clamp changes only a too large MSS of a SYN and its checksum
      ([clamp_correct]); MTUs leave room for parity; the configurations that
      load are those of the declared rules, but for NaN
      ([load_characterised]).

    ** Bounds and fuel

    [Mss.walk_options] and [Utf8] recurse on fuel of the length of their input;
    running out is a panic, and the theorems show there is none. [to_hex] has
    fuel for the 16 digits of a [u64]. Counters of [u32] are taken within their
    range where a theorem says so (fewer than 2^32 probe results or refreshes).
    [swrr_fair] asks that the weights be integers whose sum times the number of
    links is below 2^53, the range in which double precision is exact; the
    bandwidth results ask for the same of their byte and time counts. Ring
    numbers are taken below 2^64. The loops over a batch recurse on fuel of the
    batch's length, the ramp on the number of its steps.

    ** Not modelled

    The runtime that schedules the tasks, the delivery of signals and the abort
    of tasks at the end: tasks are loops whose bodies are modelled and whose
    steps come in any order. The TUN device and the inside of system calls:
    their answers are parameters or inputs. The text of JSON messages, the
    cryptography, base64, the HTTP client, the argument parser and the tracing
    layer that feeds the log ring: third-party code, parameters where the code
    relies on it. The layout and drawing of the terminal library, to which the
    views hand their lines. *)

From Stdlib Require Export ZArith Lia.
From stdpp Require Export base list gmap sets strings pretty.

Global Open Scope Z_scope.

(** ** Errors and results *)

(** What the code looks at of an [io::Error]: the error number, if it comes from
    the operating system, and the message. *)
Record IoError := mkIo { raw_os_error : option Z; io_message : string }.

(** [error.rs], the daemon's one error enum. *)
Inductive MlvpnError :=
  | Config (msg : string)
  | InsecurePermissions (path : string) (mode : Z)
  | Io (e : IoError)
  | Tun (msg : string)
  | Handshake (msg : string)
  | AuthFailed
  | Replay
  | AllLinksDown
  | InterfaceNotFound (name : string)
  | Privilege (msg : string)
  | CapabilityMissing (msg : string)
  | Protocol (msg : string)
  | ChannelClosed.

(** Outcome of a Rust function: a value, an [Err], or a panic (an index or a
    slice out of range, an [unwrap] of nothing). *)
Inductive outcome (A : Type) :=
  | Ok (a : A)
  | Err (e : MlvpnError)
  | Panic.
Arguments Ok {A} a.
Arguments Err {A} e.
Arguments Panic {A}.

Global Instance outcome_ret : MRet outcome := @Ok.
Global Instance outcome_bind : MBind outcome := λ A B f m,
  match m with Ok a => f a | Err e => Err e | Panic => Panic end.

(** The early return of a guard: [if c { return Err(e) }]. *)
Definition guard_err (c : bool) (e : MlvpnError) : outcome unit :=
  if c then Err e else Ok tt.

Definition is_ok {A} (m : outcome A) : bool :=
  match m with Ok _ => true | _ => false end.

(** A Rust call that returns, with a value or with an error. *)
Definition returns {A} (m : outcome A) : Prop := m ≠ Panic.

Lemma bind_Ok {A B} (m : outcome A) (f : A → outcome B) b :
  m ≫= f = Ok b ↔ ∃ a, m = Ok a ∧ f a = Ok b.
Proof. destruct m; simpl; naive_solver. Qed.

Lemma guard_err_Ok c e u : guard_err c e = Ok u ↔ c = false.
Proof. destruct u, c; simpl; naive_solver. Qed.

Lemma guard_err_false c e : c = false → guard_err c e = Ok tt.
Proof. by intros ->. Qed.

Lemma returns_bind {A B} (m : outcome A) (f : A → outcome B) :
  returns m → (∀ a, m = Ok a → returns (f a)) → returns (m ≫= f).
Proof. destruct m; simpl; try done. intros _ H. by apply H. Qed.

Lemma returns_Ok {A} (a : A) : returns (Ok a).
Proof. done. Qed.

Lemma returns_Err {A} e : returns (A := A) (Err e).
Proof. done. Qed.

Lemma returns_guard c e : returns (guard_err c e).
Proof. by destruct c. Qed.

Create HintDb outcome.
#[export] Hint Resolve returns_bind @returns_Ok @returns_Err returns_guard
  : outcome.

(** Inverts a computation that returned [Ok] into its successful steps. *)
Ltac inv_ok :=
  repeat match goal with
  | H : mbind _ _ = Ok _ |- _ => apply bind_Ok in H as (? & ? & H)
  | H : guard_err _ _ = Ok _ |- _ => apply guard_err_Ok in H
  | H : mret _ = Ok _ |- _ => injection H as H
  | H : Ok _ = Ok _ |- _ => injection H as H
  end.
