(* ===== verification/Bytes.v ===== *)
(** * Bytes, slices and big-endian integers

    What the sources use of Rust's [u8], [&[u8]], [Vec<u8>] and
    [to_be_bytes] / [from_be_bytes]. A byte is a [Z] in [0, 256); a buffer is
    a [list Z]; an index or a slice out of range is a [Panic]. *)

From S2P Require Import Prelude.

(** ** Machine integers *)

(** [as uN] and the wrapping arithmetic of a release build. *)
Definition wrap (w x : Z) : Z := x mod 2 ^ w.
Definition fits (w x : Z) : Prop := 0 ≤ x < 2 ^ w.

Definition sat_sub (x y : Z) : Z := Z.max 0 (x - y).
Definition checked_sub (x y : Z) : option Z :=
  if x <? y then None else Some (x - y).

(** ** Buffers *)

Definition byte_ok (x : Z) : Prop := 0 ≤ x < 256.
Definition bytes_ok (b : list Z) : Prop := Forall byte_ok b.
Global Instance byte_ok_dec x : Decision (byte_ok x).
Proof. unfold byte_ok. apply _. Defined.

(** [buf.len()]. *)
Definition len {A} (b : list A) : Z := Z.of_nat (length b).

(** [buf[i]]. *)
Definition idx {A} (b : list A) (i : nat) : outcome A :=
  match b !! i with Some x => Ok x | None => Panic end.

(** [&buf[i..j]]. *)
Definition slice {A} (b : list A) (i j : nat) : outcome (list A) :=
  if bool_decide (i ≤ j ∧ j ≤ length b)%nat
  then Ok (take (j - i) (drop i b)) else Panic.

(** [&buf[i..]]. *)
Definition slice_from {A} (b : list A) (i : nat) : outcome (list A) :=
  slice b i (length b).

(** [buf[i] = x]. *)
Definition set_idx {A} (b : list A) (i : nat) (x : A) : outcome (list A) :=
  if bool_decide (i < length b)%nat then Ok (<[i := x]> b) else Panic.

(** [dst[i..j].copy_from_slice(src)], which also panics when the lengths
    differ. *)
Definition copy_from_slice {A} (dst : list A) (i j : nat) (src : list A)
    : outcome (list A) :=
  if bool_decide (i ≤ j ∧ j ≤ length dst ∧ length src = j - i)%nat
  then Ok (take i dst ++ src ++ drop j dst) else Panic.

(** [Vec::resize(n, 0)]: grows with zeroes or truncates. *)
Definition resize0 (n : nat) (b : list Z) : list Z :=
  take n b ++ replicate (n - length b) 0.

(** ** Big-endian integers *)

Fixpoint to_be (n : nat) (v : Z) : list Z :=
  match n with
  | O => []
  | S n' => to_be n' (v / 256) ++ [v mod 256]
  end.

Definition from_be (b : list Z) : Z :=
  fold_left (λ acc x, acc * 256 + x) b 0.

Definition u16_to_be (v : Z) : list Z := to_be 2 v.
Definition u32_to_be (v : Z) : list Z := to_be 4 v.
Definition u64_to_be (v : Z) : list Z := to_be 8 v.

(** ** Lemmas *)

Create HintDb rust.
Create Rewrite HintDb rust.

Lemma slice_ok {A} (b : list A) i j :
  (i ≤ j ≤ length b)%nat → slice b i j = Ok (take (j - i) (drop i b)).
Proof. intros. unfold slice. by rewrite bool_decide_true by lia. Qed.

Lemma slice_from_ok {A} (b : list A) i :
  (i ≤ length b)%nat → slice_from b i = Ok (drop i b).
Proof.
  intros. unfold slice_from. rewrite slice_ok by lia.
  by rewrite firstn_all2 by (rewrite length_drop; lia).
Qed.

Lemma idx_ok `{Inhabited A} (b : list A) i :
  (i < length b)%nat → idx b i = Ok (b !!! i).
Proof.
  intros [x Hx]%lookup_lt_is_Some. unfold idx.
  by rewrite Hx, (list_lookup_total_correct _ _ _ Hx).
Qed.

Lemma idx_Some {A} (b : list A) i x : b !! i = Some x → idx b i = Ok x.
Proof. unfold idx. by intros ->. Qed.

Lemma set_idx_ok {A} (b : list A) i x :
  (i < length b)%nat → set_idx b i x = Ok (<[i := x]> b).
Proof. intros. unfold set_idx. by rewrite bool_decide_true by lia. Qed.

Lemma copy_ok {A} (dst : list A) i j src :
  (i ≤ j ≤ length dst)%nat → length src = (j - i)%nat →
  copy_from_slice dst i j src = Ok (take i dst ++ src ++ drop j dst).
Proof. intros. unfold copy_from_slice. by rewrite bool_decide_true by lia. Qed.

Lemma length_to_be n v : length (to_be n v) = n.
Proof.
  revert v; induction n as [|n IH]; intros v; [done|].
  simpl. rewrite length_app, IH. simpl. lia.
Qed.

Lemma to_be_bytes_ok n v : bytes_ok (to_be n v).
Proof.
  revert v; induction n as [|n IH]; intros v; simpl; [constructor|].
  apply Forall_app; split; [apply IH|]. constructor; [|constructor].
  apply Z.mod_pos_bound; lia.
Qed.

Lemma from_be_app b x : from_be (b ++ [x]) = from_be b * 256 + x.
Proof. unfold from_be. by rewrite fold_left_app. Qed.

Lemma from_to_be_mod n v : from_be (to_be n v) = v mod 256 ^ Z.of_nat n.
Proof.
  revert v; induction n as [|n IH]; intros v.
  - cbn. by rewrite Z.mod_1_r.
  - cbn [to_be]. rewrite from_be_app, IH, Nat2Z.inj_succ, Z.pow_succ_r by lia.
    rewrite Z.rem_mul_r by (try apply Z.pow_pos_nonneg; lia). lia.
Qed.

Lemma from_to_be n v : fits (8 * Z.of_nat n) v → from_be (to_be n v) = v.
Proof.
  unfold fits. intros H. rewrite from_to_be_mod. apply Z.mod_small.
  change 256 with (2 ^ 8). rewrite <- Z.pow_mul_r by lia. lia.
Qed.

Lemma from_be_bound b : bytes_ok b → fits (8 * len b) (from_be b).
Proof.
  unfold fits, len. induction b as [|x b IH] using rev_ind; intros Hb.
  - cbn. lia.
  - apply Forall_app in Hb as [Hb Hx]. inversion_clear Hx as [|?? Hx' _].
    unfold byte_ok in Hx'. specialize (IH Hb).
    rewrite from_be_app, length_app. simpl.
    replace (8 * Z.of_nat (length b + 1)) with (8 * Z.of_nat (length b) + 8) by lia.
    rewrite Z.pow_add_r by lia. change (2 ^ 8) with 256. nia.
Qed.

Lemma to_from_be b : bytes_ok b → to_be (length b) (from_be b) = b.
Proof.
  induction b as [|x b IH] using rev_ind; intros Hb; [done|].
  apply Forall_app in Hb as [Hb Hx]. inversion_clear Hx as [|?? Hx' _].
  unfold byte_ok in Hx'.
  rewrite length_app. simpl length. rewrite Nat.add_1_r. cbn [to_be].
  rewrite from_be_app, Z.div_add_l, Z.div_small, Z.add_0_r by lia.
  rewrite IH by done. f_equal. rewrite Z.add_comm, Z.mod_add by lia.
  by rewrite Z.mod_small by lia.
Qed.

Lemma bytes_ok_take n b : bytes_ok b → bytes_ok (take n b).
Proof. apply Forall_take. Qed.

Lemma bytes_ok_drop n b : bytes_ok b → bytes_ok (drop n b).
Proof. apply Forall_drop. Qed.

Lemma bytes_ok_replicate n : bytes_ok (replicate n 0).
Proof. apply Forall_replicate. unfold byte_ok; lia. Qed.

Lemma length_resize0 n b : length (resize0 n b) = n.
Proof. unfold resize0. rewrite length_app, length_take, length_replicate. lia. Qed.

Lemma wrap_small w x : fits w x → wrap w x = x.
Proof. apply Z.mod_small. Qed.

Lemma wrap_fits w x : 0 ≤ w → fits w (wrap w x).
Proof. intros. apply Z.mod_pos_bound, Z.pow_pos_nonneg; lia. Qed.

Lemma wrap_wrap w x : wrap w (wrap w x) = wrap w x.
Proof. unfold wrap. apply Zmod_mod. Qed.

Lemma wrap_add_l w x y : wrap w (wrap w x + y) = wrap w (x + y).
Proof. unfold wrap. apply Zplus_mod_idemp_l. Qed.

#[export] Hint Resolve to_be_bytes_ok bytes_ok_take bytes_ok_drop
  bytes_ok_replicate : rust.
#[export] Hint Rewrite length_to_be @length_app @length_take @length_drop
  @length_replicate @length_insert : rust.

(** Runs the leading reads of a computation: each read is in range by
    arithmetic on the lengths in the context. *)
Ltac in_range :=
  autounfold with rust in *;
  do 2 (autorewrite with rust in *; simpl length in *); lia.
Ltac rust_run :=
  repeat (first
    [ rewrite slice_ok by in_range
    | rewrite slice_from_ok by in_range
    | rewrite idx_ok by in_range
    | rewrite set_idx_ok by in_range
    | rewrite copy_ok by in_range ]; simpl).

Lemma slice_Ok {A} (b : list A) i j s :
  slice b i j = Ok s ↔ (i ≤ j ≤ length b)%nat ∧ s = take (j - i) (drop i b).
Proof. unfold slice. case_bool_decide; naive_solver lia. Qed.

Lemma slice_from_Ok {A} (b : list A) i s :
  slice_from b i = Ok s ↔ (i ≤ length b)%nat ∧ s = drop i b.
Proof.
  unfold slice_from. rewrite slice_Ok. split; intros [H ->]; split; try lia.
  - by rewrite firstn_all2 by (rewrite length_drop; lia).
  - by rewrite firstn_all2 by (rewrite length_drop; lia).
Qed.

Lemma idx_Ok {A} (b : list A) i x : idx b i = Ok x ↔ b !! i = Some x.
Proof. unfold idx. case_match; naive_solver. Qed.

Lemma returns_slice {A} (b : list A) i j :
  (i ≤ j ≤ length b)%nat → returns (slice b i j).
Proof. intros. by rewrite slice_ok. Qed.

Lemma returns_slice_from {A} (b : list A) i :
  (i ≤ length b)%nat → returns (slice_from b i).
Proof. intros. by rewrite slice_from_ok. Qed.

Lemma returns_idx {A} (b : list A) i : (i < length b)%nat → returns (idx b i).
Proof. intros [x Hx]%lookup_lt_is_Some. unfold idx. by rewrite Hx. Qed.

Lemma returns_copy {A} (dst : list A) i j src :
  (i ≤ j ≤ length dst)%nat → length src = (j - i)%nat →
  returns (copy_from_slice dst i j src).
Proof. intros. by rewrite copy_ok. Qed.

(** Proves that a computation returns: one read after the other, each in range
    by arithmetic. *)
Ltac returns_run :=
  repeat first
    [ progress cbv zeta
    | apply returns_bind; intros
    | apply returns_Ok | apply returns_Err | apply returns_guard
    | apply returns_slice; in_range
    | apply returns_slice_from; in_range
    | apply returns_idx; in_range
    | apply returns_copy; in_range
    | match goal with
      | H : guard_err (bool_decide _) _ = Ok _ |- _ =>
          apply guard_err_Ok, bool_decide_eq_false in H
      | |- returns (if bool_decide _ then _ else _) => case_bool_decide
      | |- returns (mret _) => apply returns_Ok
      end ].
