(* ===== verification/Utf8.v ===== *)
(** * UTF-8 strings

    What [protocol.rs] uses of Rust's [str]: [is_char_boundary],
    [String::from_utf8_lossy] (one U+FFFD per maximal invalid chunk) and
    [iter().position]. A [&str] is the list of its UTF-8 bytes. *)

From S2P Require Import Prelude Bytes.

Definition is_cont (b : Z) : bool := (128 <=? b) && (b <? 192).
Definition in_rng (lo hi b : Z) : bool := (lo <=? b) && (b <=? hi).

(** The byte at [i], 0 past the end (the decoder's [safe_get]). *)
Definition safe_get (l : list Z) (i : nat) : Z := default 0 (l !! i).

(** The next chunk of a non-empty buffer: whether it is a valid character, and
    how many bytes it takes. *)
Definition utf8_next (l : list Z) : bool * nat :=
  let b0 := safe_get l 0 in
  let b1 := safe_get l 1 in
  let b2 := safe_get l 2 in
  let b3 := safe_get l 3 in
  if b0 <? 128 then (true, 1%nat)
  else if in_rng 194 223 b0 then
    if is_cont b1 then (true, 2%nat) else (false, 1%nat)
  else if in_rng 224 239 b0 then
    if (bool_decide (b0 = 224) && in_rng 160 191 b1)
       || (in_rng 225 236 b0 && in_rng 128 191 b1)
       || (bool_decide (b0 = 237) && in_rng 128 159 b1)
       || (in_rng 238 239 b0 && in_rng 128 191 b1)
    then if is_cont b2 then (true, 3%nat) else (false, 2%nat)
    else (false, 1%nat)
  else if in_rng 240 244 b0 then
    if (bool_decide (b0 = 240) && in_rng 144 191 b1)
       || (in_rng 241 243 b0 && in_rng 128 191 b1)
       || (bool_decide (b0 = 244) && in_rng 128 143 b1)
    then if is_cont b2
         then if is_cont b3 then (true, 4%nat) else (false, 3%nat)
         else (false, 2%nat)
    else (false, 1%nat)
  else (false, 1%nat).

(** U+FFFD. *)
Definition replacement : list Z := [239; 191; 189].

(** Every chunk takes at least one byte, so [length l] steps are enough. *)
Fixpoint lossy_fuel (fuel : nat) (l : list Z) : list Z :=
  match fuel, l with
  | S f, _ :: _ =>
      let '(ok, n) := utf8_next l in
      (if ok then take n l else replacement) ++ lossy_fuel f (drop n l)
  | _, _ => []
  end.
Definition from_utf8_lossy (l : list Z) : list Z := lossy_fuel (length l) l.

Fixpoint valid_fuel (fuel : nat) (l : list Z) : bool :=
  match fuel, l with
  | _, [] => true
  | S f, _ :: _ =>
      let '(ok, n) := utf8_next l in
      ok && bool_decide (n ≤ length l)%nat && valid_fuel f (drop n l)
  | O, _ :: _ => false
  end.
Definition valid_utf8 (l : list Z) : bool := valid_fuel (length l) l.

(** [str::is_char_boundary]. *)
Definition is_char_boundary (s : list Z) (i : nat) : bool :=
  match i with
  | O => true
  | _ => match s !! i with
         | None => bool_decide (i = length s)
         | Some b => negb (is_cont b)
         end
  end.

(** [while end > 0 && !s.is_char_boundary(end) { end -= 1 }]. *)
Fixpoint floor_boundary (s : list Z) (e : nat) : nat :=
  match e with
  | O => O
  | S e' => if is_char_boundary s e then e else floor_boundary s e'
  end.

(** [iter().position(p)]. *)
Fixpoint position {A} (p : A → bool) (l : list A) : option nat :=
  match l with
  | [] => None
  | x :: t => if p x then Some O else S <$> position p t
  end.

(** ** Lemmas *)

Lemma utf8_next_pos l : (1 ≤ (utf8_next l).2 ≤ 4)%nat.
Proof.
  unfold utf8_next. repeat case_match; simpl; lia.
Qed.

Lemma valid_fuel_mono f g l :
  (f ≤ g)%nat → valid_fuel f l = true → valid_fuel g l = true.
Proof.
  revert g l; induction f as [|f IH]; intros [|g] [|b l] Hle H;
    try done; try lia.
  simpl in *. destruct (utf8_next (b :: l)) as [ok n].
  apply andb_prop in H as [H1 H2]. rewrite H1. simpl. apply IH; [lia|done].
Qed.

Lemma lossy_valid_fuel f g l :
  (length l ≤ f)%nat → valid_fuel g l = true → lossy_fuel f l = l.
Proof.
  revert g l; induction f as [|f IH]; intros [|g] [|b l] Hf H;
    try done; simpl in Hf; try lia.
  cbn [valid_fuel lossy_fuel] in *. pose proof (utf8_next_pos (b :: l)) as Hn.
  destruct (utf8_next (b :: l)) as [[] n]; [|done]. cbn [andb snd] in *.
  apply andb_prop in H as [_ H2].
  rewrite (IH g) by (try rewrite length_drop; simpl; try lia; done).
  apply take_drop.
Qed.

(** Decoding valid UTF-8 changes nothing. *)
Lemma lossy_valid l : valid_utf8 l = true → from_utf8_lossy l = l.
Proof. unfold valid_utf8, from_utf8_lossy. by apply lossy_valid_fuel. Qed.

(** The bytes of a valid character after its first one are continuations. *)
Lemma utf8_next_cont l n k :
  utf8_next l = (true, n) → (0 < k < n)%nat → is_cont (safe_get l k) = true.
Proof.
  unfold utf8_next, in_rng. intros H Hk.
  repeat case_match; simplify_eq; try lia;
    destruct k as [|[|[|[|k]]]]; try lia; try done; simpl in *;
    unfold is_cont; lia.
Qed.

Lemma boundary_not_inside l n k :
  utf8_next l = (true, n) → (n ≤ length l)%nat → (0 < k < n)%nat →
  is_char_boundary l k = false.
Proof.
  intros Hn Hl Hk. pose proof (utf8_next_cont l n k Hn Hk) as Hc.
  unfold is_char_boundary, safe_get in *. destruct k; [lia|].
  destruct (l !! S k) eqn:E; [simpl in Hc; by rewrite Hc|].
  apply lookup_ge_None in E. lia.
Qed.

Lemma boundary_drop l n k :
  (n ≤ k)%nat → is_char_boundary l k = true →
  is_char_boundary (drop n l) (k - n) = true.
Proof.
  intros Hk H. unfold is_char_boundary in *.
  destruct (k - n)%nat as [|m] eqn:E; [done|].
  destruct k; [lia|]. rewrite lookup_drop.
  replace (n + S m)%nat with (S k) by lia.
  destruct (l !! S k); [done|]. rewrite length_drop.
  apply bool_decide_eq_true in H. apply bool_decide_eq_true. lia.
Qed.

(** Cutting valid UTF-8 at a character boundary leaves valid UTF-8. *)
Lemma valid_take_fuel f l k :
  valid_fuel f l = true → is_char_boundary l k = true → (k ≤ length l)%nat →
  valid_fuel f (take k l) = true.
Proof.
  revert l k; induction f as [|f IH]; intros [|b l] k H Hb Hk;
    try (by destruct k); try done.
  destruct k as [|k]; [done|]. cbn [valid_fuel] in H.
  pose proof (utf8_next_pos (b :: l)) as Hp.
  destruct (utf8_next (b :: l)) as [ok n] eqn:En. simpl in Hp.
  destruct ok; [|done]. simpl in H. apply andb_prop in H as [Hn Hv].
  apply bool_decide_eq_true in Hn.
  destruct (decide (S k < n)%nat) as [Hlt|Hge].
  { rewrite (boundary_not_inside _ _ _ En Hn) in Hb by lia. done. }
  cbn [valid_fuel take].
  assert (utf8_next (b :: take k l) = (true, n)) as ->.
  { rewrite <- En. unfold utf8_next in *.
    assert (∀ i, (i < n)%nat → safe_get (b :: take k l) i = safe_get (b :: l) i)
      as Hg.
    { intros i Hi. unfold safe_get. change (b :: take k l) with (take (S k) (b :: l)).
      rewrite lookup_take_lt by lia. done. }
    clear -En Hg Hp.
    repeat case_match; simplify_eq; try done;
      rewrite ?Hg in * by lia; try congruence;
      unfold in_rng, is_cont in *; try congruence. }
  simpl. rewrite length_take.
  rewrite bool_decide_true by (simpl in *; lia). simpl.
  change (b :: take k l) with (take (S k) (b :: l)).
  replace (drop n (take (S k) (b :: l))) with (take (S k - n) (drop n (b :: l)))
    by (rewrite take_drop_commute; f_equal; f_equal; lia).
  apply IH; [done|by apply boundary_drop; [lia|]|].
  rewrite length_drop. lia.
Qed.

Lemma floor_boundary_le s e : (floor_boundary s e ≤ e)%nat.
Proof.
  induction e as [|e IH]; [done|]. cbn [floor_boundary]. case_match; lia.
Qed.

Lemma floor_boundary_spec s e : is_char_boundary s (floor_boundary s e) = true.
Proof. induction e as [|e IH]; [done|]. cbn [floor_boundary]. by case_match. Qed.

Lemma floor_boundary_len s : floor_boundary s (length s) = length s.
Proof.
  destruct s as [|b s]; [done|]. cbn [length floor_boundary].
  unfold is_char_boundary. rewrite lookup_ge_None_2 by (simpl; lia).
  by rewrite bool_decide_true.
Qed.

Lemma valid_fuel_len f l : valid_fuel f l = true → valid_utf8 l = true.
Proof.
  unfold valid_utf8. revert l; induction f as [|f IH]; intros [|b l] H;
    try done.
  cbn [valid_fuel length] in *. pose proof (utf8_next_pos (b :: l)) as Hp.
  destruct (utf8_next (b :: l)) as [ok n]. cbn [snd] in Hp.
  apply andb_prop in H as [-> H]. simpl.
  eapply valid_fuel_mono; [|by apply IH].
  rewrite length_drop. simpl. lia.
Qed.

Lemma valid_take_boundary s e :
  valid_utf8 s = true → (e ≤ length s)%nat →
  valid_utf8 (take (floor_boundary s e) s) = true.
Proof.
  intros Hv He. pose proof (floor_boundary_le s e).
  eapply valid_fuel_len, valid_take_fuel;
    [exact Hv|apply floor_boundary_spec|lia].
Qed.

(** A NUL-terminated field: the position of the first zero after a NUL-free
    prefix. *)
Lemma position_padded s k :
  Forall (λ b, b ≠ 0) s →
  default (length s + k)%nat (position (λ b, b =? 0) (s ++ replicate k 0))
  = length s.
Proof.
  intros Hs. assert (position (λ b, b =? 0) (s ++ replicate k 0)
    = match k with O => None | _ => Some (length s) end) as ->.
  { induction Hs as [|b s Hb Hs IH]; [by destruct k|]. simpl.
    rewrite (proj2 (Z.eqb_neq b 0) Hb), IH. by destruct k. }
  destruct k; simpl; lia.
Qed.
