(* ===== verification/Protocol.v ===== *)
(** * The wire format ([protocol.rs])

    The frame header and every payload with its encoder and decoder. An
    encoder fills a fixed array by slice copies or pushes onto a vector, a
    decoder checks the length and then reads slices; both run in [outcome], so
    a copy of the wrong length or a read past the end would be a [Panic].
    Multi-byte integers are [Z] at their width, an [f32] is its 32-bit
    pattern, a [String] is the list of its UTF-8 bytes. *)

From S2P Require Import Prelude Bytes Utf8.

Definition MAGIC : Z := 0x4D.
Definition VERSION : Z := 1.
Definition HEADER_LEN : nat := 1 + 1 + 1 + 1 + 8.

(** ** Packet types *)

Inductive PacketType :=
  | HandshakeInit
  | HandshakeResp
  | Data
  | Probe
  | ProbeReply
  | Keepalive
  | Disconnect
  | StatsShare
  | ThroughputTestData
  | ThroughputTestResult
  | ThroughputTestReverseRequest
  | VersionInfo
  | FecParity
  | FecParityQ.

Global Instance PacketType_eq_dec : EqDecision PacketType.
Proof. solve_decision. Defined.

(** [ptype as u8]: the [repr(u8)] discriminants. *)
Definition PacketType_to_u8 (p : PacketType) : Z :=
  match p with
  | HandshakeInit => 1
  | HandshakeResp => 2
  | Data => 3
  | Probe => 4
  | ProbeReply => 5
  | Keepalive => 6
  | Disconnect => 7
  | StatsShare => 8
  | ThroughputTestData => 11
  | ThroughputTestResult => 12
  | ThroughputTestReverseRequest => 13
  | VersionInfo => 14
  | FecParity => 15
  | FecParityQ => 16
  end.

Definition PacketType_from_u8 (v : Z) : outcome PacketType :=
  match v with
  | 1 => Ok HandshakeInit
  | 2 => Ok HandshakeResp
  | 3 => Ok Data
  | 4 => Ok Probe
  | 5 => Ok ProbeReply
  | 6 => Ok Keepalive
  | 7 => Ok Disconnect
  | 8 => Ok StatsShare
  | 11 => Ok ThroughputTestData
  | 12 => Ok ThroughputTestResult
  | 13 => Ok ThroughputTestReverseRequest
  | 14 => Ok VersionInfo
  | 15 => Ok FecParity
  | 16 => Ok FecParityQ
  | other => Err (Protocol ("unknown packet type byte " +:+ pretty other))
  end.

(** ** Header *)

Record Header := mkHeader { ptype : PacketType; link_id : Z; seq : Z }.

Definition Header_to_bytes (h : Header) : outcome (list Z) :=
  let b := replicate HEADER_LEN 0 in
  b ← set_idx b 0 MAGIC;
  b ← set_idx b 1 VERSION;
  b ← set_idx b 2 (PacketType_to_u8 (ptype h));
  b ← set_idx b 3 (link_id h);
  copy_from_slice b 4 12 (u64_to_be (seq h)).

Definition Header_encode (h : Header) (out : list Z) : outcome (list Z) :=
  b ← Header_to_bytes h; mret (out ++ b).

Definition Header_decode (buf : list Z) : outcome (Header * list Z) :=
  _ ← guard_err (bool_decide (length buf < HEADER_LEN)%nat)
        (Protocol "frame shorter than header");
  b0 ← idx buf 0;
  _ ← guard_err (negb (b0 =? MAGIC)) (Protocol "bad magic byte");
  b1 ← idx buf 1;
  _ ← guard_err (negb (b1 =? VERSION))
        (Protocol ("unsupported protocol version " +:+ pretty b1));
  b2 ← idx buf 2;
  pt ← PacketType_from_u8 b2;
  lid ← idx buf 3;
  sq ← slice buf 4 12;
  rest ← slice_from buf HEADER_LEN;
  mret (mkHeader pt lid (from_be sq), rest).

(** ** Probe payload *)

Record ProbePayload := mkProbe { probe_seq : Z; send_ts_ns : Z }.
Definition Probe_LEN : nat := 4 + 8.

Definition ProbePayload_encode (p : ProbePayload) : outcome (list Z) :=
  let out := replicate Probe_LEN 0 in
  out ← copy_from_slice out 0 4 (u32_to_be (probe_seq p));
  copy_from_slice out 4 12 (u64_to_be (send_ts_ns p)).

Definition ProbePayload_decode (buf : list Z) : outcome ProbePayload :=
  _ ← guard_err (bool_decide (length buf < Probe_LEN)%nat)
        (Protocol "probe payload too short");
  a ← slice buf 0 4;
  b ← slice buf 4 12;
  mret (mkProbe (from_be a) (from_be b)).

(** ** Stats payload *)

Record StatsPayload := mkStats {
  s_name : list Z;
  s_rtt_ms : Z;
  s_jitter_ms : Z;
  s_loss_pct : Z;
  s_throughput_mbps : Z;
  s_state : Z;
  s_rx_bytes : option Z }.

Definition NAME_LEN : nat := 16.
Definition LEGACY_LEN : nat := NAME_LEN + 4 * 4 + 1.
Definition Stats_LEN : nat := LEGACY_LEN + 8.

(** Shared by the three name fields of the format: truncate to [n] bytes on a
    character boundary, zero-pad. *)
Definition encode_field (n : nat) (name : list Z) : outcome (list Z) :=
  let out := replicate n 0 in
  let e := floor_boundary name (Nat.min (length name) n) in
  src ← slice name 0 e;
  copy_from_slice out 0 e src.

Definition field_end (n : nat) (f : list Z) : nat :=
  default n (position (λ b, b =? 0) f).

Definition StatsPayload_encode_name (name : list Z) : outcome (list Z) :=
  encode_field NAME_LEN name.

Definition StatsPayload_name_str (p : StatsPayload) : outcome (list Z) :=
  s ← slice (s_name p) 0 (field_end NAME_LEN (s_name p));
  mret (from_utf8_lossy s).

Definition StatsPayload_encode (p : StatsPayload) : outcome (list Z) :=
  let out := replicate Stats_LEN 0 in
  let off := O in
  out ← copy_from_slice out off (off + NAME_LEN) (s_name p);
  let off := (off + NAME_LEN)%nat in
  out ← copy_from_slice out off (off + 4) (u32_to_be (s_rtt_ms p));
  let off := (off + 4)%nat in
  out ← copy_from_slice out off (off + 4) (u32_to_be (s_jitter_ms p));
  let off := (off + 4)%nat in
  out ← copy_from_slice out off (off + 4) (u32_to_be (s_loss_pct p));
  let off := (off + 4)%nat in
  out ← copy_from_slice out off (off + 4) (u32_to_be (s_throughput_mbps p));
  let off := (off + 4)%nat in
  out ← set_idx out off (s_state p);
  let off := (off + 1)%nat in
  copy_from_slice out off (off + 8) (u64_to_be (default 0 (s_rx_bytes p))).

Definition StatsPayload_decode (buf : list Z) : outcome StatsPayload :=
  _ ← guard_err (bool_decide (length buf < LEGACY_LEN)%nat)
        (Protocol "stats payload too short");
  name ← slice buf 0 NAME_LEN;
  let off := NAME_LEN in
  rtt ← slice buf off (off + 4);
  let off := (off + 4)%nat in
  jitter ← slice buf off (off + 4);
  let off := (off + 4)%nat in
  loss ← slice buf off (off + 4);
  let off := (off + 4)%nat in
  thr ← slice buf off (off + 4);
  let off := (off + 4)%nat in
  st ← idx buf off;
  let off := (off + 1)%nat in
  rx ← (if bool_decide (Stats_LEN ≤ length buf)%nat
        then r ← slice buf off (off + 8); mret (Some (from_be r))
        else mret None);
  mret (mkStats name (from_be rtt) (from_be jitter) (from_be loss) (from_be thr)
          st rx).

(** ** Version-info payload *)

Record VersionInfoPayload := mkVersionInfo {
  v_version : list Z;
  v_tunnel_mtu : Z;
  v_live_tunnel_mtu : Z;
  v_primary_link_name : list Z }.

Definition VERSION_LEN : nat := 16.
Definition LINK_NAME_LEN : nat := 16.
Definition VersionInfo_LEN : nat := VERSION_LEN + 2 + LINK_NAME_LEN + 2.

Definition encode_version (version : list Z) : outcome (list Z) :=
  encode_field VERSION_LEN version.

Definition version_str (p : VersionInfoPayload) : outcome (list Z) :=
  s ← slice (v_version p) 0 (field_end VERSION_LEN (v_version p));
  mret (from_utf8_lossy s).

Definition encode_link_name (name : list Z) : outcome (list Z) :=
  encode_field LINK_NAME_LEN name.

Definition primary_link_name_str (p : VersionInfoPayload)
    : outcome (option (list Z)) :=
  let e := field_end LINK_NAME_LEN (v_primary_link_name p) in
  if bool_decide (e = O) then mret None
  else s ← slice (v_primary_link_name p) 0 e; mret (Some (from_utf8_lossy s)).

Definition VersionInfoPayload_encode (p : VersionInfoPayload)
    : outcome (list Z) :=
  let out := replicate VersionInfo_LEN 0 in
  out ← copy_from_slice out 0 VERSION_LEN (v_version p);
  out ← copy_from_slice out VERSION_LEN (VERSION_LEN + 2)
          (u16_to_be (v_tunnel_mtu p));
  out ← copy_from_slice out (VERSION_LEN + 2) (VERSION_LEN + 2 + LINK_NAME_LEN)
          (v_primary_link_name p);
  let live_mtu_start := (VERSION_LEN + 2 + LINK_NAME_LEN)%nat in
  copy_from_slice out live_mtu_start (live_mtu_start + 2)
    (u16_to_be (v_live_tunnel_mtu p)).

Definition VersionInfoPayload_decode (buf : list Z)
    : outcome VersionInfoPayload :=
  _ ← guard_err (bool_decide (length buf < VERSION_LEN)%nat)
        (Protocol "version info payload too short");
  version ← slice buf 0 VERSION_LEN;
  tunnel_mtu ←
    (if bool_decide (VERSION_LEN + 2 ≤ length buf)%nat
     then a ← idx buf VERSION_LEN; b ← idx buf (VERSION_LEN + 1);
          mret (from_be [a; b])
     else mret 0);
  let primary := replicate LINK_NAME_LEN 0 in
  let name_start := (VERSION_LEN + 2)%nat in
  let name_end := (name_start + LINK_NAME_LEN)%nat in
  primary ←
    (if bool_decide (name_end ≤ length buf)%nat
     then s ← slice buf name_start name_end;
          copy_from_slice primary 0 LINK_NAME_LEN s
     else if bool_decide (name_start < length buf)%nat
     then let have := (length buf - name_start)%nat in
          s ← slice buf name_start (length buf);
          copy_from_slice primary 0 have s
     else mret primary);
  let live_mtu_start := name_end in
  live ←
    (if bool_decide (live_mtu_start + 2 ≤ length buf)%nat
     then a ← idx buf live_mtu_start; b ← idx buf (live_mtu_start + 1);
          mret (from_be [a; b])
     else mret 0);
  mret (mkVersionInfo version tunnel_mtu live primary).

(** ** FEC parity payload *)

Record FecParityPayload := mkParity {
  member_seqs : list Z;
  member_lens : list Z;
  parity : list Z }.

Global Instance FecParityPayload_eq_dec : EqDecision FecParityPayload.
Proof. solve_decision. Defined.

Definition FecParityPayload_encode (p : FecParityPayload) : list Z :=
  let group_size := wrap 8 (len (member_seqs p)) in
  let out := [group_size] in
  let out := fold_left (λ out s, out ++ u64_to_be s) (member_seqs p) out in
  let out := fold_left (λ out l, out ++ u16_to_be l) (member_lens p) out in
  let out := out ++ u16_to_be (wrap 16 (len (parity p))) in
  out ++ parity p.

(** The two member loops of [decode]: for [i] in [k..k + n], the [w]-byte
    integer at [base + i * w]. *)
Definition read_ints (buf : list Z) (base w k n : nat) : outcome (list Z) :=
  mapM (λ i, let start := (base + i * w)%nat in
             s ← slice buf start (start + w); mret (from_be s)) (List.seq k n).

Definition FecParityPayload_decode (buf : list Z) : outcome FecParityPayload :=
  _ ← guard_err (bool_decide (buf = [])) (Protocol "fec parity payload empty");
  g ← idx buf 0;
  let group_size := Z.to_nat g in
  let seqs_end := (1 + group_size * 8)%nat in
  let lens_end := (seqs_end + group_size * 2)%nat in
  _ ← guard_err (bool_decide (length buf < lens_end + 2)%nat)
        (Protocol "fec parity payload too short for its own declared group_size");
  seqs ← read_ints buf 1 8 0 group_size;
  lens ← read_ints buf seqs_end 2 0 group_size;
  pl ← slice buf lens_end (lens_end + 2);
  let parity_len := Z.to_nat (from_be pl) in
  _ ← guard_err (bool_decide (length buf < lens_end + 2 + parity_len)%nat)
        (Protocol "fec parity payload shorter than its own declared parity_len");
  par ← slice buf (lens_end + 2) (lens_end + 2 + parity_len);
  mret (mkParity seqs lens par).

(** ** Throughput-test payloads *)

Record ThroughputTestDataPayload := mkTestData { td_test_id : Z; td_done : bool }.
Definition TestData_HEADER_LEN : nat := 4 + 1.

Definition TestData_encode_padded (p : ThroughputTestDataPayload)
    (total_len : nat) : outcome (list Z) :=
  let out := replicate (Nat.max total_len TestData_HEADER_LEN) 0 in
  out ← copy_from_slice out 0 4 (u32_to_be (td_test_id p));
  set_idx out 4 (if td_done p then 1 else 0).

Definition TestData_decode (buf : list Z) : outcome ThroughputTestDataPayload :=
  _ ← guard_err (bool_decide (length buf < TestData_HEADER_LEN)%nat)
        (Protocol "throughput test data payload too short");
  a ← slice buf 0 4;
  d ← idx buf 4;
  mret (mkTestData (from_be a) (negb (d =? 0))).

Record ThroughputTestResultPayload := mkTestResult {
  tr_test_id : Z; tr_achieved_mbps : Z }.
Definition TestResult_LEN : nat := 4 + 4.

Definition TestResult_encode (p : ThroughputTestResultPayload)
    : outcome (list Z) :=
  let out := replicate TestResult_LEN 0 in
  out ← copy_from_slice out 0 4 (u32_to_be (tr_test_id p));
  copy_from_slice out 4 8 (u32_to_be (tr_achieved_mbps p)).

Definition TestResult_decode (buf : list Z)
    : outcome ThroughputTestResultPayload :=
  _ ← guard_err (bool_decide (length buf < TestResult_LEN)%nat)
        (Protocol "throughput test result payload too short");
  a ← slice buf 0 4;
  b ← slice buf 4 8;
  mret (mkTestResult (from_be a) (from_be b)).

Record ThroughputTestReverseRequestPayload := mkReverse {
  rr_test_id : Z; rr_duration_secs : Z }.
Definition Reverse_LEN : nat := 4 + 4.

Definition Reverse_encode (p : ThroughputTestReverseRequestPayload)
    : outcome (list Z) :=
  let out := replicate Reverse_LEN 0 in
  out ← copy_from_slice out 0 4 (u32_to_be (rr_test_id p));
  copy_from_slice out 4 8 (u32_to_be (rr_duration_secs p)).

Definition Reverse_decode (buf : list Z)
    : outcome ThroughputTestReverseRequestPayload :=
  _ ← guard_err (bool_decide (length buf < Reverse_LEN)%nat)
        (Protocol "throughput test reverse request payload too short");
  a ← slice buf 0 4;
  b ← slice buf 4 8;
  mret (mkReverse (from_be a) (from_be b)).

#[export] Hint Unfold HEADER_LEN Probe_LEN NAME_LEN LEGACY_LEN Stats_LEN
  VERSION_LEN LINK_NAME_LEN VersionInfo_LEN TestData_HEADER_LEN TestResult_LEN
  Reverse_LEN u16_to_be u32_to_be u64_to_be : rust.

(** ** Lemmas *)

Arguments replicate : simpl nomatch.

(** Destructs a list of known length into its elements. *)
Ltac explode l H :=
  repeat (destruct l as [|? l]; [discriminate H|]; simpl in H; injection H as H);
  destruct l; [|discriminate H].

Lemma from_u8_to_u8 p : PacketType_from_u8 (PacketType_to_u8 p) = Ok p.
Proof. by destruct p. Qed.

Lemma to_u8_from_u8 v p : PacketType_from_u8 v = Ok p → PacketType_to_u8 p = v.
Proof.
  unfold PacketType_from_u8. intros H.
  repeat (case_match; simplify_eq; try done).
Qed.

Lemma header_bytes h :
  Header_to_bytes h =
    Ok (MAGIC :: VERSION :: PacketType_to_u8 (ptype h) :: link_id h
        :: u64_to_be (seq h)).
Proof. done. Qed.

Lemma header_decode_cons pt lid sq rest :
  length sq = 8%nat →
  Header_decode (MAGIC :: VERSION :: PacketType_to_u8 pt :: lid :: sq ++ rest)
  = Ok (mkHeader pt lid (from_be sq), rest).
Proof.
  intros H. unfold Header_decode. rewrite bool_decide_false by in_range.
  simpl. rewrite from_u8_to_u8. simpl. rust_run.
  rewrite !drop_0, take_app_length' by done. simpl.
  by rewrite drop_app_length' by done.
Qed.

(** Encoding a frame header and decoding the frame gives back the header
    and the payload that follows it, for every packet type, link id and 64-bit
    sequence number. *)
Theorem header_roundtrip h rest :
  fits 64 (seq h) →
  ∃ b, Header_to_bytes h = Ok b ∧ length b = HEADER_LEN ∧
       Header_decode (b ++ rest) = Ok (h, rest).
Proof.
  intros Hs. eexists. split; [apply header_bytes|]. split; [done|].
  cbn [app]. rewrite header_decode_cons by apply length_to_be.
  unfold u64_to_be. rewrite from_to_be by done. by destruct h.
Qed.

Lemma header_decode_inv buf h rest :
  bytes_ok buf → Header_decode buf = Ok (h, rest) →
  ∃ sq, length sq = 8%nat ∧ bytes_ok sq ∧ seq h = from_be sq ∧
        buf = MAGIC :: VERSION :: PacketType_to_u8 (ptype h) :: link_id h
              :: sq ++ rest.
Proof.
  intros Hb H. unfold Header_decode in H. inv_ok.
  rewrite ?bool_decide_eq_false, ?idx_Ok, ?slice_Ok, ?slice_from_Ok in *.
  do 4 (destruct buf as [|? buf]; [done|]). simpl in *. simplify_eq.
  destruct_and!. subst. simpl.
  exists (take 8 (drop 0 buf)). rewrite drop_0 in *.
  match goal with Hp : PacketType_from_u8 _ = Ok _ |- _ =>
    apply to_u8_from_u8 in Hp; rewrite Hp end.
  rewrite negb_false_iff, Z.eqb_eq in *. subst.
  repeat split.
  - in_range.
  - by repeat (inversion_clear Hb as [|?? _ Hb']; rename Hb' into Hb);
      apply bytes_ok_take.
  - by rewrite take_drop.
Qed.

(** A frame that decodes is the encoding of the header it decodes to,
    followed by its payload: no two byte strings stand for one header. *)
Theorem header_canonical buf h rest :
  bytes_ok buf → Header_decode buf = Ok (h, rest) →
  Header_encode h [] = Ok (take HEADER_LEN buf) ∧ rest = drop HEADER_LEN buf.
Proof.
  intros Hb Hd. destruct (header_decode_inv _ _ _ Hb Hd) as (sq & Hl & Ho & Hs & ->).
  unfold Header_encode. rewrite header_bytes. cbn [mbind outcome_bind].
  unfold u64_to_be. rewrite Hs, <- Hl, to_from_be by done. simpl.
  by rewrite take_app_length', drop_app_length' by done.
Qed.

Lemma stats_bytes p :
  length (s_name p) = NAME_LEN →
  StatsPayload_encode p =
    Ok (s_name p ++ u32_to_be (s_rtt_ms p) ++ u32_to_be (s_jitter_ms p) ++
        u32_to_be (s_loss_pct p) ++ u32_to_be (s_throughput_mbps p) ++
        [s_state p] ++ u64_to_be (default 0 (s_rx_bytes p))).
Proof. destruct p as [nm ??????]. simpl. intros H. by explode nm H. Qed.

(** The fields of a stats frame, as the wire carries them: an absent
    [rx_bytes] is written as zero. *)
Definition StatsPayload_ok (p : StatsPayload) : Prop :=
  length (s_name p) = NAME_LEN ∧ fits 32 (s_rtt_ms p) ∧ fits 32 (s_jitter_ms p) ∧
  fits 32 (s_loss_pct p) ∧ fits 32 (s_throughput_mbps p) ∧
  fits 64 (default 0 (s_rx_bytes p)).

Definition with_rx (p : StatsPayload) (rx : option Z) : StatsPayload :=
  mkStats (s_name p) (s_rtt_ms p) (s_jitter_ms p) (s_loss_pct p)
    (s_throughput_mbps p) (s_state p) rx.

(** Passes the length check at the head of a decoder. *)
Ltac pass_guard :=
  rewrite guard_err_false
    by (apply bool_decide_eq_false; cbn [length]; autounfold with rust; lia);
  cbn [mbind outcome_bind].

(** Runs the next slice read of an explicit buffer. *)
Ltac read_next :=
  match goal with |- context [mbind _ (slice ?b ?i ?j)] =>
    rewrite (slice_ok b i j) by (cbn [length]; autounfold with rust; lia)
  end; cbn [mbind outcome_bind].

Lemma stats_decode_fields nm a b c d st r :
  length nm = NAME_LEN → length a = 4%nat → length b = 4%nat →
  length c = 4%nat → length d = 4%nat →
  StatsPayload_decode (nm ++ a ++ b ++ c ++ d ++ [st] ++ r) =
    Ok (mkStats nm (from_be a) (from_be b) (from_be c) (from_be d) st
          (if bool_decide (8 ≤ length r)%nat then Some (from_be (take 8 r)) else None)).
Proof.
  intros Hn Ha Hb Hc Hd.
  explode nm Hn. explode a Ha. explode b Hb. explode c Hc. explode d Hd.
  cbn [app]. unfold StatsPayload_decode. cbv zeta. cbn [length].
  pass_guard.
  do 5 read_next.
  case_bool_decide; case_bool_decide; unfold Stats_LEN, LEGACY_LEN, NAME_LEN in *;
    try lia; [|done].
  read_next. cbn [Nat.sub Nat.add drop].
  by rewrite drop_0.
Qed.

Lemma stats_legacy (nm a b c d : list Z) st r :
  length nm = NAME_LEN → length a = 4%nat → length b = 4%nat →
  length c = 4%nat → length d = 4%nat →
  take LEGACY_LEN (nm ++ a ++ b ++ c ++ d ++ [st] ++ r)
  = nm ++ a ++ b ++ c ++ d ++ [st] ++ [].
Proof.
  intros Hn Ha Hb Hc Hd.
  by explode nm Hn; explode a Ha; explode b Hb; explode c Hc; explode d Hd.
Qed.

(** A link-stats payload survives the wire: the current layout gives every
    field back (an absent byte counter arrives as 0), and a buffer cut at the
    legacy length, as an older peer sends it, gives all but that counter. *)
Theorem stats_roundtrip p rest :
  StatsPayload_ok p →
  ∃ b, StatsPayload_encode p = Ok b ∧ length b = Stats_LEN ∧
       StatsPayload_decode (b ++ rest)
       = Ok (with_rx p (Some (default 0 (s_rx_bytes p)))) ∧
       StatsPayload_decode (take LEGACY_LEN b) = Ok (with_rx p None).
Proof.
  intros (Hn & H1 & H2 & H3 & H4 & H5). eexists.
  split; [by apply stats_bytes|]. split; [|split].
  - autorewrite with rust. rewrite Hn. done.
  - rewrite <- !app_assoc. rewrite stats_decode_fields by (done || apply length_to_be).
    unfold u32_to_be, u64_to_be. rewrite bool_decide_true by in_range.
    rewrite take_app_length' by by rewrite length_to_be.
    by rewrite !from_to_be by done.
  - rewrite stats_legacy by (done || apply length_to_be).
    rewrite stats_decode_fields by (done || apply length_to_be).
    unfold u32_to_be. by rewrite !from_to_be by done.
Qed.

Lemma field_encoded n name :
  encode_field n name =
    Ok (take (floor_boundary name (Nat.min (length name) n)) name ++
        replicate (n - floor_boundary name (Nat.min (length name) n)) 0).
Proof.
  unfold encode_field. pose proof (floor_boundary_le name (Nat.min (length name) n)).
  set (e := floor_boundary _ _) in *. rewrite slice_ok by lia. cbn [mbind outcome_bind].
  rewrite drop_0, Nat.sub_0_r. rewrite copy_ok; cycle 1.
  - rewrite length_replicate. lia.
  - rewrite length_take. lia.
  - by rewrite drop_replicate.
Qed.

Lemma field_decoded n s :
  (length s ≤ n)%nat → Forall (λ b, b ≠ 0) s →
  field_end n (s ++ replicate (n - length s) 0) = length s.
Proof.
  intros Hl Hs. pose proof (position_padded s (n - length s) Hs) as E.
  by replace (length s + (n - length s))%nat with n in E by lia.
Qed.

(** A link name stored in its fixed 16-byte field is read back as its
    longest prefix that fits and ends on a character boundary; a name that fits
    is read back whole. *)
Theorem name_field_roundtrip p name f :
  valid_utf8 name = true → Forall (λ b, b ≠ 0) name →
  StatsPayload_encode_name name = Ok f → s_name p = f →
  let e := floor_boundary name (Nat.min (length name) NAME_LEN) in
  length f = NAME_LEN ∧ StatsPayload_name_str p = Ok (take e name) ∧
  ((length name ≤ NAME_LEN)%nat → StatsPayload_name_str p = Ok name).
Proof.
  intros Hv Hz Hf Hp e. unfold StatsPayload_encode_name in Hf.
  rewrite field_encoded in Hf. fold e in Hf. injection Hf as <-.
  pose proof (floor_boundary_le name (Nat.min (length name) NAME_LEN)) as He.
  fold e in He. assert (length (take e name) = e) as Hl by in_range.
  assert (StatsPayload_name_str p = Ok (take e name)) as Hs.
  { unfold StatsPayload_name_str. rewrite Hp.
    replace (NAME_LEN - e)%nat with (NAME_LEN - length (take e name))%nat by lia.
    rewrite field_decoded by (by apply Forall_take || lia).
    rewrite slice_ok by in_range. cbn [mbind outcome_bind].
    rewrite drop_0, Nat.sub_0_r, take_app_length.
    by rewrite lossy_valid by (apply valid_take_boundary; [done|lia]). }
  split; [in_range|]. split; [done|]. intros Hle. rewrite Hs. f_equal.
  unfold e. rewrite Nat.min_l, floor_boundary_len by done. apply firstn_all.
Qed.

Lemma version_bytes p :
  length (v_version p) = VERSION_LEN →
  length (v_primary_link_name p) = LINK_NAME_LEN →
  VersionInfoPayload_encode p =
    Ok (v_version p ++ u16_to_be (v_tunnel_mtu p) ++ v_primary_link_name p ++
        u16_to_be (v_live_tunnel_mtu p)).
Proof.
  destruct p as [v ?? n]. simpl. intros Hv Hn. by explode v Hv; explode n Hn.
Qed.

Lemma take_2 {A} (b : list A) i x y :
  b !! i = Some x → b !! S i = Some y → take 2 (drop i b) = [x; y].
Proof. intros Hx Hy. by rewrite (drop_S _ _ _ Hx), (drop_S _ _ _ Hy). Qed.

(** The optional big-endian [u16] at offset [i]. *)
Lemma read_u16 buf i :
  (if bool_decide (i + 2 ≤ length buf)%nat
   then a ← idx buf i; b ← idx buf (i + 1); mret (from_be [a; b])
   else mret 0)
  = Ok (if bool_decide (i + 2 ≤ length buf)%nat
        then from_be (take 2 (drop i buf)) else 0).
Proof.
  case_bool_decide as H; [|done]. rewrite Nat.add_1_r.
  destruct (lookup_lt_is_Some_2 buf i) as [x Hx]; [lia|].
  destruct (lookup_lt_is_Some_2 buf (S i)) as [y Hy]; [lia|].
  by rewrite (idx_Some _ _ _ Hx), (take_2 _ _ _ _ Hx Hy); simpl;
    rewrite (idx_Some _ _ _ Hy).
Qed.

(** The zero-padded field of at most [n] bytes at offset [i]. *)
Lemma read_field buf i n :
  (if bool_decide (i + n ≤ length buf)%nat
   then s ← slice buf i (i + n); copy_from_slice (replicate n 0) 0 n s
   else if bool_decide (i < length buf)%nat
   then s ← slice buf i (length buf);
        copy_from_slice (replicate n 0) 0 (length buf - i) s
   else mret (replicate n 0))
  = Ok (resize0 n (drop i buf)).
Proof.
  unfold resize0. rewrite length_drop. repeat case_bool_decide.
  - read_next. rewrite copy_ok by in_range. rewrite take_0, app_nil_l.
    rewrite drop_replicate, Nat.sub_diag, app_nil_r.
    replace (n - (length buf - i))%nat with O by lia.
    by replace (i + n - i)%nat with n by lia; rewrite app_nil_r.
  - read_next. rewrite copy_ok by in_range. rewrite take_0, app_nil_l.
    rewrite drop_replicate, (firstn_all2 (n := n)) by (rewrite length_drop; lia).
    by rewrite firstn_all2 by (rewrite length_drop; lia).
  - rewrite drop_ge by lia. replace (length buf - i)%nat with O by lia.
    by rewrite Nat.sub_0_r, take_nil.
Qed.

(** What the decoder makes of any buffer that carries the version field. *)
Lemma version_decode_eq buf :
  (VERSION_LEN ≤ length buf)%nat →
  VersionInfoPayload_decode buf =
    Ok (mkVersionInfo (take 16 buf)
          (if bool_decide (18 ≤ length buf)%nat
           then from_be (take 2 (drop 16 buf)) else 0)
          (if bool_decide (36 ≤ length buf)%nat
           then from_be (take 2 (drop 34 buf)) else 0)
          (resize0 16 (drop 18 buf))).
Proof.
  intros H. unfold VersionInfoPayload_decode. autounfold with rust in *. cbv zeta.
  pass_guard. read_next. rewrite drop_0, Nat.sub_0_r, read_u16.
  cbn [mbind outcome_bind]. rewrite read_field. cbn [mbind outcome_bind].
  by rewrite read_u16.
Qed.

Lemma resize0_take_app n m (s r : list Z) :
  length s = n → resize0 n (take m (s ++ r)) = resize0 n (take m s).
Proof.
  intros H. destruct (decide (m ≤ n)%nat).
  - by rewrite take_app_le by lia.
  - unfold resize0. rewrite (take_app_ge s r) by lia.
    rewrite (firstn_all2 (n := m) s) by lia.
    rewrite take_app_length', (firstn_all2 (n := n) s), length_app by lia.
    by replace (n - (length s + length (take (m - length s) r)))%nat
      with (n - length s)%nat by lia.
Qed.

(** A version-info payload decodes from every prefix that holds the
    version string: the fields an older peer does not send read as 0 or empty,
    and the others are what was encoded. *)
Theorem version_info_prefix p rest k :
  length (v_version p) = VERSION_LEN →
  length (v_primary_link_name p) = LINK_NAME_LEN →
  fits 16 (v_tunnel_mtu p) → fits 16 (v_live_tunnel_mtu p) →
  (VERSION_LEN ≤ k ≤ VersionInfo_LEN + length rest)%nat →
  ∃ b, VersionInfoPayload_encode p = Ok b ∧ length b = VersionInfo_LEN ∧
    VersionInfoPayload_decode (take k (b ++ rest)) =
      Ok (mkVersionInfo (v_version p)
            (if bool_decide (18 ≤ k)%nat then v_tunnel_mtu p else 0)
            (if bool_decide (36 ≤ k)%nat then v_live_tunnel_mtu p else 0)
            (resize0 16 (take (k - 18) (v_primary_link_name p)))).
Proof.
  intros Hv Hn Hm Hl Hk. eexists. split; [by apply version_bytes|].
  destruct p as [v m l n]. cbn [v_version v_tunnel_mtu v_live_tunnel_mtu
    v_primary_link_name] in *.
  assert (length (v ++ u16_to_be m ++ n ++ u16_to_be l) = VersionInfo_LEN) as Hlen
    by (autorewrite with rust; autounfold with rust; rewrite !length_to_be; in_range).
  split; [done|]. autounfold with rust in Hk.
  rewrite version_decode_eq by (rewrite length_take, length_app; in_range).
  rewrite length_take, length_app, Hlen, Nat.min_l by (autounfold with rust; lia).
  rewrite take_take, Nat.min_l by lia. rewrite <- !app_assoc.
  rewrite !skipn_firstn_comm. f_equal. f_equal.
  - by rewrite take_app_length'.
  - case_bool_decide; [|done]. rewrite take_take, Nat.min_l by lia.
    rewrite drop_app_length', take_app_length' by (done || by rewrite length_to_be).
    by apply (from_to_be 2).
  - case_bool_decide; [|done]. rewrite take_take, Nat.min_l by lia.
    rewrite !app_assoc, <- (app_assoc _ (u16_to_be l)).
    rewrite drop_app_length', take_app_length'
      by (done || by autorewrite with rust; autounfold with rust;
          rewrite ?length_to_be; in_range).
    by apply (from_to_be 2).
  - rewrite app_assoc, drop_app_length' by in_range.
    by rewrite resize0_take_app.
Qed.

(** ** The FEC parity payload *)

Definition be_concat (w : nat) (vs : list Z) : list Z := flat_map (to_be w) vs.

Lemma fold_be_concat w vs out :
  fold_left (λ out s, out ++ to_be w s) vs out = out ++ be_concat w vs.
Proof.
  unfold be_concat. revert out; induction vs as [|v vs IH]; intros out; simpl.
  - by rewrite app_nil_r.
  - by rewrite IH, <- app_assoc.
Qed.

Lemma parity_bytes p :
  FecParityPayload_encode p =
    wrap 8 (len (member_seqs p)) :: be_concat 8 (member_seqs p) ++
    be_concat 2 (member_lens p) ++ u16_to_be (wrap 16 (len (parity p))) ++ parity p.
Proof.
  unfold FecParityPayload_encode, u64_to_be, u16_to_be. rewrite !fold_be_concat. cbn [app].
  by rewrite <- !app_assoc.
Qed.

Lemma length_be_concat w vs : length (be_concat w vs) = (length vs * w)%nat.
Proof.
  induction vs as [|v vs IH]; [done|]. unfold be_concat in *. simpl.
  rewrite length_app, length_to_be, IH. lia.
Qed.

Lemma slice_mid {A} (pre s post : list A) i j :
  length pre = i → j = (i + length s)%nat → slice (pre ++ s ++ post) i j = Ok s.
Proof.
  intros <- ->. rewrite slice_ok by (rewrite !length_app; lia).
  rewrite drop_app_length, Nat.add_comm, Nat.add_sub. by rewrite take_app_length.
Qed.

(** Reading consecutive [w]-byte integers gives back the encoded ones. *)
Lemma read_ints_concat w vs st k pre post :
  Forall (fits (8 * Z.of_nat w)) vs → length pre = (st + k * w)%nat →
  read_ints (pre ++ be_concat w vs ++ post) st w k (length vs) = Ok vs.
Proof.
  unfold read_ints. intros Hv.
  revert pre k; induction Hv as [|v vs Hv Hvs IH]; intros pre k Hp; [done|].
  cbn [length List.seq]. unfold be_concat in *. cbn [flat_map].
  rewrite <- app_assoc. change (mapM ?f (k :: ?l)) with
    (y ← f k; ys ← mapM f l; mret (y :: ys)). cbn beta zeta.
  rewrite slice_mid by (by try rewrite length_to_be).
  cbn [mbind outcome_bind mret outcome_ret]. rewrite from_to_be by done.
  by rewrite app_assoc, IH by (rewrite length_app, length_to_be; lia).
Qed.

(** The bounds under which the self-describing format is lossless: what
    [FecSender] emits. *)
Definition FecParityPayload_ok (p : FecParityPayload) : Prop :=
  length (member_seqs p) = length (member_lens p) ∧ len (member_seqs p) < 2 ^ 8 ∧
  Forall (fits 64) (member_seqs p) ∧ Forall (fits 16) (member_lens p) ∧
  len (parity p) < 2 ^ 16.

(** The decoder on a well-formed buffer, field by field. *)
Lemma parity_decode_fields ss ls pa rest :
  length ss = length ls → Forall (fits 64) ss → Forall (fits 16) ls →
  len pa < 2 ^ 16 →
  FecParityPayload_decode
    ([len ss] ++ be_concat 8 ss ++ be_concat 2 ls ++ u16_to_be (len pa) ++ pa ++ rest)
  = Ok (mkParity ss ls pa).
Proof.
  intros Hl Hs Hls Hp.
  set (buf := [len ss] ++ _).
  assert (length buf = 1 + length ss * 10 + 2 + length pa + length rest)%nat as Hb.
  { unfold buf, u16_to_be. autorewrite with rust. rewrite !length_be_concat. simpl. lia. }
  unfold FecParityPayload_decode. rewrite bool_decide_false by by destruct buf.
  assert (idx buf 0 = Ok (len ss)) as -> by done.
  cbn [guard_err mbind outcome_bind]. cbv zeta.
  replace (Z.to_nat (len ss)) with (length ss) by (unfold len; lia).
  rewrite bool_decide_false by lia. cbn [guard_err mbind outcome_bind].
  assert (read_ints buf 1 8 0 (length ss) = Ok ss) as -> by
    by apply (read_ints_concat 8 ss 1 0 [len ss]).
  cbn [mbind outcome_bind].
  assert (read_ints buf (1 + length ss * 8) 2 0 (length ss) = Ok ls) as ->.
  { unfold buf. rewrite (app_assoc [_]), Hl.
    apply (read_ints_concat 2 ls (1 + length ls * 8) 0); [done|].
    rewrite length_app, length_be_concat. simpl. lia. }
  cbn [mbind outcome_bind].
  assert (slice buf (1 + length ss * 8 + length ss * 2)
    (1 + length ss * 8 + length ss * 2 + 2) = Ok (u16_to_be (len pa))) as ->.
  { unfold buf. rewrite (app_assoc [_]), (app_assoc (_ ++ _)).
    apply slice_mid; [|by unfold u16_to_be; rewrite length_to_be].
    rewrite !length_app, !length_be_concat. simpl. lia. }
  cbn [mbind outcome_bind]. unfold u16_to_be at 1 2 3. rewrite (from_to_be 2)
    by (unfold len, fits in *; lia).
  replace (Z.to_nat (len pa)) with (length pa) by (unfold len; lia).
  rewrite bool_decide_false by lia. cbn [guard_err mbind outcome_bind].
  unfold buf. rewrite !app_assoc, <- (app_assoc _ pa rest).
  rewrite slice_mid; [done| |lia].
  unfold u16_to_be. rewrite !length_app, !length_be_concat, length_to_be. simpl. lia.
Qed.

Lemma returns_read_ints buf base w k n :
  (base + (k + n) * w ≤ length buf)%nat → returns (read_ints buf base w k n).
Proof.
  unfold read_ints. revert k; induction n as [|n IH]; intros k H; [done|].
  cbn [List.seq]. change (mapM ?f (k :: ?l)) with
    (y ← f k; ys ← mapM f l; mret (y :: ys)). cbn beta zeta.
  apply returns_bind; [apply returns_bind; [apply returns_slice; nia|done]|].
  intros. apply returns_bind; [apply IH; nia|done].
Qed.

Lemma parity_decode_returns buf : returns (FecParityPayload_decode buf).
Proof.
  unfold FecParityPayload_decode.
  apply returns_bind; [apply returns_guard|]. intros [] Hne.
  apply guard_err_Ok, bool_decide_eq_false in Hne.
  apply returns_bind; [apply returns_idx; destruct buf; simpl; [done|lia]|].
  intros g _. cbv zeta. set (n := Z.to_nat g).
  apply returns_bind; [apply returns_guard|]. intros [] Hl.
  apply guard_err_Ok, bool_decide_eq_false in Hl.
  apply returns_bind; [apply returns_read_ints; lia|]. intros ss _.
  apply returns_bind; [apply returns_read_ints; lia|]. intros ls _.
  returns_run.
Qed.

(** An accepted buffer holds everything it declares. *)
Lemma parity_decode_size buf q :
  FecParityPayload_decode buf = Ok q →
  ∃ g, buf !! 0%nat = Some g ∧
    let at_len := (1 + Z.to_nat g * 8 + Z.to_nat g * 2)%nat in
    (at_len + 2 + Z.to_nat (from_be (take 2 (drop at_len buf))) ≤ length buf)%nat.
Proof.
  unfold FecParityPayload_decode. intros H. inv_ok.
  rewrite ?idx_Ok, ?slice_Ok, ?bool_decide_eq_false in *. destruct_and!. subst.
  match goal with Hg : buf !! 0%nat = Some ?g |- _ => exists g end.
  split; [done|]. cbv zeta.
  replace (1 + Z.to_nat x0 * 8 + Z.to_nat x0 * 2 + 2 -
    (1 + Z.to_nat x0 * 8 + Z.to_nat x0 * 2))%nat with 2%nat in * by lia. lia.
Qed.

(** A FEC parity payload decodes to itself whatever follows it, and every
    proper prefix of its encoding is rejected with an error. *)
Theorem parity_roundtrip p rest :
  FecParityPayload_ok p →
  FecParityPayload_decode (FecParityPayload_encode p ++ rest) = Ok p ∧
  ∀ k, (k < length (FecParityPayload_encode p))%nat →
       ∃ e, FecParityPayload_decode (take k (FecParityPayload_encode p)) = Err e.
Proof.
  intros (Hl & Hg & Hs & Hls & Hp). destruct p as [ss ls pa]. simpl in Hl, Hg, Hs, Hls, Hp.
  rewrite parity_bytes. cbn [member_seqs member_lens parity].
  rewrite !wrap_small by (unfold fits, len in *; lia).
  split; [rewrite <- parity_decode_fields with (rest := rest) by done;
          cbn [app]; by rewrite <- !app_assoc|].
  intros k Hk. set (b := len ss :: _) in *.
  destruct (FecParityPayload_decode (take k b)) as [q|e|] eqn:E; [|by eexists|].
  2:{ by apply parity_decode_returns in E. }
  exfalso. apply parity_decode_size in E as (g & Hg0 & Hsz).
  destruct k as [|k]; [done|]. simpl in Hg0. injection Hg0 as <-.
  replace (Z.to_nat (len ss)) with (length ss) in Hsz by (unfold len; lia).
  cbv zeta in Hsz. rewrite skipn_firstn_comm, take_take in Hsz.
  rewrite length_take in Hsz.
  assert (take 2 (drop (1 + length ss * 8 + length ss * 2) b) = u16_to_be (len pa)) as Ht.
  { unfold b. rewrite app_comm_cons, app_assoc.
    rewrite drop_app_length' by (rewrite length_app; simpl; rewrite !length_be_concat; lia).
    by apply take_app_length'. }
  rewrite Nat.min_l, Ht in Hsz by lia. unfold u16_to_be in Hsz.
  rewrite (from_to_be 2) in Hsz by (unfold fits, len in *; lia).
  revert Hk. unfold b. cbn [length]. unfold u16_to_be. rewrite !length_app, !length_be_concat, length_to_be.
  unfold len in Hsz. lia.
Qed.

(** ** Decoders on arbitrary input *)

Lemma from_u8_returns v : returns (PacketType_from_u8 v).
Proof. unfold PacketType_from_u8. by repeat case_match. Qed.

Lemma header_decode_returns buf : returns (Header_decode buf).
Proof.
  unfold Header_decode. do 6 (returns_run; try apply from_u8_returns).
Qed.

Lemma stats_decode_returns buf : returns (StatsPayload_decode buf).
Proof. unfold StatsPayload_decode. returns_run. Qed.

Lemma version_decode_returns buf : returns (VersionInfoPayload_decode buf).
Proof.
  destruct (decide (VERSION_LEN ≤ length buf)%nat).
  - by rewrite version_decode_eq.
  - unfold VersionInfoPayload_decode.
    by rewrite (bool_decide_true (length buf < VERSION_LEN)%nat) by lia.
Qed.

Lemma fixed_decodes_return buf :
  returns (ProbePayload_decode buf) ∧ returns (TestData_decode buf) ∧
  returns (TestResult_decode buf) ∧ returns (Reverse_decode buf).
Proof.
  unfold ProbePayload_decode, TestData_decode, TestResult_decode, Reverse_decode.
  repeat split; returns_run.
Qed.

(** C39. No decoder of the wire protocol panics: for every buffer, of any
    length and content, each of the eight decoders returns a value or an error. *)
Theorem decoders_never_panic buf :
  returns (Header_decode buf) ∧ returns (ProbePayload_decode buf) ∧
  returns (StatsPayload_decode buf) ∧ returns (VersionInfoPayload_decode buf) ∧
  returns (FecParityPayload_decode buf) ∧ returns (TestData_decode buf) ∧
  returns (TestResult_decode buf) ∧ returns (Reverse_decode buf).
Proof.
  destruct (fixed_decodes_return buf) as (?&?&?&?).
  repeat split; auto using header_decode_returns, stats_decode_returns,
    version_decode_returns, parity_decode_returns.
Qed.

Lemma pair_encode (a b : list Z) n m :
  length a = n → length b = m →
  (out ← copy_from_slice (replicate (n + m) 0) 0 n a;
   copy_from_slice out n (n + m) b) = Ok (a ++ b).
Proof.
  intros <- <-. rewrite copy_ok by in_range. cbn [mbind outcome_bind].
  rewrite take_0, app_nil_l, copy_ok by in_range. f_equal.
  by rewrite take_app_length, drop_ge, app_nil_r by in_range.
Qed.

Lemma pair_decode (a b rest : list Z) :
  slice (a ++ b ++ rest) 0 (length a) = Ok a ∧
  slice (a ++ b ++ rest) (length a) (length a + length b) = Ok b.
Proof. split; [by apply (slice_mid [])|by apply slice_mid]. Qed.

Lemma padded_encode id d n :
  TestData_encode_padded (mkTestData id d) n =
  Ok (u32_to_be id ++ (if d then 1 else 0)
      :: replicate (n - TestData_HEADER_LEN) 0).
Proof.
  unfold TestData_encode_padded, u32_to_be.
  rewrite copy_ok by in_range. cbn [mbind outcome_bind td_test_id td_done].
  rewrite take_0, app_nil_l, set_idx_ok by in_range.
  rewrite drop_replicate. f_equal.
  rewrite insert_app_r_alt by in_range. f_equal. rewrite length_to_be.
  replace (Nat.max n TestData_HEADER_LEN - 4)%nat
    with (S (n - TestData_HEADER_LEN)) by in_range.
  done.
Qed.

(** The probe, throughput-result, reverse-request and padded
    throughput-data payloads decode to what was encoded, with trailing bytes
    ignored and the padding at any requested size. *)
Theorem fixed_payload_roundtrips pseq ts id mbps secs d n rest :
  fits 32 pseq → fits 64 ts → fits 32 id → fits 32 mbps → fits 32 secs →
  (b ← ProbePayload_encode (mkProbe pseq ts); ProbePayload_decode (b ++ rest))
    = Ok (mkProbe pseq ts) ∧
  (b ← TestResult_encode (mkTestResult id mbps); TestResult_decode (b ++ rest))
    = Ok (mkTestResult id mbps) ∧
  (b ← Reverse_encode (mkReverse id secs); Reverse_decode (b ++ rest))
    = Ok (mkReverse id secs) ∧
  (b ← TestData_encode_padded (mkTestData id d) n; TestData_decode (b ++ rest))
    = Ok (mkTestData id d).
Proof.
  intros Hp Ht Hi Hm Hs.
  unfold ProbePayload_encode, ProbePayload_decode, TestResult_encode,
    TestResult_decode, Reverse_encode, Reverse_decode, Probe_LEN,
    TestResult_LEN, Reverse_LEN, u32_to_be, u64_to_be.
  cbn [probe_seq send_ts_ns tr_test_id tr_achieved_mbps rr_test_id rr_duration_secs].
  assert (∀ k v w rest', let b := to_be 4 v ++ to_be k w in
    slice (b ++ rest') 0 4 = Ok (to_be 4 v) ∧
    slice (b ++ rest') 4 (4 + k) = Ok (to_be k w) ∧
    bool_decide (length (b ++ rest') < 4 + k)%nat = false) as Hrd.
  { intros k v w rest' b. unfold b. rewrite <- app_assoc.
    destruct (pair_decode (to_be 4 v) (to_be k w) rest') as [H1 H2].
    rewrite !length_to_be in *. split; [done|]. split; [done|].
    apply bool_decide_eq_false. in_range. }
  rewrite (pair_encode _ _ 4 8), !(pair_encode _ _ 4 4) by apply length_to_be.
  cbn [mbind outcome_bind].
  destruct (Hrd 8%nat pseq ts rest) as (-> & E2 & ->).
  destruct (Hrd 4%nat id mbps rest) as (-> & E3 & ->).
  destruct (Hrd 4%nat id secs rest) as (-> & E4 & ->).
  cbn [guard_err mbind outcome_bind Nat.add] in *. rewrite E2, E3, E4.
  cbn [mbind outcome_bind]. rewrite !from_to_be by done.
  repeat split. rewrite padded_encode. cbn [mbind outcome_bind]. unfold TestData_decode.
  rewrite guard_err_false by (apply bool_decide_eq_false; in_range).
  cbn [mbind outcome_bind]. rewrite <- app_assoc.
  assert (∀ t, slice (u32_to_be id ++ t) 0 4 = Ok (u32_to_be id)) as ->
    by (intros t; by apply (slice_mid [])).
  cbn [mbind outcome_bind].
  rewrite idx_Some with (x := if d then 1 else 0) by done.
  unfold u32_to_be. cbn [mbind outcome_bind mret outcome_ret].
  rewrite from_to_be by done. by destruct d.
Qed.

(** ** Instances *)

Lemma header_roundtrip_witness :
  ∃ b, Header_to_bytes (mkHeader Data 1 7) = Ok b ∧ length b = HEADER_LEN ∧
       Header_decode (b ++ [9; 9]) = Ok (mkHeader Data 1 7, [9; 9]).
Proof. apply header_roundtrip. unfold fits. cbn. lia. Defined.

Lemma header_canonical_witness :
  Header_encode (mkHeader Data 1 7) [] = Ok [0x4D; 1; 3; 1; 0; 0; 0; 0; 0; 0; 0; 7] ∧
  [9] = drop HEADER_LEN [0x4D; 1; 3; 1; 0; 0; 0; 0; 0; 0; 0; 7; 9].
Proof.
  apply (header_canonical [0x4D; 1; 3; 1; 0; 0; 0; 0; 0; 0; 0; 7; 9] (mkHeader Data 1 7) [9]).
  - repeat constructor; lia.
  - reflexivity.
Defined.

Definition sample_stats : StatsPayload := mkStats (replicate 16 97) 1 2 3 4 2 (Some 99).

Lemma stats_roundtrip_witness :
  ∃ b, StatsPayload_encode sample_stats = Ok b ∧ length b = Stats_LEN ∧
       StatsPayload_decode (b ++ [5]) = Ok (with_rx sample_stats (Some 99)) ∧
       StatsPayload_decode (take LEGACY_LEN b) = Ok (with_rx sample_stats None).
Proof.
  apply (stats_roundtrip sample_stats [5]).
  split; [reflexivity|]. unfold fits. cbn. lia.
Defined.

Lemma name_field_roundtrip_witness :
  let p := mkStats ([119; 97; 110] ++ replicate 13 0) 0 0 0 0 0 None in
  length (s_name p) = NAME_LEN ∧ StatsPayload_name_str p = Ok [119; 97; 110] ∧
  ((3 ≤ NAME_LEN)%nat → StatsPayload_name_str p = Ok [119; 97; 110]).
Proof.
  apply (name_field_roundtrip _ [119; 97; 110]); try reflexivity.
  repeat constructor; lia.
Defined.

Lemma version_info_prefix_witness :
  let p := mkVersionInfo (replicate 16 49) 1400 1380 (replicate 16 98) in
  ∃ b, VersionInfoPayload_encode p = Ok b ∧ length b = VersionInfo_LEN ∧
    VersionInfoPayload_decode (take 18 (b ++ [])) =
      Ok (mkVersionInfo (replicate 16 49)
            (if bool_decide (18 ≤ 18)%nat then 1400 else 0)
            (if bool_decide (36 ≤ 18)%nat then 1380 else 0)
            (resize0 16 (take (18 - 18) (replicate 16 98)))).
Proof.
  apply version_info_prefix; [reflexivity|reflexivity|unfold fits; cbn; lia..|].
  vm_compute. lia.
Defined.

Lemma parity_roundtrip_witness :
  let p := mkParity [5; 6] [2; 3] [1; 2; 3] in
  FecParityPayload_decode (FecParityPayload_encode p ++ [0]) = Ok p ∧
  ∀ k, (k < length (FecParityPayload_encode p))%nat →
       ∃ e, FecParityPayload_decode (take k (FecParityPayload_encode p)) = Err e.
Proof.
  apply parity_roundtrip. unfold FecParityPayload_ok, fits. cbn.
  split_and!; try lia; repeat constructor; lia.
Defined.

Lemma fixed_payload_roundtrips_witness :
  (b ← ProbePayload_encode (mkProbe 1 2); ProbePayload_decode (b ++ [0]))
    = Ok (mkProbe 1 2) ∧
  (b ← TestResult_encode (mkTestResult 3 4); TestResult_decode (b ++ [0]))
    = Ok (mkTestResult 3 4) ∧
  (b ← Reverse_encode (mkReverse 3 5); Reverse_decode (b ++ [0]))
    = Ok (mkReverse 3 5) ∧
  (b ← TestData_encode_padded (mkTestData 3 true) 40; TestData_decode (b ++ [0]))
    = Ok (mkTestData 3 true).
Proof. apply fixed_payload_roundtrips; unfold fits; lia. Defined.
