(* ===== verification/Gf256.v ===== *)
(** * GF(256) arithmetic ([fec.rs], [mod gf])

    The RAID-6 field (polynomial 0x11d, generator 2) as the source computes
    it, with exponent and logarithm tables, and the proof that these tables
    multiply polynomials over GF(2) modulo 0x11d. *)

From S2P Require Import Prelude Bytes.

Module gf.

(** One round of the loop that fills both tables: [exp[i] = x],
    [log[x] = i], [x = x * 2 mod 0x11d]. *)
Definition table_step (st : list Z * list Z * Z) (i : nat) : list Z * list Z * Z :=
  let '(exp, log, x) := st in
  let exp := <[i := wrap 8 x]> exp in
  let log := <[Z.to_nat x := wrap 8 (Z.of_nat i)]> log in
  let x := wrap 16 (Z.shiftl x 1) in
  let x := if negb (Z.land x 0x100 =? 0) then Z.lxor x 0x11d else x in
  (exp, log, x).

Definition build_tables : list Z * list Z :=
  let exp := replicate 512 0 in
  let log := replicate 256 0 in
  let '(exp, log, _) := fold_left table_step (List.seq 0 255) (exp, log, 1) in
  let exp := fold_left (λ exp j, <[j := exp !!! (j - 255)%nat]> exp)
               (List.seq 255 257) exp in
  (exp, log).

Definition TABLES : list Z * list Z := Eval vm_compute in build_tables.

Definition exp_at (i : Z) : Z := TABLES.1 !!! Z.to_nat i.
Definition log_at (a : Z) : Z := TABLES.2 !!! Z.to_nat a.

Definition mul_slow (a b : Z) : Z :=
  if (a =? 0) || (b =? 0) then 0 else exp_at (log_at a + log_at b).

Definition mul (a b : Z) : Z := mul_slow a b.

(** [g^i]. *)
Definition pow2 (i : nat) : Z := exp_at (Z.of_nat i mod 255).

Definition inv (a : Z) : Z := exp_at (255 - log_at a).

(** Row [coef] of the lazily built table [MUL[c * 256 + x] = c * x]; entries
    with [c = 0] or [x = 0] keep their initial zero. *)
Definition mul_row (c : Z) : list Z :=
  (λ x, if (1 <=? c) && (1 <=? Z.of_nat x) then mul_slow c (Z.of_nat x) else 0)
    <$> List.seq 0 256.

(** [for (d, &s) in dst.iter_mut().zip(src) { *d ^= f(s) }]. *)
Fixpoint zip_acc (f : Z → Z) (dst src : list Z) : list Z :=
  match dst, src with
  | d :: ds, s :: ss => Z.lxor d (f s) :: zip_acc f ds ss
  | ds, [] => ds
  | [], _ => []
  end.

Definition mul_acc (dst src : list Z) (coef : Z) : list Z :=
  if coef =? 0 then dst
  else let row := mul_row coef in
       zip_acc (λ s, row !!! Z.to_nat s) dst src.

Definition scale (dst : list Z) (coef : Z) : list Z :=
  let row := mul_row coef in
  (λ d, row !!! Z.to_nat d) <$> dst.

(** ** Reference multiplication *)

(** Multiplication by the generator, and by any byte as the sum of the shifted
    multiplicands its bits select. *)
Definition xtime (a : Z) : Z :=
  let a2 := Z.shiftl a 1 in if Z.testbit a2 8 then Z.lxor a2 0x11d else a2.

Fixpoint ref_mul_bits (n : nat) (i : Z) (a b : Z) : Z :=
  match n with
  | O => 0
  | S n' => Z.lxor (if Z.testbit b i then a else 0)
                   (ref_mul_bits n' (i + 1) (xtime a) b)
  end.
Definition ref_mul (a b : Z) : Z := ref_mul_bits 8 0 a b.

End gf.

(** ** Exhaustive checks over bytes *)

Definition all_bytes : list Z := Z.of_nat <$> List.seq 0 256.

Lemma byte_forall (P : Z → bool) x :
  forallb P all_bytes = true → byte_ok x → P x = true.
Proof.
  intros H [Hl Hh]. rewrite forallb_forall in H. apply H.
  unfold all_bytes. apply list_elem_of_In, list_elem_of_fmap.
  exists (Z.to_nat x). split; [lia|]. apply list_elem_of_In, in_seq. lia.
Qed.

Lemma byte_forall2 (P : Z → Z → bool) x y :
  forallb (λ a, forallb (P a) all_bytes) all_bytes = true →
  byte_ok x → byte_ok y → P x y = true.
Proof.
  intros H Hx Hy. apply byte_forall; [|done].
  by apply (byte_forall (λ a, forallb (P a) all_bytes)).
Qed.

Import gf.

(** Proves a fact of one byte by evaluating it on all of them. *)
Ltac byte_check P a :=
  let H := fresh in
  assert (P a = true) as H
    by (apply (byte_forall P a); [vm_compute; reflexivity|unfold byte_ok in *; lia]);
  cbv beta in H; lia.

Create HintDb gf.

Lemma mul_ref_byte a b : byte_ok a → byte_ok b → mul a b = ref_mul a b.
Proof.
  intros Ha Hb. apply Z.eqb_eq.
  apply (byte_forall2 (λ a b, mul a b =? ref_mul a b)); [|done..].
  vm_compute. reflexivity.
Qed.

Lemma exp_at_byte i : byte_ok (exp_at i).
Proof.
  unfold exp_at. destruct (TABLES.1 !! Z.to_nat i) as [x|] eqn:E.
  - rewrite (list_lookup_total_correct _ _ _ E).
    assert (bytes_ok TABLES.1) as H.
    { apply Forall_forall. intros y Hy%list_elem_of_In.
      assert (forallb (λ y, (0 <=? y) && (y <? 256)) TABLES.1 = true) as Hf
        by (vm_compute; reflexivity).
      rewrite forallb_forall in Hf. specialize (Hf y Hy). unfold byte_ok. lia. }
    by apply (Forall_lookup_1 _ _ _ _ H E).
  - rewrite list_lookup_total_alt, E. unfold byte_ok. simpl. lia.
Qed.

Lemma mul_byte a b : byte_ok (mul a b).
Proof.
  unfold mul, mul_slow. case_match; [unfold byte_ok; lia|apply exp_at_byte].
Qed.

Lemma mul_comm a b : mul a b = mul b a.
Proof. unfold mul, mul_slow. rewrite orb_comm, Z.add_comm. done. Qed.

Lemma mul_0_r a : mul a 0 = 0.
Proof. unfold mul, mul_slow. by rewrite orb_true_r. Qed.

Lemma mul_0_l a : mul 0 a = 0.
Proof. done. Qed.

(** The logarithm is a bijection between the non-zero bytes and [0, 255). *)
Lemma log_range a : byte_ok a → 0 ≤ log_at a < 255.
Proof.
  intros Ha. byte_check (λ a, (0 <=? log_at a) && (log_at a <? 255)) a.
Qed.

Lemma exp_log a : byte_ok a → a ≠ 0 → exp_at (log_at a) = a.
Proof.
  intros Ha Hz. byte_check (λ a, (a =? 0) || (exp_at (log_at a) =? a)) a.
Qed.

Lemma log_exp i : 0 ≤ i < 255 → log_at (exp_at i) = i.
Proof.
  intros Hi. byte_check (λ i, (i =? 255) || (log_at (exp_at i) =? i)) i.
Qed.

Lemma exp_nonzero i : 0 ≤ i < 255 → exp_at i ≠ 0.
Proof.
  intros Hi. byte_check (λ i, (i =? 255) || negb (exp_at i =? 0)) i.
Qed.

(** The doubled table: [exp[i + 255] = exp[i]]. *)
Lemma exp_period i : 0 ≤ i < 255 → exp_at (i + 255) = exp_at i.
Proof.
  intros Hi. byte_check (λ i, (i =? 255) || (exp_at (i + 255) =? exp_at i)) i.
Qed.

Lemma exp_mod i : 0 ≤ i < 510 → exp_at i = exp_at (i mod 255).
Proof.
  intros Hi. destruct (decide (i < 255)); [by rewrite Z.mod_small by lia|].
  replace i with ((i - 255) + 255) at 1 by lia. rewrite exp_period by lia.
  f_equal. rewrite <- (Z.mod_small (i - 255) 255) by lia.
  replace i with (i - 255 + 1 * 255) at 2 by lia. by rewrite Z.mod_add.
Qed.

Lemma mul_log a b :
  byte_ok a → byte_ok b → a ≠ 0 → b ≠ 0 →
  mul a b = exp_at ((log_at a + log_at b) mod 255).
Proof.
  intros Ha Hb Hza Hzb. unfold mul, mul_slow.
  rewrite (proj2 (Z.eqb_neq a 0) Hza), (proj2 (Z.eqb_neq b 0) Hzb). simpl.
  apply exp_mod. pose proof (log_range a Ha). pose proof (log_range b Hb). lia.
Qed.

Lemma mul_nonzero a b :
  byte_ok a → byte_ok b → a ≠ 0 → b ≠ 0 → mul a b ≠ 0.
Proof.
  intros. rewrite mul_log by done. apply exp_nonzero, Z.mod_pos_bound. lia.
Qed.

Lemma mul_assoc a b c :
  byte_ok a → byte_ok b → byte_ok c → mul a (mul b c) = mul (mul a b) c.
Proof.
  intros Ha Hb Hc.
  destruct (decide (a = 0)) as [->|Hza]; [by rewrite !mul_0_l|].
  destruct (decide (b = 0)) as [->|Hzb]; [by rewrite mul_0_l, mul_0_r|].
  destruct (decide (c = 0)) as [->|Hzc]; [by rewrite !mul_0_r|].
  assert (∀ x, 0 ≤ x mod 255 < 255) as Hm by (intros; apply Z.mod_pos_bound; lia).
  rewrite (mul_log a (mul b c)), (mul_log (mul a b) c)
    by eauto using mul_byte, mul_nonzero.
  rewrite (mul_log b c), (mul_log a b), !log_exp by auto.
  by rewrite Zplus_mod_idemp_l, Zplus_mod_idemp_r, Z.add_assoc.
Qed.

Lemma inv_byte a : byte_ok (inv a).
Proof. apply exp_at_byte. Qed.

Lemma mul_inv a : byte_ok a → a ≠ 0 → mul a (inv a) = 1.
Proof.
  intros Ha Hz. byte_check (λ a, (a =? 0) || (mul a (inv a) =? 1)) a.
Qed.

Lemma mul_1_l a : byte_ok a → mul 1 a = a.
Proof.
  intros Ha. byte_check (λ a, mul 1 a =? a) a.
Qed.

Lemma inv_mul_cancel a x :
  byte_ok a → a ≠ 0 → byte_ok x → mul (inv a) (mul a x) = x.
Proof.
  intros Ha Hz Hx. rewrite mul_assoc by eauto using inv_byte.
  by rewrite (mul_comm (inv a)), mul_inv, mul_1_l.
Qed.

Lemma pow2_byte i : byte_ok (pow2 i).
Proof. apply exp_at_byte. Qed.

Lemma pow2_nonzero i : pow2 i ≠ 0.
Proof. apply exp_nonzero, Z.mod_pos_bound. lia. Qed.

Lemma pow2_inj i j : (i < 255)%nat → (j < 255)%nat → pow2 i = pow2 j → i = j.
Proof.
  unfold pow2. intros Hi Hj. rewrite !Z.mod_small by lia. intros H.
  apply (f_equal log_at) in H. rewrite !log_exp in H by lia. lia.
Qed.

(** *** Distributivity, from the reference multiplication *)

Lemma lxor_swap a b c d :
  Z.lxor (Z.lxor a b) (Z.lxor c d) = Z.lxor (Z.lxor a c) (Z.lxor b d).
Proof. apply Z.bits_inj'. intros n _. rewrite !Z.lxor_spec. by repeat destruct (Z.testbit _ n). Qed.

Lemma ref_mul_bits_lxor n i a b c :
  ref_mul_bits n i a (Z.lxor b c)
  = Z.lxor (ref_mul_bits n i a b) (ref_mul_bits n i a c).
Proof.
  revert i a; induction n as [|n IH]; intros i a; [done|]. cbn [ref_mul_bits].
  rewrite IH, Z.lxor_spec.
  rewrite lxor_swap. f_equal.
  destruct (Z.testbit b i), (Z.testbit c i); simpl;
    rewrite ?Z.lxor_0_l, ?Z.lxor_0_r, ?Z.lxor_nilpotent; done.
Qed.

Lemma lxor_byte a b : byte_ok a → byte_ok b → byte_ok (Z.lxor a b).
Proof.
  unfold byte_ok. intros Ha Hb. assert (0 ≤ Z.lxor a b) by (apply Z.lxor_nonneg; lia).
  split; [done|]. destruct (decide (Z.lxor a b = 0)); [lia|].
  apply (Z.log2_lt_pow2 _ 8); [lia|].
  pose proof (Z.log2_lxor a b ltac:(lia) ltac:(lia)).
  assert (∀ x, 0 ≤ x < 256 → Z.log2 x < 8) as Hlog.
  { intros x Hx. destruct (decide (x = 0)) as [->|]; [done|].
    apply Z.log2_lt_pow2; [lia|]. change (2 ^ 8) with 256. lia. }
  pose proof (Hlog a Ha). pose proof (Hlog b Hb). lia.
Qed.

Lemma mul_lxor_r a b c :
  byte_ok a → byte_ok b → byte_ok c →
  mul a (Z.lxor b c) = Z.lxor (mul a b) (mul a c).
Proof.
  intros. rewrite !mul_ref_byte by auto using lxor_byte.
  apply ref_mul_bits_lxor.
Qed.

Lemma mul_lxor_l a b c :
  byte_ok a → byte_ok b → byte_ok c →
  mul (Z.lxor a b) c = Z.lxor (mul a c) (mul b c).
Proof.
  intros. rewrite !(mul_comm _ c). by apply mul_lxor_r.
Qed.

#[export] Hint Resolve mul_byte inv_byte pow2_byte pow2_nonzero lxor_byte : gf.

(** ** Whole frames *)

(** The byte at [j], 0 past the end: a frame seen as zero-padded. *)
Notation at0 l j := (nth j l 0).

Lemma at0_byte l j : bytes_ok l → byte_ok (at0 l j).
Proof.
  intros H. destruct (decide (j < length l)%nat).
  - apply (proj1 (List.Forall_forall _ _) H). by apply nth_In.
  - rewrite nth_overflow by lia. unfold byte_ok. lia.
Qed.

Lemma frame_ext (l k : list Z) :
  length l = length k → (∀ j, at0 l j = at0 k j) → l = k.
Proof. intros Hl H. apply (nth_ext _ _ 0 0); [done|]. intros. apply H. Qed.

Lemma mul_row_at c x :
  byte_ok c → byte_ok x → mul_row c !!! Z.to_nat x = mul c x.
Proof.
  unfold byte_ok. intros Hc Hx. apply list_lookup_total_correct.
  unfold mul_row. rewrite list_lookup_fmap, lookup_seq_lt by lia.
  cbn [fmap option_fmap option_map Nat.add]. rewrite Z2Nat.id by lia.
  f_equal. unfold mul, mul_slow.
  destruct (decide (c = 0)) as [->|]; [done|].
  destruct (decide (x = 0)) as [->|]; [by rewrite orb_true_r, andb_false_r|].
  by rewrite !(proj2 (Z.leb_le _ _)) by lia.
Qed.

Lemma length_zip_acc f dst src : length (zip_acc f dst src) = length dst.
Proof.
  revert src; induction dst as [|d ds IH]; intros [|s ss]; simpl; auto.
Qed.

Lemma at0_zip_acc f dst src j :
  f 0 = 0 → (length src ≤ length dst)%nat →
  at0 (zip_acc f dst src) j = Z.lxor (at0 dst j) (f (at0 src j)).
Proof.
  intros Hf. revert src j; induction dst as [|d ds IH]; intros [|s ss] j H;
    simpl in *; try lia.
  - destruct j; by rewrite Hf, Z.lxor_0_r.
  - destruct j; by rewrite Hf, Z.lxor_0_r.
  - destruct j; [done|]. apply IH. lia.
Qed.

Lemma zip_acc_ext f g dst src :
  Forall (λ s, f s = g s) src → zip_acc f dst src = zip_acc g dst src.
Proof.
  intros H. revert dst; induction H as [|s ss Hs Hss IH]; intros [|d ds]; try done.
  simpl. by rewrite Hs, IH.
Qed.

Lemma zip_acc_bytes f dst src :
  (∀ s, byte_ok s → byte_ok (f s)) → bytes_ok dst → bytes_ok src →
  bytes_ok (zip_acc f dst src).
Proof.
  intros Hf Hd. revert src; induction Hd as [|d ds Hd Hds IH]; intros [|s ss] Hs;
    simpl; try by constructor.
  inversion_clear Hs. constructor; [auto with gf|by apply IH].
Qed.

Lemma mul_acc_zip dst src c :
  byte_ok c → bytes_ok src → mul_acc dst src c = zip_acc (mul c) dst src.
Proof.
  intros Hc Hs. unfold mul_acc. destruct (Z.eqb_spec c 0) as [->|].
  - revert dst; induction src as [|s ss IH]; intros [|d ds]; try done.
    inversion_clear Hs. simpl. by rewrite mul_0_l, Z.lxor_0_r, <- IH.
  - apply zip_acc_ext. eapply Forall_impl; [exact Hs|].
    intros x Hx. by apply mul_row_at.
Qed.

Lemma scale_map dst c :
  byte_ok c → bytes_ok dst → scale dst c = mul c <$> dst.
Proof.
  intros Hc Hd. unfold scale. apply list_fmap_ext.
  intros i x Hx. apply mul_row_at; [done|].
  by apply (Forall_lookup_1 _ _ _ _ Hd Hx).
Qed.

Lemma at0_map (f : Z → Z) l j : f 0 = 0 → at0 (f <$> l) j = f (at0 l j).
Proof. intros Hf. rewrite <- Hf at 1. apply (map_nth f). Qed.

(** The powers of the generator: each is the one before times the generator,
    the first 255 are distinct, and they are all the non-zero bytes. *)
Lemma pow2_step i : pow2 (S i) = xtime (pow2 i).
Proof.
  unfold pow2. rewrite Nat2Z.inj_succ. unfold Z.succ.
  rewrite <- Zplus_mod_idemp_l. set (k := Z.of_nat i mod 255).
  assert (0 ≤ k < 255) as Hk by (apply Z.mod_pos_bound; lia).
  byte_check (λ k, (k =? 255) || (exp_at ((k + 1) mod 255) =? xtime (exp_at k))) k.
Qed.

Lemma pow2_onto a : byte_ok a → a ≠ 0 → ∃ i, (i < 255)%nat ∧ pow2 i = a.
Proof.
  intros Ha Hz. pose proof (log_range a Ha). exists (Z.to_nat (log_at a)).
  split; [lia|]. unfold pow2. rewrite Z2Nat.id, Z.mod_small by lia. by apply exp_log.
Qed.

(** C26. The table-driven arithmetic is the field GF(256) of RAID-6. On bytes,
    [mul] is the multiplication of polynomials over GF(2) modulo 0x11d; with the
    exclusive or as its addition it is commutative, associative and distributive
    with unit 1, and every non-zero byte has the inverse [inv]. The first
    255 powers of the generator 2, from [pow2 0 = 1] on, are the non-zero bytes,
    each once, so the coefficients of a group's members differ. *)
Theorem field_arithmetic a b c :
  byte_ok a → byte_ok b → byte_ok c →
  mul a b = ref_mul a b ∧ byte_ok (mul a b) ∧ mul a b = mul b a ∧
  mul a (mul b c) = mul (mul a b) c ∧ mul a (Z.lxor b c) = Z.lxor (mul a b) (mul a c) ∧
  mul 1 a = a ∧ (a ≠ 0 → byte_ok (inv a) ∧ mul a (inv a) = 1) ∧
  pow2 0 = 1 ∧ (∀ i, pow2 (S i) = ref_mul (pow2 i) 2) ∧
  (∀ i j, (i < 255)%nat → (j < 255)%nat → pow2 i = pow2 j → i = j) ∧
  (a ≠ 0 → ∃ i, (i < 255)%nat ∧ pow2 i = a).
Proof.
  intros Ha Hb Hc.
  split_and!; [by apply mul_ref_byte|apply mul_byte|apply mul_comm|by apply mul_assoc
    |by apply mul_lxor_r|by apply mul_1_l|intros; split; [apply inv_byte|by apply mul_inv]
    |reflexivity| |apply pow2_inj|by apply pow2_onto].
  intros i. rewrite pow2_step. pose proof (pow2_byte i) as Hp.
  byte_check (λ x, xtime x =? ref_mul x 2) (pow2 i).
Qed.

Lemma field_arithmetic_witness :
  mul 0x53 0xca = ref_mul 0x53 0xca ∧ mul 0x53 (inv 0x53) = 1.
Proof.
  destruct (field_arithmetic 0x53 0xca 1) as (H1 & _ & _ & _ & _ & _ & H2 & _); [unfold byte_ok; lia..|].
  split; [exact H1|]. apply H2. discriminate.
Defined.

(** The 2x2 system of two erasures, byte by byte. *)
Lemma two_erasures_solved ga gb da db :
  byte_ok ga → byte_ok gb → ga ≠ gb → byte_ok da → byte_ok db →
  let P' := Z.lxor da db in
  let Q' := Z.lxor (mul ga da) (mul gb db) in
  let db' := mul (inv (Z.lxor ga gb)) (Z.lxor Q' (mul ga P')) in
  db' = db ∧ Z.lxor P' db' = da.
Proof.
  intros Hga Hgb Hne Hda Hdb P' Q' db'.
  assert (Z.lxor Q' (mul ga P') = mul (Z.lxor ga gb) db) as E.
  { unfold Q', P'. rewrite mul_lxor_r, mul_lxor_l by done.
    apply Z.bits_inj'. intros n _. rewrite !Z.lxor_spec.
    by repeat destruct (Z.testbit _ n). }
  assert (db' = db) as ->.
  { unfold db'. rewrite E. apply inv_mul_cancel; auto with gf.
    intros H%Z.lxor_eq. done. }
  split; [done|]. unfold P'. by rewrite Z.lxor_assoc, Z.lxor_nilpotent, Z.lxor_0_r.
Qed.
