(* ===== verification/F64.v ===== *)
(** * Double-precision arithmetic

    Rust's [f64] as IEEE 754 binary64 on the Standard Library's executable
    [SpecFloat]: 53 bits of precision, exponents up to 1024, rounding to
    nearest even. A literal such as [0.15] is the correctly rounded quotient
    of two exactly represented integers, which is what the compiler makes of
    it. *)

From Stdlib Require Import SpecFloat.
From S2P Require Import Prelude Bytes.

Abbreviation f64 := spec_float.

Global Instance f64_eq_dec : EqDecision f64.
Proof. solve_decision. Defined.

Module f64.

Definition prec : Z := 53.
Definition emax : Z := 1024.

Definition add (x y : f64) : f64 := SFadd prec emax x y.
Definition sub (x y : f64) : f64 := SFsub prec emax x y.
Definition mul (x y : f64) : f64 := SFmul prec emax x y.
Definition div (x y : f64) : f64 := SFdiv prec emax x y.
Definition sqrt (x : f64) : f64 := SFsqrt prec emax x.
Definition abs (x : f64) : f64 := SFabs x.
Definition ltb (x y : f64) : bool := SFltb x y.
Definition leb (x y : f64) : bool := SFleb x y.

(** [n as f64] for an integer, and a decimal literal [n / d]. *)
Definition of_Z (n : Z) : f64 := binary_normalize prec emax n 0 false.
Definition lit (n d : Z) : f64 := div (of_Z n) (of_Z d).

Definition zero : f64 := S754_zero false.
Definition one : f64 := of_Z 1.

(** [f64::MAX]. *)
Definition MAX : f64 := SFmax_float prec emax.
Definition MIN : f64 := SFopp MAX.

Definition is_nan (x : f64) : bool :=
  match x with S754_nan => true | _ => false end.

(** [f64::min] and [f64::max]: a NaN operand is ignored. *)
Definition min (x y : f64) : f64 :=
  if is_nan x then y else if is_nan y then x else if ltb y x then y else x.
Definition max (x y : f64) : f64 :=
  if is_nan x then y else if is_nan y then x else if ltb x y then y else x.

(** [x.clamp(lo, hi)] with [lo <= hi]; a NaN stays a NaN. *)
Definition clamp (x lo hi : f64) : f64 :=
  let x := if ltb x lo then lo else x in
  if ltb hi x then hi else x.

(** [a.total_cmp(&b)]: negative zero below positive zero, NaN above
    everything. *)
Definition total_cmp (a b : f64) : comparison :=
  match a, b with
  | S754_nan, S754_nan => Eq
  | S754_nan, _ => Gt
  | _, S754_nan => Lt
  | S754_zero true, S754_zero false => Lt
  | S754_zero false, S754_zero true => Gt
  | _, _ => match SFcompare a b with Some c => c | None => Eq end
  end.

(** Truncation towards zero of a finite value. *)
Definition trunc (x : f64) : Z :=
  match x with
  | S754_finite s m e =>
      let a := if 0 <=? e then Z.shiftl (Zpos m) e else Z.shiftr (Zpos m) (- e) in
      if s then - a else a
  | _ => 0
  end.

(** The saturating casts [x as uW] and [x as i64]; NaN gives 0. *)
Definition sat (lo hi : Z) (x : f64) : Z :=
  match x with
  | S754_infinity s => if s then lo else hi
  | _ => Z.max lo (Z.min hi (trunc x))
  end.
Definition to_u64 (x : f64) : Z := sat 0 (2 ^ 64 - 1) x.
Definition to_u32 (x : f64) : Z := sat 0 (2 ^ 32 - 1) x.
Definition to_i64 (x : f64) : Z := sat (- 2 ^ 63) (2 ^ 63 - 1) x.

(** [x.round()]: to the nearest integer, halves away from zero. *)
Definition round (x : f64) : f64 :=
  match x with
  | S754_finite s m e =>
      if 0 <=? e then x
      else let a := Z.shiftr (Zpos m + Z.shiftl 1 (- e - 1)) (- e) in
           binary_normalize prec emax (if s then - a else a) 0 s
  | _ => x
  end.

(** [Duration::as_secs_f64] of a duration in nanoseconds: whole seconds plus
    the nanoseconds divided by 1e9. *)
Definition as_secs_f64 (ns : Z) : f64 :=
  add (of_Z (ns / 1000000000)) (div (of_Z (ns mod 1000000000)) (of_Z 1000000000)).

End f64.

Declare Scope f64_scope.
Delimit Scope f64_scope with f64.
Bind Scope f64_scope with spec_float.
Notation "x + y" := (f64.add x y) : f64_scope.
Notation "x - y" := (f64.sub x y) : f64_scope.
Notation "x * y" := (f64.mul x y) : f64_scope.
Notation "x / y" := (f64.div x y) : f64_scope.
Notation "x <? y" := (f64.ltb x y) : f64_scope.
Notation "x <=? y" := (f64.leb x y) : f64_scope.

Example lit_tenth : f64.lit 1 10 = S754_finite false 7205759403792794 (-56).
Proof. reflexivity. Qed.

Example as_secs_half : f64.as_secs_f64 1500000000 = f64.lit 3 2.
Proof. reflexivity. Qed.
