(* ===== verification/Rounding.v ===== *)
(** * Order and rounding of doubles

    What the trackers of [congestion.rs] and [delivery.rs] need to know of
    [f64]: its order, when an operation gives a NaN, and that rounding never
    takes a sum or a product below a number that is exactly representable and
    not above it. *)

From Stdlib Require Import SpecFloat.
From S2P Require Import Prelude Bytes F64.

(** ** Order *)

(** A number by its sign class, exponent and mantissa, ordered
    lexicographically. *)
Definition rank (x : f64) : option (Z * Z * Z) :=
  match x with
  | S754_nan => None
  | S754_infinity s => Some (if s then -2 else 2, 0, 0)
  | S754_zero _ => Some (0, 0, 0)
  | S754_finite s m e => Some (if s then (-1, -e, Zneg m) else (1, e, Zpos m))
  end.

Definition lex_lt (a b : Z * Z * Z) : Prop :=
  a.1.1 < b.1.1 ∨ (a.1.1 = b.1.1 ∧ (a.1.2 < b.1.2 ∨ (a.1.2 = b.1.2 ∧ a.2 < b.2))).

Definition fle (x y : f64) : Prop := (x <=? y)%f64 = true.
Definition flt (x y : f64) : Prop := (x <? y)%f64 = true.

Lemma compare_rank x y :
  match rank x, rank y with
  | Some a, Some b =>
      match SFcompare x y with
      | Some Lt => lex_lt a b
      | Some Eq => a = b
      | Some Gt => lex_lt b a
      | None => False
      end
  | _, _ => SFcompare x y = None
  end.
Proof.
  unfold lex_lt.
  destruct x as [[]|[]| |[] m e], y as [[]|[]| |[] m' e']; cbn; try done; try lia.
  - destruct (Z.compare_spec e e') as [->| |]; cbn; try lia.
    change (PosDef.Pos.compare_cont Eq m m') with (Pos.compare m m').
    destruct (Pos.compare_spec m m') as [->| |]; cbn; lia || done.
  - destruct (Z.compare_spec e e') as [->| |]; cbn; try lia.
    change (PosDef.Pos.compare_cont Eq m m') with (Pos.compare m m').
    destruct (Pos.compare_spec m m') as [->| |]; cbn; lia || done.
Qed.

Lemma fle_rank x y :
  fle x y ↔ ∃ a b, rank x = Some a ∧ rank y = Some b ∧ (lex_lt a b ∨ a = b).
Proof.
  unfold fle, f64.leb, SFleb. pose proof (compare_rank x y) as H.
  destruct (rank x) as [a|], (rank y) as [b|];
    try (rewrite H; split; [done|intros (? & ? & ? & ? & _); done]).
  destruct (SFcompare x y) as [[]|]; [| | |done].
  - split; [intros _; exists a, b; subst; auto|done].
  - split; [intros _; exists a, b; auto|done].
  - split; [done|]. intros (? & ? & [= <-] & [= <-] & [Hl| ->]); unfold lex_lt in *; lia.
Qed.

Lemma flt_rank x y :
  flt x y ↔ ∃ a b, rank x = Some a ∧ rank y = Some b ∧ lex_lt a b.
Proof.
  unfold flt, f64.ltb, SFltb. pose proof (compare_rank x y) as H.
  destruct (rank x) as [a|], (rank y) as [b|];
    try (rewrite H; split; [done|intros (? & ? & ? & ? & _); done]).
  destruct (SFcompare x y) as [[]|]; [| | |done].
  - split; [done|]. intros (? & ? & [= <-] & [= <-] & Hl). subst. unfold lex_lt in *. lia.
  - split; [intros _; exists a, b; auto|done].
  - split; [done|]. intros (? & ? & [= <-] & [= <-] & Hl). unfold lex_lt in *. lia.
Qed.

Lemma lex_tri a b : lex_lt a b ∨ a = b ∨ lex_lt b a.
Proof.
  destruct a as [[a1 a2] a3], b as [[b1 b2] b3]. unfold lex_lt. cbn.
  destruct (decide ((a1, a2, a3) = (b1, b2, b3))) as [|H]; [auto|].
  destruct (decide (a1 = b1)), (decide (a2 = b2)), (decide (a3 = b3)); subst; try done; lia.
Qed.

Lemma lex_asym a b : lex_lt a b → ¬ (lex_lt b a ∨ b = a).
Proof. unfold lex_lt. intros H [?| ->]; lia. Qed.

(** Without NaN the order is total. *)
Lemma order_total x y :
  f64.is_nan x = false → f64.is_nan y = false →
  ((x <=? y)%f64 = false ↔ flt y x) ∧ ((x <? y)%f64 = false ↔ fle y x).
Proof.
  intros Hx Hy.
  assert (∀ z, f64.is_nan z = false → ∃ a, rank z = Some a) as Hr by (intros []; cbn; eauto; done).
  destruct (Hr x Hx) as [a Ea], (Hr y Hy) as [b Eb].
  rewrite <- !not_true_iff_false. fold (fle x y) (flt x y). rewrite !fle_rank, !flt_rank, Ea, Eb.
  pose proof (lex_tri a b). pose proof (lex_asym a b). pose proof (lex_asym b a).
  split; (split; [intros H'|intros (? & ? & [= <-] & [= <-] & ?) (? & ? & [= <-] & [= <-] & ?); naive_solver]);
    exists b, a; (split; [done|]); (split; [done|]);
    destruct (lex_tri a b) as [?|[?|?]]; try done; try (destruct H'; exists a, b; by auto);
    auto.
Qed.

Lemma fle_trans x y z : fle x y → fle y z → fle x z.
Proof.
  rewrite !fle_rank. intros (a & b & Ha & Hb & H) (b' & c & Hb' & Hc & H').
  exists a, c. split_and!; [done..|]. rewrite Hb in Hb'. injection Hb' as <-.
  destruct a as [[? ?] ?], b as [[? ?] ?], c as [[? ?] ?]. unfold lex_lt in *. cbn in *.
  destruct H as [|H], H' as [|H']; simplify_eq; auto; left; lia.
Qed.

Lemma flt_le x y : flt x y → fle x y.
Proof. rewrite flt_rank, fle_rank. naive_solver. Qed.

(** [!(x < y)] is [y <= x] but for a NaN. *)
Lemma not_flt x y :
  f64.is_nan x = false → f64.is_nan y = false → (x <? y)%f64 = false → fle y x.
Proof.
  intros Hx Hy H. assert (¬ flt x y) as Hn by (unfold flt; congruence).
  rewrite flt_rank in Hn. rewrite fle_rank.
  assert (∃ a b, rank x = Some a ∧ rank y = Some b) as ([[a1 a2] a3] & [[b1 b2] b3] & Ea & Eb).
  { destruct x, y; try done; cbn; eauto. }
  exists (b1, b2, b3), (a1, a2, a3). split_and!; [done..|].
  assert (¬ lex_lt (a1, a2, a3) (b1, b2, b3)) as Hl by (intros ?; eauto 10).
  unfold lex_lt in *. cbn in *.
  destruct (decide (b1 = a1 ∧ b2 = a2 ∧ b3 = a3)) as [(-> & -> & ->)|]; [auto|left; lia].
Qed.

Lemma fle_not_nan x y : fle x y → f64.is_nan x = false ∧ f64.is_nan y = false.
Proof. rewrite fle_rank. intros (a & b & Ha & Hb & _). by destruct x, y. Qed.

Lemma fle_refl x : f64.is_nan x = false → fle x x.
Proof. rewrite fle_rank. intros Hx. destruct x; try done; eexists _, _; eauto. Qed.

(** ** [min] and [clamp] *)

Definition within (lo hi x : f64) : Prop := fle lo x ∧ fle x hi.

Lemma clamp_within lo hi x :
  f64.is_nan x = false → fle lo hi → within lo hi (f64.clamp x lo hi).
Proof.
  intros Hx Hlh. destruct (fle_not_nan _ _ Hlh) as [Hlo Hhi]. unfold f64.clamp, within.
  destruct (x <? lo)%f64 eqn:E1.
  - destruct (hi <? lo)%f64 eqn:E2; split; try done; by apply fle_refl.
  - apply not_flt in E1; [|done..]. destruct (hi <? x)%f64 eqn:E2.
    + split; [done|by apply fle_refl].
    + apply not_flt in E2; [|done..]. by split.
Qed.

Lemma min_within lo hi x y :
  fle lo x → within lo hi y → within lo hi (f64.min x y).
Proof.
  intros Hx [Hy Hyh]. destruct (fle_not_nan _ _ Hx) as [_ Nx].
  destruct (fle_not_nan _ _ Hy) as [_ Ny]. unfold f64.min. rewrite Nx, Ny.
  destruct (y <? x)%f64 eqn:E; [done|]. apply not_flt in E; [|done..].
  split; [done|]. by eapply fle_trans.
Qed.

(** ** Rounding *)

Abbreviation wf := (valid_binary f64.prec f64.emax).
Abbreviation fexp53 := (fexp f64.prec f64.emax).
Abbreviation round_aux := (binary_round_aux f64.prec f64.emax).

Lemma fexp53_eq e : fexp53 e = Z.max (e - 53) (-1074).
Proof. reflexivity. Qed.

Lemma digits_size p : digits2_pos p = Pos.size p.
Proof. induction p as [p IH|p IH|]; cbn; by rewrite ?IH. Qed.

Lemma digits_bounds m :
  0 < m → 1 ≤ Zdigits2 m ∧ 2 ^ (Zdigits2 m - 1) ≤ m < 2 ^ Zdigits2 m.
Proof.
  destruct m as [|p|]; try lia. intros _. cbn [Zdigits2]. rewrite digits_size.
  pose proof (Pos.size_gt p) as H1. pose proof (Pos.size_le p) as H2.
  assert (Z.pos (2 ^ Pos.size p) = 2 ^ Z.pos (Pos.size p)) as E by apply Pos2Z.inj_pow.
  split_and!; [lia| |lia].
  replace (2 ^ Z.pos (Pos.size p)) with (2 * 2 ^ (Z.pos (Pos.size p) - 1)) in E; [lia|].
  rewrite <- Z.pow_succ_r by lia. f_equal. lia.
Qed.

Lemma digits_unique m d : 0 < m → 2 ^ (d - 1) ≤ m < 2 ^ d → Zdigits2 m = d.
Proof.
  intros Hm [Hl Hu]. destruct (digits_bounds m Hm) as (H1 & H2 & H3).
  assert (d - 1 < Zdigits2 m) by (apply (Z.pow_lt_mono_r_iff 2); lia).
  assert (0 < d).
  { destruct (Z.lt_ge_cases 0 d); [done|].
    assert (2 ^ d ≤ 2 ^ 0) by (apply Z.pow_le_mono_r; lia). lia. }
  assert (Zdigits2 m - 1 < d) by (apply (Z.pow_lt_mono_r_iff 2); lia). lia.
Qed.

Lemma shr_1_m r : 0 ≤ shr_m r → shr_m (shr_1 r) = shr_m r / 2.
Proof.
  destruct r as [[|[p|p|]|p] rr s]; cbn; intros H; try done; try lia.
  - rewrite Pos2Z.inj_xI. apply Z.div_unique with 1; lia.
  - rewrite Pos2Z.inj_xO, Z.mul_comm, Z.div_mul; lia.
Qed.

Lemma iter_shr p r :
  0 ≤ shr_m r → shr_m (SpecFloat.iter_pos shr_1 p r) = shr_m r / 2 ^ Z.pos p.
Proof.
  revert r; induction p as [p IH|p IH|]; intros r Hr; cbn [SpecFloat.iter_pos].
  - assert (0 ≤ shr_m (shr_1 r)) by (rewrite shr_1_m by done; apply Z.div_pos; lia).
    rewrite !IH; [|done|rewrite IH by done; apply Z.div_pos; lia].
    rewrite shr_1_m, !Z.div_div by lia. f_equal.
    rewrite (ltac:(lia) : Z.pos p~1 = Z.pos p + Z.pos p + 1), !Z.pow_add_r by lia. lia.
  - rewrite !IH; [|done|rewrite IH by done; apply Z.div_pos; lia].
    rewrite Z.div_div by lia. f_equal.
    by rewrite (ltac:(lia) : Z.pos p~0 = Z.pos p + Z.pos p), Z.pow_add_r by lia.
  - by rewrite shr_1_m.
Qed.

(** Shifting a mantissa to the exponent it should have. *)
Lemma shr_fexp_spec m e l :
  0 ≤ m →
  let e' := Z.max e (fexp53 (Zdigits2 m + e)) in
  ∃ r, shr_fexp f64.prec f64.emax m e l = (r, e') ∧ shr_m r = m / 2 ^ (e' - e).
Proof.
  intros Hm e'. unfold shr_fexp, shr.
  assert (shr_m (shr_record_of_loc m l) = m) as El by (by destruct l as [|[]]).
  destruct (fexp53 (Zdigits2 m + e) - e) as [|p|p] eqn:E.
  - exists (shr_record_of_loc m l). assert (e' = e) as -> by lia.
    by rewrite El, Z.sub_diag, Z.div_1_r.
  - eexists. split; [f_equal; lia|]. rewrite iter_shr, El by (rewrite El; lia). do 2 f_equal. lia.
  - exists (shr_record_of_loc m l). assert (e' = e) as -> by lia.
    by rewrite El, Z.sub_diag, Z.div_1_r.
Qed.

Lemma nearest_bounds m l : m ≤ round_nearest_even m l ≤ m + 1.
Proof. destruct l as [|[]]; cbn; repeat case_match; lia. Qed.

(** The truncated mantissa has at most 53 bits, and exactly 53 when the
    number is normal. *)
Lemma truncated_bounds m e :
  0 < m →
  let e' := Z.max e (fexp53 (Zdigits2 m + e)) in
  0 ≤ m / 2 ^ (e' - e) < 2 ^ 53 ∧ -1074 ≤ e' ∧
  (e ≤ fexp53 (Zdigits2 m + e) → -1074 < e' → 2 ^ 52 ≤ m / 2 ^ (e' - e)).
Proof.
  intros Hm e'. destruct (digits_bounds m Hm) as (Hd1 & Hd2 & Hd3).
  pose proof (fexp53_eq (Zdigits2 m + e)) as Ef. split_and!.
  - apply Z.div_pos; lia.
  - apply Z.div_lt_upper_bound; [lia|]. rewrite <- Z.pow_add_r by lia.
    eapply Z.lt_le_trans; [exact Hd3|]. apply Z.pow_le_mono_r; lia.
  - lia.
  - intros He Hn. apply Z.div_le_lower_bound; [lia|]. rewrite <- Z.pow_add_r by lia.
    eapply Z.le_trans; [|exact Hd2]. apply Z.pow_le_mono_r; lia.
Qed.

Definition packed (s : bool) (m e : Z) : f64 :=
  if e <=? 971 then S754_finite s (Z.to_pos m) e else S754_infinity s.

(** The result of rounding: the truncated mantissa or its successor, at the
    exponent [e'], renormalised when it overflows to 2^53. *)
Lemma round_aux_spec s m e l :
  0 < m →
  let e' := Z.max e (fexp53 (Zdigits2 m + e)) in
  ∃ m2, m / 2 ^ (e' - e) ≤ m2 ≤ m / 2 ^ (e' - e) + 1 ∧
    round_aux s m e l =
    if m2 =? 0 then S754_zero s
    else if m2 <? 2 ^ 53 then packed s m2 e' else packed s (2 ^ 52) (e' + 1).
Proof.
  intros Hm e'. unfold binary_round_aux.
  destruct (shr_fexp_spec m e l) as (r & -> & Hr); [lia|]. fold e' in Hr |- *.
  set (m2 := round_nearest_even (shr_m r) (loc_of_shr_record r)).
  pose proof (nearest_bounds (shr_m r) (loc_of_shr_record r)) as Hm2. fold m2 in Hm2.
  rewrite Hr in Hm2. exists m2. split; [done|].
  destruct (truncated_bounds m e Hm) as ([H0 H53] & He' & _). fold e' in H0, H53, He'.
  destruct (shr_fexp_spec m2 e' loc_Exact) as (r2 & -> & Hr2); [lia|]. clearbody m2.
  destruct (Z.eqb_spec m2 0) as [->|Hnz].
  { rewrite Z.div_0_l in Hr2 by lia. by rewrite Hr2. }
  destruct (digits_bounds m2 ltac:(lia)) as (Hd1 & Hd2 & Hd3).
  pose proof (fexp53_eq (Zdigits2 m2 + e')) as Ef.
  destruct (Z.ltb_spec m2 (2 ^ 53)) as [Hlt|Hge].
  - assert (Zdigits2 m2 ≤ 53).
    { assert (Zdigits2 m2 - 1 < 53); [|lia]. apply (Z.pow_lt_mono_r_iff 2); lia. }
    rewrite (Z.max_l e') in Hr2 |- * by lia. rewrite Z.sub_diag, Z.div_1_r in Hr2.
    rewrite Hr2. destruct m2; try lia. done.
  - assert (m2 = 2 ^ 53) as -> by lia.
    rewrite (digits_unique (2 ^ 53) 54) in Ef, Hr2 |- * by lia.
    rewrite (Z.max_r e') in Hr2 |- * by lia. rewrite Ef, Z.max_l in Hr2 |- * by lia.
    replace (54 + e' - 53 - e') with 1 in Hr2 by lia. change (2 ^ 53 / 2 ^ 1) with (2 ^ 52) in Hr2.
    rewrite Hr2. change (2 ^ 52) with (Z.pos 4503599627370496) at 1. cbv beta iota.
    replace (54 + e' - 53) with (e' + 1) by lia. done.
Qed.

(** A rounded result is never a NaN. *)
Lemma round_aux_not_nan s m e l : 0 ≤ m → f64.is_nan (round_aux s m e l) = false.
Proof.
  intros Hm. destruct (Z.eq_dec m 0) as [->|Hne].
  - unfold binary_round_aux. destruct (shr_fexp_spec 0 e l) as (r & -> & Hr); [lia|].
    rewrite Z.div_0_l in Hr by lia.
    pose proof (nearest_bounds (shr_m r) (loc_of_shr_record r)) as Hb. rewrite Hr in Hb.
    match goal with |- context [shr_fexp _ _ ?m2 ?e2 loc_Exact] =>
      destruct (shr_fexp_spec m2 e2 loc_Exact) as (r2 & -> & Hr2); [rewrite Hr; lia|];
      assert (0 ≤ shr_m r2) by (rewrite Hr2; apply Z.div_pos; [rewrite Hr; lia|];
        apply Z.pow_pos_nonneg; lia) end.
    destruct (shr_m r2); try lia; [done|]. by case_match.
  - destruct (round_aux_spec s m e l) as (m2 & _ & ->); [lia|]. unfold packed.
    by repeat case_match.
Qed.

(** The result is canonical when the exponent is not above the one the
    mantissa needs. *)
Lemma round_aux_wf s m e l :
  0 < m → e ≤ fexp53 (Zdigits2 m + e) → wf (round_aux s m e l) = true.
Proof.
  intros Hm He. destruct (round_aux_spec s m e l Hm) as (m2 & Hm2 & ->).
  destruct (truncated_bounds m e Hm) as ([H0 H53] & He' & Hn). specialize (Hn He).
  revert Hm2 H0 H53 He' Hn. set (e' := Z.max _ _). generalize (m / 2 ^ (e' - e)). intros m1 ? ? ? ? ?.
  assert (∀ m e, 0 < m → (e = -1074 ∨ -1074 < e ∧ 2 ^ 52 ≤ m) → m < 2 ^ 53 →
            wf (packed s m e) = true) as Hp.
  { clear. intros m e Hm He H. unfold packed. destruct (Z.leb_spec e 971); [|done].
    cbn [valid_binary]. unfold bounded, canonical_mantissa. apply andb_true_iff. split.
    - apply Z.eqb_eq. rewrite fexp53_eq. change (Z.pos (digits2_pos (Z.to_pos m))) with
        (Zdigits2 (Z.pos (Z.to_pos m))). rewrite Z2Pos.id by done.
      destruct (digits_bounds m Hm) as (? & Hlo & _).
      assert (Zdigits2 m - 1 < 53) by (apply (Z.pow_lt_mono_r_iff 2); lia).
      destruct He as [->|[? Hb]]; [lia|]. rewrite (digits_unique m 53) by lia. lia.
    - apply Z.leb_le. done. }
  destruct (Z.eqb_spec m2 0); [done|]. destruct (Z.ltb_spec m2 (2 ^ 53)).
  - apply Hp; [lia| |done]. destruct (Z.eq_dec e' (-1074)); [by left|right; lia].
  - apply Hp; lia.
Qed.

Lemma wf_bounds m e s :
  wf (S754_finite s m e) = true →
  -1074 ≤ e ∧ Z.pos m < 2 ^ 53 ∧ (-1074 < e → 2 ^ 52 ≤ Z.pos m).
Proof.
  cbn [valid_binary]. unfold bounded, canonical_mantissa. intros [Hc _]%andb_true_iff.
  apply Z.eqb_eq in Hc. rewrite fexp53_eq in Hc.
  destruct (digits_bounds (Z.pos m)) as (? & Hlo & Hhi); [lia|]. cbn [Zdigits2] in *.
  split_and!; [lia| |].
  - eapply Z.lt_le_trans; [exact Hhi|]. apply Z.pow_le_mono_r; lia.
  - intros ?. eapply Z.le_trans; [|exact Hlo]. apply Z.pow_le_mono_r; lia.
Qed.

(** Rounding does not go below a canonical number that the exact value is not
    below. *)
Lemma round_aux_ge mc ec m e l :
  wf (S754_finite false mc ec) = true → 0 < m → e ≤ fexp53 (Zdigits2 m + e) →
  (e ≤ ec → Z.pos mc * 2 ^ (ec - e) ≤ m) →
  fle (S754_finite false mc ec) (round_aux false m e l).
Proof.
  intros Hc Hm He Hge.
  pose proof (wf_bounds _ _ _ Hc) as (Hec & Hmc & Hmn).
  destruct (round_aux_spec false m e l Hm) as (m2 & Hm2 & ->).
  destruct (truncated_bounds m e Hm) as ([H0 H53] & He' & Hn). specialize (Hn He).
  revert Hm2 H0 H53 He' Hn. set (e' := Z.max _ _). intros Hm2 H0 H53 He' Hn.
  assert (e' ≤ ec → Z.pos mc * 2 ^ (ec - e') ≤ m / 2 ^ (e' - e)) as Hfl.
  { intros Hle. apply Z.div_le_lower_bound; [apply Z.pow_pos_nonneg; lia|].
    rewrite (Z.mul_comm (2 ^ _)), <- Z.mul_assoc, <- Z.pow_add_r by lia.
    replace (ec - e' + (e' - e)) with (ec - e) by lia. apply Hge. lia. }
  clearbody e'. revert Hm2 H0 H53 Hn Hfl. generalize (m / 2 ^ (e' - e)).
  intros m1 Hm2 H0 H53 Hn Hfl.
  assert (m1 ≠ 0) as Hnz.
  { intros ->. destruct (Z.le_gt_cases e' ec) as [Hle|Hgt]; [specialize (Hfl Hle); nia|lia]. }
  rewrite (proj2 (Z.eqb_neq m2 0)) by lia.
  assert (∀ x, e' + 1 < ec → x ≤ m1 → False) as Hbig.
  { intros x Hlt _. specialize (Hfl ltac:(lia)). assert (2 ^ 2 ≤ 2 ^ (ec - e')) by (apply Z.pow_le_mono_r; lia).
    specialize (Hmn ltac:(lia)). nia. }
  assert (e' + 1 = ec → False) as Hone.
  { intros <-. specialize (Hfl ltac:(lia)). replace (e' + 1 - e') with 1 in Hfl by lia.
    specialize (Hmn ltac:(lia)). lia. }
  apply fle_rank. unfold packed, rank, lex_lt.
  destruct (Z.ltb_spec m2 (2 ^ 53)).
  - destruct (Z.leb_spec e' 971); do 2 eexists; (split_and!; [done..|]); cbn; [|left; lia].
    rewrite Z2Pos.id by lia. destruct (Z.lt_trichotomy ec e') as [?|[->|?]]; [left; lia| |].
    + rewrite Z.sub_diag in Hfl. specialize (Hfl ltac:(lia)).
      destruct (Z.eq_dec (Z.pos mc) m2) as [->|]; [by right|left; lia].
    + destruct (Z.eq_dec (e' + 1) ec); [tauto|]. exfalso. apply (Hbig m1); lia.
  - destruct (Z.leb_spec (e' + 1) 971); do 2 eexists; (split_and!; [done..|]); cbn; [|left; lia].
    destruct (Z.lt_trichotomy ec (e' + 1)) as [?|[->|?]]; [left; lia|tauto|].
    exfalso. apply (Hbig m1); lia.
Qed.

(** ** Sums and products *)

Lemma iter_xO m d : Z.pos (Pos.iter xO m d) = Z.pos m * 2 ^ Z.pos d.
Proof.
  induction d as [|d IH] using Pos.peano_ind; [cbn; lia|].
  rewrite Pos.iter_succ, Pos2Z.inj_xO, IH, Pos2Z.inj_succ, Z.pow_succ_r by lia. lia.
Qed.

Lemma shl_align_spec m e ez : ez ≤ e → Z.pos (shl_align m e ez).1 = Z.pos m * 2 ^ (e - ez).
Proof.
  intros H. unfold shl_align. destruct (ez - e) as [|p|p] eqn:E; [|lia|]; cbn [fst].
  - replace (e - ez) with 0 by lia. lia.
  - rewrite iter_xO. do 2 f_equal. lia.
Qed.

(** [binary_round] aligns the mantissa, which changes neither the value nor
    the exponent it needs, and rounds. *)
Lemma binary_round_spec s m e :
  ∃ mz ez, binary_round f64.prec f64.emax s m e = round_aux s mz ez loc_Exact ∧
    0 < mz ∧ ez ≤ e ∧ ez ≤ fexp53 (Zdigits2 mz + ez) ∧ mz = Z.pos m * 2 ^ (e - ez) ∧
    Zdigits2 mz + ez = Zdigits2 (Z.pos m) + e.
Proof.
  unfold binary_round, shl_align. set (f := fexp53 (Z.pos (digits2_pos m) + e)).
  destruct (f - e) as [|p|p] eqn:E.
  - exists (Z.pos m), e. rewrite Z.sub_diag. split_and!; [done|lia|lia| |lia|done].
    change (Zdigits2 (Z.pos m)) with (Z.pos (digits2_pos m)). fold f. lia.
  - exists (Z.pos m), e. rewrite Z.sub_diag. split_and!; [done|lia|lia| |lia|done].
    change (Zdigits2 (Z.pos m)) with (Z.pos (digits2_pos m)). fold f. lia.
  - destruct (digits_bounds (Z.pos m)) as (? & Hlo & Hhi); [lia|].
    change (Zdigits2 (Z.pos m)) with (Z.pos (digits2_pos m)) in *.
    set (d := Z.pos (digits2_pos m)) in *.
    assert (Zdigits2 (Z.pos (Pos.iter xO m p)) = d + Z.pos p) as Ed.
    { apply digits_unique; [lia|]. rewrite iter_xO.
      replace (d + Z.pos p - 1) with (d - 1 + Z.pos p) by lia. rewrite !Z.pow_add_r by lia.
      assert (0 < 2 ^ Z.pos p) by (apply Z.pow_pos_nonneg; lia). nia. }
    exists (Z.pos (Pos.iter xO m p)), f. rewrite Ed.
    split_and!; [done|lia|lia| |rewrite iter_xO; do 2 f_equal; lia|lia].
    replace (d + Z.pos p + f) with (d + e) by lia. done.
Qed.

Definition positive_finite (x : f64) : Prop := ∃ m e, x = S754_finite false m e.

(** Non-negative: a zero of either sign, a positive number or infinity. *)
Definition nonneg (x : f64) : Prop := fle (S754_zero false) x.

Lemma nonneg_cases x :
  nonneg x → (∃ s, x = S754_zero s) ∨ x = S754_infinity false ∨ positive_finite x.
Proof.
  unfold nonneg, fle, positive_finite. destruct x as [s|[]| |[] m e]; cbn; try done; eauto 10.
Qed.

Lemma add_ge x y :
  positive_finite x → wf x = true → nonneg y →
  fle x (x + y)%f64 ∧ wf (x + y)%f64 = true.
Proof.
  intros (mx & ex & ->) Hx [(s & ->)|[-> |(my & ey & ->)]]%nonneg_cases.
  - split; [by apply fle_refl|done].
  - split; [|done]. done.
  - unfold f64.add, SFadd. cbn [cond_Zopp]. set (ez := Z.min ex ey).
    pose proof (shl_align_spec mx ex ez ltac:(lia)) as E1.
    pose proof (shl_align_spec my ey ez ltac:(lia)) as E2.
    destruct (shl_align mx ex ez) as [mx' ex']. destruct (shl_align my ey ez) as [my' ey'].
    cbn [fst] in *. change (Z.pos mx' + Z.pos my') with (Z.pos (mx' + my')).
    cbn [binary_normalize].
    destruct (binary_round_spec false (mx' + my') ez) as (mz & ez' & -> & Hmz & Hle & Hf & Emz & _).
    split; [|by apply round_aux_wf]. apply round_aux_ge; [done..|]. intros Hex.
    rewrite Emz, Pos2Z.inj_add, E1.
    replace (ex - ez') with ((ex - ez) + (ez - ez')) by lia. rewrite Z.pow_add_r by lia.
    assert (0 < 2 ^ (ez - ez')) by (apply Z.pow_pos_nonneg; lia). nia.
Qed.

(** The exponent of a product is not above the one its mantissa needs. *)
Lemma mul_exponent mx ex my ey sx sy :
  wf (S754_finite sx mx ex) = true → wf (S754_finite sy my ey) = true →
  ex + ey ≤ fexp53 (Zdigits2 (Z.pos (mx * my)) + (ex + ey)).
Proof.
  intros Hx Hy. pose proof (wf_bounds _ _ _ Hx) as (Hx1 & Hx2 & Hx3).
  pose proof (wf_bounds _ _ _ Hy) as (Hy1 & Hy2 & Hy3).
  destruct (digits_bounds (Z.pos (mx * my))) as (Hd & Hlo & Hhi); [lia|].
  rewrite fexp53_eq. destruct (Z.le_gt_cases (ex + ey) (-1074)); [lia|].
  assert (2 ^ 52 ≤ Z.pos (mx * my)) as Hbig.
  { rewrite Pos2Z.inj_mul. destruct (Z.eq_dec ex (-1074)).
    - specialize (Hy3 ltac:(lia)). nia.
    - specialize (Hx3 ltac:(lia)). nia. }
  assert (52 < Zdigits2 (Z.pos (mx * my))) by (apply (Z.pow_lt_mono_r_iff 2); lia). lia.
Qed.

Lemma mul_ge x y :
  positive_finite x → wf x = true → wf y = true → fle f64.one y →
  fle x (x * y)%f64 ∧ wf (x * y)%f64 = true.
Proof.
  intros (mx & ex & ->) Hx Hy H1.
  destruct y as [s|[]| |[] my ey]; try done.
  unfold f64.mul, SFmul. cbn [xorb].
  assert (-52 ≤ ey ∧ 2 ^ 52 ≤ Z.pos my) as [Hey Hmy].
  { pose proof (wf_bounds _ _ _ Hy) as (_ & _ & Hn).
    apply fle_rank in H1 as (a & b & Ha & Hb & H1). vm_compute in Ha. injection Ha as <-.
    injection Hb as <-. unfold lex_lt in H1. cbn in H1.
    destruct H1 as [H1|[= <- <-]]; [|split; [lia|by vm_compute]].
    split; [lia|]. apply Hn. lia. }
  split; [|apply round_aux_wf; [lia|by eapply mul_exponent]].
  apply round_aux_ge; [done|lia|by eapply mul_exponent|]. intros Hle.
  replace (ex - (ex + ey)) with (- ey) by lia. rewrite Pos2Z.inj_mul.
  assert (2 ^ (- ey) ≤ 2 ^ 52) by (apply Z.pow_le_mono_r; lia). nia.
Qed.

(** ** Non-negative and defined results *)

Lemma round_aux_nonneg m e l : 0 ≤ m → nonneg (round_aux false m e l).
Proof.
  intros Hm. destruct (Z.eq_dec m 0) as [->|Hne].
  - pose proof (round_aux_not_nan false 0 e l ltac:(lia)) as Hn. revert Hn.
    unfold binary_round_aux. destruct (shr_fexp _ _ 0 e l) as [r e'].
    destruct (shr_fexp _ _ _ e' loc_Exact) as [r2 e2]. by destruct (shr_m r2); [| |]; try case_match.
  - destruct (round_aux_spec false m e l) as (m2 & _ & ->); [lia|]. unfold packed.
    by repeat case_match.
Qed.

Lemma nonneg_round m e : nonneg (binary_round f64.prec f64.emax false m e).
Proof.
  destruct (binary_round_spec false m e) as (mz & ez & -> & ? & _). apply round_aux_nonneg. lia.
Qed.

Lemma nonneg_of_Z n : 0 ≤ n → nonneg (f64.of_Z n).
Proof. destruct n; [done| |lia]. intros _. apply nonneg_round. Qed.

Lemma nonneg_add x y : nonneg x → nonneg y → nonneg (x + y)%f64.
Proof.
  intros [(sx & ->)|[-> |(mx & ex & ->)]]%nonneg_cases [(sy & ->)|[-> |(my & ey & ->)]]%nonneg_cases;
    try done.
  - by destruct sx, sy.
  - unfold f64.add, SFadd. cbn [cond_Zopp].
    destruct (shl_align mx _ _) as [a ?]. destruct (shl_align my _ _) as [b ?]. cbn [fst].
    change (Z.pos a + Z.pos b) with (Z.pos (a + b)). apply nonneg_round.
Qed.

Lemma nonneg_mul x y : positive_finite x → nonneg y → nonneg (x * y)%f64.
Proof.
  intros (mx & ex & ->) [(sy & ->)|[-> |(my & ey & ->)]]%nonneg_cases; [by destruct sy|done|].
  apply round_aux_nonneg. lia.
Qed.

Lemma div_core_nonneg m1 e1 m2 e2 :
  0 ≤ (SFdiv_core_binary f64.prec f64.emax (Z.pos m1) e1 (Z.pos m2) e2).1.1.
Proof.
  unfold SFdiv_core_binary. cbv zeta.
  set (s := e1 - e2 - _). set (m' := match s with Z0 => _ | _ => _ end).
  assert (0 ≤ m') as Hm'.
  { subst m'. destruct s; [lia| |lia]. apply Z.shiftl_nonneg. lia. }
  pose proof (Z.div_pos m' (Z.pos m2) Hm' ltac:(lia)) as H. unfold Z.div in H.
  by destruct (Z.div_eucl m' (Z.pos m2)).
Qed.

Lemma nonneg_div x y : nonneg x → positive_finite y → nonneg (x / y)%f64.
Proof.
  intros [(sx & ->)|[-> |(mx & ex & ->)]]%nonneg_cases (my & ey & ->); [by destruct sx|done|].
  unfold f64.div, SFdiv. pose proof (div_core_nonneg mx ex my ey) as H.
  destruct (SFdiv_core_binary _ _ _ _ _ _) as [[q e] l]. by apply round_aux_nonneg.
Qed.

Lemma nonneg_secs ns : 0 ≤ ns → nonneg (f64.as_secs_f64 ns).
Proof.
  intros H. unfold f64.as_secs_f64. apply nonneg_add.
  - apply nonneg_of_Z, Z.div_pos; lia.
  - apply nonneg_div; [apply nonneg_of_Z, Z.mod_pos_bound; lia|]. vm_compute. by eexists _, _.
Qed.

Definition is_finite (x : f64) : bool :=
  match x with S754_zero _ | S754_finite _ _ _ => true | _ => false end.

Lemma round_not_nan s m e : f64.is_nan (binary_round f64.prec f64.emax s m e) = false.
Proof.
  destruct (binary_round_spec s m e) as (mz & ez & -> & ? & _). apply round_aux_not_nan. lia.
Qed.

Lemma normalize_not_nan m e s : f64.is_nan (binary_normalize f64.prec f64.emax m e s) = false.
Proof. destruct m; [done|apply round_not_nan..]. Qed.

Lemma add_not_nan x y :
  f64.is_nan x = false → is_finite y = true → f64.is_nan (x + y)%f64 = false.
Proof.
  destruct x as [[]|[]| |sx mx ex], y as [[]|[]| |sy my ey]; try done. intros _ _.
  apply normalize_not_nan.
Qed.

Lemma sub_not_nan x y :
  f64.is_nan x = false → is_finite y = true → f64.is_nan (x - y)%f64 = false.
Proof.
  destruct x as [[]|[]| |sx mx ex], y as [[]|[]| |sy my ey]; try done. intros _ _.
  apply normalize_not_nan.
Qed.

Lemma mul_not_nan x y :
  is_finite x = true → is_finite y = true → f64.is_nan (x * y)%f64 = false.
Proof.
  destruct x as [[]|[]| |sx mx ex], y as [[]|[]| |sy my ey]; try done. intros _ _.
  apply round_aux_not_nan. lia.
Qed.

Lemma div_not_nan x y :
  f64.is_nan x = false → positive_finite y → f64.is_nan (x / y)%f64 = false.
Proof.
  intros Hx (my & ey & ->). destruct x as [[]|[]| |sx mx ex]; try done.
  unfold f64.div, SFdiv. pose proof (div_core_nonneg mx ex my ey) as H.
  destruct (SFdiv_core_binary _ _ _ _ _ _) as [[q e] l]. by apply round_aux_not_nan.
Qed.

(** ** Magnitudes *)

(** A finite number below [2 ^ k]. *)
Definition below (k : Z) (x : f64) : Prop :=
  match x with
  | S754_zero _ => True
  | S754_finite _ m e => Zdigits2 (Z.pos m) + e ≤ k
  | _ => False
  end.

Lemma below_finite k x : below k x → is_finite x = true.
Proof. by destruct x. Qed.

Lemma round_aux_below s m e l k :
  0 < m → e ≤ fexp53 (Zdigits2 m + e) → Zdigits2 m + e ≤ k → 0 ≤ k ≤ 1022 →
  below (k + 1) (round_aux s m e l).
Proof.
  intros Hm He Hk Hk'. destruct (round_aux_spec s m e l Hm) as (m2 & Hm2 & ->).
  destruct (truncated_bounds m e Hm) as ([H0 H53] & He' & _).
  pose proof (fexp53_eq (Zdigits2 m + e)) as Ef.
  assert (∀ m e, 0 < m < 2 ^ 53 → e ≤ 971 → e + 53 ≤ k + 1 → below (k + 1) (packed s m e)) as Hp.
  { clear -Hk'. intros m e Hm He Hk. unfold packed. rewrite (proj2 (Z.leb_le _ _)) by lia.
    cbn [below]. rewrite Z2Pos.id by lia. destruct (digits_bounds m) as (? & Hlo & _); [lia|].
    assert (Zdigits2 m - 1 < 53) by (apply (Z.pow_lt_mono_r_iff 2); lia). lia. }
  revert Hm2 H0 H53 He'. set (e' := Z.max _ _). intros Hm2 H0 H53 He'.
  destruct (Z.eqb_spec m2 0); [done|]. destruct (Z.ltb_spec m2 (2 ^ 53)); apply Hp; lia.
Qed.

Lemma normalize_below m e s k :
  -(2 ^ (k - e)) < m < 2 ^ (k - e) → 0 ≤ k ≤ 1022 →
  below (k + 1) (binary_normalize f64.prec f64.emax m e s).
Proof.
  intros Hm Hk.
  assert (∀ s p, Z.pos p < 2 ^ (k - e) → below (k + 1) (binary_round f64.prec f64.emax s p e)) as H.
  { clear Hm. intros s0 p Hp.
    destruct (binary_round_spec s0 p e) as (mz & ez & -> & Hz & _ & Hf & _ & Ed).
    apply round_aux_below; [done..| |done]. rewrite Ed.
    destruct (digits_bounds (Z.pos p)) as (? & Hlo & _); [lia|].
    destruct (Z.lt_ge_cases (k - e) 0); [by rewrite Z.pow_neg_r in Hp|].
    assert (Zdigits2 (Z.pos p) - 1 < k - e) by (apply (Z.pow_lt_mono_r_iff 2); lia). lia. }
  destruct m as [|p|p]; [done|apply H; lia|apply H; lia].
Qed.

Lemma of_Z_below n k : 0 ≤ k ≤ 1022 → - 2 ^ k < n < 2 ^ k → below (k + 1) (f64.of_Z n).
Proof. intros Hk Hn. apply normalize_below; [rewrite Z.sub_0_r; lia|done]. Qed.

Lemma sub_below x y k :
  0 ≤ k ≤ 1021 → below k x → below k y → below (k + 2) (x - y)%f64.
Proof.
  intros Hk Hx Hy.
  destruct x as [sx|sx| |sx mx ex], y as [sy|sy| |sy my ey]; try done; cbn in Hx, Hy |- *.
  - by destruct sx, sy.
  - lia.
  - lia.
  - replace (k + 2) with ((k + 1) + 1) by lia. set (ez := Z.min ex ey).
    pose proof (shl_align_spec mx ex ez ltac:(lia)) as E1.
    pose proof (shl_align_spec my ey ez ltac:(lia)) as E2.
    unfold f64.sub, SFsub. fold ez.
    destruct (shl_align mx ex ez) as [a ?]. destruct (shl_align my ey ez) as [b ?]. cbn [fst] in *.
    destruct (digits_bounds (Z.pos mx)) as (? & _ & Hx'); [lia|].
    destruct (digits_bounds (Z.pos my)) as (? & _ & Hy'); [lia|].
    assert (∀ m e, ez ≤ e → 0 < Z.pos m < 2 ^ Zdigits2 (Z.pos m) → 1 ≤ Zdigits2 (Z.pos m) →
              Zdigits2 (Z.pos m) + e ≤ k → Z.pos m * 2 ^ (e - ez) < 2 ^ (k - ez)) as Hb.
    { clear. intros m e He Hm Hd Hk. apply Z.lt_le_trans with (2 ^ Zdigits2 (Z.pos m) * 2 ^ (e - ez)).
      - assert (0 < 2 ^ (e - ez)) by (apply Z.pow_pos_nonneg; lia). nia.
      - rewrite <- Z.pow_add_r by lia. apply Z.pow_le_mono_r; lia. }
    pose proof (Hb mx ex ltac:(lia) ltac:(lia) ltac:(lia) Hx).
    pose proof (Hb my ey ltac:(lia) ltac:(lia) ltac:(lia) Hy).
    apply normalize_below; [|lia].
    replace (k + 1 - ez) with (Z.succ (k - ez)) by lia. rewrite Z.pow_succ_r by lia.
    destruct sx, sy; cbn [cond_Zopp]; lia.
Qed.

(** A sum with a non-zero number is canonical. *)
Lemma normalize_wf m e s : wf (binary_normalize f64.prec f64.emax m e s) = true.
Proof.
  assert (∀ s p, wf (binary_round f64.prec f64.emax s p e) = true) as H.
  { intros s0 p. destruct (binary_round_spec s0 p e) as (mz & ez & -> & Hz & _ & Hf & _).
    by apply round_aux_wf. }
  destruct m; [done|apply H..].
Qed.

(** ** Upper bounds *)

(** An exact shift leaves no rounding bits. *)
Lemma iter_shr_exact p k :
  0 ≤ k → SpecFloat.iter_pos shr_1 p (Build_shr_record (k * 2 ^ Z.pos p) false false) =
          Build_shr_record k false false.
Proof.
  assert (∀ k, 0 ≤ k → shr_1 (Build_shr_record (k * 2) false false) =
                        Build_shr_record k false false) as H1.
  { intros [|q|q] Hk; [done| |lia]. replace (Z.pos q * 2) with (Z.pos q~0) by lia. done. }
  revert k; induction p as [p IH|p IH|]; intros k Hk; cbn [SpecFloat.iter_pos].
  - rewrite (ltac:(lia) : Z.pos p~1 = Z.pos p + Z.pos p + 1), !Z.pow_add_r by lia.
    change (2 ^ 1) with 2.
    rewrite !Z.mul_assoc, H1, (IH (k * 2 ^ Z.pos p)), IH by nia. done.
  - rewrite (ltac:(lia) : Z.pos p~0 = Z.pos p + Z.pos p), !Z.pow_add_r by lia.
    rewrite !Z.mul_assoc, (IH (k * 2 ^ Z.pos p)), IH by nia. done.
  - by apply H1.
Qed.

Lemma shr_fexp_exact k m e :
  let e' := Z.max e (fexp53 (Zdigits2 m + e)) in
  0 ≤ k → m = k * 2 ^ (e' - e) →
  shr_fexp f64.prec f64.emax m e loc_Exact = (Build_shr_record k false false, e').
Proof.
  intros e' Hk Hm. unfold shr_fexp, shr. cbn [shr_record_of_loc].
  destruct (fexp53 (Zdigits2 m + e) - e) as [|p|p] eqn:E.
  - assert (e' = e) as He by lia. rewrite He, Z.sub_diag, Z.mul_1_r in Hm. by rewrite He, Hm.
  - replace (e' - e) with (Z.pos p) in Hm by lia. rewrite Hm at 1. rewrite iter_shr_exact by done.
    f_equal. lia.
  - assert (e' = e) as He by lia. rewrite He, Z.sub_diag, Z.mul_1_r in Hm. by rewrite He, Hm.
Qed.

(** A value with at most 53 significant bits is not changed. *)
Lemma round_aux_exact s k m e :
  let e' := Z.max e (fexp53 (Zdigits2 m + e)) in
  0 < k < 2 ^ 53 → -1074 ≤ e' → m = k * 2 ^ (e' - e) → round_aux s m e loc_Exact = packed s k e'.
Proof.
  intros e' Hk He' Hm. unfold binary_round_aux. rewrite (shr_fexp_exact k m e) by (done || lia).
  fold e'. cbn [shr_m loc_of_shr_record round_nearest_even].
  destruct (digits_bounds k ltac:(lia)) as (Hd1 & Hd2 & Hd3).
  assert (Zdigits2 k - 1 < 53) by (apply (Z.pow_lt_mono_r_iff 2); lia).
  pose proof (fexp53_eq (Zdigits2 k + e')) as Ef.
  assert (Z.max e' (fexp53 (Zdigits2 k + e')) = e') as Em by lia.
  rewrite (shr_fexp_exact k k e') by (rewrite ?Em, ?Z.sub_diag; lia). rewrite Em.
  cbn [shr_m]. destruct k; try lia. done.
Qed.

(** Rounding does not go above a canonical number that the exact value is not
    above. *)
Lemma round_aux_le mc ec m e :
  wf (S754_finite false mc ec) = true → 0 < m → e ≤ fexp53 (Zdigits2 m + e) → e ≤ ec →
  m ≤ Z.pos mc * 2 ^ (ec - e) →
  fle (round_aux false m e loc_Exact) (S754_finite false mc ec).
Proof.
  intros Hc Hm He Hec Hle. pose proof (wf_bounds _ _ _ Hc) as (Hec' & Hmc & Hmn).
  assert (ec ≤ 971) as Hmax.
  { cbn [valid_binary] in Hc. unfold bounded in Hc. apply andb_true_iff in Hc as [_ Hc].
    apply Z.leb_le in Hc. exact Hc. }
  destruct (digits_bounds m Hm) as (Hd1 & Hd2 & Hd3).
  pose proof (fexp53_eq (Zdigits2 m + e)) as Ef.
  set (e' := Z.max e (fexp53 (Zdigits2 m + e))).
  assert (e' ≤ ec) as Hee.
  { destruct (Z.eq_dec ec (-1074)) as [->|]; [|].
    - assert (Zdigits2 m - 1 < 53 + (-1074 - e)); [|lia]. apply (Z.pow_lt_mono_r_iff 2); [lia|lia|].
      rewrite Z.pow_add_r by lia. eapply Z.le_lt_trans; [exact Hd2|].
      eapply Z.le_lt_trans; [exact Hle|].
      apply Z.mul_lt_mono_pos_r; [apply Z.pow_pos_nonneg; lia|done].
    - assert (Zdigits2 m - 1 < 53 + (ec - e)); [|lia]. apply (Z.pow_lt_mono_r_iff 2); [lia|lia|].
      rewrite Z.pow_add_r by lia. eapply Z.le_lt_trans; [exact Hd2|].
      eapply Z.le_lt_trans; [exact Hle|].
      apply Z.mul_lt_mono_pos_r; [apply Z.pow_pos_nonneg; lia|done]. }
  destruct (truncated_bounds m e Hm) as ([H0 H53] & He' & Hn). fold e' in H0, H53, He', Hn.
  assert (0 < 2 ^ (e' - e)) as Hpos by (apply Z.pow_pos_nonneg; lia).
  destruct (round_aux_spec false m e loc_Exact Hm) as (m2 & Hm2 & Hr). fold e' in Hm2, Hr.
  apply fle_rank. 
  destruct (Z.eq_dec m2 0) as [->|Hnz].
  { rewrite Hr. cbn. do 2 eexists. split_and!; [done..|]. left. left. cbn. lia. }
  rewrite (proj2 (Z.eqb_neq m2 0)) in Hr by done.
  assert (e' = ec → m2 ≤ Z.pos mc) as Heq.
  { intros E. rewrite <- E in Hle.
    assert (m / 2 ^ (e' - e) ≤ Z.pos mc) as Hq.
    { apply Z.lt_succ_r, Z.div_lt_upper_bound; [done|]. lia. }
    destruct (Z.eq_dec (m / 2 ^ (e' - e)) (Z.pos mc)) as [Eq|]; [|lia].
    assert (m = Z.pos mc * 2 ^ (e' - e)) as Hmex.
    { pose proof (Z.mul_div_le m (2 ^ (e' - e)) Hpos). lia. }
    pose proof (round_aux_exact false (Z.pos mc) m e ltac:(lia) ltac:(lia) Hmex) as Hx.
    fold e' in Hx. rewrite Hr in Hx. unfold packed in Hx. revert Hx.
    rewrite (proj2 (Z.leb_le e' 971)) by lia.
    destruct (Z.ltb_spec m2 (2 ^ 53)); [intros [= Hx]; lia|].
    destruct (e' + 1 <=? 971); intros [=]; lia. }
  rewrite Hr. unfold packed, rank, lex_lt.
  destruct (Z.ltb_spec m2 (2 ^ 53)).
  - rewrite (proj2 (Z.leb_le e' 971)) by lia. do 2 eexists. split_and!; [done..|]. cbn.
    rewrite Z2Pos.id by lia. destruct (Z.eq_dec e' ec) as [E|]; [|left; lia].
    specialize (Heq E). destruct (Z.eq_dec m2 (Z.pos mc)) as [->|]; [right; by rewrite E|left; lia].
  - assert (e' ≠ ec) by lia. rewrite (proj2 (Z.leb_le (e' + 1) 971)) by lia.
    do 2 eexists. split_and!; [done..|]. cbn. specialize (Hmn ltac:(lia)).
    destruct (Z.eq_dec (e' + 1) ec) as [E|]; [|left; lia].
    destruct (Z.eq_dec (2 ^ 52) (Z.pos mc)) as [<-|]; [right; by rewrite E|left; lia].
Qed.

Lemma mul_wf x y : wf x = true → wf y = true → wf (x * y)%f64 = true.
Proof.
  intros Hx Hy. destruct x as [sx|sx| |sx mx ex], y as [sy|sy| |sy my ey]; try done.
  unfold f64.mul, SFmul. apply round_aux_wf; [lia|by eapply mul_exponent].
Qed.

(** Scaling by at most one does not raise a number. *)
Lemma mul_le x y :
  positive_finite x → wf x = true → wf y = true → within f64.zero f64.one y → fle (x * y)%f64 x.
Proof.
  intros (mx & ex & ->) Hx Hy [H0 H1].
  apply nonneg_cases in H0 as [[sy ->]|[->|(my & ey & ->)]]; [done|done|].
  unfold f64.mul, SFmul. cbn [xorb].
  assert (ey ≤ 0 ∧ Z.pos my ≤ 2 ^ (- ey)) as [Hey Hmy].
  { pose proof (wf_bounds _ _ _ Hy) as (_ & Hm & _).
    apply fle_rank in H1 as (a & b & Ha & Hb & H1). vm_compute in Hb. injection Hb as <-.
    injection Ha as <-. unfold lex_lt in H1. cbn in H1.
    destruct H1 as [H1|[= -> ->]]; [|split; [lia|by vm_compute]].
    assert (ey ≤ -52) by lia. split; [lia|].
    destruct (Z.eq_dec ey (-52)) as [->|]; [cbn; lia|].
    assert (2 ^ 53 ≤ 2 ^ (- ey)) by (apply Z.pow_le_mono_r; lia). lia. }
  apply round_aux_le; [done|lia|by eapply mul_exponent|lia|].
  replace (ex - (ex + ey)) with (- ey) by lia. rewrite Pos2Z.inj_mul. nia.
Qed.

(** ** Quotients *)

Lemma round_aux_zero_wf s e l : e ≤ -1074 → wf (round_aux s 0 e l) = true.
Proof.
  intros He. unfold binary_round_aux. destruct (shr_fexp_spec 0 e l) as (r & -> & Hr); [lia|].
  rewrite Z.div_0_l in Hr by lia. pose proof (nearest_bounds (shr_m r) (loc_of_shr_record r)) as Hb.
  rewrite Hr in Hb |- *.
  assert (Z.max e (fexp53 (Zdigits2 0 + e)) = -1074) as ->.
  { pose proof (fexp53_eq (Zdigits2 0 + e)). cbn [Zdigits2] in *. lia. }
  assert (round_nearest_even 0 (loc_of_shr_record r) = 0 ∨
          round_nearest_even 0 (loc_of_shr_record r) = 1) as [->| ->] by lia;
    by destruct s; vm_compute.
Qed.

(** The exponent of a quotient is not above the one it needs. *)
Lemma div_exponent m1 e1 m2 e2 :
  let '(q, e, l) := SFdiv_core_binary f64.prec f64.emax (Z.pos m1) e1 (Z.pos m2) e2 in
  0 ≤ q ∧ (q = 0 → e ≤ -1074) ∧ (0 < q → e ≤ fexp53 (Zdigits2 q + e)).
Proof.
  pose proof (div_core_nonneg m1 e1 m2 e2) as H0. revert H0.
  unfold SFdiv_core_binary. cbv zeta.
  destruct (digits_bounds (Z.pos m1) ltac:(lia)) as (Ha1 & Ha2 & Ha3).
  destruct (digits_bounds (Z.pos m2) ltac:(lia)) as (Hb1 & Hb2 & Hb3).
  set (d1 := Zdigits2 (Z.pos m1)) in *. set (d2 := Zdigits2 (Z.pos m2)) in *.
  set (D := d1 + e1 - (d2 + e2)). pose proof (fexp53_eq D) as EF.
  set (e' := Z.min (fexp53 D) (e1 - e2)).
  set (m' := match e1 - e2 - e' with Z0 => _ | _ => _ end).
  assert (m' = Z.pos m1 * 2 ^ (e1 - e2 - e')) as Hm'.
  { subst m'. destruct (e1 - e2 - e') as [|p|p] eqn:E; [lia| |lia].
    by rewrite Z.shiftl_mul_pow2. }
  clearbody m'. destruct (Z.div_eucl m' (Z.pos m2)) as [q r] eqn:E. cbn [fst].
  intros Hq. split; [done|].
  assert (q = m' / Z.pos m2) as Hqd by (unfold Z.div; by rewrite E).
  assert (D - e' > 0 → 2 ^ (D - e' - 1) ≤ q) as Hlow.
  { intros Hpos. rewrite Hqd. apply Z.div_le_lower_bound; [lia|].
    eapply Z.le_trans; [apply Z.mul_le_mono_nonneg_r; [apply Z.pow_nonneg; lia|apply Z.lt_le_incl, Hb3]|].
    rewrite <- Z.pow_add_r by lia. rewrite Hm'.
    replace (d2 + (D - e' - 1)) with ((d1 - 1) + (e1 - e2 - e')) by lia.
    rewrite Z.pow_add_r by lia. apply Z.mul_le_mono_nonneg_r; [apply Z.pow_nonneg; lia|done]. }
  split.
  - intros ->. destruct (Z.le_gt_cases (D - e') 0) as [|Hgt]; [lia|].
    specialize (Hlow ltac:(lia)). assert (0 < 2 ^ (D - e' - 1)) by (apply Z.pow_pos_nonneg; lia). lia.
  - intros Hqp. destruct (digits_bounds q Hqp) as (Hc1 & Hc2 & Hc3). rewrite fexp53_eq.
    destruct (Z.le_gt_cases (D - e') 0) as [|Hgt]; [lia|]. specialize (Hlow ltac:(lia)).
    assert (D - e' - 1 < Zdigits2 q) by (apply (Z.pow_lt_mono_r_iff 2); lia). lia.
Qed.

Lemma div_wf x y : wf (x / y)%f64 = true.
Proof.
  destruct x as [sx|sx| |sx mx ex], y as [sy|sy| |sy my ey]; try done.
  unfold f64.div, SFdiv. pose proof (div_exponent mx ex my ey) as H.
  destruct (SFdiv_core_binary _ _ _ _ _ _) as [[q e] l]. destruct H as (Hq & H0 & H1).
  destruct (Z.eq_dec q 0) as [->|]; [by apply round_aux_zero_wf, H0|].
  apply round_aux_wf; [lia|apply H1; lia].
Qed.

Lemma of_Z_wf n : wf (f64.of_Z n) = true.
Proof. apply normalize_wf. Qed.

Lemma add_wf x y : wf x = true → wf y = true → wf (x + y)%f64 = true.
Proof.
  intros Hx Hy. destruct x as [[]|[]| |sx mx ex], y as [[]|[]| |sy my ey]; try done.
  apply normalize_wf.
Qed.

Lemma sub_wf x y : wf x = true → wf y = true → wf (x - y)%f64 = true.
Proof.
  intros Hx Hy. destruct x as [[]|[]| |sx mx ex], y as [[]|[]| |sy my ey]; try done.
  apply normalize_wf.
Qed.

Lemma clamp_wf x lo hi :
  wf x = true → wf lo = true → wf hi = true → wf (f64.clamp x lo hi) = true.
Proof. intros. unfold f64.clamp. by repeat case_match. Qed.

Lemma min_wf x y : wf x = true → wf y = true → wf (f64.min x y) = true.
Proof. intros. unfold f64.min. by repeat case_match. Qed.

Lemma max_wf x y : wf x = true → wf y = true → wf (f64.max x y) = true.
Proof. intros. unfold f64.max. by repeat case_match. Qed.

Lemma min_not_nan x y : f64.is_nan x = false → f64.is_nan (f64.min x y) = false.
Proof. intros Hx. unfold f64.min. rewrite Hx. destruct (f64.is_nan y) eqn:E; [done|]. by case_match. Qed.

Lemma min_le_r x y : f64.is_nan x = false → f64.is_nan y = false → fle (f64.min x y) y.
Proof.
  intros Hx Hy. unfold f64.min. rewrite Hx, Hy. destruct (y <? x)%f64 eqn:E; [by apply fle_refl|].
  by apply not_flt.
Qed.

Lemma min_le_l x y : f64.is_nan x = false → f64.is_nan y = false → fle (f64.min x y) x.
Proof.
  intros Hx Hy. unfold f64.min. rewrite Hx, Hy. destruct (y <? x)%f64 eqn:E; [by apply flt_le|].
  by apply fle_refl.
Qed.

Lemma clamp_le x lo hi c : fle x c → fle lo c → fle (f64.clamp x lo hi) c.
Proof.
  intros Hx Hlo. unfold f64.clamp. set (y := if (x <? lo)%f64 then lo else x).
  assert (fle y c) as Hy by (subst y; by case_match). clearbody y.
  destruct (hi <? y)%f64 eqn:E; [|done]. eapply fle_trans; [by apply flt_le|done].
Qed.

Lemma mul_pos_not_nan x y :
  f64.is_nan x = false → positive_finite y → f64.is_nan (x * y)%f64 = false.
Proof.
  intros Hx (my & ey & ->). destruct x as [sx|sx| |sx mx ex]; try done.
  by apply round_aux_not_nan.
Qed.

(** Two canonical numbers that bound each other, the first not a zero, are
    equal. *)
Lemma fle_antisym x y : positive_finite x → fle x y → fle y x → x = y.
Proof.
  intros (m & e & ->) (a & b & Ha & Hb & H)%fle_rank (a' & b' & Ha' & Hb' & H')%fle_rank.
  rewrite Ha in Hb'. rewrite Hb in Ha'. injection Hb' as <-. injection Ha' as <-.
  cbn in Ha. injection Ha as <-. destruct b as [[b1 b2] b3]. unfold lex_lt in *. cbn in *.
  assert ((1, e, Z.pos m) = (b1, b2, b3)) as [= <- <- <-] by (destruct H as [H|H], H' as [H'|H']; [exfalso; lia|done|done|done]).
  destruct y as [s|[]| |[] my ey]; cbn in Hb; try done. by injection Hb as -> ->.
Qed.
