(* ===== verification/ExactInt.v ===== *)
(** * Integers in double precision

    Integers of magnitude below 2^53 are exact: their sums and differences are
    the integers' own, and [total_cmp] is their order. *)

From Stdlib Require Import SpecFloat.
From S2P Require Import Prelude Bytes F64 Rounding.

(** ** Canonical form *)

(** The canonical form of an integer of at most 53 bits. *)
Definition int_mantissa (n : Z) : Z := n * 2 ^ (53 - Zdigits2 n).

Lemma int_digits n : 0 < n < 2 ^ 53 → 1 ≤ Zdigits2 n ≤ 53.
Proof.
  intros Hn. destruct (digits_bounds n) as (H1 & H2 & _); [lia|].
  assert (Zdigits2 n - 1 < 53) by (apply (Z.pow_lt_mono_r_iff 2); lia). lia.
Qed.

Lemma int_mantissa_bounds n : 0 < n < 2 ^ 53 → 2 ^ 52 ≤ int_mantissa n < 2 ^ 53.
Proof.
  intros Hn. pose proof (int_digits n Hn) as Hd. destruct (digits_bounds n) as (_ & H2 & H3); [lia|].
  unfold int_mantissa. split.
  - replace 52 with ((Zdigits2 n - 1) + (53 - Zdigits2 n)) by lia. rewrite Z.pow_add_r by lia. nia.
  - replace (2 ^ 53) with (2 ^ Zdigits2 n * 2 ^ (53 - Zdigits2 n)).
    + apply Z.mul_lt_mono_pos_r; [apply Z.pow_pos_nonneg; lia|done].
    + rewrite <- Z.pow_add_r by lia. f_equal. lia.
Qed.

Lemma digits_shift n k : 0 < n → 0 ≤ k → Zdigits2 (n * 2 ^ k) = Zdigits2 n + k.
Proof.
  intros Hn Hk. destruct (digits_bounds n Hn) as (H1 & H2 & H3).
  apply digits_unique; [apply Z.mul_pos_pos; [done|apply Z.pow_pos_nonneg; lia]|].
  replace (Zdigits2 n + k - 1) with ((Zdigits2 n - 1) + k) by lia. rewrite !Z.pow_add_r by lia.
  assert (0 < 2 ^ k) by (apply Z.pow_pos_nonneg; lia). nia.
Qed.

Lemma round_int s n p e :
  0 < n < 2 ^ 53 → e ≤ 0 → Z.pos p = n * 2 ^ (- e) →
  binary_round f64.prec f64.emax s p e =
  S754_finite s (Z.to_pos (int_mantissa n)) (Zdigits2 n - 53).
Proof.
  intros Hn He Hp. pose proof (int_digits n Hn) as Hd. pose proof (int_mantissa_bounds n Hn) as Hm.
  destruct (binary_round_spec s p e) as (mz & ez & -> & Hmz & Hez & Hf & Hv & Hdz).
  rewrite Hp, digits_shift in Hdz by lia.
  pose proof (fexp53_eq (Zdigits2 mz + ez)) as Ef.
  assert (Z.max ez (fexp53 (Zdigits2 mz + ez)) = Zdigits2 n - 53) as Ee by lia.
  rewrite (round_aux_exact s (int_mantissa n) mz ez); [|lia|lia|].
  - rewrite Ee. unfold packed. rewrite (proj2 (Z.leb_le _ _)) by lia. done.
  - rewrite Ee, Hv, Hp. unfold int_mantissa.
    rewrite <- !Z.mul_assoc, <- !Z.pow_add_r by lia. do 2 f_equal. lia.
Qed.

(** The value of an integer, at a scale. *)
Lemma normalize_int m e n :
  - 2 ^ 53 < n < 2 ^ 53 → e ≤ 0 → m = n * 2 ^ (- e) →
  binary_normalize f64.prec f64.emax m e false = f64.of_Z n.
Proof.
  intros Hn He ->. assert (0 < 2 ^ (- e)) as Hpos by (apply Z.pow_pos_nonneg; lia).
  unfold f64.of_Z. destruct n as [|p|p]; [done| |].
  - destruct (Z.pos p * 2 ^ (- e)) as [|q|q] eqn:E; [lia| |lia]. cbn [binary_normalize].
    rewrite (round_int false (Z.pos p) q e), (round_int false (Z.pos p) p 0) by (lia || done). done.
  - destruct (Z.neg p * 2 ^ (- e)) as [|q|q] eqn:E; [lia|lia|]. cbn [binary_normalize].
    rewrite (round_int true (Z.pos p) q e), (round_int true (Z.pos p) p 0) by (lia || done). done.
Qed.

(** Its shape: a zero, or a finite number whose scaled mantissa is the
    integer. *)
Lemma of_Z_shape n :
  - 2 ^ 53 < n < 2 ^ 53 →
  (n = 0 ∧ f64.of_Z n = S754_zero false) ∨
  ∃ s m e, f64.of_Z n = S754_finite s m e ∧ -52 ≤ e ≤ 0 ∧
           cond_Zopp s (Z.pos m) = n * 2 ^ (- e).
Proof.
  intros Hn. destruct n as [|p|p]; [by left| |].
  all: right; assert (0 < Z.pos p < 2 ^ 53) as Hp by lia; pose proof (int_digits _ Hp);
    pose proof (int_mantissa_bounds _ Hp); unfold f64.of_Z; cbn [binary_normalize];
    rewrite (round_int _ (Z.pos p) p 0) by (lia || done);
    do 3 eexists; (split; [done|]); (split; [lia|]); cbn [cond_Zopp].
  all: rewrite Z2Pos.id by lia; unfold int_mantissa;
    replace (- (Zdigits2 (Z.pos p) - 53)) with (53 - Zdigits2 (Z.pos p)) by lia; lia.
Qed.

Lemma of_Z_add a b :
  - 2 ^ 53 < a < 2 ^ 53 → - 2 ^ 53 < b < 2 ^ 53 → - 2 ^ 53 < a + b < 2 ^ 53 →
  (f64.of_Z a + f64.of_Z b)%f64 = f64.of_Z (a + b).
Proof.
  intros Ha Hb Hab.
  destruct (of_Z_shape a Ha) as [[-> ->]|(sa & ma & ea & Ea & Hea & Va)],
    (of_Z_shape b Hb) as [[-> ->]|(sb & mb & eb & Eb & Heb & Vb)];
    rewrite ?Ea, ?Eb; [done|by rewrite Z.add_0_l|by rewrite Z.add_0_r|].
  unfold f64.add, SFadd. apply normalize_int; [done|lia|].
  assert (∀ s p x m e ez, ez ≤ e → Z.pos p = Z.pos m * 2 ^ (e - ez) →
            cond_Zopp s (Z.pos m) = x * 2 ^ (- e) → e ≤ 0 →
            cond_Zopp s (Z.pos p) = x * 2 ^ (- ez)) as Hs.
  { intros s p x m e ez Hez Hp Hv He. replace (- ez) with (- e + (e - ez)) by lia.
    rewrite Z.pow_add_r, Z.mul_assoc, <- Hv, Hp by lia. destruct s; cbn; lia. }
  rewrite Z.mul_add_distr_r. f_equal; (eapply Hs; [|apply shl_align_spec|done|]); lia.
Qed.

Lemma sub_opp x y : y ≠ S754_nan → (x - y)%f64 = (x + SFopp y)%f64.
Proof.
  intros Hy. destruct x as [[]|[]| |sx mx ex], y as [[]|[]| |[] my ey]; try done.
Qed.

Lemma of_Z_opp n : - 2 ^ 53 < n < 2 ^ 53 → n ≠ 0 → SFopp (f64.of_Z n) = f64.of_Z (- n).
Proof.
  intros Hn Hz. destruct n as [|p|p]; [done| |].
  - change (- Z.pos p) with (Z.neg p). unfold f64.of_Z. cbn [binary_normalize].
    rewrite (round_int false (Z.pos p) p 0), (round_int true (Z.pos p) p 0) by (lia || done). done.
  - change (- Z.neg p) with (Z.pos p). unfold f64.of_Z. cbn [binary_normalize].
    rewrite (round_int false (Z.pos p) p 0), (round_int true (Z.pos p) p 0) by (lia || done). done.
Qed.

Lemma of_Z_sub a b :
  - 2 ^ 53 < a < 2 ^ 53 → - 2 ^ 53 < b < 2 ^ 53 → - 2 ^ 53 < a - b < 2 ^ 53 →
  (f64.of_Z a - f64.of_Z b)%f64 = f64.of_Z (a - b).
Proof.
  intros Ha Hb Hab. destruct (Z.eq_dec b 0) as [->|Hz].
  - rewrite Z.sub_0_r. destruct (of_Z_shape a Ha) as [[-> ->]|(s & m & e & -> & _)]; done.
  - assert (f64.of_Z b ≠ S754_nan)
      by (destruct (of_Z_shape b Hb) as [[-> ->]|(s & m & e & -> & _)]; done).
    rewrite sub_opp by done. rewrite of_Z_opp, of_Z_add by lia. done.
Qed.

(** [total_cmp] orders integers. *)
Lemma of_Z_total_cmp a b :
  - 2 ^ 53 < a < 2 ^ 53 → - 2 ^ 53 < b < 2 ^ 53 →
  f64.total_cmp (f64.of_Z a) (f64.of_Z b) = (a ?= b).
Proof.
  assert (∀ p q, 0 < Z.pos p < 2 ^ 53 → 0 < Z.pos q < 2 ^ 53 →
    match (Zdigits2 (Z.pos p) - 53 ?= Zdigits2 (Z.pos q) - 53) with
    | Lt => Lt | Gt => Gt
    | Eq => Pos.compare_cont Eq (Z.to_pos (int_mantissa (Z.pos p))) (Z.to_pos (int_mantissa (Z.pos q)))
    end = (p ?= q)%positive) as Hpp.
  { intros p q Hp Hq. pose proof (int_digits _ Hp). pose proof (int_digits _ Hq).
    pose proof (int_mantissa_bounds _ Hp). pose proof (int_mantissa_bounds _ Hq).
    destruct (digits_bounds (Z.pos p)) as (_ & P2 & P3); [lia|].
    destruct (digits_bounds (Z.pos q)) as (_ & Q2 & Q3); [lia|].
    change (Pos.compare_cont Eq ?a ?b) with (a ?= b)%positive. symmetry.
    destruct (Z.compare_spec (Zdigits2 (Z.pos p) - 53) (Zdigits2 (Z.pos q) - 53)) as [E|E|E].
    - assert (Zdigits2 (Z.pos p) = Zdigits2 (Z.pos q)) as E' by lia.
      change (p ?= q)%positive with (Z.pos p ?= Z.pos q).
      change (?a ?= ?b)%positive with (Z.pos a ?= Z.pos b). rewrite !Z2Pos.id by lia.
      unfold int_mantissa. rewrite E'.
      assert (0 < 2 ^ (53 - Zdigits2 (Z.pos q))) by (apply Z.pow_pos_nonneg; lia).
      destruct (Z.compare_spec (Z.pos p) (Z.pos q)) as [Ec|Ec|Ec]; symmetry;
        [apply Z.compare_eq_iff|apply Z.compare_lt_iff|apply Z.compare_gt_iff]; nia.
    - change (Z.pos p ?= Z.pos q = Lt). apply Z.compare_lt_iff. eapply Z.lt_le_trans; [exact P3|]. etransitivity; [|exact Q2].
      apply Z.pow_le_mono_r; lia.
    - change (Z.pos p ?= Z.pos q = Gt). apply Z.compare_gt_iff. eapply Z.lt_le_trans; [exact Q3|]. etransitivity; [|exact P2].
      apply Z.pow_le_mono_r; lia. }
  intros Ha Hb. destruct a as [|p|p], b as [|q|q]; try done;
    unfold f64.of_Z; cbn [binary_normalize];
    rewrite ?(round_int false (Z.pos p) p 0), ?(round_int true (Z.pos p) p 0),
      ?(round_int false (Z.pos q) q 0), ?(round_int true (Z.pos q) q 0) by (lia || done); try done.
  - cbn [f64.total_cmp SFcompare Z.compare]. rewrite <- (Hpp p q) by lia. by destruct (_ ?= _)%Z.
  - cbn [f64.total_cmp SFcompare Z.compare]. rewrite <- (Hpp p q) by lia. by destruct (_ ?= _)%Z.
Qed.

(** ** The value of a finite number *)

(** The order of canonical positive numbers is the order of their values. *)
Lemma fle_value m1 e1 m2 e2 :
  wf (S754_finite false m1 e1) = true → wf (S754_finite false m2 e2) = true →
  fle (S754_finite false m1 e1) (S754_finite false m2 e2) →
  Z.pos m1 * 2 ^ (e1 + 1074) ≤ Z.pos m2 * 2 ^ (e2 + 1074).
Proof.
  intros (A1 & A2 & _)%wf_bounds (B1 & _ & B3)%wf_bounds (a & b & [= <-] & [= <-] & H)%fle_rank.
  assert (e1 < e2 ∨ (e1 = e2 ∧ Z.pos m1 ≤ Z.pos m2)) as [He|[-> Hm]]
    by (destruct H as [H|[= -> ->]]; unfold lex_lt in *; cbn in *; lia).
  - replace (e2 + 1074) with ((e1 + 1074) + 1 + (e2 - e1 - 1)) by lia.
    rewrite (Z.pow_add_r _ (e1 + 1074 + 1)), (Z.pow_add_r _ (e1 + 1074) 1) by lia.
    specialize (B3 ltac:(lia)).
    assert (0 < 2 ^ (e1 + 1074)) as HP by (apply Z.pow_pos_nonneg; lia).
    assert (0 < 2 ^ (e2 - e1 - 1)) as HQ by (apply Z.pow_pos_nonneg; lia).
    assert (Z.pos m1 ≤ Z.pos m2 * 2) by lia.
    assert (Z.pos m1 ≤ Z.pos m2 * 2 * 2 ^ (e2 - e1 - 1)) by nia.
    generalize dependent (2 ^ (e1 + 1074)). nia.
  - assert (0 < 2 ^ (e2 + 1074)) by (apply Z.pow_pos_nonneg; lia). nia.
Qed.

Lemma of_Z_value n :
  0 < n < 2 ^ 53 →
  ∃ m e, f64.of_Z n = S754_finite false m e ∧ -52 ≤ e ≤ 0 ∧ Z.pos m = n * 2 ^ (- e).
Proof.
  intros Hn. destruct (of_Z_shape n) as [[? _]|(s & m & e & E & He & Hm)]; [lia..|].
  assert (0 < 2 ^ (- e)) by (apply Z.pow_pos_nonneg; lia).
  destruct s; cbn [cond_Zopp] in Hm; [nia|]. eauto.
Qed.

Lemma of_Z_mono a b : 0 ≤ a ≤ b → b < 2 ^ 53 → fle (f64.of_Z a) (f64.of_Z b).
Proof.
  intros Ha Hb. pose proof (of_Z_total_cmp a b ltac:(lia) ltac:(lia)) as H.
  unfold fle, f64.leb, SFleb.
  destruct (Z.eq_dec b 0) as [-> |Nb]; [by replace a with 0 by lia|].
  destruct (of_Z_value b) as (m' & e' & E' & _); [lia|].
  destruct (Z.eq_dec a 0) as [-> |Na]; [by rewrite E'|].
  destruct (of_Z_value a) as (m & e & E & _); [lia|].
  rewrite E, E' in *. unfold f64.total_cmp in H.
  destruct (SFcompare _ _) as [c|] eqn:Ec; [subst c|by cbn in Ec; repeat case_match].
  destruct (Z.compare_spec a b); [done|done|lia].
Qed.

(** A number between two integers truncates, rounds and casts to an integer
    between them. *)
Lemma trunc_of_Z n : 0 ≤ n < 2 ^ 53 → f64.trunc (f64.of_Z n) = n.
Proof.
  intros Hn. destruct (Z.eq_dec n 0) as [-> |]; [done|].
  destruct (of_Z_value n) as (m & e & -> & He & Hm); [lia|]. cbn [f64.trunc].
  destruct (Z.leb_spec 0 e).
  - replace e with 0 in * by lia. rewrite Z.shiftl_0_r. cbn in Hm. lia.
  - rewrite Z.shiftr_div_pow2, Hm by lia. apply Z.div_mul.
    apply Z.pow_nonzero; lia.
Qed.

Lemma to_u64_of_Z n : 0 ≤ n < 2 ^ 53 → f64.to_u64 (f64.of_Z n) = n.
Proof.
  intros Hn. unfold f64.to_u64, f64.sat. rewrite trunc_of_Z by done.
  destruct (Z.eq_dec n 0) as [-> |]; [done|].
  destruct (of_Z_value n) as (m & e & -> & _); lia.
Qed.

Lemma of_Z_scaled n m e :
  0 < n < 2 ^ 53 → f64.of_Z n = S754_finite false m e →
  Z.pos m * 2 ^ (e + 1074) = n * 2 ^ 1074.
Proof.
  intros Hn E. destruct (of_Z_value n Hn) as (m' & e' & E' & He & Hm).
  rewrite E in E'. injection E' as <- <-.
  rewrite Hm, <- Z.mul_assoc, <- Z.pow_add_r by lia. do 2 f_equal. lia.
Qed.

(** Where a positive number lies among the integers. *)
Lemma value_between lo hi m e :
  0 ≤ lo ≤ hi → hi < 2 ^ 53 → wf (S754_finite false m e) = true →
  fle (f64.of_Z lo) (S754_finite false m e) → fle (S754_finite false m e) (f64.of_Z hi) →
  lo * 2 ^ 1074 ≤ Z.pos m * 2 ^ (e + 1074) ≤ hi * 2 ^ 1074.
Proof.
  intros Hlo Hhi Hw Hl Hh.
  assert (0 ≤ Z.pos m * 2 ^ (e + 1074)) by (apply Z.mul_nonneg_nonneg; [lia|apply Z.pow_nonneg; lia]).
  split.
  - destruct (Z.eq_dec lo 0) as [-> |]; [done|].
    destruct (of_Z_value lo) as (m1 & e1 & E1 & _); [lia|].
    rewrite <- (of_Z_scaled lo m1 e1) by (lia || done). apply fle_value; [|done|by rewrite <- E1].
    rewrite <- E1. apply of_Z_wf.
  - destruct (Z.eq_dec hi 0) as [-> |]; [done|].
    destruct (of_Z_value hi) as (m1 & e1 & E1 & _); [lia|].
    rewrite <- (of_Z_scaled hi m1 e1) by (lia || done). apply fle_value; [done| |by rewrite <- E1].
    rewrite <- E1. apply of_Z_wf.
Qed.

Lemma round_finite_between lo hi m e :
  0 ≤ lo ≤ hi → hi < 2 ^ 53 → wf (S754_finite false m e) = true →
  lo * 2 ^ 1074 ≤ Z.pos m * 2 ^ (e + 1074) ≤ hi * 2 ^ 1074 →
  lo ≤ f64.to_u64 (f64.round (S754_finite false m e)) ≤ hi.
Proof.
  intros Hlo Hhi (He & Hm & _)%wf_bounds Hv. cbn [f64.round].
  destruct (Z.leb_spec 0 e) as [H0|H0].
  - replace (e + 1074) with (e + 1074) in Hv by lia. rewrite Z.pow_add_r, Z.mul_assoc in Hv by lia.
    rewrite <- !Z.mul_le_mono_pos_r in Hv by (apply Z.pow_pos_nonneg; lia).
    unfold f64.to_u64, f64.sat, f64.trunc. rewrite Zle_imp_le_bool, Z.shiftl_mul_pow2 by lia. lia.
  - assert (2 ^ 1074 = 2 ^ (- e) * 2 ^ (e + 1074)) as E by (rewrite <- Z.pow_add_r by lia; f_equal; lia).
    rewrite E, !Z.mul_assoc in Hv.
    rewrite <- !Z.mul_le_mono_pos_r in Hv by (apply Z.pow_pos_nonneg; lia). clear E.
    set (a := Z.shiftr _ _). assert (lo ≤ a ≤ hi) as Ha.
    2: { change (lo ≤ f64.to_u64 (f64.of_Z a) ≤ hi). by rewrite to_u64_of_Z by lia. }
    unfold a. rewrite Z.shiftr_div_pow2, Z.shiftl_1_l by lia.
    replace (- e) with (Z.succ (- e - 1)) in * by lia. replace (Z.succ (- e - 1) - 1) with (- e - 1) by lia.
    rewrite Z.pow_succ_r in * by lia.
    assert (0 < 2 ^ (- e - 1)) by (apply Z.pow_pos_nonneg; lia).
    split; [apply Z.div_le_lower_bound|apply Z.lt_succ_r, Z.div_lt_upper_bound]; nia.
Qed.

Lemma round_between lo hi x :
  0 ≤ lo ≤ hi → hi < 2 ^ 53 → wf x = true → fle (f64.of_Z lo) x → fle x (f64.of_Z hi) →
  lo ≤ f64.to_u64 (f64.round x) ≤ hi.
Proof.
  intros Hlo Hhi Hw Hl Hh.
  assert (∀ n, 0 ≤ n < 2 ^ 53 → f64.of_Z n = f64.zero ∧ n = 0 ∨
            ∃ m e, f64.of_Z n = S754_finite false m e) as Hshape.
  { intros n Hn. destruct (Z.eq_dec n 0) as [-> |]; [by left|].
    destruct (of_Z_value n) as (m & e & E & _); [lia|eauto]. }
  assert (x = S754_zero true ∨ x = S754_zero false ∨ positive_finite x) as Hx.
  { destruct (Hshape lo ltac:(lia)) as [[El El']|(ml & el & El)],
      (Hshape hi ltac:(lia)) as [[Eh Eh']|(mh & eh & Eh)]; rewrite El in Hl; rewrite Eh in Hh;
      destruct x as [[]|[]| |[] m e]; try done; auto; right; right; by exists m, e. }
  destruct Hx as [-> |[-> |(m & e & ->)]].
  1, 2: destruct (Hshape lo ltac:(lia)) as [[El El']|(ml & el & El)]; rewrite El in Hl; [cbn; lia|done].
  apply round_finite_between, value_between; done.
Qed.

(** A difference of ordered non-negative numbers is not negative. *)
Lemma nonneg_sub x y :
  wf x = true → wf y = true → is_finite x = true → is_finite y = true → nonneg y → fle y x →
  nonneg (x - y)%f64.
Proof.
  intros Wx Wy Fx Fy [(sy & ->)|[-> |(my & ey & ->)]]%nonneg_cases Hle; [|done|].
  - destruct x as [[]| | |[] m e], sy; done.
  - destruct x as [[]| | |[] mx ex]; try done.
    pose proof (fle_value _ _ _ _ Wy Wx Hle) as Hv.
    apply wf_bounds in Wx as (? & _). apply wf_bounds in Wy as (? & _).
    unfold f64.sub, SFsub. set (ez := Z.min ex ey).
    pose proof (shl_align_spec mx ex ez ltac:(lia)) as E1.
    pose proof (shl_align_spec my ey ez ltac:(lia)) as E2.
    destruct (shl_align mx ex ez) as [a ?]. destruct (shl_align my ey ez) as [b ?].
    cbn [fst cond_Zopp] in *.
    assert (Z.pos b ≤ Z.pos a) as Hab.
    { rewrite E1, E2. replace (ex + 1074) with ((ex - ez) + (ez + 1074)) in Hv by lia.
      replace (ey + 1074) with ((ey - ez) + (ez + 1074)) in Hv by lia.
      rewrite (Z.pow_add_r 2 (ex - ez)), (Z.pow_add_r 2 (ey - ez)) in Hv by lia.
      assert (0 < 2 ^ (ez + 1074)) by (apply Z.pow_pos_nonneg; lia).
      generalize dependent (2 ^ (ez + 1074)). intros. nia. }
    destruct (Z.pos a - Z.pos b) as [|p|p] eqn:Ed; [done|apply nonneg_round|lia].
Qed.

(** A lower bound survives the cast to an integer. *)
Lemma to_u64_ge lo x :
  0 ≤ lo < 2 ^ 53 → wf x = true → fle (f64.of_Z lo) x → lo ≤ f64.to_u64 x.
Proof.
  intros Hlo Hw Hl. unfold f64.to_u64, f64.sat.
  destruct (Z.eq_dec lo 0) as [-> |]; [destruct x as [|[]| |]; lia|].
  destruct (of_Z_value lo) as (m1 & e1 & E1 & _); [lia|]. rewrite E1 in Hl.
  destruct x as [s|[]| |[] m e]; try done; [lia|].
  assert (lo * 2 ^ 1074 ≤ Z.pos m * 2 ^ (e + 1074)) as Hv.
  { rewrite <- (of_Z_scaled lo m1 e1) by (lia || done). apply fle_value; [|done..].
    rewrite <- E1. apply of_Z_wf. }
  apply wf_bounds in Hw as (He & _). cbn [f64.trunc]. destruct (Z.leb_spec 0 e) as [H0|H0].
  - rewrite Z.pow_add_r, Z.mul_assoc in Hv by lia.
    rewrite <- Z.mul_le_mono_pos_r in Hv by (apply Z.pow_pos_nonneg; lia).
    rewrite Z.shiftl_mul_pow2 by lia. lia.
  - assert (2 ^ 1074 = 2 ^ (- e) * 2 ^ (e + 1074)) as E by (rewrite <- Z.pow_add_r by lia; f_equal; lia).
    rewrite E, !Z.mul_assoc in Hv.
    rewrite <- Z.mul_le_mono_pos_r in Hv by (apply Z.pow_pos_nonneg; lia).
    rewrite Z.shiftr_div_pow2 by lia.
    assert (lo ≤ Z.pos m / 2 ^ (- e)) by (apply Z.div_le_lower_bound; [apply Z.pow_pos_nonneg|]; lia).
    lia.
Qed.

(** Half as much again is at least one more. *)
Lemma three_halves_ge n :
  2 ≤ n < 2 ^ 52 → fle (f64.of_Z (n + 1)) (f64.of_Z n * f64.lit 3 2)%f64.
Proof.
  intros Hn. destruct (of_Z_value n) as (m & e & E & He & Hm); [lia|].
  destruct (of_Z_value (n + 1)) as (mc & ec & Ec & Hec & Hmc); [lia|].
  pose proof (of_Z_wf n) as Wn. pose proof (of_Z_wf (n + 1)) as Wc. rewrite E in Wn. rewrite Ec in Wc.
  replace (f64.lit 3 2) with (S754_finite false 6755399441055744 (-52)) by (by vm_compute).
  rewrite E, Ec. unfold f64.mul, SFmul. cbn [xorb].
  apply round_aux_ge; [done|lia|by apply (mul_exponent _ _ _ _ false false)|]. intros Hle.
  rewrite Hmc, <- Z.mul_assoc, <- Z.pow_add_r, Pos2Z.inj_mul, Hm by lia.
  replace (- ec + (ec - (e + -52))) with (- e + 52) by lia. rewrite Z.pow_add_r by lia.
  assert (0 < 2 ^ (- e)) by (apply Z.pow_pos_nonneg; lia). nia.
Qed.

(** ** Magnitudes of products and quotients *)

Lemma digits_mul m1 m2 : 0 < m1 → 0 < m2 → Zdigits2 (m1 * m2) ≤ Zdigits2 m1 + Zdigits2 m2.
Proof.
  intros H1 H2. destruct (digits_bounds m1 H1) as (? & _ & A).
  destruct (digits_bounds m2 H2) as (? & _ & B).
  destruct (digits_bounds (m1 * m2)) as (? & C & _); [nia|].
  assert (Zdigits2 (m1 * m2) - 1 < Zdigits2 m1 + Zdigits2 m2); [|lia].
  apply (Z.pow_lt_mono_r_iff 2); [lia..|]. rewrite Z.pow_add_r by lia. nia.
Qed.

Lemma mul_below x y k j :
  wf x = true → wf y = true → below k x → below j y → 0 ≤ k + j ≤ 1022 →
  below (k + j + 1) (x * y)%f64.
Proof.
  intros Wx Wy Hx Hy Hk. destruct x as [sx|sx| |sx mx ex], y as [sy|sy| |sy my ey]; try done.
  unfold f64.mul, SFmul. cbn [below] in Hx, Hy.
  apply round_aux_below; [lia|by apply (mul_exponent _ _ _ _ sx sy)| |lia].
  pose proof (digits_mul (Z.pos mx) (Z.pos my)). rewrite Pos2Z.inj_mul. lia.
Qed.

(** At least [2 ^ j]. *)
Definition above (j : Z) (x : f64) : Prop :=
  match x with
  | S754_finite false m e => j < Zdigits2 (Z.pos m) + e
  | S754_infinity s => s = false
  | _ => False
  end.

Lemma div_below x y k j :
  below k x → above j y → 0 ≤ k - j ≤ 1022 → below (k - j + 1) (x / y)%f64.
Proof.
  intros Hx Hy Hk. destruct x as [sx|sx| |sx mx ex], y as [sy|sy| |[] my ey]; try done.
  cbn [below above] in Hx, Hy. unfold f64.div, SFdiv.
  pose proof (div_exponent mx ex my ey) as H. revert H. unfold SFdiv_core_binary. cbv zeta.
  destruct (digits_bounds (Z.pos mx) ltac:(lia)) as (Ha1 & Ha2 & Ha3).
  destruct (digits_bounds (Z.pos my) ltac:(lia)) as (Hb1 & Hb2 & Hb3).
  set (d1 := Zdigits2 (Z.pos mx)) in *. set (d2 := Zdigits2 (Z.pos my)) in *.
  set (e' := Z.min _ (ex - ey)).
  set (m' := match ex - ey - e' with Z0 => _ | _ => _ end).
  assert (m' = Z.pos mx * 2 ^ (ex - ey - e')) as Hm'.
  { subst m'. destruct (ex - ey - e') as [|p|p] eqn:E; [lia| |lia]. by rewrite Z.shiftl_mul_pow2. }
  clearbody m'. destruct (Z.div_eucl m' (Z.pos my)) as [q r] eqn:E.
  assert (q = m' / Z.pos my) as Hqd by (unfold Z.div; by rewrite E).
  intros (Hq & H0 & H1). destruct (Z.eq_dec q 0) as [Hq0|].
  - rewrite Hq0. specialize (H0 Hq0). unfold binary_round_aux.
    destruct (shr_fexp_spec 0 e' (new_location (Z.pos my) r)) as (r' & -> & Hr); [lia|].
    rewrite Z.div_0_l in Hr by lia.
    pose proof (nearest_bounds (shr_m r') (loc_of_shr_record r')) as Hb. rewrite Hr in Hb |- *.
    assert (Z.max e' (fexp53 (Zdigits2 0 + e')) = -1074) as ->.
    { pose proof (fexp53_eq (Zdigits2 0 + e')). cbn [Zdigits2] in *. lia. }
    assert (round_nearest_even 0 (loc_of_shr_record r') = 0 ∨
            round_nearest_even 0 (loc_of_shr_record r') = 1) as [-> | ->] by lia; [done|].
    change (below (k - j + 1) (S754_finite (xorb sx false) 1 (-1074))). cbn. lia.
  - apply round_aux_below; [lia|apply H1; lia| |lia].
    destruct (digits_bounds q) as (? & Hq2 & _); [lia|].
    assert (q * 2 ^ (d2 - 1) < 2 ^ d1 * 2 ^ (ex - ey - e')) as Hlt.
    { pose proof (Z.mul_div_le m' (Z.pos my) ltac:(lia)).
      assert (0 < 2 ^ (ex - ey - e')) by (apply Z.pow_pos_nonneg; lia). nia. }
    rewrite <- Z.pow_add_r in Hlt by lia.
    assert (Zdigits2 q - 1 + (d2 - 1) < d1 + (ex - ey - e')); [|lia].
    apply (Z.pow_lt_mono_r_iff 2); [lia..|]. rewrite Z.pow_add_r by lia.
    eapply Z.le_lt_trans; [|exact Hlt]. apply Z.mul_le_mono_nonneg_r; [apply Z.pow_nonneg; lia|done].
Qed.

Lemma above_fle x y j : wf x = true → wf y = true → above j x → fle x y → above j y.
Proof.
  intros Wx Wy Hx Hle. destruct x as [|[]| |[] mx ex], y as [|[]| |[] my ey]; try done.
  cbn [above] in *.
  pose proof (fle_value _ _ _ _ Wx Wy Hle) as Hv.
  apply wf_bounds in Wx as (? & _). apply wf_bounds in Wy as (? & _).
  destruct (digits_bounds (Z.pos mx) ltac:(lia)) as (Ha1 & Ha2 & Ha3).
  destruct (digits_bounds (Z.pos my) ltac:(lia)) as (Hb1 & Hb2 & Hb3).
  assert (Zdigits2 (Z.pos mx) - 1 + (ex + 1074) < Zdigits2 (Z.pos my) + (ey + 1074)); [|lia].
  apply (Z.pow_lt_mono_r_iff 2); [lia..|]. rewrite !(Z.pow_add_r 2 (Zdigits2 _ - 1)), !(Z.pow_add_r 2 (Zdigits2 _)) by lia.
  eapply Z.le_lt_trans; [apply Z.mul_le_mono_nonneg_r; [apply Z.pow_nonneg; lia|exact Ha2]|].
  eapply Z.le_lt_trans; [exact Hv|].
  apply Z.mul_lt_mono_pos_r; [apply Z.pow_pos_nonneg; lia|exact Hb3].
Qed.
