(* ===== verification/Configuration.v ===== *)
(** * Configuration

    [config.rs]: the configuration structs with their defaults, and the
    checks [Config::load] makes before the daemon starts. The file system
    ([fs::metadata], [fs::read_to_string]) and the TOML parser are parameters;
    a float in an error message is printed by the parameter [display_f64]. *)

From S2P Require Import Prelude Bytes F64 Rounding Protocol.

Inductive Mode := Server | Client.
Global Instance Mode_eq_dec : EqDecision Mode.
Proof. solve_decision. Defined.

Record TunnelConfig := mkTunnelConfig {
  tunnel_name : string;
  address : string;
  address6 : option string;
  mtu : option Z;
  clamp_mss : bool;
  tx_queue_len : Z;
}.

Inductive FecParityPlacement := Scheduler | Dominant | Diverse.
Global Instance FecParityPlacement_eq_dec : EqDecision FecParityPlacement.
Proof. solve_decision. Defined.

Record SchedulerConfig := mkSchedulerConfig {
  down_threshold : Z;
  up_threshold : Z;
  reorder_window_ms : Z;
  ewma_alpha : f64;
  redundant_mode : bool;
  fec_enabled : bool;
  fec_group_size : Z;
  fec_parity : Z;
  fec_parity_placement : FecParityPlacement;
  primary_link_mode : bool;
  follow_peer_primary : bool;
  auto_tune_reorder_window : bool;
  reorder_window_min_ms : Z;
  reorder_window_max_ms : Z;
  auto_tune_probe_interval : bool;
  probe_interval_max_ms : Z;
  auto_tune_ewma_alpha : bool;
  ewma_alpha_min : f64;
  ewma_alpha_max : f64;
  active_bandwidth_probing : bool;
  active_bandwidth_probe_interval_secs : Z;
  active_bandwidth_probe_duration_secs : Z;
  active_bandwidth_reramp_interval_secs : Z;
}.

(** [impl Default for SchedulerConfig], with the [default_*] functions it
    calls written in place. *)
Definition SchedulerConfig_default : SchedulerConfig := {|
  down_threshold := 5;
  up_threshold := 3;
  reorder_window_ms := 50;
  ewma_alpha := f64.lit 2 10;
  redundant_mode := false;
  fec_enabled := false;
  fec_group_size := 8;
  fec_parity := 1;
  fec_parity_placement := Scheduler;
  primary_link_mode := false;
  follow_peer_primary := false;
  auto_tune_reorder_window := false;
  reorder_window_min_ms := 10;
  reorder_window_max_ms := 500;
  auto_tune_probe_interval := false;
  probe_interval_max_ms := 2000;
  auto_tune_ewma_alpha := false;
  ewma_alpha_min := f64.lit 5 100;
  ewma_alpha_max := f64.lit 5 10;
  active_bandwidth_probing := false;
  active_bandwidth_probe_interval_secs := 300;
  active_bandwidth_probe_duration_secs := 2;
  active_bandwidth_reramp_interval_secs := 1800;
|}.

Inductive TxSendMode := Sendto | Sendmmsg | SendmmsgGso.

Record LinkConfig := mkLinkConfig {
  link_name : string;
  bind_interface : string;
  local_addr : option string;
  dual_stack : bool;
  remote_addr : option string;
  local_port : Z;
  weight : f64;
  bandwidth_cap_mbps : option f64;
  probe_interval_ms : Z;
  tx_send_mode : TxSendMode;
  private_key_file : string;
  peer_public_key : string;
}.

Record LoggingConfig := mkLoggingConfig { log_level : string }.
Definition LoggingConfig_default : LoggingConfig := mkLoggingConfig "info".

Record ControlConfig := mkControlConfig {
  control_enabled : bool;
  control_socket_path : option string;
  group_access : bool;
}.
Definition ControlConfig_default : ControlConfig := mkControlConfig true None false.

Record CommandConfig := mkCommandConfig {
  command_enabled : bool;
  command_socket_path : option string;
}.
Definition CommandConfig_default : CommandConfig := mkCommandConfig false None.

Record DiagnosticsConfig := mkDiagnosticsConfig {
  auto_dump_enabled : bool;
  auto_submit_enabled : bool;
  crash_report_enabled : bool;
  degraded_open_pct : f64;
  degraded_open_misses : Z;
  degraded_close_pct : f64;
  cooldown_secs : Z;
  window_secs : Z;
  min_probes : Z;
  clear_secs : Z;
  outage_secs : Z;
  warmup_secs : Z;
  degraded_ticket_gap_secs : Z;
  flap_downs : Z;
  max_dump_files : Z;
  dump_dir : option string;
}.

Definition DiagnosticsConfig_default : DiagnosticsConfig := {|
  auto_dump_enabled := false;
  auto_submit_enabled := false;
  crash_report_enabled := false;
  degraded_open_pct := f64.of_Z 12;
  degraded_open_misses := 8;
  degraded_close_pct := f64.of_Z 5;
  cooldown_secs := 300;
  window_secs := 300;
  min_probes := 100;
  clear_secs := 300;
  outage_secs := 60;
  warmup_secs := 120;
  degraded_ticket_gap_secs := 21600;
  flap_downs := 3;
  max_dump_files := 50;
  dump_dir := None;
|}.

Record Config := mkConfig {
  mode : Mode;
  tunnel : TunnelConfig;
  scheduler : SchedulerConfig;
  links : list LinkConfig;
  logging : LoggingConfig;
  control : ControlConfig;
  command : CommandConfig;
  diagnostics : DiagnosticsConfig;
}.

(** Framing constants of [protocol.rs] and [wireguard.rs] the advisory MTU
    check adds up: [HEADER_LEN], [WG_OVERHEAD_BYTES], [FAKE_IPV4_HEADER_LEN]
    and the outer IPv4 and UDP headers. *)
Definition WG_OVERHEAD_BYTES : Z := 32.
Definition FAKE_IPV4_HEADER_LEN : Z := 20.
Definition outer_overhead : Z :=
  Z.of_nat HEADER_LEN + WG_OVERHEAD_BYTES + FAKE_IPV4_HEADER_LEN + 28.

Definition TYPICAL_PHYSICAL_MTU : Z := 1500.

Section load.

(** [fs::metadata(path)?.permissions().mode()], [fs::read_to_string],
    [toml::from_str] and [f64]'s [Display]. An error of the first is an
    [io::Error], of the other two a message. *)
Context (file_mode : string → IoError + Z).
Context (read_to_string : string → string + string).
Context (toml_from_str : string → string + Config).
Context (display_f64 : f64 → string).

Definition check_permissions (path : string) : outcome unit :=
  match file_mode path with
  | inl e => Err (Io e)
  | inr m =>
      let m := Z.land m 0x1ff in
      guard_err (negb (Z.land m 0x3f =? 0)) (InsecurePermissions path m)
  end.

Definition config_err (msg : string) : MlvpnError := Prelude.Config msg.

Definition dquote : string := String (Ascii.ascii_of_nat 34) EmptyString.

(** The body of the first loop of [validate], for one link, given the names
    seen before it. *)
Definition validate_link (cfg : Config) (seen_names : gset string)
    (link : LinkConfig) : outcome unit :=
  guard_err (bool_decide (link_name link ∈ seen_names))
    (config_err ("duplicate link name '" +:+ link_name link +:+ "'"));;
  guard_err (bool_decide (mode cfg = Client) && bool_decide (remote_addr link = None))
    (config_err ("link '" +:+ link_name link
                 +:+ "' has no remote_addr; required in client mode"));;
  (if dual_stack link then
     guard_err (bool_decide (mode cfg ≠ Server) || bool_decide (remote_addr link ≠ None))
       (config_err ("link '" +:+ link_name link
          +:+ "': dual_stack is for server-side links without remote_addr"));;
     guard_err (match local_addr link with
                | Some a => bool_decide (a ≠ "::")
                | None => false end)
       (config_err ("link '" +:+ link_name link
          +:+ "': dual_stack binds [::]; leave local_addr unset (or "
          +:+ dquote +:+ "::" +:+ dquote +:+ ")"))
   else Ok tt);;
  guard_err (weight link <=? f64.zero)%f64
    (config_err ("link '" +:+ link_name link +:+ "' weight must be > 0"));;
  guard_err (probe_interval_max_ms (scheduler cfg) <? probe_interval_ms link)
    (config_err ("link '" +:+ link_name link +:+ "' probe_interval_ms ("
       +:+ pretty (probe_interval_ms link)
       +:+ ") must be <= scheduler.probe_interval_max_ms ("
       +:+ pretty (probe_interval_max_ms (scheduler cfg)) +:+ ")")).

Fixpoint validate_links (cfg : Config) (seen_names : gset string)
    (ls : list LinkConfig) : outcome unit :=
  match ls with
  | [] => Ok tt
  | link :: ls =>
      validate_link cfg seen_names link;;
      validate_links cfg ({[ link_name link ]} ∪ seen_names) ls
  end.

Fixpoint check_key_files (ls : list LinkConfig) : outcome unit :=
  match ls with
  | [] => Ok tt
  | link :: ls => check_permissions (private_key_file link);; check_key_files ls
  end.

Definition validate_tunnel (t : TunnelConfig) : outcome unit :=
  guard_err (match mtu t with Some m => m <? 576 | None => false end)
    (config_err "tunnel MTU must be at least 576 bytes");;
  guard_err (negb ((100 <=? tx_queue_len t) && (tx_queue_len t <=? 65536)))
    (config_err ("tunnel.tx_queue_len (" +:+ pretty (tx_queue_len t)
                 +:+ ") must be between 100 and 65536")).

Definition validate_scheduler (s : SchedulerConfig) : outcome unit :=
  guard_err (primary_link_mode s && redundant_mode s)
    (config_err ("scheduler.primary_link_mode and scheduler.redundant_mode cannot both be true "
      +:+ "-- send-to-one-link and send-to-every-link are contradictory strategies"));;
  guard_err (follow_peer_primary s && primary_link_mode s)
    (config_err ("scheduler.follow_peer_primary and scheduler.primary_link_mode cannot both be "
      +:+ "true -- a host is either the primary-selection decider or a follower, not both"));;
  guard_err (follow_peer_primary s && redundant_mode s)
    (config_err ("scheduler.follow_peer_primary and scheduler.redundant_mode cannot both be true "
      +:+ "-- send-to-one-link-the-peer-chose and send-to-every-link are contradictory"));;
  guard_err (fec_enabled s && redundant_mode s)
    (config_err ("scheduler.fec_enabled and scheduler.redundant_mode cannot both be true -- both "
      +:+ "are strategies for recovering lost frames, and combining them spends bandwidth "
      +:+ "on FEC parity that redundant_mode's full duplication already makes redundant"));;
  guard_err (fec_enabled s && negb ((2 <=? fec_group_size s) && (fec_group_size s <=? 255)))
    (config_err ("scheduler.fec_group_size (" +:+ pretty (fec_group_size s)
      +:+ ") must be between 2 and 255"));;
  guard_err (fec_enabled s && negb ((1 <=? fec_parity s) && (fec_parity s <=? 2)))
    (config_err ("scheduler.fec_parity (" +:+ pretty (fec_parity s)
      +:+ ") must be 1 or 2"));;
  guard_err (reorder_window_max_ms s <? reorder_window_min_ms s)
    (config_err ("scheduler.reorder_window_min_ms (" +:+ pretty (reorder_window_min_ms s)
      +:+ ") must be <= reorder_window_max_ms ("
      +:+ pretty (reorder_window_max_ms s) +:+ ")"));;
  guard_err (ewma_alpha_max s <? ewma_alpha_min s)%f64
    (config_err ("scheduler.ewma_alpha_min (" +:+ display_f64 (ewma_alpha_min s)
      +:+ ") must be <= ewma_alpha_max (" +:+ display_f64 (ewma_alpha_max s) +:+ ")"));;
  guard_err (active_bandwidth_probe_interval_secs s <? 30)
    (config_err ("scheduler.active_bandwidth_probe_interval_secs ("
      +:+ pretty (active_bandwidth_probe_interval_secs s) +:+ ") must be >= 30 -- this is "
      +:+ "an injected traffic burst, not a single latency probe, so too-frequent bursts "
      +:+ "look like a self-inflicted flood"));;
  guard_err (negb ((1 <=? active_bandwidth_probe_duration_secs s)
                   && (active_bandwidth_probe_duration_secs s <=? 30)))
    (config_err ("scheduler.active_bandwidth_probe_duration_secs ("
      +:+ pretty (active_bandwidth_probe_duration_secs s) +:+ ") must be between 1 and 30")).

(** The advisory check at the end of [validate]: the text it prints on
    standard error. *)
Definition mtu_warning (t : TunnelConfig) : list string :=
  match mtu t with
  | Some m =>
      if TYPICAL_PHYSICAL_MTU <? m + outer_overhead then
        ["warning: tunnel.mtu = " +:+ pretty m +:+ " plus ~" +:+ pretty outer_overhead
         +:+ " bytes of tunnel "
         +:+ "overhead exceeds the typical 1500-byte physical link MTU; outer packets "
         +:+ "may be IP-fragmented or silently dropped by firewalls that block "
         +:+ "fragments. Consider tunnel.mtu <= "
         +:+ pretty (sat_sub TYPICAL_PHYSICAL_MTU outer_overhead)
         +:+ " unless every bonded link's physical "
         +:+ "MTU is confirmed higher."]
      else []
  | None => []
  end.

(** [Config::validate]; the result is what was printed on standard error. *)
Definition validate (cfg : Config) : outcome (list string) :=
  guard_err (bool_decide (links cfg = []))
    (config_err "at least one [[links]] entry is required");;
  validate_links cfg ∅ (links cfg);;
  check_key_files (links cfg);;
  validate_tunnel (tunnel cfg);;
  validate_scheduler (scheduler cfg);;
  mret (mtu_warning (tunnel cfg)).

Definition load (path : string) : outcome Config :=
  check_permissions path;;
  raw ← match read_to_string path with
        | inr raw => Ok raw
        | inl e => Err (config_err ("reading " +:+ path +:+ ": " +:+ e))
        end;
  cfg ← match toml_from_str raw with
        | inr cfg => Ok cfg
        | inl e => Err (config_err ("parsing " +:+ path +:+ ": " +:+ e))
        end;
  validate cfg;;
  mret cfg.

End load.

(** ** What an accepted configuration guarantees *)

Section accepted.
Context (file_mode : string → IoError + Z).
Context (read_to_string : string → string + string).
Context (toml_from_str : string → string + Config).
Context (display_f64 : f64 → string).

(** No bit of the group or of the others is set. *)
Definition private_file (path : string) : Prop :=
  ∃ m, file_mode path = inr m ∧ Z.land m 0x3f = 0.

(** The rules, over what it takes of a weight and of a pair of bounds. *)
Section rules.
Context (weight_ok : f64 → Prop) (ordered : f64 → f64 → Prop).

Definition link_ok (cfg : Config) (l : LinkConfig) : Prop :=
  (mode cfg = Client → is_Some (remote_addr l)) ∧
  (dual_stack l = true →
     mode cfg = Server ∧ remote_addr l = None ∧
     (local_addr l = None ∨ local_addr l = Some "::")) ∧
  weight_ok (weight l) ∧
  probe_interval_ms l ≤ probe_interval_max_ms (scheduler cfg).

Definition tunnel_ok (t : TunnelConfig) : Prop :=
  (∀ m, mtu t = Some m → 576 ≤ m) ∧ 100 ≤ tx_queue_len t ≤ 65536.

Definition scheduler_ok (s : SchedulerConfig) : Prop :=
  ¬ (primary_link_mode s ∧ redundant_mode s) ∧
  ¬ (follow_peer_primary s ∧ primary_link_mode s) ∧
  ¬ (follow_peer_primary s ∧ redundant_mode s) ∧
  (fec_enabled s → ¬ redundant_mode s ∧ 2 ≤ fec_group_size s ≤ 255 ∧
                   1 ≤ fec_parity s ≤ 2) ∧
  reorder_window_min_ms s ≤ reorder_window_max_ms s ∧
  ordered (ewma_alpha_min s) (ewma_alpha_max s) ∧
  30 ≤ active_bandwidth_probe_interval_secs s ∧
  1 ≤ active_bandwidth_probe_duration_secs s ≤ 30.

Definition rules (cfg : Config) : Prop :=
  links cfg ≠ [] ∧ NoDup (link_name <$> links cfg) ∧
  Forall (link_ok cfg) (links cfg) ∧
  Forall (λ l, private_file (private_key_file l)) (links cfg) ∧
  tunnel_ok (tunnel cfg) ∧ scheduler_ok (scheduler cfg).

End rules.

(** The declared rules: weights above zero, the lower bound at most the upper
    one. *)
Definition config_ok : Config → Prop := rules (flt f64.zero) fle.

(** What the comparisons of [validate] let pass: the same, and NaN. *)
Definition not_refused : Config → Prop :=
  rules (λ w, (w <=? f64.zero)%f64 = false) (λ lo hi, (hi <? lo)%f64 = false).

(** No number that is compared is NaN. *)
Definition no_nan (cfg : Config) : Prop :=
  Forall (λ l, f64.is_nan (weight l) = false) (links cfg) ∧
  f64.is_nan (ewma_alpha_min (scheduler cfg)) = false ∧
  f64.is_nan (ewma_alpha_max (scheduler cfg)) = false.

Lemma rules_impl (W W' : f64 → Prop) (O O' : f64 → f64 → Prop) cfg :
  (∀ l, l ∈ links cfg → W (weight l) → W' (weight l)) →
  (O (ewma_alpha_min (scheduler cfg)) (ewma_alpha_max (scheduler cfg)) →
   O' (ewma_alpha_min (scheduler cfg)) (ewma_alpha_max (scheduler cfg))) →
  rules W O cfg → rules W' O' cfg.
Proof.
  intros HW HO (H1 & H2 & H3 & H4 & H5 & H6). unfold rules. split_and!; try done.
  - apply Forall_forall. intros l Hl. rewrite Forall_forall in H3.
    destruct (H3 l Hl) as (? & ? & ? & ?). unfold link_ok. auto.
  - unfold scheduler_ok in *. tauto.
Qed.

Lemma declared_not_refused cfg : config_ok cfg → not_refused cfg.
Proof.
  assert (∀ x y, flt x y → (y <=? x)%f64 = false) as Hlt.
  { intros x y H. destruct (fle_not_nan x y (flt_le _ _ H)). by apply order_total. }
  assert (∀ x y, fle x y → (y <? x)%f64 = false) as Hle.
  { intros x y H. destruct (fle_not_nan x y H). by apply order_total. }
  apply rules_impl; auto.
Qed.

Lemma not_refused_declared cfg : no_nan cfg → not_refused cfg → config_ok cfg.
Proof.
  intros (H1 & H2 & H3). rewrite Forall_forall in H1. apply rules_impl.
  - intros l Hl. apply order_total; [auto|done].
  - by apply order_total.
Qed.

Lemma seq_Ok {A} (m : outcome unit) (k : outcome A) a :
  m ≫= (λ _, k) = Ok a ↔ m = Ok tt ∧ k = Ok a.
Proof. rewrite bind_Ok. split; [intros ([] & ? & ?)|]; naive_solver. Qed.

Lemma check_permissions_Ok path :
  check_permissions file_mode path = Ok tt ↔ private_file path.
Proof.
  unfold check_permissions, private_file.
  destruct (file_mode path) as [e|m]; [naive_solver|].
  rewrite guard_err_Ok, negb_false_iff, Z.eqb_eq, <- Z.land_assoc.
  change (Z.land 0x1ff 0x3f) with 0x3f. naive_solver.
Qed.

Lemma validate_link_Ok cfg seen l :
  validate_link cfg seen l = Ok tt ↔ link_name l ∉ seen ∧ link_ok (λ w, (w <=? f64.zero)%f64 = false) cfg l.
Proof.
  unfold validate_link, link_ok. rewrite !seq_Ok, !guard_err_Ok.
  rewrite bool_decide_eq_false, andb_false_iff, !bool_decide_eq_false, Z.ltb_ge.
  assert ((mode cfg ≠ Client ∨ remote_addr l ≠ None) ↔
          (mode cfg = Client → is_Some (remote_addr l))) as ->.
  { rewrite <- not_eq_None_Some. destruct (decide (mode cfg = Client)); naive_solver. }
  destruct (dual_stack l).
  - rewrite seq_Ok, !guard_err_Ok, orb_false_iff, !bool_decide_eq_false.
    destruct (local_addr l) as [a|]; rewrite ?bool_decide_eq_false.
    + destruct (decide (a = "::")), (decide (mode cfg = Server)),
        (decide (remote_addr l = None)); naive_solver.
    + destruct (decide (mode cfg = Server)), (decide (remote_addr l = None)); naive_solver.
  - naive_solver.
Qed.

Lemma validate_links_Ok cfg seen ls :
  validate_links cfg seen ls = Ok tt ↔
  (∀ l, l ∈ ls → link_name l ∉ seen) ∧ NoDup (link_name <$> ls) ∧
  Forall (link_ok (λ w, (w <=? f64.zero)%f64 = false) cfg) ls.
Proof.
  revert seen; induction ls as [|l ls IH]; intros seen; cbn [validate_links].
  { split; [|done]. repeat split; [set_solver|constructor|constructor]. }
  rewrite seq_Ok, validate_link_Ok, IH, fmap_cons, NoDup_cons, Forall_cons.
  split.
  - intros [[Hn Hl] (Hs & Hd & Hf)].
    refine (conj _ (conj (conj _ Hd) (conj Hl Hf))); [set_solver|].
    intros (l' & Heq & Hin)%list_elem_of_fmap. specialize (Hs _ Hin). set_solver.
  - intros (Hs & [Hnin Hd] & Hl & Hf).
    refine (conj (conj _ Hl) (conj _ (conj Hd Hf))); [set_solver|].
    intros l' Hin. specialize (Hs l'). intros [Heq%elem_of_singleton|H]%elem_of_union.
    + apply Hnin, list_elem_of_fmap. eauto.
    + set_solver.
Qed.

Lemma check_key_files_Ok ls :
  check_key_files file_mode ls = Ok tt ↔
  Forall (λ l, private_file (private_key_file l)) ls.
Proof.
  induction ls as [|l ls IH]; cbn [check_key_files]; [by split; constructor|].
  by rewrite seq_Ok, check_permissions_Ok, IH, Forall_cons.
Qed.

Lemma validate_tunnel_Ok t : validate_tunnel t = Ok tt ↔ tunnel_ok t.
Proof.
  unfold validate_tunnel, tunnel_ok.
  rewrite seq_Ok, !guard_err_Ok, negb_false_iff, andb_true_iff, !Z.leb_le.
  destruct (mtu t); rewrite ?Z.ltb_ge; naive_solver.
Qed.

Lemma nand_false (a b : bool) : a && b = false ↔ ¬ (a ∧ b).
Proof. destruct a, b; naive_solver. Qed.

Lemma nand_range (a : bool) lo x hi :
  a && negb ((lo <=? x) && (x <=? hi)) = false ↔ (a → lo ≤ x ≤ hi).
Proof.
  destruct a; cbn [andb]; [|naive_solver].
  rewrite negb_false_iff, andb_true_iff, !Z.leb_le. naive_solver.
Qed.

Lemma validate_scheduler_Ok s :
  validate_scheduler display_f64 s = Ok tt ↔ scheduler_ok (λ lo hi, (hi <? lo)%f64 = false) s.
Proof.
  unfold validate_scheduler, scheduler_ok.
  rewrite !seq_Ok, !guard_err_Ok, !nand_range, !nand_false, !Z.ltb_ge.
  rewrite negb_false_iff, andb_true_iff, !Z.leb_le. tauto.
Qed.

Lemma validate_Ok cfg w :
  validate file_mode display_f64 cfg = Ok w ↔
  not_refused cfg ∧ w = mtu_warning (tunnel cfg).
Proof.
  unfold validate, not_refused, rules.
  rewrite !seq_Ok, guard_err_Ok, bool_decide_eq_false, validate_links_Ok,
    check_key_files_Ok, validate_tunnel_Ok, validate_scheduler_Ok.
  split; [intros (?&(?&?&?)&?&?&?&[= <-]); tauto|].
  intros [(?&?&?&?&?&?) ->]. split_and!; try done.
Qed.

(** C40. [Config::load] lets in what the declared rules allow. A configuration it
    returns is the parse of a file that only its owner can access, and unless one
    of the numbers compared is NaN it satisfies the rules: at least one link, distinct names,
    the rules for each link with a weight above zero, private key files, MTU and
    queue bounds, ordered bounds, and no contradictory scheduler modes. The
    configuration in such a file, if it satisfies the rules, is returned, with no
    output but the advisory MTU warning. And a file with any permission bit for the
    group or for others is refused with its mode, before it is read. *)
Theorem load_characterised path :
  let load := load file_mode read_to_string toml_from_str display_f64 in
  (∀ cfg, load path = Ok cfg →
     private_file path ∧ (∃ raw, read_to_string path = inr raw ∧ toml_from_str raw = inr cfg) ∧
     (no_nan cfg → config_ok cfg)) ∧
  (∀ raw cfg, private_file path → read_to_string path = inr raw → toml_from_str raw = inr cfg →
     config_ok cfg →
     load path = Ok cfg ∧ validate file_mode display_f64 cfg = Ok (mtu_warning (tunnel cfg))) ∧
  (∀ m, file_mode path = inr m → Z.land m 0x3f ≠ 0 →
     load path = Err (InsecurePermissions path (Z.land m 0x1ff))).
Proof.
  cbv zeta. unfold load. split_and!.
  - intros cfg (Hp & H)%seq_Ok. apply check_permissions_Ok in Hp.
    destruct (read_to_string path) as [|raw]; [done|].
    apply bind_Ok in H as (? & [= <-] & H).
    destruct (toml_from_str raw) as [|cfg'] eqn:Et; [done|].
    inv_ok. subst. split; [done|]. split; [by exists raw|].
    intros Hn. apply not_refused_declared; [done|]. by eapply validate_Ok.
  - intros raw cfg Hp Hr Ht Hc.
    assert (validate file_mode display_f64 cfg = Ok (mtu_warning (tunnel cfg))) as Hv.
    { apply validate_Ok. split; [by apply declared_not_refused|done]. }
    split; [|done]. apply check_permissions_Ok in Hp.
    by rewrite Hp, Hr; cbn [mbind outcome_bind]; rewrite Ht; cbn [mbind outcome_bind]; rewrite Hv.
  - intros m Hm Hb. unfold check_permissions. rewrite Hm.
    assert (Z.land (Z.land m 0x1ff) 0x3f ≠ 0).
    { by rewrite <- Z.land_assoc. }
    by rewrite (proj2 (Z.eqb_neq _ _)) by done.
Qed.

End accepted.

(** A two-link client, read from a file of mode 0600. *)
Definition sample_link (name : string) : LinkConfig := {|
  link_name := name; bind_interface := "eth0"; local_addr := None; dual_stack := false;
  remote_addr := Some "198.51.100.1:5000"; local_port := 0; weight := f64.of_Z 1;
  bandwidth_cap_mbps := None; probe_interval_ms := 500; tx_send_mode := Sendmmsg;
  private_key_file := "/etc/mlvpn/key"; peer_public_key := "peer";
|}.

Definition sample_config : Config := {|
  mode := Client;
  tunnel := mkTunnelConfig "mlvpn0" "10.0.0.2/24" None (Some 1400) true 5000;
  scheduler := SchedulerConfig_default;
  links := [sample_link "wan0"; sample_link "wan1"];
  logging := LoggingConfig_default; control := ControlConfig_default;
  command := CommandConfig_default; diagnostics := DiagnosticsConfig_default;
|}.

Definition sample_mode (path : string) : IoError + Z :=
  if String.eqb path "/etc/shared.toml" then inr 0x81a4 else inr 0x8180.

Definition sample_load : string → outcome Config :=
  load sample_mode (λ _, inr "toml") (λ _, inr sample_config) (λ _, "0").

Lemma load_characterised_witness :
  sample_load "/etc/mlvpn.toml" = Ok sample_config ∧ config_ok sample_mode sample_config ∧
  sample_load "/etc/shared.toml" = Err (InsecurePermissions "/etc/shared.toml" 0x1a4).
Proof.
  destruct (load_characterised sample_mode (λ _, inr "toml") (λ _, inr sample_config) (λ _, "0")
              "/etc/mlvpn.toml") as (H1 & _ & _).
  destruct (load_characterised sample_mode (λ _, inr "toml") (λ _, inr sample_config) (λ _, "0")
              "/etc/shared.toml") as (_ & _ & H3).
  assert (sample_load "/etc/mlvpn.toml" = Ok sample_config) as Hl by (vm_compute; reflexivity).
  split; [exact Hl|]. split; [|apply (H3 0x81a4); [reflexivity|by vm_compute]].
  apply (H1 sample_config Hl). split; [repeat constructor|split; reflexivity].
Defined.

(** NaN passes the comparisons: a weight that is not above zero, and bounds that
    are not in order. *)
Definition nan_config : Config := {|
  mode := Server; tunnel := tunnel sample_config; scheduler := SchedulerConfig_default;
  links := [mkLinkConfig "wan0" "eth0" None false None 5000 SpecFloat.S754_nan None 500 Sendmmsg
              "/etc/mlvpn/key" "peer"];
  logging := LoggingConfig_default; control := ControlConfig_default;
  command := CommandConfig_default; diagnostics := DiagnosticsConfig_default;
|}.

Lemma nan_weight_accepted :
  is_ok (validate sample_mode (λ _, "0") nan_config) = true ∧ ¬ config_ok sample_mode nan_config.
Proof.
  split; [vm_compute; reflexivity|]. intros (_ & _ & H & _). apply Forall_cons in H as [(_ & _ & Hw & _) _].
  vm_compute in Hw. discriminate.
Qed.
