(* ===== verification/Fec.v ===== *)
(** * Forward error correction, the sending side ([fec.rs])

    [FecSender] turns groups of Data frames into one XOR share [P] and,
    with two shares per group, a weighted share [Q] over GF(256); the
    placement rule [choose_parity_link] and the MTU reservation go with it.
    The lemmas describe the accumulator by the frames it has been fed. *)

From S2P Require Import Prelude Bytes Protocol Gf256 F64 Configuration.

Record FecGroup := mkGroup {
  group_p : FecParityPayload;
  group_q : option FecParityPayload;
  group_member_links : list nat }.

Record FecSender := mkSender {
  s_group_size : nat;
  s_with_q : bool;
  s_member_seqs : list Z;
  s_member_lens : list Z;
  s_member_links : list nat;
  s_parity : list Z;
  s_q : list Z }.

Definition FecSender_new (group_size parity_count : Z) : FecSender :=
  mkSender (Z.to_nat group_size) (2 <=? parity_count) [] [] [] [] [].

(** [if n > v.len() { v.resize(n, 0) }]. *)
Definition grow (n : nat) (v : list Z) : list Z :=
  if bool_decide (length v < n)%nat then resize0 n v else v.

(** The indexed loop [self.parity[i] ^= byte] is in range after the [resize],
    so it is the zip of the two buffers. *)
Definition accumulate (self : FecSender) (seq : Z) (plaintext : list Z) (link : nat)
    : FecSender * option FecGroup :=
  let par := gf.zip_acc id (grow (length plaintext) (s_parity self)) plaintext in
  let q := if s_with_q self
           then gf.mul_acc (grow (length plaintext) (s_q self)) plaintext
                  (gf.pow2 (length (s_member_seqs self)))
           else s_q self in
  let seqs := s_member_seqs self ++ [seq] in
  let links := s_member_links self ++ [link] in
  let lens := s_member_lens self ++ [wrap 16 (len plaintext)] in
  if bool_decide (length seqs < s_group_size self)%nat
  then (mkSender (s_group_size self) (s_with_q self) seqs lens links par q, None)
  else (mkSender (s_group_size self) (s_with_q self) [] [] [] []
          (if s_with_q self then [] else q),
        Some (mkGroup (mkParity seqs lens par)
                (if s_with_q self then Some (mkParity seqs lens q) else None)
                links)).

(** ** Parity placement *)

Definition count_members (l : nat) (member_links : list nat) : nat :=
  length (filter (λ m, m = l) member_links).

(** [counts], [candidates] and the extremum, as the closure computes them. *)
Definition link_counts (member_links : list nat) (usable : list bool) : list nat :=
  fold_left (λ counts l, match counts !! l with
                         | Some c => <[l := S c]> counts
                         | None => counts end)
    member_links (replicate (length usable) O).

Definition candidates (usable : list bool) : list nat :=
  filter (λ i, usable !!! i = true) (List.seq 0 (length usable)).

Definition iter_best (better : nat → nat → nat) (l : list nat) : option nat :=
  match l with [] => None | x :: l => Some (fold_left better l x) end.

Definition choose_parity_link (placement : FecParityPlacement)
    (member_links : list nat) (usable : list bool) : option nat :=
  let counts := link_counts member_links usable in
  let pick best :=
    match filter (λ i, counts !!! i = best) (candidates usable) with
    | [first] => Some first
    | _ => None
    end in
  match placement with
  | Scheduler => None
  | Dominant =>
      best ← iter_best Nat.max ((λ i, counts !!! i) <$> candidates usable);
      if bool_decide (best = O) then None else pick best
  | Diverse =>
      best ← iter_best Nat.min ((λ i, counts !!! i) <$> candidates usable);
      pick best
  end.

Definition parity_frame_overhead_bytes (group_size : Z) : Z :=
  wrap 16 (1 + wrap 16 (group_size * 10) + 2).

Definition mtu_reservation_bytes (cfg : SchedulerConfig) : Z :=
  if fec_enabled cfg then parity_frame_overhead_bytes (fec_group_size cfg) else 0.

(** ** The code a group carries *)

(** A Data frame as the sender sees it: sequence number, plaintext, link. *)
Record frame := mkFrame { f_seq : Z; f_data : list Z; f_link : nat }.

Definition frame_ok (f : frame) : Prop :=
  fits 64 (f_seq f) ∧ bytes_ok (f_data f) ∧ len (f_data f) ≤ 65535.

(** The width of a group, and byte [j] of the weighted sum
    [Σ coef (k + i) * D_i] of the zero-padded members. *)
Definition width (ds : list (list Z)) : nat := max_list (length <$> ds).

Fixpoint share_at (coef : nat → Z) (k : nat) (ds : list (list Z)) (j : nat) : Z :=
  match ds with
  | [] => 0
  | d :: ds => Z.lxor (gf.mul (coef k) (nth j d 0)) (share_at coef (S k) ds j)
  end.

Definition share (coef : nat → Z) (ds : list (list Z)) : list Z :=
  share_at coef 0 ds <$> List.seq 0 (width ds).

Definition coef_p (i : nat) : Z := 1.
Definition coef_q : nat → Z := gf.pow2.

Definition payload_of (coef : nat → Z) (fs : list frame) : FecParityPayload :=
  mkParity (f_seq <$> fs) ((λ f, len (f_data f)) <$> fs) (share coef (f_data <$> fs)).

Definition group_of (with_q : bool) (fs : list frame) : FecGroup :=
  mkGroup (payload_of coef_p fs)
    (if with_q then Some (payload_of coef_q fs) else None) (f_link <$> fs).

(** The accumulator's state after the frames [fs] of an open group. *)
Definition sender_state (n : nat) (with_q : bool) (fs : list frame) : FecSender :=
  mkSender n with_q (f_seq <$> fs) ((λ f, len (f_data f)) <$> fs) (f_link <$> fs)
    (share coef_p (f_data <$> fs))
    (if with_q then share coef_q (f_data <$> fs) else []).

(** Feeds a stream of frames; the groups come out in order. *)
Fixpoint feed (s : FecSender) (fs : list frame) : FecSender * list FecGroup :=
  match fs with
  | [] => (s, [])
  | f :: fs =>
      let '(s, g) := accumulate s (f_seq f) (f_data f) (f_link f) in
      let '(s, gs) := feed s fs in
      (s, match g with Some g => g :: gs | None => gs end)
  end.

(** ** Lemmas on shares *)

Lemma share_at_app coef k ds d j :
  share_at coef k (ds ++ [d]) j =
  Z.lxor (share_at coef k ds j) (gf.mul (coef (k + length ds)%nat) (nth j d 0)).
Proof.
  revert k; induction ds as [|d' ds IH]; intros k; cbn [app share_at length].
  - by rewrite Z.lxor_0_r, Z.lxor_0_l, Nat.add_0_r.
  - rewrite IH, Z.lxor_assoc. do 3 f_equal. by rewrite Nat.add_succ_comm.
Qed.

Lemma width_app ds d : width (ds ++ [d]) = Nat.max (width ds) (length d).
Proof.
  unfold width. rewrite fmap_app. simpl.
  induction (length <$> ds) as [|x l IH]; simpl; [lia|]. rewrite IH. lia.
Qed.

Lemma width_cons d ds : width (d :: ds) = Nat.max (length d) (width ds).
Proof. done. Qed.

Lemma width_ge ds d : d ∈ ds → (length d ≤ width ds)%nat.
Proof. intros H. apply max_list_elem_of_le, list_elem_of_fmap. eauto. Qed.

Lemma length_share coef ds : length (share coef ds) = width ds.
Proof. unfold share. by rewrite length_fmap, length_seq. Qed.

Lemma share_at_overflow coef k ds j : (width ds ≤ j)%nat → share_at coef k ds j = 0.
Proof.
  revert k; induction ds as [|d ds IH]; intros k; [done|].
  rewrite width_cons. intros H. cbn [share_at].
  rewrite nth_overflow, Gf256.mul_0_r, IH by lia. done.
Qed.

Lemma at0_share coef ds j : nth j (share coef ds) 0 = share_at coef 0 ds j.
Proof.
  destruct (decide (j < width ds)%nat).
  - rewrite nth_lookup. unfold share. rewrite list_lookup_fmap, lookup_seq_lt by lia. done.
  - rewrite nth_overflow by (rewrite length_share; lia). by rewrite share_at_overflow by lia.
Qed.

Lemma share_at_byte coef k ds j :
  byte_ok (share_at coef k ds j).
Proof.
  revert k; induction ds as [|d ds IH]; intros k; simpl; [unfold byte_ok; lia|].
  auto with gf.
Qed.

Lemma share_bytes coef ds : bytes_ok (share coef ds).
Proof.
  apply Forall_forall. intros x (j & -> & _)%list_elem_of_fmap. apply share_at_byte.
Qed.

Lemma length_grow n v : length (grow n v) = Nat.max n (length v).
Proof. unfold grow. case_bool_decide; rewrite ?length_resize0; lia. Qed.

Lemma at0_replicate n j : nth j (replicate n 0) 0 = 0.
Proof. revert j; induction n as [|n IH]; intros [|j]; simpl; auto. Qed.

Lemma at0_grow n v j : nth j (grow n v) 0 = nth j v 0.
Proof.
  unfold grow. case_bool_decide; [|done]. unfold resize0.
  rewrite firstn_all2 by lia. destruct (decide (j < length v)%nat).
  - by rewrite app_nth1.
  - by rewrite app_nth2, at0_replicate, nth_overflow by lia.
Qed.

Lemma bytes_grow n v : bytes_ok v → bytes_ok (grow n v).
Proof.
  intros H. unfold grow, resize0. case_bool_decide; [|done].
  apply Forall_app; split; [by apply bytes_ok_take|apply bytes_ok_replicate].
Qed.

(** One more member: the share grows to the new width and takes the weighted
    frame in. *)
Lemma share_snoc coef ds d :
  bytes_ok d → byte_ok (coef (length ds)) →
  share coef (ds ++ [d]) =
  gf.zip_acc (gf.mul (coef (length ds))) (grow (length d) (share coef ds)) d.
Proof.
  intros Hd Hc. apply frame_ext.
  - rewrite length_zip_acc, length_grow, !length_share, width_app. lia.
  - intros j. rewrite at0_share, share_at_app, at0_zip_acc.
    + by rewrite at0_grow, at0_share.
    + apply Gf256.mul_0_r.
    + rewrite length_grow. lia.
Qed.

Lemma share_p_snoc ds d :
  bytes_ok d →
  share coef_p (ds ++ [d]) = gf.zip_acc id (grow (length d) (share coef_p ds)) d.
Proof.
  intros Hd. rewrite share_snoc by (done || (unfold coef_p, byte_ok; lia)).
  apply zip_acc_ext. eapply Forall_impl; [exact Hd|].
  intros x Hx. by apply mul_1_l.
Qed.

Lemma share_q_snoc ds d :
  bytes_ok d →
  share coef_q (ds ++ [d]) =
  gf.mul_acc (grow (length d) (share coef_q ds)) d (gf.pow2 (length ds)).
Proof.
  intros Hd. rewrite share_snoc by (done || apply pow2_byte).
  by rewrite mul_acc_zip by (done || apply pow2_byte).
Qed.

(** ** The sender *)

Lemma accumulate_state n wq fs f :
  frame_ok f →
  accumulate (sender_state n wq fs) (f_seq f) (f_data f) (f_link f) =
  if bool_decide (S (length fs) < n)%nat
  then (sender_state n wq (fs ++ [f]), None)
  else (sender_state n wq [], Some (group_of wq (fs ++ [f]))).
Proof.
  intros (_ & Hb & Hl). unfold accumulate, sender_state, group_of, payload_of.
  cbn [s_group_size s_with_q s_member_seqs s_member_lens s_member_links s_parity s_q].
  rewrite !fmap_app, length_app, length_fmap, Nat.add_1_r. cbn [fmap list_fmap length].
  rewrite wrap_small by (unfold fits, len in *; lia).
  rewrite <- share_p_snoc by done.
  assert ((if wq then gf.mul_acc (grow (length (f_data f))
             (if wq then share coef_q (f_data <$> fs) else [])) (f_data f) (gf.pow2 (length fs))
           else if wq then share coef_q (f_data <$> fs) else []) =
          if wq then share coef_q ((f_data <$> fs) ++ [f_data f]) else []) as ->.
  { destruct wq; [|done]. rewrite share_q_snoc, length_fmap by done. done. }
  case_bool_decide; destruct wq; done.
Qed.

Lemma feed_state n wq open fs :
  (length open < n)%nat → Forall frame_ok fs →
  feed (sender_state n wq open) fs =
  if bool_decide (length open + length fs < n)%nat
  then (sender_state n wq (open ++ fs), [])
  else let k := (n - length open)%nat in
       let '(s, gs) := feed (sender_state n wq []) (drop k fs) in
       (s, group_of wq (open ++ take k fs) :: gs).
Proof.
  revert open; induction fs as [|f fs IH]; intros open Ho Hfs.
  { rewrite bool_decide_true by (simpl; lia). by rewrite app_nil_r. }
  inversion_clear Hfs. cbn [feed]. rewrite accumulate_state by done.
  destruct (decide (S (length open) < n)%nat) as [Hlt|Hge].
  - rewrite (bool_decide_true (_ < n)%nat) by lia.
    rewrite IH by (rewrite ?length_app; simpl; auto; lia).
    rewrite length_app. simpl length. rewrite <- !app_assoc.
    replace (length open + 1 + length fs)%nat with (length open + S (length fs))%nat by lia.
    case_bool_decide; [done|].
    replace (n - length open)%nat with (S (n - (length open + 1)))%nat by lia.
    cbn [drop take app]. rewrite <- app_assoc. by destruct (feed _ _).
  - rewrite !bool_decide_false by (simpl; lia).
    replace (n - length open)%nat with 1%nat by lia. cbn [drop take].
    by destruct (feed _ _).
Qed.

Lemma feed_chunks n wq q fs :
  (1 ≤ n)%nat → Forall frame_ok fs → (n * q ≤ length fs < n * q + n)%nat →
  feed (sender_state n wq []) fs =
  (sender_state n wq (drop (n * q) fs),
   (λ k, group_of wq (take n (drop (n * k) fs))) <$> List.seq 0 q).
Proof.
  intros Hn. revert fs; induction q as [|q IH]; intros fs Hfs Hlen.
  - rewrite feed_state by (simpl; done || lia).
    by rewrite bool_decide_true, Nat.mul_0_r by (simpl; lia).
  - rewrite feed_state by (simpl; done || lia).
    rewrite bool_decide_false by (simpl; lia). cbn [length app]. rewrite Nat.sub_0_r.
    rewrite IH by (try apply Forall_drop; rewrite ?length_drop; done || lia).
    rewrite drop_drop. cbn [List.seq fmap list_fmap].
    rewrite Nat.mul_0_r. f_equal; [f_equal; f_equal; lia|].
    f_equal. rewrite <- seq_shift. unfold fmap. rewrite List.map_map.
    apply map_ext. intros k. rewrite drop_drop. do 3 f_equal. lia.
Qed.

(** Fed any stream of frames, [FecSender] emits one group per
    [group_size] frames, in order: each group's [P] share is the XOR of its
    zero-padded members and its [Q] share the sum of [g^i * D_i] over GF(256);
    the frames of the last, incomplete group stay in the accumulator. *)
Theorem sender_groups group_size parity_count fs :
  1 ≤ group_size → Forall frame_ok fs →
  let n := Z.to_nat group_size in
  let wq := 2 <=? parity_count in
  let q := (length fs / n)%nat in
  feed (FecSender_new group_size parity_count) fs =
  (sender_state n wq (drop (n * q) fs),
   (λ k, group_of wq (take n (drop (n * k) fs))) <$> List.seq 0 q).
Proof.
  intros Hg Hfs n wq q.
  assert (FecSender_new group_size parity_count = sender_state n wq []) as ->.
  { unfold FecSender_new, sender_state, n, wq. by destruct (2 <=? parity_count). }
  assert (1 ≤ n)%nat by lia. apply feed_chunks; [done..|].
  pose proof (Nat.div_mod (length fs) n). pose proof (Nat.mod_upper_bound (length fs) n). lia.
Qed.

Definition sample_frames : list frame := [mkFrame 1 [7; 9] 0; mkFrame 2 [3] 1; mkFrame 3 [1; 1; 1] 0].

Lemma sender_groups_witness :
  feed (FecSender_new 2 2) sample_frames =
  (sender_state 2 true [mkFrame 3 [1; 1; 1] 0], [group_of true [mkFrame 1 [7; 9] 0; mkFrame 2 [3] 1]]).
Proof.
  apply (sender_groups 2 2 sample_frames); [lia|].
  repeat constructor; vm_compute; intuition congruence.
Defined.

(** ** Parity frames on the wire *)

Lemma overhead_value g : 0 ≤ g < 256 → parity_frame_overhead_bytes g = 3 + 10 * g.
Proof.
  intros. unfold parity_frame_overhead_bytes. rewrite (wrap_small 16 (g * 10)).
  - rewrite wrap_small; unfold fits; lia.
  - unfold fits; lia.
Qed.

Lemma parity_length coef fs :
  (length fs < 256)%nat →
  len (FecParityPayload_encode (payload_of coef fs)) =
  parity_frame_overhead_bytes (len fs) + Z.of_nat (width (f_data <$> fs)).
Proof.
  intros H. unfold len in *. rewrite overhead_value by lia.
  rewrite parity_bytes. cbn [length payload_of member_seqs member_lens parity].
  unfold u16_to_be.
  rewrite !length_app, !length_be_concat, length_to_be, !length_fmap, length_share. lia.
Qed.

(** The width of a group is bounded by any bound on its frames. *)
Lemma width_le ds n : Forall (λ d, length d ≤ n)%nat ds → (width ds ≤ n)%nat.
Proof.
  induction 1 as [|d ds Hd Hds IH]; [cbn; lia|]. rewrite width_cons. lia.
Qed.

(** ** Parity placement *)

Lemma length_link_counts ms usable :
  length (link_counts ms usable) = length usable.
Proof.
  unfold link_counts. rewrite <- (length_replicate (length usable) O) at 2.
  generalize (replicate (length usable) O). induction ms as [|m ms IH]; intros c; [done|].
  simpl. rewrite IH. case_match; by rewrite ?length_insert.
Qed.

Lemma link_counts_spec ms usable i :
  (i < length usable)%nat → link_counts ms usable !!! i = count_members i ms.
Proof.
  intros Hi. unfold link_counts.
  assert (∀ c, (i < length c)%nat →
    fold_left (λ counts l, match counts !! l with
               | Some c => <[l := S c]> counts | None => counts end) ms c !!! i
    = (c !!! i + count_members i ms)%nat) as H.
  { induction ms as [|m ms IH]; intros c Hc; simpl; [unfold count_members; simpl; lia|].
    unfold count_members in *. rewrite filter_cons.
    destruct (c !! m) as [x|] eqn:Em.
    - rewrite IH by (by rewrite length_insert). case_decide; simpl.
      + subst. rewrite list_lookup_total_insert_eq by done.
        rewrite (list_lookup_total_correct _ _ _ Em). lia.
      + by rewrite list_lookup_total_insert_ne by done.
    - rewrite IH by done. case_decide; [|done]. subst.
      apply lookup_ge_None in Em. lia. }
  rewrite H by (by rewrite length_replicate).
  by rewrite lookup_total_replicate_2.
Qed.

Lemma elem_of_candidates usable i : i ∈ candidates usable ↔ usable !! i = Some true.
Proof.
  unfold candidates. rewrite list_elem_of_filter, list_elem_of_In, in_seq. split.
  - intros [H Hi]. rewrite list_lookup_lookup_total_lt by lia. by rewrite H.
  - intros H. split; [by apply list_lookup_total_correct|].
    apply lookup_lt_Some in H. lia.
Qed.

Lemma NoDup_candidates usable : NoDup (candidates usable).
Proof. apply NoDup_filter, NoDup_ListNoDup, seq_NoDup. Qed.

Lemma iter_best_spec (better : nat → nat → nat) (R : nat → nat → Prop) l b :
  (∀ x, R x x) → (∀ x y z, R x y → R y z → R x z) →
  (∀ x y, (better x y = x ∨ better x y = y) ∧ R (better x y) x ∧ R (better x y) y) →
  iter_best better l = Some b → b ∈ l ∧ ∀ y, y ∈ l → R b y.
Proof.
  intros Hrefl Htrans Hb. destruct l as [|x l]; [done|]. intros [= <-].
  revert x; induction l as [|y l IH]; intros x; cbn [fold_left].
  - split; [set_solver|]. intros y ->%list_elem_of_singleton. apply Hrefl.
  - destruct (IH (better x y)) as [Hin Hall]. destruct (Hb x y) as (Hor & Hx & Hy).
    assert (R (fold_left better l (better x y)) (better x y)) as Hbest.
    { apply Hall. by apply elem_of_cons; left. }
    rewrite elem_of_cons in Hin. split.
    { rewrite !elem_of_cons. destruct Hor as [Hor|Hor]; rewrite Hor in *; tauto. }
    intros z [->|[->|Hz]%elem_of_cons]%elem_of_cons; [by eapply Htrans..|].
    apply Hall. by apply elem_of_cons; right.
Qed.

Lemma filter_singleton {A} (P : A → Prop) `{!∀ x, Decision (P x)} l i :
  NoDup l → filter P l = [i] ↔ i ∈ l ∧ P i ∧ ∀ j, j ∈ l → P j → j = i.
Proof.
  intros Hnd. split.
  - intros Hf. assert (∀ j, j ∈ l ∧ P j ↔ j = i) as Hj.
    { intros j. rewrite <- list_elem_of_singleton, <- Hf, list_elem_of_filter. tauto. }
    repeat split; try (by apply Hj). intros j ??. by apply Hj.
  - intros (Hi & HP & Hu).
    assert (filter P l ≡ₚ [i]) as Hp.
    { apply NoDup_Permutation; [by apply NoDup_filter|apply NoDup_singleton|].
      intros j. rewrite list_elem_of_filter, list_elem_of_singleton.
      split; [intros []; auto|intros ->; auto]. }
    by apply Permutation_singleton_r in Hp.
Qed.

Lemma pick_spec (f : nat → nat) usable best i :
  match filter (λ j, f j = best) (candidates usable) with
  | [first] => Some first | _ => None end = Some i ↔
  usable !! i = Some true ∧ f i = best ∧
  ∀ j, usable !! j = Some true → f j = best → j = i.
Proof.
  setoid_rewrite <- elem_of_candidates.
  rewrite <- (filter_singleton (λ j, f j = best)) by apply NoDup_candidates.
  destruct (filter _ _) as [|x [|y l]]; split; congruence.
Qed.

(** A unique extremum is picked, whichever order [R] the extremum is for. *)
Lemma pick_extremum better R (f : nat → nat) usable i :
  (∀ x, R x x) → (∀ x y z, R x y → R y z → R x z) → (∀ x y, R x y → R y x → x = y) →
  (∀ x y, (better x y = x ∨ better x y = y) ∧ R (better x y) x ∧ R (better x y) y) →
  (∃ best, iter_best better (f <$> candidates usable) = Some best ∧
     match filter (λ j, f j = best) (candidates usable) with
     | [first] => Some first | _ => None end = Some i) ↔
  usable !! i = Some true ∧
  ∀ j, usable !! j = Some true → j ≠ i → R (f i) (f j) ∧ f j ≠ f i.
Proof.
  intros Hrefl Htrans Hanti Hb. split.
  - intros (best & Hbest & (Hi & Hfi & Hu)%pick_spec). split; [done|].
    eapply iter_best_spec in Hbest as [_ Hall]; [|done..]. subst best.
    intros j Hj Hne. split; [|by intros ?; apply Hne, Hu].
    apply Hall, list_elem_of_fmap. exists j. by rewrite elem_of_candidates.
  - intros [Hi Hu]. destruct (iter_best better (f <$> candidates usable)) as [b|] eqn:E.
    + exists b. split; [done|]. eapply iter_best_spec in E as [Hin Hall]; [|done..].
      apply list_elem_of_fmap in Hin as (k & -> & Hk%elem_of_candidates).
      assert (R (f k) (f i)) as Hki.
      { apply Hall, list_elem_of_fmap. exists i. by rewrite elem_of_candidates. }
      destruct (decide (k = i)) as [->|Hne].
      * apply pick_spec. split_and!; [done..|]. intros j Hj Hfj.
        destruct (decide (j = i)); [done|]. by destruct (Hu j) as [_ []].
      * destruct (Hu k Hk Hne) as [? []]. by apply Hanti.
    + assert (i ∈ candidates usable) as Hc by by apply elem_of_candidates.
      destruct (candidates usable); [by apply not_elem_of_nil in Hc|done].
Qed.

(** The parity link under [Dominant] is the usable link that carries
    strictly more members than every other usable one, and at least one; under
    [Diverse] the one that carries strictly fewer; a tie, or [Scheduler], leaves
    the choice to the scheduler. *)
Theorem choose_parity_link_spec ms usable i :
  (choose_parity_link Dominant ms usable = Some i ↔
     usable !! i = Some true ∧ (0 < count_members i ms)%nat ∧
     ∀ j, usable !! j = Some true → j ≠ i →
          (count_members j ms < count_members i ms)%nat) ∧
  (choose_parity_link Diverse ms usable = Some i ↔
     usable !! i = Some true ∧
     ∀ j, usable !! j = Some true → j ≠ i →
          (count_members i ms < count_members j ms)%nat) ∧
  choose_parity_link Scheduler ms usable = None.
Proof.
  set (f := λ j, link_counts ms usable !!! j).
  assert (∀ j, usable !! j = Some true → f j = count_members j ms) as Hf.
  { intros j ?%lookup_lt_Some. by apply link_counts_spec. }
  pose proof (pick_extremum Nat.max ge f usable i) as Hmax.
  pose proof (pick_extremum Nat.min le f usable i) as Hmin.
  set (pick best := match filter (λ j, f j = best) (candidates usable) with
                    | [first] => Some first | _ => None end).
  assert (choose_parity_link Dominant ms usable =
    best ← iter_best Nat.max (f <$> candidates usable);
    if bool_decide (best = O) then None else pick best) as -> by done.
  assert (choose_parity_link Diverse ms usable =
    best ← iter_best Nat.min (f <$> candidates usable); pick best) as -> by done.
  clearbody f. split_and!; [| |done]; rewrite bind_Some; unfold pick.
  - split.
    + intros (b & Hb & H). case_bool_decide as Hz; [done|].
      destruct (proj1 (Hmax ltac:(lia) ltac:(lia) ltac:(lia) ltac:(lia))
                 (ex_intro _ b (conj Hb H))) as [Hi Hu].
      apply pick_spec in H as (_ & Hfi & _). rewrite <- (Hf i) by done.
      split_and!; [done|lia|]. intros j Hj Hne. rewrite <- (Hf j) by done.
      destruct (Hu j Hj Hne). lia.
    + intros (Hi & Hpos & Hu).
      destruct (proj2 (Hmax ltac:(lia) ltac:(lia) ltac:(lia) ltac:(lia))) as (b & Hb & H).
      { split; [done|]. intros j Hj Hne. specialize (Hu j Hj Hne).
        rewrite !Hf by done. lia. }
      exists b. split; [done|].
      pose proof (proj1 (pick_spec f usable b i) H) as (_ & Hfi & _).
      rewrite Hf in Hfi by done. rewrite bool_decide_false by lia. done.
  - rewrite Hmin by (intros; lia).
    split; intros [Hi Hu]; (split; [done|]); intros j Hj Hne; specialize (Hu j Hj Hne);
      rewrite ?Hf in Hu by done; rewrite ?Hf by done; lia.
Qed.
