(* ===== verification/FecRecovery.v ===== *)
(** * Forward error correction, the receiving side ([fec.rs])

    [FecRecoveryBuffer] with all its operations. Times are nanoseconds; an
    operation reads the clock once, the parameter [now]. The iteration order
    of a [HashMap] is a parameter too: any order that lists the entries. *)

From S2P Require Import Prelude Bytes Protocol Gf256.

(** [HashMap::iter]: the entries in some order, which may differ from map to
    map. *)
Class HashIter := {
  hash_iter : ∀ {A}, gmap Z A → list (Z * A);
  hash_iter_perm : ∀ {A} (m : gmap Z A), hash_iter m ≡ₚ map_to_list m }.

(** One order, for runs on concrete input. *)
Definition list_iter : HashIter :=
  {| hash_iter := λ A m, map_to_list m; hash_iter_perm := λ A m, reflexivity _ |}.

(** ** Data *)

Inductive ParityKind := P | Q.
Global Instance ParityKind_eq_dec : EqDecision ParityKind.
Proof. solve_decision. Defined.

Definition recoveries : Type := list (Z * list Z).

Inductive RecoveryOutcome :=
  | Recovered (r : recoveries)
  | Unrecoverable
  | AlreadyComplete
  | Pending.

Definition secs (n : Z) : Z := n * 1000000000.

Definition PAYLOAD_TTL : Z := secs 2.
Definition MAX_PAYLOADS : nat := 4096.
Definition SEEN_GENERATION : Z := secs 2.
Definition MAX_SEEN_PER_GENERATION : nat := 131072.
Definition STALE_SEQ_WINDOW : Z := 65536.
Definition SEQ_RESET_GAP : Z := Z.shiftl 1 24.
Definition MAX_PARKED_GROUPS : nat := 512.
Global Opaque MAX_PAYLOADS MAX_SEEN_PER_GENERATION MAX_PARKED_GROUPS.

Record ShareSet := mkShares {
  sh_p : option FecParityPayload;
  sh_q : option FecParityPayload }.

Record ParkedGroup := mkParked {
  pg_at : Z;
  pg_shares : ShareSet;
  pg_missing : list Z }.

Inductive Eval :=
  | EvRecovered (r : recoveries)
  | EvAlreadyComplete
  | EvUnrecoverable
  | EvNeedMore (missing : list Z).

Inductive MemberState := Known | Handled | Missing.
Global Instance MemberState_eq_dec : EqDecision MemberState.
Proof. solve_decision. Defined.

Record FecRecoveryBuffer := mkBuf {
  payload_ttl : Z;
  seen_generation : Z;
  payloads : gmap Z (Z * list Z);
  payload_order : list Z;
  seen_current : gset Z;
  seen_previous : gset Z;
  seen_rotated_at : Z;
  seen_floor : option Z;
  seen_rotation_high : option Z;
  highest_seq : Z;
  parity_count : Z;
  parked : gmap Z ParkedGroup;
  parked_by_seq : gmap Z Z;
  late_recoveries : recoveries;
  given_up : Z }.

(** Assignments to fields of [self]. *)
Definition set_payloads (p : gmap Z (Z * list Z)) (o : list Z) (b : FecRecoveryBuffer) :=
  mkBuf (payload_ttl b) (seen_generation b) p o (seen_current b) (seen_previous b)
    (seen_rotated_at b) (seen_floor b) (seen_rotation_high b) (highest_seq b)
    (parity_count b) (parked b) (parked_by_seq b) (late_recoveries b) (given_up b).
Definition set_seen (cur prev : gset Z) (at_ : Z) (floor high : option Z)
    (b : FecRecoveryBuffer) :=
  mkBuf (payload_ttl b) (seen_generation b) (payloads b) (payload_order b) cur prev
    at_ floor high (highest_seq b)
    (parity_count b) (parked b) (parked_by_seq b) (late_recoveries b) (given_up b).
Definition set_highest (h : Z) (b : FecRecoveryBuffer) :=
  mkBuf (payload_ttl b) (seen_generation b) (payloads b) (payload_order b)
    (seen_current b) (seen_previous b) (seen_rotated_at b) (seen_floor b)
    (seen_rotation_high b) h
    (parity_count b) (parked b) (parked_by_seq b) (late_recoveries b) (given_up b).
Definition set_parked (pk : gmap Z ParkedGroup) (by_seq : gmap Z Z)
    (b : FecRecoveryBuffer) :=
  mkBuf (payload_ttl b) (seen_generation b) (payloads b) (payload_order b)
    (seen_current b) (seen_previous b) (seen_rotated_at b) (seen_floor b)
    (seen_rotation_high b) (highest_seq b)
    (parity_count b) pk by_seq (late_recoveries b) (given_up b).
Definition set_reports (late : recoveries) (gu : Z) (b : FecRecoveryBuffer) :=
  mkBuf (payload_ttl b) (seen_generation b) (payloads b) (payload_order b)
    (seen_current b) (seen_previous b) (seen_rotated_at b) (seen_floor b)
    (seen_rotation_high b) (highest_seq b)
    (parity_count b) (parked b) (parked_by_seq b) late gu.

(** ** Operations *)

Definition with_params (parity_count ttl generation now : Z) : FecRecoveryBuffer :=
  mkBuf ttl generation ∅ [] ∅ ∅ now None None 0 parity_count ∅ ∅ [] 0.

Definition FecRecoveryBuffer_new (parity_count now : Z) : FecRecoveryBuffer :=
  with_params parity_count PAYLOAD_TTL SEEN_GENERATION now.

Definition rotate_seen (now : Z) (b : FecRecoveryBuffer) : FecRecoveryBuffer :=
  set_seen ∅ (seen_current b) now (seen_rotation_high b) (Some (highest_seq b)) b.

Definition mark_seen (now seq : Z) (b : FecRecoveryBuffer) : FecRecoveryBuffer :=
  let b := set_seen ({[seq]} ∪ seen_current b) (seen_previous b) (seen_rotated_at b)
             (seen_floor b) (seen_rotation_high b) b in
  if bool_decide (MAX_SEEN_PER_GENERATION < size (seen_current b))%nat
  then rotate_seen now b else b.

(** [while payload_order.len() > MAX_PAYLOADS { pop_front; remove }]. *)
Fixpoint evict (order : list Z) (p : gmap Z (Z * list Z)) : gmap Z (Z * list Z) * list Z :=
  match order with
  | [] => (p, [])
  | oldest :: rest =>
      if bool_decide (MAX_PAYLOADS < length order)%nat
      then evict rest (delete oldest p) else (p, order)
  end.

Definition insert_payload (now seq : Z) (plaintext : list Z) (b : FecRecoveryBuffer)
    : FecRecoveryBuffer :=
  let order := match payloads b !! seq with
               | None => payload_order b ++ [seq]
               | Some _ => payload_order b end in
  let '(p, o) := evict order (<[seq := (now, plaintext)]> (payloads b)) in
  set_payloads p o b.

Definition note_seq (seq : Z) (b : FecRecoveryBuffer) : FecRecoveryBuffer :=
  if highest_seq b <? seq then set_highest seq b
  else if SEQ_RESET_GAP <=? sat_sub (highest_seq b) seq
  then set_highest seq (set_seen ∅ ∅ (seen_rotated_at b) None None
                          (set_payloads ∅ [] b))
  else b.

Definition member_state (b : FecRecoveryBuffer) (seq : Z) : MemberState :=
  if bool_decide (is_Some (payloads b !! seq)) then Known
  else if bool_decide (seq ∈ seen_current b) || bool_decide (seq ∈ seen_previous b)
  then Handled
  else if match seen_floor b with Some floor => seq <=? floor | None => false end
  then Handled
  else if wrap 64 (seq + STALE_SEQ_WINDOW) <=? highest_seq b then Handled
  else Missing.

(** The loop that classifies the members: positions of the missing ones and
    the number of handled ones. *)
Fixpoint classify (b : FecRecoveryBuffer) (i : nat) (seqs : list Z) : list nat * nat :=
  match seqs with
  | [] => ([], O)
  | seq :: seqs =>
      let '(missing, handled) := classify b (S i) seqs in
      match member_state b seq with
      | Known => (missing, handled)
      | Handled => (missing, S handled)
      | Missing => (i :: missing, handled)
      end
  end.

(** The loop that takes the known members' contributions out of the shares;
    [None] is the early return [Unrecoverable]. *)
Fixpoint strip_known (b : FecRecoveryBuffer) (width : nat) (missing_idx : list nat)
    (i : nat) (seqs : list Z) (pq : option (list Z) * option (list Z))
    : option (option (list Z) * option (list Z)) :=
  match seqs with
  | [] => Some pq
  | seq :: seqs =>
      if bool_decide (i ∈ missing_idx) then strip_known b width missing_idx (S i) seqs pq
      else match payloads b !! seq with
           | None => None
           | Some (_, bytes) =>
               if bool_decide (width < length bytes)%nat then None
               else strip_known b width missing_idx (S i) seqs
                      ((λ pp, gf.zip_acc id pp bytes) <$> pq.1,
                       (λ qp, gf.mul_acc qp bytes (gf.pow2 i)) <$> pq.2)
           end
  end.

(** The erased members' data, from the stripped shares. *)
Definition solve (missing_idx : list nat) (pq : option (list Z) * option (list Z))
    : option (list (nat * list Z)) :=
  match missing_idx, pq with
  | [a], (Some pp, _) => Some [(a, pp)]
  | [a], (None, Some qp) => Some [(a, gf.scale qp (gf.inv (gf.pow2 a)))]
  | [a; b], (Some pp, Some qp) =>
      let ga := gf.pow2 a in
      let gb := gf.pow2 b in
      let db := gf.scale (gf.mul_acc qp pp ga) (gf.inv (Z.lxor ga gb)) in
      let da := gf.zip_acc id pp db in
      Some [(a, da); (b, db)]
  | _, _ => None
  end.

(** The final loop of [evaluate]: truncate, mark, keep. *)
Fixpoint deliver (now : Z) (seqs lens : list Z) (out : list (nat * list Z))
    (b : FecRecoveryBuffer) : FecRecoveryBuffer * recoveries :=
  match out with
  | [] => (b, [])
  | (i, data) :: out =>
      let data := take (Z.to_nat (nth i lens 0)) data in
      let seq := nth i seqs 0 in
      let b := insert_payload now seq data (mark_seen now seq b) in
      let '(b, r) := deliver now seqs lens out b in
      (b, (seq, data) :: r)
  end.

Definition share_width (sh : ShareSet) : option nat :=
  match sh_p sh, sh_q sh with
  | Some p, Some q =>
      if bool_decide (length (parity p) ≠ length (parity q))
         || bool_decide (member_seqs p ≠ member_seqs q)
         || bool_decide (member_lens p ≠ member_lens q)
      then None else Some (length (parity p))
  | Some p, None => Some (length (parity p))
  | None, Some q => Some (length (parity q))
  | None, None => None
  end.

Definition evaluate (now : Z) (sh : ShareSet) (b : FecRecoveryBuffer)
    : FecRecoveryBuffer * Eval :=
  match (match sh_p sh with Some p => Some p | None => sh_q sh end) with
  | None => (b, EvUnrecoverable)
  | Some any =>
      let seqs := member_seqs any in
      let lens := member_lens any in
      let '(missing_idx, handled_count) := classify b 0 seqs in
      if bool_decide (missing_idx = []) then (b, EvAlreadyComplete)
      else
        let max_erasures := if 2 <=? parity_count b then 2%nat else 1%nat in
        if bool_decide (max_erasures < length missing_idx)%nat
           || bool_decide (0 < handled_count)%nat
        then (b, EvUnrecoverable)
        else if bool_decide (length missing_idx = 2%nat)
                && negb (bool_decide (is_Some (sh_p sh)) && bool_decide (is_Some (sh_q sh)))
        then (b, EvNeedMore ((λ i, nth i seqs 0) <$> missing_idx))
        else match share_width sh with
        | None => (b, EvUnrecoverable)
        | Some width =>
            if existsb (λ i, bool_decide (width < Z.to_nat (nth i lens 0%Z))%nat) missing_idx
            then (b, EvUnrecoverable)
            else match (pq ← strip_known b width missing_idx 0 seqs
                               (parity <$> sh_p sh, parity <$> sh_q sh);
                        solve missing_idx pq) with
            | None => (b, EvUnrecoverable)
            | Some out => let '(b, r) := deliver now seqs lens out b in (b, EvRecovered r)
            end
        end
  end.

Definition remove_missing (missing : list Z) (m : gmap Z Z) : gmap Z Z :=
  foldl (λ m s, delete s m) m missing.

Definition drop_parked (key : Z) (b : FecRecoveryBuffer) : FecRecoveryBuffer :=
  match parked b !! key with
  | Some g => set_parked (delete key (parked b))
                (remove_missing (pg_missing g) (parked_by_seq b)) b
  | None => b
  end.

(** [min_by_key]: the first entry with the least key. *)
Fixpoint min_by_key {A} (f : A → Z) (best : A) (l : list A) : A :=
  match l with
  | [] => best
  | x :: l => min_by_key f (if f x <? f best then x else best) l
  end.

Definition bump_given_up (b : FecRecoveryBuffer) : FecRecoveryBuffer :=
  set_reports (late_recoveries b) (wrap 64 (given_up b + 1)) b.

Section operations.
Context `{!HashIter}.

Definition park (now key : Z) (sh : ShareSet) (missing : list Z) (b : FecRecoveryBuffer)
    : FecRecoveryBuffer :=
  let b :=
    if bool_decide (MAX_PARKED_GROUPS ≤ size (parked b))%nat then
      match hash_iter (parked b) with
      | [] => b
      | e :: l =>
          let oldest := (min_by_key (λ kg, pg_at kg.2) e l).1 in
          bump_given_up (drop_parked oldest b)
      end
    else b in
  set_parked (<[key := mkParked now sh missing]> (parked b))
    (foldl (λ m s, <[s := key]> m) (parked_by_seq b) missing) b.

Definition recheck_parked_for (now seq : Z) (b : FecRecoveryBuffer) : FecRecoveryBuffer :=
  match parked_by_seq b !! seq with
  | None => b
  | Some key =>
      let b := set_parked (parked b) (delete seq (parked_by_seq b)) b in
      match parked b !! key with
      | None => b
      | Some g =>
          let b := set_parked (delete key (parked b))
                     (remove_missing (pg_missing g) (parked_by_seq b)) b in
          match evaluate now (pg_shares g) b with
          | (b, EvRecovered r) => set_reports (late_recoveries b ++ r) (given_up b) b
          | (b, EvAlreadyComplete) => b
          | (b, EvUnrecoverable) => bump_given_up b
          | (b, EvNeedMore missing) =>
              let b := park now key (pg_shares g) missing b in
              match parked b !! key with
              | Some g' => set_parked (<[key := mkParked (pg_at g) (pg_shares g') (pg_missing g')]>
                                        (parked b)) (parked_by_seq b) b
              | None => b
              end
          end
      end
  end.

Definition observe_data (now seq : Z) (plaintext : list Z) (b : FecRecoveryBuffer)
    : FecRecoveryBuffer * bool :=
  let b := note_seq seq b in
  if bool_decide (seq ∈ seen_current b) || bool_decide (seq ∈ seen_previous b)
  then (b, false)
  else
    let b := mark_seen now seq b in
    let b := insert_payload now seq plaintext b in
    let b := if bool_decide (parked b = ∅) then b else recheck_parked_for now seq b in
    (b, true).

Definition has_late_recoveries (b : FecRecoveryBuffer) : bool :=
  bool_decide (late_recoveries b ≠ []).

Definition take_late_recoveries (b : FecRecoveryBuffer) : FecRecoveryBuffer * recoveries :=
  (set_reports [] (given_up b) b, late_recoveries b).

Definition list_max (x : Z) (l : list Z) : Z := fold_left Z.max l x.

Definition add_share (kind : ParityKind) (p : FecParityPayload) (sh : ShareSet) : ShareSet :=
  match kind with
  | P => mkShares (Some p) (sh_q sh)
  | Q => mkShares (sh_p sh) (Some p)
  end.

Definition try_recover (now : Z) (kind : ParityKind) (p : FecParityPayload)
    (b : FecRecoveryBuffer) : FecRecoveryBuffer * RecoveryOutcome :=
  match member_seqs p with
  | [] => (b, Unrecoverable)
  | key :: rest =>
      if bool_decide (length (member_seqs p) ≠ length (member_lens p))
      then (b, Unrecoverable)
      else
        let b := note_seq (list_max key rest) b in
        let '(b, shares) :=
          match parked b !! key with
          | Some g => (set_parked (delete key (parked b))
                         (remove_missing (pg_missing g) (parked_by_seq b)) b, pg_shares g)
          | None => (b, mkShares None None)
          end in
        let shares := add_share kind p shares in
        match evaluate now shares b with
        | (b, EvRecovered r) => (b, Recovered r)
        | (b, EvAlreadyComplete) => (b, AlreadyComplete)
        | (b, EvUnrecoverable) => (b, Unrecoverable)
        | (b, EvNeedMore missing) => (park now key shares missing b, Pending)
        end
  end.

(** The TTL loop of [tick]. *)
Fixpoint expire (now ttl : Z) (order : list Z) (p : gmap Z (Z * list Z))
    : gmap Z (Z * list Z) * list Z :=
  match order with
  | [] => (p, [])
  | seq :: rest =>
      let expired := match p !! seq with
                     | Some (at_, _) => ttl <=? sat_sub now at_
                     | None => true end in
      if expired then expire now ttl rest (delete seq p) else (p, order)
  end.

Definition tick (now : Z) (b : FecRecoveryBuffer) : FecRecoveryBuffer * Z :=
  let '(p, o) := expire now (payload_ttl b) (payload_order b) (payloads b) in
  let b := set_payloads p o b in
  let b :=
    if bool_decide (parked b = ∅) then b
    else
      let expired := fst <$> filter (λ kg, payload_ttl b ≤ sat_sub now (pg_at kg.2))
                               (hash_iter (parked b)) in
      foldl (λ b key, bump_given_up (drop_parked key b)) b expired in
  let b := if seen_generation b <=? sat_sub now (seen_rotated_at b)
           then rotate_seen now b else b in
  (set_reports (late_recoveries b) 0 b, given_up b).

End operations.
