(* ===== verification/FecSafety.v ===== *)
(** * No frame is reconstructed twice ([fec.rs])

    The steps the receive path takes on the recovery buffer, the invariant
    that ties its seen sets and its floor to what has been delivered, and the
    bounds on its memory. *)

From S2P Require Import Prelude Bytes Protocol Gf256 FecRecovery.

(** ** Steps of the receive path *)

Inductive fec_op :=
  | RxData (now seq : Z) (plaintext : list Z)
  | RxParity (now : Z) (kind : ParityKind) (p : FecParityPayload)
  | RxTick (now : Z).

(** What a step hands on: a frame that arrived, or one reconstructed. *)
Inductive fec_event :=
  | Direct (seq : Z) (data : list Z)
  | Rebuilt (seq : Z) (data : list Z).

Definition rebuilt (r : recoveries) : list fec_event := (λ sd, Rebuilt sd.1 sd.2) <$> r.

Definition event_seq (e : fec_event) : Z :=
  match e with Direct s _ | Rebuilt s _ => s end.

Section steps.
Context `{!HashIter}.

(** [rx_pipeline] on one event: a Data frame goes through [observe_data] and
    is followed by the late recoveries it unlocked; a parity frame through
    [try_recover]. *)
Definition fec_step (b : FecRecoveryBuffer) (op : fec_op)
    : FecRecoveryBuffer * list fec_event :=
  match op with
  | RxData now seq plaintext =>
      let '(b, fresh) := observe_data now seq plaintext b in
      let '(b, late) :=
        if has_late_recoveries b then take_late_recoveries b else (b, []) in
      (b, (if fresh then [Direct seq plaintext] else []) ++ rebuilt late)
  | RxParity now kind p =>
      match try_recover now kind p b with
      | (b, Recovered r) => (b, rebuilt r)
      | (b, _) => (b, [])
      end
  | RxTick now => let '(b, _) := tick now b in (b, [])
  end.

(** The sequence number a step notes, and whether noting it reads as a restart
    of the peer, which forgets the stream seen so far. *)
Definition noted (op : fec_op) : option Z :=
  match op with
  | RxData _ seq _ => Some seq
  | RxParity _ _ p =>
      if bool_decide (length (member_seqs p) = length (member_lens p)) then
        match member_seqs p with [] => None | s :: l => Some (list_max s l) end
      else None
  | RxTick _ => None
  end.

Definition resets (b : FecRecoveryBuffer) (op : fec_op) : bool :=
  match noted op with
  | Some seq => negb (highest_seq b <? seq)
                && (SEQ_RESET_GAP <=? sat_sub (highest_seq b) seq)
  | None => false
  end.

(** The members a group lists more than once: the sender never does, a parity
    frame can. *)
Fixpoint repeats (l : list Z) : gset Z :=
  match l with
  | [] => ∅
  | s :: l => (if bool_decide (s ∈ l) then {[s]} else ∅) ∪ repeats l
  end.

(** The members of the parked groups, which a restart leaves in place. *)
Definition share_members (sh : ShareSet) : list Z :=
  from_option member_seqs [] (sh_p sh) ++ from_option member_seqs [] (sh_q sh).
Definition parked_members (b : FecRecoveryBuffer) : gset Z :=
  list_to_set (kg ← map_to_list (parked b); share_members (pg_shares kg.2)).

(** What a run has done: the sequence numbers delivered since the last restart
    of the peer, those of groups that were parked when it happened, and those
    some group has listed more than once. *)
Record history := mkHistory {
  delivered : gset Z;
  stale : gset Z;
  repeated : gset Z }.

Definition stale_after (b : FecRecoveryBuffer) (op : fec_op) (h : history) : gset Z :=
  if resets b op then parked_members b else stale h.
Definition repeated_after (op : fec_op) (h : history) : gset Z :=
  match op with RxParity _ _ p => repeats (member_seqs p) | _ => ∅ end ∪ repeated h.
Definition since_restart (b : FecRecoveryBuffer) (op : fec_op) (h : history) : gset Z :=
  if resets b op then ∅ else delivered h.

Definition history_step (b : FecRecoveryBuffer) (op : fec_op) (evs : list fec_event)
    (h : history) : history :=
  mkHistory (list_to_set (event_seq <$> evs) ∪ since_restart b op h)
    (stale_after b op h) (repeated_after op h).

Definition op_time (op : fec_op) : Z :=
  match op with RxData now _ _ | RxParity now _ _ | RxTick now => now end.

(** Reachable buffers, whatever frames arrive, under a clock that never goes
    back. *)
Inductive fec_reach (parity_count : Z) : Z → FecRecoveryBuffer → history → Prop :=
  | reach_new now :
      fec_reach parity_count now (FecRecoveryBuffer_new parity_count now) (mkHistory ∅ ∅ ∅)
  | reach_step t b h op b' evs :
      fec_reach parity_count t b h → t ≤ op_time op → fec_step b op = (b', evs) →
      fec_reach parity_count (op_time op) b' (history_step b op evs h).

End steps.

(** ** The invariant *)

(** A sequence number the buffer still knows to be dealt with. *)
Definition accounted (b : FecRecoveryBuffer) (s : Z) : Prop :=
  s ∈ seen_current b ∨ s ∈ seen_previous b ∨ ∃ fl, seen_floor b = Some fl ∧ s ≤ fl.

Section invariant.
Context (St Rp : gset Z).

Definition shares_ok (high : Z) (sh : ShareSet) : Prop :=
  ∀ p, sh_p sh = Some p ∨ sh_q sh = Some p →
       repeats (member_seqs p) ⊆ Rp ∧ ∀ s, s ∈ member_seqs p → s ≤ high ∨ s ∈ St.

Definition group_ok (high : Z) (g : ParkedGroup) : Prop := shares_ok high (pg_shares g).

Record seen_inv (b : FecRecoveryBuffer) (D : gset Z) : Prop := {
  inv_delivered : ∀ s, s ∈ D → s ∈ St ∨ accounted b s;
  inv_current : ∀ s, s ∈ seen_current b → s ≤ highest_seq b ∨ s ∈ St;
  inv_previous : ∀ s, s ∈ seen_previous b →
    (∃ h, seen_rotation_high b = Some h ∧ s ≤ h) ∨ s ∈ St;
  inv_floor : ∀ fl, seen_floor b = Some fl → ∃ h, seen_rotation_high b = Some h ∧ fl ≤ h;
  inv_rotation : ∀ h, seen_rotation_high b = Some h → h ≤ highest_seq b;
  inv_parked : map_Forall (λ _, group_ok (highest_seq b)) (parked b) }.

(** The fields the invariant speaks about. *)
Definition same_seen (b b' : FecRecoveryBuffer) : Prop :=
  seen_current b = seen_current b' ∧ seen_previous b = seen_previous b' ∧
  seen_floor b = seen_floor b' ∧ seen_rotation_high b = seen_rotation_high b' ∧
  highest_seq b = highest_seq b'.

Lemma seen_inv_same b b' D :
  same_seen b b' → map_Forall (λ _, group_ok (highest_seq b)) (parked b') →
  seen_inv b D → seen_inv b' D.
Proof.
  destruct b, b'. unfold same_seen. cbn. intros (-> & -> & -> & -> & ->) Hp [].
  by split.
Qed.

Lemma insert_payload_eq now s d b :
  ∃ p o, insert_payload now s d b = set_payloads p o b.
Proof. unfold insert_payload. destruct (evict _ _) as [p o]. by exists p, o. Qed.

Lemma insert_payload_inv now s d b D :
  seen_inv b D → seen_inv (insert_payload now s d b) D.
Proof.
  destruct (insert_payload_eq now s d b) as (p & o & ->).
  intros H. apply (seen_inv_same b); [done|apply H|done].
Qed.

Lemma rotate_inv now b D : seen_inv b D → seen_inv (rotate_seen now b) D.
Proof.
  intros []. split; unfold rotate_seen, accounted; cbn.
  - intros s Hs. destruct (inv_delivered0 s Hs) as [?|[?|[Hp|(fl & Hf & ?)]]];
      [naive_solver|naive_solver| |].
    + apply inv_previous0 in Hp. naive_solver.
    + right. apply inv_floor0 in Hf as (h & -> & ?). right. right. exists h. split; [done|lia].
  - set_solver.
  - intros s [?|?]%inv_current0; eauto.
  - intros fl Hf. apply inv_rotation0 in Hf. eauto.
  - intros h [= <-]. lia.
  - done.
Qed.

Lemma mark_seen_inv now s b D :
  seen_inv b D → s ≤ highest_seq b ∨ s ∈ St → seen_inv (mark_seen now s b) ({[s]} ∪ D).
Proof.
  intros [] Hs. unfold mark_seen.
  assert (seen_inv (set_seen ({[s]} ∪ seen_current b) (seen_previous b)
            (seen_rotated_at b) (seen_floor b) (seen_rotation_high b) b) ({[s]} ∪ D)) as H.
  { split; unfold accounted; cbn; [|set_solver|done..].
    intros s' [->%elem_of_singleton|H]%elem_of_union; [set_solver|].
    destruct (inv_delivered0 s' H) as [?|[?|[?|?]]]; [by left|set_solver|tauto..]. }
  case_bool_decide; [by apply rotate_inv|done].
Qed.

Lemma mark_seen_frame now s b :
  highest_seq (mark_seen now s b) = highest_seq b ∧
  parked (mark_seen now s b) = parked b ∧
  parked_by_seq (mark_seen now s b) = parked_by_seq b ∧
  late_recoveries (mark_seen now s b) = late_recoveries b ∧
  payloads (mark_seen now s b) = payloads b ∧
  payload_order (mark_seen now s b) = payload_order b ∧
  parity_count (mark_seen now s b) = parity_count b.
Proof. unfold mark_seen. by case_bool_decide. Qed.

Lemma insert_payload_frame now s d b :
  highest_seq (insert_payload now s d b) = highest_seq b ∧
  parked (insert_payload now s d b) = parked b ∧
  parked_by_seq (insert_payload now s d b) = parked_by_seq b ∧
  late_recoveries (insert_payload now s d b) = late_recoveries b ∧
  parity_count (insert_payload now s d b) = parity_count b.
Proof. by destruct (insert_payload_eq now s d b) as (p & o & ->). Qed.

Lemma note_seq_high s b : s ≤ highest_seq (note_seq s b).
Proof.
  unfold note_seq. destruct (Z.ltb_spec (highest_seq b) s); cbn; [lia|].
  destruct (_ <=? _); cbn; lia.
Qed.

Lemma group_ok_mono h h' g : h ≤ h' → group_ok h g → group_ok h' g.
Proof.
  intros Hh Hg p Hp. destruct (Hg p Hp) as [? Hs]. split; [done|].
  intros s Hin. destruct (Hs s Hin); [left; lia|by right].
Qed.

Lemma missing_not_accounted b s : member_state b s = Missing → ¬ accounted b s.
Proof.
  unfold member_state, accounted. intros H.
  repeat case_bool_decide; simpl in H; try done.
  destruct (seen_floor b) as [fl|]; [|naive_solver].
  destruct (Z.leb_spec s fl); [done|]. intros [?|[?|(fl' & E & ?)]]; [done..|].
  injection E as <-. lia.
Qed.

(** ** Evaluating a group *)

Definition any_share (sh : ShareSet) : option FecParityPayload :=
  match sh_p sh with Some p => Some p | None => sh_q sh end.

Lemma classify_spec b i seqs :
  let '(mi, h) := classify b i seqs in
  (∀ k, k ∈ mi ↔ ∃ j s, k = (i + j)%nat ∧ seqs !! j = Some s ∧ member_state b s = Missing) ∧
  NoDup mi ∧
  (h = O ↔ ∀ s, s ∈ seqs → member_state b s ≠ Handled).
Proof.
  revert i; induction seqs as [|s seqs IH]; intros i; cbn [classify].
  { repeat split; [set_solver|naive_solver|constructor|set_solver]. }
  specialize (IH (S i)). destruct (classify b (S i) seqs) as [mi h].
  destruct IH as (Hmi & Hnd & Hh).
  assert (∀ k, k ∈ mi ↔ ∃ j s', k = (i + S j)%nat ∧ seqs !! j = Some s' ∧
                                 member_state b s' = Missing) as Hmi'.
  { intros k. rewrite Hmi. split; intros (j & s' & -> & ?); exists j, s';
      (split; [lia|done]). }
  destruct (member_state b s) eqn:Es; (split_and!; [intros k| |setoid_rewrite elem_of_cons]).
  - rewrite Hmi'. split; [intros (j & s' & ?); exists (S j), s'; naive_solver|].
    intros ([|j] & s' & ? & E & ?); [|naive_solver].
    injection E as ->. congruence.
  - done.
  - rewrite Hh. split; [intros Ha s' [->|]; [congruence|auto]|auto].
  - rewrite Hmi'. split; [intros (j & s' & ?); exists (S j), s'; naive_solver|].
    intros ([|j] & s' & ? & E & ?); [|naive_solver].
    injection E as ->. congruence.
  - done.
  - split; [done|]. intros Ha. by destruct (Ha s); [left|].
  - rewrite elem_of_cons, Hmi'. split.
    + intros [->|(j & s' & ?)]; [exists O, s; rewrite Nat.add_0_r; naive_solver|].
      exists (S j), s'. naive_solver.
    + intros ([|j] & s' & -> & E & ?); [left; lia|right; naive_solver].
  - constructor; [|done]. rewrite Hmi'. intros (j & s' & ? & _). lia.
  - rewrite Hh. split; [intros Ha s' [->|]; [congruence|auto]|auto].
Qed.

Lemma solve_positions mi pq out : solve mi pq = Some out → out.*1 = mi.
Proof.
  destruct mi as [|a [|b [|c mi]]], pq as [[pp|] [qp|]]; simpl; intros; simplify_eq; done.
Qed.

(** Either the buffer is unchanged and nothing was rebuilt, or every step of
    the reconstruction went through. *)
Lemma evaluate_cases now sh b b' ev :
  evaluate now sh b = (b', ev) →
  (b' = b ∧ (∀ r, ev ≠ EvRecovered r) ∧
   ∀ l, ev = EvNeedMore l → 2 ≤ parity_count b ∧ length l = 2%nat) ∨
  ∃ p mi w pq out r,
    any_share sh = Some p ∧ classify b 0 (member_seqs p) = (mi, O) ∧
    share_width sh = Some w ∧
    Forall (λ i, (Z.to_nat (nth i (member_lens p) 0%Z) ≤ w)%nat) mi ∧
    strip_known b w mi 0 (member_seqs p) (parity <$> sh_p sh, parity <$> sh_q sh) = Some pq ∧
    solve mi pq = Some out ∧
    deliver now (member_seqs p) (member_lens p) out b = (b', r) ∧ ev = EvRecovered r.
Proof.
  unfold evaluate. fold (any_share sh).
  destruct (any_share sh) as [p|]; [|intros [= <- <-]; left; naive_solver].
  destruct (classify b 0 (member_seqs p)) as [mi h] eqn:Ec.
  case_bool_decide as Hnil; [intros [= <- <-]; left; naive_solver|].
  case_bool_decide as Hmax; [intros [= <- <-]; left; naive_solver|].
  case_bool_decide as Hh; [intros [= <- <-]; left; naive_solver|].
  cbn [orb]. destruct (_ && _) eqn:E2.
  { intros [= <- <-]. left. split_and!; [done..|]. intros l [= <-].
    apply andb_true_iff in E2 as [E2%bool_decide_eq_true _]. rewrite E2 in Hmax.
    rewrite length_fmap. split; [|done]. destruct (Z.leb_spec 2 (parity_count b)); [done|lia]. }
  destruct (share_width sh) as [w|] eqn:Ew; [|intros [= <- <-]; left; naive_solver].
  destruct (existsb _ mi) eqn:Ee; [intros [= <- <-]; left; naive_solver|].
  destruct (strip_known _ _ _ _ _ _) as [pq|] eqn:Es; cbn [mbind option_bind];
    [|intros [= <- <-]; left; naive_solver].
  destruct (solve mi pq) as [out|] eqn:Eo; [|intros [= <- <-]; left; naive_solver].
  destruct (deliver _ _ _ _ _) as [b'' r] eqn:Ed. intros [= <- <-].
  right. exists p, mi, w, pq, out, r. assert (h = O) as -> by lia. split_and!; try done.
  apply Forall_forall. intros i Hi. apply not_true_iff_false in Ee.
  destruct (decide (Z.to_nat (nth i (member_lens p) 0%Z) ≤ w)%nat); [done|].
  destruct Ee. apply existsb_exists. exists i.
  rewrite <- list_elem_of_In, bool_decide_eq_true. split; [done|lia].
Qed.

Definition same_groups (b b' : FecRecoveryBuffer) : Prop :=
  highest_seq b' = highest_seq b ∧ parked b' = parked b ∧
  parked_by_seq b' = parked_by_seq b ∧ late_recoveries b' = late_recoveries b ∧
  parity_count b' = parity_count b.

Lemma deliver_step_frame now s d b :
  same_groups b (insert_payload now s d (mark_seen now s b)).
Proof.
  destruct (insert_payload_frame now s d (mark_seen now s b)) as (? & ? & ? & ? & ?).
  destruct (mark_seen_frame now s b) as (? & ? & ? & ? & _ & _ & ?).
  unfold same_groups. split_and!; congruence.
Qed.

Lemma deliver_frame now seqs lens out b b' r :
  deliver now seqs lens out b = (b', r) → same_groups b b'.
Proof.
  revert b b' r; induction out as [|[i d] out IH]; intros b b' r; cbn [deliver].
  { by intros [= <- <-]. }
  destruct (deliver _ _ _ _ (insert_payload _ _ _ _)) as [b2 r2] eqn:E. intros [= <- <-].
  apply IH in E. destruct E as (? & ? & ? & ? & ?).
  destruct (deliver_step_frame now (nth i seqs 0) (take (Z.to_nat (nth i lens 0)) d) b)
    as (? & ? & ? & ? & ?).
  unfold same_groups. split_and!; congruence.
Qed.

Lemma deliver_inv now seqs lens out b b' r D :
  deliver now seqs lens out b = (b', r) → seen_inv b D →
  Forall (λ i, nth i seqs 0 ≤ highest_seq b ∨ nth i seqs 0 ∈ St) out.*1 →
  r.*1 = (λ i, nth i seqs 0) <$> out.*1 ∧
  seen_inv b' (list_to_set r.*1 ∪ D).
Proof.
  revert b b' r D; induction out as [|[i d] out IH]; intros b b' r D; cbn [deliver].
  { intros [= <- <-] H _. split; [done|]. cbn. by rewrite union_empty_l_L. }
  destruct (deliver _ _ _ _ (insert_payload _ _ _ _)) as [b2 r2] eqn:E. intros [= <- <-] Hinv.
  cbn [fmap list_fmap fst]. intros [Hi Hout]%Forall_cons.
  eapply IH in E as [Hr Hinv2].
  - split; [by rewrite Hr|]. cbn [list_to_set].
    rewrite <- (assoc_L (∪)), (assoc_L (∪) _ _ D), (comm_L (∪) {[_]}), <- (assoc_L (∪)).
    exact Hinv2.
  - apply insert_payload_inv, mark_seen_inv; done.
  - by rewrite (proj1 (deliver_step_frame now _ _ b)).
Qed.

Lemma any_share_in sh p : any_share sh = Some p → sh_p sh = Some p ∨ sh_q sh = Some p.
Proof. unfold any_share. destruct (sh_p sh); naive_solver. Qed.

Lemma repeats_lookup l i j s :
  l !! i = Some s → l !! j = Some s → i ≠ j → s ∈ repeats l.
Proof.
  revert i j. induction l as [|x l IH]; intros [|i] [|j] Hi Hj Hne; try done; cbn [repeats].
  - injection Hi as ->. rewrite bool_decide_true by (by eapply list_elem_of_lookup_2). set_solver.
  - injection Hj as ->. rewrite bool_decide_true by (by eapply list_elem_of_lookup_2). set_solver.
  - apply elem_of_union_r, (IH i j); [done..|]. by intros ->.
Qed.

Lemma NoDup_filter_fmap {A} (R : gset Z) (f : A → Z) l :
  NoDup l → (∀ x y, x ∈ l → y ∈ l → f x = f y → x = y ∨ f x ∈ R) →
  NoDup (filter (λ s, s ∉ R) (f <$> l)).
Proof.
  induction 1 as [|x l Hx Hnd IH]; intros Hf; [constructor|]. cbn [fmap list_fmap].
  assert (NoDup (filter (λ s, s ∉ R) (f <$> l))) as Hl by (apply IH; set_solver).
  rewrite filter_cons. case_decide as HR; [|done]. constructor; [|done].
  rewrite list_elem_of_filter, list_elem_of_fmap. intros [_ (y & Hy & Hin)].
  destruct (Hf x y) as [->|?]; [set_solver..| |]; done.
Qed.

(** The erased members: all missing, and two of them are the same only if the
    group repeats it. *)
Lemma missing_members b seqs mi h R :
  classify b 0 seqs = (mi, h) → repeats seqs ⊆ R →
  NoDup (filter (λ s, s ∉ R) ((λ i, nth i seqs 0) <$> mi)) ∧ NoDup mi ∧
  (∀ i, i ∈ mi → nth i seqs 0 ∈ seqs ∧ member_state b (nth i seqs 0) = Missing).
Proof.
  intros Hc Hrep. pose proof (classify_spec b 0 seqs) as Hspec. rewrite Hc in Hspec.
  destruct Hspec as (Hmi & Hndmi & _).
  assert (∀ k, k ∈ mi → ∃ s, seqs !! k = Some s ∧
            member_state b s = Missing ∧ nth k seqs 0 = s) as Hk.
  { intros k (j & s & -> & Hj & Hm)%Hmi. exists s. split_and!; [done..|].
    cbn. by apply nth_lookup_Some with (d := 0) in Hj. }
  split_and!; [|done|].
  - apply NoDup_filter_fmap; [done|].
    intros x y (s & Hs & _ & E)%Hk (s' & Hs' & _ & E')%Hk Heq.
    destruct (decide (x = y)) as [|Hne]; [by left|right]. rewrite E. apply Hrep.
    eapply repeats_lookup; [exact Hs| |exact Hne]. rewrite Hs'. congruence.
  - intros i (s & Hs & Hm & ->)%Hk. split; [|done]. by eapply list_elem_of_lookup_2.
Qed.

(** The rebuilt members were all missing, hence not delivered before. *)
Lemma evaluate_inv now sh b b' ev D :
  evaluate now sh b = (b', ev) → shares_ok (highest_seq b) sh → seen_inv b D →
  same_groups b b' ∧
  match ev with
  | EvRecovered r =>
      seen_inv b' (list_to_set r.*1 ∪ D) ∧ NoDup (filter (λ s, s ∉ Rp) r.*1) ∧
      ∀ s, s ∈ r.*1 → member_state b s = Missing
  | _ => b' = b
  end.
Proof.
  intros [(-> & Hr & _)|(p & mi & w & pq & out & r & Ha & Hc & _ & _ & _ & Ho & Hd & ->)]%evaluate_cases
    Hok Hinv.
  { split; [done|]. destruct ev; naive_solver. }
  split; [by eapply deliver_frame|].
  apply any_share_in in Ha. destruct (Hok p Ha) as [Hnd Hle].
  destruct (missing_members _ _ _ _ Rp Hc Hnd) as (Hnd' & _ & Hm).
  apply solve_positions in Ho. subst mi.
  eapply deliver_inv in Hd as [Hr Hinv']; [|done|].
  2: { apply Forall_forall. intros k Hk. by apply Hle, Hm. }
  rewrite Hr. rewrite Hr in Hinv'. split_and!; [done..|].
  intros s (k & -> & Hk)%list_elem_of_fmap. by apply Hm.
Qed.

(** ** Parked groups *)

(** Every entry of the index leads to a parked group that waits for it. *)
Definition index_ok (b : FecRecoveryBuffer) : Prop :=
  ∀ s key, parked_by_seq b !! s = Some key →
  ∃ g, parked b !! key = Some g ∧ s ∈ pg_missing g.

Lemma remove_missing_lookup missing m s k :
  remove_missing missing m !! s = Some k ↔ m !! s = Some k ∧ s ∉ missing.
Proof.
  unfold remove_missing. revert m; induction missing as [|x l IH]; intros m; cbn [foldl].
  { set_solver. }
  rewrite IH, lookup_delete_Some, not_elem_of_cons. naive_solver.
Qed.

Lemma index_missing_lookup key missing (m : gmap Z Z) s k :
  foldl (λ m s, <[s := key]> m) m missing !! s = Some k →
  (k = key ∧ s ∈ missing) ∨ m !! s = Some k.
Proof.
  revert m; induction missing as [|x l IH]; intros m; cbn [foldl]; [auto|].
  intros [[-> ?]|[[-> ->]|[? ?]]%lookup_insert_Some]%IH; set_solver.
Qed.

Lemma drop_parked_index key b : index_ok b → index_ok (drop_parked key b).
Proof.
  intros H s k. unfold drop_parked.
  destruct (parked b !! key) as [g|] eqn:E; [|apply H]. cbn.
  intros [Hk Hs]%remove_missing_lookup. destruct (H s k Hk) as (g' & Hg' & Hin).
  exists g'. split; [|done]. apply lookup_delete_Some. split; [|done].
  intros <-. naive_solver.
Qed.

Lemma drop_parked_lookup key b k g :
  parked (drop_parked key b) !! k = Some g → parked b !! k = Some g ∧ k ≠ key.
Proof.
  unfold drop_parked. destruct (parked b !! key) as [g'|] eqn:E.
  - cbn. rewrite lookup_delete_Some. naive_solver.
  - intros H. split; [done|]. congruence.
Qed.

Lemma drop_parked_frame key b :
  same_seen b (drop_parked key b) ∧ late_recoveries (drop_parked key b) = late_recoveries b ∧
  parity_count (drop_parked key b) = parity_count b ∧
  payloads (drop_parked key b) = payloads b.
Proof. unfold drop_parked. by destruct (parked b !! key). Qed.

Lemma drop_parked_size key b :
  is_Some (parked b !! key) →
  S (size (parked (drop_parked key b))) = size (parked b).
Proof.
  intros [g Hg]. unfold drop_parked. rewrite Hg. cbn.
  rewrite map_size_delete, Hg.
  assert (size (parked b) ≠ O); [|lia].
  intros Hz%map_size_empty_inv. rewrite Hz, lookup_empty in Hg. done.
Qed.

Lemma min_by_key_in {A} (f : A → Z) best l : min_by_key f best l ∈ best :: l.
Proof.
  revert best; induction l as [|x l IH]; intros best; cbn [min_by_key]; [set_solver|].
  specialize (IH (if f x <? f best then x else best)).
  destruct (f x <? f best); set_solver.
Qed.

Section parking.
Context `{!HashIter}.

Lemma hash_iter_elem {A} (m : gmap Z A) k x : (k, x) ∈ hash_iter m ↔ m !! k = Some x.
Proof. by rewrite hash_iter_perm, elem_of_map_to_list. Qed.

(** The eviction of [park]: the oldest group goes when 512 are parked. *)
Definition make_room (b : FecRecoveryBuffer) : FecRecoveryBuffer :=
  if bool_decide (MAX_PARKED_GROUPS ≤ size (parked b))%nat then
    match hash_iter (parked b) with
    | [] => b
    | e :: l => bump_given_up (drop_parked (min_by_key (λ kg, pg_at kg.2) e l).1 b)
    end
  else b.

Lemma park_room now key sh missing b :
  park now key sh missing b =
  set_parked (<[key := mkParked now sh missing]> (parked (make_room b)))
    (foldl (λ m s, <[s := key]> m) (parked_by_seq (make_room b)) missing) (make_room b).
Proof. done. Qed.

Lemma make_room_spec b :
  same_seen b (make_room b) ∧ late_recoveries (make_room b) = late_recoveries b ∧
  parity_count (make_room b) = parity_count b ∧ payloads (make_room b) = payloads b ∧
  (∀ k g, parked (make_room b) !! k = Some g → parked b !! k = Some g) ∧
  (index_ok b → index_ok (make_room b)) ∧
  ((size (parked b) ≤ MAX_PARKED_GROUPS)%nat → (0 < MAX_PARKED_GROUPS)%nat →
     (size (parked (make_room b)) < MAX_PARKED_GROUPS)%nat).
Proof.
  unfold make_room. case_bool_decide; [|by split_and!; try lia].
  destruct (hash_iter (parked b)) as [|e l] eqn:E.
  - split_and!; try done. intros Hle Hpos.
    assert (parked b = ∅) as Hz.
    { apply map_to_list_empty_iff, Permutation_nil_r. by rewrite <- E, hash_iter_perm. }
    rewrite Hz, map_size_empty in *. lia.
  - set (k := (min_by_key _ e l).1).
    assert (is_Some (parked b !! k)) as Hk.
    { pose proof (min_by_key_in (λ kg : Z * ParkedGroup, pg_at kg.2) e l) as Hin.
      rewrite <- E in Hin. fold k in Hin. destruct (min_by_key _ e l) as [k' g'] eqn:Em.
      apply hash_iter_elem in Hin. by exists g'. }
    destruct (drop_parked_frame k b) as (? & ? & ? & ?).
    split_and!; try done.
    + intros k' g' Hg. by apply (drop_parked_lookup k b).
    + intros Hi s' k'. apply (drop_parked_index k b Hi).
    + intros Hle _. pose proof (drop_parked_size k b Hk). cbn. lia.
Qed.

(** Parking in a buffer with room. *)
Definition park_in (now key : Z) (sh : ShareSet) (missing : list Z) (b : FecRecoveryBuffer)
    : FecRecoveryBuffer :=
  set_parked (<[key := mkParked now sh missing]> (parked b))
    (foldl (λ m s, <[s := key]> m) (parked_by_seq b) missing) b.

Lemma park_in_index now key sh missing b :
  parked b !! key = None → index_ok b → index_ok (park_in now key sh missing b).
Proof.
  intros Hnone Hb s k. unfold park_in. cbn [parked parked_by_seq set_parked].
  intros [[-> Hin]|Hs']%index_missing_lookup.
  - exists (mkParked now sh missing). by rewrite lookup_insert_eq.
  - destruct (Hb s k Hs') as (g & Hg & Hin). exists g. split; [|done].
    rewrite lookup_insert_ne; [done|]. congruence.
Qed.

Lemma park_spec now key sh missing b :
  same_seen b (park now key sh missing b) ∧
  late_recoveries (park now key sh missing b) = late_recoveries b ∧
  parity_count (park now key sh missing b) = parity_count b ∧
  (∀ k g, parked (park now key sh missing b) !! k = Some g →
     (k = key ∧ g = mkParked now sh missing) ∨ parked b !! k = Some g) ∧
  (parked b !! key = None → index_ok b → index_ok (park now key sh missing b)).
Proof.
  destruct (make_room_spec b) as (Hs & Hl & Hp & _ & Hk & Hi & _).
  rewrite park_room. fold (park_in now key sh missing (make_room b)).
  revert Hs Hl Hp Hk Hi. generalize (make_room b). intros b0 Hs Hl Hp Hk Hi.
  split_and!; [exact Hs|exact Hl|exact Hp| |].
  - unfold park_in. cbn [parked set_parked].
    intros k g [[<- <-]|[Hne Hg]]%lookup_insert_Some; [by left|right; auto].
  - intros Hnone Hb. apply park_in_index; [|auto].
    apply eq_None_not_Some. intros [g Hg%Hk]. congruence.
Qed.

End parking.

(** ** Preservation *)

Record fec_inv (b : FecRecoveryBuffer) (D : gset Z) : Prop := {
  fi_seen : seen_inv b D;
  fi_index : index_ok b;
  fi_missing : map_Forall (λ _ g, (length (pg_missing g) ≤ 2)%nat) (parked b);
  fi_parked : (size (parked b) ≤ MAX_PARKED_GROUPS)%nat }.

(** An update that leaves the groups alone. *)
Lemma fec_inv_groups b b' D D' :
  same_groups b b' → seen_inv b' D' → fec_inv b D → fec_inv b' D'.
Proof.
  intros (_ & Hp & Hi & _ & Hc) Hs []. split; [done|..].
  - intros s k. rewrite Hi, Hp. apply fi_index0.
  - by rewrite Hp.
  - by rewrite Hp.
Qed.

(** Emptying the reports. *)
Lemma fec_inv_groups_reports b late n D :
  fec_inv b D → fec_inv (set_reports late n b) D.
Proof.
  intros []. split; try done. apply (seen_inv_same b); [done|apply fi_seen0|done].
Qed.

Definition unpark (key : Z) (g : ParkedGroup) (b : FecRecoveryBuffer) : FecRecoveryBuffer :=
  set_parked (delete key (parked b)) (remove_missing (pg_missing g) (parked_by_seq b)) b.

Lemma unpark_inv key g b D :
  parked b !! key = Some g → fec_inv b D →
  fec_inv (unpark key g b) D ∧ shares_ok (highest_seq b) (pg_shares g) ∧
  parked (unpark key g b) !! key = None.
Proof.
  intros Hg []. split_and!.
  - split.
    + apply (seen_inv_same b); [done| |done]. cbn.
      apply map_Forall_delete, fi_seen0.
    + pose proof (drop_parked_index key b fi_index0) as Hd.
      unfold drop_parked in Hd. by rewrite Hg in Hd.
    + cbn. by apply map_Forall_delete.
    + cbn. rewrite map_size_delete, Hg. lia.
  - apply (inv_parked _ _ fi_seen0 key g Hg).
  - cbn. apply lookup_delete_eq.
Qed.

Lemma drop_parked_inv key b D : fec_inv b D → fec_inv (drop_parked key b) D.
Proof.
  intros H. unfold drop_parked. destruct (parked b !! key) as [g|] eqn:E; [|done].
  by apply (unpark_inv key g b D E).
Qed.

Lemma bump_inv b D : fec_inv b D → fec_inv (bump_given_up b) D.
Proof.
  intros []. split; try done. apply (seen_inv_same b); [done|apply fi_seen0|done].
Qed.

Section rechecking.
Context `{!HashIter}.

Lemma max_parked_pos : (0 < MAX_PARKED_GROUPS)%nat.
Proof. apply Nat.ltb_lt. by vm_compute. Qed.

Lemma park_inv now key sh missing b D :
  parked b !! key = None → shares_ok (highest_seq b) sh → (length missing ≤ 2)%nat →
  fec_inv b D → fec_inv (park now key sh missing b) D.
Proof.
  intros Hk Hok Hpc []. destruct (park_spec now key sh missing b) as (Hs & _ & Hc & Hg & Hi).
  split.
  - apply (seen_inv_same b); [done| |done]. intros k g [[-> ->]|Hin]%Hg; [exact Hok|].
    by apply (inv_parked _ _ fi_seen0 k).
  - by apply Hi.
  - intros k g [[-> ->]|Hin]%Hg; [exact Hpc|]. by apply (fi_missing0 k).
  - rewrite park_room. cbn. rewrite map_size_insert.
    destruct (make_room_spec b) as (_ & _ & _ & _ & _ & _ & Hm).
    specialize (Hm fi_parked0 max_parked_pos). case_match; unfold id; lia.
Qed.

(** Evaluating the shares of a group that has been taken out of the parked
    ones, and parking it again if it still needs more. *)
Lemma evaluate_core now sh b b' ev D :
  evaluate now sh b = (b', ev) → shares_ok (highest_seq b) sh → fec_inv b D →
  fec_inv b' (list_to_set (match ev with EvRecovered r => r.*1 | _ => [] end) ∪ D) ∧
  same_groups b b' ∧
  match ev with
  | EvRecovered r => NoDup (filter (λ s, s ∉ Rp) r.*1) ∧ ∀ s, s ∈ r.*1 → ¬ accounted b s
  | EvNeedMore l => b' = b ∧ (length l ≤ 2)%nat
  | _ => True
  end.
Proof.
  intros He Hok Hinv.
  destruct (evaluate_inv _ _ _ _ _ D He Hok (fi_seen _ _ Hinv)) as [Hg Hev].
  split_and!; [|done|].
  - apply (fec_inv_groups b b' D); [done| |done].
    destruct ev; try (subst b'; cbn; rewrite union_empty_l_L; apply Hinv). apply Hev.
  - destruct ev as [r| | |l]; try done.
    + destruct Hev as (_ & ? & Hm). split; [done|].
      intros s Hs. by apply missing_not_accounted, Hm.
    + split; [done|].
      apply evaluate_cases in He as [(_ & _ & Hneed)|(?&?&?&?&?&?&_&_&_&_&_&_&_&?)]; [|done].
      destruct (Hneed l eq_refl). lia.
Qed.

Lemma unindex_inv seq b D :
  fec_inv b D → fec_inv (set_parked (parked b) (delete seq (parked_by_seq b)) b) D.
Proof.
  intros []. split; [|intros s k; cbn|done..].
  - apply (seen_inv_same b); [done|apply fi_seen0|done].
  - rewrite lookup_delete_Some. intros [_ Hs]. by apply fi_index0.
Qed.

(** [g.at = at] on a group just parked again. *)
Definition retime (at_ key : Z) (b : FecRecoveryBuffer) : FecRecoveryBuffer :=
  match parked b !! key with
  | Some g' => set_parked (<[key := mkParked at_ (pg_shares g') (pg_missing g')]> (parked b))
                 (parked_by_seq b) b
  | None => b
  end.

Lemma retime_inv at_ key b D : fec_inv b D → fec_inv (retime at_ key b) D.
Proof.
  intros Hinv. unfold retime. destruct (parked b !! key) as [g'|] eqn:Eg'; [|done].
  destruct Hinv. split.
  - apply (seen_inv_same b); [done| |done]. cbn [parked set_parked].
    apply map_Forall_insert_2; [|apply fi_seen0].
    apply (inv_parked _ _ fi_seen0 key g' Eg').
  - intros s k Hs. destruct (fi_index0 s k Hs) as (g0 & Hg0 & Hin). cbn [parked set_parked].
    destruct (decide (k = key)) as [->|].
    + rewrite lookup_insert_eq. eexists; split; [done|]. cbn. congruence.
    + rewrite lookup_insert_ne by done. eauto.
  - cbn [parked set_parked]. apply map_Forall_insert_2; [|done]. apply (fi_missing0 key g' Eg').
  - cbn [parked set_parked]. rewrite map_size_insert, Eg'. done.
Qed.

Lemma recheck_eq now seq key g b :
  parked_by_seq b !! seq = Some key → parked b !! key = Some g →
  let b1 := set_parked (parked b) (delete seq (parked_by_seq b)) b in
  recheck_parked_for now seq b =
  match evaluate now (pg_shares g) (unpark key g b1) with
  | (b, EvRecovered r) => set_reports (late_recoveries b ++ r) (given_up b) b
  | (b, EvAlreadyComplete) => b
  | (b, EvUnrecoverable) => bump_given_up b
  | (b, EvNeedMore missing) => retime (pg_at g) key (park now key (pg_shares g) missing b)
  end.
Proof.
  intros Hk Hg b1. unfold recheck_parked_for, retime. rewrite Hk. cbv zeta. fold b1.
  assert (parked b1 !! key = Some g) as -> by exact Hg. done.
Qed.

Lemma recheck_inv now seq b b' D :
  recheck_parked_for now seq b = b' → fec_inv b D →
  ∃ r, late_recoveries b' = late_recoveries b ++ r ∧ fec_inv b' (list_to_set r.*1 ∪ D) ∧
       NoDup (filter (λ s, s ∉ Rp) r.*1) ∧ ∀ s, s ∈ r.*1 → ¬ accounted b s.
Proof.
  assert (∀ b', fec_inv b' D → late_recoveries b' = late_recoveries b →
    ∃ r, late_recoveries b' = late_recoveries b ++ r ∧ fec_inv b' (list_to_set r.*1 ∪ D) ∧
       NoDup (filter (λ s, s ∉ Rp) r.*1) ∧ ∀ s, s ∈ r.*1 → ¬ accounted b s) as Hnone.
  { intros b1 Hb ->. exists []. cbn. rewrite app_nil_r, union_empty_l_L.
    split_and!; [done..|constructor|set_solver]. }
  intros <- Hinv.
  destruct (parked_by_seq b !! seq) as [key|] eqn:Ekey.
  2: { unfold recheck_parked_for. rewrite Ekey. by apply Hnone. }
  destruct (fi_index _ _ Hinv seq key Ekey) as (g & Eg & _).
  rewrite (recheck_eq now seq key g b Ekey Eg).
  pose proof (unindex_inv seq b D Hinv) as Hinv1.
  set (b1 := set_parked (parked b) (delete seq (parked_by_seq b)) b) in *.
  destruct (unpark_inv key g b1 D Eg Hinv1) as (Hinv2 & Hok & Hfree).
  assert (late_recoveries (unpark key g b1) = late_recoveries b ∧
          (∀ s, accounted (unpark key g b1) s ↔ accounted b s) ∧
          highest_seq (unpark key g b1) = highest_seq b1)
    as (Hl2 & Ha2 & Hh2) by done.
  rewrite <- Hh2 in Hok. revert Hinv2 Hok Hfree Hl2 Ha2.
  generalize (unpark key g b1). intros b2 Hinv2 Hok Hfree Hl2 Ha2.
  destruct (evaluate now (pg_shares g) b2) as [b3 ev] eqn:Ev.
  eapply evaluate_core in Ev as (Hinv3 & (_ & Hp & _ & Hl & _) & Hev); [|done..].
  destruct ev as [r| | |missing].
  - exists r. cbn [late_recoveries set_reports]. rewrite Hl, Hl2.
    split_and!; [done|by apply fec_inv_groups_reports|naive_solver..].
  - apply Hnone; [|congruence]. cbn in Hinv3. by rewrite union_empty_l_L in Hinv3.
  - apply Hnone; [|cbn; congruence]. cbn in Hinv3. rewrite union_empty_l_L in Hinv3.
    by apply bump_inv.
  - destruct Hev as [-> Hpc].
    destruct (park_spec now key (pg_shares g) missing b2) as (_ & Hl4 & _ & _ & _).
    pose proof (park_inv now key (pg_shares g) missing b2 D Hfree Hok Hpc Hinv2) as Hinv4.
    revert Hl4 Hinv4. generalize (park now key (pg_shares g) missing b2). intros b4 Hl4 Hinv4.
    apply Hnone; [by apply retime_inv|]. rewrite <- Hl2, <- Hl4. unfold retime.
    by destruct (parked b4 !! key).
Qed.

End rechecking.
End invariant.

Section preservation.
Context `{!HashIter}.

Lemma shares_ok_mono St Rp Rp' high sh :
  Rp ⊆ Rp' → shares_ok St Rp high sh → shares_ok St Rp' high sh.
Proof. intros Hsub Hok p Hp. destruct (Hok p Hp) as [Hr Hs]. split; [set_solver|done]. Qed.

Lemma fec_inv_mono St Rp Rp' b D : Rp ⊆ Rp' → fec_inv St Rp b D → fec_inv St Rp' b D.
Proof.
  intros Hsub [[] Hi Hm Hp]. split; try done. split; try done.
  eapply map_Forall_impl; [exact inv_parked0|]. intros k g Hg. exact (shares_ok_mono _ Rp Rp' _ _ Hsub Hg).
Qed.

Lemma parked_members_ok Rp b high key g :
  parked b !! key = Some g → (∀ p, sh_p (pg_shares g) = Some p ∨ sh_q (pg_shares g) = Some p →
    repeats (member_seqs p) ⊆ Rp) → group_ok (parked_members b) Rp high g.
Proof.
  intros Hg Hrep p Hp. split; [by apply Hrep|]. intros s Hs. right.
  unfold parked_members. apply elem_of_list_to_set, list_elem_of_bind. exists (key, g).
  split; [|by apply elem_of_map_to_list]. unfold share_members. cbn.
  destruct Hp as [->| ->]; cbn; set_solver.
Qed.

Definition reset_on (b : FecRecoveryBuffer) (s : Z) : bool :=
  negb (highest_seq b <? s) && (SEQ_RESET_GAP <=? sat_sub (highest_seq b) s).

Lemma note_seq_frame s b :
  parked (note_seq s b) = parked b ∧ parked_by_seq (note_seq s b) = parked_by_seq b ∧
  late_recoveries (note_seq s b) = late_recoveries b ∧
  parity_count (note_seq s b) = parity_count b.
Proof. unfold note_seq. destruct (_ <? _); [done|]. by destruct (_ <=? _). Qed.

(** A restart forgets what was delivered; the groups it leaves parked are
    stale from then on. *)
Definition stale_noting (b : FecRecoveryBuffer) (s : Z) (St : gset Z) : gset Z :=
  if reset_on b s then parked_members b else St.

Lemma note_seq_inv St Rp s b D :
  seen_inv St Rp b D →
  seen_inv (stale_noting b s St) Rp (note_seq s b) (if reset_on b s then ∅ else D).
Proof.
  intros Hinv. unfold note_seq, stale_noting, reset_on.
  destruct (Z.ltb_spec (highest_seq b) s); cbn [negb andb] in *.
  - destruct Hinv. split; unfold accounted; cbn; try done.
    + intros s' [?|?]%inv_current0; [left; lia|by right].
    + intros h Hh. specialize (inv_rotation0 h Hh). lia.
    + eapply map_Forall_impl; [done|]. intros k g. apply group_ok_mono. lia.
  - destruct (_ <=? _); [|done].
    split; unfold accounted; cbn; try done; try set_solver.
    intros key g Hg. apply (parked_members_ok _ _ _ key); [done|].
    intros p Hp. by apply (inv_parked _ _ _ _ Hinv key g Hg p Hp).
Qed.

Lemma note_seq_core St Rp s b D :
  fec_inv St Rp b D →
  fec_inv (stale_noting b s St) Rp (note_seq s b) (if reset_on b s then ∅ else D).
Proof.
  intros []. destruct (note_seq_frame s b) as (Hp & Hi & _ & Hc). split.
  - by apply note_seq_inv.
  - intros x k. rewrite Hi, Hp. apply fi_index0.
  - by rewrite Hp.
  - by rewrite Hp.
Qed.

Lemma fresh_accounted now seq d b :
  accounted (insert_payload now seq d (mark_seen now seq b)) seq.
Proof.
  destruct (insert_payload_eq now seq d (mark_seen now seq b)) as (p & o & ->).
  unfold accounted. cbn. unfold mark_seen. case_bool_decide; cbn; set_solver.
Qed.

Lemma observe_core St0 Rp now seq d b b' fresh D :
  observe_data now seq d b = (b', fresh) → late_recoveries b = [] → fec_inv St0 Rp b D →
  let D' := if reset_on b seq then ∅ else D in
  let St := stale_noting b seq St0 in
  (fresh = false → late_recoveries b' = [] ∧ fec_inv St Rp b' D') ∧
  (fresh = true →
     (seq ∈ D' → seq ∈ St ∨ ∃ fl, seen_floor b = Some fl ∧ seq ≤ fl) ∧
     NoDup (filter (λ s, s ∉ Rp) (late_recoveries b').*1) ∧
     (∀ s, s ∈ (late_recoveries b').*1 → (s ∈ D' → s ∈ St) ∧ s ≠ seq) ∧
     fec_inv St Rp b' (list_to_set (late_recoveries b').*1 ∪ ({[seq]} ∪ D'))).
Proof.
  intros Ho Hlate Hinv D' St.
  pose proof (note_seq_core St0 Rp seq b D Hinv) as Hinv1. fold D' St in Hinv1.
  destruct (note_seq_frame seq b) as (_ & _ & Hl1 & _). rewrite Hlate in Hl1.
  assert (∀ fl, seen_floor (note_seq seq b) = Some fl → seen_floor b = Some fl) as Hfl.
  { unfold note_seq. destruct (_ <? _); [done|]. by destruct (_ <=? _). }
  pose proof (note_seq_high seq b) as Hhigh.
  unfold observe_data in Ho. clearbody St. set (b1 := note_seq seq b) in *. clearbody b1.
  destruct (_ || _) eqn:Eseen; [injection Ho as <- <-; naive_solver|].
  apply orb_false_iff in Eseen as [Hcur%bool_decide_eq_false Hprev%bool_decide_eq_false].
  pose proof (fresh_accounted now seq d b1) as Hseq.
  set (b2 := insert_payload now seq d (mark_seen now seq b1)) in *.
  pose proof (deliver_step_frame now seq d b1) as Hg. fold b2 in Hg.
  assert (fec_inv St Rp b2 ({[seq]} ∪ D')) as Hinv2.
  { eapply fec_inv_groups; [done| |done].
    apply insert_payload_inv, mark_seen_inv; [apply Hinv1|by left]. }
  assert (∃ r, late_recoveries b' = [] ++ r ∧
       fec_inv St Rp b' (list_to_set r.*1 ∪ ({[seq]} ∪ D')) ∧
       NoDup (filter (λ s, s ∉ Rp) r.*1) ∧ ∀ s, s ∈ r.*1 → ¬ accounted b2 s)
    as (r & Hlr & Hinv3 & Hnd & Hacc).
  { destruct Hg as (_ & _ & _ & Hl2 & _). rewrite <- Hl1, <- Hl2.
    case_bool_decide; injection Ho as <- <-; [|by eapply recheck_inv].
    exists []. cbn. rewrite app_nil_r, union_empty_l_L. split_and!; [done..|constructor|set_solver]. }
  cbn in Hlr. subst r.
  assert (fresh = true) as -> by by case_bool_decide; injection Ho as _ <-.
  split; [done|]. intros _. split_and!; [|done| |done].
  - intros Hin. apply (inv_delivered _ _ _ _ (fi_seen _ _ _ _ Hinv1)) in Hin
      as [?|[?|[?|(fl & ? & ?)]]]; [by left|done..|]. eauto.
  - intros s Hs. specialize (Hacc s Hs). split; [|by intros ->].
    intros Hin. apply (elem_of_union_r _ {[seq]}) in Hin.
    by destruct (inv_delivered _ _ _ _ (fi_seen _ _ _ _ Hinv2) s Hin).
Qed.

Lemma list_max_ge x l s : s ∈ x :: l → s ≤ list_max x l.
Proof.
  unfold list_max.
  assert (∀ l x, x ≤ fold_left Z.max l x) as Hx.
  { clear. induction l as [|y l IH]; intros x; cbn [fold_left]; [lia|].
    specialize (IH (Z.max x y)). lia. }
  revert x; induction l as [|y l IH]; intros x; cbn [fold_left].
  - intros ->%list_elem_of_singleton. lia.
  - specialize (Hx l (Z.max x y)).
    intros [->|[->|Hs]%elem_of_cons]%elem_of_cons; [lia..|].
    apply IH. by apply elem_of_cons; right.
Qed.

(** Taking the parked group of a share's key, if there is one. *)
Definition take_parked (key : Z) (b : FecRecoveryBuffer) : FecRecoveryBuffer * ShareSet :=
  match parked b !! key with
  | Some g => (unpark key g b, pg_shares g)
  | None => (b, mkShares None None)
  end.

Lemma take_parked_inv St Rp key b D :
  fec_inv St Rp b D →
  fec_inv St Rp (take_parked key b).1 D ∧
  shares_ok St Rp (highest_seq b) (take_parked key b).2 ∧
  parked (take_parked key b).1 !! key = None ∧
  highest_seq (take_parked key b).1 = highest_seq b ∧
  late_recoveries (take_parked key b).1 = late_recoveries b ∧
  (∀ s, accounted (take_parked key b).1 s ↔ accounted b s).
Proof.
  intros Hinv. unfold take_parked. destruct (parked b !! key) as [g|] eqn:E.
  - destruct (unpark_inv St Rp key g b D E Hinv) as (? & ? & ?). by split_and!.
  - split_and!; try done. intros p [H'|H']; done.
Qed.

Lemma add_share_ok St Rp kind p sh high :
  shares_ok St Rp high sh → repeats (member_seqs p) ⊆ Rp →
  (∀ s, s ∈ member_seqs p → s ≤ high) → shares_ok St Rp high (add_share kind p sh).
Proof.
  intros Hok Hnd Hle p'. destruct kind; cbn; intros [Hp|Hp]; simplify_eq; auto.
Qed.

Lemma try_recover_eq now kind p key rest b :
  member_seqs p = key :: rest → length (member_seqs p) = length (member_lens p) →
  try_recover now kind p b =
  let '(b, sh) := take_parked key (note_seq (list_max key rest) b) in
  let sh := add_share kind p sh in
  match evaluate now sh b with
  | (b, EvRecovered r) => (b, Recovered r)
  | (b, EvAlreadyComplete) => (b, AlreadyComplete)
  | (b, EvUnrecoverable) => (b, Unrecoverable)
  | (b, EvNeedMore missing) => (park now key sh missing b, Pending)
  end.
Proof.
  intros Hs Hl. unfold try_recover, take_parked. rewrite Hl. rewrite Hs.
  rewrite bool_decide_false by (by intros []). cbv zeta. by destruct (parked _ !! key).
Qed.

Lemma try_recover_noop now kind p b :
  noted (RxParity now kind p) = None → try_recover now kind p b = (b, Unrecoverable).
Proof.
  unfold noted, try_recover. destruct (member_seqs p) as [|key rest] eqn:E; [done|].
  rewrite <- E. case_bool_decide; [done|]. by rewrite bool_decide_true.
Qed.

Lemma noted_some now kind p top :
  noted (RxParity now kind p) = Some top →
  ∃ key rest, member_seqs p = key :: rest ∧ top = list_max key rest ∧
              length (member_seqs p) = length (member_lens p).
Proof.
  unfold noted. case_bool_decide as Hlen; [|done].
  destruct (member_seqs p) as [|key rest]; [done|]. intros [= <-]. eauto.
Qed.

Lemma try_recover_core St0 Rp now kind p b b' oc D :
  try_recover now kind p b = (b', oc) → repeats (member_seqs p) ⊆ Rp → fec_inv St0 Rp b D →
  let op := RxParity now kind p in
  let D' := if resets b op then ∅ else D in
  let St := if resets b op then parked_members b else St0 in
  let r := match oc with Recovered r => r | _ => [] end in
  late_recoveries b' = late_recoveries b ∧ NoDup (filter (λ s, s ∉ Rp) r.*1) ∧
  (∀ s, s ∈ r.*1 → s ∈ D' → s ∈ St) ∧ fec_inv St Rp b' (list_to_set r.*1 ∪ D').
Proof.
  intros Ht Hrep Hinv op D' St r. unfold resets in *.
  destruct (noted op) as [top|] eqn:En.
  2: { rewrite try_recover_noop in Ht by done. injection Ht as <- <-. subst r D'. cbn.
       rewrite union_empty_l_L. split_and!; [done|constructor|set_solver|done]. }
  apply noted_some in En as (key & rest & Hs & Htop & Hlen).
  fold (reset_on b top) in D', St. rewrite (try_recover_eq _ _ _ _ _ _ Hs Hlen) in Ht.
  pose proof (note_seq_core St0 Rp top b D Hinv) as Hinv1.
  fold (stale_noting b top St0) in St. fold D' St in Hinv1. clearbody St.
  destruct (note_seq_frame top b) as (_ & _ & Hl1 & _).
  pose proof (note_seq_high top b) as Hhigh. rewrite <- Htop in Ht. rewrite <- Hl1.
  set (b1 := note_seq top b) in *. clearbody b1.
  destruct (take_parked_inv St Rp key b1 D' Hinv1) as (Hinv2 & Hok & Hfree & Hh & Hl2 & Hacc).
  destruct (take_parked key b1) as [b2 sh]. cbn [fst snd] in *.
  assert (shares_ok St Rp (highest_seq b2) (add_share kind p sh)) as Hok2.
  { apply add_share_ok; [by rewrite Hh|done|]. rewrite Hs, Hh. intros s Hin%list_max_ge. lia. }
  rewrite <- Hl2. destruct (evaluate now (add_share kind p sh) b2) as [b3 ev] eqn:Ev.
  eapply evaluate_core in Ev as (Hinv3 & (_ & _ & _ & Hl3 & _) & Hev); [|done..].
  destruct ev as [rec| | |missing]; injection Ht as <- <-; subst r; cbn in *;
    rewrite ?union_empty_l_L in *.
  - destruct Hev as [Hnd' Hnot]. split_and!; [done..| |done].
    intros s Hin Hd.
    by destruct (inv_delivered _ _ _ _ (fi_seen _ _ _ _ Hinv2) s Hd) as [?|?%Hnot].
  - split_and!; [done|constructor|set_solver|done].
  - split_and!; [done|constructor|set_solver|done].
  - destruct Hev as [-> Hpc]. split_and!; [|constructor|set_solver|by apply park_inv].
    by destruct (park_spec now key (add_share kind p sh) missing b2) as (_ & ? & _).
Qed.

Section expiring.
Context (St Rp : gset Z).
Local Notation fec_inv := (fec_inv St Rp).

Lemma foldl_drop_inv keys b D :
  fec_inv b D →
  fec_inv (foldl (λ b key, bump_given_up (drop_parked key b)) b keys) D ∧
  late_recoveries (foldl (λ b key, bump_given_up (drop_parked key b)) b keys)
  = late_recoveries b.
Proof.
  revert b; induction keys as [|k keys IH]; intros b Hinv; cbn [foldl]; [done|].
  destruct (IH (bump_given_up (drop_parked k b))) as [Hi ->].
  { by apply bump_inv, drop_parked_inv. }
  split; [done|]. cbn. apply drop_parked_frame.
Qed.

Lemma tick_core now b D :
  fec_inv b D →
  fec_inv (tick now b).1 D ∧ late_recoveries (tick now b).1 = late_recoveries b.
Proof.
  intros Hinv. unfold tick. destruct (expire _ _ _ _) as [p o]. cbv zeta.
  set (b1 := set_payloads p o b).
  assert (fec_inv b1 D) as Hinv1.
  { apply (fec_inv_groups St Rp b _ D); [done| |done].
    apply (seen_inv_same St Rp b); [done|apply Hinv|apply Hinv]. }
  assert (∃ b2, fec_inv b2 D ∧ late_recoveries b2 = late_recoveries b ∧
    (if bool_decide (parked b1 = ∅) then b1 else
      foldl (λ b key, bump_given_up (drop_parked key b)) b1
        (fst <$> filter (λ kg, payload_ttl b1 ≤ sat_sub now (pg_at kg.2))
                   (hash_iter (parked b1)))) = b2) as (b2 & Hinv2 & Hl2 & ->).
  { case_bool_decide; eexists; [done|].
    destruct (foldl_drop_inv (fst <$> filter (λ kg, payload_ttl b1 ≤ sat_sub now (pg_at kg.2))
                   (hash_iter (parked b1))) b1 D Hinv1) as [Hi Hl].
    by rewrite Hl. }
  assert (∀ b3, fec_inv b3 D → late_recoveries b3 = late_recoveries b →
     fec_inv (set_reports (late_recoveries b3) 0 b3) D ∧
     late_recoveries (set_reports (late_recoveries b3) 0 b3) = late_recoveries b) as Hrep.
  { intros b3 [] Hl. split; [|done]. split; try done.
    by apply (seen_inv_same St Rp b3); [|apply fi_seen0|]. }
  apply Hrep; destruct (_ <=? _); try done.
  apply (fec_inv_groups St Rp b2 _ D); [done| |done]. apply rotate_inv, Hinv2.
Qed.
End expiring.

Lemma rebuilt_seqs r : event_seq <$> rebuilt r = r.*1.
Proof. unfold rebuilt. rewrite <- list_fmap_compose. by apply list_fmap_ext. Qed.

Lemma elem_of_rebuilt e r :
  e ∈ rebuilt r → ∃ s d, e = Rebuilt s d ∧ s ∈ r.*1.
Proof.
  intros ([s d] & -> & Hin)%list_elem_of_fmap. exists s, d. split; [done|].
  apply list_elem_of_fmap. by exists (s, d).
Qed.

(** What a step may hand on, given what has been delivered and which frames
    are of stale groups or repeated in theirs. *)
Definition step_ok (b : FecRecoveryBuffer) (D St Rp : gset Z) (evs : list fec_event) : Prop :=
  NoDup (filter (λ s, s ∉ Rp) (event_seq <$> evs)) ∧
  (∀ s d, Rebuilt s d ∈ evs → s ∈ D → s ∈ St) ∧
  (∀ s d, Direct s d ∈ evs → s ∈ D → s ∈ St ∨ ∃ fl, seen_floor b = Some fl ∧ s ≤ fl).

Lemma data_safe now seq d b h b' evs :
  fec_inv (stale h) (repeated h) b (delivered h) → late_recoveries b = [] →
  fec_step b (RxData now seq d) = (b', evs) →
  let op := RxData now seq d in
  fec_inv (stale_after b op h) (repeated h) b'
    (list_to_set (event_seq <$> evs) ∪ since_restart b op h) ∧
  late_recoveries b' = [] ∧
  step_ok b (since_restart b op h) (stale_after b op h) (repeated h) evs.
Proof.
  intros Hinv Hl Hstep op. cbn in Hstep.
  destruct (observe_data now seq d b) as [b1 fresh] eqn:Eo.
  apply (observe_core (stale h) (repeated h) _ _ _ _ _ _ (delivered h)) in Eo as [Hno Hyes]; [|done..].
  change (if reset_on b seq then ∅ else delivered h) with (since_restart b op h) in *.
  change (stale_noting b seq (stale h)) with (stale_after b op h) in *.
  set (D' := since_restart b op h) in *. set (St := stale_after b op h) in *. clearbody D' St.
  assert ((if has_late_recoveries b1 then take_late_recoveries b1 else (b1, [])) =
          (set_reports [] (given_up b1) b1, late_recoveries b1)) as E.
  { unfold has_late_recoveries, take_late_recoveries. case_bool_decide as Hn; [done|].
    rewrite Hn. destruct b1; cbn in *. by rewrite Hn. }
  rewrite E in Hstep. injection Hstep as <- <-.
  assert (∀ X, fec_inv St (repeated h) b1 X →
            fec_inv St (repeated h) (set_reports [] (given_up b1) b1) X) as Hset.
  { intros X HX. by apply fec_inv_groups_reports. }
  destruct fresh.
  - destruct Hyes as (Hfl & Hnd & Hnew & Hinv'); [done|]. split_and!; [|done|].
    + cbn [app fmap list_fmap event_seq]. rewrite rebuilt_seqs. cbn [list_to_set].
      rewrite <- (assoc_L (∪)), (comm_L (∪) {[seq]}), <- (assoc_L (∪)),
        (comm_L (∪) D'). by apply Hset.
    + split_and!; cbn [app].
      * cbn [fmap list_fmap event_seq]. rewrite rebuilt_seqs, filter_cons.
        case_decide; [|done]. constructor; [|done].
        intros [_ Hin]%list_elem_of_filter. by apply Hnew in Hin as [_ ?].
      * intros s d' [?|(? & ? & [= <- <-] & Hin)%elem_of_rebuilt]%elem_of_cons; [done|].
        by apply Hnew.
      * intros s d' [[= -> ->]|(? & ? & ? & _)%elem_of_rebuilt]%elem_of_cons; [auto|done].
  - destruct Hno as [-> Hinv']; [done|]. cbn. rewrite union_empty_l_L.
    split_and!; [by apply Hset|done|]. split_and!; [constructor|set_solver..].
Qed.

Lemma step_safe b h op b' evs :
  fec_inv (stale h) (repeated h) b (delivered h) → late_recoveries b = [] →
  fec_step b op = (b', evs) →
  let h' := history_step b op evs h in
  fec_inv (stale h') (repeated h') b' (delivered h') ∧ late_recoveries b' = [] ∧
  step_ok b (since_restart b op h) (stale h') (repeated h') evs.
Proof.
  intros Hinv Hl Hstep. cbn [history_step stale repeated delivered].
  destruct op as [now seq d|now kind p|now].
  - unfold repeated_after. rewrite union_empty_l_L. by apply data_safe.
  - cbn in Hstep. destruct (try_recover now kind p b) as [b1 oc] eqn:Et.
    set (Rp := repeated_after (RxParity now kind p) h).
    assert (repeats (member_seqs p) ⊆ Rp ∧ repeated h ⊆ Rp) as [Hp1 Hp2].
    { unfold Rp, repeated_after. set_solver. }
    apply (fec_inv_mono _ _ Rp) in Hinv; [|done].
    apply (try_recover_core (stale h) Rp _ _ _ _ _ _ (delivered h)) in Et
      as (Hl1 & Hnd & Hnew & Hinv'); [|done..].
    change (if resets b (RxParity now kind p) then ∅ else delivered h)
      with (since_restart b (RxParity now kind p) h) in *.
    change (if resets b (RxParity now kind p) then parked_members b else stale h)
      with (stale_after b (RxParity now kind p) h) in *.
    assert (b' = b1 ∧ evs = rebuilt (match oc with Recovered r => r | _ => [] end))
      as [-> ->] by (destruct oc; by injection Hstep as <- <-).
    rewrite rebuilt_seqs. split_and!; [done|congruence|].
    split_and!; [by rewrite rebuilt_seqs| |].
    + intros s d (? & ? & [= <- <-] & Hin)%elem_of_rebuilt. by apply Hnew.
    + intros s d (? & ? & ? & _)%elem_of_rebuilt. done.
  - cbn in Hstep. pose proof (tick_core (stale h) (repeated h) now b (delivered h) Hinv) as [Hi Hl'].
    destruct (tick now b) as [b1 n]. unfold repeated_after.
    injection Hstep as <- <-. cbn in *. rewrite !union_empty_l_L.
    split_and!; [done|congruence|]. split_and!; [constructor|set_solver..].
Qed.

Lemma reach_inv pc t b h :
  fec_reach pc t b h →
  fec_inv (stale h) (repeated h) b (delivered h) ∧ late_recoveries b = [].
Proof.
  induction 1 as [now|t b h op b' evs _ (Hinv & Hl) Ht Hstep].
  - split; [|done]. split; [|done|apply map_Forall_empty|cbn; rewrite map_size_empty; lia].
    split; unfold accounted; cbn; try set_solver. apply map_Forall_empty.
  - by apply (step_safe b h) in Hstep as (? & ? & _).
Qed.

(** C4. In every reachable state of the recovery buffer, whatever frames have
    arrived, a frame that a step rebuilds has not been delivered since the last
    restart of the peer, and a frame that arrives is delivered a second time
    only if its sequence number is at or below the forgetting floor; frames of
    groups that were parked when the peer restarted are the exception to both.
    One step hands on no frame twice, those excepted that some group has listed
    more than once. *)
Theorem never_rebuilt_twice pc t b h op b' evs :
  fec_reach pc t b h → t ≤ op_time op → fec_step b op = (b', evs) →
  step_ok b (since_restart b op h) (stale_after b op h) (repeated_after op h) evs.
Proof.
  intros [Hinv Hl]%reach_inv _ Hstep. by apply (step_safe b h op b' evs).
Qed.

End preservation.

(** ** Retention *)

(** The stored plaintexts and their order agree; both are bounded. *)
Record store_inv (b : FecRecoveryBuffer) : Prop := {
  si_nodup : NoDup (payload_order b);
  si_dom : ∀ s, s ∈ payload_order b ↔ is_Some (payloads b !! s);
  si_len : (length (payload_order b) ≤ MAX_PAYLOADS)%nat;
  si_cur : (size (seen_current b) ≤ MAX_SEEN_PER_GENERATION)%nat;
  si_prev : (size (seen_previous b) - 1 ≤ MAX_SEEN_PER_GENERATION)%nat }.

(** The order splits into members of the previous generation and members of
    the current one; while some of the former are kept, so are all of the
    latter, one at most excepted: a member its group repeats, marked again when
    the first mark filled the generation. *)
Record keep_inv (clock : Z) (b : FecRecoveryBuffer) : Prop := {
  ki_clock : seen_rotated_at b ≤ clock;
  ki_times : ∀ s at_ d, payloads b !! s = Some (at_, d) → at_ ≤ clock;
  ki_split : ∃ old new, payload_order b = old ++ new ∧
    (∀ s, s ∈ new → s ∈ seen_current b) ∧
    (∀ s, s ∈ old → s ∈ seen_previous b ∧
       ∀ at_ d, payloads b !! s = Some (at_, d) → at_ ≤ seen_rotated_at b) ∧
    (old ≠ [] → (size (seen_current b) ≤ S (length new))%nat) }.

Lemma keep_seen clock b s :
  store_inv b → keep_inv clock b → is_Some (payloads b !! s) →
  s ∈ seen_current b ∨ s ∈ seen_previous b.
Proof.
  intros Hs [_ _ (old & new & Ho & Hn & Hold & _)] Hp%(si_dom _ Hs).
  rewrite Ho in Hp. apply elem_of_app in Hp as [Hp|Hp]; naive_solver.
Qed.

Lemma max_payloads_seen : (0 < MAX_PAYLOADS ∧ MAX_PAYLOADS < MAX_SEEN_PER_GENERATION)%nat.
Proof. split; apply Nat.ltb_lt; by vm_compute. Qed.

Lemma evict_small order p :
  (length order ≤ MAX_PAYLOADS)%nat → evict order p = (p, order).
Proof.
  destruct order; [done|]. intros. cbn [evict]. by rewrite bool_decide_false by lia.
Qed.

Lemma evict_snoc order s p :
  (length order ≤ MAX_PAYLOADS)%nat →
  evict (order ++ [s]) p =
  if bool_decide (length order = MAX_PAYLOADS) then
    match order with [] => (p, [s]) | x :: rest => (delete x p, rest ++ [s]) end
  else (p, order ++ [s]).
Proof.
  intros H. pose proof max_payloads_seen. destruct order as [|x rest].
  - rewrite evict_small by (simpl; lia). by case_bool_decide.
  - case_bool_decide as Hl; cbn [app].
    + cbn [evict]. cbn [length] in *. rewrite bool_decide_true by (rewrite length_app; simpl; lia).
      apply evict_small. rewrite length_app. simpl. lia.
    + apply evict_small. cbn [length] in *. rewrite length_app. simpl. lia.
Qed.

(** The store after a fresh frame: one more entry at the back, and the oldest
    one gone if the cap was reached. *)
Lemma insert_payload_fresh now s d b :
  store_inv b → payloads b !! s = None →
  ∃ dropped kept, payload_order b = dropped ++ kept ∧ (length dropped ≤ 1)%nat ∧
    payload_order (insert_payload now s d b) = kept ++ [s] ∧
    (S (length kept) ≤ MAX_PAYLOADS)%nat ∧
    ∀ s', payloads (insert_payload now s d b) !! s' =
          if decide (s' = s) then Some (now, d)
          else if decide (s' ∈ dropped) then None else payloads b !! s'.
Proof.
  intros [Hnd Hdom Hlen _ _] Hs. unfold insert_payload. rewrite Hs, evict_snoc by done.
  assert (s ∉ payload_order b) as Hnin by (rewrite Hdom, Hs; by intros []).
  case_bool_decide as Hfull.
  - destruct (payload_order b) as [|x rest] eqn:Eo.
    { pose proof max_payloads_seen. cbn in Hfull. lia. }
    exists [x], rest. cbn [length] in *. split_and!; [done|cbn; lia|done|lia|].
    intros s'. cbn. rewrite lookup_delete.
    destruct (decide (s' = s)) as [->|Hne].
    + rewrite decide_False by set_solver. apply lookup_insert_eq.
    + destruct (decide (s' ∈ [x])) as [->%list_elem_of_singleton|Hx].
      * by rewrite decide_True.
      * rewrite decide_False by set_solver. by rewrite lookup_insert_ne.
  - exists [], (payload_order b). split_and!; [done|cbn; lia|done|lia|].
    intros s'. cbn. destruct (decide (s' = s)) as [->|]; [apply lookup_insert_eq|].
    rewrite lookup_insert_ne by done. by rewrite decide_False by apply not_elem_of_nil.
Qed.

Lemma store_insert now s d b :
  store_inv b → payloads b !! s = None → store_inv (insert_payload now s d b).
Proof.
  intros Hinv Hs. destruct (insert_payload_fresh now s d b Hinv Hs)
    as (dr & kept & Ho & _ & Ho' & Hlen & Hp).
  destruct (insert_payload_eq now s d b) as (p & o & E).
  destruct Hinv as [Hnd Hdom _ Hcur Hprev]. rewrite Ho in Hnd. apply NoDup_app in Hnd as (_ & Hdk & Hnk).
  assert (s ∉ payload_order b) as Hnin by (rewrite Hdom, Hs; by intros []).
  rewrite Ho in Hnin, Hdom. split.
  - rewrite Ho'. apply NoDup_app. split_and!; [done|set_solver|apply NoDup_singleton].
  - intros s'. rewrite Ho', Hp, elem_of_app, list_elem_of_singleton.
    destruct (decide (s' = s)); [naive_solver|].
    destruct (decide (s' ∈ dr)) as [Hd|Hd].
    + split; [intros [Hk|?]; [by destruct (Hdk s')|done]|by intros []].
    + rewrite <- Hdom, elem_of_app. naive_solver.
  - rewrite Ho', length_app. simpl. lia.
  - by rewrite E.
  - by rewrite E.
Qed.

Lemma mark_cases now s b :
  s ∉ seen_current b →
  (size (seen_current b) < MAX_SEEN_PER_GENERATION)%nat ∧
     mark_seen now s b = set_seen ({[s]} ∪ seen_current b) (seen_previous b)
       (seen_rotated_at b) (seen_floor b) (seen_rotation_high b) b ∨
  (MAX_SEEN_PER_GENERATION ≤ size (seen_current b))%nat ∧
     mark_seen now s b = set_seen ∅ ({[s]} ∪ seen_current b) now
       (seen_rotation_high b) (Some (highest_seq b)) b.
Proof.
  intros Hs. unfold mark_seen. cbn [seen_current set_seen].
  rewrite size_union, size_singleton by set_solver.
  case_bool_decide; [right|left]; (split; [lia|done]).
Qed.

Lemma app_split_prefix {A} (dr kept old new : list A) :
  dr ++ kept = old ++ new → (length dr ≤ 1)%nat →
  (∃ old', kept = old' ++ new ∧ (∀ x, x ∈ old' → x ∈ old)) ∨
  (old = [] ∧ ∀ x, x ∈ kept → x ∈ new).
Proof.
  intros E Hd. destruct dr as [|x [|y dr]]; cbn in *; [left; by exists old| |lia].
  destruct old as [|z old]; cbn in E.
  - right. split; [done|]. rewrite <- E. set_solver.
  - injection E as <- ->. left. exists old. split; [done|]. set_solver.
Qed.

(** A frame that was marked and stored just now. *)
Definition just_kept (now s : Z) (b : FecRecoveryBuffer) : Prop :=
  (∃ d, payloads b !! s = Some (now, d)) ∧
  (s ∈ seen_current b ∨ seen_current b = ∅ ∧ seen_rotated_at b = now ∧ s ∈ seen_previous b).

(** Accounting for a fresh frame keeps both invariants. *)
Lemma keep_fresh clock now s d b :
  clock ≤ now → store_inv b → keep_inv clock b →
  s ∉ seen_current b → s ∉ seen_previous b →
  let b' := insert_payload now s d (mark_seen now s b) in
  store_inv b' ∧ keep_inv now b' ∧ just_kept now s b'.
Proof.
  intros Hclk Hst Hk Hc Hp b'.
  assert (payloads b !! s = None) as Hs.
  { apply eq_None_not_Some. intros Hin. by destruct (keep_seen clock b s Hst Hk Hin). }
  destruct (mark_seen_frame now s b) as (_ & _ & _ & _ & Hpay & Hord & _).
  assert (store_inv (mark_seen now s b)) as Hst1.
  { destruct Hst. split; rewrite ?Hpay, ?Hord; try done;
      destruct (mark_cases now s b Hc) as [[? ->]|[? ->]];
      cbn [seen_current seen_previous set_seen];
      rewrite ?size_union, ?size_singleton, ?size_empty by set_solver; lia. }
  split; [apply store_insert; [done|by rewrite Hpay]|].
  destruct (insert_payload_fresh now s d _ Hst1) as (dr & kept & Ho & Hdr & Ho' & _ & Hl);
    [by rewrite Hpay|].
  rewrite Hord in Ho. rewrite Hpay in Hl.
  destruct (insert_payload_eq now s d (mark_seen now s b)) as (p & o & E).
  destruct Hk as [Hrot Ht (old & new & Hsplit & Hnew & Hold & Hsize)].
  rewrite Hsplit in Ho. symmetry in Ho. apply app_split_prefix in Ho; [|done].
  assert (∀ s' at_ d', payloads b' !! s' = Some (at_, d') →
            (s' = s ∧ at_ = now) ∨ payloads b !! s' = Some (at_, d')) as Hl'.
  { intros s' at_ d'. subst b'. rewrite Hl. repeat case_decide; naive_solver. }
  assert (length old + length new ≤ MAX_PAYLOADS)%nat as Hlen.
  { pose proof (si_len _ Hst). rewrite Hsplit, length_app in *. done. }
  pose proof max_payloads_seen as [_ Hmax].
  assert (just_kept now s b') as Hjust.
  { subst b'. split; [rewrite Hl, decide_True by done; eauto|]. rewrite E.
    destruct (mark_cases now s b Hc) as [[_ ->]|[_ ->]]; cbn; [left|right]; set_solver. }
  split; [|exact Hjust]. clear Hjust.
  destruct (mark_cases now s b Hc) as [[Hlt Hm]|[Hge Hm]].
  - split.
    + subst b'. rewrite E, Hm. cbn. lia.
    + intros s' at_ d' [[_ ->]|H']%Hl'; [lia|]. apply Ht in H'. lia.
    + destruct Ho as [(old' & -> & Hsub)|[-> Hsub]].
      * exists old', (new ++ [s]). subst b'. rewrite Ho', app_assoc, E, Hm. cbn -[insert_payload].
        split_and!; [done| | |].
        -- intros x [Hx|Hx]%elem_of_app; [apply Hnew in Hx|apply list_elem_of_singleton in Hx];
             set_solver.
        -- intros x Hx. destruct (Hold x) as [Hx1 Hx2]; [auto|]. split; [done|].
           rewrite E in Hl'. cbn in Hl'. intros at_ d' [[-> _]|H']%Hl'; [done|eauto].
        -- intros Hne. rewrite size_union, size_singleton, length_app by set_solver. cbn.
           assert (old ≠ []) as Hne2; [|specialize (Hsize Hne2); lia].
           destruct old' as [|y old']; [done|]. intros ->. set_solver.
      * exists [], (kept ++ [s]). subst b'. rewrite Ho', E, Hm. cbn -[insert_payload].
        split_and!; [done| |set_solver|done].
        intros x [Hx|Hx]%elem_of_app;
          [apply Hsub, Hnew in Hx|apply list_elem_of_singleton in Hx]; set_solver.
  - assert (old = []) as ->.
    { destruct old; [done|]. specialize (Hsize ltac:(done)). cbn [length] in Hlen. lia. }
    split.
    + subst b'. rewrite E, Hm. cbn. lia.
    + intros s' at_ d' [[_ ->]|H']%Hl'; [lia|]. apply Ht in H'. lia.
    + exists (kept ++ [s]), []. subst b'. rewrite Ho', app_nil_r.
      rewrite E in *. rewrite Hm. cbn. split_and!; [done|set_solver| |intros _; rewrite size_empty; lia].
      intros x Hx. split.
      * apply elem_of_app in Hx as [Hx| ->%list_elem_of_singleton]; [|set_solver].
        assert (x ∈ new) by (destruct Ho as [(old' & -> & Hsub)|[_ Hsub]]; set_solver).
        apply elem_of_union. right. auto.
      * intros at_ d' [[_ ->]|H']%Hl'; [lia|]. apply Ht in H'. lia.
Qed.

Record kept (clock : Z) (b : FecRecoveryBuffer) : Prop := {
  k_store : store_inv b;
  k_keep : keep_inv clock b;
  k_ttl : payload_ttl b ≤ seen_generation b }.

Definition same_store (b b' : FecRecoveryBuffer) : Prop :=
  payloads b' = payloads b ∧ payload_order b' = payload_order b ∧
  seen_current b' = seen_current b ∧ seen_previous b' = seen_previous b ∧
  seen_rotated_at b' = seen_rotated_at b ∧ payload_ttl b' = payload_ttl b ∧
  seen_generation b' = seen_generation b.

Lemma kept_same clock b b' : same_store b b' → kept clock b → kept clock b'.
Proof.
  destruct b, b'. unfold same_store. cbn. intros (-> & -> & -> & -> & -> & -> & ->) [[] [] ?].
  split; [by split..|done].
Qed.

Lemma kept_mono c c' b : c ≤ c' → kept c b → kept c' b.
Proof.
  intros Hc [? [Hr Ht Hs] ?]. split; [done| |done]. split; [lia| |done].
  intros s at_ d Hp. specialize (Ht s at_ d Hp). lia.
Qed.

Lemma kept_fresh clock now s d b :
  clock ≤ now → kept clock b → s ∉ seen_current b → s ∉ seen_previous b →
  kept now (insert_payload now s d (mark_seen now s b)) ∧
  just_kept now s (insert_payload now s d (mark_seen now s b)).
Proof.
  intros Hc [Hst Hk Ht] Hs1 Hs2.
  destruct (keep_fresh clock now s d b Hc Hst Hk Hs1 Hs2) as (Hst' & Hk' & Hj).
  split; [|done]. split; [done..|].
  destruct (insert_payload_eq now s d (mark_seen now s b)) as (p & o & ->). cbn.
  unfold mark_seen. by case_bool_decide.
Qed.

Lemma mark_seen_sets now s b x :
  x ∈ seen_current (mark_seen now s b) ∨ x ∈ seen_previous (mark_seen now s b) →
  x = s ∨ x ∈ seen_current b ∨ x ∈ seen_previous b.
Proof. unfold mark_seen. case_bool_decide; cbn; set_solver. Qed.

(** A second copy of it changes only the bytes that are kept. *)
Lemma kept_again now s d b :
  kept now b → just_kept now s b → kept now (insert_payload now s d (mark_seen now s b)).
Proof.
  intros [Hst [Hrot Ht (old & new & Hsplit & Hnew & Hold & Hsize)] Httl] [[d0 Hx] Hcur].
  assert (mark_seen now s b = set_seen ({[s]} ∪ seen_current b) (seen_previous b)
            (seen_rotated_at b) (seen_floor b) (seen_rotation_high b) b ∧
          (size ({[s]} ∪ seen_current b) ≤ MAX_SEEN_PER_GENERATION)%nat) as [Hm Hsz].
  { assert (size ({[s]} ∪ seen_current b) ≤ MAX_SEEN_PER_GENERATION)%nat as Hs.
    { destruct Hcur as [Hin|(-> & _)].
      - rewrite (subseteq_union_1_L {[s]}) by set_solver. apply Hst.
      - rewrite union_empty_r_L, size_singleton. pose proof max_payloads_seen. lia. }
    split; [|done]. unfold mark_seen. cbn [seen_current set_seen].
    by rewrite bool_decide_false by lia. }
  rewrite Hm. unfold insert_payload. cbn [payloads payload_order set_seen]. rewrite Hx.
  destruct Hst as [Hnd Hdom Hlen Hc Hp]. rewrite evict_small by done.
  split; [| |done].
  - split; cbn; try done. intros s'. rewrite Hdom. destruct (decide (s' = s)) as [->|].
    + rewrite lookup_insert_eq, Hx. by split; eexists.
    + by rewrite lookup_insert_ne.
  - split; cbn; [done| |].
    + intros s' at_ d' [[_ [= <- _]]|[_ H']]%lookup_insert_Some; [lia|eauto].
    + destruct Hcur as [Hin|(He & Hra & Hprev)].
      * exists old, new. rewrite (subseteq_union_1_L {[s]}) by set_solver. split_and!; [done..| |done].
        intros s' Hs'. destruct (Hold s' Hs') as [Hs1 Hs2]. split; [done|].
        intros at_ d' [[<- [= <- _]]|[_ H']]%lookup_insert_Some; eauto.
      * assert (new = []) as ->.
        { destruct new as [|y new]; [done|]. assert (y ∈ seen_current b) by (apply Hnew; set_solver). set_solver. }
        exists old, []. rewrite He, union_empty_r_L, size_singleton. split_and!; [done|set_solver| |done].
        intros s' Hs'. destruct (Hold s' Hs') as [Hs1 Hs2]. split; [done|].
        intros at_ d' [[<- [= <- _]]|[_ H']]%lookup_insert_Some; [lia|eauto].
Qed.

Lemma missing_unseen b s :
  member_state b s = Missing → s ∉ seen_current b ∧ s ∉ seen_previous b.
Proof.
  intros H%missing_not_accounted. unfold accounted in H. tauto.
Qed.

Lemma solved_members mi pq out :
  solve mi pq = Some out →
  (∃ x, out = [x]) ∨ ∃ x y, out = [x; y].
Proof.
  destruct mi as [|a [|b [|c mi]]], pq as [[pp|] [qp|]]; simpl; intros; simplify_eq; eauto.
Qed.

Lemma evaluate_kept now sh b b' ev :
  evaluate now sh b = (b', ev) → kept now b → kept now b'.
Proof.
  intros [(-> & Hr & _)|(p & mi & w & pq & out & r & Ha & Hc & _ & _ & _ & Ho & Hd & ->)]%evaluate_cases
    Hk; [done|].
  destruct (missing_members _ _ _ _ (repeats (member_seqs p)) Hc (reflexivity _)) as (_ & _ & Hm).
  pose proof (solve_positions _ _ _ Ho) as Hpos. subst mi.
  assert (∀ i, i ∈ out.*1 → nth i (member_seqs p) 0 ∉ seen_current b ∧
                            nth i (member_seqs p) 0 ∉ seen_previous b) as Hun.
  { intros i Hi. by apply missing_unseen, Hm. }
  clear Hm Hc. apply solved_members in Ho as [([i d] & ->)|([i d] & [j e] & ->)]; cbn in Hd, Hun;
    (destruct (Hun i) as [Hi1 Hi2]; [set_solver|]).
  - injection Hd as <- <-. by apply (kept_fresh now).
  - injection Hd as <- <-. destruct (Hun j) as [Hj1 Hj2]; [set_solver|].
    set (si := nth i _ 0) in *. set (sj := nth j _ 0) in *. set (di := take _ d).
    destruct (kept_fresh now now si di b (Z.le_refl _) Hk Hi1 Hi2) as [Hk1 Hj].
    destruct (decide (sj = si)) as [->|Hne]; [by apply kept_again|].
    apply (kept_fresh now); [done..| |];
      destruct (insert_payload_eq now si di (mark_seen now si b)) as (p' & o & ->);
      cbn [seen_current seen_previous set_payloads];
      intros Hin; destruct (mark_seen_sets now si b sj); tauto.
Qed.

Lemma note_seq_kept clock s b : kept clock b → kept clock (note_seq s b).
Proof.
  intros Hk. unfold note_seq. destruct (_ <? _); [by apply (kept_same clock b)|].
  destruct (_ <=? _); [|done]. destruct Hk as [[] [] ?]. split; [| |done].
  - split; cbn; [constructor| |lia|rewrite size_empty; lia..].
    intros s'. rewrite lookup_empty. split; [set_solver|by intros []].
  - split; cbn; [done|by intros|]. exists [], []. split_and!; [done|set_solver..|done].
Qed.

Section retention.
Context `{!HashIter}.

Lemma same_store_trans b1 b2 b3 : same_store b1 b2 → same_store b2 b3 → same_store b1 b3.
Proof. unfold same_store. intros. destruct_and!. split_and!; congruence. Qed.

Lemma drop_parked_store key b : same_store b (drop_parked key b).
Proof. unfold drop_parked. by destruct (parked b !! key). Qed.

Lemma park_store now key sh missing b : same_store b (park now key sh missing b).
Proof.
  rewrite park_room. unfold make_room. case_bool_decide; [|done].
  destruct (hash_iter (parked b)); [done|]. apply drop_parked_store.
Qed.

Lemma set_parked_store pk ix b : same_store b (set_parked pk ix b).
Proof. by repeat split. Qed.

Lemma set_reports_store l n b : same_store b (set_reports l n b).
Proof. by repeat split. Qed.

Lemma recheck_kept now seq b :
  kept now b → kept now (recheck_parked_for now seq b).
Proof.
  intros Hk. unfold recheck_parked_for.
  destruct (parked_by_seq b !! seq) as [key|]; [|done]. cbv zeta.
  set (b1 := set_parked (parked b) _ b).
  assert (kept now b1) as Hk1 by (eapply kept_same; [apply set_parked_store|done]).
  assert (parked b1 = parked b) as Hpk by done. clearbody b1.
  destruct (parked b1 !! key) as [g|] eqn:Eg; [|done].
  set (b2 := set_parked (delete key (parked b1)) _ b1).
  assert (kept now b2) as Hk2 by (eapply kept_same; [apply set_parked_store|done]).
  clearbody b2. destruct (evaluate now (pg_shares g) b2) as [b3 ev] eqn:Ev.
  apply evaluate_kept in Ev; [|done].
  destruct ev as [r| | |missing].
  - eapply kept_same; [apply set_reports_store|done].
  - done.
  - eapply kept_same; [apply set_reports_store|done].
  - pose proof (park_store now key (pg_shares g) missing b3) as Hps.
    set (b4 := park now key (pg_shares g) missing b3) in *. clearbody b4.
    apply (kept_same now) in Hps; [|done].
    destruct (parked b4 !! key); [|done]. eapply kept_same; [apply set_parked_store|done].
Qed.

Lemma expire_spec now ttl order p p' o' :
  expire now ttl order p = (p', o') → NoDup order →
  ∃ gone, order = gone ++ o' ∧
    (∀ s, p' !! s = if decide (s ∈ gone) then None else p !! s) ∧
    (∀ s at_ d rest, o' = s :: rest → p !! s = Some (at_, d) → sat_sub now at_ < ttl) ∧
    (∀ s rest, o' = s :: rest → is_Some (p !! s)).
Proof.
  revert p; induction order as [|s order IH]; intros p; cbn [expire].
  { intros [= <- <-] _. exists []. split_and!; try done. }
  intros He [Hs Hnd]%NoDup_cons.
  destruct (match p !! s with Some (at_, _) => ttl <=? sat_sub now at_ | None => true end) eqn:E.
  - apply IH in He as (gone & -> & Hp & Hfirst & Hsome); [|done].
    exists (s :: gone). split_and!; [done|..].
    + intros s'. rewrite Hp, lookup_delete.
      destruct (decide (s' ∈ gone)), (decide (s = s')), (decide (s' ∈ s :: gone)); set_solver.
    + intros s' at_ d rest Ho Hl. apply (Hfirst s' at_ d rest Ho).
      rewrite lookup_delete_ne; [done|]. intros <-. apply Hs. rewrite Ho. set_solver.
    + intros s' rest Ho. destruct (Hsome s' rest Ho) as [x Hx].
      apply lookup_delete_Some in Hx as [_ Hx]. eauto.
  - injection He as <- <-. exists []. destruct (p !! s) as [[at_ d]|] eqn:Ep; [|done].
    apply Z.leb_gt in E. split_and!; [done| | |].
    + intros s'. by rewrite decide_False by set_solver.
    + intros s' at' d' rest [= <- <-] Hl. rewrite Ep in Hl. by injection Hl as <- <-.
    + intros s' rest [= <- <-]. eauto.
Qed.

(** Rotating the generations keeps every stored plaintext accounted for,
    because all that were marked before the last rotation have expired. *)
Lemma tick_store_kept clock now b :
  clock ≤ now → kept clock b →
  ∀ p o, expire now (payload_ttl b) (payload_order b) (payloads b) = (p, o) →
  kept now (set_payloads p o b) ∧
  (seen_generation b ≤ sat_sub now (seen_rotated_at b) → ∀ s, s ∈ o → s ∈ seen_current b).
Proof.
  intros Hc [[Hnd Hdom Hlen Hcur] [Hrot Ht (old & new & Hsplit & Hnew & Hold & Hsize)] Httl] p o He.
  apply expire_spec in He as (gone & Ho & Hp & Hfirst & Hsome); [|done].
  assert (∀ s x, p !! s = Some x → payloads b !! s = Some x) as Hp'.
  { intros s x. rewrite Hp. by case_decide. }
  assert (NoDup o ∧ ∀ s, s ∈ gone → s ∉ o) as [Hndo Hgo].
  { rewrite Ho in Hnd. apply NoDup_app in Hnd as (? & ? & ?). done. }
  assert (store_inv (set_payloads p o b)) as Hst.
  { split; cbn; [done| |rewrite Ho, length_app in Hlen; lia|done..].
    intros s. rewrite Hp. specialize (Hdom s). rewrite Ho, elem_of_app in Hdom.
    case_decide as Hg; [|naive_solver]. split; [by intros ?%Hgo|by intros []]. }
  assert ((∃ gone', old = gone ++ gone' ∧ o = gone' ++ new) ∨ (∃ mid, new = mid ++ o)) as Hcase.
  { rewrite Hsplit in Ho. apply app_eq_inv in Ho as [(k & -> & ->)|(k & -> & ->)]; eauto. }
  split.
  - split; [done| |done]. split; cbn; [lia| |].
    + intros s at_ d Hs%Hp'%Ht. lia.
    + destruct Hcase as [(old' & -> & ->)|(mid & ->)].
      * exists old', new. split_and!; [done..| |].
        -- intros s Hs. destruct (Hold s) as [? Ha]; [set_solver|]. split; [done|].
           intros at_ d Hl%Hp'. eauto.
        -- intros Hne. apply Hsize. by destruct gone, old'.
      * exists [], o. split_and!; [done| |set_solver|done]. intros s Hs. apply Hnew. set_solver.
  - intros Hgen s Hs. destruct Hcase as [(old' & -> & ->)|(mid & ->)]; [|apply Hnew; set_solver].
    destruct old' as [|x old']; [by apply Hnew|]. exfalso.
    destruct (Hsome x (old' ++ new) eq_refl) as [[at_ d] Hx].
    specialize (Hfirst x at_ d (old' ++ new) eq_refl Hx).
    destruct (Hold x) as [_ Ha]; [set_solver|]. specialize (Ha at_ d Hx).
    unfold sat_sub in *. lia.
Qed.

Lemma foldl_drop_store keys b :
  same_store b (foldl (λ b key, bump_given_up (drop_parked key b)) b keys).
Proof.
  revert b; induction keys as [|k keys IH]; intros b; cbn [foldl]; [done|].
  eapply same_store_trans; [|apply IH]. apply (drop_parked_store k b).
Qed.

Lemma tick_kept clock now b : clock ≤ now → kept clock b → kept now (tick now b).1.
Proof.
  intros Hc Hk. unfold tick. destruct (expire _ _ _ _) as [p o] eqn:Ee. cbv zeta.
  destruct (tick_store_kept clock now b Hc Hk p o Ee) as [Hk1 Hall].
  set (b1 := set_payloads p o b) in *.
  set (b2 := if bool_decide (parked b1 = ∅) then b1 else _).
  assert (same_store b1 b2) as Hs2.
  { subst b2. case_bool_decide; [done|apply foldl_drop_store]. }
  clearbody b2. pose proof (kept_same now b1 b2 Hs2 Hk1) as Hk2.
  cbn [fst]. destruct (Z.leb_spec (seen_generation b2) (sat_sub now (seen_rotated_at b2)));
    [|by apply (kept_same now b2)].
  apply (kept_same now (rotate_seen now b2)); [done|].
  destruct Hs2 as (Hp & Ho & Hcur & Hpr & Hra & _ & Hgen).
  destruct Hk2 as [[] [] ?]. split; [| |done].
  - split; cbn; [done|done|done|rewrite size_empty; lia|lia].
  - split; cbn; [lia|done|]. exists (payload_order b2), []. rewrite app_nil_r.
    split_and!; [done|set_solver| |].
    + intros s Hs. rewrite Hcur. split; [|eauto]. rewrite Ho in Hs.
      apply Hall; [|done]. rewrite Hgen, Hra in *. done.
    + intros _. rewrite size_empty. cbn. lia.
Qed.

Lemma step_kept t b op b' evs :
  kept t b → t ≤ op_time op → fec_step b op = (b', evs) → kept (op_time op) b'.
Proof.
  intros Hk Ht Hstep. apply (kept_mono t (op_time op)) in Hk; [|done].
  destruct op as [now seq d|now kind p|now]; cbn in Hstep, Hk |- *.
  - destruct (observe_data now seq d b) as [b1 fresh] eqn:Eo.
    assert (kept now b1) as Hk1.
    2: { destruct (has_late_recoveries b1); cbn in Hstep; injection Hstep as <- <-; [|done].
         by apply (kept_same now b1). }
    unfold observe_data in Eo. apply (note_seq_kept now seq) in Hk.
    set (b0 := note_seq seq b) in *. clearbody b0.
    destruct (_ || _) eqn:Eseen; [by injection Eo as <- <-|].
    apply orb_false_iff in Eseen as [H1%bool_decide_eq_false H2%bool_decide_eq_false].
    destruct (kept_fresh now now seq d b0 (Z.le_refl _) Hk H1 H2) as [Hk2 _].
    injection Eo as <- <-. case_bool_decide; [done|]. by apply recheck_kept.
  - destruct (noted (RxParity now kind p)) as [top|] eqn:En.
    2: { rewrite try_recover_noop in Hstep by done. by injection Hstep as <- <-. }
    apply noted_some in En as (key & rest & Hs & -> & Hlen).
    rewrite (try_recover_eq _ _ _ _ _ _ Hs Hlen) in Hstep.
    apply (note_seq_kept now (list_max key rest)) in Hk.
    set (b0 := note_seq (list_max key rest) b) in *. clearbody b0.
    assert (kept now (take_parked key b0).1) as Hk2.
    { unfold take_parked. destruct (parked b0 !! key); [by apply (kept_same now b0)|done]. }
    destruct (take_parked key b0) as [b2 sh]. cbn [fst snd] in *.
    destruct (evaluate now (add_share kind p sh) b2) as [b3 ev] eqn:Ev.
    apply evaluate_kept in Ev; [|done].
    destruct ev; injection Hstep as <- <-; try done.
    eapply kept_same; [apply park_store|done].
  - pose proof (tick_kept now now b (Z.le_refl _) Hk) as Hk'.
    destruct (tick now b). by injection Hstep as <- <-.
Qed.

Lemma reach_kept pc t b h : fec_reach pc t b h → kept t b.
Proof.
  induction 1 as [now|t b h op b' evs Hreach Hk Ht Hstep]; [|by eapply step_kept].
  split; [| |done].
  - split; cbn; [constructor| |lia|rewrite size_empty; lia..].
    intros s. rewrite lookup_empty. split; [set_solver|by intros []].
  - split; cbn; [done|by intros|]. exists [], []. split_and!; [done|set_solver..|done].
Qed.

(** The index has at most two entries per parked group. *)
Lemma index_size b :
  index_ok b → map_Forall (λ _ g, (length (pg_missing g) ≤ 2)%nat) (parked b) →
  (size (parked_by_seq b) ≤ 2 * size (parked b))%nat.
Proof.
  intros Hidx Hm. set (l := kg ← map_to_list (parked b); pg_missing kg.2).
  assert (length l ≤ 2 * size (parked b))%nat as Hl.
  { unfold l. clear l Hidx. revert Hm. induction (parked b) as [|k g m Hk Hf IH] using map_first_key_ind;
      intros Hm; [by rewrite map_to_list_empty, map_size_empty|].
    rewrite map_to_list_insert_first_key, map_size_insert_None by done.
    apply map_Forall_insert in Hm as [Hg Hm]; [|done]. specialize (IH Hm).
    cbn. rewrite length_app. lia. }
  rewrite <- size_dom. etrans; [|exact Hl].
  trans (size (list_to_set l : gset Z)).
  - apply subseteq_size. intros s [key Hs]%elem_of_dom. destruct (Hidx s key Hs) as (g & Hg & Hin).
    apply elem_of_list_to_set, list_elem_of_bind. exists (key, g).
    split; [done|by apply elem_of_map_to_list].
  - clear. induction l as [|x l IH]; cbn; [by rewrite size_empty|].
    rewrite size_union_alt, size_singleton. assert (list_to_set l ∖ {[x]} ⊆ (list_to_set l : gset Z))
      as Hsub%subseteq_size by set_solver. lia.
Qed.

(** C33. In every reachable state, whatever frames have arrived, the recovery
    buffer keeps at most 4096 plaintexts, 131072 sequence numbers in the current
    generation and one more in the previous one, 512 parked groups with two
    entries each in their index, and no late recovery that was not taken; the
    index leads to parked groups only, so it is empty when nothing is parked;
    and every stored plaintext's sequence number is in one of the generations. *)
Theorem recovery_memory_bounded pc t b h :
  fec_reach pc t b h →
  (size (payloads b) ≤ MAX_PAYLOADS)%nat ∧ (length (payload_order b) ≤ MAX_PAYLOADS)%nat ∧
  (size (seen_current b) ≤ MAX_SEEN_PER_GENERATION)%nat ∧
  (size (seen_previous b) ≤ S MAX_SEEN_PER_GENERATION)%nat ∧
  (size (parked b) ≤ MAX_PARKED_GROUPS)%nat ∧
  (size (parked_by_seq b) ≤ 2 * size (parked b))%nat ∧
  late_recoveries b = [] ∧
  (∀ s key, parked_by_seq b !! s = Some key → is_Some (parked b !! key)) ∧
  (∀ s, is_Some (payloads b !! s) → s ∈ seen_current b ∨ s ∈ seen_previous b).
Proof.
  intros Hr. destruct (reach_inv _ _ _ _ Hr) as [[_ Hidx Hm Hpk] Hlate].
  destruct (reach_kept _ _ _ _ Hr) as [Hst Hk _].
  pose proof (si_len _ Hst) as Hlen. pose proof (si_cur _ Hst) as Hcur.
  pose proof (si_prev _ Hst) as Hprev.
  split_and!; [|exact Hlen|exact Hcur|lia|exact Hpk|by apply index_size|exact Hlate| |].
  - destruct Hst as [Hnd Hdom _ _ _].
    assert (dom (payloads b) = list_to_set (payload_order b)) as E.
    { apply set_eq. intros s. by rewrite elem_of_dom, elem_of_list_to_set, Hdom. }
    rewrite <- size_dom, E, size_list_to_set by done. done.
  - intros s key Hs. destruct (Hidx s key Hs) as (g & Hg & _). eauto.
  - intros s. by apply (keep_seen t).
Qed.

End retention.

(** A run: frame 1 arrives, then the [P] share of frames 1 and 2. *)
Definition sample_parity : FecParityPayload := mkParity [1; 2] [2; 1] [4; 9].
Definition sample_data : fec_op := RxData 0 1 [7; 9].
Definition sample_share : fec_op := RxParity 5 P sample_parity.
Definition sample_buffer : FecRecoveryBuffer :=
  (@fec_step list_iter (FecRecoveryBuffer_new 1 0) sample_data).1.
Definition sample_buffer' : FecRecoveryBuffer :=
  (@fec_step list_iter sample_buffer sample_share).1.

Definition sample_history : history := mkHistory {[1]} ∅ ∅.

Lemma sample_reach : @fec_reach list_iter 1 0 sample_buffer sample_history.
Proof.
  assert (sample_history =
            history_step (FecRecoveryBuffer_new 1 0) sample_data [Direct 1 [7; 9]] (mkHistory ∅ ∅ ∅))
    as -> by (vm_compute; reflexivity).
  apply (@reach_step list_iter 1 0 (FecRecoveryBuffer_new 1 0) (mkHistory ∅ ∅ ∅) sample_data sample_buffer).
  - apply reach_new.
  - apply Z.le_refl.
  - vm_compute. reflexivity.
Qed.

Lemma never_rebuilt_twice_witness :
  step_ok sample_buffer (since_restart sample_buffer sample_share sample_history) ∅ ∅
    [Rebuilt 2 [3]].
Proof.
  apply (@never_rebuilt_twice list_iter 1 0 sample_buffer sample_history sample_share sample_buffer').
  - apply sample_reach.
  - cbn. lia.
  - vm_compute. reflexivity.
Defined.

Lemma recovery_memory_bounded_witness :
  (size (payloads sample_buffer) ≤ MAX_PAYLOADS)%nat ∧
  (size (parked_by_seq sample_buffer) ≤ 2 * size (parked sample_buffer))%nat.
Proof.
  destruct (@recovery_memory_bounded list_iter 1 0 sample_buffer sample_history sample_reach)
    as (H1 & _ & _ & _ & _ & H2 & _).
  exact (conj H1 H2).
Defined.

(** The exception is real. A group of frames [n + 1] and [n + 2] is parked when
    the peer restarts; [n + 1] arrives late and frame [n + 2] is rebuilt above
    the highest number seen; two rotations forget it without the floor rising to
    it, and the group's share makes the buffer rebuild it again. *)
Definition stale_n : Z := 2 ^ 25.
Definition stale_group : FecParityPayload := mkParity [stale_n + 1; stale_n + 2] [1; 1] [3].
Definition stale_run : list fec_op :=
  [RxParity 0 P stale_group; RxData 1 5 [9]; RxData 2 (stale_n + 1) [1];
   RxTick (secs 3); RxTick (secs 6); RxData (secs 6) (stale_n + 1) [1];
   RxParity (secs 6) P stale_group].

Fixpoint fec_events (ops : list fec_op) (b : FecRecoveryBuffer) : list (list fec_event) :=
  match ops with
  | [] => []
  | op :: ops => let '(b, evs) := @fec_step list_iter b op in evs :: fec_events ops b
  end.

Lemma stale_group_rebuilt_twice :
  fec_events stale_run (FecRecoveryBuffer_new 2 0) =
  [[]; [Direct 5 [9]]; [Direct (stale_n + 1) [1]; Rebuilt (stale_n + 2) [2]]; []; [];
   [Direct (stale_n + 1) [1]]; [Rebuilt (stale_n + 2) [2]]].
Proof. vm_compute. reflexivity. Qed.
