(* ===== verification/FecCorrect.v ===== *)
(** * What is rebuilt is what was sent ([fec.rs])

    The algebra of [evaluate]: taking the known members out of the shares
    leaves one or two unknowns, and the solution of that system over GF(256)
    is the erased frames, byte for byte. Lifted to the operations of the
    buffer and to a sender and a receiver put together. *)

From Stdlib Require Import Sorted.
From S2P Require Import Prelude Bytes Protocol Gf256 F64 Configuration.
From S2P Require Import Fec FecRecovery FecSafety.

Section sent.

(** The plaintext sent under each sequence number. *)
Context (sent : Z → list Z).

Definition coef_of (kind : ParityKind) : nat → Z :=
  match kind with P => coef_p | Q => coef_q end.

(** A share made from the frames that were sent. *)
Record genuine (kind : ParityKind) (p : FecParityPayload) : Prop := {
  g_lens : member_lens p = (λ s, len (sent s)) <$> member_seqs p;
  g_parity : parity p = share (coef_of kind) (sent <$> member_seqs p);
  g_size : (length (member_seqs p) ≤ 255)%nat }.

(** The stored plaintexts are the ones sent. *)
Definition store_genuine (b : FecRecoveryBuffer) : Prop :=
  ∀ s at_ d, payloads b !! s = Some (at_, d) → d = sent s.

Definition shares_genuine (sh : ShareSet) : Prop :=
  (∀ p, sh_p sh = Some p → genuine P p) ∧ (∀ q, sh_q sh = Some q → genuine Q q).

Hypothesis sent_bytes : ∀ s, bytes_ok (sent s).

Lemma coef_byte kind i : byte_ok (coef_of kind i).
Proof. destruct kind; [unfold coef_of, coef_p, byte_ok; lia|apply pow2_byte]. Qed.

(** ** Taking the known members out *)

(** The contribution of the erased members to byte [j] of a share. *)
Fixpoint miss_at (coef : nat → Z) (k : nat) (mi : list nat) (seqs : list Z) (j : nat) : Z :=
  match seqs with
  | [] => 0
  | s :: seqs =>
      Z.lxor (if bool_decide (k ∈ mi) then gf.mul (coef k) (nth j (sent s) 0) else 0)
             (miss_at coef (S k) mi seqs j)
  end.

(** A share from which the members before [k] have been taken out, but for
    the erased ones, which contribute [X]. *)
Definition tracks (kind : ParityKind) (w : nat) (X : nat → Z) (k : nat) (seqs : list Z)
    (o : option (list Z)) : Prop :=
  ∀ v, o = Some v → length v = w ∧ bytes_ok v ∧
       ∀ j, nth j v 0 = Z.lxor (X j) (share_at (coef_of kind) k (sent <$> seqs) j).

Lemma tracks_skip kind w X k s seqs o :
  tracks kind w X k (s :: seqs) o →
  tracks kind w (λ j, Z.lxor (X j) (gf.mul (coef_of kind k) (nth j (sent s) 0))) (S k) seqs o.
Proof.
  intros H v Hv. destruct (H v Hv) as (? & ? & Hj). split_and!; [done..|].
  intros j. rewrite Hj, Z.lxor_assoc. done.
Qed.

Lemma lxor_cancel a b c : Z.lxor (Z.lxor a (Z.lxor b c)) b = Z.lxor a c.
Proof.
  rewrite (Z.lxor_comm b c), !Z.lxor_assoc, Z.lxor_nilpotent, Z.lxor_0_r. done.
Qed.

Lemma tracks_strip kind w X k s seqs o (f : list Z → list Z) :
  tracks kind w X k (s :: seqs) o → (length (sent s) ≤ w)%nat →
  (∀ v, bytes_ok v → f v = gf.zip_acc (gf.mul (coef_of kind k)) v (sent s)) →
  tracks kind w X (S k) seqs (f <$> o).
Proof.
  intros H Hl Hf v Hv. destruct o as [u|]; [|done]. cbn in Hv. injection Hv as <-.
  destruct (H u eq_refl) as (Hlen & Hb & Hj). rewrite Hf by done. split_and!.
  - by rewrite length_zip_acc.
  - apply zip_acc_bytes; [intros; apply mul_byte|done|apply sent_bytes].
  - intros j. rewrite at0_zip_acc by (apply Gf256.mul_0_r || lia).
    rewrite Hj. cbn [fmap list_fmap share_at]. apply lxor_cancel.
Qed.

Lemma strip_p_zip v s k :
  bytes_ok v → gf.zip_acc id v (sent s) = gf.zip_acc (gf.mul (coef_p k)) v (sent s).
Proof.
  intros _. apply zip_acc_ext. eapply Forall_impl; [apply sent_bytes|].
  intros x Hx. symmetry. by apply mul_1_l.
Qed.

Lemma strip_spec b w mi k seqs pq pq' Xp Xq :
  store_genuine b →
  tracks P w Xp k seqs pq.1 → tracks Q w Xq k seqs pq.2 →
  strip_known b w mi k seqs pq = Some pq' →
  tracks P w (λ j, Z.lxor (Xp j) (miss_at coef_p k mi seqs j)) (k + length seqs) [] pq'.1 ∧
  tracks Q w (λ j, Z.lxor (Xq j) (miss_at coef_q k mi seqs j)) (k + length seqs) [] pq'.2 ∧
  (is_Some pq'.1 ↔ is_Some pq.1) ∧ (is_Some pq'.2 ↔ is_Some pq.2).
Proof.
  intros Hst. revert k pq Xp Xq; induction seqs as [|s seqs IH]; intros k pq Xp Xq Hp Hq.
  { intros [= <-]. cbn. rewrite Nat.add_0_r.
    split_and!; [|..|done|done]; intros v Hv;
      [destruct (Hp v Hv) as (? & ? & Hj)|destruct (Hq v Hv) as (? & ? & Hj)];
      (split_and!; [done..|]; intros j; rewrite Hj; cbn; by rewrite !Z.lxor_0_r). }
  cbn [strip_known miss_at length]. rewrite Nat.add_succ_r.
  case_bool_decide as Hin.
  - intros H. eapply (IH (S k)) in H as (H1 & H2 & H3 & H4);
      [|by apply tracks_skip..].
    split_and!; [|..|done|done]; intros v Hv;
      [destruct (H1 v Hv) as (? & ? & Hj)|destruct (H2 v Hv) as (? & ? & Hj)];
      (split_and!; [done..|]; intros j; by rewrite Hj, !Z.lxor_assoc).
  - destruct (payloads b !! s) as [[at_ bytes]|] eqn:Es; [|done].
    pose proof (Hst _ _ _ Es) as ->. case_bool_decide as Hw; [done|].
    intros H. eapply (IH (S k) _ Xp Xq) in H as (H1 & H2 & H3 & H4).
    + cbn [fst snd] in H3, H4. rewrite fmap_is_Some in H3, H4. split_and!; done.
    + eapply tracks_strip; [done|lia|]. intros v Hv. by apply strip_p_zip.
    + eapply tracks_strip; [done|lia|]. intros v Hv. apply mul_acc_zip; [apply pow2_byte|].
      apply sent_bytes.
Qed.

(** It goes through when every other member is stored. *)
Lemma strip_total b w mi k seqs pq :
  store_genuine b →
  (∀ i s, seqs !! i = Some s → (k + i)%nat ∉ mi →
     is_Some (payloads b !! s) ∧ (length (sent s) ≤ w)%nat) →
  is_Some (strip_known b w mi k seqs pq).
Proof.
  intros Hst. revert k pq; induction seqs as [|s seqs IH]; intros k pq H; [by eexists|].
  cbn [strip_known].
  assert (∀ i s, seqs !! i = Some s → (S k + i)%nat ∉ mi →
     is_Some (payloads b !! s) ∧ (length (sent s) ≤ w)%nat) as H'.
  { intros i s' Hi Hn. apply (H (S i) s' Hi). by rewrite Nat.add_succ_r. }
  case_bool_decide as Hin; [by apply IH|].
  destruct (H O s eq_refl) as [[[at_ d] Hs] Hl]; [by rewrite Nat.add_0_r|].
  rewrite Hs, (Hst _ _ _ Hs), bool_decide_false by lia. by apply IH.
Qed.

(** ** Solving for the erased members *)

Lemma miss_none coef k mi seqs j :
  (∀ i, i ∈ mi → (i < k)%nat) → miss_at coef k mi seqs j = 0.
Proof.
  revert k; induction seqs as [|s seqs IH]; intros k H; [done|]. cbn [miss_at].
  rewrite bool_decide_false by (intros Hk%H; lia). rewrite IH; [done|].
  intros i Hi%H. lia.
Qed.

(** The erased members one after the other, in ascending positions. *)
Lemma miss_cons coef k a mi seqs s j :
  seqs !! a = Some s → (∀ i, i ∈ mi → (k + a < i)%nat) →
  miss_at coef k ((k + a)%nat :: mi) seqs j =
  Z.lxor (gf.mul (coef (k + a)%nat) (nth j (sent s) 0)) (miss_at coef k mi seqs j).
Proof.
  revert k seqs; induction a as [|a IH]; intros k [|s' seqs] Hs Hmi; try done; cbn [miss_at].
  - injection Hs as ->. rewrite Nat.add_0_r in *. rewrite bool_decide_true by set_solver.
    rewrite bool_decide_false by (intros Hk%Hmi; lia). rewrite Z.lxor_0_l. f_equal.
    assert (∀ l n, (k < n)%nat → miss_at coef n (k :: mi) l j = miss_at coef n mi l j) as H.
    { induction l as [|x l IH]; intros n Hn; [done|]. cbn [miss_at]. rewrite IH by lia.
      f_equal. rewrite (bool_decide_ext (n ∈ k :: mi) (n ∈ mi)); [done|].
      rewrite elem_of_cons. split; [intros [->|?]; [lia|done]|auto]. }
    apply H. lia.
  - rewrite (bool_decide_false (k ∈ mi)) by (intros Hk%Hmi; lia).
    rewrite bool_decide_false.
    2: { rewrite elem_of_cons. intros [?|Hk%Hmi]; lia. }
    rewrite !Z.lxor_0_l. rewrite <- Nat.add_succ_comm.
    apply IH; [done|]. intros i Hi%Hmi. lia.
Qed.

Lemma take_frame (v d : list Z) :
  (length d ≤ length v)%nat → (∀ j, nth j v 0 = nth j d 0) → take (length d) v = d.
Proof.
  intros Hl Hj. apply (nth_ext _ _ 0 0); [rewrite length_take; lia|].
  intros j Hlt. rewrite length_take in Hlt. rewrite nth_firstn.
  by rewrite (proj2 (Nat.ltb_lt _ _)) by lia.
Qed.

(** One erasure. *)
Lemma solve_one w seqs a s pq out :
  seqs !! a = Some s → (length (sent s) ≤ w)%nat →
  tracks P w (miss_at coef_p 0 [a] seqs) (length seqs) [] pq.1 →
  tracks Q w (miss_at coef_q 0 [a] seqs) (length seqs) [] pq.2 →
  solve [a] pq = Some out → ∃ v, out = [(a, v)] ∧ take (length (sent s)) v = sent s.
Proof.
  intros Ha Hl Hp Hq. destruct pq as [[pp|] qq]; cbn [solve].
  - intros [= <-]. exists pp. split; [done|]. destruct (Hp pp eq_refl) as (Hlen & _ & Hj).
    apply take_frame; [lia|]. intros j. rewrite Hj. cbn [fmap list_fmap share_at].
    rewrite (miss_cons coef_p 0 a [] seqs s) by (done || set_solver).
    rewrite miss_none, !Z.lxor_0_r by set_solver.
    apply mul_1_l, at0_byte, sent_bytes.
  - destruct qq as [qp|]; [|done]. intros [= <-]. eexists. split; [done|].
    destruct (Hq qp eq_refl) as (Hlen & Hb & Hj).
    rewrite scale_map by (done || apply inv_byte).
    apply take_frame; [by rewrite length_fmap, Hlen|]. intros j.
    rewrite at0_map by apply Gf256.mul_0_r. rewrite Hj. cbn [fmap list_fmap share_at].
    rewrite (miss_cons coef_q 0 a [] seqs s) by (done || set_solver).
    rewrite miss_none, !Z.lxor_0_r by set_solver.
    apply inv_mul_cancel; [apply pow2_byte|apply pow2_nonzero|apply at0_byte, sent_bytes].
Qed.

(** Two erasures. *)
Lemma solve_two w seqs a b sa sb pq out :
  seqs !! a = Some sa → seqs !! b = Some sb → (a < b < 255)%nat →
  (length (sent sa) ≤ w)%nat → (length (sent sb) ≤ w)%nat →
  tracks P w (miss_at coef_p 0 [a; b] seqs) (length seqs) [] pq.1 →
  tracks Q w (miss_at coef_q 0 [a; b] seqs) (length seqs) [] pq.2 →
  solve [a; b] pq = Some out →
  ∃ va vb, out = [(a, va); (b, vb)] ∧
    take (length (sent sa)) va = sent sa ∧ take (length (sent sb)) vb = sent sb.
Proof.
  intros Ha Hb Hab Hla Hlb Hp Hq. destruct pq as [[pp|] [qp|]]; cbn [solve]; try done.
  intros [= <-]. do 2 eexists. split; [done|].
  destruct (Hp pp eq_refl) as (Hpl & Hpb & Hpj). destruct (Hq qp eq_refl) as (Hql & Hqb & Hqj).
  set (ga := gf.pow2 a). set (gb := gf.pow2 b).
  assert (∀ coef j, miss_at coef 0 [a; b] seqs j =
            Z.lxor (gf.mul (coef a) (nth j (sent sa) 0)) (gf.mul (coef b) (nth j (sent sb) 0)))
    as Hmiss.
  { intros coef j. rewrite (miss_cons coef 0 a [b] seqs sa) by (done || set_solver by lia).
    rewrite (miss_cons coef 0 b [] seqs sb) by (done || set_solver).
    rewrite miss_none, Z.lxor_0_r by set_solver. done. }
  assert (∀ s j, byte_ok (nth j (sent s) 0)) as Hby by (intros; apply at0_byte, sent_bytes).
  assert (∀ j, nth j pp 0 = Z.lxor (nth j (sent sa) 0) (nth j (sent sb) 0)) as Hpp.
  { intros j. rewrite Hpj, Hmiss. cbn. rewrite Z.lxor_0_r. unfold coef_p.
    by rewrite !mul_1_l. }
  assert (∀ j, nth j qp 0 = Z.lxor (gf.mul ga (nth j (sent sa) 0))
                                    (gf.mul gb (nth j (sent sb) 0))) as Hqq.
  { intros j. rewrite Hqj, Hmiss. cbn. by rewrite Z.lxor_0_r. }
  assert (ga ≠ gb) as Hne by (intros E%pow2_inj; lia).
  assert (byte_ok ga ∧ byte_ok gb) as [Hga Hgb] by (split; apply pow2_byte).
  rewrite mul_acc_zip by done.
  assert (bytes_ok (gf.zip_acc (gf.mul ga) qp pp)) as Hz.
  { apply zip_acc_bytes; [intros; apply mul_byte|done..]. }
  rewrite scale_map by (apply inv_byte || done).
  set (db := gf.mul _ <$> gf.zip_acc _ _ _).
  assert (length db = w) as Hdl by (unfold db; by rewrite length_fmap, length_zip_acc).
  assert (∀ j, nth j db 0 = nth j (sent sb) 0 ∧
               Z.lxor (nth j pp 0) (nth j db 0) = nth j (sent sa) 0) as Hdb.
  { intros j. unfold db. rewrite at0_map by apply Gf256.mul_0_r.
    rewrite at0_zip_acc by (apply Gf256.mul_0_r || lia). rewrite Hpp, Hqq.
    by apply two_erasures_solved. }
  split; apply take_frame; rewrite ?length_zip_acc; try lia; intros j; [|apply Hdb].
  rewrite at0_zip_acc by (done || lia). apply Hdb.
Qed.

(** ** Evaluation *)

Lemma evict_sub order p p' o' s x :
  evict order p = (p', o') → p' !! s = Some x → p !! s = Some x.
Proof.
  revert p; induction order as [|y order IH]; intros p; cbn [evict]; [by intros [= <- <-]|].
  case_bool_decide; [|by intros [= <- <-]].
  intros He Hs. eapply IH in He; [|done]. by apply lookup_delete_Some in He as [_ ?].
Qed.

Lemma insert_genuine now s b :
  store_genuine b → store_genuine (insert_payload now s (sent s) b).
Proof.
  intros Hst s' at_ d. unfold insert_payload.
  destruct (evict _ _) as [p o] eqn:He. cbn [payloads set_payloads]. intros Hs.
  eapply evict_sub in Hs; [|exact He].
  apply lookup_insert_Some in Hs as [[<- [= <- <-]]|[_ Hs]]; [done|eauto].
Qed.

Lemma mark_genuine now s b : store_genuine b → store_genuine (mark_seen now s b).
Proof. intros Hst. unfold mark_seen. by case_bool_decide. Qed.

(** A solved position: its data, cut to its length, is what was sent. *)
Definition solved (seqs lens : list Z) (iv : nat * list Z) : Prop :=
  let s := nth iv.1 seqs 0 in
  nth iv.1 lens 0 = len (sent s) ∧ take (length (sent s)) iv.2 = sent s.

Lemma deliver_genuine now seqs lens out b b' r :
  deliver now seqs lens out b = (b', r) → Forall (solved seqs lens) out → store_genuine b →
  r = (λ i, (nth i seqs 0, sent (nth i seqs 0))) <$> out.*1 ∧ store_genuine b'.
Proof.
  revert b b' r; induction out as [|[i d] out IH]; intros b b' r; cbn [deliver].
  { by intros [= <- <-] _ ?. }
  intros Hd [[Hl Hdata] Hout]%Forall_cons Hst. cbn [fst snd] in *.
  rewrite Hl in Hd. unfold len in Hd. rewrite Nat2Z.id, Hdata in Hd.
  destruct (deliver _ _ _ _ (insert_payload _ _ _ _)) as [b2 r2] eqn:E.
  injection Hd as <- <-. eapply IH in E as [-> ?]; [done..|].
  by apply insert_genuine, mark_genuine.
Qed.

Lemma classify_sorted b i seqs :
  StronglySorted lt (classify b i seqs).1 ∧ Forall (λ k, i ≤ k)%nat (classify b i seqs).1.
Proof.
  revert i; induction seqs as [|s seqs IH]; intros i; cbn [classify]; [split; constructor|].
  specialize (IH (S i)). destruct (classify b (S i) seqs) as [mi h]. cbn [fst] in *.
  destruct IH as [Hs Hf].
  assert (Forall (λ k, i ≤ k)%nat mi) by (eapply Forall_impl; [exact Hf|]; simpl; lia).
  destruct (member_state b s); cbn [fst]; [done..|]. split; constructor; try done; try lia.
Qed.

Lemma genuine_width kind p :
  genuine kind p → length (parity p) = width (sent <$> member_seqs p).
Proof. intros []. by rewrite g_parity0, length_share. Qed.

Lemma genuine_tracks kind p seqs w :
  genuine kind p → member_seqs p = seqs → w = width (sent <$> seqs) →
  tracks kind w (λ _, 0) 0 seqs (Some (parity p)).
Proof.
  intros Hg <- ->. intros v [= <-]. destruct Hg. rewrite g_parity0. split_and!.
  - apply length_share.
  - apply share_bytes.
  - intros j. by rewrite at0_share, Z.lxor_0_l.
Qed.

(** What the shares of a group have in common. *)
Lemma shares_common sh p w :
  shares_genuine sh → any_share sh = Some p → share_width sh = Some w →
  w = width (sent <$> member_seqs p) ∧
  member_lens p = (λ s, len (sent s)) <$> member_seqs p ∧
  (length (member_seqs p) ≤ 255)%nat ∧
  tracks P w (λ _, 0) 0 (member_seqs p) (parity <$> sh_p sh) ∧
  tracks Q w (λ _, 0) 0 (member_seqs p) (parity <$> sh_q sh).
Proof.
  intros [Hp Hq] Ha Hw. unfold any_share, share_width in *.
  destruct (sh_p sh) as [p'|], (sh_q sh) as [q'|]; simplify_eq.
  - specialize (Hp p eq_refl). specialize (Hq q' eq_refl).
    repeat case_bool_decide; simplify_eq/=.
    pose proof (genuine_width _ _ Hp) as Ew.
    assert (member_seqs q' = member_seqs p) as Es by congruence.
    split_and!; [done|apply Hp|apply Hp|by eapply genuine_tracks|by eapply genuine_tracks].
  - specialize (Hp p eq_refl). pose proof (genuine_width _ _ Hp) as Ew.
    split_and!; [done|apply Hp|apply Hp|by eapply genuine_tracks|done].
  - specialize (Hq p eq_refl). pose proof (genuine_width _ _ Hq) as Ew.
    split_and!; [done|apply Hq|apply Hq|done|by eapply genuine_tracks].
Qed.

Lemma nth_lookup_0 (l : list Z) i x : l !! i = Some x → nth i l 0 = x.
Proof. intros H. by apply nth_lookup_Some with (d := 0) in H. Qed.

(** Every way of solving the stripped shares gives the erased frames. *)
Lemma solve_solved b sh p w mi h pq out :
  store_genuine b → shares_genuine sh → any_share sh = Some p → share_width sh = Some w →
  classify b 0 (member_seqs p) = (mi, h) →
  strip_known b w mi 0 (member_seqs p) (parity <$> sh_p sh, parity <$> sh_q sh) = Some pq →
  solve mi pq = Some out → Forall (solved (member_seqs p) (member_lens p)) out.
Proof.
  intros Hst Hsh Ha Hw Hc Hstrip Hsolve.
  destruct (shares_common sh p w Hsh Ha Hw) as (-> & Hlens & Hlen & Htp & Htq).
  eapply strip_spec in Hstrip as (H1 & H2 & _ & _); [|done..]. cbn [Nat.add] in H1, H2.
  pose proof (classify_spec b 0 (member_seqs p)) as Hspec.
  pose proof (classify_sorted b 0 (member_seqs p)) as [Hsort _]. rewrite Hc in Hspec, Hsort.
  destruct Hspec as (Hmi & _ & _). cbn [fst] in Hsort.
  assert (∀ k, k ∈ mi → ∃ s, member_seqs p !! k = Some s ∧
     (length (sent s) ≤ width (sent <$> member_seqs p))%nat) as Hk.
  { intros k (j & s & -> & Hj & _)%Hmi. exists s. split; [done|].
    apply width_ge, list_elem_of_fmap. exists s. split; [done|].
    by eapply list_elem_of_lookup_2. }
  assert (∀ k s v, member_seqs p !! k = Some s → take (length (sent s)) v = sent s →
            solved (member_seqs p) (member_lens p) (k, v)) as Hsol.
  { intros k s v Hs Hv. unfold solved. cbn [fst snd]. rewrite (nth_lookup_0 _ _ _ Hs).
    split; [|done]. apply nth_lookup_0. by rewrite Hlens, list_lookup_fmap, Hs. }
  destruct mi as [|a [|b' [|c mi]]]; try (destruct pq as [[] []]; done).
  - destruct (Hk a) as (s & Hs & Hl); [set_solver|].
    destruct (solve_one _ _ a s pq out Hs Hl H1 H2 Hsolve) as (v & -> & Hv).
    constructor; [by eapply Hsol|constructor].
  - destruct (Hk a) as (sa & Hsa & Hla); [set_solver|].
    destruct (Hk b') as (sb & Hsb & Hlb); [set_solver|].
    apply StronglySorted_inv in Hsort as [_ Hlt]. apply Forall_cons in Hlt as [Hlt _].
    pose proof (lookup_lt_Some _ _ _ Hsb) as Hb.
    destruct (solve_two _ _ a b' sa sb pq out Hsa Hsb ltac:(lia) Hla Hlb H1 H2 Hsolve)
      as (va & vb & -> & Hva & Hvb).
    constructor; [by eapply Hsol|]. constructor; [by eapply Hsol|constructor].
Qed.

Lemma evaluate_genuine now sh b b' ev :
  evaluate now sh b = (b', ev) → store_genuine b → shares_genuine sh →
  store_genuine b' ∧ ∀ r, ev = EvRecovered r → Forall (λ sd, sd.2 = sent sd.1) r.
Proof.
  intros [(-> & Hr & _)|(p & mi & w & pq & out & r & Ha & Hc & Hw & _ & Hs & Ho & Hd & ->)]%evaluate_cases
    Hst Hsh; [split; [done|]; intros r ->; by destruct (Hr r)|].
  eapply deliver_genuine in Hd as [-> Hst']; [|by eapply solve_solved|done].
  split; [done|]. intros r [= <-]. apply Forall_fmap, Forall_true. done.
Qed.

(** ** Every step *)

Record genuine_buf (b : FecRecoveryBuffer) : Prop := {
  gb_store : store_genuine b;
  gb_parked : map_Forall (λ _ g, shares_genuine (pg_shares g)) (parked b);
  gb_late : Forall (λ sd, sd.2 = sent sd.1) (late_recoveries b) }.

Definition genuine_op (op : fec_op) : Prop :=
  match op with
  | RxData _ seq d => d = sent seq
  | RxParity _ kind p => genuine kind p
  | RxTick _ => True
  end.

Definition genuine_event (e : fec_event) : Prop :=
  match e with Direct s d | Rebuilt s d => d = sent s end.

Lemma genuine_same b b' :
  payloads b' = payloads b → parked b' = parked b →
  late_recoveries b' = late_recoveries b → genuine_buf b → genuine_buf b'.
Proof.
  intros Hp Hk Hl []. split; [|by rewrite Hk|by rewrite Hl].
  intros s at_ d. rewrite Hp. apply gb_store0.
Qed.

Lemma genuine_evaluate now sh b b' ev :
  evaluate now sh b = (b', ev) → genuine_buf b → shares_genuine sh →
  genuine_buf b' ∧ ∀ r, ev = EvRecovered r → Forall (λ sd, sd.2 = sent sd.1) r.
Proof.
  intros He Hb Hsh.
  assert (parked b' = parked b ∧ late_recoveries b' = late_recoveries b) as [Hp Hl].
  { apply evaluate_cases in He as [(-> & _)|(?&?&?&?&?&?&_&_&_&_&_&_&Hd&_)]; [done|].
    apply deliver_frame in Hd as (_ & ? & _ & ? & _). done. }
  apply evaluate_genuine in He as [Hst Hr]; [|apply Hb|done].
  split; [|done]. destruct Hb. split; [done|by rewrite Hp|by rewrite Hl].
Qed.

Lemma genuine_note s b : genuine_buf b → genuine_buf (note_seq s b).
Proof.
  intros Hb. unfold note_seq. destruct (_ <? _); [by apply (genuine_same b)|].
  destruct (_ <=? _); [|done]. destruct Hb. by split.
Qed.

Lemma genuine_fresh now s b :
  genuine_buf b → genuine_buf (insert_payload now s (sent s) (mark_seen now s b)).
Proof.
  intros []. destruct (deliver_step_frame now s (sent s) b) as (_ & Hp & _ & Hl & _).
  split; [by apply insert_genuine, mark_genuine|by rewrite Hp|by rewrite Hl].
Qed.

Lemma genuine_unpark key g b :
  genuine_buf b → parked b !! key = Some g →
  genuine_buf (unpark key g b) ∧ shares_genuine (pg_shares g).
Proof.
  intros [] Hg. split; [|by apply (gb_parked0 key)]. split; try done.
  cbn [unpark set_parked parked]. by apply map_Forall_delete.
Qed.

Lemma genuine_drop key b : genuine_buf b → genuine_buf (drop_parked key b).
Proof.
  intros Hb. unfold drop_parked. destruct (parked b !! key) as [g|] eqn:E; [|done].
  by apply (genuine_unpark key g b).
Qed.

Lemma genuine_reports late n b :
  genuine_buf b → Forall (λ sd, sd.2 = sent sd.1) late → genuine_buf (set_reports late n b).
Proof. intros [] Hl. by split. Qed.

Section run.
Context `{!HashIter}.

Lemma genuine_park now key sh missing b :
  genuine_buf b → shares_genuine sh → genuine_buf (park now key sh missing b).
Proof.
  intros Hb Hsh. destruct (park_spec now key sh missing b) as (_ & Hl & _ & Hk & _).
  destruct (park_store now key sh missing b) as (Hp & _).
  destruct Hb. split.
  - intros s at_ d. rewrite Hp. apply gb_store0.
  - intros k g [[_ ->]|Hg]%Hk; [done|by apply (gb_parked0 k)].
  - by rewrite Hl.
Qed.

Lemma genuine_recheck now seq b :
  genuine_buf b → genuine_buf (recheck_parked_for now seq b).
Proof.
  intros Hb. destruct (parked_by_seq b !! seq) as [key|] eqn:Ek.
  2: { unfold recheck_parked_for. by rewrite Ek. }
  destruct (parked b !! key) as [g|] eqn:Eg.
  2: { unfold recheck_parked_for. rewrite Ek. cbv zeta. cbn [parked set_parked].
       rewrite Eg. by apply (genuine_same b). }
  rewrite (recheck_eq now seq key g b Ek Eg).
  set (b1 := set_parked (parked b) (delete seq (parked_by_seq b)) b).
  assert (genuine_buf b1) as Hb1 by by apply (genuine_same b).
  destruct (genuine_unpark key g b1 Hb1 Eg) as [Hb2 Hsh].
  revert Hb2. generalize (unpark key g b1). intros b2 Hb2.
  destruct (evaluate now (pg_shares g) b2) as [b3 ev] eqn:Ev.
  apply genuine_evaluate in Ev as [Hb3 Hr]; [|done..].
  destruct ev as [r| | |missing].
  - apply genuine_reports; [done|]. apply Forall_app. split; [apply Hb3|by apply Hr].
  - done.
  - apply genuine_reports; [done|apply Hb3].
  - pose proof (genuine_park now key (pg_shares g) missing b3 Hb3 Hsh) as Hb4.
    revert Hb4. generalize (park now key (pg_shares g) missing b3). intros b4 Hb4.
    unfold retime. destruct (parked b4 !! key) as [g'|] eqn:Eg'; [|done].
    destruct Hb4. split; try done. cbn [parked set_parked].
    apply map_Forall_insert_2; [|done]. exact (gb_parked0 key g' Eg').
Qed.

(** Expiry only removes payloads. *)
Lemma expire_sub now ttl order q q' o' s x :
  expire now ttl order q = (q', o') → q' !! s = Some x → q !! s = Some x.
Proof.
  revert q. induction order as [|y order IH]; intros q; cbn [expire]; [by intros [= <- <-]|].
  destruct (match _ with Some _ => _ | None => _ end); [|by intros [= <- <-]].
  intros He Hs. eapply IH in Hs; [|exact He]. by apply lookup_delete_Some in Hs as [_ ?].
Qed.

Lemma genuine_observe now seq b :
  genuine_buf b → genuine_buf (observe_data now seq (sent seq) b).1.
Proof.
  intros Hb. unfold observe_data. cbv zeta. apply (genuine_note seq) in Hb. revert Hb.
  generalize (note_seq seq b). intros b0 Hb0. destruct (_ || _); [done|]. cbn [fst].
  case_bool_decide; [by apply genuine_fresh|]. by apply genuine_recheck, genuine_fresh.
Qed.

Lemma genuine_drop_all keys b :
  genuine_buf b →
  genuine_buf (foldl (λ b key, bump_given_up (drop_parked key b)) b keys).
Proof.
  revert b. induction keys as [|k keys IH]; intros b Hb; cbn [foldl]; [done|]. apply IH.
  apply genuine_reports; [by apply genuine_drop|]. apply (genuine_drop k b Hb).
Qed.

Lemma genuine_tick now b : genuine_buf b → genuine_buf (tick now b).1.
Proof.
  intros Hb. unfold tick. destruct (expire _ _ _ _) as [p o] eqn:Ee. cbv zeta.
  set (b1 := set_payloads p o b).
  assert (genuine_buf b1) as Hb1.
  { destruct Hb. split; try done. intros s at_ d Hs.
    eapply gb_store0, expire_sub; [exact Ee|exact Hs]. }
  set (b2 := if bool_decide (parked b1 = ∅) then b1 else _).
  assert (genuine_buf b2) as Hb2
    by (subst b2; case_bool_decide; [done|by apply genuine_drop_all]).
  clearbody b2. cbn [fst].
  destruct (_ <=? _); (apply genuine_reports; [by apply (genuine_same b2)|apply Hb2]).
Qed.

Lemma genuine_step b op b' evs :
  genuine_buf b → genuine_op op → fec_step b op = (b', evs) →
  genuine_buf b' ∧ Forall genuine_event evs.
Proof.
  assert (∀ r, Forall (λ sd, sd.2 = sent sd.1) r → Forall genuine_event (rebuilt r)) as Hreb.
  { intros r Hr. by apply Forall_fmap. }
  intros Hb Hop Hstep. destruct op as [now seq d|now kind p|now]; cbn in Hstep, Hop.
  - destruct (observe_data now seq d b) as [b1 fresh] eqn:Eo. subst d.
    pose proof (genuine_observe now seq b Hb) as Hb1. rewrite Eo in Hb1. cbn [fst] in Hb1.
    assert (Forall genuine_event (if fresh then [Direct seq (sent seq)] else [])) as Hf.
    { destruct fresh; repeat constructor. }
    destruct (has_late_recoveries b1); cbn in Hstep; injection Hstep as <- <-;
      (split; [|apply Forall_app; split; [done|]]); try done.
    + by apply genuine_reports.
    + apply Hreb, Hb1.
  - destruct (noted (RxParity now kind p)) as [top|] eqn:En.
    2: { rewrite try_recover_noop in Hstep by done. injection Hstep as <- <-. by split. }
    apply noted_some in En as (key & rest & Hs & -> & Hlen).
    rewrite (try_recover_eq _ _ _ _ _ _ Hs Hlen) in Hstep.
    apply (genuine_note (list_max key rest)) in Hb. revert Hb Hstep.
    generalize (note_seq (list_max key rest) b). intros b0 Hb0.
    assert (genuine_buf (take_parked key b0).1 ∧
            shares_genuine (take_parked key b0).2) as [Hb1 Hsh].
    { unfold take_parked. destruct (parked b0 !! key) as [g|] eqn:Eg;
        [by apply genuine_unpark|]. split; [done|]. by split. }
    destruct (take_parked key b0) as [b1 sh]. cbn [fst snd] in *.
    assert (shares_genuine (add_share kind p sh)) as Hsh'.
    { destruct Hsh, kind; split; cbn; intros; simplify_eq; auto. }
    destruct (evaluate now (add_share kind p sh) b1) as [b2 ev] eqn:Ev.
    apply genuine_evaluate in Ev as [Hb2 Hr]; [|done..].
    destruct ev; intros [= <- <-]; (split; [|auto]); try done. by apply genuine_park.
  - pose proof (genuine_tick now b Hb) as Hb1. by destruct (tick now b); injection Hstep as <- <-.
Qed.

Fixpoint fec_run (b : FecRecoveryBuffer) (ops : list fec_op)
    : FecRecoveryBuffer * list fec_event :=
  match ops with
  | [] => (b, [])
  | op :: ops =>
      let '(b, evs) := fec_step b op in
      let '(b, evs') := fec_run b ops in (b, evs ++ evs')
  end.

Lemma genuine_run ops b b' evs :
  genuine_buf b → Forall genuine_op ops → fec_run b ops = (b', evs) →
  genuine_buf b' ∧ Forall genuine_event evs.
Proof.
  revert b evs; induction ops as [|op ops IH]; intros b evs Hb Hops; cbn [fec_run].
  { intros [= <- <-]. by split. }
  apply Forall_cons in Hops as [Hop Hops].
  destruct (fec_step b op) as [b1 e1] eqn:E1. destruct (fec_run b1 ops) as [b2 e2] eqn:E2.
  intros [= <- <-]. apply genuine_step in E1 as [Hb1 He1]; [|done..].
  apply IH in E2 as [Hb2 He2]; [|done..]. split; [done|]. by apply Forall_app.
Qed.

(** C3. Whatever the order of data frames, parity frames and timer ticks,
    duplicates and losses included, every frame the recovery buffer hands on is
    byte for byte the frame that was sent under its sequence number. *)
Theorem rebuilt_is_sent parity_count now ops b evs :
  Forall genuine_op ops →
  fec_run (FecRecoveryBuffer_new parity_count now) ops = (b, evs) →
  Forall genuine_event evs.
Proof.
  intros Hops Hrun. eapply genuine_run in Hrun as [_ ?]; [done| |done].
  split; [|apply map_Forall_empty|constructor]. intros s at_ d. cbn. by rewrite lookup_empty.
Qed.

(** ** Recovery succeeds *)

Lemma classify_filter b seqs :
  (λ i, nth i seqs 0) <$> (classify b 0 seqs).1 =
  filter (λ s, member_state b s = Missing) seqs.
Proof.
  assert (∀ k seqs0, (λ i, nth (i - k) seqs0 0) <$> (classify b k seqs0).1 =
            filter (λ s, member_state b s = Missing) seqs0) as H'.
  { intros k seqs0; revert k; induction seqs0 as [|s l IH]; intros k; [done|].
    cbn [classify]. rewrite filter_cons. pose proof (classify_sorted b (S k) l) as [_ Hge].
    assert ((λ i, nth (i - k) (s :: l) 0) <$> (classify b (S k) l).1 =
            filter (λ s, member_state b s = Missing) l) as Hshift.
    { rewrite <- (IH (S k)). apply list_fmap_ext. intros j i Hi.
      pose proof (Forall_lookup_1 _ _ _ _ Hge Hi) as Hi'. simpl in Hi'.
      replace (i - k)%nat with (S (i - S k)) by lia. done. }
    destruct (classify b (S k) l) as [mi h].
    destruct (member_state b s); cbn [fst]; [done..|].
    rewrite decide_True by done. cbn [fmap list_fmap]. rewrite Nat.sub_diag. by f_equal. }
  rewrite <- (H' O). apply list_fmap_ext. intros j i _. by rewrite Nat.sub_0_r.
Qed.

Definition missing_of (b : FecRecoveryBuffer) (seqs : list Z) : list Z :=
  filter (λ s, member_state b s = Missing) seqs.

(** Both shares of a group have the same width. *)
Lemma share_width_total sh p :
  shares_genuine sh → any_share sh = Some p →
  (∀ p q, sh_p sh = Some p → sh_q sh = Some q → member_seqs p = member_seqs q) →
  is_Some (share_width sh).
Proof.
  intros [Hp Hq] Ha Heq. unfold any_share, share_width in *.
  destruct (sh_p sh) as [p'|], (sh_q sh) as [q'|]; [|by eexists|by eexists|done].
  specialize (Heq p' q' eq_refl eq_refl). specialize (Hp p' eq_refl). specialize (Hq q' eq_refl).
  rewrite (genuine_width _ _ Hp), (genuine_width _ _ Hq).
  rewrite (g_lens _ _ Hp), (g_lens _ _ Hq), <- Heq.
  rewrite !bool_decide_false by naive_solver. by eexists.
Qed.

(** The two codes solve for one erasure with either share and for two with
    both. *)
Lemma solve_total mi pq :
  length mi = 1%nat ∧ (is_Some pq.1 ∨ is_Some pq.2) ∨
  length mi = 2%nat ∧ is_Some pq.1 ∧ is_Some pq.2 → is_Some (solve mi pq).
Proof.
  destruct pq as [pp qq]. cbn [fst snd].
  destruct mi as [|a [|a' [|a'' mi]]]; cbn [length]; intros [[? Hs]|(? & [x ->] & [y ->])]; try lia.
  - destruct pp, qq; cbn [solve]; [by eexists..|]. by destruct Hs as [[]|[]].
  - by eexists.
Qed.

(** Enough shares for the erasures, and the other members stored: every
    erased member is rebuilt. *)
Lemma evaluate_recovers now sh p b :
  store_genuine b → shares_genuine sh → any_share sh = Some p →
  (∀ p q, sh_p sh = Some p → sh_q sh = Some q → member_seqs p = member_seqs q) →
  (∀ s, s ∈ member_seqs p → member_state b s ≠ Handled) →
  let miss := missing_of b (member_seqs p) in
  length miss = 1%nat ∨
  (length miss = 2%nat ∧ 2 ≤ parity_count b ∧ is_Some (sh_p sh) ∧ is_Some (sh_q sh)) →
  ∃ b', evaluate now sh b = (b', EvRecovered ((λ s, (s, sent s)) <$> miss)).
Proof.
  intros Hst Hsh Ha Heq Hnh miss Hlen.
  destruct (share_width_total sh p Hsh Ha Heq) as [w Hw].
  destruct (shares_common sh p w Hsh Ha Hw) as (Ew & Hlens & _ & _ & _).
  pose proof (classify_filter b (member_seqs p)) as Hf. fold (missing_of b (member_seqs p)) in Hf.
  fold miss in Hf. pose proof (classify_spec b 0 (member_seqs p)) as Hspec.
  unfold evaluate. fold (any_share sh). rewrite Ha.
  destruct (classify b 0 (member_seqs p)) as [mi h] eqn:Hc. cbn [fst] in Hf.
  destruct Hspec as (Hmi & _ & Hh). apply Hh in Hnh as ->.
  assert (length mi = length miss) as Hlm by (rewrite <- Hf; by rewrite length_fmap).
  rewrite (bool_decide_false (mi = [])) by (intros ->; cbn in Hlm; lia).
  rewrite bool_decide_false.
  2: { destruct Hlen as [?|(? & ? & _)]; [case_match; lia|].
       rewrite (proj2 (Z.leb_le _ _)) by done. lia. }
  rewrite bool_decide_false by lia. cbn [orb].
  assert (bool_decide (length mi = 2%nat) &&
          negb (bool_decide (is_Some (sh_p sh)) && bool_decide (is_Some (sh_q sh))) = false) as ->.
  { destruct Hlen as [?|(_ & _ & ? & ?)]; [by rewrite bool_decide_false by lia|].
    rewrite !(bool_decide_true (is_Some _)) by done. apply andb_false_r. }
  rewrite Hw.
  assert (∀ k, k ∈ mi → ∃ s, member_seqs p !! k = Some s) as Hk.
  { intros k (j & s & -> & Hj & _)%Hmi. by exists s. }
  assert (∀ k s, member_seqs p !! k = Some s → (length (sent s) ≤ w)%nat) as Hle.
  { intros k s Hs. rewrite Ew. apply width_ge, list_elem_of_fmap. exists s.
    split; [done|]. by eapply list_elem_of_lookup_2. }
  assert (existsb (λ i, bool_decide (w < Z.to_nat (nth i (member_lens p) 0%Z))%nat) mi = false) as ->.
  { apply not_true_iff_false. intros (i & [s Hs]%list_elem_of_In%Hk & Hi)%existsb_exists.
    apply bool_decide_eq_true in Hi. pose proof (Hle i s Hs).
    rewrite Hlens, (nth_lookup_0 _ i (len (sent s))) in Hi
      by (by rewrite list_lookup_fmap, Hs). unfold len in Hi. lia. }
  destruct (strip_total b w mi 0 (member_seqs p) (parity <$> sh_p sh, parity <$> sh_q sh) Hst)
    as [pq Hpq].
  { intros i s Hs Hn. split; [|by eapply Hle].
    destruct (member_state b s) eqn:Em.
    - unfold member_state in Em. case_bool_decide; [done|]. by repeat case_match.
    - exfalso. apply (proj1 Hh eq_refl s); [by eapply list_elem_of_lookup_2|done].
    - exfalso. apply Hn, Hmi. exists i, s. done. }
  rewrite Hpq. cbn [mbind option_bind].
  eapply strip_spec in Hpq as Htr; [|done|apply shares_common with (p := p); done..].
  destruct Htr as (_ & _ & Hsp & Hsq). cbn [fst snd] in Hsp, Hsq.
  rewrite !fmap_is_Some in Hsp, Hsq.
  assert (is_Some (solve mi pq)) as [out Hout].
  { apply solve_total. rewrite Hsp, Hsq, Hlm.
    destruct Hlen as [?|(? & _ & ? & ?)]; [left|by right]. split; [done|].
    unfold any_share in Ha. destruct (sh_p sh), (sh_q sh); try done; eauto. }
  rewrite Hout. destruct (deliver _ _ _ _ _) as [b' r] eqn:Hd. exists b'.
  eapply deliver_genuine in Hd as [-> _]; [|by eapply solve_solved|done].
  rewrite (solve_positions _ _ _ Hout), <- Hf, <- list_fmap_compose. done.
Qed.

End run.

End sent.

(** Frames 1 and 2 of [sample_parity] as sent, and a run that loses frame 2. *)
Definition sample_sent (s : Z) : list Z := if s =? 1 then [7; 9] else if s =? 2 then [3] else [].

Lemma rebuilt_is_sent_witness :
  Forall (genuine_event sample_sent) [Direct 1 [7; 9]; Rebuilt 2 [3]].
Proof.
  apply (@rebuilt_is_sent sample_sent) with (H := list_iter) (parity_count := 1) (now := 0)
    (ops := [sample_data; sample_data; sample_share; RxTick 9])
    (b := (@fec_run list_iter (FecRecoveryBuffer_new 1 0)
            [sample_data; sample_data; sample_share; RxTick 9]).1).
  - intros s. unfold sample_sent.
    repeat case_match; repeat constructor; unfold byte_ok; lia.
  - repeat constructor; vm_compute; try reflexivity; lia.
  - vm_compute. reflexivity.
Defined.
