(* ===== verification/FecEndToEnd.v ===== *)
(** * A group of frames from the sender to the receiver ([fec.rs])

    The shares [FecSender] makes, fed to a fresh [FecRecoveryBuffer] together
    with the members that arrived, give back the members that did not. *)

From S2P Require Import Prelude Bytes Protocol Gf256 F64 Configuration.
From S2P Require Import Fec FecRecovery FecSafety FecCorrect.

(** ** The frames of a group *)

Definition sent_of (fs : list frame) (s : Z) : list Z :=
  match filter (λ f, f_seq f = s) fs with f :: _ => f_data f | [] => [] end.

Lemma sent_of_frame fs f :
  NoDup (f_seq <$> fs) → f ∈ fs → sent_of fs (f_seq f) = f_data f.
Proof.
  intros Hnd Hf. unfold sent_of.
  destruct (filter (λ g, f_seq g = f_seq f) fs) as [|g l] eqn:E.
  - assert (f ∈ filter (λ g, f_seq g = f_seq f) fs) as Hin by (by apply list_elem_of_filter).
    rewrite E in Hin. by apply not_elem_of_nil in Hin.
  - assert (g ∈ filter (λ g, f_seq g = f_seq f) fs) as Hg by (rewrite E; apply list_elem_of_here).
    apply list_elem_of_filter in Hg as [Hs Hg].
    apply list_elem_of_lookup in Hf as [i Hi]. apply list_elem_of_lookup in Hg as [j Hj].
    assert (i = j) as ->.
    { eapply (NoDup_lookup _ i j (f_seq f) Hnd); rewrite list_lookup_fmap;
        [by rewrite Hi|rewrite Hj; cbn; by rewrite Hs]. }
    congruence.
Qed.

Lemma sent_of_bytes fs s : Forall frame_ok fs → bytes_ok (sent_of fs s).
Proof.
  intros Hfs. unfold sent_of. destruct (filter _ fs) as [|f l] eqn:E; [constructor|].
  assert (f ∈ filter (λ f, f_seq f = s) fs) as Hf by (rewrite E; apply list_elem_of_here).
  apply list_elem_of_filter in Hf as [_ Hf].
  eapply Forall_forall in Hfs as (_ & ? & _); done.
Qed.

Lemma payload_genuine kind fs :
  NoDup (f_seq <$> fs) → (length fs ≤ 255)%nat →
  genuine (sent_of fs) kind (payload_of (coef_of kind) fs).
Proof.
  intros Hnd Hlen.
  assert (sent_of fs <$> (f_seq <$> fs) = f_data <$> fs) as E.
  { rewrite <- list_fmap_compose. apply list_fmap_ext. intros i f Hf.
    apply sent_of_frame; [done|]. by eapply list_elem_of_lookup_2. }
  split; cbn [payload_of member_seqs member_lens parity].
  - transitivity (len <$> (sent_of fs <$> (f_seq <$> fs))).
    + rewrite E. by rewrite <- list_fmap_compose.
    + by rewrite <- list_fmap_compose.
  - by rewrite E.
  - by rewrite length_fmap.
Qed.

(** ** A receiver that has seen part of a window *)

Record in_window (lo : Z) (S : gset Z) (b : FecRecoveryBuffer) : Prop := {
  w_pay : ∀ s, is_Some (payloads b !! s) ↔ s ∈ S;
  w_cur : seen_current b = S;
  w_prev : seen_previous b = ∅;
  w_floor : seen_floor b = None;
  w_high : 0 ≤ highest_seq b ∧ (highest_seq b = 0 ∨ lo ≤ highest_seq b < lo + 65536);
  w_order : length (payload_order b) = size S }.

Definition near (lo s : Z) : Prop := lo ≤ s < lo + 65536 ∧ 0 ≤ s ∧ s + 65536 < 2 ^ 64.

Lemma note_near lo S b s :
  near lo s → in_window lo S b →
  in_window lo S (note_seq s b) ∧ parked (note_seq s b) = parked b ∧
  (note_seq s b = b ∨ note_seq s b = set_highest s b) ∧ s ≤ highest_seq (note_seq s b).
Proof.
  intros ((? & ?) & ? & ?) []. unfold note_seq.
  destruct (Z.ltb_spec (highest_seq b) s).
  - split_and!; [|done|by right|cbn; lia]. split; try done. cbn. lia.
  - destruct (Z.leb_spec SEQ_RESET_GAP (sat_sub (highest_seq b) s)) as [Hgap|]; [exfalso|].
    + unfold sat_sub in Hgap. change SEQ_RESET_GAP with 16777216 in Hgap. lia.
    + split_and!; [done|done|by left|lia].
Qed.

Lemma window_missing lo S b s :
  near lo s → in_window lo S b → s ∉ S → member_state b s = Missing.
Proof.
  intros (? & ? & ?) [] Hs. unfold member_state.
  rewrite bool_decide_false by (by rewrite w_pay0).
  rewrite w_cur0, w_prev0, w_floor0, bool_decide_false, (bool_decide_false (s ∈ ∅))
    by (done || set_solver). cbn [orb].
  rewrite wrap_small by (unfold fits, STALE_SEQ_WINDOW; lia).
  rewrite (proj2 (Z.leb_gt _ _)) by (unfold STALE_SEQ_WINDOW; lia). done.
Qed.

Lemma window_known lo S b s : in_window lo S b → s ∈ S → member_state b s = Known.
Proof. intros [] Hs. unfold member_state. by rewrite bool_decide_true by by apply w_pay0. Qed.

Lemma observe_near `{!HashIter} lo S b now s d :
  near lo s → in_window lo S b → s ∉ S → (size S < 4096)%nat → parked b = ∅ →
  late_recoveries b = [] →
  ∃ b', fec_step b (RxData now s d) = (b', [Direct s d]) ∧
    in_window lo ({[s]} ∪ S) b' ∧ parked b' = ∅ ∧ late_recoveries b' = [] ∧
    parity_count b' = parity_count b.
Proof.
  intros Hn Hw Hs Hsz Hpk Hlate. cbn [fec_step]. unfold observe_data.
  destruct (note_near lo S b s Hn Hw) as (Hw1 & Hpk1 & _ & _).
  destruct (note_seq_frame s b) as (_ & _ & Hl1 & Hc1). rewrite Hpk in Hpk1. rewrite Hlate in Hl1.
  rewrite <- Hc1. revert Hw1 Hpk1 Hl1. generalize (note_seq s b). clear Hw Hpk Hlate Hc1.
  intros b1 Hw Hpk Hlate. cbv zeta.
  pose proof Hw as [Hpay Hcur Hprev Hfl Hhigh Hord].
  rewrite Hcur, Hprev, bool_decide_false, (bool_decide_false (s ∈ ∅)) by (done || set_solver).
  cbn [orb].
  destruct (mark_cases now s b1) as [[_ Hm]|[Hge _]]; [by rewrite Hcur| |].
  2: { pose proof max_payloads_seen. rewrite Hcur in Hge.
       assert (MAX_PAYLOADS = 4096%nat) by by vm_compute. lia. }
  rewrite Hm. clear Hm.
  set (b2 := set_seen _ _ _ _ _ b1).
  assert (payloads b2 !! s = None) as Hnone.
  { apply eq_None_not_Some. intros Hin. by apply Hpay in Hin. }
  unfold insert_payload. rewrite Hnone, evict_small.
  2: { assert (MAX_PAYLOADS = 4096%nat) as -> by by vm_compute.
       rewrite length_app. subst b2. cbn [payload_order set_seen length]. lia. }
  set (b3 := set_payloads _ _ b2).
  assert (parked b3 = ∅ ∧ late_recoveries b3 = [] ∧ parity_count b3 = parity_count b1)
    as (Hp3 & Hl3 & Hc3) by done.
  rewrite (bool_decide_true (parked b3 = ∅)) by done.
  unfold has_late_recoveries. rewrite (bool_decide_false (late_recoveries b3 ≠ [])) by naive_solver.
  exists b3. split_and!; try done. split; cbn; try done.
  - intros s'. destruct (decide (s' = s)) as [->|Hne].
    + rewrite lookup_insert_eq. split; [set_solver|by eexists].
    + rewrite lookup_insert_ne by done. rewrite Hpay. set_solver.
  - by rewrite Hcur.
  - rewrite length_app, Hord, size_union, size_singleton by set_solver. cbn. lia.
Qed.

Lemma filter_agree {A} (Q1 Q2 : A → Prop) `{!∀ x, Decision (Q1 x), !∀ x, Decision (Q2 x)} l :
  Forall (λ x, Q1 x ↔ Q2 x) l → filter Q1 l = filter Q2 l.
Proof.
  induction 1 as [|x l Hx Hl IH]; [done|]. rewrite !filter_cons, IH.
  destruct (decide (Q1 x)), (decide (Q2 x)); naive_solver.
Qed.

Lemma filter_none {A} (Q : A → Prop) `{!∀ x, Decision (Q x)} l :
  Forall (λ x, ¬ Q x) l → filter Q l = [].
Proof. induction 1 as [|x l Hx Hl IH]; [done|]. by rewrite filter_cons_False. Qed.

Lemma filter_whole {A} (Q : A → Prop) `{!∀ x, Decision (Q x)} l :
  Forall Q l → filter Q l = l.
Proof. induction 1 as [|x l Hx Hl IH]; [done|]. by rewrite filter_cons_True, IH. Qed.

Section receive.
Context `{!HashIter}.

Definition arrivals (now : Z) (arr : list frame) : list fec_op :=
  (λ f, RxData now (f_seq f) (f_data f)) <$> arr.
Definition directs (arr : list frame) : list fec_event :=
  (λ f, Direct (f_seq f) (f_data f)) <$> arr.

Lemma fec_run_app b ops ops' :
  fec_run b (ops ++ ops') =
  let '(b, evs) := fec_run b ops in
  let '(b, evs') := fec_run b ops' in (b, evs ++ evs').
Proof.
  revert b; induction ops as [|op ops IH]; intros b; cbn [app fec_run].
  - by destruct (fec_run b ops').
  - destruct (fec_step b op) as [b1 e1]. rewrite IH. destruct (fec_run b1 ops) as [b2 e2].
    destruct (fec_run b2 ops') as [b3 e3]. by rewrite app_assoc.
Qed.

Lemma arrivals_near lo S b now arr :
  Forall (λ f, near lo (f_seq f)) arr → NoDup (f_seq <$> arr) →
  (∀ f, f ∈ arr → f_seq f ∉ S) → (size S + length arr ≤ 4096)%nat →
  in_window lo S b → parked b = ∅ → late_recoveries b = [] →
  ∃ b', fec_run b (arrivals now arr) = (b', directs arr) ∧
    in_window lo (list_to_set (f_seq <$> arr) ∪ S) b' ∧ parked b' = ∅ ∧
    parity_count b' = parity_count b.
Proof.
  revert S b; induction arr as [|f arr IH]; intros S b Hnear Hnd HS Hsz Hw Hpk Hl.
  { exists b. cbn. by rewrite union_empty_l_L. }
  apply Forall_cons in Hnear as [Hf Hnear]. cbn [fmap list_fmap] in Hnd.
  apply NoDup_cons in Hnd as [Hnf Hnd]. cbn [length] in Hsz.
  destruct (observe_near lo S b now (f_seq f) (f_data f)) as (b1 & Hstep & Hw1 & Hpk1 & Hl1 & Hc1);
    try done; [apply HS; apply list_elem_of_here|lia|].
  destruct (IH ({[f_seq f]} ∪ S) b1) as (b2 & Hrun & Hw2 & Hpk2 & Hc2); try done.
  - intros g Hg. rewrite not_elem_of_union, not_elem_of_singleton. split.
    + intros Heq. apply Hnf, list_elem_of_fmap. by exists g.
    + apply HS. by apply elem_of_cons; right.
  - rewrite size_union, size_singleton; [lia|].
    apply disjoint_singleton_l, HS, list_elem_of_here.
  - exists b2. cbn [arrivals fmap list_fmap fec_run]. rewrite Hstep.
    fold (arrivals now arr). rewrite Hrun. split_and!; try done; [|congruence].
    cbn [list_to_set fmap list_fmap]. by rewrite <- (assoc_L (∪)), (comm_L (∪) {[_]}), <- (assoc_L (∪)),
      (comm_L (∪) S).
Qed.

Lemma in_window_same lo S b b' :
  payloads b' = payloads b → payload_order b' = payload_order b →
  seen_current b' = seen_current b → seen_previous b' = seen_previous b →
  seen_floor b' = seen_floor b → highest_seq b' = highest_seq b →
  in_window lo S b → in_window lo S b'.
Proof. intros E1 E2 E3 E4 E5 E6 []. by split; rewrite ?E1, ?E2, ?E3, ?E4, ?E5, ?E6. Qed.

Lemma window_filter lo S b seqs :
  Forall (near lo) seqs → in_window lo S b →
  missing_of b seqs = filter (λ s, s ∉ S) seqs ∧
  ∀ s, s ∈ seqs → member_state b s ≠ Handled.
Proof.
  intros Hnear Hw. split.
  - unfold missing_of. apply filter_agree. eapply Forall_impl; [exact Hnear|].
    intros s Hs. cbn. destruct (decide (s ∈ S)) as [Hin|Hin].
    + rewrite (window_known lo S) by done. naive_solver.
    + rewrite (window_missing lo S) by done. naive_solver.
  - intros s Hs. eapply Forall_forall in Hnear; [|done]. destruct (decide (s ∈ S)) as [Hin|Hin].
    + by rewrite (window_known lo S).
    + by rewrite (window_missing lo S).
Qed.

(** One share with two members missing: the group waits. *)
Lemma evaluate_waits now sh p b :
  any_share sh = Some p → ¬ (is_Some (sh_p sh) ∧ is_Some (sh_q sh)) →
  (∀ s, s ∈ member_seqs p → member_state b s ≠ Handled) →
  length (missing_of b (member_seqs p)) = 2%nat → 2 ≤ parity_count b →
  ∃ l, evaluate now sh b = (b, EvNeedMore l).
Proof.
  intros Ha Hone Hnh Hlen Hpc. unfold evaluate. fold (any_share sh). rewrite Ha.
  pose proof (classify_filter b (member_seqs p)) as Hf.
  pose proof (classify_spec b 0 (member_seqs p)) as Hspec.
  destruct (classify b 0 (member_seqs p)) as [mi h]. cbn [fst] in Hf.
  destruct Hspec as (_ & _ & Hh). apply Hh in Hnh as ->.
  assert (length mi = 2%nat) as Hlm.
  { rewrite <- Hlen. unfold missing_of. rewrite <- Hf. by rewrite length_fmap. }
  rewrite (bool_decide_false (mi = [])) by (intros ->; done).
  rewrite (proj2 (Z.leb_le _ _)) by done. rewrite !bool_decide_false by lia. cbn [orb].
  rewrite (bool_decide_true (length mi = 2%nat)) by done.
  assert (bool_decide (is_Some (sh_p sh)) && bool_decide (is_Some (sh_q sh)) = false) as ->.
  { apply andb_false_iff. rewrite !bool_decide_eq_false.
    destruct (decide (is_Some (sh_p sh))); tauto. }
  by eexists.
Qed.

Context (sent : Z → list Z) (sent_bytes : ∀ s, bytes_ok (sent s)).

Lemma genuine_seqs kind p : genuine sent kind p → length (member_seqs p) = length (member_lens p).
Proof. intros Hg. by rewrite (g_lens _ _ _ Hg), length_fmap. Qed.

Lemma near_max lo key rest : Forall (near lo) (key :: rest) → near lo (list_max key rest).
Proof.
  intros Hnear. assert (list_max key rest ∈ key :: rest) as Hin.
  { unfold list_max. clear. revert key; induction rest as [|y l IH]; intros key; cbn [fold_left];
      [apply list_elem_of_here|]. specialize (IH (Z.max key y)).
    apply elem_of_cons in IH as [->|Hin]; [|do 2 (apply elem_of_cons; right); done].
    destruct (Z.max_spec key y) as [[_ ->]|[_ ->]]; rewrite !elem_of_cons; auto. }
  by eapply Forall_forall in Hnear.
Qed.

(** A share that finds its group's erasures solvable, with the share already
    parked for the group if there is one. *)
Lemma parity_near lo S b now kind p key rest :
  in_window lo S b → store_genuine sent b → genuine sent kind p →
  member_seqs p = key :: rest → Forall (near lo) (member_seqs p) →
  let lost := filter (λ s, s ∉ S) (member_seqs p) in
  (parked b !! key = None ∧ length lost = 1%nat) ∨
  (length lost = 2%nat ∧ 2 ≤ parity_count b ∧
   ∃ at_ miss kind' p', kind' ≠ kind ∧ genuine sent kind' p' ∧
     member_seqs p' = member_seqs p ∧
     parked b !! key = Some (mkParked at_ (add_share kind' p' (mkShares None None)) miss)) →
  ∃ b', fec_step b (RxParity now kind p) = (b', rebuilt ((λ s, (s, sent s)) <$> lost)).
Proof.
  intros Hw Hst Hg Hs Hnear lost Hcase. cbn [fec_step].
  rewrite (try_recover_eq _ _ _ _ _ _ Hs (genuine_seqs _ _ Hg)).
  pose proof (near_max lo key rest ltac:(by rewrite <- Hs)) as Hmax.
  destruct (note_near lo S b _ Hmax Hw) as (Hw1 & Hpk1 & Hor & _).
  assert (store_genuine sent (note_seq (list_max key rest) b)) as Hst1
    by (destruct Hor as [->| ->]; done).
  assert (parity_count (note_seq (list_max key rest) b) = parity_count b) as Hc1
    by apply note_seq_frame.
  revert Hw1 Hpk1 Hst1 Hc1. generalize (note_seq (list_max key rest) b).
  intros b1 Hw1 Hpk1 Hst1 Hc1. unfold take_parked. rewrite Hpk1.
  assert (∀ b2 sh, in_window lo S b2 → store_genuine sent b2 → shares_genuine sent sh →
    parity_count b2 = parity_count b →
    (∃ k' p', any_share sh = Some p' ∧ genuine sent k' p' ∧ member_seqs p' = member_seqs p) →
    (∀ p q, sh_p sh = Some p → sh_q sh = Some q → member_seqs p = member_seqs q) →
    length lost = 1%nat ∨ (length lost = 2%nat ∧ 2 ≤ parity_count b ∧
       is_Some (sh_p sh) ∧ is_Some (sh_q sh)) →
    ∃ b3, evaluate now sh b2 = (b3, EvRecovered ((λ s, (s, sent s)) <$> lost))) as Heval.
  { intros b2 sh Hw2 Hst2 Hsh Hc2 (k' & p' & Ha & Hg' & Hs') Heq Hl.
    destruct (window_filter lo S b2 (member_seqs p') ltac:(by rewrite Hs') Hw2) as [Hmiss Hnh].
    assert (lost = missing_of b2 (member_seqs p')) as -> by by rewrite Hmiss, Hs'.
    rewrite <- Hc2 in Hl. eapply evaluate_recovers; done. }
  destruct Hcase as [[Hnone Hl]|(Hl & Hpc & at_ & miss & kind' & p' & Hne & Hg' & Hs' & Hpk)].
  - rewrite Hnone.
    destruct (Heval b1 (add_share kind p (mkShares None None))) as [b3 ->]; try done.
    + destruct kind; split; cbn; intros; by simplify_eq.
    + exists kind, p. by destruct kind.
    + destruct kind; cbn; intros; by simplify_eq.
    + by left.
    + by eexists.
  - rewrite Hpk. cbn [pg_shares].
    destruct (Heval (unpark key (mkParked at_ (add_share kind' p' (mkShares None None)) miss) b1)
      (add_share kind p (add_share kind' p' (mkShares None None)))) as [b3 ->]; try done.
    + by apply (in_window_same lo S b1).
    + destruct kind, kind'; try done; split; cbn; intros; by simplify_eq.
    + destruct kind, kind'; try done; [exists P, p|exists P, p']; done.
    + destruct kind, kind'; try done; cbn; intros; simplify_eq; congruence.
    + right. destruct kind, kind'; try done; cbn; (split_and!; [done..|by eexists|by eexists]).
    + by eexists.
Qed.

Lemma park_first now key sh missing b :
  parked b = ∅ →
  park now key sh missing b = park_in now key sh missing b.
Proof.
  intros Hpk. rewrite park_room. unfold make_room. rewrite Hpk, map_size_empty.
  rewrite bool_decide_false by (pose proof max_parked_pos; lia). done.
Qed.

(** The first of the two shares, two members missing. *)
Lemma parity_waits lo S b now kind p key rest :
  in_window lo S b → genuine sent kind p → member_seqs p = key :: rest →
  Forall (near lo) (member_seqs p) → parked b = ∅ → 2 ≤ parity_count b →
  length (filter (λ s, s ∉ S) (member_seqs p)) = 2%nat →
  ∃ b' miss, fec_step b (RxParity now kind p) = (b', []) ∧ in_window lo S b' ∧
    parity_count b' = parity_count b ∧ payloads b' = payloads b ∧
    parked b' !! key = Some (mkParked now (add_share kind p (mkShares None None)) miss).
Proof.
  intros Hw Hg Hs Hnear Hpk Hpc Hl. cbn [fec_step].
  rewrite (try_recover_eq _ _ _ _ _ _ Hs (genuine_seqs _ _ Hg)).
  destruct (note_near lo S b _ (near_max lo key rest ltac:(by rewrite <- Hs)) Hw)
    as (Hw1 & Hpk1 & Hor & _).
  assert (parity_count (note_seq (list_max key rest) b) = parity_count b ∧
          payloads (note_seq (list_max key rest) b) = payloads b) as [Hc1 Hp1]
    by (destruct Hor as [->| ->]; done).
  rewrite <- Hc1, <- Hp1. rewrite <- Hc1 in Hpc. rewrite Hpk in Hpk1.
  revert Hw1 Hpk1 Hpc. generalize (note_seq (list_max key rest) b). clear b Hw Hpk Hor Hc1 Hp1.
  intros b Hw Hpk Hpc. unfold take_parked. rewrite Hpk, lookup_empty.
  destruct (window_filter lo S b (member_seqs p) Hnear Hw) as [Hmiss Hnh].
  destruct (evaluate_waits now (add_share kind p (mkShares None None)) p b) as [l ->]; try done.
  - by destruct kind.
  - destruct kind; cbn; intros [[] []]; done.
  - by rewrite Hmiss.
  - rewrite park_first by done. eexists _, l. split; [done|].
    split_and!; [by apply (in_window_same lo S b)|done..|].
    cbn. by rewrite Hpk, lookup_insert_eq.
Qed.

End receive.

(** ** Sender and receiver together *)

Definition rebuilt_frames (fs : list frame) : list fec_event :=
  (λ f, Rebuilt (f_seq f) (f_data f)) <$> fs.

Lemma lost_seqs fs lost arr :
  NoDup (f_seq <$> fs) → fs ≡ₚ lost ++ arr →
  ∃ lost', lost' ≡ₚ lost ∧
    filter (λ s, s ∉ (list_to_set (f_seq <$> arr) : gset Z)) (f_seq <$> fs) = f_seq <$> lost'.
Proof.
  intros Hnd Hperm. set (S := list_to_set (f_seq <$> arr) : gset Z).
  assert (filter (λ s, s ∉ S) (f_seq <$> fs) ≡ₚ f_seq <$> lost) as Hp.
  { rewrite Hperm, fmap_app, filter_app. rewrite Hperm, fmap_app in Hnd.
    apply NoDup_app in Hnd as (_ & Hdis & _).
    rewrite (filter_none _ (f_seq <$> arr)), app_nil_r, filter_whole; [done| |].
    - apply Forall_forall. intros s Hs%Hdis. subst S. by rewrite elem_of_list_to_set.
    - apply Forall_forall. intros s Hs. subst S. rewrite elem_of_list_to_set. naive_solver. }
  apply Permutation_map_inv in Hp as (lost' & E & Hp).
  by exists lost'.
Qed.

Section end_to_end.
Context `{!HashIter}.
Context (fs lost arr : list frame) (lo pc t0 now : Z).
Hypothesis frames_ok : Forall frame_ok fs.
Hypothesis distinct : NoDup (f_seq <$> fs).
Hypothesis size_ok : (1 ≤ length fs ≤ 255)%nat.
Hypothesis close : Forall (λ f, near lo (f_seq f)) fs.
Hypothesis losses : fs ≡ₚ lost ++ arr.

Let share_of kind := payload_of (coef_of kind) fs.

(** The receiver once the surviving members have arrived. *)
Lemma after_arrivals :
  ∃ b, fec_run (FecRecoveryBuffer_new pc t0) (arrivals now arr) = (b, directs arr) ∧
    in_window lo (list_to_set (f_seq <$> arr)) b ∧ parked b = ∅ ∧ parity_count b = pc ∧
    store_genuine (sent_of fs) b.
Proof.
  destruct (arrivals_near lo ∅ (FecRecoveryBuffer_new pc t0) now arr) as (b & Hrun & Hw & Hpk & Hc);
    try done.
  - rewrite losses in close. by apply Forall_app in close as [_ ?].
  - rewrite losses, fmap_app in distinct. by apply NoDup_app in distinct as (_ & _ & ?).
  - rewrite size_empty. apply Permutation_length in losses. rewrite length_app in losses. lia.
  - split; try done; [intros s; cbn; rewrite lookup_empty; split; [by intros []|set_solver]|].
    cbn. lia.
  - exists b. rewrite union_empty_r_L in Hw. split_and!; try done.
    apply (genuine_run (sent_of fs)) in Hrun as [[Hst _ _] _]; [done|by intros; apply sent_of_bytes| |].
    + split; [|apply map_Forall_empty|constructor]. intros s at_ d. cbn. by rewrite lookup_empty.
    + apply Forall_fmap, Forall_forall. intros f Hf. cbn. symmetry. apply sent_of_frame; [done|].
      rewrite losses. apply elem_of_app. by right.
Qed.

Lemma first_member : ∃ key rest, f_seq <$> fs = key :: rest.
Proof. destruct fs as [|f l]; [cbn in size_ok; lia|]. by eexists _, _. Qed.

Lemma rebuilt_lost lost' :
  lost' ≡ₚ lost →
  rebuilt ((λ s, (s, sent_of fs s)) <$> (f_seq <$> lost')) = rebuilt_frames lost'.
Proof.
  intros Hp. unfold rebuilt, rebuilt_frames. rewrite <- !list_fmap_compose.
  apply list_fmap_ext. intros i f Hf%list_elem_of_lookup_2. cbn. f_equal.
  apply sent_of_frame; [done|]. rewrite losses, elem_of_app, <- Hp. by left.
Qed.

Lemma survives_one kind :
  length lost = 1%nat →
  ∃ b lost', lost' ≡ₚ lost ∧
    fec_run (FecRecoveryBuffer_new pc t0) (arrivals now arr ++ [RxParity now kind (share_of kind)])
    = (b, directs arr ++ rebuilt_frames lost').
Proof.
  intros Hl. destruct after_arrivals as (b & Hrun & Hw & Hpk & Hc & Hst).
  destruct (lost_seqs fs lost arr distinct losses) as (lost' & Hp & Hf).
  destruct first_member as (key & rest & Es).
  destruct (parity_near (sent_of fs) ltac:(by intros; apply sent_of_bytes)
    lo _ b now kind (share_of kind) key rest Hw Hst) as [b' Hstep].
  - apply payload_genuine; [done|lia].
  - done.
  - by apply Forall_fmap.
  - left. rewrite Hpk, lookup_empty. split; [done|].
    cbn [share_of payload_of member_seqs]. rewrite Hf, length_fmap, Hp. done.
  - exists b', lost'. split; [done|]. rewrite fec_run_app, Hrun. cbn [fec_run]. rewrite Hstep.
    cbn [share_of payload_of member_seqs]. rewrite Hf, rebuilt_lost by done.
    by rewrite app_nil_r.
Qed.

Lemma survives_two k1 k2 :
  k1 ≠ k2 → length lost = 2%nat → 2 ≤ pc →
  ∃ b lost', lost' ≡ₚ lost ∧
    fec_run (FecRecoveryBuffer_new pc t0)
      (arrivals now arr ++ [RxParity now k1 (share_of k1); RxParity now k2 (share_of k2)])
    = (b, directs arr ++ rebuilt_frames lost').
Proof.
  intros Hk Hl Hpc. destruct after_arrivals as (b & Hrun & Hw & Hpk & Hc & Hst).
  destruct (lost_seqs fs lost arr distinct losses) as (lost' & Hp & Hf).
  assert (∀ k, genuine (sent_of fs) k (share_of k)) as Hg.
  { intros k. apply payload_genuine; [done|lia]. }
  assert (∀ k, Forall (near lo) (member_seqs (share_of k))) as Hn by (intros; by apply Forall_fmap).
  destruct first_member as (key & rest & Es).
  assert (∀ k, length (filter (λ s, s ∉ (list_to_set (f_seq <$> arr) : gset Z))
                         (member_seqs (share_of k))) = 2%nat) as Hlen.
  { intros k. cbn [share_of payload_of member_seqs]. by rewrite Hf, length_fmap, Hp. }
  destruct (parity_waits (sent_of fs) lo _ b now k1 (share_of k1) key rest Hw (Hg k1))
    as (b1 & miss & Hstep1 & Hw1 & Hc1 & Hp1 & Hpk1); try done; [by rewrite Hc|].
  destruct (parity_near (sent_of fs) ltac:(by intros; apply sent_of_bytes)
    lo _ b1 now k2 (share_of k2) key rest Hw1) as [b2 Hstep2]; try done.
  - intros s at_ d. rewrite Hp1. apply Hst.
  - right. split_and!; [done|congruence|]. by exists now, miss, k1, (share_of k1).
  - exists b2, lost'. split; [done|]. rewrite fec_run_app, Hrun. cbn [fec_run].
    rewrite Hstep1, Hstep2. cbn [share_of payload_of member_seqs].
    rewrite Hf, rebuilt_lost by done. by rewrite app_nil_r.
Qed.

End end_to_end.

(** C1. From sender to receiver: of a group of up to 255 frames, any one lost
    member is rebuilt from the survivors and the [P] share, and any two from the
    survivors and both shares, byte for byte and each exactly once. *)
Theorem group_survives `{!HashIter} fs lost arr lo pc t0 now s g :
  Forall frame_ok fs → NoDup (f_seq <$> fs) → (1 ≤ length fs ≤ 255)%nat →
  Forall (λ f, near lo (f_seq f)) fs → fs ≡ₚ lost ++ arr →
  feed (FecSender_new (len fs) pc) fs = (s, [g]) →
  (length lost = 1%nat →
     ∃ b, fec_run (FecRecoveryBuffer_new pc t0)
            (arrivals now arr ++ [RxParity now P (group_p g)])
          = (b, directs arr ++ rebuilt_frames lost)) ∧
  (length lost = 2%nat → ∀ q, group_q g = Some q →
     ∃ b lost', lost' ≡ₚ lost ∧
       fec_run (FecRecoveryBuffer_new pc t0)
         (arrivals now arr ++ [RxParity now P (group_p g); RxParity now Q q])
       = (b, directs arr ++ rebuilt_frames lost')).
Proof.
  intros Hok Hnd Hlen Hnear Hperm Hfeed.
  assert (FecSender_new (len fs) pc = sender_state (length fs) (2 <=? pc) []) as Hnew.
  { unfold FecSender_new, sender_state, len. rewrite Nat2Z.id. by destruct (2 <=? pc). }
  rewrite Hnew, (feed_chunks _ _ 1) in Hfeed by (done || lia).
  cbn [List.seq fmap list_fmap] in Hfeed. rewrite Nat.mul_0_r, drop_0, firstn_all in Hfeed.
  injection Hfeed as _ <-. split.
  - intros Hl. destruct (survives_one fs lost arr lo pc t0 now Hok Hnd Hlen Hnear Hperm P Hl)
      as (b & lost' & Hp & Hrun).
    exists b. rewrite <- (Permutation_length Hp) in Hl. destruct lost' as [|x [|]]; try done.
    apply Permutation_singleton_l in Hp. subst lost. exact Hrun.
  - intros Hl q Hq. cbn in Hq. destruct (Z.leb_spec 2 pc) as [Hpc|]; [|done].
    injection Hq as <-.
    exact (survives_two fs lost arr lo pc t0 now Hok Hnd Hlen Hnear Hperm P Q ltac:(done) Hl Hpc).
Qed.

(** Three frames; the second lost, or the first and the third. *)
Definition sample_group : FecGroup := group_of true sample_frames.

Lemma sample_frames_ok :
  Forall frame_ok sample_frames ∧ NoDup (f_seq <$> sample_frames) ∧
  Forall (λ f, near 0 (f_seq f)) sample_frames.
Proof.
  split_and!; [|by apply (bool_decide_unpack _)|];
    repeat (constructor || split); vm_compute; congruence.
Qed.

Lemma group_survives_witness :
  (∃ b, @fec_run list_iter (FecRecoveryBuffer_new 2 0)
          [RxData 4 1 [7; 9]; RxData 4 3 [1; 1; 1]; RxParity 4 P (group_p sample_group)]
        = (b, [Direct 1 [7; 9]; Direct 3 [1; 1; 1]; Rebuilt 2 [3]])) ∧
  (∃ b lost', lost' ≡ₚ [mkFrame 1 [7; 9] 0; mkFrame 3 [1; 1; 1] 0] ∧
     @fec_run list_iter (FecRecoveryBuffer_new 2 0)
       [RxData 4 2 [3]; RxParity 4 P (group_p sample_group);
        RxParity 4 Q (payload_of coef_q sample_frames)]
     = (b, [Direct 2 [3]] ++ rebuilt_frames lost')).
Proof.
  destruct sample_frames_ok as (Hok & Hnd & Hnear).
  split.
  - apply (@group_survives list_iter sample_frames [mkFrame 2 [3] 1]
      [mkFrame 1 [7; 9] 0; mkFrame 3 [1; 1; 1] 0] 0 2 0 4 (sender_state 3 true []) sample_group);
      [done|done|cbn; lia|done| |vm_compute; reflexivity|done].
    apply perm_swap.
  - apply (@group_survives list_iter sample_frames [mkFrame 1 [7; 9] 0; mkFrame 3 [1; 1; 1] 0]
      [mkFrame 2 [3] 1] 0 2 0 4 (sender_state 3 true []) sample_group);
      [done|done|cbn; lia|done| |vm_compute; reflexivity|done|done].
    apply perm_skip, perm_swap.
Defined.
