(* ===== verification/RxPipeline.v ===== *)
(** * The receive pipeline ([tunnel.rs])

    [ReorderBuffer], [rx_deliver] and the loop of [rx_pipeline]: the single
    owner of the receive-side state, one step per event it takes from its
    channel and per timer tick. What is written to the TUN device is kept as
    a list, oldest first. The primary flag is read once per delivered packet;
    the [n]-th read is answered by the parameter [primary_is_set]. *)

From S2P Require Import Prelude Bytes Protocol FecRecovery FecSafety FecCorrect.

(** ** BTreeMap *)

(** An ordered map as its ascending association list. *)
Fixpoint bt_insert {V} (k : Z) (v : V) (m : list (Z * V)) : list (Z * V) * option V :=
  match m with
  | [] => ([(k, v)], None)
  | (k', v') :: m' =>
      if k <? k' then ((k, v) :: m, None)
      else if k =? k' then ((k, v) :: m', Some v')
      else let '(m', old) := bt_insert k v m' in ((k', v') :: m', old)
  end.

(** ** Reorder buffer *)

Definition U64_MAX : Z := 2 ^ 64 - 1.

(** [fetch_max(seq.saturating_add(1))], and the value it stands for. *)
Definition advance_watermark (wm seq : Z) : Z := Z.max wm (Z.min U64_MAX (seq + 1)).
Definition watermark_value (wm : Z) : option Z := checked_sub wm 1.

Record ReorderCounters := mkCounters {
  late : Z;
  duplicate : Z;
  timeout : Z;
  wait_recent_us : Z;
  wait_max_us : Z;
  max_depth : Z }.

Record ReorderBuffer := mkReorder {
  window : Z;
  high_watermark : Z;
  pending : list (Z * (Z * list Z));
  counters : ReorderCounters }.

Definition millis (n : Z) : Z := n * 1000000.

Definition ReorderBuffer_new (window_ms : Z) : ReorderBuffer :=
  mkReorder (millis window_ms) 0 [] (mkCounters 0 0 0 0 0 0).

Definition note_delivered (seq : Z) (r : ReorderBuffer) : ReorderBuffer :=
  mkReorder (window r) (advance_watermark (high_watermark r) seq) (pending r) (counters r).

Definition watermark (r : ReorderBuffer) : option Z := watermark_value (high_watermark r).

Definition set_window (window_ms : Z) (r : ReorderBuffer) : ReorderBuffer :=
  mkReorder (millis window_ms) (high_watermark r) (pending r) (counters r).

Definition insert (now seq : Z) (payload : list Z) (r : ReorderBuffer) : ReorderBuffer :=
  let c := counters r in
  let late' := if match watermark r with Some wm => seq <=? wm | None => false end
               then wrap 64 (late c + 1) else late c in
  let '(p, old) := bt_insert seq (now, payload) (pending r) in
  let dup' := match old with Some _ => wrap 64 (duplicate c + 1) | None => duplicate c end in
  mkReorder (window r) (high_watermark r) p
    (mkCounters late' dup' (timeout c) (wait_recent_us c) (wait_max_us c)
       (Z.max (max_depth c) (len p))).

(** One round of the loop of [drain_ready]. *)
Definition drain_one (now seq sent_at : Z) (r : ReorderBuffer)
    (rest : list (Z * (Z * list Z))) : ReorderBuffer :=
  let waited_us := wrap 64 (sat_sub now sent_at / 1000) in
  let c := counters r in
  let recent := wait_recent_us c - wait_recent_us c / 8 + waited_us / 8 in
  note_delivered seq
    (mkReorder (window r) (high_watermark r) rest
       (mkCounters (late c) (duplicate c) (timeout c) (wrap 64 recent)
          (Z.max (wait_max_us c) waited_us) (max_depth c))).

Fixpoint drain_loop (now : Z) (p : list (Z * (Z * list Z))) (r : ReorderBuffer)
    : ReorderBuffer * list (list Z) :=
  match p with
  | [] => (r, [])
  | (seq, (sent_at, payload)) :: rest =>
      let '(r, out) := drain_loop now rest (drain_one now seq sent_at r rest) in
      (r, payload :: out)
  end.

Definition drain_ready (now : Z) (r : ReorderBuffer) : ReorderBuffer * list (list Z) :=
  drain_loop now (pending r) r.

(** ** The pipeline *)

Record RxPipelineStats := mkStats {
  st_window_ms : Z;
  st_depth : Z;
  st_max_depth : Z;
  st_wait_recent_us : Z;
  st_wait_max_us : Z;
  st_late_total : Z;
  st_duplicate_total : Z;
  st_timeout_total : Z;
  st_dropped_total : Z;
  st_busy_ns_total : Z;
  st_max_backlog : Z }.

Definition publish (r : ReorderBuffer) (s : RxPipelineStats) : RxPipelineStats :=
  let c := counters r in
  mkStats (window r / 1000000) (len (pending r)) (max_depth c) (wait_recent_us c)
    (wait_max_us c) (late c) (duplicate c) (timeout c)
    (st_dropped_total s) (st_busy_ns_total s) (st_max_backlog s).

Inductive RxEvent :=
  | EvData (seq : Z) (plaintext : list Z)
  | EvParity (kind : ParityKind) (p : FecParityPayload)
  | EvSetReorderWindow (ms : Z).

(** The local variables of [rx_pipeline], the atomics it shares, how often
    the primary flag has been read, and what went to the TUN device. *)
Record Pipeline := mkPipeline {
  reorder : ReorderBuffer;
  fec_recovery : FecRecoveryBuffer;
  fec_recovered_total : Z;
  fec_unrecoverable_total : Z;
  dropped : Z;
  stats : RxPipelineStats;
  flag_reads : nat;
  tun : list (list Z) }.

Section pipeline.
Context `{!HashIter}.
Context (primary_is_set : nat → bool).
Context (fec_on : bool).

Definition set_delivery (r : ReorderBuffer) (reads : nat) (t : list (list Z)) (p : Pipeline) :=
  mkPipeline r (fec_recovery p) (fec_recovered_total p) (fec_unrecoverable_total p)
    (dropped p) (stats p) reads t.
Definition set_fec (b : FecRecoveryBuffer) (p : Pipeline) :=
  mkPipeline (reorder p) b (fec_recovered_total p) (fec_unrecoverable_total p)
    (dropped p) (stats p) (flag_reads p) (tun p).
Definition set_totals (rec unrec : Z) (p : Pipeline) :=
  mkPipeline (reorder p) (fec_recovery p) rec unrec (dropped p) (stats p)
    (flag_reads p) (tun p).
Definition set_stats (dr : Z) (s : RxPipelineStats) (p : Pipeline) :=
  mkPipeline (reorder p) (fec_recovery p) (fec_recovered_total p)
    (fec_unrecoverable_total p) dr s (flag_reads p) (tun p).

Definition rx_deliver (now seq : Z) (plaintext : list Z) (p : Pipeline) : Pipeline :=
  if primary_is_set (flag_reads p) then
    set_delivery (note_delivered seq (reorder p)) (S (flag_reads p))
      (tun p ++ [plaintext]) p
  else
    let '(r, pkts) := drain_ready now (insert now seq plaintext (reorder p)) in
    set_delivery r (S (flag_reads p)) (tun p ++ pkts) p.

(** [for (seq, plaintext) in frames { recovered_total += 1; rx_deliver }]. *)
Fixpoint deliver_recovered (now : Z) (frames : recoveries) (p : Pipeline) : Pipeline :=
  match frames with
  | [] => p
  | (seq, plaintext) :: frames =>
      let p := set_totals (wrap 64 (fec_recovered_total p + 1)) (fec_unrecoverable_total p) p in
      deliver_recovered now frames (rx_deliver now seq plaintext p)
  end.

Definition handle_event (now : Z) (ev : RxEvent) (p : Pipeline) : Pipeline :=
  match ev with
  | EvData seq plaintext =>
      let '(p, skip) :=
        if fec_on then
          let '(b, fresh) := observe_data now seq plaintext (fec_recovery p) in
          (set_fec b p, negb fresh)
        else (p, false) in
      if skip then p
      else
        let p := rx_deliver now seq plaintext p in
        if fec_on && has_late_recoveries (fec_recovery p) then
          let '(b, late) := take_late_recoveries (fec_recovery p) in
          deliver_recovered now late (set_fec b p)
        else p
  | EvParity kind parity =>
      let '(b, oc) := try_recover now kind parity (fec_recovery p) in
      let p := set_fec b p in
      match oc with
      | Recovered frames => deliver_recovered now frames p
      | Unrecoverable =>
          set_totals (fec_recovered_total p) (wrap 64 (fec_unrecoverable_total p + 1)) p
      | AlreadyComplete | Pending => p
      end
  | EvSetReorderWindow ms =>
      set_delivery (set_window ms (reorder p)) (flag_reads p) (tun p) p
  end.

(** One turn of the [select!] loop. [Batch] carries what [recv_many] returned
    with the clock at each event, the channel's length after it, and how long
    the batch took. *)
Inductive pipe_step :=
  | Batch (events : list (Z * RxEvent)) (rx_len busy_ns : Z)
  | FlushTick (now : Z)
  | FecTick (now : Z)
  | ReportTick.

Definition pipeline_step (st : pipe_step) (p : Pipeline) : Pipeline :=
  match st with
  | Batch events rx_len busy_ns =>
      let s := stats p in
      let p := set_stats (dropped p)
        (mkStats (st_window_ms s) (st_depth s) (st_max_depth s) (st_wait_recent_us s)
           (st_wait_max_us s) (st_late_total s) (st_duplicate_total s) (st_timeout_total s)
           (st_dropped_total s) (st_busy_ns_total s)
           (Z.max (st_max_backlog s) (wrap 64 (rx_len + len events)))) p in
      let p := foldl (λ p ev, handle_event ev.1 ev.2 p) p events in
      let s := stats p in
      set_stats (dropped p)
        (mkStats (st_window_ms s) (st_depth s) (st_max_depth s) (st_wait_recent_us s)
           (st_wait_max_us s) (st_late_total s) (st_duplicate_total s) (st_timeout_total s)
           (st_dropped_total s) (wrap 64 (st_busy_ns_total s + wrap 64 busy_ns))
           (st_max_backlog s)) p
  | FlushTick now =>
      let '(r, pkts) := drain_ready now (reorder p) in
      let p := set_delivery r (flag_reads p) (tun p ++ pkts) p in
      set_stats (dropped p) (publish r (stats p)) p
  | FecTick now =>
      if fec_on then
        let '(b, given_up) := tick now (fec_recovery p) in
        let p := set_fec b p in
        if 0 <? given_up
        then set_totals (fec_recovered_total p)
               (wrap 64 (fec_unrecoverable_total p + given_up)) p
        else p
      else p
  | ReportTick =>
      let s := stats p in
      if 0 <? dropped p then
        set_stats 0
          (mkStats (st_window_ms s) (st_depth s) (st_max_depth s) (st_wait_recent_us s)
             (st_wait_max_us s) (st_late_total s) (st_duplicate_total s) (st_timeout_total s)
             (wrap 64 (st_dropped_total s + dropped p)) (st_busy_ns_total s)
             (st_max_backlog s)) p
      else set_stats 0 s p
  end.

Definition pipeline_new (reorder_window_ms : Z) (b : FecRecoveryBuffer) : Pipeline :=
  mkPipeline (ReorderBuffer_new reorder_window_ms) b 0 0 0
    (mkStats 0 0 0 0 0 0 0 0 0 0 0) 0 [].

(** ** What reaches the TUN device *)

(** The buffer is empty between packets. *)
Lemma deliver_immediate now seq d p :
  pending (reorder p) = [] →
  let p' := rx_deliver now seq d p in
  pending (reorder p') = [] ∧ tun p' = tun p ++ [d] ∧ fec_recovery p' = fec_recovery p ∧
  high_watermark (reorder p') = advance_watermark (high_watermark (reorder p)) seq ∧
  duplicate (counters (reorder p')) = duplicate (counters (reorder p)) ∧
  fec_recovered_total p' = fec_recovered_total p.
Proof.
  intros Hp. unfold rx_deliver. destruct (primary_is_set _); [done|].
  unfold insert. rewrite Hp. cbn. done.
Qed.

Lemma recovered_immediate now r p :
  pending (reorder p) = [] →
  let p' := deliver_recovered now r p in
  pending (reorder p') = [] ∧ tun p' = tun p ++ r.*2 ∧ fec_recovery p' = fec_recovery p ∧
  duplicate (counters (reorder p')) = duplicate (counters (reorder p)).
Proof.
  revert p; induction r as [|[s d] r IH]; intros p Hp; cbn [deliver_recovered].
  { by rewrite app_nil_r. }
  set (p1 := set_totals _ _ p).
  destruct (deliver_immediate now s d p1 Hp) as (H1 & H2 & H3 & _ & H4 & _).
  destruct (IH (rx_deliver now s d p1) H1) as (E1 & E2 & E3 & E4).
  split_and!; [done| |by rewrite E3, H3|by rewrite E4, H4].
  rewrite E2, H2. cbn. by rewrite <- app_assoc.
Qed.

Lemma evaluate_late now sh b : late_recoveries (evaluate now sh b).1 = late_recoveries b.
Proof.
  destruct (evaluate now sh b) as [b' ev] eqn:E.
  apply evaluate_cases in E as [(-> & _)|(?&?&?&?&?&?&_&_&_&_&_&_&Hd&_)]; [done|].
  by apply deliver_frame in Hd as (_ & _ & _ & ? & _).
Qed.

Lemma try_recover_late now kind q b :
  late_recoveries (try_recover now kind q b).1 = late_recoveries b.
Proof.
  destruct (noted (RxParity now kind q)) as [top|] eqn:En; [|by rewrite try_recover_noop].
  apply noted_some in En as (key & rest & Hs & -> & Hlen).
  rewrite (try_recover_eq _ _ _ _ _ _ Hs Hlen).
  destruct (note_seq_frame (list_max key rest) b) as (_ & _ & <- & _).
  generalize (note_seq (list_max key rest) b). clear b. intros b.
  assert (late_recoveries (take_parked key b).1 = late_recoveries b) as <-.
  { unfold take_parked. by destruct (parked b !! key). }
  destruct (take_parked key b) as [b1 sh]. cbn [fst].
  rewrite <- (evaluate_late now (add_share kind q sh) b1).
  destruct (evaluate now (add_share kind q sh) b1) as [b2 []]; try done.
  apply park_spec.
Qed.

Lemma tick_late now b : late_recoveries (tick now b).1 = late_recoveries b.
Proof.
  unfold tick. destruct (expire _ _ _ _) as [q o]. cbv zeta. cbn [fst].
  set (b1 := set_payloads q o b). set (b2 := if bool_decide _ then b1 else _).
  assert (late_recoveries b2 = late_recoveries b) as <-.
  { subst b2. case_bool_decide; [done|]. change (late_recoveries b) with (late_recoveries b1).
    generalize (fst <$> filter (λ kg, payload_ttl b1 ≤ sat_sub now (pg_at kg.2))
                   (hash_iter (parked b1))). generalize b1. clear.
    intros b keys; revert b; induction keys as [|k keys IH]; intros b; cbn [foldl]; [done|].
    rewrite IH. apply drop_parked_frame. }
  clearbody b2. by destruct (_ <=? _).
Qed.

Definition event_data (e : fec_event) : list Z :=
  match e with Direct _ d | Rebuilt _ d => d end.

Lemma rebuilt_data r : event_data <$> rebuilt r = r.*2.
Proof. unfold rebuilt. rewrite <- list_fmap_compose. by apply list_fmap_ext. Qed.

(** The steps of the abstract recovery machine an event stands for. *)
Definition event_ops (ev : Z * RxEvent) : list fec_op :=
  match ev.2 with
  | EvData seq d => [RxData ev.1 seq d]
  | EvParity kind q => [RxParity ev.1 kind q]
  | EvSetReorderWindow _ => []
  end.

Definition step_ops (st : pipe_step) : list fec_op :=
  match st with
  | Batch events _ _ => events ≫= event_ops
  | FecTick now => [RxTick now]
  | FlushTick _ | ReportTick => []
  end.

(** The pipeline and the abstract machine in step: same buffer, same packets. *)
Definition agrees (b : FecRecoveryBuffer) (out : list (list Z)) (p : Pipeline) : Prop :=
  pending (reorder p) = [] ∧ fec_recovery p = b ∧ late_recoveries b = [] ∧
  tun p = out ∧ duplicate (counters (reorder p)) = 0.

Lemma fec_run_one b op : fec_run b [op] = fec_step b op.
Proof. cbn. destruct (fec_step b op) as [b1 e]. by rewrite app_nil_r. Qed.

Lemma handle_event_agrees ev b out p :
  fec_on = true → agrees b out p →
  let '(b', evs) := fec_run b (event_ops ev) in
  agrees b' (out ++ (event_data <$> evs)) (handle_event ev.1 ev.2 p).
Proof.
  intros Hon (Hp & Hb & Hl & Ht & Hd). destruct ev as [now [seq d|kind q|ms]].
  - cbn [event_ops snd]. rewrite fec_run_one. cbn [fec_step handle_event fst snd].
    rewrite Hon, Hb. cbn [andb].
    destruct (observe_data now seq d b) as [b1 fresh] eqn:Eo. destruct fresh; cbn [negb].
    + destruct (deliver_immediate now seq d (set_fec b1 p) Hp) as (H1 & H2 & H3 & _ & H4 & _).
      rewrite H3. cbn [fec_recovery set_fec].
      unfold has_late_recoveries, take_late_recoveries. case_bool_decide as Hlate.
      * edestruct (recovered_immediate now (late_recoveries b1)
          (set_fec (set_reports [] (given_up b1) b1) (rx_deliver now seq d (set_fec b1 p))))
          as (E1 & E2 & E3 & E4); [exact H1|].
        unfold agrees. rewrite E1, E2, E3, E4. cbn [fec_recovery reorder tun set_fec] in *.
        rewrite H2, H4, Ht. split_and!; try done.
        rewrite fmap_app, rebuilt_data. cbn. by rewrite <- app_assoc.
      * unfold agrees. rewrite H1, H2, H3, H4.
        cbn. rewrite Ht. by split_and!.
    + assert (late_recoveries b1 = []) as Hl1.
      { unfold observe_data in Eo. destruct (note_seq_frame seq b) as (_ & _ & E & _).
        destruct (_ || _); injection Eo as <-; [congruence|done]. }
      unfold has_late_recoveries. rewrite bool_decide_false by naive_solver.
      cbn. rewrite app_nil_r. by split_and!.
  - cbn [event_ops snd]. rewrite fec_run_one. cbn [fec_step handle_event fst snd]. rewrite Hb.
    pose proof (try_recover_late now kind q b) as Hl'.
    destruct (try_recover now kind q b) as [b1 oc]. cbn [fst] in Hl'. rewrite Hl in Hl'.
    destruct oc as [r| | |]; try (rewrite app_nil_r; by split_and!).
    destruct (recovered_immediate now r (set_fec b1 p) Hp) as (E1 & E2 & E3 & E4).
    unfold agrees. rewrite E1, E2, E3, E4, rebuilt_data. cbn. rewrite Ht. by split_and!.
  - cbn. rewrite app_nil_r. by split_and!.
Qed.

Lemma fec_run_app' b ops ops' b1 e1 :
  fec_run b ops = (b1, e1) →
  fec_run b (ops ++ ops') = let '(b2, e2) := fec_run b1 ops' in (b2, e1 ++ e2).
Proof.
  revert b e1; induction ops as [|op ops IH]; intros b e1; cbn [app fec_run].
  - intros [= <- <-]. by destruct (fec_run b ops').
  - destruct (fec_step b op) as [b2 e2]. destruct (fec_run b2 ops) as [b3 e3] eqn:E.
    intros [= <- <-]. rewrite (IH _ _ E). destruct (fec_run b3 ops') as [b4 e4].
    by rewrite app_assoc.
Qed.

Lemma batch_agrees events b out p :
  fec_on = true → agrees b out p →
  let '(b', evs) := fec_run b (events ≫= event_ops) in
  agrees b' (out ++ (event_data <$> evs)) (foldl (λ p ev, handle_event ev.1 ev.2 p) p events).
Proof.
  intros Hon. revert b out p; induction events as [|ev events IH]; intros b out p Ha.
  { cbn. by rewrite app_nil_r. }
  cbn [foldl mbind list_bind]. pose proof (handle_event_agrees ev b out p Hon Ha) as H1.
  destruct (fec_run b (event_ops ev)) as [b1 e1] eqn:E1.
  rewrite (fec_run_app' _ _ _ _ _ E1). apply IH in H1.
  destruct (fec_run b1 (events ≫= event_ops)) as [b2 e2].
  by rewrite fmap_app, app_assoc.
Qed.

Lemma step_agrees st b out p :
  fec_on = true → agrees b out p →
  let '(b', evs) := fec_run b (step_ops st) in
  agrees b' (out ++ (event_data <$> evs)) (pipeline_step st p).
Proof.
  intros Hon Ha. destruct st as [events rx_len busy|now|now|]; cbn [step_ops pipeline_step].
  - set (p1 := set_stats _ _ p). assert (agrees b out p1) as Ha1 by exact Ha.
    apply (batch_agrees events) in Ha1; [|done].
    destruct (fec_run b (events ≫= event_ops)) as [b' evs]. exact Ha1.
  - destruct Ha as (Hp & Hb & Hl & Ht & Hd). unfold drain_ready. rewrite Hp. cbn.
    rewrite !app_nil_r. by split_and!.
  - rewrite fec_run_one, Hon. destruct Ha as (Hp & Hb & Hl & Ht & Hd). cbn [fec_step].
    rewrite Hb. pose proof (tick_late now b) as Hl'. destruct (tick now b) as [b1 n].
    cbn [fst] in Hl'. cbn. rewrite app_nil_r. destruct (0 <? n); split_and!; try done; congruence.
  - cbn. rewrite app_nil_r. destruct (0 <? dropped p); exact Ha.
Qed.

Lemma steps_agree sts b out p :
  fec_on = true → agrees b out p →
  let '(b', evs) := fec_run b (sts ≫= step_ops) in
  agrees b' (out ++ (event_data <$> evs)) (foldl (λ p st, pipeline_step st p) p sts).
Proof.
  intros Hon. revert b out p; induction sts as [|st sts IH]; intros b out p Ha.
  { cbn. by rewrite app_nil_r. }
  cbn [foldl mbind list_bind]. pose proof (step_agrees st b out p Hon Ha) as H1.
  destruct (fec_run b (step_ops st)) as [b1 e1] eqn:E1.
  rewrite (fec_run_app' _ _ _ _ _ E1). apply IH in H1.
  destruct (fec_run b1 (sts ≫= step_ops)) as [b2 e2].
  by rewrite fmap_app, app_assoc.
Qed.

(** C8. With FEC on, [rx_pipeline] refines the recovery machine: after any
    sequence of batches and timer ticks, what went to the TUN device is the
    data of the machine's events in order, the buffers are equal, and nothing is
    held back in the reorder buffer. *)
Theorem pipeline_refines_recovery window_ms parity_count t0 sts :
  fec_on = true →
  let p := foldl (λ p st, pipeline_step st p)
             (pipeline_new window_ms (FecRecoveryBuffer_new parity_count t0)) sts in
  let '(b, evs) := fec_run (FecRecoveryBuffer_new parity_count t0) (sts ≫= step_ops) in
  tun p = event_data <$> evs ∧ fec_recovery p = b ∧ pending (reorder p) = [].
Proof.
  intros Hon p.
  pose proof (steps_agree sts (FecRecoveryBuffer_new parity_count t0) []
    (pipeline_new window_ms (FecRecoveryBuffer_new parity_count t0)) Hon) as H'.
  destruct (fec_run _ _) as [b evs]. destruct H' as (? & ? & _ & ? & _); done.
Qed.


(** ** Without FEC *)

(** The frames of a step, as they arrived. *)
Definition event_frames (ev : Z * RxEvent) : list (Z * list Z) :=
  match ev.2 with EvData seq d => [(seq, d)] | _ => [] end.
Definition step_frames (st : pipe_step) : list (Z * list Z) :=
  match st with Batch events _ _ => events ≫= event_frames | _ => [] end.

(** Without FEC a receiver drops parity frames before the pipeline. *)
Definition no_parity (st : pipe_step) : Prop :=
  match st with
  | Batch events _ _ => Forall (λ ev, match ev.2 with EvParity _ _ => False | _ => True end) events
  | _ => True
  end.

Definition fifo_state (frames : list (Z * list Z)) (p : Pipeline) : Prop :=
  pending (reorder p) = [] ∧ tun p = frames.*2 ∧
  high_watermark (reorder p) = foldl advance_watermark 0 frames.*1 ∧
  duplicate (counters (reorder p)) = 0.

Lemma batch_fifo events frames p :
  fec_on = false → fifo_state frames p →
  Forall (λ ev, match ev.2 with EvParity _ _ => False | _ => True end) events →
  fifo_state (frames ++ (events ≫= event_frames))
    (foldl (λ p ev, handle_event ev.1 ev.2 p) p events).
Proof.
  intros Hoff. revert frames p; induction events as [|[now ev] events IH]; intros frames p Hf Hev.
  { by rewrite app_nil_r. }
  apply Forall_cons in Hev as [Hev Hevs]. cbn [foldl mbind list_bind fst snd] in *.
  rewrite app_assoc. apply IH; [|done]. destruct Hf as (Hp & Ht & Hw & Hd).
  destruct ev as [seq d|kind q|ms]; [|done|].
  - cbn [handle_event event_frames snd]. rewrite Hoff. cbn [andb].
    destruct (deliver_immediate now seq d p Hp) as (H1 & H2 & _ & H3 & H4 & _).
    unfold fifo_state. rewrite H1, H2, H3, H4, !fmap_app, foldl_app, Ht, Hw. by split_and!.
  - cbn. rewrite app_nil_r. by split_and!.
Qed.

(** Without FEC, the TUN device gets every received frame in the order
    the pipeline received it: frames are neither sorted nor dropped as
    duplicates, and the watermark is the highest sequence number delivered. *)
Theorem pipeline_fifo_without_fec window_ms b sts :
  fec_on = false → Forall no_parity sts →
  let frames := sts ≫= step_frames in
  let p := foldl (λ p st, pipeline_step st p) (pipeline_new window_ms b) sts in
  tun p = frames.*2 ∧ pending (reorder p) = [] ∧
  high_watermark (reorder p) = foldl advance_watermark 0 frames.*1 ∧
  duplicate (counters (reorder p)) = 0.
Proof.
  intros Hoff Hsts.
  assert (∀ frames p, fifo_state frames p →
    fifo_state (frames ++ (sts ≫= step_frames)) (foldl (λ p st, pipeline_step st p) p sts)) as H'.
  { induction Hsts as [|st sts Hst Hsts IH]; intros frames p Hf; [by rewrite app_nil_r|].
    cbn [foldl mbind list_bind]. rewrite app_assoc. apply IH.
    destruct st as [events rx_len busy|now|now|]; cbn [pipeline_step step_frames].
    - set (p1 := set_stats _ _ p). assert (fifo_state frames p1) as Hf1 by exact Hf.
      exact (batch_fifo events frames p1 Hoff Hf1 Hst).
    - rewrite app_nil_r. destruct Hf as (Hp & Ht & Hw & Hd). unfold drain_ready. rewrite Hp. cbn.
      rewrite app_nil_r. by split_and!.
    - rewrite app_nil_r, Hoff. done.
    - rewrite app_nil_r. destruct (0 <? dropped p); exact Hf. }
  destruct (H' [] (pipeline_new window_ms b)) as (? & ? & ? & ?); done.
Qed.

End pipeline.

(** Two batches: frame 1, then the [P] share of frames 1 and 2, and a tick. *)
Definition sample_steps : list pipe_step :=
  [Batch [(0, EvData 1 [7; 9])] 0 10; Batch [(5, EvParity P sample_parity)] 0 10; FecTick 9].

Lemma pipeline_refines_recovery_witness :
  tun (foldl (λ p st, @pipeline_step list_iter (λ _, false) true st p)
         (pipeline_new 50 (FecRecoveryBuffer_new 1 0)) sample_steps) = [[7; 9]; [3]].
Proof.
  pose proof (@pipeline_refines_recovery list_iter (λ _, false) true 50 1 0 sample_steps
                eq_refl) as H.
  vm_compute in H |- *. exact (proj1 H).
Defined.

(** Frames out of order and twice: all are handed on as they came. *)
Lemma pipeline_fifo_without_fec_witness :
  tun (foldl (λ p st, @pipeline_step list_iter (λ _, false) false st p)
         (pipeline_new 50 (FecRecoveryBuffer_new 1 0))
         [Batch [(0, EvData 2 [3]); (0, EvData 1 [7; 9]); (0, EvData 1 [7; 9])] 0 10])
  = [[3]; [7; 9]; [7; 9]].
Proof.
  apply (@pipeline_fifo_without_fec list_iter (λ _, false) false 50 (FecRecoveryBuffer_new 1 0)
    [Batch [(0, EvData 2 [3]); (0, EvData 1 [7; 9]); (0, EvData 1 [7; 9])] 0 10] eq_refl).
  repeat constructor.
Defined.
