(* ===== verification/FecGate.v ===== *)
(** * The gate on a FEC group ([tunnel.rs], [FecGate] and [FecMember])

    The FEC owner and the link workers share one gate per group: a counter of
    outstanding tokens, a phantom flag, and the group's parity. Every atomic
    operation is one step, taken by the owner or by a member in any order.
    A group's parity is released at most once, only after every member has
    been resolved, and only if every one of them reached the wire. *)

From S2P Require Import Prelude Bytes.

Section gate.
Context {G : Type}.

(** A member, from [join] to the end of its drop: alive with its [carried]
    flag; past the phantom store and before the decrement of [release]; the
    one that took the counter to zero, before taking the group in [emit];
    holding the group, before reading the phantom flag; gone. *)
Inductive member :=
  | MLive (carried : bool)
  | MRelease (carried : bool)
  | MEmit (carried : bool)
  | MCheck (carried : bool) (g : G)
  | MDone (carried : bool).

(** The owner: before [seal]; the group stored, before the decrement; then as
    for a member. *)
Inductive owner :=
  | OOpen
  | OStored
  | OEmit
  | OCheck (g : G)
  | ODone.

Record FecGate := mkGate {
  outstanding : Z;
  phantom : bool;
  group : option G;
  ready : list G;
  unrecoverable : Z;
  owner_at : owner;
  members : list member }.

Definition FecGate_new : FecGate := mkGate 1 false None [] 0 OOpen [].

(** The steps, on the shared fields. *)
Definition join (s : FecGate) : FecGate :=
  mkGate (wrap 32 (outstanding s + 1)) (phantom s) (group s) (ready s) (unrecoverable s)
    (owner_at s) (members s ++ [MLive false]).
Definition at_member (i : nat) (m : member) (s : FecGate) : FecGate :=
  mkGate (outstanding s) (phantom s) (group s) (ready s) (unrecoverable s) (owner_at s)
    (<[i := m]> (members s)).
Definition at_owner (o : owner) (s : FecGate) : FecGate :=
  mkGate (outstanding s) (phantom s) (group s) (ready s) (unrecoverable s) o (members s).
Definition store_phantom (carried : bool) (s : FecGate) : FecGate :=
  mkGate (outstanding s) (if carried then phantom s else true) (group s) (ready s)
    (unrecoverable s) (owner_at s) (members s).
Definition store_group (g : option G) (s : FecGate) : FecGate :=
  mkGate (outstanding s) (phantom s) g (ready s) (unrecoverable s) (owner_at s) (members s).
(** [fetch_sub(1)]; the flag is whether the previous value was 1. *)
Definition fetch_sub (s : FecGate) : FecGate * bool :=
  (mkGate (wrap 32 (outstanding s - 1)) (phantom s) (group s) (ready s) (unrecoverable s)
     (owner_at s) (members s), outstanding s =? 1).
(** The end of [emit]: the group is dropped if a member was a phantom or the
    ready channel is full ([room = false]), and queued otherwise. *)
Definition resolve (g : G) (room : bool) (s : FecGate) : FecGate :=
  if phantom s || negb room
  then mkGate (outstanding s) (phantom s) (group s) (ready s) (unrecoverable s + 1)
         (owner_at s) (members s)
  else mkGate (outstanding s) (phantom s) (group s) (ready s ++ [g]) (unrecoverable s)
         (owner_at s) (members s).

(** [mark_carried], the two halves of a member's drop, [seal], and [emit] by
    whoever released the last token. *)
Inductive gate_step : FecGate → FecGate → Prop :=
  | step_join s :
      owner_at s = OOpen → gate_step s (join s)
  | step_mark_carried s i c :
      members s !! i = Some (MLive c) → gate_step s (at_member i (MLive true) s)
  | step_drop s i c :
      members s !! i = Some (MLive c) →
      gate_step s (at_member i (MRelease c) (store_phantom c s))
  | step_release s s' i c last :
      members s !! i = Some (MRelease c) → fetch_sub s = (s', last) →
      gate_step s (at_member i (if last then MEmit c else MDone c) s')
  | step_seal s g :
      owner_at s = OOpen → gate_step s (at_owner OStored (store_group (Some g) s))
  | step_owner_release s s' last :
      owner_at s = OStored → fetch_sub s = (s', last) →
      gate_step s (at_owner (if last then OEmit else ODone) s')
  | step_take s i c :
      members s !! i = Some (MEmit c) →
      gate_step s (at_member i (match group s with Some g => MCheck c g | None => MDone c end)
                     (store_group None s))
  | step_owner_take s :
      owner_at s = OEmit →
      gate_step s (at_owner (match group s with Some g => OCheck g | None => ODone end)
                     (store_group None s))
  | step_resolve s i c g room :
      members s !! i = Some (MCheck c g) →
      gate_step s (at_member i (MDone c) (resolve g room s))
  | step_owner_resolve s g room :
      owner_at s = OCheck g → gate_step s (at_owner ODone (resolve g room s)).

(** Reachable gates of a group of fewer than 2^32 - 1 members. *)
Inductive gate_reach : FecGate → Prop :=
  | gate_init : gate_reach FecGate_new
  | gate_next s s' :
      gate_reach s → gate_step s s' → len (members s') < 2 ^ 32 - 1 → gate_reach s'.

(** ** Counting *)

Definition member_token (m : member) : nat :=
  match m with MLive _ | MRelease _ => 1 | _ => 0 end%nat.
Definition member_busy (m : member) : nat :=
  match m with MEmit _ | MCheck _ _ => 1 | _ => 0 end%nat.
Definition member_holds (m : member) : nat :=
  match m with MCheck _ _ => 1 | _ => 0 end%nat.
Definition owner_token (o : owner) : nat :=
  match o with OOpen | OStored => 1 | _ => 0 end%nat.
Definition owner_busy (o : owner) : nat :=
  match o with OEmit | OCheck _ => 1 | _ => 0 end%nat.
Definition owner_holds (o : owner) : nat :=
  match o with OCheck _ => 1 | _ => 0 end%nat.

Definition tokens (s : FecGate) : nat :=
  (owner_token (owner_at s) + sum_list_with member_token (members s))%nat.
Definition busy (s : FecGate) : nat :=
  (owner_busy (owner_at s) + sum_list_with member_busy (members s))%nat.
Definition holds (s : FecGate) : nat :=
  (owner_holds (owner_at s) + sum_list_with member_holds (members s))%nat.
Definition stored (s : FecGate) : nat :=
  match group s with Some _ => 1 | None => 0 end%nat.

(** A member that was dropped without having been carried. *)
Definition lost (m : member) : bool :=
  match m with MLive _ => false | MRelease c | MEmit c | MCheck c _ | MDone c => negb c end.

Record gate_inv (s : FecGate) : Prop := {
  gi_count : outstanding s = Z.of_nat (tokens s);
  gi_phantom : phantom s = existsb lost (members s);
  gi_open : owner_at s = OOpen → group s = None;
  gi_stored : owner_at s = OStored → stored s = 1%nat;
  gi_before : (0 < tokens s)%nat →
    busy s = 0%nat ∧ ready s = [] ∧ unrecoverable s = 0 ∧
    (owner_at s = OOpen ∨ stored s = 1%nat);
  gi_after : tokens s = 0%nat →
    (busy s = 1 ∧ stored s + holds s = 1 ∧ length (ready s) = 0)%nat ∧ unrecoverable s = 0 ∨
    (busy s = 0 ∧ stored s = 0)%nat ∧ Z.of_nat (length (ready s)) + unrecoverable s = 1 ∧
    0 ≤ unrecoverable s;
  gi_ready : ready s ≠ [] → phantom s = false;
  gi_size : len (members s) < 2 ^ 32 - 1 }.

Lemma sum_insert (f : member → nat) l i m m' :
  l !! i = Some m →
  (sum_list_with f (<[i := m']> l) + f m = sum_list_with f l + f m')%nat.
Proof.
  revert i; induction l as [|x l IH]; intros [|i] Hi; try done; simpl in *.
  - injection Hi as ->. lia.
  - specialize (IH i Hi). lia.
Qed.

Lemma lost_insert l i m m' :
  l !! i = Some m → existsb lost (<[i := m']> l) = true →
  existsb lost l = true ∨ lost m' = true.
Proof.
  rewrite !existsb_exists. intros Hi (x & Hx%list_elem_of_In & Hl).
  apply list_elem_of_lookup in Hx as [j Hj].
  destruct (decide (i = j)) as [->|Hne].
  - rewrite list_lookup_insert_eq in Hj by (by eapply lookup_lt_Some).
    injection Hj as <-. by right.
  - rewrite list_lookup_insert_ne in Hj by done. left. exists x.
    split; [|done]. apply list_elem_of_In. by eapply list_elem_of_lookup_2.
Qed.

Lemma lost_keep l i m m' :
  l !! i = Some m → (lost m = true → lost m' = true) →
  existsb lost l = true → existsb lost (<[i := m']> l) = true.
Proof.
  rewrite !existsb_exists. intros Hi Hm (x & Hx%list_elem_of_In & Hl).
  apply list_elem_of_lookup in Hx as [j Hj].
  destruct (decide (i = j)) as [->|Hne].
  - exists m'. split; [|apply Hm; congruence]. apply list_elem_of_In, list_elem_of_lookup.
    exists j. apply list_lookup_insert_eq. by eapply lookup_lt_Some.
  - exists x. split; [|done]. apply list_elem_of_In, list_elem_of_lookup. exists j.
    by rewrite list_lookup_insert_ne.
Qed.

(** Moving one member on: what is lost is what was lost, or that member. *)
Lemma lost_move l i m m' :
  l !! i = Some m → (lost m = true → lost m' = true) →
  existsb lost (<[i := m']> l) = existsb lost l || lost m'.
Proof.
  intros Hi Hm. destruct (existsb lost l) eqn:E; cbn [orb].
  - by apply (lost_keep l i m).
  - destruct (lost m') eqn:E'.
    + apply existsb_exists. exists m'. split; [|done].
      apply list_elem_of_In, list_elem_of_lookup. exists i.
      apply list_lookup_insert_eq. by eapply lookup_lt_Some.
    + apply not_true_iff_false. intros [?|?]%(lost_insert l i m); congruence.
Qed.

Lemma tokens_bound s : (tokens s ≤ 1 + length (members s))%nat.
Proof.
  unfold tokens. assert (sum_list_with member_token (members s) ≤ length (members s))%nat.
  { induction (members s) as [|m l IH]; simpl; [lia|]. destruct m; simpl; lia. }
  destruct (owner_at s); simpl; lia.
Qed.

(** What moving a member does to the counts. *)
Lemma move_counts l i m m' :
  l !! i = Some m →
  (sum_list_with member_token (<[i := m']> l) + member_token m =
   sum_list_with member_token l + member_token m')%nat ∧
  (sum_list_with member_busy (<[i := m']> l) + member_busy m =
   sum_list_with member_busy l + member_busy m')%nat ∧
  (sum_list_with member_holds (<[i := m']> l) + member_holds m =
   sum_list_with member_holds l + member_holds m')%nat ∧
  length (<[i := m']> l) = length l.
Proof. intros Hi. rewrite length_insert. split_and!; [by apply sum_insert..|done]. Qed.

Ltac gate_counts :=
  unfold tokens, busy, holds, stored, len in *;
  cbn [owner_at members group ready phantom unrecoverable outstanding at_member at_owner
       store_phantom store_group join] in *;
  simpl member_token in *; simpl member_busy in *; simpl member_holds in *;
  simpl owner_token in *; simpl owner_busy in *; simpl owner_holds in *.

Lemma inv_join s :
  gate_inv s → owner_at s = OOpen → len (members s) + 1 < 2 ^ 32 - 1 → gate_inv (join s).
Proof.
  intros [] Ho Hsz. pose proof (tokens_bound s).
  split; gate_counts; rewrite ?sum_list_with_app, ?Ho in *; simpl in *.
  - rewrite wrap_small by (unfold fits; lia). lia.
  - rewrite existsb_app. cbn. by rewrite !orb_false_r.
  - auto.
  - done.
  - intros _. destruct gi_before0 as (? & ? & ? & ?); [lia|]. split_and!; [lia|done..].
  - lia.
  - done.
  - rewrite length_app. simpl. lia.
Qed.

Lemma inv_move s i m m' ph :
  gate_inv s → members s !! i = Some m →
  member_token m' = member_token m → member_busy m' = member_busy m →
  member_holds m' = member_holds m →
  (lost m = true → lost m' = true) → ph = phantom s || lost m' →
  (ready s ≠ [] → ph = false) →
  gate_inv (at_member i m' (mkGate (outstanding s) ph (group s) (ready s)
    (unrecoverable s) (owner_at s) (members s))).
Proof.
  intros [] Hi Ht Hb Hh Hl -> Hr. destruct (move_counts _ i m m' Hi) as (E1 & E2 & E3 & E4).
  rewrite Ht, Hb, Hh in *.
  split; gate_counts; rewrite ?E4; try done; try lia.
  - by rewrite (lost_move _ i m), gi_phantom0.
  - intros Hp. destruct gi_before0 as (? & ? & ? & ?); [lia|]. split_and!; [lia|done..].
Qed.

(** Once a token is held, nothing has been emitted. *)
Lemma held_quiet s : gate_inv s → (0 < tokens s)%nat → ready s = [].
Proof. intros [] H'. by destruct gi_before0 as (_ & ? & _). Qed.

Lemma member_token_le l i m :
  l !! i = Some m → (member_token m ≤ sum_list_with member_token l)%nat ∧
  (member_busy m ≤ sum_list_with member_busy l)%nat.
Proof.
  revert i; induction l as [|x l IH]; intros [|i] Hi; try done; simpl in *.
  - injection Hi as ->. lia.
  - destruct (IH i Hi). lia.
Qed.

Lemma inv_drop s i c :
  gate_inv s → members s !! i = Some (MLive c) →
  gate_inv (at_member i (MRelease c) (store_phantom c s)).
Proof.
  intros Hinv Hi. unfold store_phantom.
  apply (inv_move s i (MLive c) (MRelease c)); try done.
  - cbn. destruct c; cbn; by rewrite ?orb_false_r, ?orb_true_r.
  - intros Hr. destruct Hr. apply held_quiet; [done|]. unfold tokens.
    destruct (member_token_le _ i _ Hi) as [Ht _]. simpl in Ht. lia.
Qed.

Lemma inv_release s s' i c last :
  gate_inv s → members s !! i = Some (MRelease c) → fetch_sub s = (s', last) →
  gate_inv (at_member i (if last then MEmit c else MDone c) s').
Proof.
  intros [] Hi [= <- <-]. pose proof (tokens_bound s).
  destruct (member_token_le _ i _ Hi) as [Ht _]. simpl in Ht.
  destruct gi_before0 as (Hb & Hr & Hu & Hor); [unfold tokens; lia|].
  set (m' := if outstanding s =? 1 then MEmit c else MDone c).
  assert (lost m' = lost (MRelease c)) as Hlost by (unfold m'; by destruct (_ =? _)).
  destruct (move_counts _ i _ m' Hi) as (E1 & E2 & E3 & E4).
  assert (existsb lost (<[i := m']> (members s)) = phantom s) as Hph.
  { rewrite (lost_move _ i (MRelease c)) by (done || (intros ?; congruence)).
    rewrite Hlost, gi_phantom0. destruct (lost (MRelease c)) eqn:El; [|apply orb_false_r].
    rewrite orb_true_r. symmetry. apply existsb_exists. exists (MRelease c).
    split; [|done]. apply list_elem_of_In. by eapply list_elem_of_lookup_2. }
  assert (member_token m' = 0 ∧ member_holds m' = 0 ∧
          member_busy m' = (if (outstanding s =? 1)%Z then 1 else 0))%nat as (T1 & T2 & T3)
    by (unfold m'; by destruct (_ =? _)).
  clearbody m'. rewrite T1, T2, T3 in *. simpl in E1, E2, E3.
  assert (group s = None → owner_at s = OOpen) as Hgn.
  { intros Hg. destruct Hor as [?|Hs]; [done|]. unfold stored in Hs. by rewrite Hg in Hs. }
  split; gate_counts; rewrite ?E4, ?Hph; try done; try lia.
  - rewrite wrap_small by (unfold fits; lia). lia.
  - intros Hp. destruct (Z.eqb_spec (outstanding s) 1); [lia|]. split_and!; [lia|done..].
  - intros Hz. assert (outstanding s = 1) as E by lia. rewrite E in E2. cbn in E2. left.
    assert (owner_at s ≠ OOpen) as Hno by (intros Ho; rewrite Ho in Hz; simpl in Hz; lia).
    destruct Hor as [?|Hs]; [done|]. rewrite Hr. cbn. split; [|done].
    assert (owner_holds (owner_at s) ≤ owner_busy (owner_at s))%nat by (destruct (owner_at s); simpl; lia).
    assert (∀ l, sum_list_with member_holds l ≤ sum_list_with member_busy l)%nat as Hhb.
    { induction l as [|x l IH]; simpl; [lia|]. destruct x; simpl; lia. }
    specialize (Hhb (members s)). lia.
Qed.

Lemma holds_busy s : (holds s ≤ busy s)%nat.
Proof.
  unfold holds, busy.
  assert (∀ l, sum_list_with member_holds l ≤ sum_list_with member_busy l)%nat as Hhb.
  { induction l as [|x l IH]; simpl; [lia|]. destruct x; simpl; lia. }
  specialize (Hhb (members s)). destruct (owner_at s); simpl; lia.
Qed.

Lemma inv_seal s g :
  gate_inv s → owner_at s = OOpen → gate_inv (at_owner OStored (store_group (Some g) s)).
Proof.
  intros [] Ho. specialize (gi_open0 Ho).
  split; gate_counts; rewrite ?Ho in *; simpl in *; try done; try lia.
  intros _. destruct gi_before0 as (? & ? & ? & _); [lia|]. split_and!; auto.
Qed.

Lemma inv_owner_release s s' last :
  gate_inv s → owner_at s = OStored → fetch_sub s = (s', last) →
  gate_inv (at_owner (if last then OEmit else ODone) s').
Proof.
  intros Hinv Ho [= <- <-]. pose proof (tokens_bound s). pose proof (holds_busy s) as Hhb.
  destruct Hinv. specialize (gi_stored0 Ho).
  destruct gi_before0 as (Hb & Hr & Hu & _); [unfold tokens; rewrite Ho; simpl; lia|].
  unfold tokens, busy, holds in *. rewrite Ho in *. simpl in *.
  destruct (Z.eqb_spec (outstanding s) 1) as [E|E]; split; gate_counts; try done; try lia.
  - rewrite wrap_small by (unfold fits; lia). lia.
  - intros _. left. rewrite Hr. simpl. lia.
  - rewrite wrap_small by (unfold fits; lia). lia.
  - intros Hp. split_and!; [lia|done..|by right].
Qed.

Lemma inv_take s i c :
  gate_inv s → members s !! i = Some (MEmit c) →
  gate_inv (at_member i (match group s with Some g => MCheck c g | None => MDone c end)
              (store_group None s)).
Proof.
  intros Hinv Hi. pose proof (holds_busy s) as Hhb. destruct Hinv.
  destruct (member_token_le _ i _ Hi) as [_ Hb]. simpl in Hb.
  assert (tokens s = 0)%nat as Hz.
  { destruct (tokens s) eqn:E; [done|]. destruct gi_before0 as (Hb0 & _); [lia|].
    unfold busy in Hb0. lia. }
  destruct (gi_after0 Hz) as [((Hb1 & Hsh & Hlr) & Hu)|((Hb0 & _) & _)]; [|unfold busy in Hb0; lia].
  set (m' := match group s with Some g => MCheck c g | None => MDone c end).
  assert (lost m' = lost (MEmit c)) as Hlost by (unfold m'; by destruct (group s)).
  destruct (move_counts _ i _ m' Hi) as (E1 & E2 & E3 & E4).
  assert (existsb lost (<[i := m']> (members s)) = phantom s) as Hph.
  { rewrite (lost_move _ i (MEmit c)) by (done || (intros ?; congruence)).
    rewrite Hlost, gi_phantom0. destruct (lost (MEmit c)) eqn:El; [|apply orb_false_r].
    rewrite orb_true_r. symmetry. apply existsb_exists. exists (MEmit c).
    split; [|done]. apply list_elem_of_In. by eapply list_elem_of_lookup_2. }
  assert (stored s = 1%nat) as Hs1.
  { assert (sum_list_with member_busy (members s) = 1 ∧ owner_busy (owner_at s) = 0)%nat as [Hb2 Ho2]
      by (unfold busy in Hb1; lia).
    destruct (decide (stored s = 1%nat)); [done|exfalso].
    assert (holds s = 1)%nat as Hh by (unfold stored in *; destruct (group s); lia).
    pose proof (sum_insert member_busy _ i _ (MDone c) Hi) as F1. simpl in F1.
    pose proof (sum_insert member_holds _ i _ (MDone c) Hi) as F2. simpl in F2.
    assert (∀ l, sum_list_with member_holds l ≤ sum_list_with member_busy l)%nat as Hl.
    { induction l as [|x l IH]; simpl; [lia|]. destruct x; simpl; lia. }
    specialize (Hl (<[i := MDone c]> (members s))). unfold holds in Hh.
    destruct (owner_at s); simpl in *; lia. }
  unfold stored in Hs1. destruct (group s) as [g|] eqn:Eg; [|done].
  assert (owner_at s ≠ OOpen ∧ owner_at s ≠ OStored) as [Hno Hns].
  { unfold tokens in Hz. by destruct (owner_at s). }
  subst m'. simpl in E1, E2, E3.
  split; gate_counts; rewrite ?E4, ?Hph; try done; try lia.
  intros _. left. unfold stored, busy, holds in *. rewrite Eg in *. split; [|done]. lia.
Qed.

(** Whoever is in [emit] found the counter at zero and is alone there. *)
Lemma busy_alone s :
  gate_inv s → (0 < busy s)%nat →
  tokens s = 0%nat ∧ busy s = 1%nat ∧ (stored s + holds s = 1)%nat ∧ ready s = [] ∧
  unrecoverable s = 0 ∧ owner_at s ≠ OOpen ∧ owner_at s ≠ OStored.
Proof.
  intros [] Hb.
  assert (tokens s = 0)%nat as Hz.
  { destruct (tokens s) eqn:E; [done|]. destruct gi_before0 as (Hb0 & _); lia. }
  destruct (gi_after0 Hz) as [((Hb1 & Hsh & Hlr) & Hu)|((Hb0 & _) & _)]; [|lia].
  unfold tokens in Hz. split_and!; try done; [by apply nil_length_inv|by destruct (owner_at s)..].
Qed.

Lemma inv_owner_take s :
  gate_inv s → owner_at s = OEmit →
  gate_inv (at_owner (match group s with Some g => OCheck g | None => ODone end)
              (store_group None s)).
Proof.
  intros Hinv Ho.
  destruct (busy_alone s Hinv) as (Hz & Hb & Hsh & Hr & Hu & _); [unfold busy; rewrite Ho; simpl; lia|].
  pose proof (holds_busy s) as Hhb. destruct Hinv.
  assert (∀ l, sum_list_with member_holds l ≤ sum_list_with member_busy l)%nat as Hl.
  { induction l as [|x l IH]; simpl; [lia|]. destruct x; simpl; lia. }
  specialize (Hl (members s)). unfold busy, holds, tokens, stored in *. rewrite Ho in *. simpl in *.
  destruct (group s) as [g|]; [|lia].
  split; gate_counts; try done; lia.
Qed.

Lemma existsb_lost_done l i c g :
  l !! i = Some (MCheck c g) → existsb lost (<[i := MDone c]> l) = existsb lost l.
Proof.
  intros Hi. rewrite (lost_move _ i (MCheck c g)) by done.
  destruct (lost (MDone c)) eqn:El; [|apply orb_false_r]. rewrite orb_true_r. symmetry.
  apply existsb_exists. exists (MCheck c g). split; [|done].
  apply list_elem_of_In. by eapply list_elem_of_lookup_2.
Qed.

Lemma inv_resolve s i c g room :
  gate_inv s → members s !! i = Some (MCheck c g) →
  gate_inv (at_member i (MDone c) (resolve g room s)).
Proof.
  intros Hinv Hi. destruct (member_token_le _ i _ Hi) as [_ Hb]. simpl in Hb.
  destruct (busy_alone s Hinv) as (Hz & Hb1 & Hsh & Hr & Hu & Hno & Hns); [unfold busy; lia|].
  destruct Hinv. destruct (move_counts _ i _ (MDone c) Hi) as (E1 & E2 & E3 & E4). simpl in E1, E2, E3.
  pose proof (existsb_lost_done _ _ _ _ Hi) as Hph.
  unfold resolve. destruct (phantom s || negb room) eqn:Er; split; gate_counts;
    rewrite ?E4, ?Hph, ?Hr; try done; try lia.
  - intros _. right. simpl. lia.
  - intros _. right. simpl. lia.
  - apply orb_false_iff in Er as [? _]. done.
Qed.

Lemma inv_owner_resolve s g room :
  gate_inv s → owner_at s = OCheck g → gate_inv (at_owner ODone (resolve g room s)).
Proof.
  intros Hinv Ho.
  destruct (busy_alone s Hinv) as (Hz & Hb1 & Hsh & Hr & Hu & _); [unfold busy; rewrite Ho; simpl; lia|].
  destruct Hinv. unfold busy, holds, tokens, stored in *. rewrite Ho in *. simpl in *.
  unfold resolve. destruct (phantom s || negb room) eqn:Er; split; gate_counts;
    rewrite ?Hr; try done; try lia.
  - intros _. right. simpl. lia.
  - intros _. right. simpl. lia.
  - apply orb_false_iff in Er as [? _]. done.
Qed.

Lemma inv_mark_carried s i c :
  gate_inv s → members s !! i = Some (MLive c) → gate_inv (at_member i (MLive true) s).
Proof.
  intros Hinv Hi. destruct s as [out ph gr rd un ow ms].
  apply (inv_move (mkGate out ph gr rd un ow ms) i (MLive c) (MLive true) ph Hinv Hi); try done.
  - cbn. by rewrite orb_false_r.
  - apply Hinv.
Qed.

Lemma inv_step s s' :
  gate_inv s → gate_step s s' → len (members s') < 2 ^ 32 - 1 → gate_inv s'.
Proof.
  intros Hinv Hstep Hsz. destruct Hstep.
  - apply inv_join; [done..|]. unfold len in *. cbn in Hsz. rewrite length_app in Hsz. cbn in Hsz. lia.
  - by eapply inv_mark_carried.
  - by apply inv_drop.
  - by eapply inv_release.
  - by apply inv_seal.
  - by eapply inv_owner_release.
  - by apply inv_take.
  - by apply inv_owner_take.
  - by eapply inv_resolve.
  - by eapply inv_owner_resolve.
Qed.

Lemma inv_new : gate_inv FecGate_new.
Proof. split; cbn; try done. intros _. split_and!; [done..|by left]. Qed.

Lemma gate_reach_inv s : gate_reach s → gate_inv s.
Proof. induction 1; [apply inv_new|by eapply inv_step]. Qed.

Lemma sum_zero (f : member → nat) l m : sum_list_with f l = 0%nat → m ∈ l → f m = 0%nat.
Proof.
  induction l as [|x l IH]; simpl; [set_solver|]. intros H' [->|Hm]%elem_of_cons; [lia|].
  apply IH; [lia|done].
Qed.

Lemma released_carried s :
  gate_inv s →
  (length (ready s) ≤ 1)%nat ∧
  (ready s ≠ [] → owner_at s = ODone ∧ ∀ m, m ∈ members s → m = MDone true).
Proof.
  intros Hr. destruct Hr. destruct (tokens s) as [|n] eqn:Et.
  2: { destruct gi_before0 as (_ & -> & _); [lia|]. split; [cbn; lia|done]. }
  destruct gi_after0 as [((_ & _ & Hl) & _)|((Hb & Hst) & Hcount & Hu)]; [done| |].
  { apply nil_length_inv in Hl as ->. split; [cbn; lia|done]. }
  split; [lia|]. intros Hne. unfold tokens, busy in *. split.
  { destruct (owner_at s); simpl in *; lia || done. }
  intros m Hm. specialize (gi_ready0 Hne). rewrite gi_phantom0 in gi_ready0.
  assert (lost m = false) as Hlost.
  { destruct (lost m) eqn:E; [|done]. apply not_true_iff_false in gi_ready0.
    destruct gi_ready0. apply existsb_exists. exists m. by rewrite <- list_elem_of_In. }
  pose proof (sum_zero member_token (members s) m ltac:(lia) Hm) as Ht.
  pose proof (sum_zero member_busy (members s) m ltac:(lia) Hm) as Hb'.
  destruct m as [| | | |[]]; done.
Qed.

(** In every interleaving of the FEC owner and the members' drops, a
    group's parity is released at most once, and only when the owner has sealed
    the group and every member is gone having reached the wire. *)
Theorem parity_released_safely s :
  gate_reach s →
  (length (ready s) ≤ 1)%nat ∧
  (ready s ≠ [] → owner_at s = ODone ∧ ∀ m, m ∈ members s → m = MDone true).
Proof. intros Hr%gate_reach_inv. by apply released_carried. Qed.

Lemma done_accounted s :
  gate_inv s → owner_at s = ODone → (∀ m, m ∈ members s → ∃ c, m = MDone c) →
  group s = None ∧ outstanding s = 0 ∧
  (Z.of_nat (length (ready s)) + unrecoverable s = 1) ∧
  ((∃ c, MDone c ∈ members s ∧ c = false) → unrecoverable s = 1).
Proof.
  intros Hr Ho Hm. destruct Hr.
  assert (∀ f : member → nat, (∀ c, f (MDone c) = 0%nat) → sum_list_with f (members s) = 0%nat) as Hz.
  { intros f Hf. clear -Hm Hf. induction (members s) as [|x l IH]; simpl; [done|].
    destruct (Hm x) as [c ->]; [apply list_elem_of_here|]. rewrite Hf, IH; [done|].
    intros m Hin. apply Hm. by apply elem_of_cons; right. }
  assert (tokens s = 0%nat) as Ht by (unfold tokens; rewrite Ho, (Hz member_token); done).
  assert (busy s = 0%nat) as Hb by (unfold busy; rewrite Ho, (Hz member_busy); done).
  destruct (gi_after0 Ht) as [((? & _) & _)|((_ & Hst) & Hcount & Hu)]; [lia|].
  split_and!; [unfold stored in Hst; by destruct (group s)|lia|done|].
  intros (c & Hc & ->). assert (phantom s = true) as Hp.
  { rewrite gi_phantom0. apply existsb_exists. exists (MDone false).
    by rewrite <- list_elem_of_In. }
  destruct (ready s) as [|g l]; [cbn in Hcount; lia|]. rewrite gi_ready0 in Hp; done.
Qed.

(** When the owner and all members are done, the group has been resolved
    exactly once, released or counted unrecoverable, and it was counted
    unrecoverable if any member never reached the wire. *)
Theorem group_accounted_once s :
  gate_reach s → owner_at s = ODone → (∀ m, m ∈ members s → ∃ c, m = MDone c) →
  group s = None ∧ outstanding s = 0 ∧
  (Z.of_nat (length (ready s)) + unrecoverable s = 1) ∧
  ((∃ c, MDone c ∈ members s ∧ c = false) → unrecoverable s = 1).
Proof. intros Hr%gate_reach_inv. by apply done_accounted. Qed.
End gate.

(** A group of one member: joined, sealed with parity 7, carried and dropped. *)
Definition sample_run : list (FecGate (G := nat)) :=
  let s1 := join FecGate_new in
  let s2 := at_owner OStored (store_group (Some 7%nat) s1) in
  let s3 := at_member 0 (MLive true) s2 in
  let s4 := at_owner ODone (fetch_sub s3).1 in
  let s5 := at_member 0 (MRelease true) (store_phantom true s4) in
  let s6 := at_member 0 (MEmit true) (fetch_sub s5).1 in
  let s7 := at_member 0 (MCheck true 7%nat) (store_group None s6) in
  let s8 := at_member 0 (MDone true) (resolve 7%nat true s7) in
  [s1; s2; s3; s4; s5; s6; s7; s8].

Definition sample_at (i : nat) : FecGate := nth i sample_run FecGate_new.
Definition sample_final : FecGate := sample_at 7.

Lemma sample_gate_reach : gate_reach sample_final.
Proof.
  assert (∀ s s' : FecGate (G := nat), gate_reach s → gate_step s s' →
            len (members s') < 2 ^ 32 - 1 → gate_reach s') as next by apply gate_next.
  apply next with (s := sample_at 6);
    [|by apply (step_resolve (sample_at 6) 0 true 7%nat true)|by cbn].
  apply next with (s := sample_at 5);
    [|by apply (step_take (sample_at 5) 0 true)|by cbn].
  apply next with (s := sample_at 4);
    [|apply (step_release (sample_at 4) (fetch_sub (sample_at 4)).1 0 true true);
      vm_compute; reflexivity|by cbn].
  apply next with (s := sample_at 3);
    [|by apply (step_drop (sample_at 3) 0 true)|by cbn].
  apply next with (s := sample_at 2);
    [|apply (step_owner_release (sample_at 2) (fetch_sub (sample_at 2)).1 false);
      vm_compute; reflexivity|by cbn].
  apply next with (s := sample_at 1);
    [|by apply (step_mark_carried (sample_at 1) 0 false)|by cbn].
  apply next with (s := sample_at 0);
    [|by apply (step_seal (sample_at 0) 7%nat)|by cbn].
  apply next with (s := FecGate_new); [apply gate_init|by apply (step_join FecGate_new)|by cbn].
Qed.

Lemma parity_released_safely_witness :
  ready sample_final = [7%nat] ∧ owner_at sample_final = ODone.
Proof.
  split; [reflexivity|].
  apply (parity_released_safely sample_final sample_gate_reach). discriminate.
Defined.

Lemma group_accounted_once_witness :
  Z.of_nat (length (ready sample_final)) + unrecoverable sample_final = 1.
Proof.
  apply (group_accounted_once sample_final sample_gate_reach); [reflexivity|].
  intros m Hm. cbn in Hm. apply list_elem_of_singleton in Hm. by exists true.
Defined.
