(* ===== verification/Mss.v ===== *)
(** * TCP MSS clamping ([mss.rs])

    [clamp_if_tcp_syn] rewrites a packet in place; here it returns the new
    packet. Reads and writes out of range are panics, and so is a loop that
    runs out of fuel, so that showing the function returns shows both. *)

From S2P Require Import Prelude Bytes.

Definition TCP_FLAG_SYN : Z := 0x02.
Definition TCP_OPT_END : Z := 0.
Definition TCP_OPT_NOP : Z := 1.
Definition TCP_OPT_MSS : Z := 2.
Definition IPV6_HEADER_LEN : nat := 40.
Definition PROTO_TCP : Z := 6.

(** ** Checksums *)

(** The sum of the 16-bit big-endian words, an odd byte padded below. *)
Fixpoint sum_words (bytes : list Z) : Z :=
  match bytes with
  | a :: b :: rest => (a * 256 + b) + sum_words rest
  | [last] => Z.shiftl last 8
  | [] => 0
  end.

(** [while sum >> 16 != 0 { sum = (sum & 0xffff) + (sum >> 16) }]. *)
Fixpoint fold_carries (fuel : nat) (sum : Z) : outcome Z :=
  if Z.shiftr sum 16 =? 0 then Ok sum
  else match fuel with
       | O => Panic
       | S fuel => fold_carries fuel (Z.land sum 0xffff + Z.shiftr sum 16)
       end.

Definition internet_checksum (bytes : list Z) : outcome Z :=
  sum ← fold_carries 4 (wrap 32 (sum_words bytes));
  mret (Z.lxor (wrap 16 sum) 0xffff).

Definition tcp_checksum_v4 (src dst tcp_segment : list Z) : outcome Z :=
  let buf := src ++ dst ++ [0] ++ [PROTO_TCP]
             ++ u16_to_be (wrap 16 (len tcp_segment)) ++ tcp_segment in
  let cksum_at := (12 + 16)%nat in
  buf ← set_idx buf cksum_at 0;
  buf ← set_idx buf (cksum_at + 1) 0;
  internet_checksum buf.

Definition tcp_checksum_v6 (src dst tcp_segment : list Z) : outcome Z :=
  let buf := src ++ dst ++ u32_to_be (wrap 32 (len tcp_segment)) ++ [0; 0; 0]
             ++ [PROTO_TCP] ++ tcp_segment in
  let cksum_at := (40 + 16)%nat in
  buf ← set_idx buf cksum_at 0;
  buf ← set_idx buf (cksum_at + 1) 0;
  internet_checksum buf.

(** ** The TCP header *)

Definition tcp_header_len (tcp : list Z) : outcome (option nat) :=
  if bool_decide (length tcp < 20)%nat then mret None
  else
    b ← idx tcp 12;
    let l := (Z.to_nat (Z.shiftr b 4) * 4)%nat in
    mret (if bool_decide (l < 20)%nat then None else Some l).

(** The option walk from position [i]; the result is the new header and
    whether it was rewritten. *)
Fixpoint walk_options (fuel : nat) (hdr : list Z) (i : nat) (max_segment : Z)
    : outcome (list Z * bool) :=
  if bool_decide (length hdr ≤ i)%nat then mret (hdr, false)
  else match fuel with
  | O => Panic
  | S fuel =>
      k ← idx hdr i;
      if k =? TCP_OPT_END then mret (hdr, false)
      else if k =? TCP_OPT_NOP then walk_options fuel hdr (i + 1) max_segment
      else if k =? TCP_OPT_MSS then
        if bool_decide (length hdr < i + 4)%nat then mret (hdr, false)
        else
          l ← idx hdr (i + 1);
          if negb (l =? 4) then mret (hdr, false)
          else
            a ← idx hdr (i + 2);
            b ← idx hdr (i + 3);
            if from_be [a; b] <=? max_segment then mret (hdr, false)
            else
              hdr ← copy_from_slice hdr (i + 2) (i + 4) (u16_to_be max_segment);
              mret (hdr, true)
      else if bool_decide (length hdr ≤ i + 1)%nat then mret (hdr, false)
      else
        l ← idx hdr (i + 1);
        let opt_len := Z.to_nat l in
        if bool_decide (opt_len < 2)%nat || bool_decide (length hdr < i + opt_len)%nat
        then mret (hdr, false)
        else walk_options fuel hdr (i + opt_len) max_segment
  end.

Definition rewrite_mss_if_syn (tcp_header : list Z) (max_segment : Z)
    : outcome (list Z * bool) :=
  if bool_decide (length tcp_header < 20)%nat then mret (tcp_header, false)
  else
    flags ← idx tcp_header 13;
    if Z.land flags TCP_FLAG_SYN =? 0 then mret (tcp_header, false)
    else walk_options (length tcp_header) tcp_header 20 max_segment.

(** ** The packet *)

(** [(mtu).checked_sub(ip).and_then(|v| v.checked_sub(tcp))], positive. *)
Definition max_segment_for (mtu : Z) (ip_len tcp_len : nat) : option Z :=
  match checked_sub mtu (Z.of_nat ip_len) with
  | Some v =>
      match checked_sub v (Z.of_nat tcp_len) with
      | Some v => if 0 <? v then Some (wrap 16 v) else None
      | None => None
      end
  | None => None
  end.

(** The part [clamp_ipv4] and [clamp_ipv6] share once the IP header has been
    accepted, with the checksum over the rewritten packet as a parameter. *)
Definition clamp_tcp (packet : list Z) (mtu : Z) (tcp_start : nat)
    (checksum : list Z → outcome Z) : outcome (list Z) :=
  tcp ← slice_from packet tcp_start;
  hl ← tcp_header_len tcp;
  match hl with
  | None => mret packet
  | Some hl =>
      if bool_decide (length packet < tcp_start + hl)%nat then mret packet
      else match max_segment_for mtu tcp_start hl with
      | None => mret packet
      | Some max_segment =>
          hdr ← slice packet tcp_start (tcp_start + hl);
          r ← rewrite_mss_if_syn hdr max_segment;
          packet ← copy_from_slice packet tcp_start (tcp_start + hl) r.1;
          if negb r.2 then mret packet
          else
            c ← checksum packet;
            copy_from_slice packet (tcp_start + 16) (tcp_start + 18) (u16_to_be c)
      end
  end.

Definition clamp_ipv4 (packet : list Z) (mtu : Z) : outcome (list Z) :=
  if bool_decide (length packet < 20)%nat then mret packet
  else
    b0 ← idx packet 0;
    let ihl := (Z.to_nat (Z.land b0 0x0f) * 4)%nat in
    if bool_decide (ihl < 20)%nat || bool_decide (length packet < ihl + 20)%nat
    then mret packet
    else
      proto ← idx packet 9;
      if negb (proto =? PROTO_TCP) then mret packet
      else clamp_tcp packet mtu ihl (λ packet,
        src ← slice packet 12 16;
        dst ← slice packet 16 20;
        tcp ← slice_from packet ihl;
        tcp_checksum_v4 src dst tcp).

Definition clamp_ipv6 (packet : list Z) (mtu : Z) : outcome (list Z) :=
  if bool_decide (length packet < IPV6_HEADER_LEN)%nat then mret packet
  else
    next_header ← idx packet 6;
    if negb (next_header =? PROTO_TCP) then mret packet
    else clamp_tcp packet mtu IPV6_HEADER_LEN (λ packet,
      src ← slice packet 8 24;
      dst ← slice packet 24 40;
      tcp ← slice_from packet IPV6_HEADER_LEN;
      tcp_checksum_v6 src dst tcp).

Definition clamp_if_tcp_syn (packet : list Z) (mtu : Z) : outcome (list Z) :=
  match packet with
  | [] => mret packet
  | first :: _ =>
      let v := Z.shiftr first 4 in
      if v =? 4 then clamp_ipv4 packet mtu
      else if v =? 6 then clamp_ipv6 packet mtu
      else mret packet
  end.

(** ** Carries *)

Lemma shiftr16 x : Z.shiftr x 16 = x / 65536.
Proof. by rewrite Z.shiftr_div_pow2. Qed.

Lemma land16 x : Z.land x 0xffff = x mod 65536.
Proof. change 0xffff with (Z.ones 16). by rewrite Z.land_ones by lia. Qed.

(** Folding keeps the sum modulo 65535 and whether it is zero. *)
Lemma fold_step x :
  0 ≤ x → let y := Z.land x 0xffff + Z.shiftr x 16 in
  0 ≤ y ∧ y mod 65535 = x mod 65535 ∧ (0 < x → 0 < y).
Proof.
  intros Hx y. subst y. rewrite land16, shiftr16.
  pose proof (Z.div_mod x 65536 ltac:(lia)) as E.
  pose proof (Z.mod_pos_bound x 65536 ltac:(lia)).
  pose proof (Z.div_pos x 65536 Hx ltac:(lia)).
  split_and!; [lia| |lia].
  rewrite E at 3. replace (65536 * (x / 65536) + x mod 65536) with
    (x mod 65536 + x / 65536 + (x / 65536) * 65535) by lia.
  by rewrite Z.mod_add by lia.
Qed.

Lemma fold_carries_ok x :
  0 ≤ x < 2 ^ 32 →
  ∃ y, fold_carries 4 x = Ok y ∧ 0 ≤ y < 65536 ∧ y mod 65535 = x mod 65535 ∧ (0 < x → 0 < y).
Proof.
  intros Hx.
  assert (∀ n x, 0 ≤ x → (match n with O => x < 65536 | S O => x ≤ 65536
                          | S (S O) => x < 131072 | _ => x < 2 ^ 32 end) →
    ∃ y, fold_carries n x = Ok y ∧ 0 ≤ y < 65536 ∧ y mod 65535 = x mod 65535 ∧ (0 < x → 0 < y)) as H.
  { clear. induction n as [|n IH]; intros x Hx Hb; cbn [fold_carries].
    - rewrite shiftr16, Z.div_small, Z.eqb_refl by lia. exists x. split_and!; lia || done.
    - destruct (Z.eqb_spec (Z.shiftr x 16) 0) as [E|E].
      + rewrite shiftr16 in E. exists x. apply Z.div_small_iff in E; [|lia].
        split_and!; lia || done.
      + destruct (fold_step x Hx) as (Hy & Hm & Hpos).
        destruct (IH _ Hy) as (y & Ey & ? & Hm' & Hp'); [|exists y; split_and!; auto; lia].
        rewrite land16, shiftr16 in *.
        pose proof (Z.mod_pos_bound x 65536 ltac:(lia)).
        pose proof (Z.div_mod x 65536 ltac:(lia)).
        assert (x / 65536 < 65536) by (destruct n as [|[|n]]; apply Z.div_lt_upper_bound; lia).
        destruct n as [|[|[|n]]]; lia. }
  apply (H 4%nat x); lia.
Qed.

Lemma sum_words_bound b : bytes_ok b → 0 ≤ sum_words b ≤ 65535 * ((len b + 1) / 2).
Proof.
  assert (∀ n b, (length b ≤ n)%nat → bytes_ok b →
    0 ≤ sum_words b ≤ 65535 * ((len b + 1) / 2)) as H.
  { clear. induction n as [|n IH]; intros b Hl Hb.
    - destruct b; [done|]. cbn in Hl. lia.
    - destruct b as [|x [|y b]]; [done| |].
      + apply Forall_cons in Hb as [Hx _]. unfold byte_ok in Hx. cbn [sum_words].
        rewrite Z.shiftl_mul_pow2 by lia. change (2 ^ 8) with 256.
        change ((len [x] + 1) / 2) with 1. lia.
      + apply Forall_cons in Hb as [Hx Hb]. apply Forall_cons in Hb as [Hy Hb].
        unfold byte_ok in *. cbn [sum_words]. cbn [length] in Hl.
        specialize (IH b ltac:(lia) Hb). unfold len in *. cbn [length].
        replace (Z.of_nat (S (S (length b))) + 1) with (Z.of_nat (length b) + 1 + 1 * 2) by lia.
        rewrite Z.div_add by lia. lia. }
  by apply (H (length b)).
Qed.

Lemma lxor_ffff x : 0 ≤ x < 65536 → Z.lxor x 0xffff = 65535 - x.
Proof.
  intros Hx. change 0xffff with (Z.ones 16).
  assert (Z.lxor x (Z.ones 16) = Z.lnot x mod 2 ^ 16) as ->.
  { apply Z.bits_inj'. intros n Hn. rewrite <- Z.land_ones by lia.
    rewrite Z.lxor_spec, Z.land_spec, Z.lnot_spec by lia.
    destruct (Z.ltb_spec n 16).
    - rewrite Z.ones_spec_low by lia. by destruct (Z.testbit x n).
    - rewrite Z.ones_spec_high by lia. rewrite andb_false_r, xorb_false_r.
      apply Z.bits_above_log2; [lia|]. destruct (decide (x = 0)) as [->|]; [cbn; lia|].
      apply Z.log2_lt_pow2; [lia|]. apply Z.lt_le_trans with (2 ^ 16); [lia|].
      apply Z.pow_le_mono_r; lia. }
  unfold Z.lnot. change (2 ^ 16) with 65536. symmetry. apply (Z.mod_unique _ _ (-1)); change (Z.ones 16) with 65535; lia.
Qed.

(** The checksum is the 16-bit complement of the sum modulo 65535. *)
Lemma internet_checksum_ok b :
  bytes_ok b → len b ≤ 131068 →
  ∃ c, internet_checksum b = Ok c ∧ fits 16 c ∧ (c + sum_words b) mod 65535 = 0 ∧
       (0 < sum_words b → c < 65535).
Proof.
  intros Hb Hl. destruct (sum_words_bound b Hb) as [H0 H1].
  assert ((len b + 1) / 2 ≤ 65535) by (apply Z.div_le_upper_bound; lia).
  unfold internet_checksum. rewrite wrap_small by (unfold fits; lia).
  destruct (fold_carries_ok (sum_words b)) as (y & -> & Hy & Hm & Hp); [lia|].
  cbn [mbind outcome_bind]. rewrite wrap_small by (unfold fits; lia).
  rewrite lxor_ffff by done. eexists. split; [done|]. unfold fits. split_and!; [lia..| |lia].
  rewrite <- Zplus_mod_idemp_r, <- Hm, Zplus_mod_idemp_r.
  by replace (65535 - y + y) with 65535 by lia.
Qed.

Lemma sum_words_app a b :
  Nat.Even (length a) → sum_words (a ++ b) = sum_words a + sum_words b.
Proof.
  intros [n Hn]. revert a Hn; induction n as [|n IH]; intros a Hn.
  - destruct a; [done|]. cbn in Hn. lia.
  - destruct a as [|x [|y a]]; cbn in Hn; [lia..|]. cbn [app sum_words].
    rewrite IH by lia. lia.
Qed.

(** Writing the checksum of a buffer whose field is zero into the field makes
    the buffer's own checksum 0, which is what a receiver tests. *)
Lemma checksum_verifies pre post c :
  Nat.Even (length pre) → bytes_ok pre → bytes_ok post → fits 16 c →
  len pre + 2 + len post ≤ 131068 →
  0 < sum_words (pre ++ [0; 0] ++ post) →
  internet_checksum (pre ++ [0; 0] ++ post) = Ok c →
  internet_checksum (pre ++ u16_to_be c ++ post) = Ok 0.
Proof.
  intros He Hp1 Hp2 Hc Hl Hpos H.
  assert (bytes_ok [0; 0]) as Hz by (repeat constructor; lia).
  destruct (internet_checksum_ok (pre ++ [0; 0] ++ post)) as (c' & E & _ & Hm & _).
  { repeat (apply Forall_app; split); done. }
  { unfold len in *. rewrite !length_app. cbn [length]. lia. }
  rewrite H in E. injection E as <-.
  destruct (internet_checksum_ok (pre ++ u16_to_be c ++ post)) as (d & -> & Hd & Hm' & Hd').
  { apply Forall_app; split; [done|]. apply Forall_app; split; [apply to_be_bytes_ok|done]. }
  { unfold len, u16_to_be in *. rewrite !length_app, length_to_be. lia. }
  assert (sum_words (pre ++ u16_to_be c ++ post) = sum_words (pre ++ [0; 0] ++ post) + c) as E.
  { rewrite !(sum_words_app pre) by done.
    rewrite !(sum_words_app _ post) by (unfold u16_to_be; try rewrite length_to_be; by exists 1%nat).
    unfold u16_to_be. cbn [to_be app sum_words]. unfold fits in Hc. cbn.
    pose proof (Z.div_mod c 256 ltac:(lia)). rewrite (Z.mod_small (c / 256)); [lia|].
    split; [apply Z.div_pos; lia|apply Z.div_lt_upper_bound; lia]. }
  rewrite E in Hm', Hd'. unfold fits in *. f_equal.
  rewrite Z.add_comm in Hm. rewrite <- Zplus_mod_idemp_r, Hm, Z.add_0_r in Hm'.
  specialize (Hd' ltac:(lia)). rewrite Z.mod_small in Hm'; lia.
Qed.

(** ** The option walk *)

Definition put_mss (hdr : list Z) (k : nat) (m : Z) : list Z :=
  take (k + 2) hdr ++ u16_to_be m ++ drop (k + 4) hdr.

(** An MSS option at [k] of a header, with a value above [m]. *)
Definition mss_above (hdr : list Z) (k : nat) (m : Z) : Prop :=
  (20 ≤ k)%nat ∧ (k + 4 ≤ length hdr)%nat ∧
  hdr !! k = Some TCP_OPT_MSS ∧ hdr !! (k + 1)%nat = Some 4 ∧
  m < from_be (take 2 (drop (k + 2) hdr)).

Lemma length_put_mss hdr k m :
  (k + 4 ≤ length hdr)%nat → length (put_mss hdr k m) = length hdr.
Proof.
  intros H. unfold put_mss, u16_to_be.
  rewrite !length_app, length_to_be, length_take, length_drop. lia.
Qed.

(** Position [k] of the options is reached from [i] over padding and complete
    options of other kinds. *)
Inductive options_reach (hdr : list Z) : nat → nat → Prop :=
  | reach_here i : options_reach hdr i i
  | reach_nop i k :
      hdr !! i = Some TCP_OPT_NOP → options_reach hdr (i + 1) k → options_reach hdr i k
  | reach_opt i x l k :
      hdr !! i = Some x → x ∉ [TCP_OPT_END; TCP_OPT_NOP; TCP_OPT_MSS] →
      hdr !! (i + 1)%nat = Some l → 2 ≤ l → (i + Z.to_nat l ≤ length hdr)%nat →
      options_reach hdr (i + Z.to_nat l) k → options_reach hdr i k.

Lemma walk_options_spec fuel hdr i m :
  (20 ≤ i)%nat → (length hdr ≤ i + fuel)%nat →
  walk_options fuel hdr i m = Ok (hdr, false) ∨
  ∃ k, options_reach hdr i k ∧ mss_above hdr k m ∧
    walk_options fuel hdr i m = Ok (put_mss hdr k m, true).
Proof.
  revert i; induction fuel as [|fuel IH]; intros i Hi Hf; cbn [walk_options];
    (case_bool_decide as Hend; [by left|]); [lia|].
  destruct (lookup_lt_is_Some_2 hdr i ltac:(lia)) as [x Hx].
  rewrite (idx_Some _ _ _ Hx). cbn [mbind outcome_bind].
  destruct (Z.eqb_spec x TCP_OPT_END) as [|He]; [by left|].
  destruct (Z.eqb_spec x TCP_OPT_NOP) as [->|Hn].
  { destruct (IH (i + 1)%nat) as [?|(k & Hr & ?)]; [lia..|by left|].
    right. exists k. split; [by apply reach_nop|done]. }
  destruct (Z.eqb_spec x TCP_OPT_MSS) as [->|Hk].
  - case_bool_decide; [by left|].
    destruct (lookup_lt_is_Some_2 hdr (i + 1)%nat ltac:(lia)) as [l Hl].
    destruct (lookup_lt_is_Some_2 hdr (i + 2)%nat ltac:(lia)) as [a Ha].
    destruct (lookup_lt_is_Some_2 hdr (i + 3)%nat ltac:(lia)) as [b Hb].
    rewrite (idx_Some _ _ _ Hl), (idx_Some _ _ _ Ha), (idx_Some _ _ _ Hb).
    cbn [mbind outcome_bind]. destruct (Z.eqb_spec l 4) as [->|]; [|by left]. cbn [negb].
    destruct (Z.leb_spec (from_be [a; b]) m); [by left|]. right. exists i.
    rewrite copy_ok by (unfold u16_to_be; try rewrite length_to_be; lia).
    split; [apply reach_here|]. split; [|done].
    split_and!; try done; [lia|].
    rewrite (drop_S hdr a (i + 2)) by done.
    rewrite (drop_S hdr b (S (i + 2))); [done|]. by rewrite <- Hb; f_equal; lia.
  - case_bool_decide; [by left|].
    destruct (lookup_lt_is_Some_2 hdr (i + 1)%nat ltac:(lia)) as [l Hl].
    rewrite (idx_Some _ _ _ Hl). cbn [mbind outcome_bind]. cbv zeta.
    case_bool_decide; [by left|]. case_bool_decide; [by left|]. cbn [orb].
    destruct (IH (i + Z.to_nat l)%nat) as [?|(k & Hr & ?)]; [lia..|by left|].
    right. exists k. split; [|done]. eapply reach_opt; [done| |done|lia|lia|done].
    rewrite !not_elem_of_cons. split_and!; [done..|apply not_elem_of_nil].
Qed.

Lemma walk_options_reach hdr i k m fuel :
  options_reach hdr i k → (length hdr ≤ i + fuel)%nat →
  hdr !! k = Some TCP_OPT_MSS → (k + 4 ≤ length hdr)%nat → hdr !! (k + 1)%nat = Some 4 →
  walk_options fuel hdr i m =
  if from_be (take 2 (drop (k + 2) hdr)) <=? m then Ok (hdr, false)
  else Ok (put_mss hdr k m, true).
Proof.
  intros Hr Hf Hk Hk4 Hl. revert fuel Hf.
  induction Hr as [k|i k Hi Hr IH|i x l k Hi Hx Hl' Hl2 Hfit Hr IH]; intros fuel Hf.
  - destruct fuel as [|fuel]; [lia|]. cbn [walk_options]. rewrite bool_decide_false by lia.
    rewrite (idx_Some _ _ _ Hk). cbn [mbind outcome_bind].
    change (TCP_OPT_MSS =? TCP_OPT_END) with false. change (TCP_OPT_MSS =? TCP_OPT_NOP) with false.
    rewrite Z.eqb_refl, bool_decide_false by lia.
    destruct (lookup_lt_is_Some_2 hdr (k + 2)%nat ltac:(lia)) as [a Ha].
    destruct (lookup_lt_is_Some_2 hdr (k + 3)%nat ltac:(lia)) as [b Hb].
    rewrite (idx_Some _ _ _ Hl), (idx_Some _ _ _ Ha), (idx_Some _ _ _ Hb).
    cbn [mbind outcome_bind]. rewrite (drop_S hdr a (k + 2)) by done.
    rewrite (drop_S hdr b (S (k + 2))) by (rewrite <- Hb; f_equal; lia).
    cbn [take negb]. change (4 =? 4) with true. cbn [negb].
    destruct (_ <=? _); [done|].
    rewrite copy_ok by (unfold u16_to_be; try rewrite length_to_be; lia). done.
  - apply lookup_lt_Some in Hi as Hlt. destruct fuel as [|fuel]; [lia|]. cbn [walk_options].
    rewrite bool_decide_false by lia. rewrite (idx_Some _ _ _ Hi). cbn [mbind outcome_bind].
    change (TCP_OPT_NOP =? TCP_OPT_END) with false. rewrite Z.eqb_refl. apply IH; [done..|lia].
  - apply lookup_lt_Some in Hl' as Hlt. destruct fuel as [|fuel]; [lia|]. cbn [walk_options].
    rewrite bool_decide_false by lia. rewrite (idx_Some _ _ _ Hi), (idx_Some _ _ _ Hl').
    cbn [mbind outcome_bind]. rewrite !not_elem_of_cons in Hx.
    destruct Hx as (? & ? & ? & _). rewrite !(proj2 (Z.eqb_neq _ _)) by done.
    rewrite bool_decide_false by lia. cbv zeta. rewrite !bool_decide_false by lia. cbn [orb].
    apply IH; [done..|lia].
Qed.

Lemma rewrite_mss_spec hdr m :
  rewrite_mss_if_syn hdr m = Ok (hdr, false) ∨
  ∃ k flags, options_reach hdr 20 k ∧ mss_above hdr k m ∧ hdr !! 13%nat = Some flags ∧ Z.land flags TCP_FLAG_SYN ≠ 0 ∧
    rewrite_mss_if_syn hdr m = Ok (put_mss hdr k m, true).
Proof.
  unfold rewrite_mss_if_syn. case_bool_decide; [by left|].
  destruct (lookup_lt_is_Some_2 hdr 13 ltac:(lia)) as [fl Hfl].
  rewrite (idx_Some _ _ _ Hfl). cbn [mbind outcome_bind].
  destruct (Z.eqb_spec (Z.land fl TCP_FLAG_SYN) 0); [by left|].
  destruct (walk_options_spec (length hdr) hdr 20 m) as [->|(k & Hr & Hk & ->)]; [lia|lia|by left|].
  right. by exists k, fl.
Qed.

(** ** The rewritten packet *)

(** The bytes [i..i + 2] of a buffer replaced by a 16-bit value. *)
Definition put_u16 (b : list Z) (i : nat) (v : Z) : list Z :=
  take i b ++ u16_to_be v ++ drop (i + 2) b.

Definition mss_value (tcp : list Z) (k : nat) : Z := from_be (take 2 (drop (k + 2) tcp)).

(** A segment whose header, of [hl] bytes, is a SYN's with an MSS option
    at [k]. *)
Record syn_mss (tcp : list Z) (hl k : nat) : Prop := {
  sm_offset : ∃ x, tcp !! 12%nat = Some x ∧ hl = (Z.to_nat (Z.shiftr x 4) * 4)%nat;
  sm_hl : (20 ≤ hl ≤ length tcp)%nat;
  sm_syn : ∃ flags, tcp !! 13%nat = Some flags ∧ Z.land flags TCP_FLAG_SYN ≠ 0;
  sm_reach : options_reach (take hl tcp) 20 k;
  sm_option : tcp !! k = Some TCP_OPT_MSS ∧ tcp !! (k + 1)%nat = Some 4 ∧ (20 ≤ k)%nat ∧
              (k + 4 ≤ hl)%nat }.

(** The segment at [ip] is that of a SYN whose MSS option, at [k] of its header
    of [hl] bytes, asks for more than the MTU leaves. *)
Definition too_large (packet : list Z) (mtu : Z) (ip hl k : nat) : Prop :=
  syn_mss (drop ip packet) hl k ∧
  0 < mtu - Z.of_nat (ip + hl) < mss_value (drop ip packet) k.

(** What clamping does to such a packet: the MSS goes down to what the MTU
    leaves, and a checksum makes the segment verify under the pseudo-header. *)
Record clamped (packet out pseudo : list Z) (mtu : Z) (ip hl k : nat) : Prop := {
  cl_large : too_large packet mtu ip hl k;
  cl_packet : ∃ c, out = put_u16 (put_u16 packet (ip + k + 2) (mtu - Z.of_nat (ip + hl))) (ip + 16) c;
  cl_checksum : internet_checksum (pseudo ++ drop ip out) = Ok 0 }.

Lemma max_segment_spec mtu a b m :
  0 ≤ mtu < 65536 → max_segment_for mtu a b = Some m →
  m = mtu - Z.of_nat (a + b) ∧ 0 < m < 65536.
Proof.
  intros Hm. unfold max_segment_for, checked_sub.
  destruct (Z.ltb_spec mtu (Z.of_nat a)); [done|].
  destruct (Z.ltb_spec (mtu - Z.of_nat a) (Z.of_nat b)); [done|].
  destruct (Z.ltb_spec 0 (mtu - Z.of_nat a - Z.of_nat b)); [|done].
  intros [= <-]. rewrite wrap_small by (unfold fits; lia). lia.
Qed.

Lemma length_put_u16 b i v : (i + 2 ≤ length b)%nat → length (put_u16 b i v) = length b.
Proof.
  intros. unfold put_u16, u16_to_be. rewrite !length_app, length_to_be, length_take, length_drop. lia.
Qed.

Lemma put_u16_bytes b i v : bytes_ok b → bytes_ok (put_u16 b i v).
Proof.
  intros Hb. unfold put_u16. apply Forall_app; split; [by apply bytes_ok_take|].
  apply Forall_app; split; [apply to_be_bytes_ok|by apply bytes_ok_drop].
Qed.

(** Putting a changed header back is changing the packet. *)
Lemma put_back packet ip hl k m :
  (ip + hl ≤ length packet)%nat → (k + 4 ≤ hl)%nat →
  take ip packet ++ put_mss (take hl (drop ip packet)) k m ++ drop (ip + hl) packet =
  put_u16 packet (ip + k + 2) m.
Proof.
  intros Hl Hk. unfold put_mss, put_u16. rewrite <- !app_assoc.
  rewrite take_take, Nat.min_l by lia.
  rewrite (app_assoc (take ip packet)). rewrite take_take_drop.
  rewrite Nat.add_assoc. do 2 f_equal.
  rewrite skipn_firstn_comm, drop_drop.
  replace (drop (ip + hl) packet) with (drop (hl - (k + 4)) (drop (ip + (k + 4)) packet)).
  - rewrite take_drop. f_equal. lia.
  - rewrite drop_drop. f_equal. lia.
Qed.

(** The checksum over the pseudo-header and a segment, its field zeroed. *)
Definition segment_checksum (pseudo tcp : list Z) : outcome Z :=
  b ← set_idx (pseudo ++ tcp) (length pseudo + 16) 0;
  b ← set_idx b (length pseudo + 16 + 1) 0;
  internet_checksum b.

Lemma set_field pre x y post i :
  i = length pre →
  (b ← set_idx (pre ++ x :: y :: post) i 0; b ← set_idx b (i + 1) 0; internet_checksum b) =
  internet_checksum (pre ++ [0; 0] ++ post).
Proof.
  intros ->. rewrite set_idx_ok by (rewrite length_app; cbn; lia). cbn [mbind outcome_bind].
  rewrite set_idx_ok by (rewrite length_insert, length_app; cbn; lia). cbn [mbind outcome_bind].
  f_equal. rewrite insert_app_r_alt by lia. rewrite Nat.sub_diag. cbn [insert list_insert].
  rewrite insert_app_r_alt by lia. rewrite Nat.add_sub_swap, Nat.sub_diag by lia. done.
Qed.

Lemma split_field (tcp : list Z) :
  (18 ≤ length tcp)%nat →
  ∃ x y, tcp = take 16 tcp ++ x :: y :: drop 18 tcp.
Proof.
  intros H. destruct (lookup_lt_is_Some_2 tcp 16 ltac:(lia)) as [x Hx].
  destruct (lookup_lt_is_Some_2 tcp 17 ltac:(lia)) as [y Hy]. exists x, y.
  rewrite <- (drop_S tcp y 17), <- (drop_S tcp x 16) by done. by rewrite take_drop.
Qed.

Lemma mss_value_put p ip k m :
  (ip + k + 4 ≤ length p)%nat → 0 ≤ m < 65536 →
  mss_value (drop ip (put_u16 p (ip + k + 2) m)) k = m.
Proof.
  intros Hl Hm. unfold mss_value, put_u16. rewrite drop_drop.
  rewrite drop_app_ge by (rewrite length_take; lia). rewrite length_take.
  replace (ip + (k + 2) - (ip + k + 2) `min` length p)%nat with 0%nat by lia.
  rewrite drop_0, take_app_le by (unfold u16_to_be; rewrite length_to_be; lia).
  rewrite take_ge by (unfold u16_to_be; rewrite length_to_be; lia).
  apply from_to_be. unfold fits. lia.
Qed.

Lemma mss_value_later p ip i k c :
  (k + 4 ≤ length p - ip)%nat → (i + 2 ≤ ip + k + 2)%nat →
  mss_value (drop ip (put_u16 p i c)) k = mss_value (drop ip p) k.
Proof.
  intros Hk Hi. unfold mss_value, put_u16. rewrite !drop_drop.
  rewrite drop_app_ge by (rewrite length_take; lia). rewrite length_take.
  rewrite drop_app_ge by (unfold u16_to_be; rewrite length_to_be; lia).
  unfold u16_to_be. rewrite length_to_be, drop_drop. do 3 f_equal. lia.
Qed.

Section clamp.
Context (packet pseudo : list Z) (mtu : Z) (ip : nat) (checksum : list Z → outcome Z).
Hypothesis packet_bytes : bytes_ok packet.
Hypothesis pseudo_bytes : bytes_ok pseudo.
Hypothesis pseudo_even : Nat.Even (length pseudo).
Hypothesis pseudo_sum : 0 < sum_words pseudo.
Hypothesis lengths : len pseudo ≤ 40 ∧ len packet ≤ 65535 ∧ (ip ≤ length packet)%nat.
Hypothesis mtu_u16 : 0 ≤ mtu < 65536.
Hypothesis checksum_def : ∀ p, length p = length packet → take ip p = take ip packet →
  checksum p = segment_checksum pseudo (drop ip p).

Lemma checksum_put p :
  bytes_ok p → length p = length packet → take ip p = take ip packet →
  (ip + 18 ≤ length p)%nat →
  ∃ c, checksum p = Ok c ∧
    internet_checksum (pseudo ++ drop ip (put_u16 p (ip + 16) c)) = Ok 0.
Proof.
  intros Hb Hl Ht Hlen. rewrite checksum_def by done.
  destruct (split_field (drop ip p)) as (x & y & E); [rewrite length_drop; lia|].
  set (A := take 16 (drop ip p)) in *. set (B := drop 18 (drop ip p)) in *.
  assert (bytes_ok A ∧ bytes_ok B) as [HA HB].
  { split; [by apply bytes_ok_take, bytes_ok_drop|by apply bytes_ok_drop, bytes_ok_drop]. }
  assert (length A = 16%nat ∧ length B = length p - (ip + 18))%nat as [HlA HlB].
  { subst A B. rewrite length_take, !length_drop. lia. }
  assert (segment_checksum pseudo (drop ip p) =
          internet_checksum ((pseudo ++ A) ++ [0; 0] ++ B)) as ->.
  { unfold segment_checksum. rewrite E, app_assoc. apply set_field. rewrite length_app. lia. }
  assert (bytes_ok (pseudo ++ A)) as HpA by (apply Forall_app; done).
  assert (Nat.Even (length (pseudo ++ A))) as He.
  { destruct pseudo_even as [n Hn]. exists (n + 8)%nat. rewrite length_app. lia. }
  assert (len (pseudo ++ A) + 2 + len B ≤ 131068) as Hsz.
  { unfold len in *. rewrite length_app. lia. }
  assert (bytes_ok [0; 0]) as Hz by (repeat constructor; lia).
  assert (0 < sum_words ((pseudo ++ A) ++ [0; 0] ++ B)) as Hpos.
  { rewrite <- app_assoc, sum_words_app by done.
    assert (bytes_ok (A ++ [0; 0] ++ B)) as Hbb.
    { apply Forall_app; split; [done|]. by apply Forall_app. }
    apply sum_words_bound in Hbb as [? _]. lia. }
  destruct (internet_checksum_ok ((pseudo ++ A) ++ [0; 0] ++ B)) as (c & Hc & Hfit & _).
  { apply Forall_app; split; [done|]. by apply Forall_app. }
  { unfold len in *. rewrite !length_app in *. cbn [length]. lia. }
  exists c. split; [done|].
  assert (drop ip (put_u16 p (ip + 16) c) = A ++ u16_to_be c ++ B) as ->.
  { unfold put_u16. rewrite drop_app_le by (rewrite length_take; lia).
    rewrite <- take_drop_commute. subst A B. rewrite drop_drop. do 3 f_equal. lia. }
  rewrite app_assoc. apply checksum_verifies; done.
Qed.

Lemma header_too_large hl k m x fl :
  mss_above (take hl (drop ip packet)) k m → drop ip packet !! 12%nat = Some x →
  (20 ≤ hl ≤ length packet - ip)%nat → hl = (Z.to_nat (Z.shiftr x 4) * 4)%nat →
  options_reach (take hl (drop ip packet)) 20 k →
  take hl (drop ip packet) !! 13%nat = Some fl → Z.land fl TCP_FLAG_SYN ≠ 0 →
  syn_mss (drop ip packet) hl k ∧ m < mss_value (drop ip packet) k.
Proof.
  intros (H20 & H4 & Hk & Hk1 & Hm) Hx Hhl Ehl Hr Hfl Hsyn.
  rewrite length_take, length_drop in H4.
  rewrite !lookup_take_lt in * by lia. split.
  - split; [eauto|rewrite length_drop; lia|eauto|done|split_and!; [done..|lia]].
  - unfold mss_value. rewrite skipn_firstn_comm, take_take in Hm.
    replace (2 `min` (hl - (k + 2)))%nat with 2%nat in Hm by lia. done.
Qed.

Lemma clamp_tcp_spec :
  ∃ out, clamp_tcp packet mtu ip checksum = Ok out ∧
    (out = packet ∨ ∃ hl k, clamped packet out pseudo mtu ip hl k).
Proof.
  unfold clamp_tcp. rewrite slice_from_ok by lia. cbn [mbind outcome_bind].
  unfold tcp_header_len. case_bool_decide as H20; [eexists; split; [done|by left]|].
  rewrite length_drop in H20.
  destruct (lookup_lt_is_Some_2 (drop ip packet) 12) as [x Hx]; [rewrite length_drop; lia|].
  rewrite (idx_Some _ _ _ Hx). cbn [mbind outcome_bind mret outcome_ret]. cbv zeta.
  set (hl := (Z.to_nat (Z.shiftr x 4) * 4)%nat).
  case_bool_decide as Hhl; [eexists; split; [done|by left]|].
  case_bool_decide as Hfit; [eexists; split; [done|by left]|].
  destruct (max_segment_for mtu ip hl) as [m|] eqn:Em; [|eexists; split; [done|by left]].
  apply max_segment_spec in Em as [Em Hm]; [|done].
  rewrite slice_ok by lia. replace (ip + hl - ip)%nat with hl by lia.
  cbn [mbind outcome_bind].
  destruct (rewrite_mss_spec (take hl (drop ip packet)) m)
    as [->|(k & fl & Hr & Hk & Hfl & Hsyn & ->)]; cbn [mbind outcome_bind fst snd negb].
  - rewrite copy_ok by (rewrite ?length_take, ?length_drop; lia). cbn [mbind outcome_bind].
    exists packet. split; [|by left]. unfold mret, outcome_ret. f_equal.
    rewrite <- drop_drop, take_drop. by rewrite take_drop.
  - pose proof Hk as (Hk20 & Hk4 & _). rewrite length_take, length_drop in Hk4.
    rewrite copy_ok.
    2: lia.
    2: { rewrite length_put_mss; rewrite length_take, length_drop; lia. }
    cbn [mbind outcome_bind]. rewrite put_back by lia.
    set (p1 := put_u16 packet (ip + k + 2) m).
    assert (length p1 = length packet) as Hl1 by (apply length_put_u16; lia).
    assert (take ip p1 = take ip packet) as Ht1.
    { unfold p1, put_u16. rewrite take_app_le by (rewrite length_take; lia).
      rewrite take_take. f_equal. lia. }
    destruct (checksum_put p1) as (c & -> & Hck); try done; [by apply put_u16_bytes|lia|].
    cbn [mbind outcome_bind]. rewrite copy_ok.
    2: lia.
    2: { unfold u16_to_be. rewrite length_to_be. lia. }
    exists (put_u16 p1 (ip + 16) c). split.
    { clearbody p1. unfold put_u16. do 4 f_equal. lia. }
    right. exists hl, k.
    destruct (header_too_large hl k m x fl Hk Hx ltac:(lia) eq_refl Hr Hfl Hsyn) as [Hs Hgt].
    split; [split; [done|lia]|exists c; by rewrite <- Em|done].
Qed.

(** An MSS within the limit is kept; a larger one becomes the limit. *)
Lemma clamp_tcp_enforces hl k :
  syn_mss (drop ip packet) hl k → 0 < mtu - Z.of_nat (ip + hl) →
  ∃ out, clamp_tcp packet mtu ip checksum = Ok out ∧
    mss_value (drop ip out) k =
      Z.min (mss_value (drop ip packet) k) (mtu - Z.of_nat (ip + hl)) ∧
    (mss_value (drop ip packet) k ≤ mtu - Z.of_nat (ip + hl) → out = packet).
Proof.
  intros [(x & Hx & Ehl) Hhl (fl & Hfl & Hsyn) Hr (Hk & Hk1 & Hk20 & Hk4)] Hm.
  rewrite length_drop in Hhl.
  unfold clamp_tcp. rewrite slice_from_ok by lia. cbn [mbind outcome_bind].
  unfold tcp_header_len. rewrite bool_decide_false by (rewrite length_drop; lia).
  rewrite (idx_Some _ _ _ Hx). cbn [mbind outcome_bind mret outcome_ret]. cbv zeta.
  rewrite <- Ehl. rewrite !bool_decide_false by lia.
  set (m := mtu - Z.of_nat (ip + hl)) in *.
  assert (max_segment_for mtu ip hl = Some m) as ->.
  { unfold max_segment_for, checked_sub. subst m.
    destruct (Z.ltb_spec mtu (Z.of_nat ip)); [lia|].
    destruct (Z.ltb_spec (mtu - Z.of_nat ip) (Z.of_nat hl)); [lia|].
    destruct (Z.ltb_spec 0 (mtu - Z.of_nat ip - Z.of_nat hl)); [|lia].
    rewrite wrap_small by (unfold fits; lia). f_equal. lia. }
  rewrite slice_ok by lia. replace (ip + hl - ip)%nat with hl by lia. cbn [mbind outcome_bind].
  set (hdr := take hl (drop ip packet)).
  assert (length hdr = hl) as Hlh by (subst hdr; rewrite length_take, length_drop; lia).
  assert (∀ j, (j < hl)%nat → hdr !! j = drop ip packet !! j) as Hj
    by (intros; by apply lookup_take_lt).
  unfold rewrite_mss_if_syn. rewrite bool_decide_false by lia.
  rewrite (idx_Some hdr 13 fl) by (by rewrite Hj by lia). cbn [mbind outcome_bind].
  rewrite (proj2 (Z.eqb_neq _ _) Hsyn).
  rewrite (walk_options_reach hdr 20 k m) by (try done; rewrite ?Hj by lia; try done; lia).
  assert (from_be (take 2 (drop (k + 2) hdr)) = mss_value (drop ip packet) k) as ->.
  { subst hdr. unfold mss_value. rewrite skipn_firstn_comm, take_take. do 2 f_equal. lia. }
  destruct (Z.leb_spec (mss_value (drop ip packet) k) m); cbn [mbind outcome_bind fst snd negb].
  - rewrite copy_ok by lia. cbn [mbind outcome_bind].
    exists packet. split; [|split; [lia|done]]. unfold mret, outcome_ret. f_equal.
    subst hdr. rewrite <- drop_drop, take_drop. by rewrite take_drop.
  - rewrite copy_ok by (rewrite ?length_put_mss; lia).
    cbn [mbind outcome_bind]. subst hdr. rewrite put_back by lia.
    set (p1 := put_u16 packet (ip + k + 2) m).
    assert (length p1 = length packet) as Hl1 by (apply length_put_u16; lia).
    assert (take ip p1 = take ip packet) as Ht1.
    { unfold p1, put_u16. rewrite take_app_le by (rewrite length_take; lia).
      rewrite take_take. f_equal. lia. }
    destruct (checksum_put p1) as (c & -> & Hck); try done; [by apply put_u16_bytes|lia|].
    cbn [mbind outcome_bind]. rewrite copy_ok by (unfold u16_to_be; try rewrite length_to_be; lia).
    eexists. split; [done|]. split; [|lia].
    transitivity (mss_value (drop ip (put_u16 p1 (ip + 16) c)) k).
    { clearbody p1. unfold put_u16. do 5 f_equal. lia. }
    rewrite mss_value_later by lia. unfold p1. rewrite mss_value_put by lia. lia.
Qed.

End clamp.

(** The pseudo-headers of RFC 793 and RFC 8200 for a segment of a packet. *)
Definition pseudo_v4 (packet : list Z) (ip : nat) : list Z :=
  take 4 (drop 12 packet) ++ take 4 (drop 16 packet) ++ [0] ++ [PROTO_TCP]
  ++ u16_to_be (wrap 16 (Z.of_nat (length packet - ip))).
Definition pseudo_v6 (packet : list Z) : list Z :=
  take 16 (drop 8 packet) ++ take 16 (drop 24 packet)
  ++ u32_to_be (wrap 32 (Z.of_nat (length packet - 40))) ++ [0; 0; 0] ++ [PROTO_TCP].

Lemma take_drop_prefix {A} (p q : list A) i n m :
  take m p = take m q → (i + n ≤ m)%nat → take n (drop i p) = take n (drop i q).
Proof.
  intros H Hm. rewrite !firstn_skipn_comm.
  assert (∀ l : list A, take (i + n) l = take (i + n) (take m l)) as E.
  { intros l. rewrite take_take. f_equal. lia. }
  by rewrite (E p), (E q), H.
Qed.

Lemma sum_words_pos pre post :
  Nat.Even (length pre) → bytes_ok pre → bytes_ok post →
  0 < sum_words (pre ++ [0; PROTO_TCP] ++ post).
Proof.
  intros He Hp Hq. rewrite sum_words_app by done.
  apply sum_words_bound in Hp as [? _]. apply sum_words_bound in Hq as [? _].
  cbn [app sum_words]. unfold PROTO_TCP. lia.
Qed.

Lemma pseudo_v4_ok packet ip :
  bytes_ok packet → (20 ≤ length packet)%nat →
  bytes_ok (pseudo_v4 packet ip) ∧ length (pseudo_v4 packet ip) = 12%nat ∧
  0 < sum_words (pseudo_v4 packet ip).
Proof.
  intros Hb Hl. unfold pseudo_v4.
  set (src := take 4 (drop 12 packet)). set (dst := take 4 (drop 16 packet)).
  assert (bytes_ok (src ++ dst)) as Hsd.
  { apply Forall_app; split; by apply bytes_ok_take, bytes_ok_drop. }
  assert (length (src ++ dst) = 8%nat) as Hl8.
  { subst src dst. rewrite length_app, !length_take, !length_drop. lia. }
  change ([0] ++ [PROTO_TCP] ++ ?x) with ([0; PROTO_TCP] ++ x). rewrite app_assoc.
  split_and!.
  - apply Forall_app; split; [done|]. apply Forall_app; split; [|apply to_be_bytes_ok].
    repeat constructor; unfold PROTO_TCP; lia.
  - rewrite !length_app in *. rewrite Hl8. unfold u16_to_be. by rewrite length_to_be.
  - apply sum_words_pos; [rewrite Hl8; by exists 4%nat|done|apply to_be_bytes_ok].
Qed.

Lemma pseudo_v6_ok packet :
  bytes_ok packet → (40 ≤ length packet)%nat →
  bytes_ok (pseudo_v6 packet) ∧ length (pseudo_v6 packet) = 40%nat ∧
  0 < sum_words (pseudo_v6 packet).
Proof.
  intros Hb Hl. unfold pseudo_v6.
  set (src := take 16 (drop 8 packet)). set (dst := take 16 (drop 24 packet)).
  set (ln := u32_to_be _).
  assert (src ++ dst ++ ln ++ [0; 0; 0] ++ [PROTO_TCP] =
          (src ++ dst ++ ln ++ [0; 0]) ++ [0; PROTO_TCP] ++ []) as ->
    by (by rewrite <- !app_assoc).
  assert (bytes_ok (src ++ dst ++ ln ++ [0; 0])) as Hsd.
  { apply Forall_app; split; [by apply bytes_ok_take, bytes_ok_drop|].
    apply Forall_app; split; [by apply bytes_ok_take, bytes_ok_drop|].
    apply Forall_app; split; [apply to_be_bytes_ok|repeat constructor; lia]. }
  assert (length (src ++ dst ++ ln ++ [0; 0]) = 38%nat) as Hl38.
  { subst src dst ln. unfold u32_to_be.
    rewrite !length_app, !length_take, !length_drop, length_to_be. cbn [length]. lia. }
  split_and!.
  - apply Forall_app; split; [done|]. repeat constructor; unfold PROTO_TCP; lia.
  - rewrite length_app, Hl38. done.
  - apply sum_words_pos; [rewrite Hl38; by exists 19%nat|done|constructor].
Qed.

(** The checksums of [clamp_ipv4] and [clamp_ipv6] are those of the segment
    under its pseudo-header. *)
Definition checksum_v4 (ip : nat) (packet : list Z) : outcome Z :=
  src ← slice packet 12 16;
  dst ← slice packet 16 20;
  tcp ← slice_from packet ip;
  tcp_checksum_v4 src dst tcp.
Definition checksum_v6 (packet : list Z) : outcome Z :=
  src ← slice packet 8 24;
  dst ← slice packet 24 40;
  tcp ← slice_from packet 40;
  tcp_checksum_v6 src dst tcp.

Lemma checksum_v4_def packet ip p :
  (20 ≤ ip ≤ length packet)%nat → bytes_ok packet →
  length p = length packet → take ip p = take ip packet →
  checksum_v4 ip p = segment_checksum (pseudo_v4 packet ip) (drop ip p).
Proof.
  intros Hip Hb Hlp Hpre. unfold checksum_v4.
  destruct (pseudo_v4_ok packet ip Hb ltac:(lia)) as (_ & Hp2 & _).
  rewrite !slice_ok by lia. cbn [mbind outcome_bind].
  rewrite slice_from_ok by lia. cbn [mbind outcome_bind].
  change (16 - 12)%nat with 4%nat. change (20 - 16)%nat with 4%nat.
  rewrite (take_drop_prefix p packet 12 4 ip Hpre ltac:(lia)).
  rewrite (take_drop_prefix p packet 16 4 ip Hpre ltac:(lia)).
  unfold segment_checksum, tcp_checksum_v4. rewrite Hp2. unfold pseudo_v4.
  rewrite <- !app_assoc. unfold len. by rewrite length_drop, Hlp.
Qed.

Lemma checksum_v6_def packet p :
  (40 ≤ length packet)%nat → bytes_ok packet →
  length p = length packet → take 40 p = take 40 packet →
  checksum_v6 p = segment_checksum (pseudo_v6 packet) (drop 40 p).
Proof.
  intros Hl Hb Hlp Hpre. unfold checksum_v6.
  destruct (pseudo_v6_ok packet Hb Hl) as (_ & Hp2 & _).
  rewrite !slice_ok by lia. cbn [mbind outcome_bind].
  rewrite slice_from_ok by lia. cbn [mbind outcome_bind].
  change (24 - 8)%nat with 16%nat. change (40 - 24)%nat with 16%nat.
  rewrite (take_drop_prefix p packet 8 16 40 Hpre ltac:(lia)).
  rewrite (take_drop_prefix p packet 24 16 40 Hpre ltac:(lia)).
  unfold segment_checksum, tcp_checksum_v6. rewrite Hp2. unfold pseudo_v6.
  rewrite <- !app_assoc. unfold len. by rewrite length_drop, Hlp.
Qed.

(** What the code takes for an IP packet whose TCP segment starts at [ip]. *)
Definition taken_v4 (packet : list Z) (ip : nat) : Prop :=
  (20 ≤ ip)%nat ∧ (ip + 20 ≤ length packet)%nat ∧ packet !! 9%nat = Some PROTO_TCP ∧
  ∃ b0, packet !! 0%nat = Some b0 ∧ Z.shiftr b0 4 = 4 ∧ ip = (Z.to_nat (Z.land b0 0x0f) * 4)%nat.
Definition taken_v6 (packet : list Z) (ip : nat) : Prop :=
  ip = 40%nat ∧ (40 ≤ length packet)%nat ∧ packet !! 6%nat = Some PROTO_TCP ∧
  ∃ b0, packet !! 0%nat = Some b0 ∧ Z.shiftr b0 4 = 6.

(** A packet in one piece: not a fragment, and as long as its header says. *)
Definition whole_v4 (packet : list Z) : Prop :=
  Z.land (from_be (take 2 (drop 6 packet))) 0x3fff = 0 ∧ from_be (take 2 (drop 2 packet)) = len packet.
Definition whole_v6 (packet : list Z) : Prop := from_be (take 2 (drop 4 packet)) + 40 = len packet.
Definition whole (packet : list Z) : Prop :=
  ∀ b0, packet !! 0%nat = Some b0 →
    (Z.shiftr b0 4 = 4 → whole_v4 packet) ∧ (Z.shiftr b0 4 = 6 → whole_v6 packet).

(** An IP packet that carries a whole TCP segment, at [ip]. *)
Definition tcp_v4 (packet : list Z) (ip : nat) : Prop := taken_v4 packet ip ∧ whole_v4 packet.
Definition tcp_v6 (packet : list Z) (ip : nat) : Prop := taken_v6 packet ip ∧ whole_v6 packet.

(** Every packet is left alone or goes to [clamp_tcp]. *)
Lemma clamp_dispatch packet mtu :
  (clamp_if_tcp_syn packet mtu = Ok packet ∧ ∀ ip, ¬ taken_v4 packet ip ∧ ¬ taken_v6 packet ip) ∨
  (∃ ip, taken_v4 packet ip ∧
     clamp_if_tcp_syn packet mtu = clamp_tcp packet mtu ip (checksum_v4 ip)) ∨
  (taken_v6 packet 40 ∧ clamp_if_tcp_syn packet mtu = clamp_tcp packet mtu 40 checksum_v6).
Proof.
  destruct packet as [|b0 rest]; [by left; split; [|intros ip; split; intros (_ & H & _); cbn in H; lia]|].
  unfold clamp_if_tcp_syn. set (packet := b0 :: rest).
  assert (packet !! 0%nat = Some b0) as H0 by done.
  unfold taken_v4, taken_v6. rewrite H0. clearbody packet.
  destruct (Z.eqb_spec (Z.shiftr b0 4) 4) as [E4|E4].
  - unfold clamp_ipv4. case_bool_decide as H20; [left; naive_solver lia|].
    destruct (lookup_lt_is_Some_2 packet 9 ltac:(lia)) as [pr Hpr].
    rewrite (idx_Some _ _ _ H0), (idx_Some _ _ _ Hpr). cbn [mbind outcome_bind]. cbv zeta.
    set (ip := (Z.to_nat (Z.land b0 0x0f) * 4)%nat).
    case_bool_decide as Hi; [left; naive_solver lia|].
    case_bool_decide as Hi2; [left; naive_solver lia|]. cbn [orb].
    destruct (Z.eqb_spec pr PROTO_TCP) as [->|]; [|left; naive_solver lia].
    right. left. exists ip. split; [|done].
    split_and!; [lia|lia|done|]. by exists b0.
  - destruct (Z.eqb_spec (Z.shiftr b0 4) 6) as [E6|E6]; [|left; naive_solver].
    unfold clamp_ipv6, IPV6_HEADER_LEN.
    case_bool_decide as H40; [left; naive_solver lia|].
    destruct (lookup_lt_is_Some_2 packet 6 ltac:(lia)) as [nh Hnh].
    rewrite (idx_Some _ _ _ Hnh). cbn [mbind outcome_bind].
    destruct (Z.eqb_spec nh PROTO_TCP) as [->|]; [|left; naive_solver].
    right. right. split; [|done]. split_and!; [done|lia|done|by exists b0].
Qed.

Lemma clamp_spec packet mtu :
  bytes_ok packet → len packet ≤ 65535 → 0 ≤ mtu < 65536 →
  ∃ out, clamp_if_tcp_syn packet mtu = Ok out ∧ length out = length packet ∧
    (out = packet ∨
     (∃ ip hl k, taken_v4 packet ip ∧ clamped packet out (pseudo_v4 packet ip) mtu ip hl k) ∨
     (∃ hl k, taken_v6 packet 40 ∧ clamped packet out (pseudo_v6 packet) mtu 40 hl k)).
Proof.
  intros Hb Hl Hm.
  assert (∀ out ps ip hl k, clamped packet out ps mtu ip hl k → length out = length packet) as Hlen.
  { intros out ps ip hl k [[[_ Hhl _ _ (_ & _ & Hk & Hk4)] _] (c & ->) _].
    rewrite length_drop in Hhl.
    rewrite !length_put_u16; rewrite ?length_put_u16; lia. }
  destruct (clamp_dispatch packet mtu) as [[-> _]|[(ip & Hv4 & ->)|[Hv6 ->]]].
  - exists packet. auto.
  - pose proof Hv4 as (Hip & Hlp & _).
    destruct (pseudo_v4_ok packet ip Hb ltac:(lia)) as (Hp1 & Hp2 & Hp3).
    destruct (clamp_tcp_spec packet (pseudo_v4 packet ip) mtu ip (checksum_v4 ip))
      as (out & -> & Hout);
      [done|done|rewrite Hp2; by exists 6%nat|done|unfold len in *; lia|done| |].
    + intros p ? ?. by apply checksum_v4_def; [lia|..].
    + exists out. split; [done|]. destruct Hout as [->|(hl & k & Hc)]; [auto|]. split; [by eapply Hlen|]. eauto 8.
  - pose proof Hv6 as (_ & Hlp & _).
    destruct (pseudo_v6_ok packet Hb ltac:(lia)) as (Hp1 & Hp2 & Hp3).
    destruct (clamp_tcp_spec packet (pseudo_v6 packet) mtu 40 checksum_v6)
      as (out & -> & Hout);
      [done|done|rewrite Hp2; by exists 20%nat|done|unfold len in *; lia|done| |].
    + intros p ? ?. by apply checksum_v6_def.
    + exists out. split; [done|]. destruct Hout as [->|(hl & k & Hc)]; [auto|]. split; [by eapply Hlen|]. eauto 8.
Qed.

(** The clamp does its work: the SYN of a TCP connection over IPv4 or IPv6
    whose MSS option can be reached over its other options leaves with the
    smaller of the advertised MSS and the room the MTU leaves after the headers;
    a packet whose MSS already fits is not changed at all. *)
Lemma clamp_enforced packet mtu ip hl k :
  bytes_ok packet → len packet ≤ 65535 → 0 ≤ mtu < 65536 →
  taken_v4 packet ip ∨ taken_v6 packet ip → syn_mss (drop ip packet) hl k →
  let room := mtu - Z.of_nat (ip + hl) in
  0 < room →
  ∃ out, clamp_if_tcp_syn packet mtu = Ok out ∧
    mss_value (drop ip out) k = Z.min (mss_value (drop ip packet) k) room ∧
    (mss_value (drop ip packet) k ≤ room → out = packet).
Proof.
  intros Hb Hl Hm Htcp Hsyn room Hroom.
  destruct (clamp_dispatch packet mtu) as [[_ Hno]|[(ip' & Hv4 & ->)|[Hv6 ->]]].
  - destruct (Hno ip). tauto.
  - assert (ip' = ip) as ->.
    { destruct Hv4 as (_ & _ & _ & b & ? & ? & ->),
        Htcp as [(_ & _ & _ & b' & ? & ? & ->)|(_ & _ & _ & b' & ? & ?)];
        simplify_eq; congruence. }
    pose proof Hv4 as (Hip & Hlp & _).
    destruct (pseudo_v4_ok packet ip Hb ltac:(lia)) as (Hp1 & Hp2 & Hp3).
    apply (clamp_tcp_enforces packet (pseudo_v4 packet ip));
      [done|done|rewrite Hp2; by exists 6%nat|done|unfold len in *; lia|done| |done|done].
    intros p ? ?. by apply checksum_v4_def; [lia|..].
  - assert (ip = 40%nat) as ->.
    { destruct Hv6 as (_ & _ & _ & b & ? & ?),
        Htcp as [(_ & _ & _ & b' & ? & ? & _)|[-> _]]; simplify_eq; congruence. }
    pose proof Hv6 as (_ & Hlp & _).
    destruct (pseudo_v6_ok packet Hb ltac:(lia)) as (Hp1 & Hp2 & Hp3).
    apply (clamp_tcp_enforces packet (pseudo_v6 packet));
      [done|done|rewrite Hp2; by exists 20%nat|done|unfold len in *; lia|done| |done|done].
    intros p ? ?. by apply checksum_v6_def.
Qed.

(** C37. [clamp_if_tcp_syn] returns on every packet and keeps its length. On a
    packet in one piece (no IPv4 fragment, and as long as its header says) it
    does exactly its work: if the packet carries the SYN of a TCP connection over
    IPv4 or IPv6 whose MSS option, reached over its other options, asks for more
    than the MTU leaves after the headers, the option becomes that room and the
    checksum is rewritten such that the segment verifies, no other byte changing;
    every other packet is left untouched. *)
Theorem clamp_correct packet mtu :
  bytes_ok packet → len packet ≤ 65535 → 0 ≤ mtu < 65536 →
  ∃ out, clamp_if_tcp_syn packet mtu = Ok out ∧ length out = length packet ∧
    (whole packet →
     (out = packet ∧
        ∀ ip hl k, tcp_v4 packet ip ∨ tcp_v6 packet ip → ¬ too_large packet mtu ip hl k) ∨
     (∃ ip hl k, tcp_v4 packet ip ∧ clamped packet out (pseudo_v4 packet ip) mtu ip hl k) ∨
     (∃ hl k, tcp_v6 packet 40 ∧ clamped packet out (pseudo_v6 packet) mtu 40 hl k)).
Proof.
  intros Hb Hl Hm. destruct (clamp_spec packet mtu Hb Hl Hm) as (out & E & Hlen & Hc).
  exists out. split; [done|]. split; [done|]. intros Hw. destruct Hc as [->|[Hc|Hc]].
  - left. split; [done|]. intros ip hl k Ht [Hs Hr].
    destruct (clamp_enforced packet mtu ip hl k Hb Hl Hm) as (out & E' & Hmin & _); [|done|lia|].
    { destruct Ht as [[? _]|[? _]]; auto. }
    rewrite E in E'. injection E' as <-. lia.
  - right. left. destruct Hc as (ip & hl & k & Ht & Hc). exists ip, hl, k. split; [|done]. split; [done|].
    destruct Ht as (_ & _ & _ & b0 & H0 & H4 & _). by apply (Hw b0 H0).
  - right. right. destruct Hc as (hl & k & Ht & Hc). exists hl, k. split; [|done]. split; [done|].
    destruct Ht as (_ & _ & _ & b0 & H0 & H6). by apply (Hw b0 H0).
Qed.

(** A SYN from 10.0.0.1 to 10.0.0.2: two NOPs, then MSS 1460. *)
Definition sample_syn : list Z :=
  [0x45; 0; 0; 48; 0; 0; 0; 0; 64; 6; 0; 0; 10; 0; 0; 1; 10; 0; 0; 2]
  ++ [4; 210; 0; 80; 0; 0; 0; 1; 0; 0; 0; 0; 0x70; 2; 255; 255; 0; 0; 0; 0;
      1; 1; 2; 4; 5; 180; 0; 0].

Lemma sample_syn_bytes : bytes_ok sample_syn.
Proof. repeat constructor; lia. Qed.

Lemma sample_whole : whole sample_syn.
Proof. intros b0 [= <-]. split; [|done]. intros _. split; reflexivity. Qed.

Lemma sample_too_large : too_large sample_syn 1400 20 28 22.
Proof.
  split; [|by vm_compute].
  split; [by exists 0x70|cbn; lia|exists 2; split; [done|by vm_compute]| |split_and!; by try lia].
  apply reach_nop; [done|]. apply reach_nop; [done|]. apply reach_here.
Qed.

Lemma clamp_correct_witness :
  ∃ out, clamp_if_tcp_syn sample_syn 1400 = Ok out ∧ length out = length sample_syn ∧
    out ≠ sample_syn.
Proof.
  destruct (clamp_correct sample_syn 1400) as (out & E & Hl & Hc);
    [apply sample_syn_bytes|by vm_compute|lia|].
  exists out. split; [exact E|]. split; [exact Hl|].
  vm_compute in E. injection E as <-. discriminate.
Defined.

(** A later fragment of a TCP segment has no TCP header, but the code takes its
    first bytes for one: here, of a payload that looks like a SYN's header, six
    are changed. *)
Definition sample_fragment : list Z :=
  [0x45; 0; 0; 48; 0; 0; 0; 185; 64; 6; 0; 0; 10; 0; 0; 1; 10; 0; 0; 2] ++ drop 20 sample_syn.

Lemma fragment_rewritten :
  ¬ whole sample_fragment ∧
  ∃ out, clamp_if_tcp_syn sample_fragment 1400 = Ok out ∧ take 20 out = take 20 sample_fragment ∧
    drop 36 (take 38 out) ≠ drop 36 (take 38 sample_fragment) ∧ drop 44 (take 46 out) = [5; 72].
Proof.
  split.
  { intros Hw. destruct (proj1 (Hw 0x45 eq_refl) eq_refl) as [H _]. vm_compute in H. discriminate. }
  eexists. split; [vm_compute; reflexivity|]. split; [reflexivity|]. split; [discriminate|reflexivity].
Qed.
