(* ===== verification/Mtu.v ===== *)
(** * Tunnel MTU ([control.rs])

    How the tunnel's MTU is chosen from the links' physical MTUs, agreed with
    the peer, and when a failed resize is logged. The two [tracing::warn!]
    calls of [effective_tunnel_mtu] are the list of warnings it returns. *)

From S2P Require Import Prelude Bytes Protocol Gf256 F64 Configuration Fec.

Definition FALLBACK_MTU_WHEN_NOTHING_DETECTED : Z := 1400.
Definition MTU_FLOOR_IPV4_ONLY : Z := 576.
Definition MTU_FLOOR_DUAL_STACK : Z := 1280.

Definition negotiate_tunnel_mtu (local : Z) (peer_advertised : option Z) (floor : Z) : Z :=
  Z.max floor
    (match peer_advertised with
     | Some peer => if peer =? 0 then local else Z.min local peer
     | None => local
     end).

Definition mtu_floor_for (cfg : TunnelConfig) : Z :=
  match address6 cfg with
  | Some _ => MTU_FLOOR_DUAL_STACK
  | None => MTU_FLOOR_IPV4_ONLY
  end.

(** [iter().filter_map(|m| *m).min()]. *)
Fixpoint min_detected (ms : list (option Z)) : option Z :=
  match ms with
  | [] => None
  | None :: ms => min_detected ms
  | Some m :: ms =>
      match min_detected ms with Some m' => Some (Z.min m m') | None => Some m end
  end.

Definition outer_overhead_v6 : Z :=
  Z.of_nat HEADER_LEN + WG_OVERHEAD_BYTES + FAKE_IPV4_HEADER_LEN + 48.

Inductive mtu_warn :=
  | ClampedBelowConfigured (configured detected_min clamped_to : Z)
  | ReservationNotHonoured (pre_fec fec_reservation floor final_mtu : Z).

Definition effective_tunnel_mtu (cfg : TunnelConfig) (detected_mtus : list (option Z))
    (fec_reservation : Z) (primary_idx : option nat) : Z * list mtu_warn :=
  let floor := mtu_floor_for cfg in
  let detected_value := match primary_idx with
                        | Some i => match detected_mtus !! i with
                                    | Some m => m | None => None end
                        | None => min_detected detected_mtus
                        end in
  match detected_value with
  | None =>
      (Z.max (sat_sub (match mtu cfg with
                       | Some m => m
                       | None => FALLBACK_MTU_WHEN_NOTHING_DETECTED end)
                fec_reservation) floor, [])
  | Some detected_min =>
      let safe_mtu := wrap 16 (Z.min (sat_sub detected_min outer_overhead_v6) 65535) in
      let '(pre_fec, w) :=
        match mtu cfg with
        | Some ceiling =>
            if ceiling <=? safe_mtu then (ceiling, [])
            else let c := Z.max safe_mtu floor in
                 (c, [ClampedBelowConfigured ceiling detected_min c])
        | None => (Z.max safe_mtu floor, [])
        end in
      let final_mtu := Z.max (sat_sub pre_fec fec_reservation) floor in
      (final_mtu,
       w ++ (if (0 <? fec_reservation) && (sat_sub pre_fec final_mtu <? fec_reservation)
             then [ReservationNotHonoured pre_fec fec_reservation floor final_mtu]
             else []))
  end.

Definition mtu_resize_needed (current recomputed : Z) : bool := negb (current =? recomputed).

(** ** The resize-failure latch *)

Record ResizeFailureLatch := mkLatch {
  streak : Z;
  last_failed_mtu : option Z }.

Definition latch_default : ResizeFailureLatch := mkLatch 0 None.

Definition record_failure (attempted : Z) (l : ResizeFailureLatch) : ResizeFailureLatch * bool :=
  (mkLatch (wrap 32 (streak l + 1)) (Some attempted),
   (streak l =? 0) || negb (bool_decide (last_failed_mtu l = Some attempted))).

Definition record_success (l : ResizeFailureLatch) : ResizeFailureLatch * option Z :=
  let suppressed := sat_sub (streak l) 1 in
  let had_failures := 0 <? streak l in
  (latch_default, if had_failures then Some suppressed else None).

(** ** Properties *)

(** The physical MTU the tunnel is sized by. *)
Definition governing_mtu (detected : list (option Z)) (primary_idx : option nat) : option Z :=
  match primary_idx with
  | Some i => match detected !! i with Some m => m | None => None end
  | None => min_detected detected
  end.

Lemma min_detected_spec ms m :
  min_detected ms = Some m →
  Some m ∈ ms ∧ ∀ m', Some m' ∈ ms → m ≤ m'.
Proof.
  revert m; induction ms as [|[x|] ms IH]; intros m; cbn [min_detected]; [done| |].
  - destruct (min_detected ms) as [y|] eqn:E.
    + intros [= <-]. destruct (IH y eq_refl) as [Hin Hall]. split.
      * destruct (Z.min_spec x y) as [[_ ->]|[_ ->]]; set_solver.
      * intros m' [[= ->]|Hm']%elem_of_cons; [lia|]. specialize (Hall m' Hm'). lia.
    + intros [= <-]. split; [set_solver|]. intros m' [[= ->]|Hm']%elem_of_cons; [lia|].
      exfalso. clear IH. induction ms as [|[z|] ms IH]; [set_solver| |].
      * cbn in E. by destruct (min_detected ms).
      * apply IH; [done|set_solver].
  - intros H'. destruct (IH m H') as [Hin Hall]. split; [set_solver|].
    intros m' [?|Hm']%elem_of_cons; [done|auto].
Qed.

(** The chosen MTU in one formula: the smaller of the ceiling and what the
    path carries, less the parity reservation, but never below the floor. *)
Definition mtu_spec (cfg : TunnelConfig) (governing : option Z) (reservation : Z) : Z :=
  let path := match governing with
              | Some d => Some (Z.min (d - outer_overhead_v6) 65535)
              | None => None end in
  let budget := match mtu cfg, path with
                | Some c, Some p => Z.min c p
                | Some c, None => c
                | None, Some p => p
                | None, None => FALLBACK_MTU_WHEN_NOTHING_DETECTED
                end in
  Z.max (mtu_floor_for cfg) (budget - reservation).

Lemma floor_bounds cfg : 576 ≤ mtu_floor_for cfg ≤ 1280.
Proof.
  unfold mtu_floor_for, MTU_FLOOR_DUAL_STACK, MTU_FLOOR_IPV4_ONLY.
  destruct (address6 cfg); lia.
Qed.

Lemma effective_mtu_spec cfg detected reservation primary_idx :
  0 ≤ reservation → (∀ c, mtu cfg = Some c → 0 ≤ c) →
  (effective_tunnel_mtu cfg detected reservation primary_idx).1 =
  mtu_spec cfg (governing_mtu detected primary_idx) reservation.
Proof.
  intros Hr Hc. pose proof (floor_bounds cfg).
  unfold effective_tunnel_mtu, mtu_spec. fold (governing_mtu detected primary_idx).
  destruct (governing_mtu detected primary_idx) as [d|]; cbn [fst].
  - rewrite wrap_small by (unfold fits, sat_sub; lia). unfold sat_sub.
    destruct (mtu cfg) as [c|]; [specialize (Hc c eq_refl)|]; cbn [fst].
    + destruct (Z.leb_spec c (Z.min (Z.max 0 (d - outer_overhead_v6)) 65535)); cbn [fst]; lia.
    + lia.
  - unfold sat_sub. destruct (mtu cfg) as [c|]; lia.
Qed.

(** [effective_tunnel_mtu] is the smaller of the configured ceiling and
    what the governing link's MTU leaves after the outer headers, less the FEC
    reservation, and never below the floor of the address family. *)
Theorem effective_mtu_formula cfg detected reservation primary_idx :
  0 ≤ reservation → (∀ c, mtu cfg = Some c → 576 ≤ c) →
  (effective_tunnel_mtu cfg detected reservation primary_idx).1 =
  mtu_spec cfg (governing_mtu detected primary_idx) reservation.
Proof.
  intros Hr Hc. apply effective_mtu_spec; [done|]. intros c Hm%Hc. lia.
Qed.

(** A warning is due exactly when the reservation is not honoured. *)
Lemma reservation_honoured cfg detected reservation primary_idx d :
  0 ≤ reservation → (∀ c, mtu cfg = Some c → 576 ≤ c) →
  governing_mtu detected primary_idx = Some d →
  (∀ a b c e, ReservationNotHonoured a b c e ∉
     (effective_tunnel_mtu cfg detected reservation primary_idx).2) →
  mtu_floor_for cfg ≤ d - outer_overhead_v6 →
  (effective_tunnel_mtu cfg detected reservation primary_idx).1 + reservation
    ≤ d - outer_overhead_v6.
Proof.
  intros Hr Hc Hd Hw Hfit. pose proof (floor_bounds cfg).
  unfold effective_tunnel_mtu in *. fold (governing_mtu detected primary_idx) in *.
  rewrite Hd in *. rewrite wrap_small in * by (unfold fits, sat_sub; lia). unfold sat_sub in *.
  set (safe := Z.min (Z.max 0 (d - outer_overhead_v6)) 65535) in *.
  set (pre := match mtu cfg with Some c => if c <=? safe then _ else _ | None => _ end) in *.
  assert (pre.1 ≤ safe) as Hpre.
  { subst pre. destruct (mtu cfg) as [c|]; [destruct (Z.leb_spec c safe)|]; cbn [fst]; lia. }
  destruct pre as [pre w]. cbn [fst snd] in *.
  destruct ((0 <? reservation) && _) eqn:E.
  - exfalso. eapply Hw. apply elem_of_app. right. apply list_elem_of_singleton. done.
  - apply andb_false_iff in E as [E|E].
    + apply Z.ltb_ge in E. lia.
    + apply Z.ltb_ge in E. destruct (Z.ltb_spec 0 reservation); lia.
Qed.

(** When the path has room for the floor and [effective_tunnel_mtu] does
    not warn that the reservation cannot be honoured, the parity frame of any
    full group of frames that fit the tunnel MTU fits the physical path too,
    headers of the outer transport included. *)
Theorem parity_fits_path cfg sched detected primary_idx d fs coef :
  let res := mtu_reservation_bytes sched in
  let eff := (effective_tunnel_mtu cfg detected res primary_idx).1 in
  fec_enabled sched = true → 2 ≤ fec_group_size sched ≤ 255 →
  (∀ c, mtu cfg = Some c → 576 ≤ c) →
  governing_mtu detected primary_idx = Some d →
  mtu_floor_for cfg ≤ d - outer_overhead_v6 →
  (∀ a b c e, ReservationNotHonoured a b c e ∉
     (effective_tunnel_mtu cfg detected res primary_idx).2) →
  len fs = fec_group_size sched → Forall (λ f, len (f_data f) ≤ eff) fs →
  len (FecParityPayload_encode (payload_of coef fs)) + outer_overhead_v6 ≤ d.
Proof.
  intros res eff Hfec Hg Hc Hd Hfit Hw Hlen Hfs.
  assert (res = parity_frame_overhead_bytes (len fs)) as Hres.
  { unfold res, mtu_reservation_bytes. by rewrite Hfec, Hlen. }
  assert (0 ≤ res) as Hr0 by (rewrite Hres, overhead_value; lia).
  pose proof (reservation_honoured cfg detected res primary_idx d Hr0 Hc Hd Hw Hfit) as Hle.
  fold eff in Hle. rewrite parity_length by (unfold len in *; lia). rewrite <- Hres.
  assert (Z.of_nat (width (f_data <$> fs)) ≤ eff); [|lia].
  assert (0 ≤ eff).
  { unfold eff. rewrite effective_mtu_spec; [unfold mtu_spec; pose proof (floor_bounds cfg); lia|done|].
    intros c Hm%Hc. lia. }
  assert (width (f_data <$> fs) ≤ Z.to_nat eff)%nat; [|lia].
  apply width_le, Forall_fmap. eapply Forall_impl; [exact Hfs|]. intros f Hf. cbn.
  unfold len in Hf. lia.
Qed.

(** Two peers with the same floor agree on the tunnel MTU: the
    negotiated value is symmetric, never above either side's own value unless
    the floor is, stable when advertised again, and an absent value is as no
    opinion. *)
Theorem negotiation_converges local peer floor :
  0 < local → 0 < peer →
  let n := negotiate_tunnel_mtu local (Some peer) floor in
  n = negotiate_tunnel_mtu peer (Some local) floor ∧
  floor ≤ n ∧ (floor ≤ local → n ≤ local) ∧ (floor ≤ peer → n ≤ peer) ∧
  negotiate_tunnel_mtu n (Some n) floor = n ∧
  negotiate_tunnel_mtu local (Some 0) floor = negotiate_tunnel_mtu local None floor.
Proof.
  intros Hl Hp n. unfold n, negotiate_tunnel_mtu.
  destruct (Z.eqb_spec peer 0); [lia|]. destruct (Z.eqb_spec local 0); [lia|].
  destruct (Z.eqb_spec (Z.max floor (Z.min local peer)) 0); [lia|].
  split_and!; lia || done.
Qed.

(** ** The latch over a streak *)

Fixpoint failures (l : ResizeFailureLatch) (attempts : list Z) : ResizeFailureLatch * Z :=
  match attempts with
  | [] => (l, 0)
  | a :: attempts =>
      let '(l, warn) := record_failure a l in
      let '(l, n) := failures l attempts in
      (l, (if warn then 1 else 0) + n)
  end.

(** How often the attempted MTU changes along a streak. *)
Fixpoint changes (prev : Z) (attempts : list Z) : Z :=
  match attempts with
  | [] => 0
  | a :: attempts => (if a =? prev then 0 else 1) + changes a attempts
  end.

Fixpoint last_of (prev : Z) (attempts : list Z) : Z :=
  match attempts with [] => prev | a :: attempts => last_of a attempts end.

Lemma failures_streak k prev attempts :
  0 < k → k + len attempts < 2 ^ 32 →
  failures (mkLatch k (Some prev)) attempts =
  (mkLatch (k + len attempts) (Some (last_of prev attempts)), changes prev attempts).
Proof.
  revert k prev; induction attempts as [|a l IH]; intros k prev Hk Hn.
  { cbn. by rewrite Z.add_0_r. }
  cbn [failures record_failure streak last_failed_mtu]. unfold len in *. cbn [length] in Hn.
  rewrite wrap_small by (unfold fits; lia). rewrite IH by lia. cbn [changes].
  rewrite (proj2 (Z.eqb_neq k 0)) by lia. cbn [orb].
  cbn [last_of].
  f_equal; [f_equal; cbn [length]; lia|].
  destruct (Z.eqb_spec a prev) as [->|Hne].
  - by rewrite bool_decide_true.
  - rewrite bool_decide_false by congruence. cbn [negb]. done.
Qed.

(** Over a streak of failed resizes the latch warns once, plus once per
    change of the attempted MTU, and the success that ends the streak reports
    all failures but the first as suppressed. *)
Theorem latch_streak a attempts :
  len attempts + 1 < 2 ^ 32 →
  let '(l, warned) := failures latch_default (a :: attempts) in
  warned = 1 + changes a attempts ∧
  record_success l = (latch_default, Some (len attempts)) ∧
  record_success latch_default = (latch_default, None).
Proof.
  intros Hn. cbn [failures record_failure latch_default streak last_failed_mtu].
  change (wrap 32 (0 + 1)) with 1. unfold len in *. rewrite failures_streak by (unfold len; lia).
  cbn [Z.eqb orb]. split_and!; [done| |done].
  unfold record_success, sat_sub, len. cbn [streak].
  rewrite (proj2 (Z.ltb_lt _ _)) by lia. do 2 f_equal. lia.
Qed.

(** ** A sample: an IPv4 tunnel over links of MTU 1500 and 1480, FEC on. *)
Definition sample_tunnel : TunnelConfig :=
  mkTunnelConfig "mlvpn0" "10.0.0.2/24" None (Some 1400) true 5000.
Definition sample_sched : SchedulerConfig :=
  mkSchedulerConfig 5 3 50 (f64.lit 2 10) false true 2 1 Scheduler false false false 10 500 false
    2000 false (f64.lit 5 100) (f64.lit 5 10) false 300 2 1800.
Definition sample_mtus : list (option Z) := [Some 1500; None; Some 1480].

Lemma effective_mtu_formula_witness :
  (effective_tunnel_mtu sample_tunnel sample_mtus 23 None).1 =
  mtu_spec sample_tunnel (Some 1480) 23.
Proof.
  apply (effective_mtu_formula sample_tunnel sample_mtus 23 None); [lia|].
  intros c [= <-]. lia.
Defined.

Lemma parity_fits_path_witness :
  len (FecParityPayload_encode
         (payload_of coef_p [mkFrame 1 (repeat 7 1000) 0; mkFrame 2 [9] 0]))
  + outer_overhead_v6 ≤ 1480.
Proof.
  apply (parity_fits_path sample_tunnel sample_sched sample_mtus None 1480
           [mkFrame 1 (repeat 7 1000) 0; mkFrame 2 [9] 0] coef_p).
  - reflexivity.
  - cbn. lia.
  - intros c [= <-]. lia.
  - reflexivity.
  - by vm_compute.
  - intros a b c e. vm_compute. intros H. inversion H as [|? ? ? H']; inversion H'.
  - reflexivity.
  - repeat constructor; by vm_compute.
Defined.

Lemma negotiation_converges_witness :
  let n := negotiate_tunnel_mtu 1400 (Some 1350) 576 in
  n = negotiate_tunnel_mtu 1350 (Some 1400) 576 ∧ 576 ≤ n ∧
  (576 ≤ 1400 → n ≤ 1400) ∧ (576 ≤ 1350 → n ≤ 1350) ∧
  negotiate_tunnel_mtu n (Some n) 576 = n ∧
  negotiate_tunnel_mtu 1400 (Some 0) 576 = negotiate_tunnel_mtu 1400 None 576.
Proof. apply (negotiation_converges 1400 1350 576); lia. Defined.

Lemma latch_streak_witness :
  let '(l, warned) := failures latch_default [1400; 1400; 1350] in
  warned = 1 + changes 1400 [1400; 1350] ∧
  record_success l = (latch_default, Some 2) ∧
  record_success latch_default = (latch_default, None).
Proof. apply (latch_streak 1400 [1400; 1350]). by vm_compute. Defined.
