(* ===== verification/ProbeHistory.v ===== *)
(** * Probe outcomes and down transitions ([autoreport.rs])

    The two sliding windows a link keeps for the automatic-report trigger:
    [ProbeWindow], the recent probe outcomes, and [DownTransitions], the times
    the link went from Up to Down. Times are nanoseconds. *)

From Stdlib Require Import Sorted.
From stdpp Require Import sorting.
From S2P Require Import Prelude Bytes.

Definition nanos_of_secs (n : Z) : Z := n * 1000000000.

Definition PROBE_HISTORY : Z := nanos_of_secs 330.
Definition PROBE_HISTORY_MAX_SAMPLES : Z := 16384.
Definition DOWN_HISTORY : Z := nanos_of_secs 3600.
Definition DOWN_HISTORY_MAX_SAMPLES : Z := 256.

Record ProbeWindow := mkProbeWindow {
  samples : list (Z * bool);
  epoch : option Z }.

Record DownTransitions := mkDown { times : list Z }.

Definition ProbeWindow_default : ProbeWindow := mkProbeWindow [] None.
Definition DownTransitions_default : DownTransitions := mkDown [].

(** The loop that pops the front while it is too old or the queue too long. *)
Fixpoint trim {A} (time : A → Z) (history cap now : Z) (l : list A) : list A :=
  match l with
  | [] => []
  | x :: rest =>
      if (history <? sat_sub now (time x)) || (cap <? len l)
      then trim time history cap now rest else l
  end.

(** [Option::get_or_insert]. *)
Definition get_or_insert (o : option Z) (x : Z) : Z :=
  match o with Some y => y | None => x end.

Definition ProbeWindow_record (now : Z) (hit : bool) (w : ProbeWindow) : ProbeWindow :=
  mkProbeWindow
    (trim fst PROBE_HISTORY PROBE_HISTORY_MAX_SAMPLES now (samples w ++ [(now, hit)]))
    (Some (get_or_insert (epoch w) now)).

Definition ProbeWindow_clear (w : ProbeWindow) : ProbeWindow := mkProbeWindow [] None.

(** The loop of [counts], from the newest sample back. *)
Fixpoint count_back (now window : Z) (l : list (Z * bool)) (total missed : Z) : Z * Z :=
  match l with
  | [] => (total, missed)
  | (t, hit) :: rest =>
      if window <? sat_sub now t then (total, missed)
      else count_back now window rest (total + 1) (if hit then missed else missed + 1)
  end.

Definition counts (w : ProbeWindow) (now window : Z) : Z * Z :=
  count_back now window (rev (samples w)) 0 0.

Definition age (w : ProbeWindow) (now : Z) : option Z :=
  match epoch w with Some e => Some (sat_sub now e) | None => None end.

Definition DownTransitions_record (now : Z) (d : DownTransitions) : DownTransitions :=
  mkDown (trim id DOWN_HISTORY DOWN_HISTORY_MAX_SAMPLES now (times d ++ [now])).

Definition count_within (d : DownTransitions) (now window : Z) : Z :=
  wrap 32 (len (filter (λ t, sat_sub now t ≤ window) (times d))).

(** ** The queues *)

Section trimming.
Context {A : Type} (time : A → Z).

Lemma trim_suffix history cap now l :
  ∃ old, l = old ++ trim time history cap now l.
Proof.
  induction l as [|x l (old & IH)]; cbn [trim]; [by exists []|].
  destruct (_ || _); [|by exists []]. exists (x :: old). cbn. by f_equal.
Qed.

Lemma trim_length history cap now l : 0 ≤ cap → len (trim time history cap now l) ≤ cap.
Proof.
  intros Hc. induction l as [|x l IH]; cbn [trim]; [unfold len; cbn; lia|].
  destruct (history <? _) eqn:E; cbn [orb]; [done|].
  destruct (Z.ltb_spec cap (len (x :: l))); [done|lia].
Qed.

(** Below the cap, only samples older than the history go. *)
Lemma trim_old history cap now l old :
  len l ≤ cap → l = old ++ trim time history cap now l →
  Forall (λ x, history < sat_sub now (time x)) old.
Proof.
  revert old; induction l as [|x l IH]; intros old Hl; cbn [trim].
  { destruct old; [constructor|done]. }
  unfold len in *. cbn [length] in *.
  destruct (Z.ltb_spec history (sat_sub now (time x))) as [Hx|Hx]; cbn [orb].
  - destruct old as [|y old].
    + cbn. intros E. apply (f_equal length) in E.
      destruct (trim_suffix history cap now l) as (o & Ho).
      apply (f_equal length) in Ho. rewrite length_app in Ho. cbn in E. lia.
    + intros [= <- E]. constructor; [done|]. apply IH; [lia|done].
  - rewrite (proj2 (Z.ltb_ge _ _)) by (unfold len; cbn [length]; lia).
    intros E. apply (f_equal length) in E. rewrite length_app in E.
    destruct old; [constructor|cbn in E; lia].
Qed.

End trimming.

(** ** Counting is exact *)

Definition recorded (rs : list (Z * bool)) (w : ProbeWindow) : ProbeWindow :=
  foldl (λ w r, ProbeWindow_record r.1 r.2 w) w rs.

Definition in_window (now window : Z) (rs : list (Z * bool)) : list (Z * bool) :=
  filter (λ r, sat_sub now r.1 ≤ window) rs.
Definition misses (rs : list (Z * bool)) : list (Z * bool) := filter (λ r, r.2 = false) rs.

Lemma count_back_spec now window l a b :
  Sorted (λ x y, y.1 ≤ x.1) l →
  count_back now window l a b =
  (a + len (in_window now window l), b + len (misses (in_window now window l))).
Proof.
  intros Hs%Sorted_StronglySorted; [|intros ? ? ?; lia]. revert a b.
  induction Hs as [|[t hit] l Hs IH Hl]; intros a b; cbn [count_back].
  { unfold len. cbn. f_equal; lia. }
  unfold in_window, misses in *. rewrite filter_cons. cbn [fst].
  destruct (Z.ltb_spec window (sat_sub now t)) as [Ht|Ht].
  - rewrite decide_False by lia.
    assert (filter (λ r : Z * bool, sat_sub now r.1 ≤ window) l = []) as ->.
    { destruct (filter _ l) as [|y l'] eqn:E; [done|].
      assert (y ∈ filter (λ r : Z * bool, sat_sub now r.1 ≤ window) l) as Hy
        by (rewrite E; apply list_elem_of_here).
      apply list_elem_of_filter in Hy as [Hy Hin].
      eapply Forall_forall in Hl; [|exact Hin]. cbn in Hl. unfold sat_sub in *. lia. }
    unfold len. cbn. f_equal; lia.
  - rewrite decide_True by lia. rewrite IH, filter_cons. cbn [snd].
    destruct hit; [rewrite decide_False by done|rewrite decide_True by done];
      unfold len; cbn [length]; f_equal; lia.
Qed.

Lemma sorted_rev (l : list (Z * bool)) :
  Sorted (λ x y, x.1 ≤ y.1) l → Sorted (λ x y, y.1 ≤ x.1) (rev l).
Proof.
  intros Hs%Sorted_StronglySorted; [|intros ? ? ?; lia].
  apply StronglySorted_Sorted. induction Hs as [|x l Hs IH Hl]; cbn; [constructor|].
  apply StronglySorted_app_2; [|done|repeat constructor].
  intros y z Hy Hz. apply list_elem_of_singleton in Hz as ->.
  rewrite <- Permutation_rev in Hy. eapply Forall_forall in Hl; [|exact Hy]. done.
Qed.

Lemma counts_retained w now window :
  Sorted (λ x y, x.1 ≤ y.1) (samples w) →
  counts w now window =
  (len (in_window now window (samples w)), len (misses (in_window now window (samples w)))).
Proof.
  intros Hs. unfold counts. rewrite count_back_spec by (by apply sorted_rev).
  unfold len, in_window, misses. by rewrite <- !(Permutation_rev (samples w)).
Qed.

(** What the window has dropped is older than the history. *)
Lemma recorded_suffix rs last :
  Sorted (λ x y, x.1 ≤ y.1) rs → len rs ≤ PROBE_HISTORY_MAX_SAMPLES →
  Forall (λ r, r.1 ≤ last) rs →
  ∃ old, rs = old ++ samples (recorded rs ProbeWindow_default) ∧
    Forall (λ r, PROBE_HISTORY < sat_sub last r.1) old.
Proof.
  intros Hs. induction rs as [|[t h] rs IH] using rev_ind; intros Hl Hf; [by exists []|].
  apply Sorted_StronglySorted in Hs; [|intros ? ? ?; lia].
  unfold len in Hl. rewrite length_app in Hl. cbn in Hl.
  apply Forall_app in Hf as [Hf Hlast]. rewrite Forall_singleton in Hlast. cbn in Hlast.
  destruct IH as (old & E & Hold); [|unfold len; lia|done|].
  { by eapply StronglySorted_Sorted, StronglySorted_app_1_l. }
  unfold recorded in *. rewrite foldl_app. cbn [foldl ProbeWindow_record samples fst snd].
  set (w := foldl _ _ rs) in *.
  destruct (trim_suffix fst PROBE_HISTORY PROBE_HISTORY_MAX_SAMPLES t (samples w ++ [(t, h)]))
    as (o2 & E2).
  exists (old ++ o2). split.
  { rewrite E at 1. rewrite <- !app_assoc. f_equal. exact E2. }
  apply Forall_app. split; [done|].
  eapply Forall_impl; [eapply trim_old; [|exact E2]|].
  - apply (f_equal length) in E. rewrite length_app in E. clearbody w.
    unfold len. rewrite length_app. cbn [length]. lia.
  - intros r Hr. cbv beta in Hr |- *. unfold sat_sub in *. lia.
Qed.

Lemma recorded_bounded rs w :
  len (samples w) ≤ PROBE_HISTORY_MAX_SAMPLES →
  len (samples (recorded rs w)) ≤ PROBE_HISTORY_MAX_SAMPLES.
Proof.
  revert w; induction rs as [|r rs IH]; intros w Hw; [done|]. apply IH. cbn.
  by apply trim_length.
Qed.

(** The probe window answers the trigger's question exactly: it never
    holds more than 16384 samples, and as long as no more than that many probes
    were recorded since it was cleared, at clock readings that do not go back,
    the counts over any window of up to 330 s are the numbers of probes and of
    misses recorded in that window. *)
Theorem probe_counts_exact rs now window :
  Sorted (λ x y, x.1 ≤ y.1) rs → Forall (λ r, r.1 ≤ now) rs →
  len rs ≤ PROBE_HISTORY_MAX_SAMPLES → window ≤ PROBE_HISTORY →
  let w := recorded rs ProbeWindow_default in
  counts w now window = (len (in_window now window rs), len (misses (in_window now window rs))) ∧
  ∀ more, len (samples (recorded more w)) ≤ PROBE_HISTORY_MAX_SAMPLES.
Proof.
  intros Hs Hf Hl Hw w. split.
  2: { intros more. apply recorded_bounded, recorded_bounded. done. }
  destruct (recorded_suffix rs now Hs Hl Hf) as (old & E & Hold). fold w in E.
  rewrite counts_retained.
  - assert (in_window now window rs = in_window now window (samples w)) as ->; [|done].
    rewrite E at 1. unfold in_window. rewrite filter_app.
    assert (filter (λ r : Z * bool, sat_sub now r.1 ≤ window) old = []) as ->; [|done].
    clear E. induction Hold as [|r old Hr _ IH]; [done|]. rewrite filter_cons, decide_False by lia.
    done.
  - apply StronglySorted_Sorted. apply Sorted_StronglySorted in Hs; [|intros ? ? ?; lia].
    rewrite E in Hs. by eapply StronglySorted_app_1_r.
Qed.

Lemma probe_counts_exact_witness :
  let rs := [(nanos_of_secs 1, true); (nanos_of_secs 200, false); (nanos_of_secs 400, true)] in
  counts (recorded rs ProbeWindow_default) (nanos_of_secs 410) (nanos_of_secs 300) = (2, 1) ∧
  ∀ more, len (samples (recorded more (recorded rs ProbeWindow_default)))
          ≤ PROBE_HISTORY_MAX_SAMPLES.
Proof.
  apply (probe_counts_exact
           [(nanos_of_secs 1, true); (nanos_of_secs 200, false); (nanos_of_secs 400, true)]
           (nanos_of_secs 410) (nanos_of_secs 300)).
  - repeat constructor; cbn; unfold nanos_of_secs; lia.
  - repeat constructor; cbn; unfold nanos_of_secs; lia.
  - by vm_compute.
  - by vm_compute.
Defined.
