(* ===== verification/AutoReport.v ===== *)
(** * The automatic-report trigger ([autoreport.rs])

    [EventTracker]: per link, when an event opens, escalates, is dumped again
    and ends, and which openings file a ticket. Times are nanoseconds of the
    monotonic clock, [now_unix] seconds of the wall clock; a [HashMap] keyed by
    link name is a finite map. *)

From Stdlib Require Import SpecFloat.
From S2P Require Import Prelude Bytes F64 ProbeHistory.

Definition CONFIRM : Z := nanos_of_secs 30.
Definition RETICKET_GAP : Z := nanos_of_secs 1800.
Definition PREVIOUS_EVENT_MEMORY : Z := nanos_of_secs (7 * 24 * 3600).

Record TriggerCfg := mkTrigger {
  window : Z;
  min_probes : Z;
  open_misses : Z;
  open_pct : f64;
  close_pct : f64;
  clear_after : Z;
  outage_after : Z;
  warmup : Z;
  flap_downs : Z;
  flap_window : Z }.

Record TrackerCfg := mkTrackerCfg {
  dump_cooldown : Z;
  join_within : Z;
  degraded_ticket_gap : Z }.

Inductive Class := Degraded | Flap | Outage.
Global Instance Class_eq_dec : EqDecision Class.
Proof. solve_decision. Defined.

(** The derived order. *)
Definition severity (c : Class) : Z :=
  match c with Degraded => 0 | Flap => 1 | Outage => 2 end.

Definition label (c : Class) : string :=
  match c with Degraded => "DEGRADED" | Flap => "FLAP" | Outage => "OUTAGE" end.

Record LinkObs := mkObs {
  down_for : option Z;
  recent_downs : Z;
  total : Z;
  missed : Z;
  window_age : option Z }.

Definition gather (probes : ProbeWindow) (downs : DownTransitions) (down_for : option Z)
    (now : Z) (cfg : TriggerCfg) : LinkObs :=
  let '(total, missed) := counts probes now (window cfg) in
  mkObs down_for (count_within downs now (flap_window cfg)) total missed (age probes now).

Definition loss_pct (o : LinkObs) : option f64 :=
  if 0 <? total o
  then Some (f64.of_Z (missed o) * f64.of_Z 100 / f64.of_Z (total o))%f64 else None.

Record Conditions := mkCond { outage : bool; flap : bool; hot : bool; calm : bool }.

Definition conditions (o : LinkObs) (cfg : TriggerCfg) : Conditions :=
  let outage := match down_for o with Some d => outage_after cfg <? d | None => false end in
  let flap := (0 <? flap_downs cfg) && (flap_downs cfg <=? recent_downs o) in
  let warm := match window_age o with Some a => warmup cfg <=? a | None => false end in
  let enough := min_probes cfg <=? total o in
  let pct := default f64.zero (loss_pct o) in
  let hot := bool_decide (down_for o = None) && warm && enough
             && (open_misses cfg <=? missed o) && (open_pct cfg <=? pct)%f64 in
  let calm := negb outage && negb flap && negb (enough && (close_pct cfg <=? pct)%f64) in
  mkCond outage flap hot calm.

Inductive DumpKind := Opened | Escalated | Ongoing.

Record PrevSummary := mkPrevSummary {
  ps_ended_ago : Z; ps_duration : Z; ps_peak : f64; ps_class : Class }.

Record EventInfo := mkInfo {
  info_id : string;
  info_class : Class;
  info_age : Z;
  info_peak : f64;
  info_suppressed : Z;
  info_previous : option PrevSummary }.

Inductive Outcome :=
  | Quiet
  | Dump (submit : bool) (kind : DumpKind) (event : EventInfo)
  | Ended (id : string) (class : Class) (duration : Z) (peak : f64).

Record Event := mkEvent {
  ev_id : string;
  ev_class : Class;
  opened_at : Z;
  peak : f64;
  calm_since : option Z;
  last_dump : Z }.

Record Prev := mkPrev {
  ended_at : Z; prev_duration : Z; prev_peak : f64; prev_class : Class }.

Record LinkTrack := mkTrack {
  event : option Event;
  hot_since : option Z;
  last_submit : option Z;
  last_degraded_submit : option Z;
  suppressed_degraded : Z;
  prev : option Prev }.

Definition LinkTrack_default : LinkTrack := mkTrack None None None None 0 None.

Record EventTracker := mkTracker {
  trig : TriggerCfg;
  tcfg : TrackerCfg;
  tracks : gmap string LinkTrack;
  dirty : bool }.

Record PersistedPrev := mkPPrev {
  ended_unix : Z; duration_secs : Z; pp_peak : f64; pp_class : string }.

Record PersistedEvents := mkPersisted {
  last_submit_unix : gmap string Z;
  last_degraded_unix : gmap string Z;
  previous : gmap string PersistedPrev }.

Definition class_from_label (s : string) : option Class :=
  List.find (λ c, String.eqb (label c) s) [Degraded; Flap; Outage].

(** ** Formatting *)

Definition hex_digit (d : Z) : Ascii.ascii :=
  Ascii.ascii_of_nat (Z.to_nat (if d <? 10 then 48 + d else 87 + d)).

(** [{:x}] of a [u64]: at most 16 digits. *)
Fixpoint hex_fuel (fuel : nat) (n : Z) (acc : string) : string :=
  match fuel with
  | O => acc
  | S fuel =>
      let acc := String (hex_digit (n mod 16)) acc in
      if n / 16 =? 0 then acc else hex_fuel fuel (n / 16) acc
  end.
Definition to_hex (n : Z) : string := hex_fuel 16 n EmptyString.

(** ** Operations *)

Definition EventTracker_new (trig : TriggerCfg) (cfg : TrackerCfg) : EventTracker :=
  mkTracker trig cfg ∅ false.

Definition info (st : LinkTrack) (now : Z) : outcome EventInfo :=
  match event st with
  | None => Panic
  | Some ev =>
      Ok (mkInfo (ev_id ev) (ev_class ev) (sat_sub now (opened_at ev)) (peak ev)
            (suppressed_degraded st)
            ((λ p, mkPrevSummary (sat_sub now (ended_at p)) (prev_duration p) (prev_peak p)
                     (prev_class p)) <$> prev st))
  end.

(** Assignments to fields of a link's state. *)
Definition set_event (e : option Event) (st : LinkTrack) : LinkTrack :=
  mkTrack e (hot_since st) (last_submit st) (last_degraded_submit st)
    (suppressed_degraded st) (prev st).
Definition set_hot (h : option Z) (st : LinkTrack) : LinkTrack :=
  mkTrack (event st) h (last_submit st) (last_degraded_submit st)
    (suppressed_degraded st) (prev st).
Definition set_submits (sub deg : option Z) (supp : Z) (st : LinkTrack) : LinkTrack :=
  mkTrack (event st) (hot_since st) sub deg supp (prev st).
Definition set_prev (p : option Prev) (st : LinkTrack) : LinkTrack :=
  mkTrack (event st) (hot_since st) (last_submit st) (last_degraded_submit st)
    (suppressed_degraded st) p.

Definition ongoing (st : LinkTrack) (now : Z) (cfg : TrackerCfg) (bump_dump : bool)
    : outcome (LinkTrack * Outcome) :=
  match event st with
  | None => Panic
  | Some ev =>
      if bump_dump && (dump_cooldown cfg <=? sat_sub now (last_dump ev)) then
        let st := set_event (Some (mkEvent (ev_id ev) (ev_class ev) (opened_at ev) (peak ev)
                                     (calm_since ev) now)) st in
        i ← info st now;
        mret (st, Dump false Ongoing i)
      else mret (st, Quiet)
  end.

(** The branch of [observe] for a link with an open event; the flag is
    whether the tracker becomes dirty. *)
Definition observe_open (tr : EventTracker) (now : Z) (cond : Conditions)
    (active : option Class) (pct : f64) (ev : Event) (st : LinkTrack)
    : outcome (LinkTrack * bool * Outcome) :=
  let pk := f64.max (peak ev) pct in
  if calm cond then
    let since := get_or_insert (calm_since ev) now in
    let ev := mkEvent (ev_id ev) (ev_class ev) (opened_at ev) pk (Some since) (last_dump ev) in
    if clear_after (trig tr) <=? sat_sub now since then
      let duration := sat_sub now (opened_at ev) in
      let st := set_prev (Some (mkPrev now duration (peak ev) (ev_class ev)))
                  (set_event None st) in
      mret (st, true, Ended (ev_id ev) (ev_class ev) duration (peak ev))
    else
      r ← ongoing (set_event (Some ev) st) now (tcfg tr) false;
      mret (r.1, false, r.2)
  else
    match (match active with
           | Some c => if severity (ev_class ev) <? severity c then Some c else None
           | None => None end) with
    | Some class =>
        let ev := mkEvent (ev_id ev) class (opened_at ev) pk None now in
        let st := set_submits (Some now) (last_degraded_submit st) (suppressed_degraded st)
                    (set_event (Some ev) st) in
        i ← info st now;
        mret (st, true, Dump true Escalated i)
    | None =>
        let ev := mkEvent (ev_id ev) (ev_class ev) (opened_at ev) pk None (last_dump ev) in
        r ← ongoing (set_event (Some ev) st) now (tcfg tr) true;
        mret (r.1, false, r.2)
    end.

Definition within_gap (now : Z) (t : option Z) (gap : Z) : bool :=
  match t with Some t => sat_sub now t <? gap | None => false end.

(** The branch for a link without an event that has an active condition. *)
Definition observe_new (tr : EventTracker) (now now_unix : Z) (link : string)
    (others_recently_opened : bool) (class : Class) (pct : f64) (st : LinkTrack)
    : outcome (LinkTrack * bool * Outcome) :=
  let degraded := bool_decide (class = Degraded) in
  let recently_ticketed := within_gap now (last_submit st) RETICKET_GAP in
  let degraded_limited :=
    degraded && within_gap now (last_degraded_submit st) (degraded_ticket_gap (tcfg tr)) in
  let submit := negb others_recently_opened && negb recently_ticketed && negb degraded_limited in
  let supp := if negb submit && negb others_recently_opened && degraded
              then wrap 32 (suppressed_degraded st + 1) else suppressed_degraded st in
  let reported := supp in
  let ticketed := submit || others_recently_opened in
  let st :=
    if ticketed then
      set_submits (Some now) (if degraded then Some now else last_degraded_submit st)
        (if degraded then 0 else supp) st
    else set_submits (last_submit st) (last_degraded_submit st) supp st in
  let id := link +:+ "-" +:+ to_hex now_unix in
  let st := set_event (Some (mkEvent id class now pct None now)) st in
  i ← info st now;
  mret (st, ticketed,
        Dump submit Opened (mkInfo (info_id i) (info_class i) (info_age i) (info_peak i)
                              reported (info_previous i))).

Definition others_opened (tr : EventTracker) (now : Z) (link : string) : bool :=
  existsb (λ nt, negb (String.eqb nt.1 link) &&
                 match event nt.2 with
                 | Some e => sat_sub now (opened_at e) <? join_within (tcfg tr)
                 | None => false end) (map_to_list (tracks tr)).

Definition active_class (cond : Conditions) (confirmed_hot : bool) : option Class :=
  if outage cond then Some Outage
  else if flap cond then Some Flap
  else if confirmed_hot then Some Degraded
  else None.

Definition observe (tr : EventTracker) (now now_unix : Z) (link : string) (obs : LinkObs)
    : outcome (EventTracker * Outcome) :=
  let cond := conditions obs (trig tr) in
  let others := others_opened tr now link in
  let st := default LinkTrack_default (tracks tr !! link) in
  let st := set_hot (if hot cond then Some (get_or_insert (hot_since st) now) else None) st in
  let confirmed_hot :=
    match hot_since st with Some t => CONFIRM <=? sat_sub now t | None => false end in
  let active := active_class cond confirmed_hot in
  let pct := if outage cond then f64.of_Z 100 else default f64.zero (loss_pct obs) in
  r ← match event st with
      | Some ev => observe_open tr now cond active pct ev st
      | None =>
          match active with
          | None => mret (st, false, Quiet)
          | Some class => observe_new tr now now_unix link others class pct st
          end
      end;
  mret (mkTracker (trig tr) (tcfg tr) (<[link := r.1.1]> (tracks tr)) (dirty tr || r.1.2), r.2).

(** ** Across a restart *)

Definition as_secs (d : Z) : Z := d / 1000000000.

Definition to_unix (now now_unix at_ : Z) : Z := sat_sub now_unix (as_secs (sat_sub now at_)).

Definition persist_prev (now now_unix : Z) (p : Prev) : PersistedPrev :=
  mkPPrev (to_unix now now_unix (ended_at p)) (as_secs (prev_duration p)) (prev_peak p)
    (label (prev_class p)).

Definition take_dirty_state (tr : EventTracker) (now now_unix : Z)
    : EventTracker * option PersistedEvents :=
  let tr' := mkTracker (trig tr) (tcfg tr) (tracks tr) false in
  if negb (dirty tr) then (tr', None)
  else
    (tr', Some (mkPersisted
       (omap (λ st, to_unix now now_unix <$> last_submit st) (tracks tr))
       (omap (λ st, to_unix now now_unix <$> last_degraded_submit st) (tracks tr))
       (omap (λ st, persist_prev now now_unix <$> prev st) (tracks tr)))).

(** [Instant::checked_sub]: an [Instant] counts seconds in an [i64]. *)
Definition instant_checked_sub (now age : Z) : option Z :=
  if now - age <? nanos_of_secs (- 2 ^ 63) then None else Some (now - age).

(** The closure [ago] with the filter on the age. *)
Definition ago (now now_unix unix limit : Z) : option Z :=
  let age := nanos_of_secs (sat_sub now_unix unix) in
  match instant_checked_sub now age with
  | Some at_ => if age <? limit then Some at_ else None
  | None => None
  end.

(** [self.links.entry(link).or_default()] and an assignment, for each entry
    of a map whose value gives one. The entries are distinct, so the order of
    the loop does not matter. *)
Definition adopt {V} (f : V → option (LinkTrack → LinkTrack)) (vs : gmap string V)
    (ls : gmap string LinkTrack) : gmap string LinkTrack :=
  merge (λ v st, match v ≫= f with
                 | Some g => Some (g (default LinkTrack_default st))
                 | None => st end) vs ls.

Definition restore (tr : EventTracker) (now now_unix : Z) (p : PersistedEvents) : EventTracker :=
  let ls := adopt (λ unix, (λ at_ st, set_submits (Some at_) (last_degraded_submit st)
                                        (suppressed_degraded st) st)
                           <$> ago now now_unix unix RETICKET_GAP)
              (last_submit_unix p) (tracks tr) in
  let ls := adopt (λ unix, (λ at_ st, set_submits (last_submit st) (Some at_)
                                        (suppressed_degraded st) st)
                           <$> ago now now_unix unix (degraded_ticket_gap (tcfg tr)))
              (last_degraded_unix p) ls in
  let ls := adopt (λ q, class ← class_from_label (pp_class q);
                        (λ at_ st, set_prev (Some (mkPrev at_ (nanos_of_secs (duration_secs q))
                                                     (pp_peak q) class)) st)
                        <$> ago now now_unix (ended_unix q) PREVIOUS_EVENT_MEMORY)
              (previous p) ls in
  mkTracker (trig tr) (tcfg tr) ls (dirty tr).

(** ** One step *)

Definition opened (o : option Event) : option Class := ev_class <$> o.

(** What an outcome says of the link's event before and after it. *)
Definition lifecycle (before after : option Class) (o : Outcome) : Prop :=
  match o with
  | Quiet => after = before
  | Dump submit Opened i => before = None ∧ after = Some (info_class i)
  | Dump submit Escalated i =>
      submit = true ∧ after = Some (info_class i) ∧
      ∃ c, before = Some c ∧ severity c < severity (info_class i)
  | Dump submit Ongoing i => submit = false ∧ before = Some (info_class i) ∧ after = before
  | Ended _ c _ _ => before = Some c ∧ after = None
  end.

Definition event_of (tr : EventTracker) (link : string) : option Event :=
  tracks tr !! link ≫= event.

Lemma ongoing_spec st now cfg bump ev :
  event st = Some ev →
  ∃ ev' o, ongoing st now cfg bump = Ok (set_event (Some ev') st, o) ∧
    ev_class ev' = ev_class ev ∧ calm_since ev' = calm_since ev ∧
    opened_at ev' = opened_at ev ∧
    (o = Quiet ∨ ∃ i, o = Dump false Ongoing i ∧ info_class i = ev_class ev).
Proof.
  intros He. unfold ongoing. rewrite He. destruct (bump && _).
  - cbn. eexists _, _. split_and!; [done..|]. right. by eexists.
  - exists ev, Quiet. split_and!; auto. cbn. destruct st; cbn in *. by rewrite He.
Qed.

(** The link's state a step starts from and its conditions. *)
Definition stepped (tr : EventTracker) (now : Z) (link : string) (obs : LinkObs) : LinkTrack :=
  let st := default LinkTrack_default (tracks tr !! link) in
  set_hot (if hot (conditions obs (trig tr)) then Some (get_or_insert (hot_since st) now)
           else None) st.

(** The three ways a step goes: nothing is open or active, an event is open,
    an event opens. *)
Lemma observe_cases tr now unix link obs :
  let cond := conditions obs (trig tr) in
  let st := stepped tr now link obs in
  let confirmed := match hot_since st with
                   | Some t => CONFIRM <=? sat_sub now t | None => false end in
  let active := active_class cond confirmed in
  let pct := if outage cond then f64.of_Z 100 else default f64.zero (loss_pct obs) in
  ∃ r, observe tr now unix link obs =
       Ok (mkTracker (trig tr) (tcfg tr) (<[link := r.1.1]> (tracks tr)) (dirty tr || r.1.2), r.2) ∧
    match event st with
    | Some ev => observe_open tr now cond active pct ev st = Ok r
    | None => match active with
              | None => r = (st, false, Quiet)
              | Some class =>
                  observe_new tr now unix link (others_opened tr now link) class pct st = Ok r
              end
    end.
Proof.
  intros cond st confirmed active pct. unfold observe. fold cond.
  change (set_hot _ (default LinkTrack_default (tracks tr !! link))) with st.
  fold confirmed. fold active. fold pct. destruct (event st) as [ev|] eqn:Ee.
  - assert (∃ r, observe_open tr now cond active pct ev st = Ok r) as [r Hr].
    { unfold observe_open. destruct (calm cond).
      - destruct (_ <=? _); [by eexists|].
        match goal with |- context [ongoing ?s _ _ _] =>
          destruct (ongoing_spec s now (tcfg tr) false _ eq_refl) as (? & ? & -> & _) end.
        by eexists.
      - destruct (match active with Some _ => _ | None => _ end); [by eexists|].
        match goal with |- context [ongoing ?s _ _ _] =>
          destruct (ongoing_spec s now (tcfg tr) true _ eq_refl) as (? & ? & -> & _) end.
        by eexists. }
    exists r. rewrite Hr. done.
  - destruct active as [class|] eqn:Ea; [|by exists (st, false, Quiet)].
    assert (∃ r, observe_new tr now unix link (others_opened tr now link) class pct st = Ok r)
      as [r Hr] by (by eexists).
    exists r. rewrite Hr. done.
Qed.

(** How a ticket changes the submit times. *)
Definition is_ticket (o : Outcome) : bool :=
  match o with Dump submit _ _ => submit | _ => false end.

Record open_step (cond : Conditions) (clear now : Z) (ev : Event) (st st' : LinkTrack)
    (o : Outcome) : Prop := {
  os_life : lifecycle (Some (ev_class ev)) (opened (event st')) o;
  os_hot : hot_since st' = hot_since st;
  os_submit : last_submit st' = if is_ticket o then Some now else last_submit st;
  os_degraded : last_degraded_submit st' = last_degraded_submit st;
  os_calm : ∀ ev', event st' = Some ev' →
    opened_at ev' = opened_at ev ∧
    calm_since ev' = if calm cond then Some (get_or_insert (calm_since ev) now) else None;
  os_ended : event st' = None →
    calm cond = true ∧ clear ≤ sat_sub now (get_or_insert (calm_since ev) now) }.

Lemma observe_open_spec tr now cond active pct ev st r :
  event st = Some ev → observe_open tr now cond active pct ev st = Ok r →
  open_step cond (clear_after (trig tr)) now ev st r.1.1 r.2.
Proof.
  intros He. unfold observe_open. destruct (calm cond) eqn:Ec.
  - destruct (Z.leb_spec (clear_after (trig tr)) (sat_sub now (get_or_insert (calm_since ev) now))).
    + intros [= <-]. by split; cbn; rewrite ?Ec.
    + match goal with |- context [ongoing ?s _ _ _] =>
        destruct (ongoing_spec s now (tcfg tr) false _ eq_refl)
          as (ev' & o & -> & H1 & H2 & H3 & H4) end.
      intros [= <-]. cbn in H1, H2, H3, H4. split; cbn.
      * rewrite H1. destruct H4 as [->|(i & -> & Hi)]; cbn; rewrite ?Hi; done.
      * done.
      * by destruct H4 as [->|(i & -> & Hi)].
      * done.
      * intros e [= <-]. by rewrite Ec.
      * done.
  - destruct (match active with Some _ => _ | None => _ end) as [class|] eqn:Ea.
    + destruct active as [c|]; [|done]. destruct (Z.ltb_spec (severity (ev_class ev)) (severity c));
        [|done]. injection Ea as ->. intros [= <-]. split; cbn; rewrite ?Ec; try done.
      * split_and!; [done..|]. by exists (ev_class ev).
      * intros e [= <-]. done.
    + match goal with |- context [ongoing ?s _ _ _] =>
        destruct (ongoing_spec s now (tcfg tr) true _ eq_refl)
          as (ev' & o & -> & H1 & H2 & H3 & H4) end.
      intros [= <-]. cbn in H1, H2, H3, H4. split; cbn.
      * rewrite H1. destruct H4 as [->|(i & -> & Hi)]; cbn; rewrite ?Hi; done.
      * done.
      * by destruct H4 as [->|(i & -> & Hi)].
      * done.
      * intros e [= <-]. by rewrite Ec.
      * done.
Qed.

Lemma observe_new_spec tr now unix link others class pct st r :
  observe_new tr now unix link others class pct st = Ok r →
  ∃ submit i ev,
    r.2 = Dump submit Opened i ∧ info_class i = class ∧
    event r.1.1 = Some ev ∧ ev_class ev = class ∧ opened_at ev = now ∧ calm_since ev = None ∧
    hot_since r.1.1 = hot_since st ∧
    submit = negb others && negb (within_gap now (last_submit st) RETICKET_GAP)
             && negb (bool_decide (class = Degraded)
                      && within_gap now (last_degraded_submit st)
                           (degraded_ticket_gap (tcfg tr))) ∧
    last_submit r.1.1 = (if submit || others then Some now else last_submit st) ∧
    last_degraded_submit r.1.1 =
      (if (submit || others) && bool_decide (class = Degraded) then Some now
       else last_degraded_submit st).
Proof.
  unfold observe_new. set (submit := negb others && _ && _). intros [= <-].
  eexists _, _, _. split_and!; try reflexivity; cbn; destruct (submit || others); cbn; try done.
Qed.

Lemma stepped_event tr now link obs : event (stepped tr now link obs) = event_of tr link.
Proof. unfold stepped, event_of. by destruct (tracks tr !! link). Qed.

(** Every link's event runs through its life cycle: [observe] returns on
    every observation, opens an event only when none is open, escalates it only
    to a more severe class and with a ticket, dumps an open one again without,
    ends only an open one, and touches no other link. *)
Theorem event_lifecycle tr now unix link obs :
  ∃ tr' o, observe tr now unix link obs = Ok (tr', o) ∧
    lifecycle (opened (event_of tr link)) (opened (event_of tr' link)) o ∧
    ∀ l, l ≠ link → tracks tr' !! l = tracks tr !! l.
Proof.
  destruct (observe_cases tr now unix link obs) as (r & -> & Hr). eexists _, _. split; [done|].
  cbn [tracks]. split; [|intros l Hl; by rewrite lookup_insert_ne].
  unfold event_of at 2. cbn [tracks]. rewrite lookup_insert_eq. cbn.
  rewrite stepped_event in Hr. destruct (event_of tr link) as [ev|] eqn:Ee.
  - apply observe_open_spec in Hr as [Hl _ _ _ _ _]; [done|]. by rewrite stepped_event.
  - destruct (active_class _ _) as [class|].
    + apply observe_new_spec in Hr as (submit & i & ev & -> & <- & -> & He & _). cbn. by rewrite He.
    + rewrite Hr. cbn [fst snd]. rewrite stepped_event, Ee. done.
Qed.

(** ** Over time *)

Definition is_degraded_ticket (o : Outcome) : bool :=
  match o with
  | Dump true Opened i => bool_decide (info_class i = Degraded)
  | _ => false
  end.

Lemma adopt_lookup {V} (f : V → option (LinkTrack → LinkTrack)) vs ls link :
  adopt f vs ls !! link =
  match vs !! link ≫= f with
  | Some g => Some (g (default LinkTrack_default (ls !! link)))
  | None => ls !! link
  end.
Proof.
  unfold adopt. rewrite lookup_merge.
  destruct (vs !! link) as [v|], (ls !! link) as [st|]; cbn; try done; by destruct (f v).
Qed.

(** Trackers reachable, from a new one or from one that adopted a saved state,
    under a clock that does not go back, with the conditions each observation
    found, latest first, and the time of each link's last ticket and last
    Degraded ticket; of a restored tracker, the times it adopted. *)
Inductive tracker_reach (trg : TriggerCfg) (cfg : TrackerCfg)
    : Z → EventTracker → list (Z * string * Conditions) → gmap string Z → gmap string Z → Prop :=
  | tracker_new t : tracker_reach trg cfg t (EventTracker_new trg cfg) [] ∅ ∅
  | tracker_restored t unix p :
      let tr := restore (EventTracker_new trg cfg) t unix p in
      tracker_reach trg cfg t tr [] (omap last_submit (tracks tr))
        (omap last_degraded_submit (tracks tr))
  | tracker_step t tr H T D now unix link obs tr' o :
      tracker_reach trg cfg t tr H T D → t ≤ now →
      observe tr now unix link obs = Ok (tr', o) →
      tracker_reach trg cfg now tr' ((now, link, conditions obs trg) :: H)
        (if is_ticket o then <[link := now]> T else T)
        (if is_degraded_ticket o then <[link := now]> D else D).

(** A condition has held since [s]: it was found at [s], and at every
    observation after it. *)
Definition held (P : Conditions → bool) (link : string) (s : Z)
    (H : list (Z * string * Conditions)) : Prop :=
  (∃ c, (s, link, c) ∈ H ∧ P c = true) ∧ ∀ t c, (t, link, c) ∈ H → s < t → P c = true.

(** A recorded time that is not before a ghost one. *)
Definition covers (ghost recorded : option Z) : Prop :=
  ∀ t, ghost = Some t → ∃ s, recorded = Some s ∧ t ≤ s.

Record track_inv (clock : Z) (H : list (Z * string * Conditions)) (T D : option Z)
    (link : string) (st : LinkTrack) : Prop := {
  ti_submit : covers T (last_submit st);
  ti_degraded : covers D (last_degraded_submit st);
  ti_past : ∀ t, T = Some t ∨ D = Some t → t ≤ clock;
  ti_hot : ∀ s, hot_since st = Some s → s ≤ clock ∧ held hot link s H;
  ti_calm : ∀ ev s, event st = Some ev → calm_since ev = Some s →
    s ≤ clock ∧ held calm link s H }.

Lemma held_cons P link s H now l c :
  held P link s H → (l = link → P c = true) → held P link s ((now, l, c) :: H).
Proof.
  intros [(c0 & Hin & Hc) Hall] Hl. split; [exists c0; split; [by right|done]|].
  intros t c' [[= -> <- ->]|Ht]%elem_of_cons; [intros _; by apply Hl|by apply Hall].
Qed.

Lemma held_since P link o now H c clock :
  (∀ s, o = Some s → s ≤ clock ∧ held P link s H) → P c = true → clock ≤ now →
  (∀ t c', (t, link, c') ∈ H → t ≤ clock) →
  let s := get_or_insert o now in
  s ≤ now ∧ held P link s ((now, link, c) :: H).
Proof.
  intros Ho Hc Hn Ht. destruct o as [s|]; cbn.
  - destruct (Ho s eq_refl) as [Hs Hh]. split; [lia|]. by apply held_cons.
  - split; [lia|]. split; [exists c; split; [by left|done]|].
    intros t c' [[= -> ->]|Hin]%elem_of_cons; [lia|]. specialize (Ht t c' Hin). lia.
Qed.

(** The invariant of a link another link's step leaves alone. *)
Lemma track_inv_other clock now H T D link st l c :
  track_inv clock H T D link st → l ≠ link → clock ≤ now →
  track_inv now ((now, l, c) :: H) T D link st.
Proof.
  intros [H1 H2 H2' H3 H4] Hl Hn. split; [done..| | |].
  - intros t Ht%H2'. lia.
  - intros s Hs. destruct (H3 s Hs). split; [lia|]. by apply held_cons.
  - intros ev s He Hs. destruct (H4 ev s He Hs). split; [lia|]. by apply held_cons.
Qed.

(** What a step owes: tickets keep their distance, an event ends after a calm
    and a Degraded one opens after a confirmed condition. *)
Record step_sound (trg : TriggerCfg) (cfg : TrackerCfg) (now : Z) (link : string)
    (H : list (Z * string * Conditions)) (T D : option Z) (o : Outcome) : Prop := {
  ss_gap : ∀ i t, o = Dump true Opened i → T = Some t → RETICKET_GAP ≤ now - t;
  ss_degraded : ∀ i t, o = Dump true Opened i → info_class i = Degraded → D = Some t →
    degraded_ticket_gap cfg ≤ now - t;
  ss_confirmed : ∀ b i, o = Dump b Opened i → info_class i = Degraded →
    ∃ s, CONFIRM ≤ now - s ∧ held hot link s H;
  ss_calm : ∀ id c d pk, o = Ended id c d pk →
    ∃ s, clear_after trg ≤ now - s ∧ held calm link s H }.

Lemma gap_kept now recorded ghost gap t :
  within_gap now recorded gap = false → covers ghost recorded → ghost = Some t → t ≤ now →
  gap ≤ now - t.
Proof.
  intros Hw Hc Ht Hn. destruct (Hc t Ht) as (s & -> & Hs). cbn in Hw.
  apply Z.ltb_ge in Hw. unfold sat_sub in Hw. lia.
Qed.

Lemma covers_keep T o now : covers T o → (∀ t, T = Some t → t ≤ now) → covers T (Some now).
Proof. intros Hc Hp t Ht. exists now. auto. Qed.

(** One step of one link, from the state [st] its conditions [cond] leave it
    in before the event is looked at. *)
Section observed.
Context (trg : TriggerCfg) (cfg : TrackerCfg) (clock now : Z) (link : string).
Context (H : list (Z * string * Conditions)) (T D : option Z).
Context (cond : Conditions) (st : LinkTrack).
Hypothesis Hnow : clock ≤ now.
Hypothesis Hpast : ∀ t l c, (t, l, c) ∈ H → t ≤ clock.
Hypothesis Hsubmit : covers T (last_submit st).
Hypothesis Hdegraded : covers D (last_degraded_submit st).
Hypothesis Hghost : ∀ t, T = Some t ∨ D = Some t → t ≤ now.
Hypothesis Hhot : ∀ s, hot_since st = Some s →
  s ≤ now ∧ held hot link s ((now, link, cond) :: H).

(** What the step owes of the link's new state and of the outcome. *)
Definition sound_step (st' : LinkTrack) (o : Outcome) : Prop :=
  track_inv now ((now, link, cond) :: H) (if is_ticket o then Some now else T)
    (if is_degraded_ticket o then Some now else D) link st' ∧
  step_sound trg cfg now link ((now, link, cond) :: H) T D o.

Lemma open_sound ev st' o :
  (∀ s, calm_since ev = Some s → s ≤ clock ∧ held calm link s H) →
  open_step cond (clear_after trg) now ev st st' o → sound_step st' o.
Proof.
  intros Hcalm [Hl Hh Hs Hd Hc He].
  assert (∀ b i, o ≠ Dump b Opened i) as Hno by (intros b i ->; cbn in Hl; by destruct Hl).
  assert (is_degraded_ticket o = false) as Edt
    by (destruct o as [|[] [] i|]; try done; by destruct (Hno true i)).
  unfold sound_step. rewrite Edt. split; split.
  - rewrite Hs. destruct (is_ticket o); [|done]. intros t [= <-]. by exists now.
  - by rewrite Hd.
  - intros t [Ht|Ht]; [|auto]. destruct (is_ticket o); [|auto]. injection Ht as <-. lia.
  - by rewrite Hh.
  - intros ev' s Hev' Hcs. destruct (Hc ev' Hev') as [_ Hcs']. rewrite Hcs in Hcs'.
    destruct (calm cond) eqn:Ecalm; [|done]. injection Hcs' as ->.
    eapply held_since; [done..|eauto].
  - by intros i t []%Hno.
  - by intros i t []%Hno.
  - by intros b i []%Hno.
  - intros id c dur pk ->. cbn in Hl. destruct Hl as [_ Hnone].
    destruct (event st'); [done|]. destruct (He eq_refl) as [Hcl Hgap].
    exists (get_or_insert (calm_since ev) now).
    destruct (held_since calm link (calm_since ev) now H cond clock) as [Hle Hheld];
      [done..|eauto|]. split; [unfold sat_sub in Hgap; lia|done].
Qed.

Lemma active_degraded :
  active_class cond (match hot_since st with
                     | Some t => CONFIRM <=? sat_sub now t | None => false end) = Some Degraded →
  ∃ s, CONFIRM ≤ now - s ∧ held hot link s ((now, link, cond) :: H).
Proof.
  unfold active_class. destruct (outage cond); [done|]. destruct (flap cond); [done|].
  destruct (hot_since st) as [s|]; [|done].
  destruct (Z.leb_spec CONFIRM (sat_sub now s)) as [Hconf|]; [|done].
  exists s. destruct (Hhot s eq_refl) as [? ?]. split; [|done]. unfold sat_sub in Hconf. lia.
Qed.

Lemma new_sound tr unix others class pct r :
  tcfg tr = cfg →
  active_class cond (match hot_since st with
                     | Some t => CONFIRM <=? sat_sub now t | None => false end) = Some class →
  observe_new tr now unix link others class pct st = Ok r → sound_step r.1.1 r.2.
Proof.
  intros Ec Ea (submit & i & ev & Eo & Ei & Eev' & _ & _ & Ecs & Eh & Esub & Els
    & Eld)%observe_new_spec.
  rewrite Ec in Esub. unfold sound_step. rewrite Eo.
  assert (submit = true → within_gap now (last_submit st) RETICKET_GAP = false ∧
            (class = Degraded →
             within_gap now (last_degraded_submit st) (degraded_ticket_gap cfg) = false)) as Hw.
  { intros ->. symmetry in Esub. apply andb_true_iff in Esub as [[_ H1]%andb_true_iff H2].
    apply negb_true_iff in H1, H2. split; [done|]. intros ->. by rewrite bool_decide_true in H2. }
  clear Esub. split; split; cbn [is_ticket is_degraded_ticket].
  - rewrite Els. destruct submit; cbn [orb]; [intros t [= <-]; by exists now|].
    destruct others; [|done]. eapply covers_keep; eauto.
  - rewrite Eld, Ei. destruct submit; cbn [orb andb]; [|destruct others; cbn [andb]];
      destruct (bool_decide (class = Degraded)); try done.
    + intros t [= <-]. by exists now.
    + eapply covers_keep; eauto.
  - intros t Ht. destruct submit; [|auto]. destruct Ht as [[= <-]|Ht]; [lia|].
    destruct (bool_decide (info_class i = Degraded)); [injection Ht as <-; lia|auto].
  - by rewrite Eh.
  - intros e s. rewrite Eev'. intros [= <-]. by rewrite Ecs.
  - intros i' t [= -> ->] Ht. destruct Hw as [Hw _]; [done|]. eapply gap_kept; eauto.
  - intros i' t [= -> ->] Hd Ht. destruct Hw as [_ Hw]; [done|].
    eapply gap_kept; eauto. apply Hw. congruence.
  - intros b i' [= -> ->] Hd. apply active_degraded. congruence.
  - done.
Qed.

End observed.

Lemma observe_sound trg cfg clock tr H T D now unix link obs tr' o :
  trig tr = trg → tcfg tr = cfg → clock ≤ now →
  (∀ t l c, (t, l, c) ∈ H → t ≤ clock) →
  track_inv clock H T D link (default LinkTrack_default (tracks tr !! link)) →
  observe tr now unix link obs = Ok (tr', o) →
  ∃ st', tr' = mkTracker trg cfg (<[link := st']> (tracks tr)) (dirty tr') ∧
    sound_step trg cfg now link H T D (conditions obs trg) st' o.
Proof.
  intros <- <- Hn Hpast Hinv Hobs.
  destruct (observe_cases tr now unix link obs) as (r & E & Hr).
  rewrite E in Hobs. injection Hobs as <- <-. exists r.1.1. split; [done|].
  set (cond := conditions obs (trig tr)) in *. set (st := stepped tr now link obs) in *.
  assert (∀ s, hot_since st = Some s →
    s ≤ now ∧ held hot link s ((now, link, cond) :: H)) as Hhot.
  { unfold st, stepped. fold cond. destruct (hot cond) eqn:Eh; [|done].
    intros s [= <-]. eapply held_since; [apply Hinv|done..|eauto]. }
  destruct Hinv as [I1 I2 I3 _ I5]. change (covers T (last_submit st)) in I1.
  change (covers D (last_degraded_submit st)) in I2.
  change (∀ ev s, event st = Some ev → calm_since ev = Some s → s ≤ clock ∧ held calm link s H) in I5.
  clearbody st.
  assert (∀ t, T = Some t ∨ D = Some t → t ≤ now) as I3' by (intros t Ht%I3; lia).
  destruct (event st) as [ev|] eqn:Eev.
  - apply observe_open_spec in Hr; [|done]. eapply open_sound; eauto.
  - destruct (active_class cond _) as [class|] eqn:Ea; [by eapply new_sound|].
    rewrite Hr. split; [|by split]. split; [done..|]. intros ev s Hev. cbn in Hev. congruence.
Qed.

Lemma ago_past now unix t limit at_ : ago now unix t limit = Some at_ → at_ ≤ now.
Proof.
  unfold ago, instant_checked_sub, nanos_of_secs, sat_sub. intros H. repeat case_match; simplify_eq; lia.
Qed.

(** Adopting saved entries keeps what each of them keeps. *)
Lemma adopt_keeps (P : LinkTrack → Prop) {V} (f : V → option (LinkTrack → LinkTrack)) vs ls :
  (∀ v g st, f v = Some g → P st → P (g st)) →
  (∀ link, P (default LinkTrack_default (ls !! link))) →
  ∀ link, P (default LinkTrack_default (adopt f vs ls !! link)).
Proof.
  intros Hf Hls link. rewrite adopt_lookup.
  destruct (vs !! link) as [v|]; [cbn|by apply Hls].
  destruct (f v) as [g|] eqn:Eg; [|by apply Hls]. cbn. by apply (Hf v).
Qed.

(** What a restored tracker holds of a link: no event, no condition, and no
    ticket in the future. *)
Definition restored_at (now : Z) (st : LinkTrack) : Prop :=
  event st = None ∧ hot_since st = None ∧
  ∀ t, last_submit st = Some t ∨ last_degraded_submit st = Some t → t ≤ now.

Lemma restored_track trg cfg now unix p link :
  restored_at now (default LinkTrack_default
    (tracks (restore (EventTracker_new trg cfg) now unix p) !! link)).
Proof.
  revert link. apply (adopt_keeps (restored_at now)); [|apply (adopt_keeps (restored_at now));
    [|apply (adopt_keeps (restored_at now))]].
  - intros q g st. destruct (class_from_label (pp_class q)); [cbn|done].
    by intros (at_ & _ & ->)%fmap_Some (H1 & H2 & H3).
  - intros u g st (at_ & Ha & ->)%fmap_Some (H1 & H2 & H3).
    split_and!; [done..|]. cbn. intros t [Ht|[= <-]]; [auto|by eapply ago_past].
  - intros u g st (at_ & Ha & ->)%fmap_Some (H1 & H2 & H3).
    split_and!; [done..|]. cbn. intros t [[= <-]|Ht]; [by eapply ago_past|auto].
  - intros l. cbn. rewrite lookup_empty. split_and!; [done..|]. cbn. by intros t [|].
Qed.

Lemma reach_tracks trg cfg clock tr H T D :
  tracker_reach trg cfg clock tr H T D →
  trig tr = trg ∧ tcfg tr = cfg ∧ (∀ t l c, (t, l, c) ∈ H → t ≤ clock) ∧
  ∀ link, track_inv clock H (T !! link) (D !! link) link
            (default LinkTrack_default (tracks tr !! link)).
Proof.
  induction 1 as [t|t unix p tr|t tr H T D now unix link obs tr' o _ (Et & Ec & Hp & IH) Hn Ho].
  { split_and!; [done..|intros ? ? ? []%not_elem_of_nil|]. intros link. cbn.
    rewrite !lookup_empty. split; cbn; try done. by intros ? [|]. }
  { split_and!; [done..|intros ? ? ? []%not_elem_of_nil|]. intros link.
    destruct (restored_track trg cfg t unix p link) as (He & Hh & Hp). rewrite !lookup_omap. fold tr in He, Hh, Hp.
    destruct (tracks tr !! link) as [st|]; cbn in *; split; cbn; try done; try congruence;
      first [by intros s Hs; exists s|by intros s [|]]. }
  destruct (observe_sound trg cfg t tr H (T !! link) (D !! link) now unix link obs tr' o)
    as (st' & E & Hinv & _); [done..|].
  rewrite E. cbn [trig tcfg tracks]. split_and!; [done..| |].
  - intros t' l c [[= -> -> ->]|Hin]%elem_of_cons; [lia|]. specialize (Hp _ _ _ Hin). lia.
  - intros l. destruct (decide (l = link)) as [->|Hl].
    + rewrite lookup_insert_eq. cbn [default].
      destruct (is_ticket o), (is_degraded_ticket o); rewrite ?lookup_insert_eq; exact Hinv.
    + rewrite lookup_insert_ne by done.
      destruct (is_ticket o), (is_degraded_ticket o); rewrite ?lookup_insert_ne by done;
        by apply (track_inv_other t).
Qed.


(** ** A restart keeps the distances *)

Lemma class_from_label_label c : class_from_label (label c) = Some c.
Proof. by destruct c. Qed.

(** The time a state saved at [now, unix] and adopted at [now', unix'] gives
    an instant: as many whole seconds back. *)
Definition carried (now unix now' unix' limit at_ : Z) : option Z :=
  ago now' unix' (to_unix now unix at_) limit.

(** What survives a restart: a tracker that adopts the saved state of
    another has, per link, the other's last ticket, last Degraded ticket and
    previous event, each as many seconds ago by the wall clock as it was, unless
    it is too old to matter, and no open event. *)
Theorem restart_roundtrip tr now unix trg cfg now' unix' link :
  dirty tr = true → trg = trig tr → cfg = tcfg tr →
  match take_dirty_state tr now unix with
  | (tr1, Some p) =>
      dirty tr1 = false ∧ tracks tr1 = tracks tr ∧
      let st := default LinkTrack_default (tracks tr !! link) in
      let st' := default LinkTrack_default
                   (tracks (restore (EventTracker_new trg cfg) now' unix' p) !! link) in
      event st' = None ∧
      last_submit st' = (last_submit st ≫= carried now unix now' unix' RETICKET_GAP) ∧
      last_degraded_submit st' =
        (last_degraded_submit st ≫= carried now unix now' unix' (degraded_ticket_gap cfg)) ∧
      prev st' = (q ← prev st;
                  (λ at_, mkPrev at_ (nanos_of_secs (as_secs (prev_duration q))) (prev_peak q)
                            (prev_class q))
                  <$> carried now unix now' unix' PREVIOUS_EVENT_MEMORY (ended_at q))
  | (_, None) => False
  end.
Proof.
  intros Hd -> ->. unfold take_dirty_state. rewrite Hd. cbn [negb]. split; [done|]. split; [done|].
  cbv zeta. unfold restore. cbn [tracks]. rewrite !adopt_lookup. cbn [last_submit_unix last_degraded_unix previous].
  rewrite !lookup_omap. cbn [EventTracker_new tracks tcfg]. rewrite lookup_empty.
  destruct (tracks tr !! link) as [[e h ls ld su pv]|]; [|done]. unfold carried.
  destruct ls as [a|], ld as [b|], pv as [[qt qd qp []]|]; cbn;
    repeat match goal with |- context [ago ?a ?b ?c ?d] => destruct (ago a b c d); cbn end; done.
Qed.

(** A link down for 100 s, then calm: the outage opens at 100 s and ends at
    410 s. *)
Definition sample_trig : TriggerCfg :=
  mkTrigger (nanos_of_secs 300) 100 8 (f64.of_Z 12) (f64.of_Z 5) (nanos_of_secs 300)
    (nanos_of_secs 60) (nanos_of_secs 120) 3 (nanos_of_secs 600).
Definition sample_tcfg : TrackerCfg :=
  mkTrackerCfg (nanos_of_secs 300) (nanos_of_secs 60) (nanos_of_secs 21600).
Definition sample_down : LinkObs := mkObs (Some (nanos_of_secs 100)) 1 0 0 None.
Definition sample_calm : LinkObs := mkObs None 1 10 0 (Some (nanos_of_secs 10)).

Definition sample_step (tr : EventTracker) (at_ : Z) (obs : LinkObs) : EventTracker * Outcome :=
  match observe tr (nanos_of_secs at_) at_ "wan0" obs with
  | Ok r => r
  | _ => (tr, Quiet)
  end.
Definition sample_t0 : EventTracker := EventTracker_new sample_trig sample_tcfg.
Definition sample_t1 : EventTracker := (sample_step sample_t0 100 sample_down).1.
Definition sample_t2 : EventTracker := (sample_step sample_t1 110 sample_calm).1.
Definition sample_t3 : EventTracker := (sample_step sample_t2 410 sample_calm).1.

Definition sample_conds (at_ : Z) (obs : LinkObs) : Z * string * Conditions :=
  (nanos_of_secs at_, "wan0", conditions obs sample_trig).

Lemma sample_tracker_reach :
  tracker_reach sample_trig sample_tcfg (nanos_of_secs 110) sample_t2
    [sample_conds 110 sample_calm; sample_conds 100 sample_down]
    (<["wan0" := nanos_of_secs 100]> ∅) ∅.
Proof.
  apply (tracker_step sample_trig sample_tcfg (nanos_of_secs 100) sample_t1
           [sample_conds 100 sample_down] _ _ (nanos_of_secs 110) 110 "wan0" sample_calm
           sample_t2 Quiet); [|by vm_compute|vm_compute; reflexivity].
  apply (tracker_step sample_trig sample_tcfg 0 sample_t0 [] ∅ ∅ (nanos_of_secs 100) 100 "wan0"
           sample_down sample_t1 (sample_step sample_t0 100 sample_down).2);
    [apply tracker_new|by vm_compute|vm_compute; reflexivity].
Qed.


Lemma restart_roundtrip_witness :
  match take_dirty_state sample_t3 (nanos_of_secs 500) 500 with
  | (tr1, Some p) =>
      dirty tr1 = false ∧ tracks tr1 = tracks sample_t3 ∧
      let st := default LinkTrack_default (tracks sample_t3 !! "wan0") in
      let st' := default LinkTrack_default
                   (tracks (restore (EventTracker_new sample_trig sample_tcfg)
                              (nanos_of_secs 7) 800 p) !! "wan0") in
      event st' = None ∧
      last_submit st' =
        (last_submit st ≫= carried (nanos_of_secs 500) 500 (nanos_of_secs 7) 800 RETICKET_GAP) ∧
      last_degraded_submit st' =
        (last_degraded_submit st ≫=
           carried (nanos_of_secs 500) 500 (nanos_of_secs 7) 800 (degraded_ticket_gap sample_tcfg)) ∧
      prev st' = (q ← prev st;
                  (λ at_, mkPrev at_ (nanos_of_secs (as_secs (prev_duration q))) (prev_peak q)
                            (prev_class q))
                  <$> carried (nanos_of_secs 500) 500 (nanos_of_secs 7) 800
                        PREVIOUS_EVENT_MEMORY (ended_at q))
  | (_, None) => False
  end.
Proof.
  apply (restart_roundtrip sample_t3 (nanos_of_secs 500) 500 sample_trig sample_tcfg
           (nanos_of_secs 7) 800 "wan0"); vm_compute; reflexivity.
Defined.
