(* ===== verification/Link.v ===== *)
(** * Link state and statistics ([link.rs], [monitor.rs])

    The state a link carries for scheduling, what probes and traffic do to it,
    the Up/Down hysteresis and the score. The socket, the WireGuard session and
    the addresses of a [Link] are not part of the model. The clock is a
    parameter of each operation, once per reading. *)

From Stdlib Require Import SpecFloat.
From S2P Require Import Prelude Bytes F64 Rounding Configuration ProbeHistory.

Inductive LinkState := Probing | Up | Down.
Global Instance LinkState_eq_dec : EqDecision LinkState.
Proof. solve_decision. Defined.

Definition to_wire (s : LinkState) : Z :=
  match s with Probing => 0 | Up => 1 | Down => 2 end.
Definition from_wire (v : Z) : LinkState :=
  if v =? 1 then Up else if v =? 2 then Down else Probing.
Definition as_str (s : LinkState) : string :=
  match s with Probing => "probing" | Up => "up" | Down => "down" end.

Record Ewma := mkEwma { alpha : f64; value : option f64 }.

Definition Ewma_new (a : f64) : Ewma := mkEwma a None.
Definition Ewma_update (sample : f64) (e : Ewma) : Ewma :=
  let v := match value e with
           | None => sample
           | Some p => (alpha e * sample + (f64.one - alpha e) * p)%f64
           end in
  mkEwma (alpha e) (Some v).
Definition Ewma_get (e : Ewma) : option f64 := value e.
Definition Ewma_set_alpha (a : f64) (e : Ewma) : Ewma := mkEwma a (value e).

(** The shared [TxCounters] of a link are a record of their own, below. *)
Record LinkStats := mkLinkStats {
  rtt_ms : Ewma;
  jitter_ms : Ewma;
  loss_rate : Ewma;
  rx_throughput_mbps : Ewma;
  tx_throughput_mbps : Ewma;
  active_bandwidth_mbps : Ewma;
  confirmed_ceiling_mbps : option f64;
  last_ramp_at : option Z;
  consecutive_verify_misses : Z;
  last_rtt_ms : option f64;
  consecutive_misses : Z;
  consecutive_hits : Z;
  probe_window : ProbeWindow;
  down_transitions : DownTransitions;
  rx_bytes_since_last_sample : Z;
  last_rx_throughput_sample : Z;
  tx_bytes_since_last_sample : Z;
  last_tx_throughput_sample : Z;
  tx_bytes : Z;
  rx_bytes : Z;
  tx_packets : Z;
  rx_packets : Z }.

Definition LinkStats_new (a : f64) (now now' : Z) : LinkStats :=
  mkLinkStats (Ewma_new a) (Ewma_new a) (Ewma_new a) (Ewma_new a) (Ewma_new a) (Ewma_new a)
    None None 0 None 0 0 ProbeWindow_default DownTransitions_default 0 now 0 now' 0 0 0 0.

(** Assignments to groups of fields. *)
Definition set_quality (r j l : Ewma) (last : option f64) (m h : Z) (w : ProbeWindow)
    (s : LinkStats) : LinkStats :=
  mkLinkStats r j l (rx_throughput_mbps s) (tx_throughput_mbps s) (active_bandwidth_mbps s)
    (confirmed_ceiling_mbps s) (last_ramp_at s) (consecutive_verify_misses s) last m h w
    (down_transitions s) (rx_bytes_since_last_sample s) (last_rx_throughput_sample s)
    (tx_bytes_since_last_sample s) (last_tx_throughput_sample s) (tx_bytes s) (rx_bytes s)
    (tx_packets s) (rx_packets s).
Definition set_tx (t : Ewma) (since at_ bytes packets : Z) (s : LinkStats) : LinkStats :=
  mkLinkStats (rtt_ms s) (jitter_ms s) (loss_rate s) (rx_throughput_mbps s) t
    (active_bandwidth_mbps s) (confirmed_ceiling_mbps s) (last_ramp_at s)
    (consecutive_verify_misses s) (last_rtt_ms s) (consecutive_misses s) (consecutive_hits s)
    (probe_window s) (down_transitions s) (rx_bytes_since_last_sample s)
    (last_rx_throughput_sample s) since at_ bytes (rx_bytes s) packets (rx_packets s).
Definition set_rx (r : Ewma) (since at_ bytes packets : Z) (s : LinkStats) : LinkStats :=
  mkLinkStats (rtt_ms s) (jitter_ms s) (loss_rate s) r (tx_throughput_mbps s)
    (active_bandwidth_mbps s) (confirmed_ceiling_mbps s) (last_ramp_at s)
    (consecutive_verify_misses s) (last_rtt_ms s) (consecutive_misses s) (consecutive_hits s)
    (probe_window s) (down_transitions s) since at_ (tx_bytes_since_last_sample s)
    (last_tx_throughput_sample s) (tx_bytes s) bytes (tx_packets s) packets.
Definition set_transition (c : option f64) (ramp : option Z) (v : Z) (w : ProbeWindow)
    (d : DownTransitions) (s : LinkStats) : LinkStats :=
  mkLinkStats (rtt_ms s) (jitter_ms s) (loss_rate s) (rx_throughput_mbps s)
    (tx_throughput_mbps s) (active_bandwidth_mbps s) c ramp v (last_rtt_ms s)
    (consecutive_misses s) (consecutive_hits s) w d (rx_bytes_since_last_sample s)
    (last_rx_throughput_sample s) (tx_bytes_since_last_sample s) (last_tx_throughput_sample s)
    (tx_bytes s) (rx_bytes s) (tx_packets s) (rx_packets s).

Definition set_alpha (a : f64) (s : LinkStats) : LinkStats :=
  mkLinkStats (Ewma_set_alpha a (rtt_ms s)) (Ewma_set_alpha a (jitter_ms s))
    (Ewma_set_alpha a (loss_rate s)) (Ewma_set_alpha a (rx_throughput_mbps s))
    (Ewma_set_alpha a (tx_throughput_mbps s)) (active_bandwidth_mbps s)
    (confirmed_ceiling_mbps s) (last_ramp_at s) (consecutive_verify_misses s) (last_rtt_ms s)
    (consecutive_misses s) (consecutive_hits s) (probe_window s) (down_transitions s)
    (rx_bytes_since_last_sample s) (last_rx_throughput_sample s) (tx_bytes_since_last_sample s)
    (last_tx_throughput_sample s) (tx_bytes s) (rx_bytes s) (tx_packets s) (rx_packets s).

Definition record_rtt (now : Z) (rtt : f64) (s : LinkStats) : LinkStats :=
  set_quality (Ewma_update rtt (rtt_ms s))
    (match last_rtt_ms s with
     | Some p => Ewma_update (f64.abs (rtt - p)%f64) (jitter_ms s)
     | None => jitter_ms s end)
    (Ewma_update f64.zero (loss_rate s)) (Some rtt) 0 (wrap 32 (consecutive_hits s + 1))
    (ProbeWindow_record now true (probe_window s)) s.

Definition record_miss (now : Z) (s : LinkStats) : LinkStats :=
  set_quality (rtt_ms s) (jitter_ms s) (Ewma_update f64.one (loss_rate s)) (last_rtt_ms s)
    (wrap 32 (consecutive_misses s + 1)) 0 (ProbeWindow_record now false (probe_window s)) s.

(** The rate over a window of at least a second, in Mbps. *)
Definition window_mbps (bytes elapsed : Z) : f64 :=
  (f64.of_Z bytes * f64.of_Z 8 / f64.as_secs_f64 elapsed / f64.of_Z 1000000)%f64.

(** [now] is the first clock reading, [now'] the one that starts the next
    window. *)
Definition record_tx_many (now now' bytes packets : Z) (s : LinkStats) : LinkStats :=
  let since := wrap 64 (tx_bytes_since_last_sample s + bytes) in
  let s := set_tx (tx_throughput_mbps s) since (last_tx_throughput_sample s)
             (wrap 64 (tx_bytes s + bytes)) (wrap 64 (tx_packets s + packets)) s in
  let elapsed := sat_sub now (last_tx_throughput_sample s) in
  if (f64.one <=? f64.as_secs_f64 elapsed)%f64 then
    set_tx (Ewma_update (window_mbps since elapsed) (tx_throughput_mbps s)) 0 now'
      (tx_bytes s) (tx_packets s) s
  else s.

Definition record_tx (now now' n : Z) (s : LinkStats) : LinkStats := record_tx_many now now' n 1 s.

Definition record_rx (now now' n : Z) (s : LinkStats) : LinkStats :=
  let since := wrap 64 (rx_bytes_since_last_sample s + n) in
  let s := set_rx (rx_throughput_mbps s) since (last_rx_throughput_sample s)
             (wrap 64 (rx_bytes s + n)) (wrap 64 (rx_packets s + 1)) s in
  let elapsed := sat_sub now (last_rx_throughput_sample s) in
  if (f64.one <=? f64.as_secs_f64 elapsed)%f64 then
    set_rx (Ewma_update (window_mbps since elapsed) (rx_throughput_mbps s)) 0 now'
      (rx_bytes s) (rx_packets s) s
  else s.

(** The fields of [Link] that scheduling and monitoring use. *)
Record Link := mkLink {
  config : LinkConfig;
  state : LinkState;
  state_since : Z;
  stats : LinkStats;
  admin_disabled : bool }.

Record LinkScore := mkScore {
  link_index : nat;
  ls_state : LinkState;
  ls_admin_disabled : bool;
  ls_weight : f64;
  ls_bandwidth_cap_mbps : option f64;
  ls_rtt_ms : option f64;
  ls_jitter_ms : option f64;
  ls_loss_rate : option f64;
  ls_rx_throughput_mbps : option f64;
  ls_active_bandwidth_mbps : option f64;
  ls_consecutive_misses : Z }.

Definition score_of (i : nat) (l : Link) : LinkScore :=
  mkScore i (state l) (admin_disabled l) (weight (config l)) (bandwidth_cap_mbps (config l))
    (Ewma_get (rtt_ms (stats l))) (Ewma_get (jitter_ms (stats l)))
    (Ewma_get (loss_rate (stats l))) (Ewma_get (rx_throughput_mbps (stats l)))
    (Ewma_get (active_bandwidth_mbps (stats l))) (consecutive_misses (stats l)).

Definition snapshot_scores (ls : list Link) : list LinkScore := imap score_of ls.

Record TxCounters := mkTxCounters {
  queue_full : Z;
  send_failed : Z;
  rerouted_away : Z;
  depth : Z;
  queue_delay_sum_us : Z;
  queue_delay_samples : Z;
  queue_delay_max_us : Z;
  send_wait_sum_us : Z;
  send_wait_samples : Z;
  last_progress_us : Z;
  queue_delay_recent_us : Z;
  send_wait_recent_us : Z;
  congestion_milli : Z;
  delivery_ppm : Z }.

Definition TxCounters_new : TxCounters := mkTxCounters 0 0 0 0 0 0 0 0 0 0 0 0 1000 1000000.

(** ** [monitor.rs] *)

Record ProbeTracker := mkProbeTracker { outstanding : gmap Z Z; timeout : Z }.

Definition ProbeTracker_new (t : Z) : ProbeTracker := mkProbeTracker ∅ t.

Definition record_sent (now probe_seq : Z) (t : ProbeTracker) : ProbeTracker :=
  mkProbeTracker (<[probe_seq := now]> (outstanding t)) (timeout t).

Definition record_reply (now probe_seq : Z) (t : ProbeTracker) : ProbeTracker * option f64 :=
  match outstanding t !! probe_seq with
  | None => (t, None)
  | Some sent_at =>
      (mkProbeTracker (delete probe_seq (outstanding t)) (timeout t),
       Some (f64.as_secs_f64 (sat_sub now sent_at) * f64.of_Z 1000)%f64)
  end.

Definition sweep_timeouts (now : Z) (t : ProbeTracker) : ProbeTracker * nat :=
  let kept := filter (λ kv, sat_sub now kv.2 < timeout t) (outstanding t) in
  (mkProbeTracker kept (timeout t), size (outstanding t) - size kept)%nat.

Definition update_link_state (now : Z) (cfg : SchedulerConfig) (l : Link) : Link :=
  let was := state l in
  let next :=
    match was with
    | Up => if down_threshold cfg <=? consecutive_misses (stats l) then Down else was
    | Down | Probing => if up_threshold cfg <=? consecutive_hits (stats l) then Up else was
    end in
  if bool_decide (was = next) then l
  else
    let s := stats l in
    let s := if bool_decide (was = Up) && bool_decide (next = Down)
             then set_transition (confirmed_ceiling_mbps s) (last_ramp_at s)
                    (consecutive_verify_misses s) (probe_window s)
                    (DownTransitions_record now (down_transitions s)) s
             else s in
    let s := if bool_decide (was ≠ Up) && bool_decide (next = Up)
             then set_transition None None 0 (ProbeWindow_clear (probe_window s))
                    (down_transitions s) s
             else s in
    mkLink (config l) next now s (admin_disabled l).

Definition score (l : Link) : f64 :=
  if bool_decide (state l ≠ Up) || admin_disabled l then f64.zero
  else
    let s := stats l in
    let rtt := f64.max (default (f64.of_Z 200) (Ewma_get (rtt_ms s))) (f64.lit 1 10) in
    let jitter := f64.max (default (f64.of_Z 20) (Ewma_get (jitter_ms s))) f64.zero in
    let loss := f64.clamp (default f64.zero (Ewma_get (loss_rate s))) f64.zero f64.one in
    let throughput :=
      f64.min
        (match Ewma_get (active_bandwidth_mbps s) with
         | Some a => f64.max a (f64.lit 1 10)
         | None => f64.max (default f64.one (Ewma_get (rx_throughput_mbps s))) f64.one
         end)
        (default f64.MAX (bandwidth_cap_mbps (config l))) in
    let latency_factor := (f64.one / (f64.one + rtt / f64.of_Z 50))%f64 in
    let jitter_factor := (f64.one / (f64.one + jitter / f64.of_Z 20))%f64 in
    let loss_factor := ((f64.one - loss) * (f64.one - loss))%f64 in
    (weight (config l) * f64.sqrt throughput * latency_factor * jitter_factor
     * loss_factor)%f64.

(** ** What the tasks do with probe results ([tunnel.rs]) *)

(** A reply that was matched is recorded and the state updated; a sweep
    records all its misses first; a probe that could not be sent is one miss. *)
Inductive probe_op :=
  | ProbeReply (t : Z) (rtt : f64) (t' : Z)
  | ProbeMisses (t : Z) (ts : list Z) (t' : Z).

Definition with_stats (f : LinkStats → LinkStats) (l : Link) : Link :=
  mkLink (config l) (state l) (state_since l) (f (stats l)) (admin_disabled l).

Definition probe_step (cfg : SchedulerConfig) (l : Link) (op : probe_op) : Link :=
  match op with
  | ProbeReply t rtt t' => update_link_state t' cfg (with_stats (record_rtt t rtt) l)
  | ProbeMisses t ts t' =>
      update_link_state t' cfg
        (with_stats (λ s, foldl (λ s t, record_miss t s) s (t :: ts)) l)
  end.

(** ** The hysteresis as a function of the probe history *)

(** The outcomes of an operation, and how many of the latest agree. *)
Definition op_outcomes (op : probe_op) : list bool :=
  match op with ProbeReply _ _ _ => [true] | ProbeMisses _ ts _ => repeat false (S (length ts)) end.

Fixpoint streak (b : bool) (h : list bool) : nat :=
  match h with
  | [] => 0
  | x :: h => if Bool.eqb x b then S (streak b h) else 0
  end.

(** A link goes Down after [down_threshold] misses in a row and Up after
    [up_threshold] hits in a row. [h] is the history, latest first. *)
Definition spec_state (cfg : SchedulerConfig) (s : LinkState) (h : list bool) : LinkState :=
  match s with
  | Up => if down_threshold cfg <=? Z.of_nat (streak false h) then Down else Up
  | _ => if up_threshold cfg <=? Z.of_nat (streak true h) then Up else s
  end.

Definition spec_step (cfg : SchedulerConfig) (sh : LinkState * list bool) (op : probe_op)
    : LinkState * list bool :=
  let h := rev (op_outcomes op) ++ sh.2 in (spec_state cfg sh.1 h, h).

Record tracks_history (l : Link) (s : LinkState) (h : list bool) : Prop := {
  th_state : state l = s;
  th_misses : consecutive_misses (stats l) = Z.of_nat (streak false h);
  th_hits : consecutive_hits (stats l) = Z.of_nat (streak true h) }.

Lemma streak_length b h : (streak b h ≤ length h)%nat.
Proof. induction h as [|x h IH]; cbn; [lia|]. destruct (Bool.eqb x b); lia. Qed.

Lemma update_tracks now cfg l s h :
  tracks_history l s h → tracks_history (update_link_state now cfg l) (spec_state cfg s h) h.
Proof.
  intros [<- Hm Hh]. unfold update_link_state, spec_state. rewrite <- Hm, <- Hh.
  set (next := match state l with Probing => _ | _ => _ end).
  assert (match state l with
          | Up => if down_threshold cfg <=? consecutive_misses (stats l) then Down else Up
          | _ => if up_threshold cfg <=? consecutive_hits (stats l) then Up else state l
          end = next) as -> by (subst next; by destruct (state l)).
  case_bool_decide as E; [by split|]. clearbody next.
  split; [done| |]; cbn [stats]; by repeat case_match.
Qed.

Lemma misses_track l s h ts :
  tracks_history l s h → Z.of_nat (length h + length ts) < 2 ^ 32 →
  tracks_history (with_stats (λ s, foldl (λ s t, record_miss t s) s ts) l) s
    (repeat false (length ts) ++ h).
Proof.
  revert l h; induction ts as [|t ts IH]; intros l h Hl Hlen; [by destruct l, Hl|].
  assert (with_stats (λ s, foldl (λ s t, record_miss t s) s (t :: ts)) l =
          with_stats (λ s, foldl (λ s t, record_miss t s) s ts) (with_stats (record_miss t) l))
    as -> by done.
  assert (repeat false (length (t :: ts)) ++ h = repeat false (length ts) ++ (false :: h)) as ->.
  { cbn [length repeat app]. rewrite (cons_middle false), app_assoc. f_equal.
    change (false :: repeat false (length ts)) with (repeat false (S (length ts))).
    by rewrite <- repeat_cons. }
  apply IH; [|cbn [length] in *; lia].
  destruct Hl as [Hs Hm Hh]. pose proof (streak_length false h). cbn [length] in Hlen.
  split; [done| |done]. cbn. rewrite Hm, wrap_small; [cbn; lia|unfold fits; lia].
Qed.

(** C9. The link state is a function of the probe history: over any run of
    replies, sweeps and send failures, the link is Down or Up exactly as the
    rule on the latest outcomes says, so it never goes Down on fewer than
    [down_threshold] misses in a row nor Up on fewer than [up_threshold] hits. *)
Theorem link_state_refines cfg l ops :
  state l = Probing → consecutive_misses (stats l) = 0 → consecutive_hits (stats l) = 0 →
  Z.of_nat (length (ops ≫= op_outcomes)) < 2 ^ 32 →
  let '(s, h) := foldl (spec_step cfg) (Probing, []) ops in
  tracks_history (foldl (probe_step cfg) l ops) s h ∧ h = rev (ops ≫= op_outcomes).
Proof.
  intros Hs Hm Hh Hlen.
  assert (tracks_history l Probing []) as Hl by by split.
  change (@nil bool) with (rev (@nil bool)) in Hl.
  assert (∀ done_ s, tracks_history l s (rev done_) →
            Z.of_nat (length (done_ ++ (ops ≫= op_outcomes))) < 2 ^ 32 →
            let '(s', h') := foldl (spec_step cfg) (s, rev done_) ops in
            tracks_history (foldl (probe_step cfg) l ops) s' h' ∧
            h' = rev (done_ ++ (ops ≫= op_outcomes))) as H'.
  { clear Hs Hm Hh Hlen Hl. revert l. induction ops as [|op ops IH]; intros l d s Hl Hlen.
    { cbn. by rewrite app_nil_r. }
    cbn [foldl mbind list_bind] in *. rewrite app_assoc in *.
    unfold spec_step at 2. cbn [fst snd]. rewrite <- rev_app_distr.
    apply IH; [|done]. rewrite !length_app in Hlen. destruct op as [t rtt t'|t ts t'].
    - apply update_tracks. destruct Hl as [H1 H2 H3]. rewrite rev_app_distr.
      pose proof (streak_length true (rev d)) as Hle. rewrite length_rev in Hle. cbn in Hlen.
      split; [done|done|]. cbn. rewrite H3, wrap_small; [cbn; lia|unfold fits; lia].
    - apply update_tracks. rewrite rev_app_distr. cbn [op_outcomes] in *.
      assert (rev (repeat false (S (length ts))) = repeat false (length (t :: ts))) as ->.
      { change (length (t :: ts)) with (S (length ts)). generalize (S (length ts)).
        intros n. induction n as [|n IHn]; [done|]. cbn [repeat rev]. by rewrite IHn, <- repeat_cons. }
      apply misses_track; [done|]. rewrite length_rev. rewrite repeat_length in Hlen.
      cbn [length] in *. lia. }
  apply (H' [] Probing); done.
Qed.

Definition sample_stats : LinkStats := LinkStats_new (f64.lit 2 10) 0 0.
Definition sample_fresh : Link := mkLink (sample_link "wan0") Probing 0 sample_stats false.
Definition sample_replies (n : nat) : list probe_op := repeat (ProbeReply 1 (f64.of_Z 20) 1) n.

(** Three replies bring a fresh link Up; a sweep of five misses takes it Down. *)
Lemma link_state_refines_witness :
  let ops := sample_replies 3 ++ [ProbeMisses 2 [2; 2; 2; 2] 3] in
  state (foldl (probe_step SchedulerConfig_default) sample_fresh (sample_replies 3)) = Up ∧
  tracks_history (foldl (probe_step SchedulerConfig_default) sample_fresh ops) Down
    ([false; false; false; false; false] ++ [true; true; true]).
Proof.
  split; [vm_compute; reflexivity|].
  exact (proj1 (link_state_refines SchedulerConfig_default sample_fresh
                  (sample_replies 3 ++ [ProbeMisses 2 [2; 2; 2; 2] 3])
                  eq_refl eq_refl eq_refl eq_refl)).
Defined.

(** ** Every probe is counted once *)

Inductive tracker_op :=
  | TSend (now seq : Z)
  | TReply (now seq : Z)
  | TSweep (now : Z).

(** The replies matched and the misses swept so far. *)
Record tally := mkTally { tracker : ProbeTracker; hits : nat; swept : nat }.

Definition tracker_step (c : tally) (op : tracker_op) : tally :=
  match op with
  | TSend now seq => mkTally (record_sent now seq (tracker c)) (hits c) (swept c)
  | TReply now seq =>
      let '(t, r) := record_reply now seq (tracker c) in
      mkTally t (match r with Some _ => S (hits c) | None => hits c end) (swept c)
  | TSweep now =>
      let '(t, n) := sweep_timeouts now (tracker c) in
      mkTally t (hits c) (swept c + n)
  end.

Definition sends (ops : list tracker_op) : list Z :=
  omap (λ op, match op with TSend _ seq => Some seq | _ => None end) ops.

(** Every probe that was sent is accounted for exactly once, as a matched
    reply, a timed-out miss or a probe still outstanding; a reply is matched
    only to a probe that was sent, and only once; what a sweep leaves has not
    timed out. *)
Theorem probes_accounted t ops :
  NoDup (sends ops) →
  let c := foldl tracker_step (mkTally (ProbeTracker_new t) 0 0) ops in
  length (sends ops) = (hits c + swept c + size (outstanding (tracker c)))%nat ∧
  (∀ seq, is_Some (outstanding (tracker c) !! seq) → seq ∈ sends ops) ∧
  (∀ now seq rtt, (record_reply now seq (tracker c)).2 = Some rtt →
     seq ∈ sends ops ∧ (record_reply now seq (record_reply now seq (tracker c)).1).2 = None) ∧
  (∀ now seq at_, outstanding (sweep_timeouts now (tracker c)).1 !! seq = Some at_ →
     sat_sub now at_ < timeout (tracker c)).
Proof.
  intros Hnd c.
  assert (length (sends ops) = (hits c + swept c + size (outstanding (tracker c)))%nat ∧
          ∀ seq, is_Some (outstanding (tracker c) !! seq) → seq ∈ sends ops) as [Hlen Hsub].
  { subst c. induction ops as [|op ops IH] using rev_ind.
    { cbn. split; [by rewrite map_size_empty|]. intros seq. rewrite lookup_empty. by intros []. }
    unfold sends in Hnd |- *. rewrite omap_app in Hnd |- *. fold (sends ops) in Hnd |- *.
    apply NoDup_app in Hnd as (Hnd & Hdis & _). destruct (IH Hnd) as [Hlen Hsub].
    rewrite foldl_app. cbn [foldl]. set (c := foldl tracker_step _ ops) in *. clearbody c.
    destruct op as [now seq|now seq|now]; cbn [tracker_step omap list_omap].
    - rewrite length_app. cbn. assert (outstanding (tracker c) !! seq = None) as Hn.
      { apply eq_None_not_Some. intros H%Hsub. by apply (Hdis seq H), list_elem_of_here. }
      rewrite map_size_insert_None by done. split; [lia|].
      intros s [at_ Hs]. apply elem_of_app. destruct (decide (s = seq)) as [->|].
      + right. apply list_elem_of_here.
      + left. apply Hsub. rewrite lookup_insert_ne in Hs by done. by exists at_.
    - rewrite app_nil_r. unfold record_reply.
      destruct (outstanding (tracker c) !! seq) as [at_|] eqn:E; cbn; [|by split].
      rewrite map_size_delete_Some by done.
      assert (size (outstanding (tracker c)) ≠ 0%nat).
      { intros H0%map_size_empty_inv. rewrite H0 in E. by rewrite lookup_empty in E. }
      split; [lia|]. intros s [x Hs]. apply Hsub. apply lookup_delete_Some in Hs as [_ Hs].
      by exists x.
    - rewrite app_nil_r. unfold sweep_timeouts. cbn.
      pose proof (map_size_filter (λ kv : Z * Z, sat_sub now kv.2 < timeout (tracker c))
                    (outstanding (tracker c))).
      split; [lia|]. intros s [x Hs]. apply map_lookup_filter_Some in Hs as [Hs _].
      apply Hsub. by exists x. }
  split_and!; [done..| |].
  - intros now seq rtt. unfold record_reply at 1 3.
    destruct (outstanding (tracker c) !! seq) as [at_|] eqn:E; [|done]. intros _.
    split; [apply Hsub; by exists at_|]. cbn. unfold record_reply. cbn.
    by rewrite lookup_delete_eq.
  - intros now seq at_ Hs. cbn in Hs. by apply map_lookup_filter_Some in Hs as [_ Hs].
Qed.

Lemma probes_accounted_witness :
  let ops := [TSend 0 1; TSend 5 2; TSend 7 3; TReply 8 1; TReply 9 1; TSweep 106] in
  let c := foldl tracker_step (mkTally (ProbeTracker_new 100) 0 0) ops in
  3%nat = (hits c + swept c + size (outstanding (tracker c)))%nat.
Proof.
  apply (probes_accounted 100
    [TSend 0 1; TSend 5 2; TSend 7 3; TReply 8 1; TReply 9 1; TSweep 106]).
  apply (bool_decide_unpack _). vm_compute. exact I.
Defined.
