(* ===== verification/Congestion.v ===== *)
(** * Congestion tracking ([congestion.rs])

    The factor that scales a link's weight by its queue delay. Times are
    nanoseconds; [mono_us] is a parameter of [read]. *)

From Stdlib Require Import SpecFloat.
From S2P Require Import Prelude Bytes F64 Rounding Configuration ProbeHistory Link.

Module congestion.

Definition MIN_FACTOR : f64 := f64.lit 1 10.
Definition QUEUE_FULL_CAP : f64 := f64.lit 3 10.
Definition SEND_FAILED_CAP : f64 := f64.lit 25 100.
Definition RECOVERY_PER_SEC : f64 := f64.lit 15 100.
Definition HOLD_DOWN : Z := nanos_of_secs 1.
Definition MIN_WINDOW : Z := 50 * 1000000.
Definition DEGRADED_BELOW : f64 := f64.lit 7 10.

Definition ANCHORS : list (f64 * f64) :=
  [(f64.of_Z 1000, f64.one); (f64.of_Z 5000, f64.lit 8 10); (f64.of_Z 20000, f64.lit 3 10);
   (f64.of_Z 60000, MIN_FACTOR); (f64.MAX, MIN_FACTOR)].

(** The loop over [ANCHORS.windows(2)]. *)
Fixpoint interpolate (d : f64) (anchors : list (f64 * f64)) : f64 :=
  match anchors with
  | (x0, y0) :: (((x1, y1) :: _) as rest) =>
      if (d <=? x1)%f64 then (y0 + (y1 - y0) * (d - x0) / (x1 - x0))%f64
      else interpolate d rest
  | _ => MIN_FACTOR
  end.

Definition delay_target (delay_us : Z) : f64 :=
  let d := f64.of_Z delay_us in
  if (d <=? f64.of_Z 1000)%f64 then f64.one else interpolate d ANCHORS.

Definition next_factor (current target dt_secs : f64) (held : bool) : f64 :=
  let target := f64.clamp target MIN_FACTOR f64.one in
  if (target <? current)%f64 then target
  else if held then current
  else f64.min (current + RECOVERY_PER_SEC * dt_secs)%f64 target.

Record CounterSnapshot := mkSnapshot {
  delay_sum_us : Z;
  delay_samples : Z;
  cs_send_wait_sum_us : Z;
  cs_send_wait_samples : Z;
  cs_queue_full : Z;
  cs_send_failed : Z;
  stall_us : Z }.

Definition CounterSnapshot_default : CounterSnapshot := mkSnapshot 0 0 0 0 0 0 0.

Definition read (mono_us : Z) (c : TxCounters) : CounterSnapshot :=
  let last := last_progress_us c in
  let stall := if negb (last =? 0) && (0 <? depth c) then sat_sub mono_us last else 0 in
  mkSnapshot (queue_delay_sum_us c) (queue_delay_samples c) (send_wait_sum_us c)
    (send_wait_samples c) (queue_full c) (send_failed c) stall.

(** [sum.wrapping_sub(prev_sum).checked_div(n.wrapping_sub(prev_n))]. *)
Definition mean_delta (sum prev_sum n prev_n : Z) : Z :=
  let k := wrap 64 (n - prev_n) in
  if k =? 0 then 0 else wrap 64 (sum - prev_sum) / k.

Record CongestionTracker := mkTracker {
  factor : f64;
  last_update : option Z;
  last_drop : option Z;
  prev : CounterSnapshot;
  delay_recent_us : Z;
  send_wait_recent : Z }.

Definition CongestionTracker_default : CongestionTracker :=
  mkTracker f64.one None None CounterSnapshot_default 0 0.

Definition update (now : Z) (cur : CounterSnapshot) (t : CongestionTracker) : CongestionTracker :=
  match last_update t with
  | None => mkTracker (factor t) (Some now) (last_drop t) cur (delay_recent_us t)
              (send_wait_recent t)
  | Some last =>
      let dt := sat_sub now last in
      if dt <? MIN_WINDOW then t
      else
        let p := prev t in
        let avg_delay := mean_delta (delay_sum_us cur) (delay_sum_us p)
                           (delay_samples cur) (delay_samples p) in
        let wait := mean_delta (cs_send_wait_sum_us cur) (cs_send_wait_sum_us p)
                      (cs_send_wait_samples cur) (cs_send_wait_samples p) in
        let delay := Z.max avg_delay (stall_us cur) in
        let target := delay_target delay in
        let target := if negb (cs_queue_full cur =? cs_queue_full p)
                      then f64.min target QUEUE_FULL_CAP else target in
        let target := if negb (cs_send_failed cur =? cs_send_failed p)
                      then f64.min target SEND_FAILED_CAP else target in
        let held := match last_drop t with
                    | Some d => sat_sub now d <? HOLD_DOWN | None => false end in
        let next := next_factor (factor t) target (f64.as_secs_f64 dt) held in
        let drop := if (next <? factor t)%f64 then Some now else last_drop t in
        mkTracker next (Some now) drop cur delay wait
  end.

End congestion.
Import congestion.

(** ** The factor stays in range *)

(** No target is a NaN, for any delay a [u64] can hold. *)
Lemma delay_target_defined n : 0 ≤ n < 2 ^ 64 → f64.is_nan (delay_target n) = false.
Proof.
  intros Hn. unfold delay_target.
  assert (below 65 (f64.of_Z n)) as Hd.
  { change 65 with (64 + 1). apply of_Z_below; lia. }
  destruct (f64.of_Z n <=? f64.of_Z 1000)%f64; [done|].
  generalize dependent (f64.of_Z n). intros d Hd.
  assert (∀ x0, below 65 x0 → is_finite (d - x0)%f64 = true) as Hsub.
  { intros x0 Hx. eapply below_finite, (sub_below d x0 65); [lia|done..]. }
  assert (∀ x0 y0 k c, below 65 x0 → is_finite y0 = true → is_finite c = true →
            positive_finite k → f64.is_nan (y0 + c * (d - x0) / k)%f64 = false) as H.
  { intros x0 y0 k c Hx Hy Hc Hk.
    assert (f64.is_nan (c * (d - x0) / k)%f64 = false) as Hq.
    { apply div_not_nan; [|done]. apply mul_not_nan; [done|by apply Hsub]. }
    revert Hq. generalize (c * (d - x0) / k)%f64. intros q Hq.
    destruct y0 as [[]|[]| |sy my ey], q as [[]|[]| |sq mq eq]; try done. apply normalize_not_nan. }
  unfold ANCHORS. cbn [interpolate].
  repeat (destruct (d <=? _)%f64; [apply H; [vm_compute; congruence|reflexivity..|];
                                   vm_compute; by eexists _, _|]).
  reflexivity.
Qed.

Lemma min_factor_le_one : fle MIN_FACTOR f64.one.
Proof. reflexivity. Qed.

Lemma within_positive x : within MIN_FACTOR f64.one x → positive_finite x.
Proof.
  intros [H1 H2]. destruct x as [[]|[]| |[] m e]; try done. by eexists _, _.
Qed.

Definition ranged (x : f64) : Prop := within MIN_FACTOR f64.one x ∧ wf x = true.

Lemma delay_target_wf n : wf (delay_target n) = true.
Proof.
  unfold delay_target. destruct (_ <=? _)%f64; [reflexivity|]. unfold ANCHORS. cbn [interpolate].
  repeat (destruct (_ <=? _)%f64; [apply add_wf; [reflexivity|apply div_wf]|]).
  reflexivity.
Qed.

(** One step of the filter keeps the factor in range. *)
Lemma next_factor_ranged current target dt held :
  ranged current → f64.is_nan target = false → wf target = true → nonneg dt →
  ranged (next_factor current target dt held).
Proof.
  intros [Hc Hw] Ht Htw Hdt. unfold next_factor.
  pose proof (clamp_within MIN_FACTOR f64.one target Ht min_factor_le_one) as Hcl.
  pose proof (clamp_wf target MIN_FACTOR f64.one Htw eq_refl eq_refl) as Hclw.
  destruct (_ <? current)%f64; [by split|]. destruct held; [by split|].
  destruct (add_ge current (RECOVERY_PER_SEC * dt)%f64) as [Hge Haw];
    [by apply within_positive|done|apply nonneg_mul; [vm_compute; by eexists _, _|done]|].
  split; [|by apply min_wf]. apply min_within; [|done].
  eapply fle_trans; [apply Hc|done].
Qed.

Definition snapshot_ok (s : CounterSnapshot) : Prop := 0 ≤ stall_us s < 2 ^ 64.

Lemma mean_delta_u64 a b c d : 0 ≤ mean_delta a b c d < 2 ^ 64.
Proof.
  unfold mean_delta, wrap. destruct (Z.eqb_spec ((c - d) mod 2 ^ 64) 0); [lia|].
  pose proof (Z.mod_pos_bound (a - b) (2 ^ 64) ltac:(lia)).
  pose proof (Z.mod_pos_bound (c - d) (2 ^ 64) ltac:(lia)).
  split; [apply Z.div_pos; lia|]. apply Z.div_lt_upper_bound; [lia|]. nia.
Qed.

Lemma update_ranged now cur t :
  ranged (factor t) → snapshot_ok cur → ranged (factor (update now cur t)).
Proof.
  intros Hf Hcur. unfold update. destruct (last_update t) as [last|]; [|done].
  destruct (_ <? MIN_WINDOW); [done|]. cbn [factor].
  pose proof (mean_delta_u64 (delay_sum_us cur) (delay_sum_us (prev t)) (delay_samples cur)
                (delay_samples (prev t))). unfold snapshot_ok in Hcur.
  set (delay := Z.max _ (stall_us cur)).
  pose proof (delay_target_defined delay ltac:(lia)). pose proof (delay_target_wf delay).
  apply next_factor_ranged; [done| | |apply nonneg_secs; unfold sat_sub; lia].
  - repeat case_match; by repeat apply min_not_nan.
  - repeat case_match; by repeat apply min_wf.
Qed.

(** The next factor is not above a cap on its target. *)
Lemma next_factor_capped current target dt held cap :
  within MIN_FACTOR f64.one current → f64.is_nan target = false → fle target cap →
  fle MIN_FACTOR cap → fle (next_factor current target dt held) cap.
Proof.
  intros Hc Ht Hle Hcap. unfold next_factor.
  pose proof (clamp_within MIN_FACTOR f64.one target Ht min_factor_le_one) as [Hcl _].
  assert (fle (f64.clamp target MIN_FACTOR f64.one) cap) as Hcle.
  { by apply clamp_le. }
  destruct (fle_not_nan _ _ Hcle) as [Hn _]. destruct (fle_not_nan _ _ (proj1 Hc)) as [_ Hcn].
  destruct (_ <? current)%f64 eqn:E; [done|]. destruct held.
  - eapply fle_trans; [apply (not_flt _ _ Hn Hcn E)|done].
  - unfold f64.min. rewrite Hn. destruct (f64.is_nan (current + _)%f64) eqn:En; [done|].
    destruct (f64.clamp target MIN_FACTOR f64.one <? current + RECOVERY_PER_SEC * dt)%f64 eqn:E2;
      [done|]. eapply fle_trans; [apply (not_flt _ _ Hn En E2)|done].
Qed.

(** ** Behaviour over time *)

(** A tracker reached by updates at clock readings that do not go back. *)
Inductive congestion_reach : Z → CongestionTracker → Prop :=
  | congestion_new t : congestion_reach t CongestionTracker_default
  | congestion_next t tr now cur :
      congestion_reach t tr → t ≤ now → snapshot_ok cur →
      congestion_reach now (update now cur tr).

(** In every reachable state the congestion factor is in [0.1, 1], an
    update never raises it within a second of a drop, and a window with a queue
    overflow or a send failure leaves it at most 0.3 or 0.25. *)
Theorem congestion_factor_invariant t tr now cur :
  congestion_reach t tr → t ≤ now → snapshot_ok cur →
  let tr' := update now cur tr in
  within MIN_FACTOR f64.one (factor tr) ∧ within MIN_FACTOR f64.one (factor tr') ∧
  (∀ d, last_drop tr = Some d → now - d < HOLD_DOWN → fle (factor tr') (factor tr)) ∧
  (∀ last, last_update tr = Some last → MIN_WINDOW ≤ now - last →
     (cs_queue_full cur ≠ cs_queue_full (prev tr) → fle (factor tr') QUEUE_FULL_CAP) ∧
     (cs_send_failed cur ≠ cs_send_failed (prev tr) → fle (factor tr') SEND_FAILED_CAP)).
Proof.
  intros Hr Hn Hcur tr'.
  assert (ranged (factor tr)) as Hf.
  { clear -Hr. induction Hr; [done|]. by apply update_ranged. }
  pose proof (update_ranged now cur tr Hf Hcur) as Hf'. fold tr' in Hf'.
  split_and!; [apply Hf|apply Hf'| |].
  - intros d Hd Hh. destruct Hf as [[Hlo Hhi] _]. destruct (fle_not_nan _ _ Hlo) as [_ Hnn].
    pose proof (fle_refl _ Hnn). unfold tr', update.
    destruct (last_update tr); [|done]. destruct (_ <? MIN_WINDOW); [done|]. cbn [factor].
    assert (0 < HOLD_DOWN) by done.
    rewrite Hd, (proj2 (Z.ltb_lt _ _)) by (unfold sat_sub; lia).
    unfold next_factor. destruct (_ <? factor tr)%f64 eqn:E; [by apply flt_le|done].
  - intros last Hl Hw.
    unfold tr', update. rewrite Hl.
    rewrite (proj2 (Z.ltb_ge _ _)) by (unfold sat_sub; lia). cbn [factor].
    pose proof (mean_delta_u64 (delay_sum_us cur) (delay_sum_us (prev tr)) (delay_samples cur)
                  (delay_samples (prev tr))). unfold snapshot_ok in Hcur.
    set (delay := Z.max _ (stall_us cur)).
    pose proof (delay_target_defined delay ltac:(lia)) as Hd.
    split; intros Hne; rewrite (proj2 (Z.eqb_neq _ _) Hne); cbn [negb].
    + destruct (negb _).
      * apply next_factor_capped; [apply Hf|by repeat apply min_not_nan| |done].
        eapply fle_trans; [apply min_le_l; [by apply min_not_nan|done]|by apply min_le_r].
      * apply next_factor_capped; [apply Hf|by apply min_not_nan|by apply min_le_r|done].
    + apply next_factor_capped; [apply Hf| |apply min_le_r; [|done]|done];
        [apply min_not_nan|]; case_match; by try apply min_not_nan.
Qed.

Lemma congestion_factor_invariant_witness :
  let tr := update 0 CounterSnapshot_default CongestionTracker_default in
  let tr' := update (nanos_of_secs 1) (mkSnapshot 0 0 0 0 1 0 0) tr in
  within MIN_FACTOR f64.one (factor tr) ∧ within MIN_FACTOR f64.one (factor tr') ∧
  fle (factor tr') QUEUE_FULL_CAP.
Proof.
  destruct (congestion_factor_invariant 0 (update 0 CounterSnapshot_default CongestionTracker_default)
              (nanos_of_secs 1) (mkSnapshot 0 0 0 0 1 0 0)) as (H1 & H2 & _ & H3).
  - apply congestion_next with 0; [apply congestion_new|lia|by vm_compute].
  - by vm_compute.
  - by vm_compute.
  - split; [exact H1|split; [exact H2|]]. apply (H3 0); [reflexivity|by vm_compute|discriminate].
Defined.
