(* ===== verification/Delivery.v ===== *)
(** * Delivery feedback ([delivery.rs])

    The byte-delta windows over peer reports, the per-link delivery tracker
    with its Normal, HoldDown and Recovering phases, the table of peer reports
    ([peerstats.rs]) and the sample selection of [delivery_loop] in
    [tunnel.rs]. Times are nanoseconds of one clock. *)

From Stdlib Require Import SpecFloat.
From S2P Require Import Prelude Bytes Protocol F64 Rounding Configuration ProbeHistory Link.

Module delivery.

Definition MIN_FACTOR : f64 := f64.lit 1 1000.
Definition MIN_OFFERED_MBPS : f64 := f64.lit 25 100.
Definition BAD_RATIO : f64 := f64.lit 85 100.
Definition SEVERE_RATIO : f64 := f64.lit 3 10.
Definition MIN_SHORTFALL_MBPS : f64 := f64.lit 1 10.
Definition CUT_MARGIN : f64 := f64.lit 9 10.
Definition SETTLE_WINDOWS : Z := 3.
Definition HOLD_BASE : Z := nanos_of_secs 5.
Definition HOLD_MAX : Z := nanos_of_secs 60.
Definition RECOVER_PER_SEC : f64 := f64.lit 10 100.
Definition CLEAN_WINDOWS_TO_GROW : Z := 2.
Definition STALE_AFTER : Z := nanos_of_secs 3.
Definition RESET_AFTER : Z := nanos_of_secs 60.
Definition IDLE_AFTER : Z := 2500 * 1000000.
Definition MIN_WINDOW : Z := 200 * 1000000.
Definition DEGRADED_BELOW : f64 := f64.lit 7 10.

Inductive Phase := Normal | HoldDown | Recovering.
Global Instance Phase_eq_dec : EqDecision Phase.
Proof. solve_decision. Defined.

Record DeliverySample := mkSample {
  offered_mbps : f64;
  delivered_mbps : f64;
  sample_stamp : Z }.

Record Report := mkReport {
  stamp : Z;
  peer_rx_bytes : Z;
  local_tx_bytes : Z }.

Record ReportWindow := mkReportWindow {
  prev : option Report;
  last : option DeliverySample }.

Definition ReportWindow_default : ReportWindow := mkReportWindow None None.
Definition ReportWindow_reset (w : ReportWindow) : ReportWindow := mkReportWindow None None.

(** The closure [mbps] of [observe]. *)
Definition mbps (dt bytes : Z) : f64 :=
  (f64.of_Z bytes * f64.of_Z 8 / f64.as_secs_f64 dt / f64.of_Z 1000000)%f64.

Definition ReportWindow_observe (r : Report) (w : ReportWindow)
    : ReportWindow * option DeliverySample :=
  match prev w with
  | None => (mkReportWindow (Some r) (last w), None)
  | Some p =>
      if stamp p =? stamp r then (w, last w)
      else
        let dt := sat_sub (stamp r) (stamp p) in
        if (peer_rx_bytes r <? peer_rx_bytes p) || (local_tx_bytes r <? local_tx_bytes p)
           || (dt <? MIN_WINDOW) || (STALE_AFTER <? dt)
        then (mkReportWindow (Some r) None, None)
        else
          let s := mkSample (mbps dt (local_tx_bytes r - local_tx_bytes p))
                     (mbps dt (peer_rx_bytes r - peer_rx_bytes p)) (stamp r) in
          (mkReportWindow (Some r) (Some s), Some s)
  end.

Record DeliveryTracker := mkTracker {
  factor : f64;
  phase : Phase;
  last_stamp : option Z;
  last_tick : option Z;
  bad_windows : Z;
  clean_windows : Z;
  settle_left : Z;
  hold_until : option Z;
  hold : Z;
  healthy_since : option Z }.

Definition DeliveryTracker_default : DeliveryTracker :=
  mkTracker f64.one Normal None None 0 0 0 None HOLD_BASE None.

(** Assignments of single fields. *)
Definition set_phase (p : Phase) (t : DeliveryTracker) : DeliveryTracker :=
  mkTracker (factor t) p (last_stamp t) (last_tick t) (bad_windows t) (clean_windows t)
    (settle_left t) (hold_until t) (hold t) (healthy_since t).
Definition set_tick (now : Z) (t : DeliveryTracker) : DeliveryTracker :=
  mkTracker (factor t) (phase t) (last_stamp t) (Some now) (bad_windows t) (clean_windows t)
    (settle_left t) (hold_until t) (hold t) (healthy_since t).
Definition set_stamp (s : Z) (t : DeliveryTracker) : DeliveryTracker :=
  mkTracker (factor t) (phase t) (Some s) (last_tick t) (bad_windows t) (clean_windows t)
    (settle_left t) (hold_until t) (hold t) (healthy_since t).
Definition set_windows (bad clean settle : Z) (t : DeliveryTracker) : DeliveryTracker :=
  mkTracker (factor t) (phase t) (last_stamp t) (last_tick t) bad clean settle
    (hold_until t) (hold t) (healthy_since t).
Definition set_factor (f : f64) (t : DeliveryTracker) : DeliveryTracker :=
  mkTracker f (phase t) (last_stamp t) (last_tick t) (bad_windows t) (clean_windows t)
    (settle_left t) (hold_until t) (hold t) (healthy_since t).
Definition set_healthy (h : option Z) (t : DeliveryTracker) : DeliveryTracker :=
  mkTracker (factor t) (phase t) (last_stamp t) (last_tick t) (bad_windows t)
    (clean_windows t) (settle_left t) (hold_until t) (hold t) h.
Definition set_hold (d : Z) (t : DeliveryTracker) : DeliveryTracker :=
  mkTracker (factor t) (phase t) (last_stamp t) (last_tick t) (bad_windows t)
    (clean_windows t) (settle_left t) (hold_until t) d (healthy_since t).

Definition cut (now : Z) (ratio : f64) (t : DeliveryTracker) : DeliveryTracker :=
  let h := if bool_decide (phase t = Recovering) then Z.min (hold t * 2) HOLD_MAX
           else hold t in
  mkTracker (f64.clamp (factor t * ratio * CUT_MARGIN)%f64 MIN_FACTOR f64.one) HoldDown
    (last_stamp t) (last_tick t) 0 0 SETTLE_WINDOWS (Some (now + h)) h None.

Definition window_ratio (s : DeliverySample) : f64 :=
  if (MIN_OFFERED_MBPS <=? offered_mbps s)%f64
  then f64.clamp (delivered_mbps s / offered_mbps s)%f64 f64.zero f64.one
  else f64.one.

Definition window_bad (s : DeliverySample) : bool :=
  (MIN_OFFERED_MBPS <=? offered_mbps s)%f64 && (window_ratio s <? BAD_RATIO)%f64
  && (MIN_SHORTFALL_MBPS <=? offered_mbps s - delivered_mbps s)%f64.

Definition evaluate_window (now : Z) (s : DeliverySample) (t : DeliveryTracker)
    : DeliveryTracker :=
  if 0 <? settle_left t
  then set_windows (bad_windows t) (clean_windows t) (settle_left t - 1) t
  else
    let bad := window_bad s in
    let t := if bad then set_windows (wrap 32 (bad_windows t + 1)) 0 (settle_left t) t
             else set_windows 0 (wrap 32 (clean_windows t + 1)) (settle_left t) t in
    if bad && ((2 <=? bad_windows t) || (window_ratio s <? SEVERE_RATIO)%f64)
    then cut now (window_ratio s) t else t.

(** The first statements of [observe]: the clock, and the end of a hold-down. *)
Definition begin_tick (now : Z) (t : DeliveryTracker) : DeliveryTracker :=
  let t := set_tick now t in
  if bool_decide (phase t = HoldDown)
     && (match hold_until t with None => true | Some h => h <=? now end)
  then set_phase Recovering t else t.

Definition fresh (now : Z) (t : DeliveryTracker) (s : DeliverySample) : bool :=
  bool_decide (last_stamp t ≠ Some (sample_stamp s))
  && (sat_sub now (sample_stamp s) <? STALE_AFTER).

Definition fold_sample (now : Z) (sample : option DeliverySample) (t : DeliveryTracker)
    : DeliveryTracker :=
  match sample with
  | Some s => if fresh now t s then evaluate_window now s (set_stamp (sample_stamp s) t) else t
  | None => set_windows 0 (clean_windows t) (settle_left t) t
  end.

Definition grow (now : Z) (dt : f64) (sample : option DeliverySample) (t : DeliveryTracker)
    : DeliveryTracker :=
  if bool_decide (phase t = Recovering) && (settle_left t =? 0)
     && (bool_decide (sample = None) || (CLEAN_WINDOWS_TO_GROW <=? clean_windows t))
  then
    let t := set_factor (f64.min (factor t * (f64.one + RECOVER_PER_SEC * dt)) f64.one)%f64 t in
    if (f64.one <=? factor t)%f64 then set_healthy (Some now) (set_phase Normal t) else t
  else t.

Definition relax_hold (now : Z) (t : DeliveryTracker) : DeliveryTracker :=
  if bool_decide (phase t = Normal)
     && (match healthy_since t with
         | Some h => RESET_AFTER <=? sat_sub now h | None => false end)
  then set_hold HOLD_BASE t else t.

Definition observe (now : Z) (sample : option DeliverySample) (t : DeliveryTracker)
    : DeliveryTracker :=
  let dt := match last_tick t with
            | None => f64.zero | Some l => f64.as_secs_f64 (sat_sub now l) end in
  relax_hold now (grow now dt sample (fold_sample now sample (begin_tick now t))).

(** ** The peer's reports ([peerstats.rs]) *)

(** [x as f64] for an [f32] given by its bits; exact. *)
Definition f32_as_f64 (bits : Z) : f64 :=
  let s := Z.testbit bits 31 in
  let e := Z.land (Z.shiftr bits 23) 255 in
  let m := Z.land bits (2 ^ 23 - 1) in
  let signed x := if s then - x else x in
  if e =? 255 then (if m =? 0 then S754_infinity s else S754_nan)
  else if e =? 0 then binary_normalize f64.prec f64.emax (signed m) (-149) s
  else binary_normalize f64.prec f64.emax (signed (m + 2 ^ 23)) (e - 150) s.

Record PeerLinkStats := mkPeer {
  p_name : list Z;
  p_rtt_ms : f64;
  p_jitter_ms : f64;
  p_loss_pct : f64;
  p_throughput_mbps : f64;
  p_state : Z;
  p_rx_bytes : option Z;
  p_local_tx_bytes : Z;
  received_at : Z }.

Definition PeerStatsTable := gmap Z PeerLinkStats.

Definition PeerStatsTable_update (now local_idx : Z) (payload : StatsPayload)
    (local_tx : Z) (t : PeerStatsTable) : outcome PeerStatsTable :=
  name ← StatsPayload_name_str payload;
  Ok (<[local_idx :=
         mkPeer name (f32_as_f64 (s_rtt_ms payload)) (f32_as_f64 (s_jitter_ms payload))
           (f32_as_f64 (s_loss_pct payload)) (f32_as_f64 (s_throughput_mbps payload))
           (s_state payload) (s_rx_bytes payload) local_tx now]> t).

Definition PeerStatsTable_get (local_idx : Z) (t : PeerStatsTable) : option PeerLinkStats :=
  t !! local_idx.

(** One link's part of a tick of [delivery_loop]; [now] is when the link's
    last throughput sample is aged. *)
Definition delivery_sample (now : Z) (idx : nat) (l : Link) (t : PeerStatsTable)
    (w : ReportWindow) : ReportWindow * option DeliverySample :=
  let idle := IDLE_AFTER <? sat_sub now (last_tx_throughput_sample (stats l)) in
  let up := bool_decide (state l = Up) in
  match PeerStatsTable_get (wrap 8 (Z.of_nat idx)) t with
  | Some p =>
      if up && negb idle && bool_decide (from_wire (p_state p) = Up) then
        match p_rx_bytes p with
        | Some rx => ReportWindow_observe (mkReport (received_at p) rx (p_local_tx_bytes p)) w
        | None => (ReportWindow_reset w, None)
        end
      else (ReportWindow_reset w, None)
  | None => (ReportWindow_reset w, None)
  end.

End delivery.
Import delivery.

(** ** The invariant *)

Record tracker_inv (t : DeliveryTracker) : Prop := {
  di_range : within MIN_FACTOR f64.one (factor t);
  di_wf : wf (factor t) = true;
  di_normal : phase t = Normal → factor t = f64.one;
  di_hold : HOLD_BASE ≤ hold t ≤ HOLD_MAX;
  di_until : phase t = HoldDown →
             ∃ h n, hold_until t = Some h ∧ last_tick t = Some n ∧ h ≤ n + HOLD_MAX }.

Lemma min_factor_positive x : within MIN_FACTOR f64.one x → positive_finite x.
Proof. intros [H1 H2]. destruct x as [[]|[]| |[] m e]; try done. by eexists _, _. Qed.

Lemma ratio_range s :
  (window_ratio s <? BAD_RATIO)%f64 = true →
  within f64.zero f64.one (window_ratio s) ∧ wf (window_ratio s) = true.
Proof.
  intros Hb. assert (f64.is_nan (window_ratio s) = false) as Hn.
  { apply flt_le in Hb. by apply fle_not_nan in Hb as [Hb _]. }
  unfold window_ratio in *. destruct (_ <=? _)%f64; [|done].
  split; [|apply clamp_wf; [apply div_wf|done..]]. apply clamp_within; [|done].
  destruct (f64.is_nan (delivered_mbps s / offered_mbps s)%f64) eqn:E; [|done].
  by destruct (delivered_mbps s / offered_mbps s)%f64.
Qed.

(** A cut keeps the factor in range and does not raise it. *)
Lemma cut_factor now s t :
  tracker_inv t → (window_ratio s <? BAD_RATIO)%f64 = true →
  let f := factor (cut now (window_ratio s) t) in
  within MIN_FACTOR f64.one f ∧ wf f = true ∧ fle f (factor t).
Proof.
  intros Ht [Hr Hrw]%ratio_range. cbn [cut factor]. pose proof (di_wf t Ht) as Hw.
  pose proof (min_factor_positive _ (di_range t Ht)) as Hp.
  pose proof (mul_le (factor t) (window_ratio s) Hp Hw Hrw Hr) as Hle.
  assert (nonneg (factor t * window_ratio s)%f64) as Hnn by (apply nonneg_mul; [done|apply Hr]).
  pose proof (mul_wf (factor t) (window_ratio s) Hw Hrw) as Hxw.
  revert Hle Hnn Hxw. generalize (factor t * window_ratio s)%f64. intros x Hle Hnn Hxw.
  assert (fle (x * CUT_MARGIN)%f64 (factor t)) as Hfle.
  { apply nonneg_cases in Hnn as [[sx ->]|[->|Hx]].
    - destruct Hp as (m & e & Hm). rewrite Hm. by destruct sx.
    - destruct Hp as (m & e & Hm). by rewrite Hm in Hle.
    - eapply fle_trans; [|done]. by apply mul_le. }
  split_and!.
  - apply clamp_within; [by apply fle_not_nan in Hfle as [? _]|done].
  - apply clamp_wf; [by apply mul_wf|done..].
  - apply clamp_le; [done|apply di_range, Ht].
Qed.

Lemma begin_tick_inv now t :
  tracker_inv t → (∀ n, last_tick t = Some n → n ≤ now) →
  tracker_inv (begin_tick now t) ∧ last_tick (begin_tick now t) = Some now ∧
  factor (begin_tick now t) = factor t.
Proof.
  intros [H1 H2 H3 H4 H5] Hn. unfold begin_tick. cbn [set_tick phase hold_until].
  destruct (bool_decide (phase t = HoldDown)) eqn:E; cbn [andb].
  - apply bool_decide_eq_true in E. destruct (H5 E) as (h & n & Hh & Hl & Hle).
    rewrite Hh. destruct (h <=? now).
    + split; [|done]. by split.
    + split; [|done]. split; try done. intros _. exists h, now. cbn. specialize (Hn n Hl).
      split_and!; [done..|lia].
  - apply bool_decide_eq_false in E. split; [|done]. by split.
Qed.

Lemma cut_inv now s t :
  tracker_inv t → last_tick t = Some now → (window_ratio s <? BAD_RATIO)%f64 = true →
  tracker_inv (cut now (window_ratio s) t).
Proof.
  intros Ht Hl Hb. destruct (cut_factor now s t Ht Hb) as (Hr & Hw & _).
  pose proof (di_hold t Ht) as Hh. assert (HOLD_BASE ≤ HOLD_MAX) by done.
  assert (0 < HOLD_BASE) by done.
  set (h := if bool_decide (phase t = Recovering) then Z.min (hold t * 2) HOLD_MAX else hold t).
  assert (HOLD_BASE ≤ h ≤ HOLD_MAX) by (subst h; case_bool_decide; lia).
  split; [done|done|done|done|]. intros _. exists (now + h), now.
  split_and!; [done|done|lia].
Qed.

(** Folding a sample in cuts the factor or leaves it, and a cut enters a
    hold-down. *)
Lemma fold_sample_inv now sample t :
  tracker_inv t → last_tick t = Some now →
  let t' := fold_sample now sample t in
  tracker_inv t' ∧ last_tick t' = Some now ∧ fle (factor t') (factor t) ∧
  (phase t' = phase t ∧ factor t' = factor t ∧ hold_until t' = hold_until t ∨
   phase t' = HoldDown).
Proof.
  intros Ht Hl t'. pose proof (di_range t Ht) as [_ Hx]. apply fle_not_nan in Hx as [Hx _].
  pose proof (fle_refl _ Hx) as Hrefl.
  assert (∀ b c k x, let u := set_windows b c k (match x with Some x => set_stamp x t | None => t end) in
            tracker_inv u ∧ last_tick u = Some now ∧ fle (factor u) (factor t) ∧
            (phase u = phase t ∧ factor u = factor t ∧ hold_until u = hold_until t ∨
             phase u = HoldDown)) as Hsame.
  { intros b c k x u. destruct Ht. subst u. destruct x; cbn.
    all: split; [by split|]. all: split; [done|]. all: split; [done|by left]. }
  subst t'. unfold fold_sample. destruct sample as [s|]; [|apply (Hsame _ _ _ None)].
  destruct (fresh now t s); [|by split_and!; auto]. unfold evaluate_window. cbn [settle_left set_stamp].
  destruct (0 <? settle_left t); [apply (Hsame _ _ _ (Some _))|].
  destruct (window_bad s) eqn:Eb; cbn [andb]; [|apply (Hsame _ _ _ (Some _))].
  set (u := set_windows _ _ _ _).
  destruct (_ || _); [|apply (Hsame _ _ _ (Some _))].
  unfold window_bad in Eb. apply andb_true_iff in Eb as [Eb _]. apply andb_true_iff in Eb as [_ Eb].
  destruct (Hsame (wrap 32 (bad_windows t + 1)) 0 (settle_left t) (Some (sample_stamp s)))
    as (Hu & Hul & _). fold (set_stamp (sample_stamp s) t) in Hu. change (tracker_inv u) in Hu.
  split; [by apply cut_inv|]. split; [done|].
  split; [|by right]. change (factor t) with (factor u). by apply cut_factor.
Qed.

Lemma grow_inv now dt sample t :
  tracker_inv t → nonneg dt → tracker_inv (grow now dt sample t).
Proof.
  intros Ht Hdt. unfold grow. destruct (_ && _) eqn:E; [|done].
  apply andb_true_iff in E as [[E _]%andb_true_iff _]. apply bool_decide_eq_true in E.
  pose proof Ht as [H1 H2 _ H4 _]. pose proof (min_factor_positive _ H1) as Hp.
  destruct (add_ge f64.one (RECOVER_PER_SEC * dt)%f64) as [Hge Hgw];
    [by vm_compute; eexists _, _|done|apply nonneg_mul; [by vm_compute; eexists _, _|done]|].
  destruct (mul_ge (factor t) _ Hp H2 Hgw Hge) as [Hm Hmw].
  revert Hm Hmw. cbn [set_factor factor].
  generalize (factor t * (f64.one + RECOVER_PER_SEC * dt))%f64. intros x Hm Hmw.
  assert (within MIN_FACTOR f64.one (f64.min x f64.one)) as Hr.
  { apply min_within; [|done]. eapply fle_trans; [apply H1|done]. }
  assert (wf (f64.min x f64.one) = true) as Hw by by apply min_wf.
  destruct (f64.one <=? f64.min x f64.one)%f64 eqn:Eo.
  - split; cbn; try done. intros _. symmetry. apply fle_antisym; [by vm_compute; eexists _, _|done|].
    apply Hr.
  - split; cbn; try done; rewrite E; done.
Qed.

Lemma relax_inv now t : tracker_inv t → tracker_inv (relax_hold now t).
Proof.
  intros [H1 H2 H3 H4 H5]. unfold relax_hold. destruct (_ && _) eqn:E; [|by split].
  by split.
Qed.

Lemma relax_same now t :
  factor (relax_hold now t) = factor t ∧ phase (relax_hold now t) = phase t ∧
  last_tick (relax_hold now t) = last_tick t.
Proof. unfold relax_hold. by case_match. Qed.

Lemma grow_tick now dt sample t : last_tick (grow now dt sample t) = last_tick t.
Proof. unfold grow. cbv zeta. by repeat case_match. Qed.

(** A tracker reached by ticks of the loop at clock readings that do not go
    back, [t] the last one. *)
Inductive delivery_reach : Z → DeliveryTracker → Prop :=
  | delivery_new t : delivery_reach t DeliveryTracker_default
  | delivery_next t tr now sample :
      delivery_reach t tr → t ≤ now → delivery_reach now (observe now sample tr).

Lemma observe_inv now sample t :
  tracker_inv t → (∀ n, last_tick t = Some n → n ≤ now) →
  tracker_inv (observe now sample t) ∧ last_tick (observe now sample t) = Some now.
Proof.
  intros Ht Hn. unfold observe. destruct (begin_tick_inv now t Ht Hn) as (Hb & Hbl & _).
  destruct (fold_sample_inv now sample _ Hb Hbl) as (Hf & Hfl & _).
  split.
  - apply relax_inv, grow_inv; [done|]. destruct (last_tick t); [|done].
    apply nonneg_secs. unfold sat_sub. lia.
  - by rewrite (proj2 (proj2 (relax_same now _))), grow_tick.
Qed.

Lemma delivery_reach_inv t tr :
  delivery_reach t tr → tracker_inv tr ∧ (∀ n, last_tick tr = Some n → n ≤ t).
Proof.
  induction 1 as [t|t tr now sample _ [IH IHn] Hle].
  - split; [|done]. by split.
  - destruct (observe_inv now sample tr IH) as [Hi Hl]; [intros n Hn; specialize (IHn n Hn); lia|].
    split; [done|]. intros n Hn. rewrite Hl in Hn. injection Hn as <-. lia.
Qed.

(** In every reachable state of a delivery tracker the factor is in
    [0.001, 1] and is 1 in the Normal phase, the hold time is between 5 s and
    60 s and a hold-down ends within 60 s. Until the end of a hold-down the link
    stays held and its factor does not rise; outside it the factor rises only in
    recovery with no settling windows left, when the link is idle or the last two
    windows were clean. *)
Theorem delivery_phase_invariant t tr now sample :
  delivery_reach t tr → t ≤ now →
  let tr' := observe now sample tr in
  tracker_inv tr ∧ tracker_inv tr' ∧
  (∀ h, phase tr = HoldDown → hold_until tr = Some h → now < h →
     phase tr' = HoldDown ∧ fle (factor tr') (factor tr)) ∧
  (flt (factor tr) (factor tr') →
     phase tr ≠ Normal ∧ settle_left tr' = 0 ∧
     (sample = None ∨ CLEAN_WINDOWS_TO_GROW ≤ clean_windows tr')).
Proof.
  intros Hr Hle tr'. destruct (delivery_reach_inv t tr Hr) as [Hi Hn].
  assert (∀ n, last_tick tr = Some n → n ≤ now) as Hn' by (intros n Hx; specialize (Hn n Hx); lia).
  split; [done|]. split; [by apply observe_inv|].
  destruct (begin_tick_inv now tr Hi Hn') as (Hb & Hbl & Hbf).
  destruct (fold_sample_inv now sample _ Hb Hbl) as (Hf & Hfl & Hff & Hcase).
  rewrite Hbf in Hff. subst tr'. unfold observe. set (dt := match last_tick tr with None => _ | _ => _ end).
  set (u := fold_sample now sample (begin_tick now tr)) in *.
  split.
  - intros h Hp Hh Hlt. assert (phase (begin_tick now tr) = HoldDown) as Hp'.
    { unfold begin_tick. cbn [set_tick phase hold_until]. rewrite Hh, (proj2 (Z.leb_gt h now)) by done.
      by rewrite andb_false_r. }
    assert (phase u = HoldDown) as Hu by (destruct Hcase as [(E & _)|E]; congruence).
    destruct (relax_same now (grow now dt sample u)) as (-> & -> & _).
    unfold grow. by rewrite Hu.
  - destruct (relax_same now (grow now dt sample u)) as (-> & _ & _). intros Hlt.
    assert (∀ a b, fle b a → flt a b → False) as Hirr.
    { intros a b (x & y & Hx & Hy & H)%fle_rank (x' & y' & Hx' & Hy' & H')%flt_rank.
      rewrite Hx in Hy'. rewrite Hy in Hx'. simplify_eq. unfold lex_lt in *. destruct H as [H|H]; [lia|]. subst. lia. }
    revert Hlt. unfold grow. destruct (_ && _) eqn:E; [|intros H; destruct (Hirr _ _ Hff H)].
    apply andb_true_iff in E as [[E1 E2]%andb_true_iff E3]. apply bool_decide_eq_true in E1.
    apply Z.eqb_eq in E2. intros Hlt. split; [|split].
    + intros Hnorm. destruct Hcase as [(Hc & _)|Hc]; [|congruence].
      rewrite E1 in Hc. unfold begin_tick in Hc. cbn [set_tick phase hold_until] in Hc.
      rewrite bool_decide_eq_false_2 in Hc by congruence. cbn in Hc. congruence.
    + unfold relax_hold. cbv zeta. by repeat case_match.
    + apply orb_true_iff in E3 as [E3|E3]; [left; by apply bool_decide_eq_true in E3|right].
      apply Z.leb_le in E3. unfold relax_hold. cbv zeta. by repeat case_match.
Qed.

(** A policed link: a severe window cuts, and the hold-down is in force. *)
Definition policed (at_ : Z) : DeliverySample := mkSample (f64.of_Z 100) (f64.of_Z 2) at_.
Definition cut_tracker : DeliveryTracker :=
  observe (nanos_of_secs 1) (Some (policed (nanos_of_secs 1))) DeliveryTracker_default.

Lemma delivery_phase_invariant_witness :
  phase cut_tracker = HoldDown ∧
  phase (observe (nanos_of_secs 2) None cut_tracker) = HoldDown ∧
  fle (factor (observe (nanos_of_secs 2) None cut_tracker)) (factor cut_tracker).
Proof.
  split; [reflexivity|].
  destruct (delivery_phase_invariant (nanos_of_secs 1) cut_tracker (nanos_of_secs 2) None)
    as (_ & _ & H & _).
  - apply delivery_next with 0; [apply delivery_new|by vm_compute].
  - by vm_compute.
  - apply (H (nanos_of_secs 6)); by vm_compute.
Defined.
