(* ===== verification/Scheduler.v ===== *)
(** * The scheduler ([scheduler.rs])

    Smooth weighted round robin over the links that are Up, with bandwidth
    caps, short penalties, the congestion and delivery factors and the primary
    link. Link indices are [nat]; times are nanoseconds. [clock] gives the
    reading of [Instant::now] at the check of an entry's cap, by position, and
    at [length entries] the one of the penalty check. *)

From Stdlib Require Import SpecFloat.
From S2P Require Import Prelude Bytes F64 Rounding Configuration ProbeHistory Link Congestion Delivery.

(** [Iterator::max_by] keeps the last of the largest, [min_by] the first of the
    smallest. *)
Definition max_by {A} (cmp : A → A → comparison) (l : list A) : option A :=
  match l with
  | [] => None
  | x :: l => Some (foldl (λ a b, match cmp a b with Gt => a | _ => b end) x l)
  end.
Definition min_by {A} (cmp : A → A → comparison) (l : list A) : option A :=
  match l with
  | [] => None
  | x :: l => Some (foldl (λ a b, match cmp a b with Gt => b | _ => a end) x l)
  end.

(** [Iterator::sum] on [f64] starts from negative zero. *)
Definition sum_f64 (l : list f64) : f64 := foldl f64.add (S754_zero true) l.

(** [Vec::resize_with] to a length that is not smaller. *)
Definition grow_to {A} (n : nat) (d : A) (l : list A) : list A :=
  l ++ replicate (n - length l) d.

Module scheduler.

Definition PRIMARY_SWITCH_MARGIN : f64 := f64.lit 2 10.
Definition QUEUE_FULL_PENALTY : Z := 200 * 1000000.
Definition SEND_FAILED_PENALTY : Z := 500 * 1000000.
Definition PENALTY_FALLBACK_MIN_DELIVERY : f64 := f64.lit 5 10.
Definition NO_PRIMARY : Z := 2 ^ 64 - 1.

Record SwrrEntry := mkEntry {
  e_link_index : nat;
  base_weight : f64;
  effective_weight : f64;
  current_weight : f64;
  e_bandwidth_cap_mbps : option f64 }.

Record RateLimitState := mkRate { window_start : Z; bytes_in_window : Z }.

Definition RateLimitState_new (now : Z) : RateLimitState := mkRate now 0.

Definition budget_bytes (cap_mbps : f64) : Z :=
  f64.to_u64 (cap_mbps * f64.of_Z 1000000 / f64.of_Z 8)%f64.

Definition under_cap (now : Z) (cap_mbps : f64) (additional_bytes : Z) (r : RateLimitState)
    : RateLimitState * bool :=
  let r := if nanos_of_secs 1 <=? sat_sub now (window_start r) then mkRate now 0 else r in
  (r, wrap 64 (bytes_in_window r + additional_bytes) <=? budget_bytes cap_mbps).

Definition record (bytes : Z) (r : RateLimitState) : RateLimitState :=
  mkRate (window_start r) (wrap 64 (bytes_in_window r + bytes)).

Record Scheduler := mkScheduler {
  entries : list SwrrEntry;
  rate_limits : gmap nat RateLimitState;
  penalized : list (nat * Z);
  trackers : list congestion.CongestionTracker;
  deliveries : list delivery.DeliveryTracker;
  primary : option nat;
  primary_published : Z;
  candidate : option (nat * Z) }.

Definition Scheduler_new : Scheduler := mkScheduler [] ∅ [] [] [] None NO_PRIMARY None.

(** Assignments to the fields an operation changes. *)
Definition with_entries (e : list SwrrEntry) (s : Scheduler) : Scheduler :=
  mkScheduler e (rate_limits s) (penalized s) (trackers s) (deliveries s) (primary s)
    (primary_published s) (candidate s).
Definition with_rates (r : gmap nat RateLimitState) (s : Scheduler) : Scheduler :=
  mkScheduler (entries s) r (penalized s) (trackers s) (deliveries s) (primary s)
    (primary_published s) (candidate s).
Definition with_penalized (p : list (nat * Z)) (s : Scheduler) : Scheduler :=
  mkScheduler (entries s) (rate_limits s) p (trackers s) (deliveries s) (primary s)
    (primary_published s) (candidate s).
Definition with_trackers (t : list congestion.CongestionTracker) (s : Scheduler) : Scheduler :=
  mkScheduler (entries s) (rate_limits s) (penalized s) t (deliveries s) (primary s)
    (primary_published s) (candidate s).
Definition with_deliveries (t : list delivery.DeliveryTracker) (s : Scheduler) : Scheduler :=
  mkScheduler (entries s) (rate_limits s) (penalized s) (trackers s) t (primary s)
    (primary_published s) (candidate s).
Definition with_candidate (c : option (nat * Z)) (s : Scheduler) : Scheduler :=
  mkScheduler (entries s) (rate_limits s) (penalized s) (trackers s) (deliveries s) (primary s)
    (primary_published s) c.

Definition set_primary (p : option nat) (s : Scheduler) : Scheduler :=
  mkScheduler (entries s) (rate_limits s) (penalized s) (trackers s) (deliveries s) p
    (match p with Some i => Z.of_nat i | None => NO_PRIMARY end) (candidate s).

(** [PrimaryFlag::is_set] on the published value. *)
Definition is_set (published : Z) : bool := negb (published =? NO_PRIMARY).

(** The first entry of [idx] gets the later deadline; else it is appended. *)
Fixpoint extend_penalty (idx : nat) (until : Z) (p : list (nat * Z)) : list (nat * Z) :=
  match p with
  | [] => [(idx, until)]
  | (i, u) :: p =>
      if (i =? idx)%nat then (i, Z.max u until) :: p else (i, u) :: extend_penalty idx until p
  end.

Definition penalize (now : Z) (idx : nat) (dur : Z) (s : Scheduler) : Scheduler :=
  with_penalized (extend_penalty idx (now + dur) (penalized s)) s.
Definition note_queue_full (now : Z) (idx : nat) (s : Scheduler) : Scheduler :=
  penalize now idx QUEUE_FULL_PENALTY s.
Definition note_send_failed (now : Z) (idx : nat) (s : Scheduler) : Scheduler :=
  penalize now idx SEND_FAILED_PENALTY s.

Definition congestion_factor (idx : nat) (s : Scheduler) : f64 :=
  match trackers s !! idx with Some t => congestion.factor t | None => f64.one end.

Definition delivery_factor (idx : nat) (s : Scheduler) : f64 :=
  match deliveries s !! idx with
  | None => f64.one
  | Some t =>
      let best := foldl f64.max f64.zero (map delivery.factor (deliveries s)) in
      if (best <=? f64.zero)%f64 then f64.one
      else f64.clamp (delivery.factor t / best)%f64 delivery.MIN_FACTOR f64.one
  end.

Definition link_factor (idx : nat) (s : Scheduler) : f64 :=
  (congestion_factor idx s * delivery_factor idx s)%f64.

(** The loop that re-scales every entry's weight. *)
Definition rescale (s : Scheduler) : Scheduler :=
  with_entries
    (map (λ e, mkEntry (e_link_index e) (base_weight e)
                 (base_weight e * link_factor (e_link_index e) s)%f64
                 (current_weight e) (e_bandwidth_cap_mbps e)) (entries s)) s.

Definition set_delivery_ppm (v : Z) (c : TxCounters) : TxCounters :=
  mkTxCounters (queue_full c) (send_failed c) (rerouted_away c) (depth c)
    (queue_delay_sum_us c) (queue_delay_samples c) (queue_delay_max_us c)
    (send_wait_sum_us c) (send_wait_samples c) (last_progress_us c)
    (queue_delay_recent_us c) (send_wait_recent_us c) (congestion_milli c) v.
Definition set_congestion (delay wait milli : Z) (c : TxCounters) : TxCounters :=
  mkTxCounters (queue_full c) (send_failed c) (rerouted_away c) (depth c)
    (queue_delay_sum_us c) (queue_delay_samples c) (queue_delay_max_us c)
    (send_wait_sum_us c) (send_wait_samples c) (last_progress_us c) delay wait milli
    (delivery_ppm c).

Definition update_delivery (now : Z) (samples : list (option delivery.DeliverySample))
    (counters : list TxCounters) (s : Scheduler) : Scheduler * list TxCounters :=
  let d := grow_to (length samples) delivery.DeliveryTracker_default (deliveries s) in
  let d := imap (λ i t, match samples !! i with
                        | Some x => delivery.observe now x t | None => t end) d in
  let s := with_deliveries d s in
  let counters :=
    imap (λ i c, set_delivery_ppm
                   (f64.to_u32 (f64.round (delivery_factor i s * f64.of_Z 1000000)%f64)) c)
      counters in
  (rescale s, counters).

Definition update_congestion (now : Z) (mono : nat → Z) (counters : list TxCounters)
    (s : Scheduler) : Scheduler * list TxCounters :=
  let t := grow_to (length counters) congestion.CongestionTracker_default (trackers s) in
  let t := imap (λ i t, match counters !! i with
                        | Some c => congestion.update now (congestion.read (mono i) c) t
                        | None => t end) t in
  let counters :=
    imap (λ i c, match t !! i with
                 | Some t => set_congestion (congestion.delay_recent_us t)
                               (congestion.send_wait_recent t)
                               (f64.to_u32 (f64.round (congestion.factor t * f64.of_Z 1000)%f64)) c
                 | None => c end) counters in
  (rescale (with_trackers t s), counters).

Definition score_cmp (a b : nat * f64) : comparison := f64.total_cmp a.2 b.2.

Definition refresh_from_scores (up : list (nat * f64)) (cfg : SchedulerConfig)
    (peer_primary_index : option nat) (s : Scheduler) : Scheduler :=
  if follow_peer_primary cfg then
    let p := match peer_primary_index with
             | Some idx => if existsb (λ x, (x.1 =? idx)%nat) up then Some idx else None
             | None => None end in
    with_candidate None (set_primary p s)
  else if negb (primary_link_mode cfg) then with_candidate None (set_primary None s)
  else
    let primary_score :=
      match primary s with
      | Some idx => snd <$> List.find (λ x, (x.1 =? idx)%nat) up
      | None => None end in
    match primary_score with
    | None => with_candidate None (set_primary (fst <$> max_by score_cmp up) s)
    | Some ps =>
        let others := List.filter (λ x, negb (bool_decide (Some x.1 = primary s))) up in
        match max_by score_cmp others with
        | None => with_candidate None s
        | Some (other_idx, other_score) =>
            if (ps * (f64.one + PRIMARY_SWITCH_MARGIN) <? other_score)%f64 then
              match candidate s with
              | Some (idx, count) =>
                  if (idx =? other_idx)%nat then
                    let count := wrap 32 (count + 1) in
                    if up_threshold cfg <=? count
                    then with_candidate None (set_primary (Some other_idx) s)
                    else with_candidate (Some (idx, count)) s
                  else with_candidate (Some (other_idx, 1)) s
              | None => with_candidate (Some (other_idx, 1)) s
              end
            else with_candidate None s
        end
    end.

Definition up_indices (links : list Link) : list (nat * f64) :=
  List.filter (λ x, (f64.zero <? x.2)%f64) (imap (λ i l, (i, score l)) links).

Definition refresh (links : list Link) (cfg : SchedulerConfig)
    (peer_primary_index : option nat) (s : Scheduler) : Scheduler :=
  let up := up_indices links in
  let s := refresh_from_scores up cfg peer_primary_index s in
  with_entries
    (map (λ x, mkEntry x.1 x.2 (x.2 * link_factor x.1 s)%f64 f64.zero
                 (links !! x.1 ≫= λ l, bandwidth_cap_mbps (config l))) up) s.

(** ** Picking a link *)

Definition weight_at (es : list SwrrEntry) (pos : nat) : f64 :=
  match es !! pos with Some e => effective_weight e | None => f64.zero end.
Definition current_at (es : list SwrrEntry) (pos : nat) : f64 :=
  match es !! pos with Some e => current_weight e | None => f64.zero end.

Definition add_current (w : f64) (e : SwrrEntry) : SwrrEntry :=
  mkEntry (e_link_index e) (base_weight e) (effective_weight e) (current_weight e + w)%f64
    (e_bandwidth_cap_mbps e).
Definition sub_current (w : f64) (e : SwrrEntry) : SwrrEntry :=
  mkEntry (e_link_index e) (base_weight e) (effective_weight e) (current_weight e - w)%f64
    (e_bandwidth_cap_mbps e).
Definition advance (e : SwrrEntry) : SwrrEntry := add_current (effective_weight e) e.

(** One round of smooth weighted round robin among the entries at the given
    positions: the position that won; [Panic] is the failed [expect]. *)
Definition swrr_round (eligible : list nat) (es : list SwrrEntry)
    : outcome (list SwrrEntry * nat) :=
  let total := sum_f64 (map (weight_at es) eligible) in
  let es := foldl (λ es pos, alter advance pos es) es eligible in
  match max_by (λ a b, f64.total_cmp (current_at es a) (current_at es b)) eligible with
  | None => Panic
  | Some win => Ok (alter (sub_current total) win es, win)
  end.

(** [entries[pos].link_index]. *)
Definition index_at (es : list SwrrEntry) (pos : nat) : outcome nat :=
  match es !! pos with Some e => Ok (e_link_index e) | None => Panic end.

(** The round over all entries. *)
Definition swrr_pick (s : Scheduler) : outcome (Scheduler * nat) :=
  '(es, win) ← swrr_round (seq 0 (length (entries s))) (entries s);
  idx ← index_at es win;
  Ok (with_entries es s, idx).

(** The cap check of one entry. *)
Definition check_cap (now : Z) (frame_len : Z) (e : SwrrEntry)
    (rates : gmap nat RateLimitState) : gmap nat RateLimitState * bool :=
  match e_bandwidth_cap_mbps e with
  | None => (rates, true)
  | Some cap =>
      let st := default (RateLimitState_new now) (rates !! e_link_index e) in
      let '(st, ok) := under_cap now cap frame_len st in
      (<[e_link_index e := st]> rates, ok)
  end.

(** The first pass: the positions under their cap. *)
Fixpoint cap_pass (clock : nat → Z) (frame_len : Z) (pos : nat) (es : list SwrrEntry)
    (rates : gmap nat RateLimitState) : gmap nat RateLimitState * list nat :=
  match es with
  | [] => (rates, [])
  | e :: es =>
      let '(rates, ok) := check_cap (clock pos) frame_len e rates in
      let '(rates, rest) := cap_pass clock frame_len (S pos) es rates in
      (rates, if ok then pos :: rest else rest)
  end.

Definition is_penalized (idx : nat) (p : list (nat * Z)) : bool :=
  existsb (λ x, (x.1 =? idx)%nat) p.

(** A position the penalty filter keeps. *)
Definition unpenalized_at (s : Scheduler) (pos : nat) : bool :=
  match entries s !! pos with
  | Some e => negb (is_penalized (e_link_index e) (penalized s))
              && (PENALTY_FALLBACK_MIN_DELIVERY <=? delivery_factor (e_link_index e) s)%f64
  | None => false
  end.

Definition penalty_pass (now : Z) (eligible : list nat) (s : Scheduler) : Scheduler * list nat :=
  match penalized s with
  | [] => (s, eligible)
  | _ =>
      let s := with_penalized (List.filter (λ x, now <? x.2) (penalized s)) s in
      match penalized s with
      | [] => (s, eligible)
      | _ =>
          match List.filter (unpenalized_at s) eligible with
          | [] => (s, eligible)
          | unpenalized => (s, unpenalized)
          end
      end
  end.

(** [if let Some(state) = self.rate_limits.get_mut(&idx) { state.record(..) }]. *)
Definition record_bytes (idx : nat) (frame_len : Z) (s : Scheduler) : Scheduler :=
  match rate_limits s !! idx with
  | Some r => with_rates (<[idx := record frame_len r]> (rate_limits s)) s
  | None => s
  end.

Definition swrr_pick_under_cap (clock : nat → Z) (frame_len : Z) (s : Scheduler)
    : outcome (Scheduler * nat) :=
  let '(rates, eligible) := cap_pass clock frame_len 0 (entries s) (rate_limits s) in
  let s := with_rates rates s in
  let '(s, eligible) := penalty_pass (clock (length (entries s))) eligible s in
  match eligible with
  | [] =>
      '(s, idx) ← swrr_pick s;
      Ok (record_bytes idx frame_len s, idx)
  | _ =>
      '(es, win) ← swrr_round eligible (entries s);
      idx ← index_at es win;
      Ok (record_bytes idx frame_len (with_entries es s), idx)
  end.

(** The key [(consecutive_misses, rtt_ms.unwrap_or(f64::MAX) as i64)]. *)
Definition fallback_cmp (a b : LinkScore) : comparison :=
  match ls_consecutive_misses a ?= ls_consecutive_misses b with
  | Eq => f64.to_i64 (default f64.MAX (ls_rtt_ms a)) ?= f64.to_i64 (default f64.MAX (ls_rtt_ms b))
  | c => c
  end.

Definition select (clock : nat → Z) (links : list LinkScore) (frame_len : Z) (s : Scheduler)
    : outcome (Scheduler * option nat) :=
  match links with
  | [] => Ok (s, None)
  | _ =>
      match primary s with
      | Some p => Ok (s, Some p)
      | None =>
          match entries s with
          | [] => Ok (s, link_index <$> min_by fallback_cmp links)
          | _ =>
              '(s, idx) ← swrr_pick_under_cap clock frame_len s;
              Ok (s, Some idx)
          end
      end
  end.

Definition select_fast (clock : nat → Z) (link_count : nat) (frame_len : Z) (s : Scheduler)
    : outcome (Scheduler * option nat) :=
  if (link_count =? 0)%nat then Ok (s, None)
  else
    match primary s with
    | Some p => Ok (s, Some p)
    | None =>
        match entries s with
        | [] => Ok (s, None)
        | _ =>
            '(s, idx) ← swrr_pick_under_cap clock frame_len s;
            Ok (s, Some idx)
        end
    end.

Definition all_down (links : list Link) : bool :=
  forallb (λ l, bool_decide (state l = Down)) links.

(** [pick_link] of [tunnel.rs]; the two calls have clocks of their own. *)
Definition pick_link (clock clock' : nat → Z) (links : list Link) (frame_len : Z)
    (s : Scheduler) : outcome (Scheduler * option nat) :=
  '(s, fast) ← select_fast clock (length links) frame_len s;
  match fast with
  | Some idx => Ok (s, Some idx)
  | None => select clock' (snapshot_scores links) frame_len s
  end.

End scheduler.
Import scheduler.

(** ** Choosing among candidates *)

Section choose.
Context {A : Type} (cmp : A → A → comparison).

Lemma fold_choice (pick : A → A → A) (l : list A) x :
  (∀ a b, pick a b = a ∨ pick a b = b) → foldl pick x l ∈ x :: l.
Proof.
  intros Hp. revert x. induction l as [|y l IH]; intros x; cbn; [apply list_elem_of_here|].
  specialize (IH (pick x y)). apply elem_of_cons in IH as [->|IH].
  - destruct (Hp x y) as [->| ->]; set_solver.
  - set_solver.
Qed.

Lemma max_by_elem l x : max_by cmp l = Some x → x ∈ l.
Proof.
  destruct l as [|y l]; [done|]. cbn. intros [= <-]. apply fold_choice.
  intros a b. destruct (cmp a b); auto.
Qed.

Lemma min_by_elem l x : min_by cmp l = Some x → x ∈ l.
Proof.
  destruct l as [|y l]; [done|]. cbn. intros [= <-]. apply fold_choice.
  intros a b. destruct (cmp a b); auto.
Qed.

Lemma max_by_some l : l ≠ [] → is_Some (max_by cmp l).
Proof. destruct l; [done|]. by eexists. Qed.

Lemma min_by_some l : l ≠ [] → is_Some (min_by cmp l).
Proof. destruct l; [done|]. by eexists. Qed.
End choose.

(** ** One round of round robin *)

Definition indices (es : list SwrrEntry) : list nat := map e_link_index es.

(** What a round leaves alone: everything but the current weights. *)
Definition same_shape (es es' : list SwrrEntry) : Prop :=
  map (λ e, (e_link_index e, base_weight e, effective_weight e, e_bandwidth_cap_mbps e)) es =
  map (λ e, (e_link_index e, base_weight e, effective_weight e, e_bandwidth_cap_mbps e)) es'.

Global Instance same_shape_equiv : Equivalence same_shape.
Proof. split; unfold same_shape; [by intros ?|by intros ?? ->|by intros ??? -> ->]. Qed.

Lemma same_shape_indices es es' : same_shape es es' → indices es = indices es'.
Proof.
  unfold same_shape, indices. intros H.
  apply (f_equal (map (λ x : nat * f64 * f64 * option f64, x.1.1.1))) in H.
  rewrite !map_map in H. exact H.
Qed.

Lemma same_shape_length es es' : same_shape es es' → length es = length es'.
Proof.
  intros H%same_shape_indices%(f_equal length). unfold indices in H. by rewrite !length_map in H.
Qed.

Lemma same_shape_lookup es es' pos e :
  same_shape es es' → es' !! pos = Some e →
  ∃ e0, es !! pos = Some e0 ∧ e_link_index e0 = e_link_index e ∧
        base_weight e0 = base_weight e ∧ effective_weight e0 = effective_weight e ∧
        e_bandwidth_cap_mbps e0 = e_bandwidth_cap_mbps e.
Proof.
  unfold same_shape. intros H He.
  apply (f_equal (λ l, l !! pos)) in H. rewrite !list_lookup_fmap, He in H. cbn in H.
  destruct (es !! pos) as [e0|]; [|done]. cbn in H. injection H as H1 H2 H3 H4.
  exists e0. by split_and!.
Qed.

Lemma alter_shape f pos es :
  (∀ e, same_shape [e] [f e]) → same_shape es (alter f pos es).
Proof.
  intros Hf. revert pos. induction es as [|e es IH]; intros [|pos]; [done|done| |].
  - specialize (Hf e). unfold same_shape in *. cbn in *. injection Hf as -> -> -> ->. done.
  - specialize (IH pos). unfold same_shape in *. change (alter f (S pos) (e :: es)) with (e :: alter f pos es).
    cbn [map]. by f_equal.
Qed.

Lemma advance_all_shape el es :
  same_shape es (foldl (λ es pos, alter advance pos es) es el).
Proof.
  revert es; induction el as [|p el IH]; intros es; cbn; [done|].
  etransitivity; [|apply IH]. by apply alter_shape.
Qed.

(** A round over a non-empty list of positions has a winner among them, and
    changes only current weights. *)
Lemma swrr_round_ok el es :
  el ≠ [] →
  ∃ es' win, swrr_round el es = Ok (es', win) ∧ win ∈ el ∧ same_shape es es'.
Proof.
  intros Hne. unfold swrr_round. set (es1 := foldl _ es el).
  set (cmp := λ a b : nat, _). destruct (max_by_some cmp el Hne) as [win Hw]. rewrite Hw.
  eexists _, _. split; [done|]. split; [by eapply max_by_elem|].
  etransitivity; [apply advance_all_shape|]. by apply alter_shape.
Qed.

Lemma index_at_shape es es' pos e :
  same_shape es es' → es !! pos = Some e → index_at es' pos = Ok (e_link_index e).
Proof.
  intros Hs He. symmetry in Hs. destruct (same_shape_lookup _ _ _ _ Hs He) as (e0 & H0 & Hi & _).
  unfold index_at. by rewrite H0, Hi.
Qed.

(** ** The cap check *)

Definition cap_ok (now frame_len : Z) (rates : gmap nat RateLimitState) (e : SwrrEntry) : bool :=
  (check_cap now frame_len e rates).2.

Lemma check_cap_frame now len e rates i :
  i ≠ e_link_index e → (check_cap now len e rates).1 !! i = rates !! i.
Proof.
  intros Hi. unfold check_cap. destruct (e_bandwidth_cap_mbps e); [|done].
  destruct (under_cap _ _ _ _). cbn. by rewrite lookup_insert_ne.
Qed.

Lemma check_cap_ext now len e rates rates' :
  rates !! e_link_index e = rates' !! e_link_index e →
  (check_cap now len e rates).2 = (check_cap now len e rates').2 ∧
  (check_cap now len e rates).1 !! e_link_index e =
  (check_cap now len e rates').1 !! e_link_index e.
Proof.
  intros H. unfold check_cap. destruct (e_bandwidth_cap_mbps e); [|done]. rewrite H.
  destruct (under_cap _ _ _ _). cbn. by rewrite !lookup_insert_eq.
Qed.

(** Each entry is judged on its own counter. *)
Lemma cap_pass_spec clock len es pos rates :
  NoDup (indices es) →
  let '(rates', el) := cap_pass clock len pos es rates in
  (∀ i, i ∉ indices es → rates' !! i = rates !! i) ∧
  (∀ k e, es !! k = Some e →
     ((pos + k)%nat ∈ el ↔ cap_ok (clock (pos + k)%nat) len rates e = true) ∧
     rates' !! e_link_index e =
     (check_cap (clock (pos + k)%nat) len e rates).1 !! e_link_index e) ∧
  (∀ p, p ∈ el → (pos ≤ p < pos + length es)%nat).
Proof.
  revert pos rates; induction es as [|e es IH]; intros pos rates Hnd; cbn [cap_pass].
  { split_and!; [done|done|]. intros p Hp. by apply not_elem_of_nil in Hp. }
  cbn [indices map] in Hnd. apply NoDup_cons in Hnd as [Hni Hnd].
  destruct (check_cap (clock pos) len e rates) as [rates1 ok] eqn:Ec.
  specialize (IH (S pos) rates1 Hnd).
  destruct (cap_pass clock len (S pos) es rates1) as [rates2 rest].
  destruct IH as (Hframe & Hent & Hrange).
  assert (∀ i, i ≠ e_link_index e → rates1 !! i = rates !! i) as Hf1.
  { intros i Hi. pose proof (check_cap_frame (clock pos) len e rates i Hi) as H. by rewrite Ec in H. }
  assert (pos ∉ rest) as Hpr by (intros Hp; apply Hrange in Hp; lia).
  split_and!.
  - intros i Hi. cbn in Hi. rewrite not_elem_of_cons in Hi. rewrite Hframe, Hf1; tauto.
  - intros [|k] x Hx; cbn in Hx.
    + injection Hx as <-. rewrite Nat.add_0_r. unfold cap_ok. rewrite Ec. cbn [fst snd].
      rewrite Hframe by done. split; [|done]. destruct ok; set_solver.
    + rewrite <- Nat.add_succ_comm. destruct (Hent k x Hx) as [H1 H2].
      assert (e_link_index x ≠ e_link_index e) as Hne.
      { intros E. apply Hni. rewrite <- E. apply list_elem_of_fmap. exists x. split; [done|].
        by eapply list_elem_of_lookup_2. }
      destruct (check_cap_ext (clock (S pos + k)%nat) len x rates1 rates (Hf1 _ Hne)) as [Hs Hr].
      unfold cap_ok in *. rewrite <- Hs, <- Hr. split; [|done]. rewrite <- H1.
      assert ((S pos + k)%nat ≠ pos) by lia. destruct ok; set_solver.
  - intros p Hp. cbn [length]. destruct ok; [apply elem_of_cons in Hp as [->|Hp]; [lia|]|];
      apply Hrange in Hp; lia.
Qed.

(** ** What a pick may choose *)

(** The penalties still in force, and whether an entry is one the penalty
    filter prefers. *)
Definition live_penalties (now : Z) (s : Scheduler) : list (nat * Z) :=
  List.filter (λ x, now <? x.2) (penalized s).
Definition preferred (now : Z) (s : Scheduler) (e : SwrrEntry) : bool :=
  negb (is_penalized (e_link_index e) (live_penalties now s))
  && (PENALTY_FALLBACK_MIN_DELIVERY <=? delivery_factor (e_link_index e) s)%f64.

Lemma penalty_pass_spec now el s :
  ∃ el', penalty_pass now el s = (with_penalized (live_penalties now s) s, el') ∧
    (∀ p, p ∈ el' → p ∈ el) ∧ (el ≠ [] → el' ≠ []) ∧
    (live_penalties now s ≠ [] →
     (∃ p e, p ∈ el ∧ entries s !! p = Some e ∧ preferred now s e = true) →
     ∀ p e, p ∈ el' → entries s !! p = Some e → preferred now s e = true).
Proof.
  unfold penalty_pass, live_penalties. destruct (penalized s) as [|x l] eqn:Ep.
  { exists el. split; [|done]. f_equal. by destruct s; cbn in *; subst. }
  cbn [with_penalized penalized]. set (live := List.filter _ (x :: l)).
  set (s' := with_penalized live s).
  change (mkScheduler (entries s) (rate_limits s) live (trackers s) (deliveries s) (primary s)
            (primary_published s) (candidate s)) with s'.
  destruct live as [|y l'] eqn:El; [by exists el|].
  assert (∀ p e, entries s !! p = Some e → unpenalized_at s' p = preferred now s e) as Hu.
  { intros p e He. unfold unpenalized_at, preferred, live_penalties. rewrite Ep. subst live. rewrite El.
    cbn [entries with_penalized s']. by rewrite He. }
  destruct (List.filter (unpenalized_at s') el) as [|z el'] eqn:Ef.
  - exists el. split; [done|]. split; [done|]. split; [done|].
    intros _ (p & e & Hp & He & Hpref). rewrite <- (Hu p e He) in Hpref.
    apply list_elem_of_In in Hp. assert (In p []) as []. rewrite <- Ef. by apply filter_In.
  - exists (z :: el'). rewrite <- Ef. split; [done|].
    assert (∀ p, p ∈ List.filter (unpenalized_at s') el → p ∈ el ∧ unpenalized_at s' p = true) as Hin.
    { intros p Hp. apply list_elem_of_In, filter_In in Hp as [Hp ?]. by apply list_elem_of_In in Hp. }
    split; [by intros p [? _]%Hin|]. split; [by rewrite Ef|].
    intros _ _ p e [_ Hp]%Hin He. by rewrite <- (Hu p e He).
Qed.

(** Equal but for current weights, counters and lapsed penalties. *)
Record pick_frame (s s' : Scheduler) : Prop := {
  pf_entries : same_shape (entries s) (entries s');
  pf_trackers : trackers s' = trackers s;
  pf_deliveries : deliveries s' = deliveries s;
  pf_primary : primary s' = primary s;
  pf_published : primary_published s' = primary_published s;
  pf_candidate : candidate s' = candidate s }.

Lemma record_bytes_frame idx len s s' :
  pick_frame s s' → pick_frame s (record_bytes idx len s').
Proof. intros []. unfold record_bytes. case_match; by split. Qed.

Lemma record_bytes_rates idx len s r :
  rate_limits s !! idx = Some r →
  rate_limits (record_bytes idx len s) !! idx = Some (record len r).
Proof. intros H. unfold record_bytes. rewrite H. cbn. by rewrite lookup_insert_eq. Qed.

(** The bytes of a capped entry that passed its check stay in its budget. *)
Lemma check_cap_budget now len e rates cap :
  e_bandwidth_cap_mbps e = Some cap → cap_ok now len rates e = true →
  ∃ r, (check_cap now len e rates).1 !! e_link_index e = Some r ∧
       bytes_in_window (record len r) ≤ budget_bytes cap.
Proof.
  intros Hc. unfold cap_ok, check_cap. rewrite Hc.
  set (st := default _ _). unfold under_cap. cbn [fst snd].
  set (r := if _ <=? _ then _ else st). intros H. exists r. cbn. rewrite lookup_insert_eq.
  split; [done|]. by apply Z.leb_le in H.
Qed.

(** What one pick guarantees. *)
Record pick_post (clock : nat → Z) (len : Z) (s s' : Scheduler) (pos : nat) (e : SwrrEntry)
    : Prop := {
  pp_frame : pick_frame s s';
  pp_entry : entries s !! pos = Some e;
  pp_cap :
    (∃ p x, entries s !! p = Some x ∧ cap_ok (clock p) len (rate_limits s) x = true) →
    cap_ok (clock pos) len (rate_limits s) e = true ∧
    (∀ cap, e_bandwidth_cap_mbps e = Some cap →
       ∃ r, rate_limits s' !! e_link_index e = Some r ∧ bytes_in_window r ≤ budget_bytes cap);
  pp_penalty :
    let now := clock (length (entries s)) in
    live_penalties now s ≠ [] →
    (∃ p x, entries s !! p = Some x ∧ cap_ok (clock p) len (rate_limits s) x = true ∧
            preferred now s x = true) →
    preferred now s e = true }.

Lemma swrr_pick_spec clock len s :
  entries s ≠ [] → NoDup (indices (entries s)) →
  ∃ s' pos e, swrr_pick_under_cap clock len s = Ok (s', e_link_index e) ∧
              pick_post clock len s s' pos e.
Proof.
  intros Hne Hnd. unfold swrr_pick_under_cap.
  pose proof (cap_pass_spec clock len (entries s) 0 (rate_limits s) Hnd) as Hcap.
  destruct (cap_pass clock len 0 (entries s) (rate_limits s)) as [rates el].
  destruct Hcap as (_ & Hent & Hrange). cbn [Nat.add] in Hent, Hrange.
  change (length (entries (with_rates rates s))) with (length (entries s)).
  set (now := clock (length (entries s))).
  destruct (penalty_pass_spec now el (with_rates rates s)) as (el' & -> & Hsub & Hne' & Hpref).
  set (s1 := with_penalized _ (with_rates rates s)).
  change (entries (with_rates rates s)) with (entries s) in Hpref.
  assert (∀ p x, entries s !! p = Some x → cap_ok (clock p) len (rate_limits s) x = true → p ∈ el)
    as Hin by (intros p x Hx Hc; by apply (Hent p x Hx)).
  destruct el' as [|q el'].
  - assert (el = []) as -> by (destruct el; [done|]; by destruct Hne').
    unfold swrr_pick. change (entries s1) with (entries s).
    destruct (swrr_round_ok (seq 0 (length (entries s))) (entries s)) as (es & win & -> & Hw & Hs).
    { destruct (entries s); [done|]. discriminate. }
    apply elem_of_seq in Hw. destruct (lookup_lt_is_Some_2 (entries s) win) as [e He]; [lia|].
    cbn [mbind outcome_bind]. rewrite (index_at_shape _ _ _ _ Hs He). cbn [mbind outcome_bind].
    exists (record_bytes (e_link_index e) len (with_entries es s1)), win, e. split; [done|]. split.
    + apply record_bytes_frame. by split.
    + done.
    + intros (p & x & Hx & Hc). specialize (Hin p x Hx Hc). by apply not_elem_of_nil in Hin.
    + intros ? _ (p & x & Hx & Hc & _). specialize (Hin p x Hx Hc). by apply not_elem_of_nil in Hin.
  - change (entries s1) with (entries s).
    destruct (swrr_round_ok (q :: el') (entries s)) as (es & win & -> & Hw & Hs); [done|].
    pose proof (Hsub win Hw) as Hwe. pose proof (Hrange win Hwe).
    destruct (lookup_lt_is_Some_2 (entries s) win) as [e He]; [lia|].
    cbn [mbind outcome_bind]. rewrite (index_at_shape _ _ _ _ Hs He). cbn [mbind outcome_bind].
    exists (record_bytes (e_link_index e) len (with_entries es s1)), win, e. split; [done|].
    destruct (Hent win e He) as [Hok Hrate]. apply Hok in Hwe. split.
    + apply record_bytes_frame. by split.
    + done.
    + intros _. split; [done|]. intros cap Hc.
      destruct (check_cap_budget _ _ _ _ _ Hc Hwe) as (r & Hr & Hb).
      exists (record len r). split; [|done]. apply record_bytes_rates.
      cbn [rate_limits with_entries with_penalized with_rates s1]. by rewrite Hrate.
    + intros ? Hl (p & x & Hx & Hc & Hp). apply (Hpref Hl) with win; [|done|done].
      exists p, x. split; [by eapply Hin|]. by split.
Qed.

(** ** The invariant *)

Definition ticked (t : Z) (d : delivery.DeliveryTracker) : Prop :=
  tracker_inv d ∧ ∀ n, delivery.last_tick d = Some n → n ≤ t.

(** [n] links are configured; [t] is the last tick of the feedback loops. *)
Record sched_inv (n : nat) (t : Z) (s : Scheduler) : Prop := {
  si_nodup : NoDup (indices (entries s));
  si_range : Forall (λ i, (i < n)%nat) (indices (entries s));
  si_weights : Forall (λ e, flt f64.zero (base_weight e)) (entries s);
  si_primary : ∀ p, primary s = Some p → p ∈ indices (entries s);
  si_published :
    primary_published s = match primary s with Some i => Z.of_nat i | None => NO_PRIMARY end;
  si_trackers : Forall (λ c, ranged (congestion.factor c)) (trackers s);
  si_deliveries : Forall (ticked t) (deliveries s) }.

(** The states the tasks of the tunnel can bring a scheduler of [n] links to. *)
Inductive sched_reach (n : nat) : Z → Scheduler → Prop :=
  | sr_new t : sched_reach n t Scheduler_new
  | sr_refresh t s links cfg peer :
      sched_reach n t s → length links = n → sched_reach n t (refresh links cfg peer s)
  | sr_queue_full t s now idx : sched_reach n t s → sched_reach n t (note_queue_full now idx s)
  | sr_send_failed t s now idx : sched_reach n t s → sched_reach n t (note_send_failed now idx s)
  | sr_delivery t s now samples counters :
      sched_reach n t s → t ≤ now → sched_reach n now (update_delivery now samples counters s).1
  | sr_congestion t s now mono counters :
      sched_reach n t s → (∀ i, fits 64 (mono i)) → Forall (λ c, 0 ≤ last_progress_us c) counters →
      sched_reach n t (update_congestion now mono counters s).1
  | sr_select t s clock scores len s' r :
      sched_reach n t s → select clock scores len s = Ok (s', r) → sched_reach n t s'
  | sr_select_fast t s clock k len s' r :
      sched_reach n t s → select_fast clock k len s = Ok (s', r) → sched_reach n t s'.

Lemma up_indices_range links x :
  x ∈ up_indices links → (x.1 < length links)%nat ∧ flt f64.zero x.2.
Proof.
  unfold up_indices. intros [Hx Hw]%list_elem_of_In%filter_In. split; [|done].
  apply list_elem_of_In, elem_of_lookup_imap in Hx as (i & l & -> & Hl).
  by apply lookup_lt_Some in Hl.
Qed.

Lemma up_indices_nodup links : NoDup (map fst (up_indices links)).
Proof.
  unfold up_indices.
  assert (∀ (p : nat * f64 → bool) l, NoDup (map fst l) → NoDup (map fst (List.filter p l))) as Hf.
  { intros p l. induction l as [|x l IH]; [done|]. cbn. rewrite NoDup_cons. intros [Hn Hl].
    destruct (p x); [|by apply IH]. cbn. apply NoDup_cons. split; [|by apply IH].
    contradict Hn. apply list_elem_of_fmap in Hn as (y & -> & Hy). apply list_elem_of_fmap.
    exists y. split; [done|]. apply list_elem_of_In, filter_In in Hy as [Hy _]. by apply list_elem_of_In. }
  apply Hf.
  assert (map fst (imap (λ i l, (i, score l)) links) = seq 0 (length links)) as ->.
  { apply list_eq. intros i. rewrite list_lookup_fmap, list_lookup_imap.
    destruct (links !! i) as [l|] eqn:E; cbn.
    - rewrite lookup_seq_lt; [done|by eapply lookup_lt_Some].
    - symmetry. apply lookup_seq_ge. by apply lookup_ge_None. }
  apply NoDup_seq.
Qed.

(** Selection keeps everything but the primary and the candidate; a primary it
    leaves is among the links that are up. *)
Lemma refresh_from_scores_spec up cfg peer s :
  let s' := refresh_from_scores up cfg peer s in
  (∀ p, primary s' = Some p → p ∈ map fst up) ∧
  (primary_published s = (match primary s with Some i => Z.of_nat i | None => NO_PRIMARY end) →
   primary_published s' = match primary s' with Some i => Z.of_nat i | None => NO_PRIMARY end) ∧
  trackers s' = trackers s ∧ deliveries s' = deliveries s.
Proof.
  assert (∀ x : nat * f64, x ∈ up → x.1 ∈ map fst up) as Hmap
    by (intros x Hx; apply list_elem_of_fmap; by exists x).
  cbv zeta. unfold refresh_from_scores. destruct (follow_peer_primary cfg).
  { split; [|done]. intros p. cbn. destruct peer as [idx|]; [|done].
    destruct (existsb _ up) eqn:E; [|done]. intros [= <-].
    apply existsb_exists in E as (x & Hx & Hi). apply Nat.eqb_eq in Hi as <-.
    by apply Hmap, list_elem_of_In. }
  destruct (negb _); [done|].
  destruct (primary s) as [idx|] eqn:Ep; cbn [fmap option_fmap option_map].
  2:{ split; [|done]. intros p. cbn. destruct (max_by score_cmp up) as [x|] eqn:E; [|done].
      intros [= <-]. by eapply Hmap, max_by_elem. }
  destruct (List.find _ up) as [[i ps]|] eqn:Ef; cbn [fmap option_fmap option_map snd].
  2:{ split; [|done]. intros p. cbn. destruct (max_by score_cmp up) as [x|] eqn:E; [|done].
      intros [= <-]. by eapply Hmap, max_by_elem. }
  apply find_some in Ef as [Hin Hi]. cbn in Hi. apply Nat.eqb_eq in Hi as ->.
  assert (idx ∈ map fst up) as Hidx by (apply (Hmap (idx, ps)), list_elem_of_In, Hin).
  assert (∀ c, let s' := with_candidate c s in
            (∀ p, primary s' = Some p → p ∈ map fst up) ∧
            (primary_published s = Z.of_nat idx →
             primary_published s' =
             match primary s' with Some i => Z.of_nat i | None => NO_PRIMARY end) ∧
            trackers s' = trackers s ∧ deliveries s' = deliveries s) as Hkeep.
  { intros c. cbn. rewrite Ep. split; [|done]. by intros p [= <-]. }
  destruct (max_by score_cmp _) as [[oi os]|] eqn:E; [|apply Hkeep].
  destruct (_ <? os)%f64; [|apply Hkeep].
  destruct (candidate s) as [[ci count]|]; [|apply Hkeep].
  destruct (ci =? oi)%nat; [|apply Hkeep]. destruct (_ <=? _); [|apply Hkeep].
  split; [|done]. cbn. intros p [= <-].
  apply max_by_elem, list_elem_of_In, filter_In in E as [E _].
  by apply (Hmap (oi, os)), list_elem_of_In.
Qed.

Lemma refresh_inv n t links cfg peer s :
  sched_inv n t s → length links = n → sched_inv n t (refresh links cfg peer s).
Proof.
  intros [_ _ _ _ Hpub Ht Hd] Hlen. unfold refresh.
  destruct (refresh_from_scores_spec (up_indices links) cfg peer s) as (Hp & Hq & Et & Ed).
  set (s1 := refresh_from_scores _ _ _ s) in *.
  set (es := map _ (up_indices links)).
  assert (indices es = map fst (up_indices links)) as Hi.
  { unfold indices, es. by rewrite map_map. }
  split; cbn [entries with_entries trackers deliveries primary primary_published].
  - rewrite Hi. apply up_indices_nodup.
  - rewrite Hi. apply Forall_forall. intros i (x & -> & Hx)%list_elem_of_fmap.
    rewrite <- Hlen. by apply up_indices_range.
  - apply Forall_forall. intros e (x & -> & Hx)%list_elem_of_fmap.
    apply up_indices_range in Hx as [_ Hx]. exact Hx.
  - rewrite Hi. apply Hp.
  - by apply Hq.
  - by rewrite Et.
  - by rewrite Ed.
Qed.

Lemma frame_inv n t s s' : sched_inv n t s → pick_frame s s' → sched_inv n t s'.
Proof.
  intros [H1 H2 H3 H4 H5 H6 H7] [F1 F2 F3 F4 F5 F6].
  pose proof (same_shape_indices _ _ F1) as Hi.
  split; rewrite ?F2, ?F3, ?F4, ?F5, <- ?Hi; try done.
  apply Forall_forall. intros e [pos He]%list_elem_of_lookup.
  destruct (same_shape_lookup _ _ _ _ F1 He) as (e0 & H0 & _ & Hb & _). rewrite <- Hb.
  eapply Forall_lookup in H3; [|exact H0]. done.
Qed.

(** A pick, a note or a rescaling changes nothing the invariant reads. *)
Lemma rescale_inv n t s : sched_inv n t s → sched_inv n t (rescale s).
Proof.
  intros [H1 H2 H3 H4 H5 H6 H7].
  assert (indices (entries (rescale s)) = indices (entries s)) as Hi.
  { unfold indices, rescale. cbn. by rewrite map_map. }
  split; rewrite ?Hi; try done.
  apply Forall_forall. intros e (x & -> & Hx)%list_elem_of_fmap. cbn.
  by eapply Forall_forall in H3; [|exact Hx].
Qed.

Lemma Forall_grow {A} (P : A → Prop) m d l : P d → Forall P l → Forall P (grow_to m d l).
Proof. intros. apply Forall_app. split; [done|]. by apply Forall_replicate. Qed.

Lemma Forall_imap {A} (P Q : A → Prop) (f : nat → A → A) l :
  Forall P l → (∀ i x, P x → Q (f i x)) → Forall Q (imap f l).
Proof.
  intros Hl Hf. apply Forall_forall. intros x (i & y & -> & Hy)%elem_of_lookup_imap.
  apply Hf. by eapply Forall_lookup in Hl; [|exact Hy].
Qed.

Lemma update_delivery_inv n t now samples counters s :
  sched_inv n t s → t ≤ now → sched_inv n now (update_delivery now samples counters s).1.
Proof.
  intros [H1 H2 H3 H4 H5 H6 H7] Hle. apply rescale_inv. split; try done.
  cbn [deliveries with_deliveries]. eapply Forall_imap with (P := ticked t).
  - apply Forall_grow; [|done]. split; [|done]. apply (delivery_reach_inv 0). constructor.
  - intros i d [Hi Hn]. destruct (samples !! i) as [x|].
    + destruct (observe_inv now x d Hi) as [Ho Hl]; [intros m Hm; specialize (Hn m Hm); lia|].
      split; [done|]. intros m Hm. rewrite Hl in Hm. injection Hm as <-. lia.
    + split; [done|]. intros m Hm. specialize (Hn m Hm). lia.
Qed.

Lemma update_congestion_inv n t now mono counters s :
  sched_inv n t s → (∀ i, fits 64 (mono i)) → Forall (λ c, 0 ≤ last_progress_us c) counters →
  sched_inv n t (update_congestion now mono counters s).1.
Proof.
  intros [H1 H2 H3 H4 H5 H6 H7] Hm Hc. apply rescale_inv. split; try done.
  cbn [trackers with_trackers].
  eapply Forall_imap with (P := λ c, ranged (congestion.factor c)).
  - by apply Forall_grow.
  - intros i c Hr. destruct (counters !! i) as [x|] eqn:E; [|done]. apply update_ranged; [done|].
    eapply Forall_lookup in Hc; [|exact E]. cbv beta in Hc. specialize (Hm i). unfold fits in Hm.
    unfold snapshot_ok, congestion.read. cbn [congestion.stall_us].
    destruct (_ && _); unfold sat_sub; lia.
Qed.

Lemma select_inv n t s clock scores len s' r :
  sched_inv n t s → select clock scores len s = Ok (s', r) → sched_inv n t s'.
Proof.
  intros Hi. unfold select. destruct scores; [by intros [= <- _]|].
  destruct (primary s); [by intros [= <- _]|].
  destruct (entries s) as [|e es] eqn:E; [by intros [= <- _]|].
  destruct (swrr_pick_spec clock len s) as (s1 & pos & x & -> & Hp); [by rewrite E|apply Hi|].
  intros [= <- _]. eapply frame_inv; [done|apply Hp].
Qed.

Lemma select_fast_select clock k len s scores :
  length scores = k →
  select_fast clock k len s =
  if bool_decide (primary s = None ∧ entries s = []) then Ok (s, None)
  else select clock scores len s.
Proof.
  intros <-. unfold select_fast, select. destruct scores as [|x scores]; cbn [length Nat.eqb].
  { by case_bool_decide. }
  destruct (primary s), (entries s); case_bool_decide; naive_solver.
Qed.

Lemma sched_reach_inv n t s : sched_reach n t s → sched_inv n t s.
Proof.
  induction 1 as [t|t s links cfg peer _ IH Hl|t s now idx _ IH|t s now idx _ IH
    |t s now sm c _ IH Hle|t s now mono c _ IH Hm Hc|t s clock sc len s' r _ IH Hs
    |t s clock k len s' r _ IH Hs].
  - split; try done; apply NoDup_nil_2.
  - by apply refresh_inv.
  - by destruct IH.
  - by destruct IH.
  - by eapply update_delivery_inv.
  - by apply update_congestion_inv.
  - by eapply select_inv.
  - rewrite (select_fast_select clock k len s
      (repeat (mkScore 0 Up false f64.one None None None None None None 0) k)) in Hs
      by apply repeat_length.
    case_bool_decide; [by injection Hs as <- _|]. by eapply select_inv.
Qed.

Lemma best_factor ds :
  Forall tracker_inv ds → ds ≠ [] →
  positive_finite (foldl f64.max f64.zero (map delivery.factor ds)).
Proof.
  intros Hd Hne. destruct ds as [|d ds]; [done|]. apply Forall_cons in Hd as [H1 Hd]. cbn [map foldl].
  pose proof (min_factor_positive _ (di_range _ H1)) as Hp.
  assert (f64.max f64.zero (delivery.factor d) = delivery.factor d) as ->.
  { destruct Hp as (m & e & Hm). by rewrite Hm. }
  revert Hp. generalize (delivery.factor d). clear Hne. intros x Hx.
  revert x Hx; induction Hd as [|y ds Hy Hd IH]; intros x Hx; [done|]. cbn [map foldl]. apply IH.
  pose proof (min_factor_positive _ (di_range _ Hy)) as Hyp.
  unfold f64.max. by repeat case_match.
Qed.

Lemma factor_range n t s idx :
  sched_inv n t s →
  within congestion.MIN_FACTOR f64.one (congestion_factor idx s) ∧
  within delivery.MIN_FACTOR f64.one (delivery_factor idx s).
Proof.
  intros Hi. split.
  - unfold congestion_factor. destruct (trackers s !! idx) as [c|] eqn:E; [|done].
    pose proof (si_trackers n t s Hi) as H. eapply Forall_lookup in H; [|exact E]. apply H.
  - unfold delivery_factor. destruct (deliveries s !! idx) as [d|] eqn:E; [|done].
    assert (Forall tracker_inv (deliveries s)) as Hd
      by (eapply Forall_impl; [apply (si_deliveries n t s Hi)|by intros ? [? _]]).
    assert (positive_finite (foldl f64.max f64.zero (map delivery.factor (deliveries s)))) as Hb.
    { apply best_factor; [done|]. by intros E0; rewrite E0 in E. }
    revert Hb. generalize (foldl f64.max f64.zero (map delivery.factor (deliveries s))).
    intros best Hb. destruct (best <=? f64.zero)%f64; [done|]. apply clamp_within; [|done].
    apply div_not_nan; [|done]. eapply Forall_lookup in Hd; [|exact E].
    destruct (di_range _ Hd) as [_ Hle]. by apply fle_not_nan in Hle as [? _].
Qed.

(** C27. Every state the tunnel's tasks can bring the scheduler to is
    well-formed: the round-robin table holds distinct configured links of
    positive weight, the primary is one of them, the flag the receive path
    reads without a lock agrees with it, and every link's congestion and
    delivery factors are in [0.1, 1] and [0.001, 1]. *)
Theorem scheduler_invariant n t s idx :
  sched_reach n t s → Z.of_nat n < NO_PRIMARY →
  NoDup (indices (entries s)) ∧ Forall (λ i, (i < n)%nat) (indices (entries s)) ∧
  Forall (λ e, flt f64.zero (base_weight e)) (entries s) ∧
  (∀ p, primary s = Some p → p ∈ indices (entries s)) ∧
  is_set (primary_published s) = bool_decide (is_Some (primary s)) ∧
  within congestion.MIN_FACTOR f64.one (congestion_factor idx s) ∧
  within delivery.MIN_FACTOR f64.one (delivery_factor idx s).
Proof.
  intros Hi%sched_reach_inv Hn. split; [apply Hi|]. split; [apply Hi|]. split; [apply Hi|].
  split; [apply Hi|]. split; [|by eapply factor_range].
  unfold is_set. rewrite (si_published n t s Hi). destruct (primary s) as [p|] eqn:Ep; [|done].
  rewrite bool_decide_eq_true_2 by done. destruct (Z.eqb_spec (Z.of_nat p) NO_PRIMARY) as [E|]; [|done].
  pose proof (si_range n t s Hi) as Hr. pose proof (si_primary n t s Hi p Ep) as Hp.
  eapply Forall_forall in Hr; [|exact Hp]. cbv beta in Hr. lia.
Qed.

(** The choice for one packet, from any well-formed state. *)
Lemma pick_link_ok n t s links len clock clock' :
  sched_inv n t s → length links = n → (0 < n)%nat →
  pick_link clock clock' links len s = select clock (snapshot_scores links) len s ∧
  ∃ s' i, pick_link clock clock' links len s = Ok (s', Some i) ∧ (i < n)%nat ∧
    (∀ p, primary s = Some p → i = p) ∧ (entries s ≠ [] → i ∈ indices (entries s)).
Proof.
  intros Hi Hl Hn.
  assert (length (snapshot_scores links) = n) as Hls by (unfold snapshot_scores; by rewrite length_imap).
  assert (pick_link clock clock' links len s = select clock (snapshot_scores links) len s) as Heq.
  { unfold pick_link. rewrite (select_fast_select _ _ _ _ (snapshot_scores links)) by lia.
    case_bool_decide as E.
    - destruct E as [E1 E2]. cbn. unfold select. by rewrite E1, E2.
    - unfold select. destruct (snapshot_scores links) as [|x l] eqn:Es; [cbn in Hls; lia|].
      destruct (primary s); [done|]. destruct (entries s); [naive_solver|].
      by destruct (swrr_pick_under_cap clock len s) as [[? ?]| |]. }
  split; [done|]. rewrite Heq. unfold select.
  destruct (snapshot_scores links) as [|x l] eqn:Es; [cbn in Hls; lia|].
  pose proof (si_range n t s Hi) as Hr. destruct (primary s) as [p|] eqn:Ep.
  { pose proof (si_primary n t s Hi p Ep) as Hp. exists s, p.
    split; [done|]. split; [by eapply Forall_forall in Hr; [|exact Hp]|].
    split; [by intros ? [= ->]|done]. }
  destruct (entries s) as [|e es] eqn:Ee.
  - destruct (min_by_some fallback_cmp (x :: l)) as [y Hy]; [done|]. rewrite Hy.
    apply min_by_elem in Hy. rewrite <- Es in Hy.
    apply elem_of_lookup_imap in Hy as (i & lk & -> & Hlk). exists s, i.
    split; [done|]. split; [apply lookup_lt_Some in Hlk; lia|]. by split.
  - destruct (swrr_pick_spec clock len s) as (s' & pos & y & -> & Hp); [by rewrite Ee|apply Hi|].
    exists s', (e_link_index y).
    assert (e_link_index y ∈ indices (entries s)) as Hy.
    { apply list_elem_of_fmap. exists y. split; [done|]. eapply list_elem_of_lookup_2, Hp. }
    rewrite Ee in Hy. split; [done|]. split; [by eapply Forall_forall in Hr; [|exact Hy]|]. by split.
Qed.

(** C2. Zero downtime: while a link is configured, every packet gets a link,
    whatever the links' states are. The fast path and its fallback choose what
    the full selection would; the choice is a configured link, the primary when
    there is one, otherwise a link that was Up at the last refresh, and only
    when none was any link. *)
Theorem pick_link_total n t s links len clock clock' :
  sched_reach n t s → length links = n → (0 < n)%nat →
  pick_link clock clock' links len s = select clock (snapshot_scores links) len s ∧
  ∃ s' i, pick_link clock clock' links len s = Ok (s', Some i) ∧ (i < n)%nat ∧
    (∀ p, primary s = Some p → i = p) ∧ (entries s ≠ [] → i ∈ indices (entries s)).
Proof. intros Hi%sched_reach_inv. by apply (pick_link_ok n t). Qed.

(** C29. A round-robin pick respects the caps and the penalties: when some link
    is under its cap so is the chosen one, and its bytes in the window stay in
    its budget; while some penalty is in force and some link under its cap is not
    penalized and has a delivery factor of at least a half, the chosen link is
    such a link. (With no penalty in force delivery acts through the weights
    alone.) *)
Theorem pick_respects_limits n t s clock len :
  sched_reach n t s → entries s ≠ [] →
  ∃ s' pos e, swrr_pick_under_cap clock len s = Ok (s', e_link_index e) ∧
              pick_post clock len s s' pos e.
Proof. intros Hi%sched_reach_inv Hne. apply swrr_pick_spec; [done|apply Hi]. Qed.

(** ** Two links, both Up *)

Definition sample_links : list Link :=
  [mkLink (sample_link "wan0") Up 0 sample_stats false;
   mkLink (sample_link "wan1") Up 0 sample_stats false].
Definition sample_sched : Scheduler :=
  note_queue_full 0 0 (refresh sample_links SchedulerConfig_default None Scheduler_new).

Lemma sample_sched_reach : sched_reach 2 0 sample_sched.
Proof. apply sr_queue_full, sr_refresh; [apply sr_new|reflexivity]. Qed.

Lemma scheduler_invariant_witness :
  indices (entries sample_sched) = [0; 1]%nat ∧ NoDup (indices (entries sample_sched)) ∧
  is_set (primary_published sample_sched) = false.
Proof.
  split; [vm_compute; reflexivity|].
  destruct (scheduler_invariant 2 0 sample_sched 0 sample_sched_reach ltac:(done))
    as (H & _ & _ & _ & _ & _). split; [exact H|vm_compute; reflexivity].
Defined.

Lemma pick_link_total_witness :
  ∃ s' i, pick_link (λ _, 0) (λ _, 0) sample_links 1400 sample_sched = Ok (s', Some i) ∧ (i < 2)%nat.
Proof.
  destruct (pick_link_total 2 0 sample_sched sample_links 1400 (λ _, 0) (λ _, 0) sample_sched_reach
              eq_refl ltac:(lia)) as (_ & s' & i & H & Hi & _).
  exists s', i. split; [exact H|exact Hi].
Defined.

(** The penalized first link is passed over. *)
Lemma pick_respects_limits_witness :
  ∃ s' e, swrr_pick_under_cap (λ _, 0) 1400 sample_sched = Ok (s', e_link_index e) ∧
          preferred 0 sample_sched e = true.
Proof.
  destruct (pick_respects_limits 2 0 sample_sched (λ _, 0) 1400 sample_sched_reach)
    as (s' & pos & e & Hs & Hp); [vm_compute; congruence|].
  exists s', e. split; [exact Hs|]. apply (pp_penalty _ _ _ _ _ _ Hp); [vm_compute; congruence|].
  exists 1%nat. eexists. split; [vm_compute; reflexivity|]. split; vm_compute; reflexivity.
Defined.
