(* ===== verification/Fairness.v ===== *)
(** * Fairness of smooth weighted round robin ([scheduler.rs], [swrr_pick])

    With integer weights, whose arithmetic in double precision is exact, the
    picks follow the weights: no link is ever a whole pick ahead of its share,
    and each period gives every link exactly its weight. *)

From Stdlib Require Import SpecFloat.
From S2P Require Import Prelude Bytes F64 Rounding ExactInt Configuration ProbeHistory Link Congestion Delivery Scheduler.
Import scheduler.

(** ** Sums over positions *)

Fixpoint sumZ (f : nat → Z) (k : nat) : Z :=
  match k with O => 0 | S k => sumZ f k + f k end.

Lemma sum_ext f g k : (∀ i, (i < k)%nat → f i = g i) → sumZ f k = sumZ g k.
Proof. induction k as [|k IH]; intros H; cbn; [done|]. rewrite IH, H by auto with lia. done. Qed.

Lemma sum_le f g k : (∀ i, (i < k)%nat → f i ≤ g i) → sumZ f k ≤ sumZ g k.
Proof.
  induction k as [|k IH]; intros H; cbn; [done|]. pose proof (H k ltac:(lia)).
  assert (sumZ f k ≤ sumZ g k) by (apply IH; auto with lia). lia.
Qed.

Lemma sum_linear a b f g k : sumZ (λ i, a * f i + b * g i) k = a * sumZ f k + b * sumZ g k.
Proof. induction k as [|k IH]; cbn; [lia|]. rewrite IH. lia. Qed.

Lemma sum_const c k : sumZ (λ _, c) k = c * Z.of_nat k.
Proof. induction k as [|k IH]; cbn [sumZ]; [lia|]. rewrite IH. lia. Qed.

(** A bump at one position. *)
Definition bump (j : nat) (d : Z) (i : nat) : Z := if (i =? j)%nat then d else 0.

Lemma sum_bump f j d k : (j < k)%nat → sumZ (λ i, f i + bump j d i) k = sumZ f k + d.
Proof.
  induction k as [|k IH]; intros Hj; [lia|]. cbn [sumZ]. unfold bump at 2.
  destruct (Nat.eqb_spec k j) as [->|Hne].
  - rewrite (sum_ext _ f); [lia|]. intros i Hi. unfold bump.
    rewrite (proj2 (Nat.eqb_neq i j)) by lia. lia.
  - rewrite IH by lia. lia.
Qed.

(** Equal sums of ordered terms are termwise equal. *)
Lemma sum_eq_le f g k :
  (∀ i, (i < k)%nat → f i ≤ g i) → sumZ f k = sumZ g k → ∀ i, (i < k)%nat → f i = g i.
Proof.
  intros Hle Heq i Hi. destruct (Z.eq_dec (f i) (g i)) as [|Hne]; [done|].
  assert (sumZ (λ x, f x + bump i 1 x) k ≤ sumZ g k) as Hs.
  { apply sum_le. intros x Hx. unfold bump. specialize (Hle x Hx).
    destruct (Nat.eqb_spec x i) as [->|]; lia. }
  rewrite sum_bump in Hs by done. lia.
Qed.

Lemma sum_zero_bound f W k j :
  (∀ i, (i < k)%nat → - W ≤ f i) → sumZ f k = 0 → (j < k)%nat →
  f j ≤ (Z.of_nat k - 1) * W.
Proof.
  intros Hlo Hz Hj.
  assert (sumZ (λ i, - W + bump j (f j + W) i) k ≤ sumZ f k) as Hs.
  { apply sum_le. intros i Hi. unfold bump. specialize (Hlo i Hi).
    destruct (Nat.eqb_spec i j) as [->|]; lia. }
  rewrite sum_bump, sum_const in Hs by done. lia.
Qed.

Lemma sum_pos_max f k j :
  (∀ i, (i < k)%nat → f i ≤ f j) → 0 < sumZ f k → 0 < f j.
Proof.
  intros Hmax Hs. destruct (Z.lt_ge_cases 0 (f j)) as [|Hle]; [done|].
  assert (sumZ f k ≤ sumZ (λ _, 0) k) by (apply sum_le; intros i Hi; specialize (Hmax i Hi); lia).
  rewrite sum_const in *. lia.
Qed.

(** ** One round on integer weights *)

Lemma foldl_alter_seq {A} (f : A → A) l1 l2 :
  foldl (λ l i, alter f i l) (l1 ++ l2) (seq (length l1) (length l2)) = l1 ++ map f l2.
Proof.
  revert l1; induction l2 as [|x l2 IH]; intros l1; [done|]. cbn [length seq foldl map].
  rewrite <- (Nat.add_0_r (length l1)) at 1. rewrite alter_app_r.
  change (alter f 0%nat (x :: l2)) with (f x :: l2).
  specialize (IH (l1 ++ [f x])). rewrite length_app, <- !app_assoc in IH. cbn in IH.
  rewrite Nat.add_1_r in IH. exact IH.
Qed.

Lemma map_lookup_seq {A B} (g : A → B) (d : B) (l : list A) :
  map (λ i, match l !! i with Some x => g x | None => d end) (seq 0 (length l)) = map g l.
Proof.
  apply list_eq. intros i. rewrite !list_lookup_fmap. destruct (l !! i) as [x|] eqn:E.
  - rewrite lookup_seq_lt by (by eapply lookup_lt_Some). cbn. by rewrite E.
  - rewrite lookup_seq_ge; [done|]. by apply lookup_ge_None.
Qed.

(** The entries hold weights [w] and current weights [c], by position. *)
Definition holds (es : list SwrrEntry) (w c : nat → Z) : Prop :=
  ∀ i e, es !! i = Some e →
    effective_weight e = f64.of_Z (w i) ∧ current_weight e = f64.of_Z (c i).

Lemma sum_f64_ints es w c :
  holds es w c → es ≠ [] → (∀ i, (i < length es)%nat → 0 ≤ w i) →
  sumZ w (length es) < 2 ^ 53 →
  sum_f64 (map effective_weight es) = f64.of_Z (sumZ w (length es)).
Proof.
  induction es as [|e es IH] using rev_ind; [done|]. intros Hh _ Hw Hs.
  rewrite length_app in *. cbn [length] in *. rewrite Nat.add_1_r in *. cbn [sumZ] in *.
  assert (0 ≤ sumZ w (length es)) as Hnn.
  { etransitivity; [|apply (sum_le (λ _, 0)); intros; apply Hw; lia]. rewrite sum_const. lia. }
  pose proof (Hw (length es) ltac:(lia)).
  unfold sum_f64. rewrite map_app, foldl_app. cbn [map foldl]. fold (sum_f64 (map effective_weight es)).
  destruct (Hh (length es) e) as [He _]; [by rewrite lookup_app_r, Nat.sub_diag by lia|]. rewrite He.
  destruct es as [|e0 es].
  - cbn [map sum_f64 foldl length sumZ].
    destruct (of_Z_shape (w 0%nat)) as [[-> _]|(s & m & x & E & _)]; [cbn in *; lia|done|].
    cbn [length]. by rewrite E.
  - rewrite IH; [|intros i x Hx; apply Hh; by apply lookup_app_l_Some|done|auto with lia|lia].
    apply of_Z_add; lia.
Qed.

Lemma max_by_ext {A} (cmp cmp' : A → A → comparison) l :
  (∀ a b, a ∈ l → b ∈ l → cmp a b = cmp' a b) → max_by cmp l = max_by cmp' l.
Proof.
  destruct l as [|x l]; [done|]. cbn. intros H. f_equal.
  assert (∀ l' y, y ∈ x :: l → (∀ z, z ∈ l' → z ∈ x :: l) →
    foldl (λ a b, match cmp a b with Gt => a | _ => b end) y l' =
    foldl (λ a b, match cmp' a b with Gt => a | _ => b end) y l') as Hg.
  { induction l' as [|z l' IH]; intros y Hy Hl; [done|]. cbn. assert (z ∈ x :: l) by set_solver.
    rewrite (H y z) by done. apply IH; [by destruct (cmp' y z)|set_solver]. }
  apply Hg; set_solver.
Qed.

Lemma max_by_max (key : nat → Z) l j :
  max_by (λ a b, key a ?= key b) l = Some j → ∀ i, i ∈ l → key i ≤ key j.
Proof.
  destruct l as [|x l]; [done|]. cbn. intros [= <-].
  revert x; induction l as [|y l IH]; intros x i Hi; cbn [foldl].
  - apply elem_of_cons in Hi as [->|Hi]; [done|]. by apply not_elem_of_nil in Hi.
  - destruct (Z.compare_spec (key x) (key y)) as [E|E|E].
    + apply elem_of_cons in Hi as [->|Hi]; [rewrite E|]; apply IH; set_solver.
    + apply elem_of_cons in Hi as [->|Hi]; [etransitivity; [apply Z.lt_le_incl, E|]|]; apply IH; set_solver.
    + rewrite !elem_of_cons in Hi. destruct Hi as [->|[->|Hi]]; [|etransitivity; [apply Z.lt_le_incl, E|]|];
        apply IH; set_solver.
Qed.

(** The state between rounds: integers that sum to zero and are above minus
    the total weight. *)
Record balanced (k : nat) (w c : nat → Z) : Prop := {
  ba_weights : ∀ i, (i < k)%nat → 0 < w i;
  ba_small : Z.of_nat k * sumZ w k < 2 ^ 53;
  ba_low : ∀ i, (i < k)%nat → - sumZ w k < c i;
  ba_sum : sumZ c k = 0 }.

Lemma weight_le_sum w k i :
  (∀ i, (i < k)%nat → 0 < w i) → (i < k)%nat → 0 < w i ≤ sumZ w k.
Proof.
  intros Hw Hi. split; [by apply Hw|].
  assert (sumZ (λ x, 0 + bump i (w i) x) k ≤ sumZ w k) as Hs.
  { apply sum_le. intros x Hx. specialize (Hw x Hx). unfold bump.
    destruct (Nat.eqb_spec x i) as [->|]; lia. }
  rewrite sum_bump, sum_const in Hs by done. lia.
Qed.

Lemma advance_sum c w k : sumZ (λ i, c i + w i) k = sumZ c k + sumZ w k.
Proof.
  rewrite (sum_ext _ (λ i, 1 * c i + 1 * w i)) by (intros; lia). rewrite sum_linear. lia.
Qed.

Lemma balanced_next k w c j :
  balanced k w c → (j < k)%nat → (∀ i, (i < k)%nat → c i + w i ≤ c j + w j) →
  balanced k w (λ i, c i + w i + bump j (- sumZ w k) i).
Proof.
  intros [Hw Hs Hl Hz] Hj Hmax.
  assert (sumZ (λ i, c i + w i) k = sumZ w k) as Hsum by (rewrite advance_sum; lia).
  pose proof (weight_le_sum w k j Hw Hj).
  assert (0 < c j + w j) by (apply (sum_pos_max (λ i, c i + w i) k); [done|lia]).
  split; [done|done| |].
  - intros i Hi. specialize (Hl i Hi). specialize (Hw i Hi). unfold bump.
    destruct (Nat.eqb_spec i j) as [->|]; lia.
  - rewrite sum_bump by done. lia.
Qed.

Lemma swrr_round_int k es w c :
  length es = k → (0 < k)%nat → holds es w c → balanced k w c →
  ∃ es' j, swrr_round (seq 0 k) es = Ok (es', j) ∧ (j < k)%nat ∧ same_shape es es' ∧
    (∀ i, (i < k)%nat → c i + w i ≤ c j + w j) ∧
    holds es' w (λ i, c i + w i + bump j (- sumZ w k) i).
Proof.
  intros Hlen Hk Hh Hb. pose proof Hb as [Hw Hs Hl Hz].
  assert (0 < sumZ w k) as HW by (pose proof (weight_le_sum w k 0 Hw ltac:(lia)); lia).
  assert (∀ i, (i < k)%nat → - 2 ^ 53 < c i < 2 ^ 53 ∧ - 2 ^ 53 < w i < 2 ^ 53 ∧
            - 2 ^ 53 < c i + w i < 2 ^ 53) as Hr.
  { intros i Hi. pose proof (weight_le_sum w k i Hw Hi). specialize (Hl i Hi) as Hli.
    pose proof (sum_zero_bound c (sumZ w k) k i ltac:(intros x Hx; specialize (Hl x Hx); lia) Hz Hi).
    assert (sumZ w k ≤ Z.of_nat k * sumZ w k) by nia. rewrite Z.mul_sub_distr_r in *. lia. }
  destruct (swrr_round_ok (seq 0 k) es) as (es' & j & Hround & Hj & Hshape).
  { destruct k; [lia|]. discriminate. }
  exists es', j. split; [done|]. apply elem_of_seq in Hj. split; [lia|]. split; [done|].
  revert Hround. unfold swrr_round. rewrite <- Hlen.
  pose proof (foldl_alter_seq advance [] es) as Hfold. cbn [app length] in Hfold. rewrite Hfold.
  pose proof (map_lookup_seq effective_weight f64.zero es) as Hmap. unfold weight_at. rewrite Hmap.
  rewrite (sum_f64_ints es w c Hh); cycle 1.
  { by intros ->; cbn in Hlen; lia. } { rewrite Hlen. intros i Hi. specialize (Hw i Hi). lia. }
  { rewrite Hlen. nia. }
  assert (∀ i e, map advance es !! i = Some e → (i < k)%nat ∧ effective_weight e = f64.of_Z (w i) ∧
            current_weight e = f64.of_Z (c i + w i)) as Hadv.
  { intros i e He. rewrite list_lookup_fmap in He. destruct (es !! i) as [e0|] eqn:E0; [|done].
    cbn in He. injection He as <-. apply lookup_lt_Some in E0 as Hi. rewrite Hlen in Hi.
    destruct (Hh i e0 E0) as [H1 H2]. cbn [effective_weight current_weight advance add_current].
    rewrite H1, H2. split; [done|]. split; [done|]. apply of_Z_add; by apply Hr. }
  rewrite (max_by_ext _ (λ a b, (c a + w a) ?= (c b + w b))).
  2:{ intros a b Ha Hb'. apply elem_of_seq in Ha, Hb'. unfold current_at.
      destruct (lookup_lt_is_Some_2 (map advance es) a) as [ea Ea]; [rewrite length_map; lia|].
      destruct (lookup_lt_is_Some_2 (map advance es) b) as [eb Eb]; [rewrite length_map; lia|].
      rewrite Ea, Eb. rewrite (proj2 (proj2 (Hadv _ _ Ea))), (proj2 (proj2 (Hadv _ _ Eb))).
      apply of_Z_total_cmp; apply Hr; lia. }
  destruct (max_by _ _) as [j'|] eqn:Emax; [|done]. intros [= <- ->]. rewrite Hlen in Emax |- *.
  assert (∀ i, (i < k)%nat → c i + w i ≤ c j + w j) as Hmax.
  { intros i Hi. apply (max_by_max (λ i, c i + w i) _ _ Emax). apply elem_of_seq. lia. }
  assert (0 < c j + w j).
  { apply (sum_pos_max (λ i, c i + w i) k); [done|]. by rewrite advance_sum, Hz. }
  split; [done|].
  - intros i e He. unfold bump. destruct (Nat.eqb_spec i j) as [->|Hne].
    + rewrite list_lookup_alter_eq in He. destruct (map advance es !! j) as [e0|] eqn:E0; [|done].
      cbn in He. injection He as <-. destruct (Hadv j e0 E0) as (Hjk & H1 & H2).
      cbn [effective_weight current_weight sub_current]. split; [done|]. rewrite H2.
      pose proof (Hr j Hjk). rewrite of_Z_sub by nia. done.
    + rewrite list_lookup_alter_ne in He by done. destruct (Hadv i e He) as (_ & H1 & H2).
      rewrite Z.add_0_r. by split.
Qed.

(** ** A run of selections *)

(** The links that [t] selections in a row choose. *)
Fixpoint selects (clock : nat → nat → Z) (n : nat) (len : Z) (t : nat) (s : Scheduler)
    : outcome (Scheduler * list (option nat)) :=
  match t with
  | O => Ok (s, [])
  | S t =>
      '(s, l) ← selects clock n len t s;
      '(s, r) ← select_fast (clock t) n len s;
      Ok (s, l ++ [r])
  end.

(** No primary, no penalty and no cap: plain round robin. *)
Record plain (s : Scheduler) : Prop := {
  pl_primary : primary s = None;
  pl_penalized : penalized s = [];
  pl_caps : Forall (λ e, e_bandwidth_cap_mbps e = None) (entries s) }.

Lemma cap_pass_uncapped clock len es pos rates :
  Forall (λ e, e_bandwidth_cap_mbps e = None) es →
  cap_pass clock len pos es rates = (rates, seq pos (length es)).
Proof.
  intros H. revert pos. induction H as [|e es He _ IH]; intros pos; [done|]. cbn.
  unfold check_cap. by rewrite He, IH.
Qed.

Lemma plain_pick clock n len s :
  plain s → entries s ≠ [] → n ≠ 0%nat →
  select_fast clock n len s =
  ('(es, win) ← swrr_round (seq 0 (length (entries s))) (entries s);
   idx ← index_at es win;
   Ok (record_bytes idx len (with_entries es s), Some idx)).
Proof.
  intros [Hp Hn Hc] Hne Hz. unfold select_fast. rewrite Hp, (proj2 (Nat.eqb_neq n 0)) by done.
  destruct (entries s) as [|e es] eqn:E; [done|]. rewrite <- E in *.
  unfold swrr_pick_under_cap. rewrite cap_pass_uncapped by done.
  assert (with_rates (rate_limits s) s = s) as -> by (by destruct s).
  unfold penalty_pass. rewrite Hn.
  assert (∃ x l, seq 0 (length (entries s)) = x :: l) as (x & l & Hs)
    by (rewrite E; eexists _, _; reflexivity).
  rewrite Hs, <- Hs. destruct (swrr_round _ _) as [[es' win]| |]; [|done|done]. cbn.
  by destruct (index_at es' win).
Qed.

Lemma plain_next s es idx len :
  plain s → same_shape (entries s) es → plain (record_bytes idx len (with_entries es s)).
Proof.
  intros [Hp Hn Hc] Hs.
  assert (Forall (λ e, e_bandwidth_cap_mbps e = None) es) as Hes.
  { apply Forall_forall. intros e [i He]%list_elem_of_lookup.
    destruct (same_shape_lookup _ _ _ _ Hs He) as (e0 & H0 & _ & _ & _ & <-).
    by eapply Forall_lookup in Hc; [|exact H0]. }
  unfold record_bytes. by case_match; split.
Qed.

Lemma record_bytes_entries idx len s : entries (record_bytes idx len s) = entries s.
Proof. unfold record_bytes. by case_match. Qed.

(** How often link [i] was chosen. *)
Definition chosen (i : nat) (l : list (option nat)) : nat := count_occ option_eq_dec l (Some i).

(** What [t] selections leave: [n] counts the choices by position. *)
Record after (es : list SwrrEntry) (w : nat → Z) (t : nat) (s : Scheduler)
    (l : list (option nat)) (n : nat → Z) : Prop := {
  af_plain : plain s;
  af_shape : same_shape es (entries s);
  af_holds : holds (entries s) w (λ i, Z.of_nat t * w i - sumZ w (length es) * n i);
  af_balanced : balanced (length es) w (λ i, Z.of_nat t * w i - sumZ w (length es) * n i);
  af_count : ∀ i e, es !! i = Some e → n i = Z.of_nat (chosen (e_link_index e) l);
  af_total : sumZ n (length es) = Z.of_nat t }.

Lemma after_step es w clock n len t s l m :
  es ≠ [] → n ≠ 0%nat → NoDup (indices es) → after es w t s l m →
  ∃ s' r m', select_fast clock n len s = Ok (s', r) ∧ after es w (S t) s' (l ++ [r]) m'.
Proof.
  intros Hne Hn Hnd [Hp Hs Hh Hb Hc Ht].
  pose proof (same_shape_length _ _ Hs) as Hlen.
  assert (0 < length es)%nat as Hk by (destruct es; [done|cbn; lia]).
  rewrite plain_pick; [|done|intros E; rewrite E in Hlen; cbn in Hlen; lia|done].
  rewrite <- Hlen.
  destruct (swrr_round_int (length es) (entries s) w _ (eq_sym Hlen) Hk Hh Hb)
    as (es' & j & -> & Hj & Hs' & Hmax & Hh').
  destruct (lookup_lt_is_Some_2 es j Hj) as [ej Hej].
  assert (same_shape es es') as Hss by (etransitivity; done).
  cbn [mbind outcome_bind]. rewrite (index_at_shape _ _ _ _ Hss Hej). cbn [mbind outcome_bind].
  exists (record_bytes (e_link_index ej) len (with_entries es' s)), (Some (e_link_index ej)),
    (λ i, m i + bump j 1 i).
  split; [done|].
  assert (∀ i, Z.of_nat t * w i - sumZ w (length es) * m i + w i + bump j (- sumZ w (length es)) i =
               Z.of_nat (S t) * w i - sumZ w (length es) * (m i + bump j 1 i)) as Heq.
  { intros i. unfold bump. destruct (i =? j)%nat; lia. }
  split.
  - by apply plain_next.
  - by rewrite record_bytes_entries.
  - rewrite record_bytes_entries. intros i e He. rewrite <- Heq. by apply Hh'.
  - destruct (balanced_next _ _ _ _ Hb Hj Hmax) as [B1 B2 B3 B4]. split; [done|done| |].
    + intros i Hi. rewrite <- Heq. by apply B3.
    + rewrite <- B4. apply sum_ext. intros i _. by rewrite Heq.
  - intros i e He. rewrite (Hc i e He). unfold chosen. rewrite count_occ_app. cbn [count_occ].
    unfold bump. destruct (Nat.eqb_spec i j) as [->|Hij].
    + rewrite Hej in He. injection He as <-. destruct (option_eq_dec _ _); [lia|done].
    + destruct (option_eq_dec _ _) as [[= E]|]; [|lia]. destruct Hij.
      apply (NoDup_lookup (indices es) i j (e_link_index e)); [done| |];
        unfold indices; rewrite list_lookup_fmap, ?He, ?Hej; cbn; congruence.
  - rewrite sum_bump by done. lia.
Qed.

(** C7. Smooth weighted round robin is fair: with no primary, penalties or caps
    and integer weights [w] whose sum W is exact, over any number [t] of
    selections a link is never a whole selection ahead of its share [t w / W],
    and [m W] selections give every link exactly [m w] of them. *)
Theorem swrr_fair s w clock n len t :
  plain s → entries s ≠ [] → n ≠ 0%nat → NoDup (indices (entries s)) →
  let k := length (entries s) in
  holds (entries s) w (λ _, 0) → (∀ i, (i < k)%nat → 0 < w i) →
  Z.of_nat k * sumZ w k < 2 ^ 53 →
  ∃ s' l, selects clock n len t s = Ok (s', l) ∧
    ∀ i e, entries s !! i = Some e →
      let c := Z.of_nat (chosen (e_link_index e) l) in
      sumZ w k * c < Z.of_nat t * w i + sumZ w k ∧
      (∀ m, Z.of_nat t = m * sumZ w k → c = m * w i).
Proof.
  intros Hp Hne Hn Hnd k Hh Hw Hs.
  assert (∃ s' l c, selects clock n len t s = Ok (s', l) ∧ after (entries s) w t s' l c)
    as (s' & l & c & Hrun & Ha).
  { induction t as [|t (s' & l & c & Hrun & Ha)].
    - exists s, [], (λ _, 0). split; [done|]. fold k.
      assert (0 < k)%nat by (unfold k; destruct (entries s); [done|cbn; lia]).
      pose proof (weight_le_sum w k 0 Hw ltac:(lia)).
      split; [done|done| | |done|rewrite sum_const; lia]; fold k.
      + intros i e He. replace (_ - _) with 0 by lia. by apply Hh.
      + split; [done|done|intros; lia|]. rewrite (sum_ext _ (λ _, 0)) by (intros; lia).
        rewrite sum_const. lia.
    - destruct (after_step _ _ (clock t) n len _ _ _ _ Hne Hn Hnd Ha) as (s2 & r & c2 & Hsel & Ha2).
      exists s2, (l ++ [r]), c2. split; [|done]. cbn. rewrite Hrun. cbn. by rewrite Hsel. }
  exists s', l. split; [done|]. destruct Ha as [_ _ _ [B1 B2 B3 B4] Hc Ht]. fold k in B1, B2, B3, B4, Hc, Ht.
  assert (0 < sumZ w k) as HW.
  { assert (0 < k)%nat by (unfold k; destruct (entries s); [done|cbn; lia]).
    pose proof (weight_le_sum w k 0 Hw ltac:(lia)). lia. }
  intros i e He. rewrite <- (Hc i e He). apply lookup_lt_Some in He as Hi. fold k in Hi.
  split; [specialize (B3 i Hi); cbv beta in B3; lia|]. intros m Hm.
  apply (sum_eq_le c (λ i, m * w i) k); [|rewrite Ht|done].
  - intros x Hx. specialize (B3 x Hx). cbv beta in B3. rewrite Hm in B3. nia.
  - rewrite (sum_ext (λ i, m * w i) (λ i, m * w i + 0 * w i)) by (intros; lia).
    rewrite sum_linear, Hm. lia.
Qed.

Definition weights_511 (i : nat) : Z := match i with O => 5 | _ => 1 end.
Definition sched_511 : Scheduler :=
  with_entries
    (map (λ i, mkEntry i (f64.of_Z (weights_511 i)) (f64.of_Z (weights_511 i)) f64.zero None)
       (seq 0 3)) Scheduler_new.

(** The order is smooth: the heavy link does not go five times in a row. *)
Example smooth_order :
  (λ r : outcome (Scheduler * list (option nat)), match r with Ok (_, l) => l | _ => [] end)
    (selects (λ _ _, 0) 3 1400 7 sched_511) =
  [Some 0; Some 0; Some 2; Some 0; Some 1; Some 0; Some 0]%nat.
Proof. vm_compute. reflexivity. Qed.

Lemma swrr_fair_witness :
  ∃ s' l, selects (λ _ _, 0) 3 1400 7 sched_511 = Ok (s', l) ∧
          Z.of_nat (chosen 0 l) = 5 ∧ Z.of_nat (chosen 1 l) = 1.
Proof.
  destruct (swrr_fair sched_511 weights_511 (λ _ _, 0) 3 1400 7) as (s' & l & Hrun & Hc).
  - split; [reflexivity|reflexivity|repeat constructor].
  - vm_compute. congruence.
  - congruence.
  - apply (bool_decide_unpack _). vm_compute. exact I.
  - intros i e He. destruct i as [|[|[|i]]]; cbn in He; [| | |done]; injection He as <-;
      split; reflexivity.
  - intros i _. unfold weights_511. destruct i; lia.
  - vm_compute. reflexivity.
  - exists s', l. split; [exact Hrun|]. split.
    + apply (Hc 0%nat (mkEntry 0 (f64.of_Z 5) (f64.of_Z 5) f64.zero None) eq_refl) with (m := 1).
      vm_compute. reflexivity.
    + apply (Hc 1%nat (mkEntry 1 (f64.of_Z 1) (f64.of_Z 1) f64.zero None) eq_refl) with (m := 1).
      vm_compute. reflexivity.
Defined.
