(* ===== verification/Dispatch.v ===== *)
(** * The transmit dispatcher ([tunnel.rs])

    [TxDispatcher], the bounded queue of each link and its worker, as a machine
    whose steps are the actions of [outbound_sender] and of the workers in any
    interleaving. A [tokio] channel is its queued jobs and its outstanding
    permits; what a socket does with a frame, the clock and the other tasks'
    changes to links and scheduler are chosen by each step. *)

From Stdlib Require Import SpecFloat.
From S2P Require Import Prelude Bytes Protocol F64 Rounding Configuration ProbeHistory Link Congestion Delivery Scheduler.
Import scheduler.

Definition LINK_TX_QUEUE_CAPACITY : nat := 128.
Definition TX_WORKER_BATCH : nat := 32.
Definition SPILL_MIN_DELIVERY_PPM : Z := 500000.

(** A FEC member is its [carried] flag. *)
Record TxJob := mkJob {
  j_ptype : PacketType;
  j_seq : Z;
  plaintext : list Z;
  rerouted : bool;
  enqueued : Z;
  j_member : option bool }.

Definition TxJob_new (now : Z) (ptype : PacketType) (seq : Z) (p : list Z) : TxJob :=
  mkJob ptype seq p false now None.
Definition stamp_job (now : Z) (j : TxJob) : TxJob :=
  mkJob (j_ptype j) (j_seq j) (plaintext j) (rerouted j) now (j_member j).
Definition mark_rerouted (j : TxJob) : TxJob :=
  mkJob (j_ptype j) (j_seq j) (plaintext j) true (enqueued j) (j_member j).

(** The sender half of a link's channel and the link's counters. *)
Record LinkTx := mkLinkTx {
  jobs : list TxJob;
  permits : nat;
  closed : bool;
  counters : TxCounters }.

Definition LinkTx_new : LinkTx := mkLinkTx [] 0 false TxCounters_new.

Definition capacity (q : LinkTx) : nat := LINK_TX_QUEUE_CAPACITY - length (jobs q) - permits q.

Definition set_jobs (l : list TxJob) (q : LinkTx) : LinkTx :=
  mkLinkTx l (permits q) (closed q) (counters q).
Definition set_permits (p : nat) (q : LinkTx) : LinkTx :=
  mkLinkTx (jobs q) p (closed q) (counters q).
Definition on_counters (f : TxCounters → TxCounters) (q : LinkTx) : LinkTx :=
  mkLinkTx (jobs q) (permits q) (closed q) (f (counters q)).

(** The atomic updates of the counters. *)
Definition bump_queue_full (c : TxCounters) : TxCounters :=
  mkTxCounters (wrap 64 (queue_full c + 1)) (send_failed c) (rerouted_away c) (depth c)
    (queue_delay_sum_us c) (queue_delay_samples c) (queue_delay_max_us c)
    (send_wait_sum_us c) (send_wait_samples c) (last_progress_us c)
    (queue_delay_recent_us c) (send_wait_recent_us c) (congestion_milli c) (delivery_ppm c).
Definition bump_send_failed (c : TxCounters) : TxCounters :=
  mkTxCounters (queue_full c) (wrap 64 (send_failed c + 1)) (rerouted_away c) (depth c)
    (queue_delay_sum_us c) (queue_delay_samples c) (queue_delay_max_us c)
    (send_wait_sum_us c) (send_wait_samples c) (last_progress_us c)
    (queue_delay_recent_us c) (send_wait_recent_us c) (congestion_milli c) (delivery_ppm c).
Definition bump_rerouted (c : TxCounters) : TxCounters :=
  mkTxCounters (queue_full c) (send_failed c) (wrap 64 (rerouted_away c + 1)) (depth c)
    (queue_delay_sum_us c) (queue_delay_samples c) (queue_delay_max_us c)
    (send_wait_sum_us c) (send_wait_samples c) (last_progress_us c)
    (queue_delay_recent_us c) (send_wait_recent_us c) (congestion_milli c) (delivery_ppm c).
Definition add_depth (d : Z) (c : TxCounters) : TxCounters :=
  mkTxCounters (queue_full c) (send_failed c) (rerouted_away c) (wrap 32 (depth c + d))
    (queue_delay_sum_us c) (queue_delay_samples c) (queue_delay_max_us c)
    (send_wait_sum_us c) (send_wait_samples c) (last_progress_us c)
    (queue_delay_recent_us c) (send_wait_recent_us c) (congestion_milli c) (delivery_ppm c).
Definition note_batch (delay mono : Z) (c : TxCounters) : TxCounters :=
  mkTxCounters (queue_full c) (send_failed c) (rerouted_away c) (depth c)
    (wrap 64 (queue_delay_sum_us c + delay)) (wrap 64 (queue_delay_samples c + 1))
    (Z.max (queue_delay_max_us c) delay) (send_wait_sum_us c) (send_wait_samples c) mono
    (queue_delay_recent_us c) (send_wait_recent_us c) (congestion_milli c) (delivery_ppm c).
Definition note_wait (per_packet_us : Z) (c : TxCounters) : TxCounters :=
  mkTxCounters (queue_full c) (send_failed c) (rerouted_away c) (depth c)
    (queue_delay_sum_us c) (queue_delay_samples c) (queue_delay_max_us c)
    (wrap 64 (send_wait_sum_us c + per_packet_us)) (wrap 64 (send_wait_samples c + 1))
    (last_progress_us c) (queue_delay_recent_us c) (send_wait_recent_us c)
    (congestion_milli c) (delivery_ppm c).
Definition note_progress (mono : Z) (c : TxCounters) : TxCounters :=
  mkTxCounters (queue_full c) (send_failed c) (rerouted_away c) (depth c)
    (queue_delay_sum_us c) (queue_delay_samples c) (queue_delay_max_us c)
    (send_wait_sum_us c) (send_wait_samples c) mono
    (queue_delay_recent_us c) (send_wait_recent_us c) (congestion_milli c) (delivery_ppm c).

(** ** Where a packet may spill *)

(** [sort_by] of the candidates: most free slots first, then by index. *)
Definition spill_before (free : list nat) (a b : nat) : bool :=
  let fa := default 0%nat (free !! a) in
  let fb := default 0%nat (free !! b) in
  (fb <? fa)%nat || ((fa =? fb)%nat && (a <=? b)%nat).

Fixpoint insert_sorted (before : nat → nat → bool) (x : nat) (l : list nat) : list nat :=
  match l with
  | [] => [x]
  | y :: l => if before x y then x :: y :: l else y :: insert_sorted before x l
  end.

Definition spill_candidates (free : list nat) (ppm : list Z) (from : nat) : list nat :=
  let c := List.filter (λ i, negb (i =? from)%nat && (0 <? default 0%nat (free !! i))%nat
                             && (SPILL_MIN_DELIVERY_PPM <=? default 1000000 (ppm !! i)))
             (List.seq 0 (length free)) in
  foldr (insert_sorted (spill_before free)) [] c.

(** ** The machine *)

(** Where a task is with the job it is placing. [Choose] and [Try] are
    [reserve], [Refuse] the call of [spill_reserve], [Spill] its loop, [Hold]
    and [Raised] the two halves of [send_reserved]. *)
Inductive phase :=
  | Choose (forced : option nat)
  | Try (idx : nat)
  | Refuse (from : nat)
  | Spill (from : nat) (cands : list nat)
  | Hold (idx : nat)
  | Raised (idx : nat).

Definition activity : Type := TxJob * phase.

(** [link_tx_worker]: the rest of the batch, [batch_len], the bytes and packets
    sent, and the job being rerouted. *)
Record worker := mkWorker {
  w_rest : list TxJob;
  w_len : nat;
  w_bytes : Z;
  w_pkts : Z;
  w_busy : option activity }.

Definition worker_idle : worker := mkWorker [] 0 0 0 None.

(** [outbound_sender]: placing a job, or copying one to the targets of
    redundant mode; [CopyRaised] is inside [try_enqueue]. *)
Inductive sender :=
  | Waiting
  | Placing (a : activity)
  | Copying (job : TxJob) (targets : list nat)
  | CopyRaised (job : TxJob) (idx : nat) (targets : list nat).

(** [allow_spill] and the links with whether they have a remote; the last three
    count, for the statements, the jobs submitted, put on the wire and given up
    without [drop_job]. *)
Record Tx := mkTx {
  allow_spill : bool;
  links : list (Link * bool);
  sched : Scheduler;
  queues : list LinkTx;
  workers : list worker;
  outbound : sender;
  dropped_total : Z;
  submitted : nat;
  wired : nat;
  skipped : nat }.

Definition Tx_new (spill : bool) (ls : list (Link * bool)) : Tx :=
  mkTx spill ls Scheduler_new (replicate (length ls) LinkTx_new)
    (replicate (length ls) worker_idle) Waiting 0 0 0 0.

Definition with_links (l : list (Link * bool)) (s : Tx) : Tx :=
  mkTx (allow_spill s) l (sched s) (queues s) (workers s) (outbound s) (dropped_total s)
    (submitted s) (wired s) (skipped s).
Definition with_sched (c : Scheduler) (s : Tx) : Tx :=
  mkTx (allow_spill s) (links s) c (queues s) (workers s) (outbound s) (dropped_total s)
    (submitted s) (wired s) (skipped s).
Definition with_queue (i : nat) (f : LinkTx → LinkTx) (s : Tx) : Tx :=
  mkTx (allow_spill s) (links s) (sched s) (alter f i (queues s)) (workers s) (outbound s)
    (dropped_total s) (submitted s) (wired s) (skipped s).
Definition with_worker (i : nat) (f : worker → worker) (s : Tx) : Tx :=
  mkTx (allow_spill s) (links s) (sched s) (queues s) (alter f i (workers s)) (outbound s)
    (dropped_total s) (submitted s) (wired s) (skipped s).
Definition with_outbound (o : sender) (s : Tx) : Tx :=
  mkTx (allow_spill s) (links s) (sched s) (queues s) (workers s) o (dropped_total s)
    (submitted s) (wired s) (skipped s).
Definition drop_job (s : Tx) : Tx :=
  mkTx (allow_spill s) (links s) (sched s) (queues s) (workers s) (outbound s)
    (wrap 64 (dropped_total s + 1)) (submitted s) (wired s) (skipped s).
Definition count (sub wire skip : nat) (s : Tx) : Tx :=
  mkTx (allow_spill s) (links s) (sched s) (queues s) (workers s) (outbound s)
    (dropped_total s) (submitted s + sub) (wired s + wire) (skipped s + skip).

(** The test of [reserve] on a pinned link. *)
Definition pinned_usable (lr : Link * bool) : bool :=
  bool_decide (state lr.1 = Up) && negb (admin_disabled lr.1) && lr.2.

(** The clock readings of a step. *)
Record clocks := mkClocks { c_now : Z; c_fast : nat → Z; c_full : nat → Z }.

Definition HEADER_BYTES : Z := Z.of_nat HEADER_LEN.
Definition frame_len (j : TxJob) : Z := HEADER_BYTES + Z.of_nat (length (plaintext j)).

(** [spill_reserve] up to its loop. *)
Definition spill_start (from : nat) (s : Tx) : phase :=
  Spill from (spill_candidates (map capacity (queues s))
                (map (λ q, delivery_ppm (counters q)) (queues s)) from).

(** One action of a task on its job; [None] when it is done with it. *)
Definition act (c : clocks) (s : Tx) (a : activity) : outcome (Tx * option activity) :=
  let '(job, p) := a in
  match p with
  | Choose forced =>
      let pinned := match forced with
                    | Some f => match links s !! f with
                                | Some lr => if pinned_usable lr then Some f else None
                                | None => None end
                    | None => None end in
      '(s, chosen) ←
        match pinned with
        | Some f => Ok (s, Some f)
        | None =>
            '(sc, r) ← pick_link (c_fast c) (c_full c) (map fst (links s)) (frame_len job) (sched s);
            Ok (with_sched sc s, r)
        end;
      match chosen with
      | Some idx => if (idx <? length (queues s))%nat then Ok (s, Some (job, Try idx))
                    else Ok (count 0 0 1 s, None)
      | None => Ok (count 0 0 1 s, None)
      end
  | Try idx =>
      match queues s !! idx with
      | None => Panic
      | Some q =>
          if closed q then Ok (s, Some (job, Refuse idx))
          else if (0 <? capacity q)%nat
          then Ok (with_queue idx (λ q, set_permits (S (permits q)) q) s, Some (job, Hold idx))
          else
            let s := with_queue idx (on_counters bump_queue_full) s in
            let s := with_sched (note_queue_full (c_now c) idx (sched s)) s in
            if allow_spill s then Ok (s, Some (job, Refuse idx)) else Ok (drop_job s, None)
      end
  | Refuse from => Ok (s, Some (job, spill_start from s))
  | Spill from [] => Ok (drop_job s, None)
  | Spill from (cand :: cands) =>
      match links s !! cand, queues s !! cand with
      | Some lr, Some q =>
          if bool_decide (state lr.1 = Down) || admin_disabled lr.1 || negb lr.2
          then Ok (s, Some (job, Spill from cands))
          else if negb (closed q) && (0 <? capacity q)%nat
          then Ok (with_queue from (on_counters bump_rerouted)
                     (with_queue cand (λ q, set_permits (S (permits q)) q) s),
                   Some (job, Hold cand))
          else Ok (s, Some (job, Spill from cands))
      | _, _ => Panic
      end
  | Hold idx =>
      Ok (with_queue idx (on_counters (add_depth 1)) s, Some (stamp_job (c_now c) job, Raised idx))
  | Raised idx =>
      Ok (with_queue idx (λ q, set_jobs (jobs q ++ [job]) (set_permits (permits q - 1) q)) s, None)
  end.

(** The targets of [send_redundant]: the links that are Up and have a remote,
    else those with a remote. *)
Definition redundant_targets (ls : list (Link * bool)) : list nat :=
  let any := List.filter (λ i, match ls !! i with Some lr => lr.2 | None => false end)
               (List.seq 0 (length ls)) in
  let up := List.filter (λ i, match ls !! i with
                              | Some lr => bool_decide (state lr.1 = Up) | None => false end) any in
  match up with [] => any | _ => up end.

(** The send loop's reaction to a failed job: [note_send_failed], then
    [reroute]. *)
Definition fail_job (now : Z) (i : nat) (job : TxJob) (rest : list TxJob) (s : Tx) : Tx :=
  let s := with_queue i (on_counters bump_send_failed) s in
  let s := with_sched (note_send_failed now i (sched s)) s in
  if rerouted job
  then drop_job (with_worker i (λ w, mkWorker rest (w_len w) (w_bytes w) (w_pkts w) None) s)
  else with_worker i (λ w, mkWorker rest (w_len w) (w_bytes w) (w_pkts w)
                             (Some (mark_rerouted job, Refuse i))) s.

Definition sent_job (i : nat) (job : TxJob) (rest : list TxJob) (s : Tx) : Tx :=
  count 0 1 0
    (with_worker i (λ w, mkWorker rest (w_len w) (wrap 64 (w_bytes w + frame_len job))
                           (wrap 64 (w_pkts w + 1)) None) s).

(** The end of a batch. *)
Definition finish_batch (now now' elapsed_us mono : Z) (i : nat) (w : worker) (s : Tx) : Tx :=
  let s :=
    if w_pkts w =? 0 then s
    else
      let s := with_queue i (on_counters (note_wait (elapsed_us / w_pkts w))) s in
      with_links (alter (λ lr, (with_stats (record_tx_many now now' (w_bytes w) (w_pkts w)) lr.1,
                                lr.2)) i (links s)) s in
  let s := with_queue i (on_counters (note_progress mono ∘ add_depth (- Z.of_nat (w_len w)))) s in
  with_worker i (λ _, worker_idle) s.

Inductive tx_step : Tx → Tx → Prop :=
  | tx_place s s' c a o :
      outbound s = Placing a → act c s a = Ok (s', o) →
      tx_step s (with_outbound (match o with Some a => Placing a | None => Waiting end) s')
  | tx_copy s job idx targets :
      outbound s = Copying job (idx :: targets) →
      tx_step s (with_outbound (CopyRaised job idx targets)
                   (with_queue idx (on_counters (add_depth 1)) s))
  | tx_copy_full s job idx targets q :
      outbound s = CopyRaised job idx targets → queues s !! idx = Some q → capacity q = 0%nat →
      tx_step s (count 0 0 1 (with_outbound (Copying job targets)
                   (with_queue idx (on_counters (bump_queue_full ∘ add_depth (-1))) s)))
  | tx_copy_sent s job idx targets q now :
      outbound s = CopyRaised job idx targets → queues s !! idx = Some q → (0 < capacity q)%nat →
      tx_step s (with_outbound (Copying job targets)
                   (with_queue idx (λ q, set_jobs (jobs q ++ [mark_rerouted (stamp_job now job)]) q) s))
  | tx_copied s job :
      outbound s = Copying job [] → tx_step s (with_outbound Waiting s)
  | tx_recv s i w q k delay mono :
      workers s !! i = Some w → w_rest w = [] → w_len w = 0%nat → w_busy w = None →
      queues s !! i = Some q → (0 < k ≤ TX_WORKER_BATCH)%nat → (k ≤ length (jobs q))%nat →
      tx_step s (with_worker i (λ _, mkWorker (take k (jobs q)) k 0 0 None)
                   (with_queue i (λ q, on_counters (note_batch delay mono)
                                         (set_jobs (drop k (jobs q)) q)) s))
  | tx_sent s i w job rest :
      workers s !! i = Some w → w_rest w = job :: rest → w_busy w = None →
      tx_step s (sent_job i job rest s)
  | tx_failed s i w job rest now :
      workers s !! i = Some w → w_rest w = job :: rest → w_busy w = None →
      tx_step s (fail_job now i job rest s)
  | tx_reroute s i w c a s' o :
      workers s !! i = Some w → w_busy w = Some a → act c s a = Ok (s', o) →
      tx_step s (with_worker i (λ w, mkWorker (w_rest w) (w_len w) (w_bytes w) (w_pkts w) o) s')
  | tx_finish s i w now now' elapsed mono :
      workers s !! i = Some w → w_rest w = [] → w_busy w = None → (0 < w_len w)%nat →
      tx_step s (finish_batch now now' elapsed mono i w s).

(** What comes from outside: a new job or a new frame to copy, and the other
    tasks' changes to the links, to the scheduler and to the feedback the
    dispatcher reads from the counters of a queue. *)
Inductive tx_input : Tx → Tx → Prop :=
  | tx_submit s job forced :
      outbound s = Waiting → rerouted job = false →
      tx_input s (count 1 0 0 (with_outbound (Placing (job, Choose forced)) s))
  | tx_redundant s job :
      outbound s = Waiting →
      let t := redundant_targets (links s) in
      tx_input s (count (length t) 0 0 (with_outbound (Copying job t) s))
  | tx_env s ls c t :
      length ls = length (links s) → sched_reach (length ls) t c →
      tx_input s (with_sched c (with_links ls s))
  | tx_feedback s i delay wait milli ppm :
      tx_input s (with_queue i (on_counters (set_delivery_ppm ppm ∘ set_congestion delay wait milli)) s).

Inductive tx_reach (spill : bool) (ls : list (Link * bool)) : Tx → Prop :=
  | tx_start : tx_reach spill ls (Tx_new spill ls)
  | tx_internal s s' : tx_reach spill ls s → tx_step s s' → tx_reach spill ls s'
  | tx_external s s' : tx_reach spill ls s → tx_input s s' → tx_reach spill ls s'.

(** ** Counting *)

Lemma sum_alter {A} (f : A → nat) (g : A → A) i l x :
  l !! i = Some x → (sum_list_with f (alter g i l) + f x = sum_list_with f l + f (g x))%nat.
Proof.
  revert i; induction l as [|y l IH]; intros i Hi; [done|].
  destruct i as [|i]; cbn in Hi.
  - injection Hi as ->. change (alter g 0%nat (x :: l)) with (g x :: l). cbn. lia.
  - change (alter g (S i) (y :: l)) with (y :: alter g i l). cbn. specialize (IH i Hi). lia.
Qed.

Lemma sum_lookup {A} (f : A → nat) i l x :
  l !! i = Some x → (f x ≤ sum_list_with f l)%nat.
Proof.
  revert i. induction l as [|y l IH]; intros [|i] Hi; cbn in *; [done|done| |].
  - injection Hi as ->. lia.
  - specialize (IH i Hi). lia.
Qed.

Definition flight (o : option activity) : nat := match o with Some _ => 1 | None => 0 end.
Definition hold (i : nat) (o : option activity) : nat :=
  match o with
  | Some (_, Hold j) | Some (_, Raised j) => if (j =? i)%nat then 1 else 0
  | _ => 0
  end.
Definition raise (i : nat) (o : option activity) : nat :=
  match o with Some (_, Raised j) => if (j =? i)%nat then 1 else 0 | _ => 0 end.

Definition placing (o : sender) : option activity :=
  match o with Placing a => Some a | _ => None end.
Definition copies (o : sender) : nat :=
  match o with
  | Copying _ t => length t
  | CopyRaised _ _ t => S (length t)
  | _ => 0
  end.
Definition copy_raise (i : nat) (o : sender) : nat :=
  match o with CopyRaised _ j _ => if (j =? i)%nat then 1 else 0 | _ => 0 end.

(** The jobs the machine holds, the permits out on a queue and the raises of its
    depth that are not matched by a job yet. *)
Definition in_flight (s : Tx) : nat :=
  (sum_list_with (λ q, length (jobs q)) (queues s) +
   sum_list_with (λ w, length (w_rest w) + flight (w_busy w)) (workers s) +
   flight (placing (outbound s)) + copies (outbound s))%nat.
Definition held (i : nat) (s : Tx) : nat :=
  (hold i (placing (outbound s)) + sum_list_with (λ w, hold i (w_busy w)) (workers s))%nat.
Definition raised (i : nat) (s : Tx) : nat :=
  (raise i (placing (outbound s)) + copy_raise i (outbound s) +
   sum_list_with (λ w, raise i (w_busy w)) (workers s))%nat.
Definition batch_len (i : nat) (s : Tx) : nat :=
  match workers s !! i with Some w => w_len w | None => 0 end.

Definition phase_ok (n : nat) (p : phase) : Prop :=
  match p with
  | Choose _ => True
  | Try i | Refuse i | Hold i | Raised i => (i < n)%nat
  | Spill i cands => (i < n)%nat ∧ (length cands ≤ n)%nat ∧ Forall (λ c, (c < n)%nat) cands
  end.

(** What one action does to one queue, and in total. *)
Record queue_delta (i : nat) (a o : option activity) (q q' : LinkTx) : Prop := {
  qd_closed : closed q' = closed q;
  qd_permits : (permits q' + hold i a = permits q + hold i o)%nat;
  qd_room : (length (jobs q') + permits q' ≤ LINK_TX_QUEUE_CAPACITY)%nat;
  qd_depth : depth (counters q') =
    wrap 32 (depth (counters q) + Z.of_nat (length (jobs q')) - Z.of_nat (length (jobs q))
             + Z.of_nat (raise i o) - Z.of_nat (raise i a)) }.

Record act_delta (n : nat) (s s' : Tx) (a o : option activity) : Prop := {
  ad_workers : workers s' = workers s;
  ad_outbound : outbound s' = outbound s;
  ad_links : links s' = links s;
  ad_submitted : submitted s' = submitted s;
  ad_wired : wired s' = wired s;
  ad_sched : ∃ t, sched_inv n t (sched s');
  ad_length : length (queues s') = length (queues s);
  ad_queue : ∀ i q, queues s !! i = Some q →
             ∃ q', queues s' !! i = Some q' ∧ queue_delta i a o q q';
  ad_total : ∃ d : nat, dropped_total s' = wrap 64 (dropped_total s + Z.of_nat d) ∧
    (sum_list_with (λ q, length (jobs q)) (queues s') + flight o + d + skipped s' =
     sum_list_with (λ q, length (jobs q)) (queues s) + flight a + skipped s)%nat;
  ad_phase : match o with Some (_, p) => phase_ok n p | None => True end;
  ad_job : match a, o with Some (j, _), Some (j', _) => rerouted j' = rerouted j | _, _ => True end }.

Lemma insert_sorted_perm before x l : insert_sorted before x l ≡ₚ x :: l.
Proof.
  induction l as [|y l IH]; cbn; [done|]. destruct (before x y); [done|]. rewrite IH. constructor.
Qed.

Lemma spill_candidates_elem free ppm from c :
  c ∈ spill_candidates free ppm from ↔
  (c < length free)%nat ∧ c ≠ from ∧ (0 < default 0 (free !! c))%nat ∧
  SPILL_MIN_DELIVERY_PPM ≤ default 1000000 (ppm !! c).
Proof.
  unfold spill_candidates. set (l := List.filter _ _).
  assert (foldr (insert_sorted (spill_before free)) [] l ≡ₚ l) as ->.
  { induction l as [|x l IH]; [done|]. cbn. by rewrite insert_sorted_perm, IH. }
  subst l. rewrite list_elem_of_In, filter_In, in_seq, !andb_true_iff, negb_true_iff, Nat.eqb_neq,
    Nat.ltb_lt, Z.leb_le. naive_solver lia.
Qed.

Lemma spill_candidates_length free ppm from :
  (length (spill_candidates free ppm from) ≤ length free)%nat.
Proof.
  unfold spill_candidates. set (l := List.filter _ _).
  assert (length (foldr (insert_sorted (spill_before free)) [] l) = length l) as ->.
  { induction l as [|x l IH]; [done|]. cbn. by rewrite insert_sorted_perm; cbn; rewrite IH. }
  subst l. etransitivity; [apply filter_length_le|]. by rewrite length_seq.
Qed.

(** The queues an update leaves alone. *)
Lemma queue_same i a o q :
  hold i a = hold i o → raise i a = raise i o → depth (counters q) = wrap 32 (depth (counters q)) →
  (length (jobs q) + permits q ≤ LINK_TX_QUEUE_CAPACITY)%nat → queue_delta i a o q q.
Proof.
  intros Hh Hr Hd Hc. split; [done|lia|done|]. rewrite Hr, Hd at 1. f_equal. lia.
Qed.

(** ** One action *)

(** What an action needs of the state. *)
Record act_pre (n : nat) (s : Tx) (a : activity) : Prop := {
  ap_links : length (links s) = n;
  ap_queues : length (queues s) = n;
  ap_sched : ∃ t, sched_inv n t (sched s);
  ap_queue : ∀ i q, queues s !! i = Some q →
    closed q = false ∧ (length (jobs q) + permits q ≤ LINK_TX_QUEUE_CAPACITY)%nat ∧
    depth (counters q) = wrap 32 (depth (counters q)) ∧ (hold i (Some a) ≤ permits q)%nat;
  ap_phase : phase_ok n a.2 }.

(** An action that leaves the queues alone. *)
Lemma delta_same n s s' job p o (d k : nat) :
  act_pre n s (job, p) → (∀ i, hold i (Some (job, p)) = 0%nat) →
  (∀ i, hold i o = 0%nat) → (∀ i, raise i o = 0%nat) →
  queues s' = queues s → workers s' = workers s → outbound s' = outbound s → links s' = links s →
  submitted s' = submitted s → wired s' = wired s → (∃ t, sched_inv n t (sched s')) →
  dropped_total s' = wrap 64 (dropped_total s + Z.of_nat d) → skipped s' = (skipped s + k)%nat →
  (flight o + d + k = 1)%nat →
  match o with Some (j', p') => phase_ok n p' ∧ rerouted j' = rerouted job | None => True end →
  act_delta n s s' (Some (job, p)) o.
Proof.
  intros [P1 P2 P3 P4 P5] Ha Ho Hr Hq Hw Hout Hl Hs Hwi Hsc Hd Hk Hf Hp.
  assert (∀ i, raise i (Some (job, p)) = 0%nat) as Hra.
  { intros i. specialize (Ha i). destruct p; cbn in *; done. }
  split; try done.
  - by rewrite Hq.
  - intros i q Hi. exists q. rewrite Hq. split; [done|]. destruct (P4 i q Hi) as (_ & Hc & Hdep & _).
    apply queue_same; [by rewrite Ha, Ho|by rewrite Hra, Hr|done|done].
  - exists d. split; [done|]. rewrite Hq, Hk. cbn [flight]. lia.
  - by destruct o as [[? ?]|]; [apply Hp|].
  - by destruct o as [[? ?]|]; [apply Hp|].
Qed.

(** An action that changes one queue. *)
Lemma delta_one n s s' job p o idx f q0 (d : nat) :
  act_pre n s (job, p) → queues s !! idx = Some q0 →
  (∀ i, i ≠ idx → hold i (Some (job, p)) = hold i o) →
  (∀ i, i ≠ idx → raise i (Some (job, p)) = raise i o) →
  queue_delta idx (Some (job, p)) o q0 (f q0) →
  (length (jobs (f q0)) + flight o + d = length (jobs q0) + 1)%nat →
  queues s' = alter f idx (queues s) → workers s' = workers s → outbound s' = outbound s →
  links s' = links s → submitted s' = submitted s → wired s' = wired s →
  (∃ t, sched_inv n t (sched s')) →
  dropped_total s' = wrap 64 (dropped_total s + Z.of_nat d) → skipped s' = skipped s →
  match o with Some (j', p') => phase_ok n p' ∧ rerouted j' = rerouted job | None => True end →
  act_delta n s s' (Some (job, p)) o.
Proof.
  intros [P1 P2 P3 P4 P5] Hi0 Hh Hr Hdel Hjobs Hq Hw Hout Hl Hs Hwi Hsc Hd Hk Hp.
  split; try done.
  - by rewrite Hq, length_alter.
  - intros i q Hi. rewrite Hq. destruct (decide (i = idx)) as [->|Hne].
    + rewrite list_lookup_alter_eq, Hi. cbn. exists (f q). split; [done|].
      rewrite Hi0 in Hi. by injection Hi as <-.
    + rewrite list_lookup_alter_ne by done. exists q. split; [done|].
      destruct (P4 i q Hi) as (_ & Hc & Hdep & _). apply queue_same; auto.
  - exists d. split; [done|].
    pose proof (sum_alter (λ q, length (jobs q)) f idx (queues s) q0 Hi0) as Hsum.
    cbv beta in Hsum. rewrite Hq, Hk. cbn [flight]. lia.
  - by destruct o as [[? ?]|]; [apply Hp|].
  - by destruct o as [[? ?]|]; [apply Hp|].
Qed.

(** The work an activity stands for at most, and a queued job. *)
Definition base (n : nat) (p : phase) : nat :=
  match p with
  | Choose _ => 6 + n | Try _ => 5 + n | Refuse _ => 4 + n
  | Spill _ cands => 3 + length cands | Hold _ => 2 | Raised _ => 1
  end.
Definition queue_work (n : nat) (j : TxJob) : nat := if rerouted j then 3 else n + 11.
Definition work (n : nat) (o : option activity) : nat :=
  match o with Some (j, p) => base n p + queue_work n j | None => 0 end.
Definition jobs_work (n : nat) (q : LinkTx) : nat := sum_list_with (queue_work n) (jobs q).

Definition act_post (n : nat) (s : Tx) (a : activity) (r : outcome (Tx * option activity)) : Prop :=
  ∃ s' o, r = Ok (s', o) ∧ act_delta n s s' (Some a) o ∧
    (sum_list_with (jobs_work n) (queues s') + work n o <
     sum_list_with (jobs_work n) (queues s) + work n (Some a))%nat.

Lemma jobs_work_same n f i qs :
  (∀ q, jobs (f q) = jobs q) →
  sum_list_with (jobs_work n) (alter f i qs) = sum_list_with (jobs_work n) qs.
Proof.
  intros Hf. revert i. induction qs as [|q qs IH]; intros [|i]; [done|done| |].
  - change (alter f 0%nat (q :: qs)) with (f q :: qs). cbn. unfold jobs_work at 1 3. by rewrite Hf.
  - change (alter f (S i) (q :: qs)) with (q :: alter f i qs). cbn. by rewrite IH.
Qed.

Lemma lookup_queue n s i : length (queues s) = n → (i < n)%nat → ∃ q, queues s !! i = Some q.
Proof. intros Hl Hi. apply lookup_lt_is_Some_2. lia. Qed.

Lemma choose_ok n s c job forced :
  act_pre n s (job, Choose forced) → dropped_total s = wrap 64 (dropped_total s) →
  act_post n s (job, Choose forced) (act c s (job, Choose forced)).
Proof.
  intros Hpre Hd. pose proof Hpre as [P1 P2 [t P3] P4 P5]. cbn [act].
  set (pinned := match forced with Some _ => _ | None => _ end).
  assert (∀ f, pinned = Some f → (f < n)%nat) as Hpin.
  { intros f. subst pinned. destruct forced as [g|]; [|done].
    destruct (links s !! g) as [lr|] eqn:E; [|done]. destruct (pinned_usable lr); [|done].
    intros [= <-]. apply lookup_lt_Some in E. lia. }
  assert (∀ (s1 : Tx) (r : option nat),
    queues s1 = queues s → workers s1 = workers s → outbound s1 = outbound s → links s1 = links s →
    submitted s1 = submitted s → wired s1 = wired s → (∃ t, sched_inv n t (sched s1)) →
    dropped_total s1 = dropped_total s → skipped s1 = skipped s → (∀ i, r = Some i → (i < n)%nat) →
    act_post n s (job, Choose forced)
      (match r with
       | Some idx => if (idx <? length (queues s1))%nat then Ok (s1, Some (job, Try idx))
                     else Ok (count 0 0 1 s1, None)
       | None => Ok (count 0 0 1 s1, None) end)) as Hgo.
  { intros s1 r E1 E2 E3 E4 E5 E6 E7 E8 E9 Hr. destruct r as [idx|].
    - rewrite E1, P2, (proj2 (Nat.ltb_lt idx n)) by auto.
      exists s1, (Some (job, Try idx)). split; [done|]. split.
      + apply (delta_same n s s1 job (Choose forced) _ 0 0); try done;
          [by rewrite E8, Z.add_0_r|lia|]. split; [by apply Hr|done].
      + rewrite E1. cbn. lia.
    - exists (count 0 0 1 s1), None. split; [done|]. split.
      + apply (delta_same n s _ job (Choose forced) None 0 1); cbn; try done.
        all: rewrite ?E5, ?E6, ?E8, ?E9, ?Z.add_0_r, ?Nat.add_0_r; try done.
      + cbn [queues count]. rewrite E1. cbn. lia. }
  destruct pinned as [f|].
  - cbn [mbind outcome_bind]. apply (Hgo s (Some f)); try done. by exists t.
  - destruct (Nat.eq_dec n 0%nat) as [->|Hn].
    + destruct (links s) as [|lr ls] eqn:El; [|done]. cbn [map length pick_link select_fast].
      unfold pick_link, select_fast, select, snapshot_scores. cbn.
      apply (Hgo (with_sched (sched s) s) None); try done. by exists t.
    + destruct (pick_link_ok n t (sched s) (map fst (links s)) (frame_len job) (c_fast c) (c_full c))
        as (Heq & s' & i & Hpick & Hi & _); [done|by rewrite length_map|lia|].
      rewrite Hpick. cbn [mbind outcome_bind]. apply (Hgo (with_sched s' s) (Some i)); try done.
      * exists t. rewrite Heq in Hpick. by eapply select_inv.
      * by intros ? [= <-].
Qed.

(** A counter other than the depth does not matter. *)
Lemma delta_counter n s s' a o i f :
  (∀ c, depth (f c) = depth c) → act_delta n s s' a o →
  act_delta n s (with_queue i (on_counters f) s') a o.
Proof.
  intros Hf [D1 D2 D3 D4 D5 D6 D7 D8 D9 D10 D11]. split; try done.
  - cbn. by rewrite length_alter.
  - intros k q Hk. destruct (D8 k q Hk) as (q' & Hq' & [Q1 Q2 Q3 Q4]). cbn.
    destruct (decide (k = i)) as [->|Hne].
    + rewrite list_lookup_alter_eq, Hq'. exists (on_counters f q'). split; [done|].
      split; try done. cbn [on_counters counters jobs]. by rewrite Hf, Q4.
    + rewrite list_lookup_alter_ne by done. by exists q'.
  - destruct D9 as (d & Hd & Hsum). exists d. split; [done|]. cbn [queues with_queue skipped].
    replace (sum_list_with _ (alter _ _ _)) with (sum_list_with (λ q, length (jobs q)) (queues s')); [done|].
    clear. revert i. induction (queues s') as [|q qs IH]; intros [|i]; [done|done|done|].
    change (alter ?g (S i) (q :: qs)) with (q :: alter g i qs). cbn. by rewrite (IH i).
Qed.

Lemma sched_note n now idx s :
  (∃ t, sched_inv n t s) →
  (∃ t, sched_inv n t (note_queue_full now idx s)) ∧ (∃ t, sched_inv n t (note_send_failed now idx s)).
Proof. intros [t []]. split; exists t; by split. Qed.

Lemma depth_same q : depth (counters q) = wrap 32 (depth (counters q)) →
  ∀ a b : nat, a = b → ∀ x : nat, 
  depth (counters q) = wrap 32 (depth (counters q) + Z.of_nat x - Z.of_nat x + Z.of_nat a - Z.of_nat b).
Proof. intros H a b -> x. rewrite H at 1. f_equal. lia. Qed.

Lemma try_ok n s c job idx :
  act_pre n s (job, Try idx) → dropped_total s = wrap 64 (dropped_total s) →
  act_post n s (job, Try idx) (act c s (job, Try idx)).
Proof.
  intros Hpre Hd. pose proof Hpre as [P1 P2 P3 P4 P5]. cbn [act]. cbn in P5.
  destruct (lookup_queue n s idx P2 P5) as [q Hq]. rewrite Hq.
  destruct (P4 idx q Hq) as (-> & Hroom & Hdep & _).
  destruct (Nat.ltb_spec 0 (capacity q)) as [Hcap|Hcap].
  - eexists _, _. split; [done|]. split.
    + apply (delta_one n s _ job (Try idx) _ idx (λ q, set_permits (S (permits q)) q) q 0); try done.
      * intros i Hi. cbn. by rewrite (proj2 (Nat.eqb_neq idx i)).
      * split; [done| | |by apply (depth_same q)]; cbn; [rewrite Nat.eqb_refl; lia|].
        unfold capacity in Hcap. lia.
      * cbn. by rewrite Z.add_0_r.
    + cbn [queues with_queue]. rewrite jobs_work_same by done. cbn. lia.
  - set (s1 := with_sched _ _).
    assert (∀ o d, (flight o + d = 1)%nat → (∀ i, hold i o = 0%nat) → (∀ i, raise i o = 0%nat) →
      match o with Some (j', p') => phase_ok n p' ∧ rerouted j' = rerouted job | None => True end →
      ∀ s2, queues s2 = queues s1 → workers s2 = workers s → outbound s2 = outbound s →
        links s2 = links s → submitted s2 = submitted s → wired s2 = wired s → sched s2 = sched s1 →
        dropped_total s2 = wrap 64 (dropped_total s + Z.of_nat d) → skipped s2 = skipped s →
        act_delta n s s2 (Some (job, Try idx)) o) as Hgo.
    { intros o d Hf Hh Hr Ho s2 E1 E2 E3 E4 E5 E6 E7 E8 E9.
      apply (delta_one n s s2 job (Try idx) o idx (on_counters bump_queue_full) q d); try done.
      - split; [done| |done|apply (depth_same q); [done|by rewrite Hr]]. cbn. by rewrite Hh.
      - cbn. lia.
      - rewrite E7. by apply sched_note. }
    change (allow_spill s1) with (allow_spill s). destruct (allow_spill s).
    + exists s1, (Some (job, Refuse idx)). split; [done|]. split.
      * by apply (Hgo (Some (job, Refuse idx)) 0%nat); try done; cbn; rewrite Z.add_0_r.
      * subst s1. cbn [queues with_sched with_queue]. rewrite jobs_work_same by done. cbn. lia.
    + exists (drop_job s1), None. split; [done|]. split.
      * by apply (Hgo None 1%nat).
      * subst s1. cbn [queues with_sched with_queue drop_job]. rewrite jobs_work_same by done. cbn. lia.
Qed.

Lemma spill_ok n s c job from cands :
  act_pre n s (job, Spill from cands) → dropped_total s = wrap 64 (dropped_total s) →
  act_post n s (job, Spill from cands) (act c s (job, Spill from cands)).
Proof.
  intros Hpre Hd. pose proof Hpre as [P1 P2 P3 P4 P5]. cbn in P5. destruct P5 as (Hfrom & Hlen & Hall).
  destruct cands as [|cand cands]; cbn [act].
  { exists (drop_job s), None. split; [done|]. split; [|cbn; lia].
    by apply (delta_same n s _ job (Spill from []) None 1 0). }
  apply Forall_cons in Hall as [Hc Hall]. cbn in Hlen.
  destruct (lookup_queue n s cand P2 Hc) as [q Hq]. rewrite Hq.
  destruct (lookup_lt_is_Some_2 (links s) cand) as [lr Hlr]; [lia|]. rewrite Hlr.
  destruct (P4 cand q Hq) as (Hcl & Hroom & Hdep & _).
  assert (act_post n s (job, Spill from (cand :: cands)) (Ok (s, Some (job, Spill from cands)))) as Hskip.
  { exists s, (Some (job, Spill from cands)). split; [done|]. split; [|cbn; lia].
    apply (delta_same n s s job _ _ 0 0); try done; [by rewrite Z.add_0_r|].
    cbn. split; [|done]. split; [done|]. split; [lia|done]. }
  destruct (_ || _); [done|]. destruct (negb (closed q) && _) eqn:E; [|done].
  apply andb_true_iff in E as [_ Hcap%Nat.ltb_lt].
  eexists _, _. split; [done|]. split.
  - apply delta_counter; [done|].
    apply (delta_one n s _ job _ _ cand (λ q, set_permits (S (permits q)) q) q 0); try done.
    * intros i Hi. cbn. by rewrite (proj2 (Nat.eqb_neq cand i)).
    * split; [done| | |by apply (depth_same q)]; cbn; [rewrite Nat.eqb_refl; lia|].
      unfold capacity in Hcap. lia.
    * cbn. by rewrite Z.add_0_r.
  - cbn [queues with_queue]. rewrite !jobs_work_same by done. cbn. lia.
Qed.

(** Every action that is taken succeeds, and brings its job closer to its end. *)
Lemma act_ok n s c a :
  act_pre n s a → dropped_total s = wrap 64 (dropped_total s) → act_post n s a (act c s a).
Proof.
  destruct a as [job p]. intros Hpre Hd.
  destruct p as [forced|idx|from|from cands|idx|idx];
    [by apply choose_ok|by apply try_ok| |by apply spill_ok| |];
    pose proof Hpre as [P1 P2 P3 P4 P5]; cbn in P5.
  - eexists _, _. split; [done|]. split.
    + apply (delta_same n s s job _ _ 0 0); try done; [by rewrite Z.add_0_r|].
      split; [|done]. cbn. pose proof (spill_candidates_length (map capacity (queues s))
        (map (λ q, delivery_ppm (counters q)) (queues s)) from) as Hl. rewrite length_map, P2 in Hl.
      split; [done|]. split; [done|]. apply Forall_forall. intros x Hx.
      apply spill_candidates_elem in Hx as [Hx _]. by rewrite length_map, P2 in Hx.
    + cbn [work base]. pose proof (spill_candidates_length (map capacity (queues s))
        (map (λ q, delivery_ppm (counters q)) (queues s)) from) as Hl. rewrite length_map, P2 in Hl.
      unfold spill_start. cbn [base]. lia.
  - destruct (lookup_queue n s idx P2 P5) as [q Hq]. destruct (P4 idx q Hq) as (_ & Hroom & Hdep & _).
    eexists _, _. split; [done|]. split.
    + apply (delta_one n s _ job _ _ idx (on_counters (add_depth 1)) q 0); try done.
      * intros i Hi. cbn. by rewrite (proj2 (Nat.eqb_neq idx i)).
      * split; [done|done|done|]. cbn. rewrite Nat.eqb_refl. f_equal. lia.
      * cbn. by rewrite Z.add_0_r.
    + cbn [queues with_queue]. rewrite jobs_work_same by done. cbn. unfold queue_work. cbn. lia.
  - destruct (lookup_queue n s idx P2 P5) as [q Hq].
    destruct (P4 idx q Hq) as (_ & Hroom & Hdep & Hh). cbn in Hh. rewrite Nat.eqb_refl in Hh.
    eexists _, _. split; [done|]. split.
    + apply (delta_one n s _ job _ None idx
        (λ q, set_jobs (jobs q ++ [job]) (set_permits (permits q - 1) q)) q 0); try done.
      * intros i Hi. cbn. by rewrite (proj2 (Nat.eqb_neq idx i)).
      * intros i Hi. cbn. by rewrite (proj2 (Nat.eqb_neq idx i)).
      * split; [done| | |]; cbn; rewrite ?Nat.eqb_refl, ?length_app; cbn [length]; [lia|lia|].
        rewrite Hdep at 1. f_equal. lia.
      * cbn. rewrite length_app. cbn. lia.
      * cbn. by rewrite Z.add_0_r.
    + cbn [queues with_queue].
      pose proof (sum_alter (jobs_work n)
        (λ q, set_jobs (jobs q ++ [job]) (set_permits (permits q - 1) q)) idx (queues s) q Hq) as Hs.
      unfold jobs_work in Hs at 2 4. cbn [jobs set_jobs] in Hs. rewrite sum_list_with_app in Hs.
      cbn in Hs |- *. lia.
Qed.

(** ** The invariant *)

Definition sender_ok (n : nat) (o : sender) : Prop :=
  match o with
  | Waiting => True
  | Placing (j, p) => phase_ok n p ∧ rerouted j = false
  | Copying _ t => Forall (λ i, (i < n)%nat) t
  | CopyRaised _ i t => (i < n)%nat ∧ Forall (λ i, (i < n)%nat) t
  end.

Record queue_ok (s : Tx) (i : nat) (q : LinkTx) : Prop := {
  qo_open : closed q = false;
  qo_permits : permits q = held i s;
  qo_room : (length (jobs q) + permits q ≤ LINK_TX_QUEUE_CAPACITY)%nat;
  qo_depth : depth (counters q) = wrap 32 (Z.of_nat (length (jobs q) + batch_len i s + raised i s)) }.

Record worker_ok (n : nat) (w : worker) : Prop := {
  wo_batch : (length (w_rest w) + flight (w_busy w) ≤ w_len w ≤ TX_WORKER_BATCH)%nat;
  wo_busy : ∀ j p, w_busy w = Some (j, p) → phase_ok n p ∧ rerouted j = true }.

Record tx_inv (n : nat) (s : Tx) : Prop := {
  ti_links : length (links s) = n;
  ti_queues : length (queues s) = n;
  ti_workers : length (workers s) = n;
  ti_sched : ∃ t, sched_inv n t (sched s);
  ti_queue : ∀ i q, queues s !! i = Some q → queue_ok s i q;
  ti_worker : ∀ i w, workers s !! i = Some w → worker_ok n w;
  ti_sender : sender_ok n (outbound s);
  ti_total : ∃ d : nat, dropped_total s = wrap 64 (Z.of_nat d) ∧
             submitted s = (in_flight s + wired s + skipped s + d)%nat }.

Definition batch_work (n : nat) (j : TxJob) : nat := queue_work n j - 2.
Definition worker_work (n : nat) (w : worker) : nat :=
  sum_list_with (batch_work n) (w_rest w) + (if (w_len w =? 0)%nat then 0 else 1)
  + work n (w_busy w).
Definition copy_work (o : sender) : nat :=
  match o with
  | Copying _ t => 1 + 5 * length t
  | CopyRaised _ _ t => 5 + 5 * length t
  | _ => 0
  end.

(** A bound on the steps still to come without new input. *)
Definition tx_work (n : nat) (s : Tx) : nat :=
  sum_list_with (jobs_work n) (queues s) + sum_list_with (worker_work n) (workers s)
  + work n (placing (outbound s)) + copy_work (outbound s).

Lemma inv_pre n s a :
  tx_inv n s → (∀ i, (hold i (Some a) ≤ held i s)%nat) → phase_ok n a.2 →
  act_pre n s a ∧ dropped_total s = wrap 64 (dropped_total s).
Proof.
  intros [I1 I2 I3 I4 I5 I6 I7 (d & I8 & _)] Hh Hp. split; [|by rewrite I8, wrap_wrap].
  split; try done. intros i q Hi. destruct (I5 i q Hi) as [Q1 Q2 Q3 Q4].
  split; [done|]. split; [done|]. split; [by rewrite Q4, wrap_wrap|]. rewrite Q2. apply Hh.
Qed.

(** An action inside a task: [s1] is the state with the task moved on. *)
Lemma act_inv n s s' s1 a o :
  tx_inv n s → act_delta n s s' (Some a) o →
  queues s1 = queues s' → links s1 = links s' → sched s1 = sched s' →
  dropped_total s1 = dropped_total s' → submitted s1 = submitted s' → wired s1 = wired s' →
  skipped s1 = skipped s' → length (workers s1) = length (workers s') →
  (∀ i, (held i s1 + hold i (Some a) = held i s + hold i o)%nat) →
  (∀ i, (raised i s1 + raise i (Some a) = raised i s + raise i o)%nat) →
  (∀ i, batch_len i s1 = batch_len i s) →
  (sum_list_with (λ w, length (w_rest w) + flight (w_busy w)) (workers s1)
   + flight (placing (outbound s1)) + copies (outbound s1) + 1 =
   sum_list_with (λ w, length (w_rest w) + flight (w_busy w)) (workers s)
   + flight (placing (outbound s)) + copies (outbound s) + flight o)%nat →
  (∀ i w, workers s1 !! i = Some w → worker_ok n w) → sender_ok n (outbound s1) →
  tx_inv n s1.
Proof.
  intros [I1 I2 I3 I4 I5 I6 I7 (d & I8 & I9)] [D1 D2 D3 D4 D5 D6 D7 D8 (k & D9 & D9') D10 D11]
    E1 E2 E3 E4 E5 E6 E7 E8 Hh Hr Hb Hf Hw Ho.
  split; rewrite ?E1, ?E2, ?E3, ?E8; try congruence; try done.
  - intros i q' Hi. destruct (lookup_lt_is_Some_2 (queues s) i) as [q Hq].
    { rewrite <- D7. by eapply lookup_lt_Some. }
    destruct (D8 i q Hq) as (q2 & Hq2 & [Q1 Q2 Q3 Q4]). rewrite Hi in Hq2. injection Hq2 as <-.
    destruct (I5 i q Hq) as [R1 R2 R3 R4]. split; [congruence| |done|].
    + specialize (Hh i). lia.
    + rewrite Q4, R4. unfold Z.sub. rewrite <- !Z.add_assoc, wrap_add_l. f_equal. rewrite Hb.
      specialize (Hr i). lia.
  - exists (d + k)%nat. split.
    + rewrite E4, D9, I8, wrap_add_l. f_equal. lia.
    + rewrite E5, E6, E7, D4, D5, I9. unfold in_flight. rewrite E1. cbn [flight] in D9'. lia.
Qed.

Lemma sum_worker {f : worker → nat} {i ws w} g :
  ws !! i = Some w → (sum_list_with f (alter g i ws) + f w = sum_list_with f ws + f (g w))%nat.
Proof. apply sum_alter. Qed.

Lemma placing_step n s s' c a o :
  tx_inv n s → outbound s = Placing a → act c s a = Ok (s', o) →
  let s1 := with_outbound (match o with Some a => Placing a | None => Waiting end) s' in
  tx_inv n s1 ∧ (tx_work n s1 < tx_work n s)%nat.
Proof.
  intros Hi Ho Ha s1. pose proof (ti_sender n s Hi) as Hs. rewrite Ho in Hs. destruct a as [j p].
  destruct Hs as [Hp Hj].
  destruct (inv_pre n s (j, p) Hi) as [Hpre Hd]; [|done|].
  { intros i. unfold held. rewrite Ho. cbn [placing]. lia. }
  destruct (act_ok n s c (j, p) Hpre Hd) as (s2 & o2 & Ha2 & Hdel & Hwork).
  rewrite Ha in Ha2. injection Ha2 as <- <-. pose proof Hdel as [D1 D2 D3 D4 D5 D6 D7 D8 D9 D10 D11].
  assert (placing (outbound s1) = o) as Hpl by (cbn; by destruct o).
  assert (copies (outbound s1) = 0%nat) as Hcp by (cbn; by destruct o).
  assert (∀ i, copy_raise i (outbound s1) = 0%nat) as Hcr by (intros i; cbn; by destruct o).
  split.
  - apply (act_inv n s s' s1 (j, p) o); try done.
    + intros i. unfold held. rewrite Hpl, Ho. cbn [workers s1 with_outbound]. rewrite D1. cbn [placing]. lia.
    + intros i. unfold raised. rewrite Hpl, Hcr, Ho. cbn [workers s1 with_outbound]. rewrite D1. cbn. lia.
    + intros i. unfold batch_len. cbn. by rewrite D1.
    + rewrite Hpl, Hcp, Ho. cbn [workers s1 with_outbound]. rewrite D1. cbn. lia.
    + intros i w. cbn. rewrite D1. apply (ti_worker n s Hi).
    + cbn. destruct o as [[j' p']|]; [|done]. cbn. split; [done|]. congruence.
  - assert (copy_work (outbound s1) = 0%nat) as Hcw by (cbn; by destruct o).
    unfold tx_work. rewrite Hpl, Hcw, Ho. change (workers s1) with (workers s').
    change (queues s1) with (queues s'). rewrite D1. cbn [placing copy_work]. lia.
Qed.

Lemma reroute_step n s s' c i w a o :
  tx_inv n s → workers s !! i = Some w → w_busy w = Some a → act c s a = Ok (s', o) →
  let s1 := with_worker i (λ w, mkWorker (w_rest w) (w_len w) (w_bytes w) (w_pkts w) o) s' in
  tx_inv n s1 ∧ (tx_work n s1 < tx_work n s)%nat.
Proof.
  intros Hi Hw Hb Ha s1. pose proof (ti_worker n s Hi i w Hw) as [Hbatch Hbusy]. destruct a as [j p].
  destruct (Hbusy j p Hb) as [Hp Hj].
  destruct (inv_pre n s (j, p) Hi) as [Hpre Hd]; [|done|].
  { intros k. unfold held. rewrite <- Hb.
    pose proof (sum_lookup (λ w, hold k (w_busy w)) i (workers s) w Hw). cbn in *. lia. }
  destruct (act_ok n s c (j, p) Hpre Hd) as (s2 & o2 & Ha2 & Hdel & Hwork).
  rewrite Ha in Ha2. injection Ha2 as <- <-. pose proof Hdel as [D1 D2 D3 D4 D5 D6 D7 D8 D9 D10 D11].
  set (g := λ w : worker, mkWorker (w_rest w) (w_len w) (w_bytes w) (w_pkts w) o) in *.
  assert (workers s1 = alter g i (workers s)) as Ew by (cbn; by rewrite D1).
  assert (outbound s1 = outbound s) as Eo by done.
  split.
  - apply (act_inv n s s' s1 (j, p) o); try done.
    + cbn. by rewrite length_alter.
    + intros k. unfold held. rewrite Ew, Eo. pose proof (sum_worker (f := λ w, hold k (w_busy w)) g Hw) as H.
      cbn [w_busy g] in H. rewrite Hb in H. lia.
    + intros k. unfold raised. rewrite Ew, Eo. pose proof (sum_worker (f := λ w, raise k (w_busy w)) g Hw) as H.
      cbn [w_busy g] in H. rewrite Hb in H. lia.
    + intros k. unfold batch_len. rewrite Ew. destruct (decide (k = i)) as [->|].
      * by rewrite list_lookup_alter_eq, Hw.
      * by rewrite list_lookup_alter_ne.
    + rewrite Ew, Eo.
      pose proof (sum_worker (f := λ w, length (w_rest w) + flight (w_busy w))%nat g Hw) as H.
      cbn [w_busy w_rest g] in H. rewrite Hb in H. cbn [flight] in H. lia.
    + intros k x. rewrite Ew. destruct (decide (k = i)) as [->|].
      * rewrite list_lookup_alter_eq, Hw. cbn. intros [= <-]. split; cbn.
        -- rewrite Hb in Hbatch. cbn in Hbatch. destruct o; cbn; lia.
        -- intros j' p' ->. split; [done|]. congruence.
      * rewrite list_lookup_alter_ne by done. apply (ti_worker n s Hi).
    + rewrite Eo. apply Hi.
  - unfold tx_work. rewrite Ew, Eo. cbn [queues s1 with_worker].
    pose proof (sum_worker (f := worker_work n) g Hw) as H. unfold worker_work in H at 2 4.
    cbn [w_busy w_rest w_len g] in H. rewrite Hb in H. lia.
Qed.

Lemma alter_inv {A} (f : A → A) (k : nat) (l : list A) (i : nat) y :
  alter f k l !! i = Some y →
  ∃ x, l !! i = Some x ∧ ((k = i ∧ y = f x) ∨ (k ≠ i ∧ y = x)).
Proof.
  destruct (decide (k = i)) as [->|Hne].
  - rewrite list_lookup_alter_eq. destruct (l !! i) as [x|]; [|done]. cbn. intros [= <-].
    exists x. auto.
  - rewrite list_lookup_alter_ne by done. intros H. exists y. auto.
Qed.

(** A queue that keeps its jobs, permits and depth, its neighbours unchanged. *)
Lemma queue_ok_ext s s1 i q :
  queue_ok s i q → held i s1 = held i s → batch_len i s1 = batch_len i s →
  raised i s1 = raised i s → queue_ok s1 i q.
Proof. intros [Q1 Q2 Q3 Q4] H1 H2 H3. split; [done|congruence|done|]. by rewrite H2, H3. Qed.

(** Depths are kept modulo 2^32. *)
Lemma depth_shift (x y : Z) (a b : nat) :
  x = wrap 32 (Z.of_nat a) → y = Z.of_nat b - Z.of_nat a → wrap 32 (x + y) = wrap 32 (Z.of_nat b).
Proof. intros -> ->. rewrite wrap_add_l. f_equal. lia. Qed.

Lemma copy_raise_step n s job idx targets :
  tx_inv n s → outbound s = Copying job (idx :: targets) →
  let s1 := with_outbound (CopyRaised job idx targets)
              (with_queue idx (on_counters (add_depth 1)) s) in
  tx_inv n s1 ∧ (tx_work n s1 < tx_work n s)%nat.
Proof.
  intros Hi Ho s1. pose proof Hi as [I1 I2 I3 I4 I5 I6 I7 (d & I8 & I9)].
  rewrite Ho in I7. cbn in I7. apply Forall_cons in I7 as [Hidx Ht].
  assert (∀ i, held i s1 = held i s) as Hh by (intros i; unfold held; by rewrite Ho).
  split.
  - split; try done; [cbn; by rewrite length_alter| |].
    + intros i q (q0 & Hq & [[-> ->]|[Hne ->]])%alter_inv; destruct (I5 i q0 Hq) as [Q1 Q2 Q3 Q4].
      * split; [done|by rewrite Hh|done|]. apply (depth_shift _ _ _ _ Q4). unfold raised. rewrite Ho.
        cbn. rewrite Nat.eqb_refl. unfold batch_len. cbn. lia.
      * apply (queue_ok_ext s); [by split|done|done|]. unfold raised. rewrite Ho. cbn.
        by rewrite (proj2 (Nat.eqb_neq idx i)).
    + exists d. split; [done|]. cbn [submitted s1 with_outbound with_queue]. rewrite I9.
      unfold in_flight. rewrite Ho. cbn.
      destruct (lookup_queue n s idx I2 Hidx) as [q Hq].
      pose proof (sum_alter (λ q, length (jobs q)) (on_counters (add_depth 1)) idx _ q Hq) as H.
      cbn in H. lia.
  - unfold tx_work. rewrite Ho. cbn. rewrite jobs_work_same by done. lia.
Qed.

Lemma copy_full_step n s job idx targets q :
  tx_inv n s → outbound s = CopyRaised job idx targets → queues s !! idx = Some q →
  let s1 := count 0 0 1 (with_outbound (Copying job targets)
              (with_queue idx (on_counters (bump_queue_full ∘ add_depth (-1))) s)) in
  tx_inv n s1 ∧ (tx_work n s1 < tx_work n s)%nat.
Proof.
  intros Hi Ho Hq0 s1. pose proof Hi as [I1 I2 I3 I4 I5 I6 I7 (d & I8 & I9)].
  rewrite Ho in I7. destruct I7 as [Hidx Ht].
  assert (∀ i, held i s1 = held i s) as Hh by (intros i; unfold held; by rewrite Ho).
  split.
  - split; try done; [cbn; by rewrite length_alter| |].
    + intros i q' (x & Hq & [[-> ->]|[Hne ->]])%alter_inv; destruct (I5 i x Hq) as [Q1 Q2 Q3 Q4].
      * split; [done|by rewrite Hh|done|]. apply (depth_shift _ _ _ _ Q4). unfold raised. rewrite Ho.
        cbn. rewrite Nat.eqb_refl. unfold batch_len. cbn. lia.
      * apply (queue_ok_ext s); [by split|done|done|]. unfold raised. rewrite Ho. cbn.
        by rewrite (proj2 (Nat.eqb_neq idx i)).
    + exists d. split; [done|]. cbn [submitted s1 count with_outbound with_queue]. rewrite I9.
      unfold in_flight. rewrite Ho. cbn.
      pose proof (sum_alter (λ q, length (jobs q)) (on_counters (bump_queue_full ∘ add_depth (-1)))
                    idx _ q Hq0) as H. cbn in H. lia.
  - unfold tx_work. rewrite Ho. cbn. rewrite jobs_work_same by done. lia.
Qed.

Lemma copy_sent_step n s job idx targets q now :
  tx_inv n s → outbound s = CopyRaised job idx targets → queues s !! idx = Some q →
  (0 < capacity q)%nat →
  let s1 := with_outbound (Copying job targets)
              (with_queue idx (λ q, set_jobs (jobs q ++ [mark_rerouted (stamp_job now job)]) q) s) in
  tx_inv n s1 ∧ (tx_work n s1 < tx_work n s)%nat.
Proof.
  intros Hi Ho Hq0 Hcap s1. pose proof Hi as [I1 I2 I3 I4 I5 I6 I7 (d & I8 & I9)].
  rewrite Ho in I7. destruct I7 as [Hidx Ht]. unfold capacity in Hcap.
  assert (∀ i, held i s1 = held i s) as Hh by (intros i; unfold held; by rewrite Ho).
  split.
  - split; try done; [cbn; by rewrite length_alter| |].
    + intros i q' (x & Hq & [[-> ->]|[Hne ->]])%alter_inv; destruct (I5 i x Hq) as [Q1 Q2 Q3 Q4].
      * rewrite Hq0 in Hq. injection Hq as <-. split; [done|by rewrite Hh| |].
        -- cbn. rewrite length_app. cbn. lia.
        -- cbn [counters set_jobs jobs]. rewrite Q4. f_equal. rewrite length_app. unfold raised. rewrite Ho.
           cbn. rewrite Nat.eqb_refl. unfold batch_len. cbn. lia.
      * apply (queue_ok_ext s); [by split|done|done|]. unfold raised. rewrite Ho. cbn.
        by rewrite (proj2 (Nat.eqb_neq idx i)).
    + exists d. split; [done|]. cbn [submitted s1 with_outbound with_queue]. rewrite I9.
      unfold in_flight. rewrite Ho. cbn.
      pose proof (sum_alter (λ q, length (jobs q))
        (λ q, set_jobs (jobs q ++ [mark_rerouted (stamp_job now job)]) q) idx _ q Hq0) as H.
      cbn in H. rewrite length_app in H. cbn in H. lia.
  - unfold tx_work. rewrite Ho. cbn.
    pose proof (sum_alter (jobs_work n)
      (λ q, set_jobs (jobs q ++ [mark_rerouted (stamp_job now job)]) q) idx _ q Hq0) as H.
    unfold jobs_work in H at 2 4. cbn [jobs set_jobs] in H. rewrite sum_list_with_app in H.
    cbn in H. lia.
Qed.

Lemma copied_step n s job :
  tx_inv n s → outbound s = Copying job [] →
  let s1 := with_outbound Waiting s in tx_inv n s1 ∧ (tx_work n s1 < tx_work n s)%nat.
Proof.
  intros [I1 I2 I3 I4 I5 I6 I7 (d & I8 & I9)] Ho s1. split.
  - split; try done.
    + intros i q Hq. apply (queue_ok_ext s); [by apply I5| |done|];
        unfold held, raised; by rewrite Ho.
    + exists d. split; [done|]. cbn. rewrite I9. unfold in_flight. rewrite Ho. cbn. lia.
  - unfold tx_work. rewrite Ho. cbn. lia.
Qed.

(** A worker moves on: what the sums over the workers become. *)
Lemma worker_sums s i w g :
  workers s !! i = Some w → w_busy w = None →
  (∀ k, hold k (w_busy (g w)) = 0%nat) → (∀ k, raise k (w_busy (g w)) = 0%nat) →
  let s1 := with_worker i g s in
  (∀ k, held k s1 = held k s) ∧ (∀ k, raised k s1 = raised k s) ∧
  (∀ k, batch_len k s1 = if (k =? i)%nat then w_len (g w) else batch_len k s).
Proof.
  intros Hw Hb Hh Hr s1. split_and!.
  - intros k. unfold held. cbn. pose proof (sum_worker (f := λ w, hold k (w_busy w)) g Hw) as H.
    cbv beta in H. rewrite Hh, Hb in H. cbn in H. lia.
  - intros k. unfold raised. cbn. pose proof (sum_worker (f := λ w, raise k (w_busy w)) g Hw) as H.
    cbv beta in H. rewrite Hr, Hb in H. cbn in H. lia.
  - intros k. unfold batch_len. cbn. destruct (Nat.eqb_spec k i) as [->|].
    + by rewrite list_lookup_alter_eq, Hw.
    + by rewrite list_lookup_alter_ne.
Qed.

Lemma worker_ok_alter n s i w g :
  tx_inv n s → workers s !! i = Some w → worker_ok n (g w) →
  ∀ k x, alter g i (workers s) !! k = Some x → worker_ok n x.
Proof.
  intros Hi Hw Hg k x (y & Hy & [[-> ->]|[_ ->]])%alter_inv.
  - rewrite Hw in Hy. by injection Hy as <-.
  - by apply (ti_worker n s Hi k).
Qed.

Lemma queue_work_min n j : (3 ≤ queue_work n j)%nat.
Proof. unfold queue_work. destruct (rerouted j); lia. Qed.

Lemma take_work n k l :
  (k ≤ length l)%nat →
  (sum_list_with (batch_work n) (take k l) + sum_list_with (queue_work n) (drop k l) + 2 * k =
   sum_list_with (queue_work n) l)%nat.
Proof.
  revert l; induction k as [|k IH]; intros l Hk; [by rewrite drop_0|].
  destruct l as [|j l]; cbn in Hk; [lia|]. cbn [take drop sum_list_with].
  specialize (IH l ltac:(lia)). pose proof (queue_work_min n j).
  unfold batch_work in IH |- *. lia.
Qed.

Lemma recv_step n s i w q k delay mono :
  tx_inv n s → workers s !! i = Some w → w_rest w = [] → w_len w = 0%nat → w_busy w = None →
  queues s !! i = Some q → (0 < k ≤ TX_WORKER_BATCH)%nat → (k ≤ length (jobs q))%nat →
  let s1 := with_worker i (λ _, mkWorker (take k (jobs q)) k 0 0 None)
              (with_queue i (λ q, on_counters (note_batch delay mono)
                                    (set_jobs (drop k (jobs q)) q)) s) in
  tx_inv n s1 ∧ (tx_work n s1 < tx_work n s)%nat.
Proof.
  intros Hi Hw Hr Hl Hb Hq0 Hk Hkl s1. pose proof Hi as [I1 I2 I3 I4 I5 I6 I7 (d & I8 & I9)].
  set (g := λ _ : worker, mkWorker (take k (jobs q)) k 0 0 None) in *.
  destruct (worker_sums s i w g Hw Hb) as (Hh & Hra & Hbl); [done|done|].
  set (f := λ q : LinkTx, on_counters (note_batch delay mono) (set_jobs (drop k (jobs q)) q)) in *.
  split.
  - split; try done.
    + cbn. by rewrite length_alter.
    + cbn. by rewrite length_alter.
    + intros x y (z & Hz & [[-> ->]|[Hne ->]])%alter_inv; destruct (I5 x z Hz) as [Q1 Q2 Q3 Q4].
      * rewrite Hq0 in Hz. injection Hz as <-.
        split; [done|exact (eq_trans Q2 (eq_sym (Hh x)))| |]; cbn [f jobs on_counters set_jobs permits counters note_batch depth].
        -- rewrite length_drop. lia.
        -- change (batch_len x s1) with (batch_len x (with_worker x g s)).
           change (raised x s1) with (raised x (with_worker x g s)).
           rewrite Hbl, Hra, Nat.eqb_refl, length_drop, Q4. f_equal. cbn [g w_len].
           unfold batch_len. rewrite Hw, Hl. lia.
      * apply (queue_ok_ext s); [by split|apply Hh| |apply Hra].
        change (batch_len x s1) with (batch_len x (with_worker i g s)).
        by rewrite Hbl, (proj2 (Nat.eqb_neq x i)) by done.
    + apply (worker_ok_alter n s i w g Hi Hw). split; [|done]. cbn. rewrite length_take. lia.
    + exists d. split; [done|]. cbn [submitted s1 with_worker with_queue]. rewrite I9. unfold in_flight. cbn.
      pose proof (sum_alter (λ q, length (jobs q)) f i _ q Hq0) as H1. cbn in H1. rewrite length_drop in H1.
      pose proof (sum_worker (f := λ w, length (w_rest w) + flight (w_busy w))%nat g Hw) as H2.
      cbn in H2. rewrite Hr, Hb, length_take in H2. cbn in H2. lia.
  - unfold tx_work. cbn.
    pose proof (sum_alter (jobs_work n) f i _ q Hq0) as H1. unfold jobs_work in H1 at 2 4. cbn in H1.
    pose proof (sum_worker (f := worker_work n) g Hw) as H2. unfold worker_work in H2 at 2 4.
    cbn in H2. rewrite Hr, Hb, Hl in H2. cbn in H2.
    pose proof (take_work n k (jobs q) Hkl) as H3. rewrite (proj2 (Nat.eqb_neq k 0)) in H2 by lia. lia.
Qed.

(** A worker moves on within its batch, its queue's depth unchanged. *)
Lemma worker_inv n s s1 i w g fc (d : nat) :
  tx_inv n s → workers s !! i = Some w → w_busy w = None → w_len (g w) = w_len w →
  (∀ k, hold k (w_busy (g w)) = 0%nat) → (∀ k, raise k (w_busy (g w)) = 0%nat) →
  worker_ok n (g w) → (∀ c, depth (fc c) = depth c) →
  queues s1 = alter (on_counters fc) i (queues s) → workers s1 = alter g i (workers s) →
  outbound s1 = outbound s → links s1 = links s → (∃ t, sched_inv n t (sched s1)) →
  submitted s1 = submitted s → dropped_total s1 = wrap 64 (dropped_total s + Z.of_nat d) →
  (length (w_rest w) + wired s + skipped s =
   length (w_rest (g w)) + flight (w_busy (g w)) + wired s1 + skipped s1 + d)%nat →
  tx_inv n s1.
Proof.
  intros Hi Hw Hb Hl Hho Hrz Hg Hfc Eq Ew Eo El Hsc Es Ed Hf.
  pose proof Hi as [I1 I2 I3 I4 I5 I6 I7 (d0 & I8 & I9)].
  destruct (worker_sums s i w g Hw Hb) as (Hh & Hra & Hbl); [done|done|].
  assert (∀ k, held k s1 = held k s) as Hh1 by (intros k; rewrite <- Hh; unfold held; by rewrite Eo, Ew).
  assert (∀ k, raised k s1 = raised k s) as Hr1
    by (intros k; rewrite <- Hra; unfold raised; by rewrite Eo, Ew).
  assert (∀ k, batch_len k s1 = batch_len k s) as Hb1.
  { intros k. transitivity (batch_len k (with_worker i g s)); [unfold batch_len; by rewrite Ew|].
    rewrite Hbl. destruct (Nat.eqb_spec k i) as [->|]; [|done]. unfold batch_len. by rewrite Hw. }
  split; rewrite ?Eq, ?Ew, ?Eo, ?El, ?length_alter; try done.
  - intros x y (z & Hz & [[-> ->]|[Hne ->]])%alter_inv; destruct (I5 x z Hz) as [Q1 Q2 Q3 Q4].
    + split; [done|by rewrite Hh1|done|]. rewrite Hb1, Hr1. cbn. by rewrite Hfc.
    + apply (queue_ok_ext s); [by split|done..].
  - by apply (worker_ok_alter n s i w g).
  - exists (d0 + d)%nat. split; [rewrite Ed, I8, wrap_add_l; f_equal; lia|].
    rewrite Es, I9. unfold in_flight. rewrite Eo, Eq, Ew.
    destruct (lookup_lt_is_Some_2 (queues s) i) as [q Hq]; [apply lookup_lt_Some in Hw; lia|].
    pose proof (sum_alter (λ q, length (jobs q)) (on_counters fc) i _ q Hq) as H1. cbn in H1.
    pose proof (sum_worker (f := λ w, length (w_rest w) + flight (w_busy w))%nat g Hw) as H2.
    cbv beta in H2. rewrite Hb in H2. cbn [flight] in H2. lia.
Qed.

Lemma sent_step n s i w job rest :
  tx_inv n s → workers s !! i = Some w → w_rest w = job :: rest → w_busy w = None →
  tx_inv n (sent_job i job rest s) ∧ (tx_work n (sent_job i job rest s) < tx_work n s)%nat.
Proof.
  intros Hi Hw Hr Hb. unfold sent_job.
  set (g := λ w : worker, mkWorker rest (w_len w) (wrap 64 (w_bytes w + frame_len job))
                            (wrap 64 (w_pkts w + 1)) None).
  pose proof (ti_worker n s Hi i w Hw) as [Hbatch _]. rewrite Hr in Hbatch. cbn in Hbatch.
  split.
  - destruct (ti_total n s Hi) as (d & Hd & _).
    apply (worker_inv n s _ i w g id 0); try done.
    + split; [|done]. cbn. lia.
    + cbn. symmetry. apply list_alter_id. by intros [].
    + apply Hi.
    + cbn. by rewrite Hd, Z.add_0_r, wrap_wrap.
    + rewrite Hr. cbn. lia.
  - unfold tx_work. cbn. pose proof (sum_worker (f := worker_work n) g Hw) as H2.
    unfold worker_work in H2 at 2 4. cbn in H2. rewrite Hr, Hb in H2. cbn in H2.
    pose proof (queue_work_min n job). unfold batch_work in *. lia.
Qed.

Lemma failed_step n s i w job rest now :
  tx_inv n s → workers s !! i = Some w → w_rest w = job :: rest → w_busy w = None →
  tx_inv n (fail_job now i job rest s) ∧ (tx_work n (fail_job now i job rest s) < tx_work n s)%nat.
Proof.
  intros Hi Hw Hr Hb. destruct (ti_total n s Hi) as (d & Hd & _).
  pose proof (ti_worker n s Hi i w Hw) as [Hbatch _]. rewrite Hr in Hbatch. cbn in Hbatch.
  assert (i < n)%nat as Hin by (apply lookup_lt_Some in Hw; by rewrite (ti_workers n s Hi) in Hw).
  assert (batch_work n job = if rerouted job then 1 else n + 9)%nat as Hbw
    by (unfold batch_work, queue_work; destruct (rerouted job); lia).
  unfold fail_job. destruct (rerouted job) eqn:E.
  - set (g := λ w : worker, mkWorker rest (w_len w) (w_bytes w) (w_pkts w) None). split.
    + apply (worker_inv n s _ i w g bump_send_failed 1); try done.
      * split; [|done]. cbn. lia.
      * apply sched_note, Hi.
      * rewrite Hr. cbn. lia.
    + unfold tx_work. cbn. rewrite jobs_work_same by done.
      pose proof (sum_worker (f := worker_work n) g Hw) as H3. unfold worker_work in H3 at 2 4.
      cbn in H3. rewrite Hr, Hb in H3. cbn in H3. lia.
  - set (g := λ w : worker, mkWorker rest (w_len w) (w_bytes w) (w_pkts w)
                              (Some (mark_rerouted job, Refuse i))). split.
    + apply (worker_inv n s _ i w g bump_send_failed 0); try done.
      * split; [cbn; lia|]. by intros j p [= <- <-].
      * apply sched_note, Hi.
      * cbn. by rewrite Hd, Z.add_0_r, wrap_wrap.
      * rewrite Hr. cbn. lia.
    + unfold tx_work. cbn. rewrite jobs_work_same by done.
      pose proof (sum_worker (f := worker_work n) g Hw) as H3. unfold worker_work in H3 at 2 4.
      cbn in H3. rewrite Hr, Hb in H3. cbn in H3.
      change (queue_work n (mark_rerouted job)) with 3%nat in H3. lia.
Qed.

Lemma finish_step n s i w now now' elapsed mono :
  tx_inv n s → workers s !! i = Some w → w_rest w = [] → w_busy w = None → (0 < w_len w)%nat →
  tx_inv n (finish_batch now now' elapsed mono i w s) ∧
  (tx_work n (finish_batch now now' elapsed mono i w s) < tx_work n s)%nat.
Proof.
  intros Hi Hw Hr Hb Hl. pose proof Hi as [I1 I2 I3 I4 I5 I6 I7 (d & I8 & I9)].
  set (g := λ _ : worker, worker_idle).
  set (fc := λ c, note_progress mono (add_depth (- Z.of_nat (w_len w))
    (if w_pkts w =? 0 then c else note_wait (elapsed / w_pkts w) c))).
  set (s1 := finish_batch now now' elapsed mono i w s).
  assert (queues s1 = alter (on_counters fc) i (queues s)) as Eq.
  { unfold s1, finish_batch, fc. destruct (w_pkts w =? 0); cbn; [done|].
    by rewrite list_alter_alter_eq. }
  assert (workers s1 = alter g i (workers s)) as Ew
    by (unfold s1, finish_batch; by destruct (w_pkts w =? 0)).
  assert (outbound s1 = outbound s ∧ length (links s1) = length (links s) ∧ sched s1 = sched s ∧
          dropped_total s1 = dropped_total s ∧ submitted s1 = submitted s ∧ wired s1 = wired s ∧
          skipped s1 = skipped s) as (E1 & E2 & E3 & E4 & E5 & E6 & E7).
  { unfold s1, finish_batch. destruct (w_pkts w =? 0); cbn; [done|]. by rewrite length_alter. }
  destruct (worker_sums s i w g Hw Hb) as (Hh & Hra & Hbl); [done|done|].
  assert (∀ k, held k s1 = held k s) as Hh1.
  { intros k. rewrite <- Hh. unfold held. by rewrite E1, Ew. }
  assert (∀ k, raised k s1 = raised k s) as Hr1.
  { intros k. rewrite <- Hra. unfold raised. by rewrite E1, Ew. }
  assert (∀ k, batch_len k s1 = if (k =? i)%nat then 0%nat else batch_len k s) as Hb1.
  { intros k. transitivity (batch_len k (with_worker i g s)); [|apply Hbl].
    unfold batch_len. by rewrite Ew. }
  clearbody s1. split.
  - split; rewrite ?Eq, ?Ew, ?E1, ?E2, ?E3, ?length_alter; try done.
    + intros x y (z & Hz & [[-> ->]|[Hne ->]])%alter_inv; destruct (I5 x z Hz) as [Q1 Q2 Q3 Q4].
      * split; [done|by rewrite Hh1|done|]. rewrite Hb1, Hr1, Nat.eqb_refl.
        cbn [on_counters counters jobs fc note_progress add_depth depth].
        assert (depth (if w_pkts w =? 0 then counters z
                       else note_wait (elapsed / w_pkts w) (counters z)) = depth (counters z)) as ->
          by by destruct (w_pkts w =? 0).
        apply (depth_shift _ _ _ _ Q4). unfold batch_len. rewrite Hw. lia.
      * apply (queue_ok_ext s); [by split|done| |done]. by rewrite Hb1, (proj2 (Nat.eqb_neq x i)) by done.
    + apply (worker_ok_alter n s i w g Hi Hw). split; [|done]. cbn. unfold TX_WORKER_BATCH. lia.
    + exists d. rewrite E4, E5, E6, E7. split; [done|]. rewrite I9. unfold in_flight.
      rewrite E1, Eq, Ew. destruct (lookup_lt_is_Some_2 (queues s) i) as [q Hq].
      { apply lookup_lt_Some in Hw. lia. }
      pose proof (sum_alter (λ q, length (jobs q)) (on_counters fc) i _ q Hq) as H1. cbn in H1.
      pose proof (sum_worker (f := λ w, length (w_rest w) + flight (w_busy w))%nat g Hw) as H2.
      cbn in H2. rewrite Hr, Hb in H2. cbn in H2. lia.
  - unfold tx_work. rewrite E1, Eq, Ew, jobs_work_same by done.
    pose proof (sum_worker (f := worker_work n) g Hw) as H2. unfold worker_work in H2 at 2 4.
    cbn in H2. rewrite Hr, Hb, (proj2 (Nat.eqb_neq (w_len w) 0)) in H2 by lia. cbn in H2. lia.
Qed.

Lemma tx_step_ok n s s' :
  tx_inv n s → tx_step s s' → tx_inv n s' ∧ (tx_work n s' < tx_work n s)%nat.
Proof.
  intros Hi Hs. destruct Hs.
  - by eapply placing_step.
  - by eapply copy_raise_step.
  - by eapply copy_full_step.
  - by eapply copy_sent_step.
  - by eapply copied_step.
  - by eapply recv_step.
  - by eapply sent_step.
  - by eapply failed_step.
  - by eapply reroute_step.
  - by eapply finish_step.
Qed.

Lemma redundant_targets_range ls : Forall (λ i, (i < length ls)%nat) (redundant_targets ls).
Proof.
  unfold redundant_targets. set (any := List.filter _ (List.seq 0 (length ls))).
  assert (Forall (λ i, (i < length ls)%nat) any) as Hany.
  { apply Forall_forall. intros i Hi. apply list_elem_of_In, filter_In in Hi as [Hi _].
    apply in_seq in Hi. lia. }
  set (up := List.filter _ any).
  assert (Forall (λ i, (i < length ls)%nat) up) as Hup.
  { apply Forall_forall. intros i Hi. apply list_elem_of_In, filter_In in Hi as [Hi _].
    apply list_elem_of_In in Hi. by eapply Forall_forall in Hany. }
  by destruct up.
Qed.

Lemma alter_beyond {A} (g : A → A) k (l : list A) : l !! k = None → alter g k l = l.
Proof.
  intros Hk. apply list_eq. intros i. destruct (decide (i = k)) as [->|Hi].
  - by rewrite list_lookup_alter_eq, Hk.
  - by rewrite list_lookup_alter_ne.
Qed.

Lemma tx_input_ok n s s' : tx_inv n s → tx_input s s' → tx_inv n s'.
Proof.
  intros [I1 I2 I3 I4 I5 I6 I7 (d & I8 & I9)] Hs.
  destruct Hs as [s job forced Ho Hj|s job Ho t|s ls c t Hl Hc|s k delay wait milli ppm].
  - split; try done.
    + intros i q Hq. apply (queue_ok_ext s); [by apply I5| |done|]; unfold held, raised; by rewrite Ho.
    + exists d. split; [done|]. cbn [submitted count with_outbound]. rewrite I9. unfold in_flight. rewrite Ho.
      cbn. lia.
  - split; try done.
    + intros i q Hq. apply (queue_ok_ext s); [by apply I5| |done|]; unfold held, raised; by rewrite Ho.
    + rewrite <- I1. apply redundant_targets_range.
    + exists d. split; [done|]. cbn [submitted count with_outbound]. rewrite I9. unfold in_flight. rewrite Ho.
      cbn. fold t. lia.
  - split; try done.
    + cbn. congruence.
    + exists t. rewrite <- I1, <- Hl. by apply sched_reach_inv.
    + intros i q Hq. by apply (queue_ok_ext s); [apply I5|..].
    + by exists d.
  - set (g := on_counters (set_delivery_ppm ppm ∘ set_congestion delay wait milli)).
    split; try done.
    + cbn. by rewrite length_alter.
    + intros i q (q0 & Hq & [[-> ->]|[_ ->]])%alter_inv; (apply (queue_ok_ext s); [|done..]);
        destruct (I5 i q0 Hq); by split.
    + exists d. split; [done|]. cbn [submitted with_queue]. rewrite I9. unfold in_flight. cbn.
      assert (sum_list_with (λ q, length (jobs q)) (alter g k (queues s)) =
              sum_list_with (λ q, length (jobs q)) (queues s)) as ->; [|done].
      destruct (queues s !! k) as [q|] eqn:Hq; [|by rewrite alter_beyond].
      pose proof (sum_alter (λ q, length (jobs q)) g k _ q Hq) as H. cbn in H. lia.
Qed.

Lemma sum_replicate {A} (f : A → nat) n x :
  f x = 0%nat → sum_list_with f (replicate n x) = 0%nat.
Proof. intros Hf. induction n as [|n IH]; cbn; [done|]. by rewrite Hf, IH. Qed.

Lemma tx_reach_inv spill ls s : tx_reach spill ls s → tx_inv (length ls) s.
Proof.
  induction 1 as [|s s' _ IH Hs|s s' _ IH Hs].
  - assert (∀ f : worker → nat, f worker_idle = 0%nat →
      sum_list_with f (replicate (length ls) worker_idle) = 0%nat) as Hw by (intros; by apply sum_replicate).
    split; cbn; rewrite ?length_replicate; try done.
    + exists 0. apply sched_reach_inv. constructor.
    + intros i q Hq. apply lookup_replicate in Hq as [-> Hi].
      split; [done| |cbn; unfold LINK_TX_QUEUE_CAPACITY; lia|].
      * unfold held. cbn. by rewrite Hw.
      * unfold batch_len, raised. cbn [workers outbound Tx_new placing raise copy_raise].
        rewrite lookup_replicate_2, Hw by done. done.
    + intros i w Hq. apply lookup_replicate in Hq as [-> _]. split; [|done]. cbn. unfold TX_WORKER_BATCH. lia.
    + exists 0%nat. split; [done|]. unfold in_flight. cbn. rewrite Hw by done.
      by rewrite (sum_replicate (λ q, length (jobs q))).
  - by eapply tx_step_ok.
  - by eapply tx_input_ok.
Qed.

(** ** Progress *)

Lemma sum_pos {A} (f : A → nat) l :
  (0 < sum_list_with f l)%nat → ∃ i x, l !! i = Some x ∧ (0 < f x)%nat.
Proof.
  induction l as [|x l IH]; cbn; [lia|]. intros H. destruct (f x) as [|m] eqn:E.
  - destruct IH as (i & y & Hy & Hf); [done|]. by exists (S i), y.
  - exists 0%nat, x. split; [done|lia].
Qed.

Lemma tx_progress n s : tx_inv n s → (0 < tx_work n s)%nat → ∃ s', tx_step s s'.
Proof.
  intros Hi Hw. destruct (outbound s) as [|[j p]|job [|idx t]|job idx t] eqn:Ho.
  - destruct (decide (0 < sum_list_with (worker_work n) (workers s))%nat) as [Hp|Hz].
    + apply sum_pos in Hp as (i & w & Hiw & Hpos). unfold worker_work in Hpos.
      destruct (w_busy w) as [a|] eqn:Hb.
      * pose proof (ti_worker n s Hi i w Hiw) as [_ Hbusy]. destruct a as [j p].
        destruct (Hbusy j p Hb) as [Hph _].
        destruct (inv_pre n s (j, p) Hi) as [Hpre Hd]; [|done|].
        { intros k. unfold held. rewrite <- Hb.
          pose proof (sum_lookup (λ w, hold k (w_busy w)) i (workers s) w Hiw). cbn in *. lia. }
        destruct (act_ok n s (mkClocks 0 (λ _, 0) (λ _, 0)) (j, p) Hpre Hd) as (s2 & o2 & Ha & _).
        eexists. by eapply tx_reroute.
      * destruct (w_rest w) as [|job rest] eqn:Hr; [|eexists; by eapply tx_sent].
        cbn in Hpos. destruct (Nat.eqb_spec (w_len w) 0); [cbn in Hpos; lia|].
        eexists. apply (tx_finish s i w 0 0 0 0); try done. lia.
    + assert (0 < sum_list_with (jobs_work n) (queues s))%nat as Hq
        by (unfold tx_work in Hw; rewrite Ho in Hw; cbn in Hw; lia).
      apply sum_pos in Hq as (i & q & Hiq & Hpos).
      destruct (lookup_lt_is_Some_2 (workers s) i) as [w Hiw].
      { apply lookup_lt_Some in Hiq. rewrite (ti_workers n s Hi). by rewrite (ti_queues n s Hi) in Hiq. }
      pose proof (sum_lookup (worker_work n) i (workers s) w Hiw) as Hww. unfold worker_work in Hww at 1.
      destruct (w_rest w) as [|j rest] eqn:Hr; [|pose proof (queue_work_min n j); unfold batch_work in Hww; cbn in Hww; lia].
      destruct (w_busy w) as [[j p]|] eqn:Hb; [pose proof (queue_work_min n j); cbn in Hww; lia|].
      destruct (Nat.eqb_spec (w_len w) 0) as [Hl|]; [|cbn in Hww; lia].
      eexists. apply (tx_recv s i w q 1 0 0); try done.
      * unfold TX_WORKER_BATCH. lia.
      * unfold jobs_work in Hpos. destruct (jobs q); [cbn in Hpos; lia|]. cbn. lia.
  - pose proof (ti_sender n s Hi) as Hs. rewrite Ho in Hs. destruct Hs as [Hph _].
    destruct (inv_pre n s (j, p) Hi) as [Hpre Hd]; [|done|].
    { intros i. unfold held. rewrite Ho. cbn [placing]. lia. }
    destruct (act_ok n s (mkClocks 0 (λ _, 0) (λ _, 0)) (j, p) Hpre Hd) as (s2 & o2 & Ha & _).
    eexists. by eapply tx_place.
  - eexists. by eapply tx_copied.
  - eexists. by eapply tx_copy.
  - pose proof (ti_sender n s Hi) as Hs. rewrite Ho in Hs. destruct Hs as [Hidx _].
    destruct (lookup_queue n s idx (ti_queues n s Hi) Hidx) as [q Hq].
    destruct (decide (capacity q = 0%nat)); eexists; [by eapply tx_copy_full|].
    eapply (tx_copy_sent s job idx t q 0); try done. lia.
Qed.

Lemma idle_done n s : tx_work n s = 0%nat → in_flight s = 0%nat ∧ ∀ i, raised i s = 0%nat.
Proof.
  unfold tx_work, in_flight. intros Hw.
  assert (∀ {A} (f g : A → nat) l, (∀ x, f x = 0 → g x = 0)%nat → sum_list_with f l = 0%nat →
            sum_list_with g l = 0%nat) as Hz.
  { intros A f g l Hfg. induction l as [|x l IH]; cbn; [done|]. intros H.
    rewrite (Hfg x), IH by lia. done. }
  assert (∀ w, worker_work n w = 0%nat → w_rest w = [] ∧ w_busy w = None) as Hidle.
  { intros w. unfold worker_work. destruct (w_rest w) as [|j r]; cbn.
    - destruct (w_busy w) as [[j p]|]; [|done]. cbn. pose proof (queue_work_min n j). lia.
    - pose proof (queue_work_min n j). unfold batch_work. lia. }
  assert (placing (outbound s) = None ∧ copies (outbound s) = 0%nat ∧ ∀ i, copy_raise i (outbound s) = 0%nat)
    as (Hp & Hc & Hcr).
  { destruct (outbound s) as [|[j p]|job t|job idx t]; cbn in Hw |- *; [done| |lia|lia].
    pose proof (queue_work_min n j). lia. }
  rewrite Hp, Hc. split.
  - rewrite (Hz _ (jobs_work n) (λ q, length (jobs q))), (Hz _ (worker_work n)
      (λ w, length (w_rest w) + flight (w_busy w))%nat); cbn; try lia.
    + intros w [-> ->]%Hidle. done.
    + intros q. unfold jobs_work. destruct (jobs q) as [|j l]; [done|]. cbn.
      pose proof (queue_work_min n j). lia.
  - intros i. unfold raised. rewrite Hp, Hcr. cbn. apply (Hz _ (worker_work n)); [|lia].
    intros w [_ ->]%Hidle. done.
Qed.

(** C6. In every interleaving of the sender and the workers each job is
    accounted for: it is queued or being handled, on the wire, counted in
    [dropped_total], or given up without a link; no queue exceeds its capacity,
    permits included, and a queue's depth counter is its jobs plus the batch of
    its worker plus the enqueues under way, so the worker's decrement cannot
    underflow it. *)
Theorem tx_accounted spill ls s :
  tx_reach spill ls s → Z.of_nat (length ls) < 2 ^ 31 →
  (∃ d : nat, dropped_total s = wrap 64 (Z.of_nat d) ∧
              submitted s = (in_flight s + wired s + skipped s + d)%nat) ∧
  ∀ i q, queues s !! i = Some q →
    (length (jobs q) + permits q ≤ LINK_TX_QUEUE_CAPACITY)%nat ∧
    depth (counters q) = Z.of_nat (length (jobs q) + batch_len i s + raised i s) ∧
    Z.of_nat (batch_len i s) ≤ depth (counters q).
Proof.
  intros Hi%tx_reach_inv Hn. split; [apply Hi|]. intros i q Hq.
  destruct (ti_queue _ s Hi i q Hq) as [Q1 Q2 Q3 Q4]. split; [done|].
  assert (batch_len i s ≤ TX_WORKER_BATCH)%nat as Hb.
  { unfold batch_len. destruct (workers s !! i) as [w|] eqn:E; [|lia].
    apply (wo_batch _ w (ti_worker _ s Hi i w E)). }
  assert (raised i s ≤ 2 + length ls)%nat as Hr.
  { unfold raised.
    assert (sum_list_with (λ w, raise i (w_busy w)) (workers s) ≤ length (workers s))%nat as Hs.
    { induction (workers s) as [|w ws IH]; cbn; [lia|].
      assert (raise i (w_busy w) ≤ 1)%nat by (destruct (w_busy w) as [[? []]|]; cbn; try case_match; lia).
      lia. }
    rewrite (ti_workers _ s Hi) in Hs.
    assert (raise i (placing (outbound s)) ≤ 1)%nat
      by (destruct (placing (outbound s)) as [[? []]|]; cbn; try case_match; lia).
    assert (copy_raise i (outbound s) ≤ 1)%nat by (destruct (outbound s); cbn; try case_match; lia). lia. }
  rewrite wrap_small in Q4; [rewrite Q4; split; [done|lia]|].
  unfold fits. unfold LINK_TX_QUEUE_CAPACITY, TX_WORKER_BATCH in *. lia.
Qed.

(** C10. Sending always comes to rest: without new input a state allows only
    boundedly many steps, a job failing at most twice before it is dropped, and
    where no step is left every job submitted has reached the wire, been counted
    as dropped or been given up, and every queue's depth is back to zero. *)
Theorem tx_terminates spill ls s :
  tx_reach spill ls s →
  (∀ k s', nsteps tx_step k s s' → (k ≤ tx_work (length ls) s)%nat) ∧
  ((∀ s', ¬ tx_step s s') →
   (∃ d : nat, dropped_total s = wrap 64 (Z.of_nat d) ∧ submitted s = (wired s + skipped s + d)%nat) ∧
   ∀ i q, queues s !! i = Some q → jobs q = [] ∧ depth (counters q) = 0).
Proof.
  intros Hi%tx_reach_inv. split.
  - intros k. revert s Hi. induction k as [|k IH]; intros s Hi s' Hs; [lia|].
    inversion Hs as [|? ? y ? Hstep Hrest]; subst.
    destruct (tx_step_ok _ _ _ Hi Hstep) as [Hi' Hw]. specialize (IH y Hi' s' Hrest). lia.
  - intros Hno. assert (tx_work (length ls) s = 0%nat) as Hz.
    { destruct (decide (0 < tx_work (length ls) s)%nat) as [Hp|]; [|lia].
      destruct (tx_progress _ s Hi Hp) as [s' Hs]. by apply Hno in Hs. }
    destruct (idle_done _ s Hz) as [Hf Hr].
    split; [destruct (ti_total _ s Hi) as (d & Hd & Hs); exists d; split; [done|lia]|].
    intros i q Hq. assert (jobs q = []) as Hj.
    { pose proof (sum_lookup (λ q, length (jobs q)) i (queues s) q Hq) as H. unfold in_flight in Hf.
      destruct (jobs q) as [|j l] eqn:E; [done|]. cbn in H. rewrite E in H. cbn in H. lia. }
    split; [done|]. rewrite (qo_depth s i q (ti_queue _ s Hi i q Hq)), Hj, Hr.
    assert (batch_len i s = 0%nat) as ->; [|done].
    unfold batch_len. destruct (workers s !! i) as [w|] eqn:E; [|done].
    pose proof (sum_lookup (worker_work (length ls)) i (workers s) w E) as H.
    unfold tx_work in Hz. unfold worker_work in H at 1.
    destruct (Nat.eqb_spec (w_len w) 0); lia.
Qed.

(** ** A small run *)

Definition demo_links : list (Link * bool) := map (λ l, (l, true)) sample_links.
Definition demo_job : TxJob := TxJob_new 0 Data 7 [69; 0; 0; 20].
Definition demo_start : Tx := Tx_new true demo_links.
Definition demo_submitted : Tx :=
  count 1 0 0 (with_outbound (Placing (demo_job, Choose (Some 0%nat))) demo_start).

Lemma demo_reach : tx_reach true demo_links demo_submitted.
Proof. eapply tx_external; [apply tx_start|]. by apply tx_submit. Qed.

Lemma tx_accounted_witness :
  ∃ d : nat, dropped_total demo_submitted = wrap 64 (Z.of_nat d) ∧
    submitted demo_submitted = (in_flight demo_submitted + wired demo_submitted
                                + skipped demo_submitted + d)%nat.
Proof. apply (tx_accounted true demo_links demo_submitted demo_reach). vm_compute. reflexivity. Defined.

Lemma tx_terminates_witness :
  tx_work 2 demo_submitted = 21%nat ∧
  ∀ k s', nsteps tx_step k demo_submitted s' → (k ≤ 21)%nat.
Proof.
  split; [vm_compute; reflexivity|].
  exact (proj1 (tx_terminates true demo_links demo_submitted demo_reach)).
Defined.
