(* ===== verification/Wireguard.v ===== *)
(** * WireGuard sessions ([wireguard.rs])

    [WgTunnel] around [boringtun]'s [Tunn]: the fake IPv4 header every frame is
    wrapped in, the two counters, and what a caller is told about a datagram.
    [Tunn] is third-party: its operations are the class [Boringtun], what the
    code relies on of them is the record [boringtun_laws]. *)

From S2P Require Import Prelude Bytes Protocol Configuration.

(** ** The interface of [boringtun::noise] *)

Inductive TunnResult :=
  | Done
  | TunnErr (e : string)
  | WriteToNetwork (bytes : list Z)
  | WriteToTunnelV4 (bytes : list Z)
  | WriteToTunnelV6 (bytes : list Z).

(** [Tunn] reads the clock ([now]); the number is the length of the output
    buffer. [Tunn_decapsulate] may panic, which is [None]; [debug_result] is the
    [{:?}] of a result. *)
Class Boringtun := {
  Tunn : Type;
  Tunn_new : list Z → list Z → Tunn;
  Tunn_encapsulate : Z → list Z → nat → Tunn → Tunn * TunnResult;
  Tunn_decapsulate : Z → list Z → nat → Tunn → option (Tunn * TunnResult);
  Tunn_update_timers : Z → nat → Tunn → Tunn * TunnResult;
  Tunn_time_since_last_handshake : Z → Tunn → option Z;
  debug_result : TunnResult → string }.

(** ** The module *)

Definition FAKE_IPV4_PROTOCOL : Z := 253.
Definition MAX_WG_PACKET : nat := Z.to_nat (65535 + 64).
Definition WG_MSG_TYPE_DATA : Z := 4.

Definition from_le (b : list Z) : Z := from_be (rev b).

Definition write_fake_ipv4_header (payload_len : Z) : outcome (list Z) :=
  let total_len := FAKE_IPV4_HEADER_LEN + payload_len in
  _ ← guard_err (65535 <? total_len)
        (Protocol ("wg encapsulate: frame too large (" +:+ pretty payload_len
           +:+ " bytes) to fit boringtun's fake IPv4 wrapper"));
  mret ([0x45; 0x00] ++ u16_to_be total_len ++ [0x00; 0x00] ++ [0x00; 0x00] ++ [64]
        ++ [FAKE_IPV4_PROTOCOL] ++ [0x00; 0x00] ++ [0; 0; 0; 0] ++ [0; 0; 0; 0]).

(** The message type test of [encapsulate_parts_into]. *)
Definition is_data (bytes : list Z) : bool :=
  bool_decide (4 ≤ length bytes)%nat && (from_le (take 4 bytes) =? WG_MSG_TYPE_DATA).

Inductive DecapsulateKind :=
  | KFrame
  | KSendReply (reply : list Z)
  | KConsumed.

Inductive DecapsulateOutcome :=
  | OFrame (frame : list Z)
  | OSendReply (reply : list Z)
  | OConsumed.

Section tunnel.
Context `{BT : Boringtun}.

(** [WgTunnel] with its [Inner]; of [enc_scratch] and [dec_scratch] only the
    length matters, and the latter's never changes. *)
Record WgTunnel := mkWg {
  tunn : Tunn;
  wrap_scratch : list Z;
  enc_scratch : nat;
  rejected_total : Z;
  substituted_total : Z }.

Definition WgTunnel_new (local_private peer_public : list Z) : WgTunnel :=
  mkWg (Tunn_new local_private peer_public) [] 2048 0 0.

Definition set_tunn (t : Tunn) (w : WgTunnel) : WgTunnel :=
  mkWg t (wrap_scratch w) (enc_scratch w) (rejected_total w) (substituted_total w).
Definition note_rejected (w : WgTunnel) : WgTunnel :=
  mkWg (tunn w) (wrap_scratch w) (enc_scratch w) (wrap 64 (rejected_total w + 1))
    (substituted_total w).
Definition note_substituted (w : WgTunnel) : WgTunnel :=
  mkWg (tunn w) (wrap_scratch w) (enc_scratch w) (rejected_total w)
    (wrap 64 (substituted_total w + 1)).
Definition set_scratch (wrapped : list Z) (n : nat) (w : WgTunnel) : WgTunnel :=
  mkWg (tunn w) wrapped n (rejected_total w) (substituted_total w).

(** [&mut enc_scratch[..buf_len]] after the scratch was grown. *)
Definition grown (w : WgTunnel) (buf_len : nat) : nat :=
  if bool_decide (enc_scratch w < buf_len)%nat then buf_len else enc_scratch w.

(** The caller's buffer [out] is an argument and part of the result. *)
Definition encapsulate_parts_into (now : Z) (parts : list (list Z)) (out : list Z)
    (w : WgTunnel) : WgTunnel * list Z * outcome bool :=
  match write_fake_ipv4_header (len (concat parts)) with
  | Err e => (w, out, Err e)
  | Panic => (w, out, Panic)
  | Ok hdr =>
      let wrapped := hdr ++ concat parts in
      let buf_len := Nat.max (length wrapped + 64) 148 in
      let w := set_scratch wrapped (grown w buf_len) w in
      if bool_decide (enc_scratch w < buf_len)%nat then (w, out, Panic) else
      let '(t, r) := Tunn_encapsulate now wrapped buf_len (tunn w) in
      let w := set_tunn t w in
      match r with
      | WriteToNetwork bytes =>
          let data := is_data bytes in
          (if data then w else note_substituted w, bytes, Ok data)
      | TunnErr e => (w, out, Err (Protocol ("wg encapsulate: " +:+ e)))
      | Done => (w, out, Err (Protocol "wg encapsulate: handshake not yet complete"))
      | other => (w, out, Err (Protocol ("wg encapsulate: unexpected result "
                                           +:+ debug_result other)))
      end
  end.

Definition encapsulate_parts (now : Z) (parts : list (list Z)) (w : WgTunnel)
    : WgTunnel * outcome (list Z * bool) :=
  let '(w, out, r) := encapsulate_parts_into now parts [] w in
  (w, carried ← r; mret (out, carried)).

Definition encapsulate (now : Z) (plaintext : list Z) (w : WgTunnel)
    : WgTunnel * outcome (list Z * bool) := encapsulate_parts now [plaintext] w.

Definition too_large (datagram : list Z) : MlvpnError :=
  Protocol ("wg decapsulate: datagram too large (" +:+ pretty (len datagram)
    +:+ " bytes, max " +:+ pretty (Z.of_nat MAX_WG_PACKET) +:+ ")").

Definition decapsulate_locked (now : Z) (datagram frame_out : list Z) (w : WgTunnel)
    : WgTunnel * list Z * outcome DecapsulateKind :=
  if bool_decide (MAX_WG_PACKET < length datagram)%nat
  then (note_rejected w, frame_out, Err (too_large datagram)) else
  match Tunn_decapsulate now datagram MAX_WG_PACKET (tunn w) with
  | None => (w, frame_out, Panic)
  | Some (t, r) =>
      let w := set_tunn t w in
      match r with
      | Done => (w, frame_out, Ok KConsumed)
      | TunnErr e => (note_rejected w, frame_out, Err (Protocol ("wg decapsulate: " +:+ e)))
      | WriteToNetwork bytes => (w, frame_out, Ok (KSendReply bytes))
      | WriteToTunnelV4 bytes =>
          if len bytes <? FAKE_IPV4_HEADER_LEN then
            (w, frame_out, Err (Protocol ("wg decapsulate: decrypted packet ("
               +:+ pretty (len bytes)
               +:+ " bytes) shorter than the fake IPv4 header we always add")))
          else (w, drop (Z.to_nat FAKE_IPV4_HEADER_LEN) bytes, Ok KFrame)
      | WriteToTunnelV6 _ =>
          (w, frame_out, Err (Protocol
             "wg decapsulate: unexpected IPv6-tagged result (mlvpn only ever emits the fake IPv4 form)"))
      end
  end.

Definition decapsulate_into (now : Z) (datagram frame_out : list Z) (w : WgTunnel)
    : WgTunnel * list Z * outcome DecapsulateKind :=
  if bool_decide (MAX_WG_PACKET < length datagram)%nat
  then (note_rejected w, frame_out, Err (too_large datagram))
  else decapsulate_locked now datagram frame_out w.

Definition decapsulate (now : Z) (datagram : list Z) (w : WgTunnel)
    : WgTunnel * outcome DecapsulateOutcome :=
  let '(w, frame, r) := decapsulate_into now datagram [] w in
  (w, kind ← r; mret match kind with
                     | KFrame => OFrame frame
                     | KSendReply reply => OSendReply reply
                     | KConsumed => OConsumed
                     end).

(** The datagrams zipped with the frame buffers; surplus buffers are kept. *)
Fixpoint decapsulate_batch (now : Z) (datagrams frames : list (list Z)) (w : WgTunnel)
    : WgTunnel * list (list Z) * list (outcome DecapsulateKind) :=
  match datagrams, frames with
  | d :: datagrams, frame_out :: frames =>
      let '(w, frame, r) := decapsulate_locked now d frame_out w in
      let '(w, frames, out) := decapsulate_batch now datagrams frames w in
      (w, frame :: frames, r :: out)
  | _, _ => (w, frames, [])
  end.

Definition tick (now : Z) (w : WgTunnel) : WgTunnel * option (list Z) :=
  let '(t, r) := Tunn_update_timers now MAX_WG_PACKET (tunn w) in
  (set_tunn t w, match r with WriteToNetwork bytes => Some bytes | _ => None end).

Definition last_handshake_age (now : Z) (w : WgTunnel) : option Z :=
  Tunn_time_since_last_handshake now (tunn w).

(** ** What the code relies on of [boringtun] *)

(** [awaits b l a]: the live session of the receiver [b] with the sender [a],
    [l] being the data messages [a] made that [b] has not processed, each with
    its plaintext. The decapsulating side reads the plaintext as an IP packet:
    one of version 4 is cut to the length at bytes 2 and 3. *)
Record boringtun_laws (awaits : Tunn → list (list Z * list Z) → Tunn → Prop) : Prop := {
  decapsulate_panics : ∀ now d dst t, (length d ≤ dst)%nat →
    is_Some (Tunn_decapsulate now d dst t);
  encapsulate_size : ∀ now src dst t t' d,
    Tunn_encapsulate now src dst t = (t', WriteToNetwork d) → (length d ≤ dst)%nat;
  sends_data : ∀ now src dst a a' d l b, awaits b l a →
    Tunn_encapsulate now src dst a = (a', WriteToNetwork d) → is_data d = true →
    awaits b (l ++ [(d, src)]) a';
  sends_other : ∀ now src dst a a' r l b, awaits b l a →
    Tunn_encapsulate now src dst a = (a', r) →
    (∀ d, r = WriteToNetwork d → is_data d = false) → awaits b l a';
  data_arrives : ∀ now dst d src l a b, awaits b ((d, src) :: l) a → (length d ≤ dst)%nat →
    (20 ≤ length src)%nat → src !!! 0%nat / 16 = 4 →
    (Z.to_nat (from_be (take 2 (drop 2 src))) ≤ length src)%nat →
    ∃ b', Tunn_decapsulate now d dst b =
            Some (b', WriteToTunnelV4 (take (Z.to_nat (from_be (take 2 (drop 2 src)))) src)) ∧
          awaits b' l a;
  data_is_lost : ∀ d src l a b, awaits b ((d, src) :: l) a → awaits b l a }.

End tunnel.
Global Arguments WgTunnel {BT}.
Global Arguments mkWg {BT}.

(** ** The wrapper *)

Lemma fake_header_ok n :
  n ≤ 65515 →
  write_fake_ipv4_header n =
    Ok ([69; 0] ++ u16_to_be (20 + n) ++ [0; 0; 0; 0; 64; 253; 0; 0] ++ replicate 8 0).
Proof.
  intros. unfold write_fake_ipv4_header, FAKE_IPV4_HEADER_LEN.
  by rewrite guard_err_false by (apply Z.ltb_ge; lia).
Qed.

Lemma fake_header_err n : 65515 < n → ∃ m, write_fake_ipv4_header n = Err (Protocol m).
Proof.
  intros. unfold write_fake_ipv4_header, FAKE_IPV4_HEADER_LEN.
  rewrite (proj2 (Z.ltb_lt _ _)) by lia. by eexists.
Qed.

(** A wrapped frame reads as an IPv4 packet of exactly its own length. *)
Lemma wrapped_packet frame hdr :
  write_fake_ipv4_header (len frame) = Ok hdr →
  length hdr = 20%nat ∧ len frame ≤ 65515 ∧ (hdr ++ frame) !!! 0%nat / 16 = 4 ∧
  Z.to_nat (from_be (take 2 (drop 2 (hdr ++ frame)))) = length (hdr ++ frame).
Proof.
  intros H. destruct (Z.le_gt_cases (len frame) 65515) as [Hn|Hn].
  2: { by destruct (fake_header_err _ Hn) as [m E]; rewrite E in H. }
  rewrite fake_header_ok in H by done. apply (f_equal (λ o, match o with Ok h => h | _ => [] end)) in H.
  cbv beta iota in H. subst hdr.
  set (l := u16_to_be (20 + len frame)).
  assert (length l = 2%nat) as Hl by apply length_to_be.
  assert (from_be l = 20 + len frame) as Hv.
  { apply (from_to_be 2). unfold fits. pose proof (Nat2Z.is_nonneg (length frame)).
    unfold len in *. change (2 ^ (8 * Z.of_nat 2)) with 65536. lia. }
  clearbody l. explode l Hl. unfold len in *. split_and!; [done..|].
  cbn [app firstn skipn]. rewrite Hv. cbn. lia.
Qed.

Section session.
Context `{BT : Boringtun}.
Context (awaits : Tunn → list (list Z * list Z) → Tunn → Prop).
Context (laws : boringtun_laws awaits).

Lemma grown_enough w n : (grown w n < n)%nat → False.
Proof. unfold grown. case_bool_decide; lia. Qed.

(** The three things [encapsulate_parts_into] does. *)
Lemma encapsulate_cases now parts out w :
  (65515 < len (concat parts) ∧
   ∃ m, encapsulate_parts_into now parts out w = (w, out, Err (Protocol m))) ∨
  (∃ hdr t r n, write_fake_ipv4_header (len (concat parts)) = Ok hdr ∧
     (n ≤ MAX_WG_PACKET)%nat ∧
     Tunn_encapsulate now (hdr ++ concat parts) n (tunn w) = (t, r) ∧
     let '(w', out', res) := encapsulate_parts_into now parts out w in
     tunn w' = t ∧ rejected_total w' = rejected_total w ∧
     match r with
     | WriteToNetwork d =>
         out' = d ∧ res = Ok (is_data d) ∧
         substituted_total w' = if is_data d then substituted_total w
                                else wrap 64 (substituted_total w + 1)
     | _ => out' = out ∧ (∃ m, res = Err (Protocol m)) ∧
            substituted_total w' = substituted_total w
     end).
Proof.
  destruct (Z.le_gt_cases (len (concat parts)) 65515) as [Hn|Hn]; [right|left].
  2: { split; [done|]. destruct (fake_header_err _ Hn) as [m E].
       exists m. unfold encapsulate_parts_into. by rewrite E. }
  pose proof (fake_header_ok _ Hn) as E.
  set (hdr := _ ++ _) in E. destruct (wrapped_packet (concat parts) hdr E) as (Hl & _).
  set (n := Nat.max (length (hdr ++ concat parts) + 64) 148).
  destruct (Tunn_encapsulate now (hdr ++ concat parts) n (tunn w)) as [t r] eqn:Et.
  exists hdr, t, r, n. split; [done|]. split.
  { unfold n, MAX_WG_PACKET, len in *. rewrite length_app, Hl. lia. }
  split; [done|]. unfold encapsulate_parts_into. rewrite E. cbv zeta. fold n.
  rewrite bool_decide_false by (intros ?%grown_enough; done). cbn [set_scratch tunn]. rewrite Et.
  destruct r as [|e|d|b|b]; cbn; try by eauto 10. by destruct (is_data d).
Qed.

(** A carried frame reaches the peer of the session byte for byte. *)
Lemma carried_arrives now d hdr frame fo l a b :
  write_fake_ipv4_header (len frame) = Ok hdr → (length d ≤ MAX_WG_PACKET)%nat →
  awaits (tunn b) ((d, hdr ++ frame) :: l) a →
  ∃ b', decapsulate_locked now d fo b = (b', frame, Ok KFrame) ∧ awaits (tunn b') l a ∧
        rejected_total b' = rejected_total b.
Proof.
  intros Hh Hd Haw. destruct (wrapped_packet frame hdr Hh) as (Hl & Hn & Hv & Ht).
  destruct (data_arrives _ laws now MAX_WG_PACKET _ _ _ _ _ Haw) as (t & E & Haw');
    [done|rewrite length_app; lia|done|by rewrite Ht|].
  rewrite Ht, firstn_all in E. exists (set_tunn t b). unfold decapsulate_locked.
  rewrite bool_decide_false by lia. rewrite E. cbv zeta.
  rewrite (proj2 (Z.ltb_ge _ _)) by (unfold len, FAKE_IPV4_HEADER_LEN; rewrite length_app; lia).
  unfold FAKE_IPV4_HEADER_LEN. by rewrite drop_app_length' by done.
Qed.

(** The four things decapsulating does; none is a panic. *)
Lemma decapsulate_cases now d fo w :
  let '(w', fo', res) := decapsulate_locked now d fo w in
  res ≠ Panic ∧ substituted_total w' = substituted_total w ∧
  (res ≠ Ok KFrame → fo' = fo) ∧
  (rejected_total w' = wrap 64 (rejected_total w + 1) ∧ ¬ is_ok res ∨
   rejected_total w' = rejected_total w).
Proof.
  unfold decapsulate_locked. case_bool_decide as Hd; [split_and!; [done..|left; split; [done|by intros ?]]|].
  destruct (decapsulate_panics _ laws now d MAX_WG_PACKET (tunn w)) as [[t r] ->]; [lia|].
  destruct r as [|e|b|b|b]; [| | |destruct (len b <? _)|];
    (split_and!; [done..|]); try (by right); left; split; [done|by intros ?].
Qed.

End session.

(** ** Any run of one tunnel *)

Inductive wg_op :=
  | WgSend (now : Z) (parts : list (list Z)) (out : list Z)
  | WgRecv (now : Z) (datagram frame_out : list Z)
  | WgTick (now : Z).

Inductive wg_answer :=
  | Sent (r : outcome bool)
  | Received (r : outcome DecapsulateKind)
  | Ticked (r : option (list Z)).

Definition wg_step `{Boringtun} (w : WgTunnel) (op : wg_op) : WgTunnel * wg_answer :=
  match op with
  | WgSend now parts out =>
      let '(w, _, r) := encapsulate_parts_into now parts out w in (w, Sent r)
  | WgRecv now d fo => let '(w, _, r) := decapsulate_into now d fo w in (w, Received r)
  | WgTick now => let '(w, r) := tick now w in (w, Ticked r)
  end.

Fixpoint wg_run `{Boringtun} (w : WgTunnel) (ops : list wg_op) : WgTunnel * list wg_answer :=
  match ops with
  | [] => (w, [])
  | op :: ops =>
      let '(w, r) := wg_step w op in
      let '(w, rs) := wg_run w ops in (w, r :: rs)
  end.

Definition panicked (r : wg_answer) : bool :=
  match r with Sent Panic | Received Panic => true | _ => false end.
Definition not_carried (r : wg_answer) : bool :=
  match r with Sent (Ok false) => true | _ => false end.
Definition failed_receive (r : wg_answer) : bool :=
  match r with Received (Err _) => true | _ => false end.

(** How many times a test holds. *)
Definition count_if {A} (f : A → bool) (l : list A) : nat := length (filter (λ x, f x = true) l).

Lemma count_if_cons {A} (f : A → bool) x l :
  count_if f (x :: l) = ((if f x then 1 else 0) + count_if f l)%nat.
Proof. unfold count_if. rewrite filter_cons. destruct (f x); by case_decide. Qed.

Section runs.
Context `{BT : Boringtun}.
Context (awaits : Tunn → list (list Z * list Z) → Tunn → Prop).
Context (laws : boringtun_laws awaits).

Lemma wg_step_counts w op w' r :
  wg_step w op = (w', r) →
  panicked r = false ∧
  (not_carried r = true ∧ substituted_total w' = wrap 64 (substituted_total w + 1) ∨
   not_carried r = false ∧ substituted_total w' = substituted_total w) ∧
  (failed_receive r = true ∧ rejected_total w' = wrap 64 (rejected_total w + 1) ∨
   rejected_total w' = rejected_total w).
Proof.
  destruct op as [now parts out|now d fo|now]; cbn.
  - destruct (encapsulate_cases now parts out w)
      as [(_ & m & ->)|(hdr & t & res & n & _ & _ & _ & H)].
    { intros [= <- <-]. cbn. auto. }
    destruct (encapsulate_parts_into now parts out w) as [[w1 out1] r1].
    intros [= <- <-]. destruct H as (_ & Hr & H). rewrite Hr.
    destruct res as [|e|dg|b|b]; destruct H as (_ & H & Hs); try (destruct H as [m ->]; cbn; by auto).
    subst r1. cbn. destruct (is_data dg); cbn; auto.
  - pose proof (decapsulate_cases awaits laws now d fo w) as H. unfold decapsulate_into.
    case_bool_decide as Hd.
    { intros [= <- <-]. cbn. auto. }
    destruct (decapsulate_locked now d fo w) as [[w1 fo1] r1]. intros [= <- <-].
    destruct H as (H1 & H2 & _ & H3). rewrite H2. cbn. split_and!; [by destruct r1|by auto|].
    destruct H3 as [[H3 H4]| ->]; [left|by auto]. by destruct r1.
  - unfold tick. destruct (Tunn_update_timers _ _ _) as [t res]. intros [= <- <-]. cbn. auto.
Qed.

(** A tunnel fed any run of frames, datagrams and timer ticks, whatever
    bytes an attacker puts in the datagrams, never panics; its counter of
    substituted frames goes up exactly with the sends reported as not carried,
    and its counter of rejected datagrams by at most the failed receives. *)
Theorem wg_run_counts w ops w' rs :
  wg_run w ops = (w', rs) →
  Forall (λ r, panicked r = false) rs ∧
  wrap 64 (substituted_total w') =
    wrap 64 (substituted_total w + Z.of_nat (count_if not_carried rs)) ∧
  ∃ k, (k ≤ count_if failed_receive rs)%nat ∧
    wrap 64 (rejected_total w') = wrap 64 (rejected_total w + Z.of_nat k).
Proof.
  revert w w' rs. induction ops as [|op ops IH]; intros w w' rs; cbn.
  { intros [= <- <-]. rewrite !Z.add_0_r. split_and!; [done..|]. exists 0%nat.
    by rewrite Z.add_0_r. }
  destruct (wg_step w op) as [w1 r] eqn:E. destruct (wg_run w1 ops) as [w2 rs1] eqn:Er.
  intros [= <- <-]. apply wg_step_counts in E as (Hp & Hs & Hr).
  destruct (IH w1 w2 rs1 Er) as (IH1 & IH2 & k & Hk & IH3).
  split; [by constructor|]. rewrite IH2, !count_if_cons. split.
  - destruct Hs as [[-> ->]|[-> ->]]; [rewrite wrap_add_l|]; f_equal; lia.
  - destruct Hr as [[-> Hr]| Hr]; [exists (S k)|exists k].
    + split; [lia|]. rewrite IH3, Hr, wrap_add_l. f_equal. lia.
    + split; [destruct (failed_receive r); lia|]. by rewrite IH3, Hr.
Qed.

End runs.

(** ** A session without encryption *)

(** The interface implemented with a cipher that does nothing: the messages and
    the reading of the plaintext as an IP packet are WireGuard's, a session is
    up once a handshake message was received. *)
Module plain.

Definition deliver (p : list Z) : TunnResult :=
  match p with
  | [] => Done
  | b :: _ =>
      if (b / 16 =? 4) && bool_decide (20 ≤ length p)%nat then
        let n := Z.to_nat (from_be (take 2 (drop 2 p))) in
        if bool_decide (n ≤ length p)%nat then WriteToTunnelV4 (take n p)
        else TunnErr "InvalidPacket"
      else TunnErr "InvalidPacket"
  end.

Definition receive (d : list Z) (up : bool) : bool * TunnResult :=
  match d with
  | 4 :: 0 :: 0 :: 0 :: p => (up, deliver p)
  | 1 :: _ => (true, WriteToNetwork (2 :: replicate 91 0))
  | 2 :: _ => (true, Done)
  | _ => (up, TunnErr "WrongPacketType")
  end.

#[export] Instance tunn : Boringtun := {|
  Tunn := bool;
  Tunn_new _ _ := false;
  Tunn_encapsulate _ src dst up :=
    let d := if up : bool then [4; 0; 0; 0] ++ src else 1 :: replicate 147 0 in
    (up, if bool_decide (length d ≤ dst)%nat then WriteToNetwork d
         else TunnErr "DestinationBufferTooSmall");
  Tunn_decapsulate _ d dst up :=
    if bool_decide (length d ≤ dst)%nat then Some (receive d up) else None;
  Tunn_update_timers _ _ up := (up, Done);
  Tunn_time_since_last_handshake _ _ := None;
  debug_result _ := "" |}.

Definition awaits (b : bool) (l : list (list Z * list Z)) (a : bool) : Prop :=
  a = true ∧ Forall (λ ds, ds.1 = [4; 0; 0; 0] ++ ds.2) l.

Lemma plain_laws : boringtun_laws awaits.
Proof.
  split; cbn.
  - intros _ d dst t Hd. by rewrite bool_decide_true.
  - intros _ src dst t t' d. case_bool_decide; by intros [= <- <-].
  - intros _ src dst a a' d l b [-> Hl]. case_bool_decide; [|done]. intros [= <- <-] _.
    split; [done|]. apply Forall_app. by repeat constructor.
  - intros _ src dst a a' r l b [-> Hl]. by intros [= <- _].
  - intros _ dst d src l a b [-> Hl] Hd H20 Hv Hn. apply Forall_cons in Hl as [Heq Hl].
    cbn in Heq. subst d. exists b. rewrite bool_decide_true by done. split; [|done].
    cbn. unfold deliver. destruct src as [|x src]; [done|]. cbn in Hv. rewrite Hv. cbn [Z.eqb].
    by rewrite (bool_decide_true _ H20), (bool_decide_true _ Hn).
  - intros d src l a b [-> [_ Hl]%Forall_cons]. done.
Qed.

Definition fresh (up : bool) : WgTunnel := mkWg up [] 2048 0 0.

Definition sample_ops : list wg_op :=
  [WgSend 0 [[1; 2]] []; WgRecv 0 (2 :: replicate 91 0) []; WgSend 1 [[1]; [2]] [];
   WgRecv 2 [9; 9] [7]].

Lemma wg_run_counts_witness :
  let '(w', rs) := wg_run (fresh false) sample_ops in
  wrap 64 (substituted_total w') = 1 ∧ Forall (λ r, panicked r = false) rs.
Proof.
  assert (count_if not_carried (wg_run (fresh false) sample_ops).2 = 1%nat) as Hc
    by (vm_compute; reflexivity).
  destruct (wg_run (fresh false) sample_ops) as [w' rs] eqn:E.
  pose proof (wg_run_counts awaits plain_laws _ _ _ _ E) as (H1 & H2 & _).
  cbn [snd] in Hc. rewrite Hc in H2. exact (conj H2 H1).
Defined.

End plain.
