(* ===== verification/Gso.v ===== *)
(** * Sending a batch of datagrams ([link.rs])

    [plan_gso_runs], [sendmmsg_all] and [sendmmsg_gso_all]: which datagrams go
    to the kernel as one message, and what each datagram's outcome is whatever
    the kernel accepts. The kernel is the class [Kernel]. *)

From S2P Require Import Prelude Bytes Wireguard.

(** ** Runs *)

Record GsoRun := mkRun { run_start : nat; run_len : nat }.

Definition GSO_MAX_SEGS : nat := 64.
Definition GSO_MAX_BYTES : Z := 65000.
Definition SENDMMSG_MAX : nat := 64.

(** The inner loop, on the datagrams after the run so far. *)
Fixpoint extend_run (size : Z) (n : nat) (bytes : Z) (rest : list (list Z)) : nat :=
  match rest with
  | [] => n
  | d :: rest =>
      if bool_decide (n < GSO_MAX_SEGS)%nat then
        let s := len d in
        if (s =? size) && (bytes + s <=? GSO_MAX_BYTES)
        then extend_run size (S n) (bytes + s) rest
        else if (0 <? s) && (s <? size) && (bytes + s <=? GSO_MAX_BYTES) then S n else n
      else n
  end.

Definition first_run (dgs : list (list Z)) : nat :=
  match dgs with
  | [] => 0
  | d :: rest =>
      let size := len d in
      if (0 <? size) && (size <=? 65535) then extend_run size 1 size rest else 1
  end.

(** The outer loop from datagram [i] on; every run has at least one datagram,
    so their number is enough fuel. *)
Fixpoint plan_from (fuel i : nat) (dgs : list (list Z)) : list GsoRun :=
  match fuel, dgs with
  | S fuel, _ :: _ =>
      let n := first_run dgs in mkRun i n :: plan_from fuel (i + n) (drop n dgs)
  | _, _ => []
  end.

Definition plan_gso_runs (dgs : list (list Z)) : list GsoRun := plan_from (length dgs) 0 dgs.

(** The datagrams of a run. *)
Definition run_of (dgs : list (list Z)) (r : GsoRun) : list (list Z) :=
  take (run_len r) (drop (run_start r) dgs).

(** ** The kernel *)

(** One message of [sendmmsg]: the gathered payload and, for [UDP_SEGMENT], the
    segment size. *)
Record Msg := mkMsg { payload : list Z; segment : option Z }.

(** The answer to the [n]th call, once the socket is writable: the returned
    count and the error of a failed call; and how a segmented payload leaves. *)
Class Kernel := {
  k_sendmmsg : nat → list Msg → Z * IoError;
  k_segment : Z → list Z → list (list Z) }.

Record SendmmsgStats := mkSendStats {
  calls : Z; partial : Z; gso_runs : Z; gso_segments : Z; gso_disabled : bool }.
Definition SendmmsgStats_default : SendmmsgStats := mkSendStats 0 0 0 0 false.

Definition note_call (s : SendmmsgStats) : SendmmsgStats :=
  mkSendStats (wrap 64 (calls s + 1)) (partial s) (gso_runs s) (gso_segments s) (gso_disabled s).
Definition note_partial (s : SendmmsgStats) : SendmmsgStats :=
  mkSendStats (calls s) (wrap 64 (partial s + 1)) (gso_runs s) (gso_segments s) (gso_disabled s).
Definition note_run (r : GsoRun) (s : SendmmsgStats) : SendmmsgStats :=
  if bool_decide (1 < run_len r)%nat then
    mkSendStats (calls s) (partial s) (wrap 64 (gso_runs s + 1))
      (wrap 64 (gso_segments s + Z.of_nat (run_len r))) (gso_disabled s)
  else s.

Section send.
Context `{K : Kernel}.

(** The socket: how many calls were made and what left. *)
Record Socket := mkSocket { made : nat; wire : list (list Z) }.

Definition leaves (m : Msg) : list (list Z) :=
  match segment m with None => [payload m] | Some s => k_segment s (payload m) end.

(** [libc::sendmmsg] and the reading of its result. *)
Definition sys_sendmmsg (msgs : list Msg) (s : Socket) : Socket * (IoError + nat) :=
  let '(rc, e) := k_sendmmsg (made s) msgs in
  let sent := Z.to_nat rc in
  (mkSocket (S (made s)) (wire s ++ (take sent msgs ≫= leaves)),
   if rc <? 0 then inl e
   else if rc =? 0 then inl (mkIo None "write zero") else inr sent).

Definition raw_sendmmsg (dgs : list (list Z)) (s : Socket) : Socket * (IoError + nat) :=
  let n := Nat.min (length dgs) SENDMMSG_MAX in
  sys_sendmmsg ((λ d, mkMsg d None) <$> take n dgs) s.

Definition gso_msg (dgs : list (list Z)) (r : GsoRun) : Msg :=
  mkMsg (concat (run_of dgs r))
    (if bool_decide (1 < run_len r)%nat
     then Some (wrap 16 (len (default [] (dgs !! run_start r)))) else None).

Definition raw_sendmmsg_gso (dgs : list (list Z)) (runs : list GsoRun) (s : Socket)
    : Socket * (IoError + nat) :=
  let n := Nat.min (length runs) SENDMMSG_MAX in
  sys_sendmmsg (gso_msg dgs <$> take n runs) s.

(** The loop of [sendmmsg_all] on the datagrams from [start] on. *)
Fixpoint sendmmsg_from (fuel : nat) (dgs : list (list Z)) (st : SendmmsgStats) (s : Socket)
    : Socket * list (IoError + unit) * SendmmsgStats :=
  match fuel, dgs with
  | S fuel, _ :: _ =>
      let want := Nat.min (length dgs) SENDMMSG_MAX in
      let '(s, r) := raw_sendmmsg dgs s in
      let st := note_call st in
      match r with
      | inr k =>
          let st := if bool_decide (k < want)%nat then note_partial st else st in
          let '(s, out, st) := sendmmsg_from fuel (drop k dgs) st s in
          (s, replicate k (inr tt) ++ out, st)
      | inl e =>
          let '(s, out, st) := sendmmsg_from fuel (drop 1 dgs) st s in
          (s, inl e :: out, st)
      end
  | _, _ => (s, [], st)
  end.

Definition sendmmsg_all (dgs : list (list Z)) (s : Socket)
    : Socket * list (IoError + unit) * SendmmsgStats :=
  sendmmsg_from (length dgs) dgs SendmmsgStats_default s.

Fixpoint sendmmsg_gso_from (fuel : nat) (dgs : list (list Z)) (st : SendmmsgStats) (s : Socket)
    : Socket * list (IoError + unit) * SendmmsgStats :=
  match fuel, dgs with
  | S fuel, _ :: _ =>
      let window := take SENDMMSG_MAX dgs in
      let runs := plan_gso_runs window in
      let '(s, r) := raw_sendmmsg_gso window runs s in
      let st := note_call st in
      match r with
      | inr k =>
          let st := if bool_decide (k < length runs)%nat then note_partial st else st in
          let st := foldl (flip note_run) st (take k runs) in
          let sent := sum_list_with run_len (take k runs) in
          let '(s, out, st) := sendmmsg_gso_from fuel (drop sent dgs) st s in
          (s, replicate sent (inr tt) ++ out, st)
      | inl e =>
          if bool_decide (1 < default 0 (run_len <$> head runs))%nat then
            let '(s, rest, s2) := sendmmsg_all dgs s in
            (s, rest, mkSendStats (wrap 64 (calls st + calls s2)) (wrap 64 (partial st + partial s2))
                        (gso_runs st) (gso_segments st) true)
          else
            let '(s, out, st) := sendmmsg_gso_from fuel (drop 1 dgs) st s in
            (s, inl e :: out, st)
      end
  | _, _ => (s, [], st)
  end.

Definition sendmmsg_gso_all (dgs : list (list Z)) (s : Socket)
    : Socket * list (IoError + unit) * SendmmsgStats :=
  sendmmsg_gso_from (length dgs) dgs SendmmsgStats_default s.

End send.

(** What the code relies on of the kernel: a call accepts no more messages than
    it was given, and a segmented payload is cut every [size] bytes, the last
    segment taking what is left. *)
Fixpoint segments_of (size : Z) (ds : list (list Z)) : Prop :=
  match ds with
  | [] => True
  | [d] => 0 < len d ≤ size
  | d :: ds => len d = size ∧ segments_of size ds
  end.

Record kernel_laws `{Kernel} : Prop := {
  accepts_prefix : ∀ n msgs, (k_sendmmsg n msgs).1 ≤ len msgs;
  segments_cut : ∀ size ds, 0 < size → segments_of size ds → k_segment size (concat ds) = ds }.

(** ** The plan *)

#[local] Arguments GSO_MAX_SEGS : simpl never.
#[local] Arguments GSO_MAX_BYTES : simpl never.
#[local] Arguments SENDMMSG_MAX : simpl never.

Definition total (ds : list (list Z)) : Z := len (concat ds).

(** A run the kernel takes as one message: one datagram, or up to 64 of the
    first one's size with a possibly shorter last one. *)
Definition valid_run (ds : list (list Z)) : Prop :=
  match ds with
  | [] => False
  | [_] => True
  | d :: rest => 0 < len d ≤ 65535 ∧ (length ds ≤ GSO_MAX_SEGS)%nat ∧
                 total ds ≤ GSO_MAX_BYTES ∧ segments_of (len d) rest
  end.

Lemma total_cons d ds : total (d :: ds) = len d + total ds.
Proof. unfold total, len. cbn. rewrite length_app. lia. Qed.

Lemma total_nonneg ds : 0 ≤ total ds.
Proof. unfold total, len. lia. Qed.

Lemma len_nonneg {A} (d : list A) : 0 ≤ len d.
Proof. unfold len. lia. Qed.

Lemma segments_cons size d ds :
  segments_of size (d :: ds) ↔ (ds = [] ∧ 0 < len d ≤ size) ∨ (ds ≠ [] ∧ len d = size ∧ segments_of size ds).
Proof. destruct ds; cbn; naive_solver. Qed.

(** What a run started with [n] datagrams of [bytes] in all can take of what
    follows. *)
Definition fits_run (size : Z) (n : nat) (bytes : Z) (ds : list (list Z)) : Prop :=
  ds = [] ∨ (n + length ds ≤ GSO_MAX_SEGS)%nat ∧ bytes + total ds ≤ GSO_MAX_BYTES ∧
            segments_of size ds.

(** The inner loop takes the longest such run. *)
Lemma extend_run_longest size n bytes rest :
  0 < size →
  ∃ m, extend_run size n bytes rest = (n + m)%nat ∧ (m ≤ length rest)%nat ∧
    fits_run size n bytes (take m rest) ∧
    ∀ m', (m' ≤ length rest)%nat → fits_run size n bytes (take m' rest) → (m' ≤ m)%nat.
Proof.
  intros Hsz. revert n bytes. induction rest as [|d rest IH]; intros n bytes; cbn [extend_run length].
  { exists 0%nat. split_and!; [lia..|by left|lia]. }
  assert (∀ m', (m' ≤ S (length rest))%nat → fits_run size n bytes (take m' (d :: rest)) →
            m' = 0%nat ∨ (n < GSO_MAX_SEGS)%nat ∧ bytes + len d ≤ GSO_MAX_BYTES ∧ 0 < len d ≤ size ∧
            ∃ m1, m' = S m1 ∧ (m1 ≤ length rest)%nat ∧
              (m1 = 0%nat ∨ len d = size ∧ fits_run size (S n) (bytes + len d) (take m1 rest)))
    as Hinv.
  { intros [|m'] Hm [Hf|(Hf1 & Hf2 & Hf3)]; try done; [by left..|right]. cbn in Hf1, Hf2, Hf3.
    rewrite total_cons in Hf2. pose proof (total_nonneg (take m' rest)).
    pose proof (len_nonneg d). split; [lia|]. split; [lia|].
    apply segments_cons in Hf3 as [[Hnil Hd]|(Hne & Hd & Hs)].
    - split; [done|]. exists m'. split_and!; [done|lia|left]. destruct m', rest; done || cbn in *; lia.
    - split; [lia|]. exists m'. split_and!; [done|lia|right]. split; [done|]. right.
      split_and!; [lia|lia|done]. }
  case_bool_decide as Hn.
  2: { exists 0%nat. split_and!; [lia..|by left|]. intros m' Hm' Hf'; destruct (Hinv m' Hm' Hf') as [->|[? _]]; lia. }
  destruct (Z.eqb_spec (len d) size) as [Hd|Hd]; cbn [andb].
  - destruct (Z.leb_spec (bytes + len d) GSO_MAX_BYTES) as [Hb|Hb].
    + destruct (IH (S n) (bytes + len d)) as (m & -> & Hm & Hfit & Hmax). exists (S m).
      split_and!; [lia|lia| |].
      * right. destruct Hfit as [Hnil|(H1 & H2 & H3)]; cbn [take length]; rewrite total_cons.
        -- rewrite Hnil. change (total []) with 0. cbn [length segments_of]. lia.
        -- split_and!; [lia|lia|]. apply segments_cons. destruct (decide (take m rest = [])); naive_solver lia.
      * intros m' Hm' Hf'; destruct (Hinv m' Hm' Hf') as [->|(_ & _ & _ & m1 & -> & Hm1 & [->|[_ Hf]])]; [lia|lia|].
        specialize (Hmax m1 Hm1 Hf). lia.
    + rewrite andb_false_r. exists 0%nat. split_and!; [lia..|by left|].
      intros m' Hm' Hf'; destruct (Hinv m' Hm' Hf') as [->|(_ & ? & _)]; lia.
  - destruct (_ && _) eqn:E.
    + rewrite !andb_true_iff, !Z.ltb_lt, Z.leb_le in E. destruct E as [[E1 E2] E3].
      exists 1%nat. split_and!; [lia|lia| |].
      * right. cbn [firstn]. rewrite take_0, total_cons. change (total []) with 0.
        cbn [length segments_of]. lia.
      * intros m' Hm' Hf'; destruct (Hinv m' Hm' Hf') as [->|(_ & _ & _ & m1 & -> & Hm1 & [->|[? _]])]; lia.
    + exists 0%nat. split_and!; [lia..|by left|].
      intros m' Hm' Hf'; destruct (Hinv m' Hm' Hf') as [->|(_ & H1 & H2 & _)]; [lia|].
      rewrite !andb_false_iff, !Z.ltb_ge, Z.leb_gt in E. lia.
Qed.

Lemma first_run_longest dgs :
  dgs ≠ [] →
  (1 ≤ first_run dgs ≤ length dgs)%nat ∧ valid_run (take (first_run dgs) dgs) ∧
  ∀ m, (1 ≤ m ≤ length dgs)%nat → valid_run (take m dgs) → (m ≤ first_run dgs)%nat.
Proof.
  destruct dgs as [|d rest]; [done|]. intros _. cbn [first_run length].
  assert (∀ m, valid_run (d :: take m rest) ↔
            take m rest = [] ∨ (len d ≤ 65535 ∧ 0 < len d) ∧ fits_run (len d) 1 (len d) (take m rest))
    as Hv.
  { intros m. unfold fits_run. destruct (take m rest) as [|e r]; cbn [valid_run]; [naive_solver|].
    rewrite total_cons. cbn [length]. split; [intros (?&?&?&?)|intros [?|[? [?|(?&?&?)]]]; try done].
    - right. split; [lia|]. right. split_and!; [lia|lia|done].
    - split_and!; [lia..|done]. }
  destruct (_ && _) eqn:E.
  - rewrite andb_true_iff, Z.ltb_lt, Z.leb_le in E.
    destruct (extend_run_longest (len d) 1 (len d) rest) as (m & -> & Hm & Hf & Hmax); [lia|].
    split; [lia|]. cbn [Nat.add firstn]. split; [apply Hv; auto with lia|].
    intros [|k] Hk; [lia|]. cbn [firstn]. intros [Hn|[_ Hk']]%Hv.
    + destruct k; [lia|]. destruct rest; cbn in *; done || lia.
    + specialize (Hmax k ltac:(lia) Hk'). lia.
  - split; [lia|]. cbn [firstn]. split; [by rewrite take_0|].
    intros [|[|k]] Hk; [lia|lia|]. cbn [firstn]. intros [Hn|[Hd _]]%Hv.
    + destruct rest; cbn in *; done || lia.
    + rewrite andb_false_iff, Z.ltb_ge, Z.leb_gt in E. lia.
Qed.

Lemma valid_run_tail d e r : valid_run (d :: e :: r) → valid_run (e :: r).
Proof.
  destruct r as [|f r]; [done|]. intros (H1 & H2 & H3 & H4).
  apply segments_cons in H4 as [[? _]|(_ & He & H4)]; [done|].
  rewrite total_cons in H3. cbn [length] in H2. split_and!; [lia..|cbn [length]; lia|lia|].
  by rewrite He.
Qed.

(** How many runs the plan needs. *)
Definition needed (dgs : list (list Z)) : nat := length (plan_gso_runs dgs).

Lemma plan_from_length f g i j dgs :
  (length dgs ≤ f)%nat → (length dgs ≤ g)%nat →
  length (plan_from f i dgs) = length (plan_from g j dgs).
Proof.
  revert g i j dgs. induction f as [|f IH]; intros [|g] i j [|d dgs] Hf Hg; cbn in Hf, Hg;
    try done || lia.
  cbn [plan_from length]. f_equal.
  destruct (first_run_longest (d :: dgs)) as [H1 _]; [done|].
  apply IH; rewrite length_drop; cbn [length]; lia.
Qed.

Lemma needed_step dgs : dgs ≠ [] → needed dgs = S (needed (drop (first_run dgs) dgs)).
Proof.
  intros Hne. unfold needed, plan_gso_runs. destruct dgs as [|d dgs]; [done|].
  cbn [length plan_from]. f_equal. destruct (first_run_longest (d :: dgs)) as [H1 _]; [done|].
  apply plan_from_length; [rewrite length_drop; cbn [length]; lia|done].
Qed.

(** A suffix needs no more runs. *)
Lemma needed_drop k dgs : (needed (drop k dgs) ≤ needed dgs)%nat.
Proof.
  revert k. induction dgs as [dgs IH] using (induction_ltof1 _ length); intros k. unfold ltof in IH.
  destruct dgs as [|d t]; [by rewrite drop_nil|]. destruct k as [|k]; [done|]. cbn [skipn].
  transitivity (needed t); [apply IH; cbn; lia|].
  destruct (decide (t = [])) as [->|Ht]; [cbn; lia|].
  rewrite (needed_step (d :: t)) by done.
  destruct (first_run_longest (d :: t)) as (Hn & Hv & _); [done|].
  destruct (first_run_longest t Ht) as (Hn' & Hv' & Hmax).
  destruct (first_run (d :: t)) as [|n]; [lia|]. cbn [skipn firstn length] in *.
  destruct n as [|n]; [rewrite drop_0; lia|].
  assert (valid_run (take (S n) t)) as Hs.
  { destruct t as [|e t]; [done|]. cbn [firstn] in *. by apply valid_run_tail in Hv. }
  apply Hmax in Hs; [|lia]. rewrite (needed_step t Ht).
  replace (first_run t) with (S n + (first_run t - S n))%nat by lia.
  rewrite <- drop_drop. apply le_n_S, IH. rewrite length_drop. cbn [length]. lia.
Qed.

Lemma plan_from_covers dgs f i :
  (length (drop i dgs) ≤ f)%nat →
  concat (run_of dgs <$> plan_from f i (drop i dgs)) = drop i dgs ∧
  Forall (λ r, valid_run (run_of dgs r) ∧ (run_start r < length dgs)%nat ∧
               length (run_of dgs r) = run_len r) (plan_from f i (drop i dgs)).
Proof.
  revert i. induction f as [|f IH]; intros i Hf; [by destruct (drop i dgs); [|cbn in Hf; lia]|].
  destruct (decide (drop i dgs = [])) as [E|Hne]; [by rewrite E|].
  destruct (first_run_longest _ Hne) as (Hn & Hv & _).
  assert (plan_from (S f) i (drop i dgs) = mkRun i (first_run (drop i dgs)) ::
            plan_from f (i + first_run (drop i dgs)) (drop (first_run (drop i dgs)) (drop i dgs)))
    as -> by (by destruct (drop i dgs)).
  set (n := first_run _) in *. rewrite drop_drop.
  rewrite length_drop in *. destruct (IH (i + n)%nat) as [IH1 IH2]; [rewrite length_drop; lia|].
  split.
  - cbn [fmap list_fmap concat]. rewrite IH1. unfold run_of. cbn [run_len run_start].
    by rewrite <- drop_drop, take_drop.
  - constructor; [|done]. unfold run_of. cbn [run_len run_start]. split; [done|].
    rewrite length_take, length_drop. lia.
Qed.

(** C30. The plan is optimal: its runs are the datagrams in order, none left out,
    each run one message the kernel takes (at most 64 segments and 65000 bytes,
    all of the first one's size but for a shorter last one), and no division of
    the datagrams into such runs has fewer. *)
Theorem gso_plan_optimal dgs :
  concat (run_of dgs <$> plan_gso_runs dgs) = dgs ∧
  Forall (λ r, valid_run (run_of dgs r)) (plan_gso_runs dgs) ∧
  ∀ ps, concat ps = dgs → Forall valid_run ps → (length (plan_gso_runs dgs) ≤ length ps)%nat.
Proof.
  destruct (plan_from_covers dgs (length dgs) 0) as [H1 H2]; [done|]. rewrite drop_0 in *.
  split; [done|]. split; [by eapply Forall_impl; [exact H2|]; intros r (? & _)|].
  intros ps <- Hps. clear H1 H2. fold (needed (concat ps)).
  induction Hps as [|p ps Hp Hps IH]; [done|]. cbn [concat length].
  destruct p as [|d p]; [done|]. set (l := (d :: p) ++ concat ps).
  rewrite needed_step by done. apply le_n_S.
  destruct (first_run_longest l) as (_ & _ & Hmax); [done|].
  assert (length (d :: p) ≤ first_run l)%nat as Hle.
  { apply Hmax; [unfold l; rewrite length_app; cbn [length]; lia|].
    unfold l. by rewrite take_app_length. }
  replace (first_run l) with (length (d :: p) + (first_run l - length (d :: p)))%nat by lia.
  rewrite <- drop_drop. unfold l at 2. rewrite drop_app_length. etransitivity; [apply needed_drop|done].
Qed.

(** ** What leaves is what is reported as sent *)

(** The datagrams with a positive outcome. *)
Definition reported (dgs : list (list Z)) (out : list (IoError + unit)) : list (list Z) :=
  omap (λ do : list Z * (IoError + unit), match do.2 with inr _ => Some do.1 | inl _ => None end)
    (zip dgs out).

Lemma reported_app dgs dgs' out out' :
  length dgs = length out → reported (dgs ++ dgs') (out ++ out') = reported dgs out ++ reported dgs' out'.
Proof. intros. unfold reported. by rewrite zip_with_app, omap_app by done. Qed.

Lemma reported_ok dgs : reported dgs (replicate (length dgs) (inr tt)) = dgs.
Proof. induction dgs as [|d dgs IH]; cbn; [done|]. f_equal. exact IH. Qed.

(** One outcome per datagram, and the wire got those reported as sent. *)
Definition accounted (dgs : list (list Z)) (s : Socket)
    (r : Socket * list (IoError + unit) * SendmmsgStats) : Prop :=
  let '(s', out, _) := r in
  length out = length dgs ∧ wire s' = wire s ++ reported dgs out.

Section sending.
Context `{K : Kernel}.
Context (laws : kernel_laws).

Lemma sys_sendmmsg_cases msgs s :
  msgs ≠ [] →
  let '(s', r) := sys_sendmmsg msgs s in
  match r with
  | inl _ => wire s' = wire s
  | inr k => (1 ≤ k ≤ length msgs)%nat ∧ wire s' = wire s ++ (take k msgs ≫= leaves)
  end.
Proof.
  intros Hne. unfold sys_sendmmsg. pose proof (accepts_prefix laws (made s) msgs) as Hp.
  destruct (k_sendmmsg (made s) msgs) as [rc e]. cbn [fst] in Hp. unfold len in Hp.
  destruct (Z.ltb_spec rc 0); [cbn [wire]; rewrite Z2Nat.nonpos by lia; apply app_nil_r|].
  destruct (Z.eqb_spec rc 0); [subst; apply app_nil_r|]. split; [lia|done].
Qed.

(** One round: [k] datagrams left, or the first one failed. *)
Lemma accounted_sent k dgs s s' r st :
  (k ≤ length dgs)%nat → wire s' = wire s ++ take k dgs →
  accounted (drop k dgs) s' r →
  accounted dgs s (let '(s2, out, st') := r in (s2, replicate k (inr tt) ++ out, st st')).
Proof.
  destruct r as [[s2 out] st2]. intros Hk Hw [H1 H2]. rewrite length_drop in H1. split.
  - rewrite length_app, length_replicate. lia.
  - rewrite H2, Hw, <- app_assoc. f_equal.
    transitivity (reported (take k dgs ++ drop k dgs) (replicate k (inr tt) ++ out));
      [|by rewrite take_drop].
    rewrite reported_app by (rewrite length_take, length_replicate; lia). f_equal.
    assert (length (take k dgs) = k) as Hl by (rewrite length_take; lia).
    pose proof (reported_ok (take k dgs)) as Hr. by rewrite Hl in Hr.
Qed.

Lemma accounted_failed d dgs e s s' r st :
  wire s' = wire s → accounted dgs s' r →
  accounted (d :: dgs) s (let '(s2, out, st') := r in (s2, inl e :: out, st st')).
Proof.
  destruct r as [[s2 out] st2]. intros Hw [H1 H2]. split; [cbn; lia|]. rewrite H2, Hw. done.
Qed.

Lemma sendmmsg_from_accounted f dgs st s :
  (length dgs ≤ f)%nat → accounted dgs s (sendmmsg_from f dgs st s).
Proof.
  revert dgs st s. induction f as [|f IH]; intros [|d dgs] st s Hf; cbn [length] in Hf;
    try (lia || (split; [done|]; cbn; by rewrite app_nil_r)).
  cbn [sendmmsg_from]. set (l := d :: dgs) in *. unfold raw_sendmmsg.
  set (n := Nat.min (length l) SENDMMSG_MAX). assert (1 ≤ n ≤ length l)%nat as Hn
    by (unfold n, l, SENDMMSG_MAX; cbn [length]; lia).
  pose proof (sys_sendmmsg_cases ((λ d, mkMsg d None) <$> take n l) s) as H.
  destruct (sys_sendmmsg _ s) as [s1 [e|k]].
  - apply (accounted_failed d dgs e s s1 _ id); [apply H; destruct n; [lia|done]|].
    unfold l. cbn [skipn]. rewrite drop_0. apply IH. lia.
  - rewrite length_fmap, length_take in H. destruct H as [Hk Hw]; [destruct n; [lia|done]|].
    apply (accounted_sent k l s s1 _ id); [lia| |apply IH; rewrite length_drop; unfold l; cbn; lia].
    rewrite Hw, <- fmap_take, take_take, Nat.min_l by lia. f_equal.
    clear. induction (take k l) as [|x t IH]; cbn; [done|]. by f_equal.
Qed.

(** The kernel cuts a run back into its datagrams. *)
Lemma gso_msg_leaves dgs r :
  valid_run (run_of dgs r) → length (run_of dgs r) = run_len r → leaves (gso_msg dgs r) = run_of dgs r.
Proof.
  unfold leaves, gso_msg. cbn [segment payload]. intros Hv Hl.
  assert (head (run_of dgs r) = if bool_decide (run_len r = 0%nat) then None else dgs !! run_start r)
    as Hh.
  { unfold run_of. rewrite head_lookup. case_bool_decide as Hz; [by rewrite Hz|].
    rewrite lookup_take_lt by lia. by rewrite lookup_drop, Nat.add_0_r. }
  destruct (run_of dgs r) as [|d rest] eqn:E; [done|]. cbn [length] in Hl.
  rewrite bool_decide_false in Hh by lia. cbn [head] in Hh. rewrite <- Hh. change (default [] (Some d)) with d.
  destruct rest as [|e rest]; cbn [length] in Hl.
  { rewrite bool_decide_false by lia. cbn. by rewrite app_nil_r. }
  rewrite bool_decide_true by lia. destruct Hv as (Hd & _ & _ & Hs).
  rewrite wrap_small by (unfold fits; change (2 ^ 16) with 65536; lia). apply (segments_cut laws); [lia|]. by split.
Qed.

Lemma run_lens dgs runs :
  Forall (λ r, length (run_of dgs r) = run_len r) runs →
  length (concat (run_of dgs <$> runs)) = sum_list_with run_len runs.
Proof. induction 1 as [|r rs Hr _ IH]; cbn; [done|]. rewrite length_app. lia. Qed.

Lemma concat_prefix {A} k (ls : list (list A)) :
  concat (take k ls) = take (length (concat (take k ls))) (concat ls).
Proof. rewrite <- (take_drop k ls) at 3. by rewrite concat_app, take_app_length. Qed.

Lemma runs_at_least dgs runs :
  Forall (λ r, valid_run (run_of dgs r)) runs →
  (length runs ≤ length (concat (run_of dgs <$> runs)))%nat.
Proof.
  induction 1 as [|r rs Hr _ IH]; cbn; [done|]. rewrite length_app.
  destruct (run_of dgs r); [done|cbn; lia].
Qed.

(** The first [k] runs of a plan are a prefix of the datagrams. *)
Lemma plan_prefix dgs k :
  let runs := take k (plan_gso_runs dgs) in
  (runs ≫= leaves ∘ gso_msg dgs) = take (sum_list_with run_len runs) dgs ∧
  (sum_list_with run_len runs ≤ length dgs)%nat.
Proof.
  intros runs. destruct (plan_from_covers dgs (length dgs) 0) as [H1 H2]; [done|].
  rewrite drop_0 in H1, H2. fold (plan_gso_runs dgs) in H1, H2.
  assert (Forall (λ r, valid_run (run_of dgs r) ∧ (run_start r < length dgs)%nat ∧
               length (run_of dgs r) = run_len r) runs) as H3 by by apply Forall_take.
  assert (concat (run_of dgs <$> runs) = take (sum_list_with run_len runs) dgs) as H4.
  { rewrite <- run_lens with (dgs := dgs) by (eapply Forall_impl; [exact H3|]; naive_solver).
    unfold runs. rewrite fmap_take. rewrite <- H1 at 5. apply concat_prefix. }
  split.
  - rewrite <- H4. clear H1 H2 H4. induction H3 as [|r rs (Hv & _ & Hl) _ IH]; [done|].
    cbn. rewrite <- IH. unfold compose. by rewrite gso_msg_leaves.
  - rewrite <- run_lens with (dgs := dgs) by (eapply Forall_impl; [exact H3|]; naive_solver).
    rewrite H4, length_take. lia.
Qed.

Lemma bind_fmap {A B C} (f : A → B) (g : B → list C) (l : list A) :
  ((f <$> l) ≫= g) = (l ≫= g ∘ f).
Proof. induction l as [|x l IH]; cbn; [done|]. by rewrite <- IH. Qed.

Lemma sendmmsg_gso_accounted f dgs st s :
  (length dgs ≤ f)%nat → accounted dgs s (sendmmsg_gso_from f dgs st s).
Proof.
  revert dgs st s. induction f as [|f IH]; intros dgs st s Hf;
    (destruct (decide (dgs = [])) as [->|Hne];
     [split; [done|]; cbn; by rewrite app_nil_r|]); [by destruct dgs; [|cbn in Hf; lia]|].
  destruct dgs as [|d dgs]; [done|]. cbn [sendmmsg_gso_from]. set (l := d :: dgs) in *.
  set (window := take SENDMMSG_MAX l). set (runs := plan_gso_runs window).
  assert (window ≠ []) as Hwin by done.
  assert (needed window ≠ 0%nat) as Hruns by (rewrite needed_step; done).
  assert (length runs ≤ SENDMMSG_MAX)%nat as Hfew.
  { destruct (gso_plan_optimal window) as (H1 & H2 & _). etransitivity; [by eapply runs_at_least|].
    fold runs in H1. rewrite H1. unfold window. rewrite length_take. lia. }
  unfold raw_sendmmsg_gso. rewrite Nat.min_l, firstn_all by done.
  pose proof (sys_sendmmsg_cases (gso_msg window <$> runs) s) as H.
  destruct (sys_sendmmsg _ s) as [s1 [e|k]].
  - assert (wire s1 = wire s) as Hw by (apply H; unfold needed in Hruns; fold runs in Hruns; by destruct runs).
    case_bool_decide.
    + pose proof (sendmmsg_from_accounted (length l) l SendmmsgStats_default s1 ltac:(done)) as Ha.
      unfold sendmmsg_all. destruct (sendmmsg_from _ _ _ s1) as [[s2 rest] st2].
      destruct Ha as [Ha1 Ha2]. split; [done|]. by rewrite Ha2, Hw.
    + unfold l. cbn [skipn]. rewrite drop_0.
      apply (accounted_failed d dgs e s s1 _ id); [done|]. apply IH. cbn in Hf. lia.
  - destruct H as [Hk Hw]; [unfold needed in Hruns; fold runs in Hruns; by destruct runs|].
    rewrite length_fmap in Hk. rewrite <- fmap_take, bind_fmap in Hw.
    destruct (plan_prefix window k) as [Hp1 Hp2]. fold runs in Hp1, Hp2. rewrite Hp1 in Hw.
    set (sent := sum_list_with run_len (take k runs)) in *.
    assert (1 ≤ sent ≤ length l)%nat as Hsent.
    { split; [|etransitivity; [exact Hp2|]; unfold window; rewrite length_take; lia].
      destruct (gso_plan_optimal window) as (_ & H2 & _).
      destruct (plan_from_covers window (length window) 0) as [_ H3]; [done|]. rewrite drop_0 in H3.
      fold (plan_gso_runs window) in H3. fold runs in H2, H3. unfold sent.
      destruct H3 as [|r rs (Hv & _ & Hl) _]; [cbn in Hk; lia|]. destruct k; [lia|]. cbn.
      destruct (run_of window r); [done|]. cbn in Hl. lia. }
    apply (accounted_sent sent l s s1 _ id); [lia| |apply IH; rewrite length_drop; lia].
    rewrite Hw. f_equal. unfold window. rewrite take_take. f_equal.
    unfold window in Hp2. rewrite length_take in Hp2. lia.
Qed.

(** Whatever the kernel accepts of a batch, each datagram gets one outcome,
    and the datagrams that left the socket are, in order and byte for byte, those
    reported as sent: with or without segmentation, nothing is lost, repeated,
    reordered or cut. *)
Theorem batch_accounted (gso : bool) dgs s :
  accounted dgs s (if gso then sendmmsg_gso_all dgs s else sendmmsg_all dgs s).
Proof. destruct gso; [by apply sendmmsg_gso_accounted|by apply sendmmsg_from_accounted]. Qed.

End sending.

(** ** A kernel that satisfies the laws *)

Module sample.

Fixpoint chop (fuel size : nat) (p : list Z) : list (list Z) :=
  match fuel, p with
  | S fuel, _ :: _ => take size p :: chop fuel size (drop size p)
  | _, _ => []
  end.

Lemma chop_segments fuel size ds :
  (0 < size)%nat → segments_of (Z.of_nat size) ds → (length (concat ds) ≤ fuel)%nat →
  chop fuel size (concat ds) = ds.
Proof.
  intros Hs. revert ds. induction fuel as [|fuel IH]; intros ds Hd Hf.
  - destruct ds as [|d ds]; [done|]. apply segments_cons in Hd. unfold len in Hd.
    cbn in Hf. rewrite length_app in Hf. lia.
  - destruct ds as [|d ds]; [done|]. cbn [concat].
    assert (d ++ concat ds ≠ []) as Hne.
    { apply segments_cons in Hd. unfold len in Hd. destruct d; [cbn in Hd; lia|done]. }
    assert (chop (S fuel) size (d ++ concat ds) =
            take size (d ++ concat ds) :: chop fuel size (drop size (d ++ concat ds))) as ->
      by (by destruct (d ++ concat ds)).
    cbn [concat] in Hf. rewrite length_app in Hf.
    apply segments_cons in Hd as [[-> Hd]|(Hne' & Hd & Hds)]; unfold len in Hd.
    + cbn [concat] in *. rewrite app_nil_r, take_ge, drop_ge by lia. by destruct fuel.
    + rewrite take_app_length', drop_app_length' by lia. f_equal. apply IH; [done|lia].
Qed.

(** Three messages a call; the second call of the socket fails. *)
#[export] Instance kernel : Kernel := {|
  k_sendmmsg n msgs := if bool_decide (n = 1%nat) then (-1, mkIo (Some 105) "no buffer space")
                       else (Z.min 3 (len msgs), mkIo None "");
  k_segment size p := chop (length p) (Z.to_nat size) p |}.

Lemma sample_laws : kernel_laws.
Proof.
  split; cbn.
  - intros n msgs. unfold len. case_bool_decide; cbn; lia.
  - intros size ds Hs Hd. apply chop_segments; [lia|by rewrite Z2Nat.id by lia|done].
Qed.

Definition dgs : list (list Z) := [[1; 1]; [2; 2]; [3]; [4; 4]; [5; 5]].

Lemma batch_accounted_witness :
  accounted dgs (mkSocket 0 []) (sendmmsg_gso_all dgs (mkSocket 0 [])) ∧
  wire (sendmmsg_gso_all dgs (mkSocket 0 [])).1.1 = dgs ∧
  accounted dgs (mkSocket 1 []) (sendmmsg_all dgs (mkSocket 1 [])) ∧
  wire (sendmmsg_all dgs (mkSocket 1 [])).1.1 = [[2; 2]; [3]; [4; 4]; [5; 5]].
Proof.
  split; [exact (batch_accounted sample_laws true dgs _)|]. split; [vm_compute; reflexivity|].
  split; [exact (batch_accounted sample_laws false dgs _)|vm_compute; reflexivity].
Defined.

(** Two runs: the equal ones with their short tail, and the rest. *)
Example plan_of_dgs : plan_gso_runs dgs = [mkRun 0 3; mkRun 3 2].
Proof. reflexivity. Qed.

End sample.
