(* ===== verification/LinkIo.v ===== *)
(** * A link's sending and receiving ([link.rs])

    [LinkHandle]: frames go through the link's [WgTunnel] to its socket and
    back, one at a time or in batches. What the sockets answer comes from the
    class [Kernel], [k_send_to] and the arrivals given to a receive. *)

From S2P Require Import Prelude Bytes Protocol Configuration Wireguard Gso.

(** ** Addresses *)

Inductive IpAddr := V4 (a : Z) | V6 (a : Z).
Global Instance IpAddr_eq_dec : EqDecision IpAddr.
Proof. solve_decision. Defined.

Record SocketAddr := mkAddr { ip : IpAddr; port : Z }.
Global Instance SocketAddr_eq_dec : EqDecision SocketAddr.
Proof. solve_decision. Defined.

Definition ip_is_ipv6 (i : IpAddr) : bool := match i with V6 _ => true | V4 _ => false end.
Definition is_ipv6 (a : SocketAddr) : bool := ip_is_ipv6 (ip a).

(** [is_interface_gone_error]: [ENODEV] or [ENXIO]. *)
Definition ENODEV : Z := 19.
Definition ENXIO : Z := 6.
Definition ENOSYS : Z := 38.
Definition is_interface_gone_error (e : IoError) : bool :=
  bool_decide (raw_os_error e = Some ENODEV) || bool_decide (raw_os_error e = Some ENXIO).

(** ** Sockets *)

(** The answer to the [n]th [send_to]. *)
Class Udp := { k_send_to : nat → SocketAddr → list Z → option IoError }.

(** Calls made on the link's socket, and the datagrams that left it. *)
Record Net := mkNet { net_calls : nat; net_out : list (SocketAddr * list Z) }.

Section io.
Context `{BT : Boringtun} `{K : Kernel} `{U : Udp}.

Definition send_to (d : list Z) (to : SocketAddr) (net : Net) : Net * option IoError :=
  let r := k_send_to (net_calls net) to d in
  (mkNet (S (net_calls net))
     (match r with None => net_out net ++ [(to, d)] | Some _ => net_out net end), r).

(** A [LinkHandle]: the link's name, its peer's address, and its tunnel. *)
Record LinkHandle := mkHandle { h_name : string; h_remote : option SocketAddr }.

Definition no_remote (h : LinkHandle) : MlvpnError :=
  Protocol ("wg_send: link '" +:+ h_name h +:+ "' has no remote address to send to yet").

Definition wg_send_parts (now : Z) (parts : list (list Z)) (h : LinkHandle) (w : WgTunnel)
    (net : Net) : WgTunnel * Net * outcome bool :=
  match h_remote h with
  | None => (w, net, Err (no_remote h))
  | Some remote =>
      let '(w, r) := encapsulate_parts now parts w in
      match r with
      | Ok (d, carries) =>
          let '(net, e) := send_to d remote net in
          (w, net, match e with None => Ok carries | Some e => Err (Io e) end)
      | Err e => (w, net, Err e)
      | Panic => (w, net, Panic)
      end
  end.

Definition wg_send (now : Z) (frame : list Z) (h : LinkHandle) (w : WgTunnel) (net : Net)
    : WgTunnel * Net * outcome bool := wg_send_parts now [frame] h w net.

Definition wg_tick (now : Z) (h : LinkHandle) (w : WgTunnel) (net : Net)
    : WgTunnel * Net * outcome unit :=
  let '(w, bytes) := tick now w in
  match bytes, h_remote h with
  | Some bytes, Some remote =>
      let '(net, e) := send_to bytes remote net in
      (w, net, match e with None => Ok tt | Some e => Err (Io e) end)
  | _, _ => (w, net, Ok tt)
  end.

(** ** Batches out *)

Record TxBatchScratch := mkScratch {
  results : list (outcome bool); datagrams : list (list Z); slot : list nat }.
Definition TxBatchScratch_default : TxBatchScratch := mkScratch [] [] [].

(** The loop over the frames, from frame [i] on: [used] buffers of [bufs] hold
    this batch's datagrams, a failed frame's buffer is used again. *)
Fixpoint encapsulate_all (now : Z) (i used : nat) (frames : list (list (list Z)))
    (bufs : list (list Z)) (w : WgTunnel)
    : WgTunnel * list (list Z) * nat * list (outcome bool) * list nat :=
  match frames with
  | [] => (w, bufs, used, [], [])
  | parts :: frames =>
      let bufs := if bool_decide (used = length bufs) then bufs ++ [[]] else bufs in
      let '(w, out, r) :=
        encapsulate_parts_into now parts (default [] (bufs !! used)) w in
      let bufs := <[used := out]> bufs in
      match r with
      | Ok carries =>
          let '(w, bufs, used, res, slots) :=
            encapsulate_all now (S i) (S used) frames bufs w in
          (w, bufs, used, Ok carries :: res, i :: slots)
      | _ =>
          let '(w, bufs, used, res, slots) := encapsulate_all now (S i) used frames bufs w in
          (w, bufs, used, r :: res, slots)
      end
  end.

(** [results[slot[k]] = Err(..)] for every datagram that failed. *)
Fixpoint mark_failed (slots : list nat) (outcomes : list (IoError + unit))
    (res : list (outcome bool)) : list (outcome bool) :=
  match slots, outcomes with
  | i :: slots, o :: outcomes =>
      mark_failed slots outcomes
        (match o with inl e => <[i := Err (Io e)]> res | inr _ => res end)
  | _, _ => res
  end.

Definition wg_send_batch (now : Z) (frames : list (list (list Z))) (gso : bool)
    (h : LinkHandle) (sc : TxBatchScratch) (w : WgTunnel) (net : Net)
    : WgTunnel * Net * TxBatchScratch * SendmmsgStats :=
  match h_remote h with
  | None =>
      (w, net, mkScratch (replicate (length frames) (Err (no_remote h))) (datagrams sc) [],
       SendmmsgStats_default)
  | Some remote =>
      let '(w, bufs, used, res, slots) := encapsulate_all now 0 0 frames (datagrams sc) w in
      let s := mkSocket (net_calls net) [] in
      let '(s, outcomes, stats) :=
        if gso then sendmmsg_gso_all (take used bufs) s else sendmmsg_all (take used bufs) s in
      (w, mkNet (made s) (net_out net ++ (pair remote <$> wire s)),
       mkScratch (mark_failed slots outcomes res) bufs slots, stats)
  end.

(** ** Batches in *)

Definition RECV_BATCH_MAX : nat := 32.

(** [RxBatch]: the frame buffers, the events of the last call, and whether
    [recvmmsg] is still used. *)
Record RxBatch := mkRx {
  rx_frames : list (list Z);
  rx_events : list (MlvpnError + nat * SocketAddr);
  mmsg : bool }.
Definition RxBatch_default : RxBatch := mkRx (replicate RECV_BATCH_MAX []) [] true.

(** What a datagram's outcome becomes. *)
Definition take_event (i : nat) (from : SocketAddr) (kind : outcome DecapsulateKind)
    (net : Net) : Net * list (MlvpnError + nat * SocketAddr) :=
  match kind with
  | Ok KFrame => (net, [inr (i, from)])
  | Ok (KSendReply reply) =>
      let '(net, e) := send_to reply from net in
      (net, match e with Some e => [inl (Io e)] | None => [] end)
  | Ok KConsumed => (net, [])
  | Err e => (net, [inl e])
  | Panic => (net, [])
  end.

Fixpoint take_events (i : nat) (addrs : list (option SocketAddr))
    (kinds : list (outcome DecapsulateKind)) (net : Net)
    : Net * list (MlvpnError + nat * SocketAddr) :=
  match addrs, kinds with
  | addr :: addrs, kind :: kinds =>
      let '(net, ev) := match addr with
                        | Some from => take_event i from kind net
                        | None => (net, [])
                        end in
      let '(net, evs) := take_events (S i) addrs kinds net in
      (net, ev ++ evs)
  | _, _ => (net, [])
  end.

(** One round on the datagrams a receive call returned, with their sources. *)
Definition recv_round (now : Z) (arrived : list (list Z * option SocketAddr)) (b : RxBatch)
    (w : WgTunnel) (net : Net) : WgTunnel * Net * RxBatch :=
  let '(w, frames, kinds) := decapsulate_batch now (fst <$> arrived) (rx_frames b) w in
  let '(net, evs) := take_events 0 (snd <$> arrived) kinds net in
  (w, net, mkRx frames evs (mmsg b)).

(** What the socket answers to one turn of the loop: datagrams, an error, or
    the socket was replaced meanwhile. *)
Inductive recv_answer :=
  | Arrived (ds : list (list Z * option SocketAddr))
  | RecvFailed (e : IoError)
  | Swapped.

(** [wg_recv_batch] on the answers to come; [None] when it is still waiting. *)
Fixpoint wg_recv_loop (now : Z) (answers : list recv_answer) (b : RxBatch) (w : WgTunnel)
    (net : Net) : WgTunnel * Net * RxBatch * option (outcome unit) :=
  match answers with
  | [] => (w, net, b, None)
  | Swapped :: answers => wg_recv_loop now answers b w net
  | RecvFailed e :: answers =>
      if mmsg b && bool_decide (raw_os_error e = Some ENOSYS)
      then wg_recv_loop now answers (mkRx (rx_frames b) (rx_events b) false) w net
      else (w, net, b, Some (Err (Io e)))
  | Arrived ds :: answers =>
      let '(w, net, b) := recv_round now ds b w net in
      match rx_events b with
      | [] => wg_recv_loop now answers b w net
      | _ => (w, net, b, Some (Ok tt))
      end
  end.

Definition wg_recv_batch (now : Z) (answers : list recv_answer) (b : RxBatch) (w : WgTunnel)
    (net : Net) : WgTunnel * Net * RxBatch * option (outcome unit) :=
  wg_recv_loop now answers (mkRx (rx_frames b) [] (mmsg b)) w net.

(** [wg_recv_into]: one datagram a turn. *)
Fixpoint wg_recv_into (now : Z) (answers : list (IoError + list Z * SocketAddr)) (frame : list Z)
    (w : WgTunnel) (net : Net) : WgTunnel * Net * list Z * option (outcome SocketAddr) :=
  match answers with
  | [] => (w, net, frame, None)
  | inl e :: _ => (w, net, frame, Some (Err (Io e)))
  | inr (d, from) :: answers =>
      let '(w, frame, r) := decapsulate_into now d frame w in
      match r with
      | Ok KFrame => (w, net, frame, Some (Ok from))
      | Ok (KSendReply reply) =>
          let '(net, e) := send_to reply from net in
          match e with
          | None => wg_recv_into now answers frame w net
          | Some e => (w, net, frame, Some (Err (Io e)))
          end
      | Ok KConsumed => wg_recv_into now answers frame w net
      | Err e => (w, net, frame, Some (Err e))
      | Panic => (w, net, frame, Some Panic)
      end
  end.

End io.

(** ** A batch is the frames one by one *)

(** What the per-packet path would have made of the frames. *)
Fixpoint enc_trace `{Boringtun} (now : Z) (frames : list (list (list Z))) (w : WgTunnel)
    : WgTunnel * list (outcome (list Z * bool)) :=
  match frames with
  | [] => (w, [])
  | parts :: frames =>
      let '(w, r) := encapsulate_parts now parts w in
      let '(w, tr) := enc_trace now frames w in (w, r :: tr)
  end.

(** The datagrams made, and the outcome of each frame once the socket answered. *)
Definition sent_of (tr : list (outcome (list Z * bool))) : list (list Z) :=
  omap (λ r, match r with Ok (d, _) => Some d | _ => None end) tr.

Definition outcome_map {A B} (f : A → B) (o : outcome A) : outcome B :=
  match o with Ok a => Ok (f a) | Err e => Err e | Panic => Panic end.

Fixpoint merge (tr : list (outcome (list Z * bool))) (outs : list (IoError + unit))
    : list (outcome bool) :=
  match tr with
  | [] => []
  | Ok (_, c) :: tr =>
      match outs with
      | inl e :: outs => Err (Io e) :: merge tr outs
      | _ :: outs => Ok c :: merge tr outs
      | [] => Ok c :: merge tr []
      end
  | r :: tr => outcome_map snd r :: merge tr outs
  end.

Section batches.
Context `{BT : Boringtun}.

Lemma encapsulate_out now parts out w :
  let '(w1, out1, r) := encapsulate_parts_into now parts out w in
  encapsulate_parts now parts w = (w1, outcome_map (pair out1) r).
Proof.
  unfold encapsulate_parts, encapsulate_parts_into.
  destruct (write_fake_ipv4_header _) as [hdr|e|]; [|done..]. cbv zeta.
  case_bool_decide; [done|]. destruct (Tunn_encapsulate _ _ _ _) as [t [|e|d|d|d]]; try done.
Qed.

(** Takes the results before frame [i + 1] to be those before [i] and [x]. *)
Ltac push_result H pre x outs :=
  specialize (H (pre ++ [x]) outs); rewrite <- !app_assoc in H; cbn in H;
  rewrite length_app in H; cbn in H; specialize (H ltac:(lia)); cbn.

Lemma encapsulate_all_trace now i used frames bufs w w' tr :
  (used ≤ length bufs)%nat → enc_trace now frames w = (w', tr) →
  ∃ bufs' used' slots,
    encapsulate_all now i used frames bufs w = (w', bufs', used', outcome_map snd <$> tr, slots) ∧
    take used' bufs' = take used bufs ++ sent_of tr ∧ (used' ≤ length bufs')%nat ∧
    ∀ pre outs, length pre = i →
      mark_failed slots outs (pre ++ (outcome_map snd <$> tr)) = pre ++ merge tr outs.
Proof.
  revert i used bufs w tr. induction frames as [|parts frames IH]; intros i used bufs w tr Hu; cbn.
  { intros [= <- <-]. exists bufs, used, []. cbn. split_and!; [done|by rewrite app_nil_r|done|].
    by intros pre []. }
  set (bufs1 := if bool_decide (used = length bufs) then bufs ++ [[]] else bufs).
  assert (used < length bufs1)%nat as Hu1
    by (unfold bufs1; case_bool_decide; rewrite ?length_app; cbn; lia).
  assert (take used bufs1 = take used bufs) as Ht.
  { unfold bufs1. case_bool_decide; [|done]. by rewrite take_app_le by lia. }
  pose proof (encapsulate_out now parts (default [] (bufs1 !! used)) w) as He.
  destruct (encapsulate_parts_into now parts (default [] (bufs1 !! used)) w) as [[w1 out] r].
  rewrite He. destruct (enc_trace now frames w1) as [w2 tr1] eqn:Etr. intros [= <- <-].
  assert (length (<[used := out]> bufs1) = length bufs1) as Hl by apply length_insert.
  destruct r as [c|e|]; [|destruct (IH (S i) used (<[used:=out]> bufs1) w1 tr1)
    as (bufs' & used' & slots & E & H1 & H2 & H3); [lia|done|]..].
  - destruct (IH (S i) (S used) (<[used:=out]> bufs1) w1 tr1)
      as (bufs' & used' & slots & E & H1 & H2 & H3); [lia|done|].
    rewrite E. exists bufs', used', (i :: slots). cbn. split_and!; [done| |done|].
    + rewrite H1. rewrite (take_S_r _ _ out) by (apply list_lookup_insert_eq; lia).
      rewrite take_insert_ge by lia. by rewrite Ht, <- app_assoc.
    + intros pre [|[e|[]] outs] Hpre; cbn.
      * push_result H3 pre (@Ok bool c) (@nil (IoError + unit)). by destruct slots.
      * rewrite insert_app_r_alt, Hpre, Nat.sub_diag by lia.
        by push_result H3 pre (@Err bool (Io e)) outs.
      * by push_result H3 pre (@Ok bool c) outs.
  - rewrite E. exists bufs', used', slots. cbn. split_and!; [done| |done|].
    + by rewrite H1, take_insert_ge, Ht by lia.
    + intros pre outs Hpre. by push_result H3 pre (@Err bool e) outs.
  - rewrite E. exists bufs', used', slots. cbn. split_and!; [done| |done|].
    + by rewrite H1, take_insert_ge, Ht by lia.
    + intros pre outs Hpre. by push_result H3 pre (@Panic bool) outs.
Qed.

End batches.

(** ** What the peer gets *)

(** The frames the link reports as carried. *)
Definition carried (frames : list (list (list Z))) (res : list (outcome bool)) : list (list Z) :=
  omap (λ fr : list (list Z) * outcome bool,
          match fr.2 with Ok true => Some (concat fr.1) | _ => None end) (zip frames res).

(** The carried frames that left the socket, each with its datagram. *)
Fixpoint kept (frames : list (list (list Z))) (tr : list (outcome (list Z * bool)))
    (outs : list (IoError + unit)) : list (list Z * list Z) :=
  match frames, tr with
  | p :: frames, Ok (d, c) :: tr =>
      match c, outs with
      | true, inr _ :: outs => (d, concat p) :: kept frames tr outs
      | _, _ :: outs => kept frames tr outs
      | _, [] => []
      end
  | _ :: frames, _ :: tr => kept frames tr outs
  | _, _ => []
  end.

(** All the carried ones. *)
Definition made_data (frames : list (list (list Z))) (tr : list (outcome (list Z * bool)))
    : list (list Z * list Z) :=
  omap (λ fr : list (list Z) * outcome (list Z * bool),
          match fr.2 with Ok (d, true) => Some (d, concat fr.1) | _ => None end) (zip frames tr).

Lemma kept_sublist frames tr outs : sublist (kept frames tr outs) (made_data frames tr).
Proof.
  revert tr outs. induction frames as [|p frames IH]; intros [|[[d []]|e|] tr] outs;
    try (cbn; apply sublist_nil_l); cbn; try apply IH.
  - destruct outs as [|[e|[]] outs]; [apply sublist_nil_l|apply sublist_cons, IH|apply sublist_skip, IH].
  - destruct outs as [|o outs]; [apply sublist_nil_l|]. by destruct o; apply IH.
Qed.

Definition tagged (r : outcome (list Z * bool)) : Prop :=
  match r with Ok (d, c) => c = is_data d | Err _ => True | Panic => False end.

Lemma kept_datagrams frames tr outs :
  length tr = length frames → Forall tagged tr → length outs = length (sent_of tr) →
  fst <$> kept frames tr outs = filter (λ d, is_data d = true) (reported (sent_of tr) outs).
Proof.
  revert tr outs. induction frames as [|p frames IH]; intros [|r tr] outs Hl Ht Ho; try done.
  apply Forall_cons in Ht as [Hr Ht]. cbn in Hl. destruct r as [[d c]|e|];
    [|by change (sent_of (Err e :: tr)) with (sent_of tr); cbn [kept]; apply IH; [lia|..]|done].
  cbn in Hr. subst c. cbn in Ho. destruct outs as [|o outs]; [done|]. cbn in Ho.
  change (sent_of (Ok (d, is_data d) :: tr)) with (d :: sent_of tr).
  change (reported (d :: sent_of tr) (o :: outs)) with
    (reported ([d] ++ sent_of tr) ([o] ++ outs)). rewrite reported_app by done.
  rewrite filter_app, <- IH by (auto with lia). cbn [kept].
  destruct o as [e|[]]; [by destruct (is_data d)|]. unfold reported. cbn -[filter].
  rewrite filter_cons. destruct (is_data d) eqn:E; cbn; [by rewrite decide_True by done|done].
Qed.

Lemma kept_frames frames tr outs :
  length tr = length frames → length outs = length (sent_of tr) →
  snd <$> kept frames tr outs = carried frames (merge tr outs).
Proof.
  revert tr outs. induction frames as [|p frames IH]; intros [|r tr] outs Hl Ho; try done.
  cbn in Hl. destruct r as [[d c]|e|]; [|by cbn [kept]; rewrite IH by (done || lia)..].
  cbn in Ho. destruct outs as [|o outs]; [done|]. cbn in Ho.
  unfold carried in *. specialize (IH tr outs ltac:(lia) ltac:(by injection Ho)).
  destruct o as [e|[]], c; cbn; by rewrite ?IH.
Qed.

Lemma merge_length tr outs : length (merge tr outs) = length tr.
Proof.
  revert outs. induction tr as [|[[d c]|e|] tr IH]; intros outs; cbn; [done| |by rewrite IH..].
  destruct outs as [|[e|u] outs]; cbn; by rewrite IH.
Qed.

Section peer.
Context `{BT : Boringtun}.
Context (awaits : Tunn → list (list Z * list Z) → Tunn → Prop).
Context (laws : boringtun_laws awaits).

(** A data message on its way: what the receiver awaits, and the frame it is. *)
Definition in_transit (m : list Z * list Z) (df : list Z * list Z) : Prop :=
  m.1 = df.1 ∧ (length m.1 ≤ MAX_WG_PACKET)%nat ∧
  ∃ hdr, write_fake_ipv4_header (len df.2) = Ok hdr ∧ m.2 = hdr ++ df.2.

Lemma trace_awaits now frames w w' tr b l :
  awaits b l (tunn w) → enc_trace now frames w = (w', tr) →
  length tr = length frames ∧ Forall tagged tr ∧
  ∃ l', awaits b (l ++ l') (tunn w') ∧ Forall2 in_transit l' (made_data frames tr).
Proof.
  revert w tr l. induction frames as [|parts frames IH]; intros w tr l Haw; cbn.
  { intros [= <- <-]. split_and!; [done..|]. exists []. rewrite app_nil_r. by split; [|constructor]. }
  pose proof (encapsulate_out now parts [] w) as Eo.
  destruct (encapsulate_cases now parts [] w)
    as [(_ & m & Ec)|(hdr & t & r & n & Hhdr & Hn & Et & Hc)].
  - rewrite Ec in Eo. rewrite Eo. destruct (enc_trace now frames w) as [w2 tr1] eqn:E.
    intros [= <- <-]. destruct (IH w tr1 l Haw E) as (H1 & H2 & l' & H3 & H4).
    split_and!; [cbn; lia|by constructor|]. by exists l'.
  - destruct (encapsulate_parts_into now parts [] w) as [[w1 out] res]. rewrite Eo.
    destruct (enc_trace now frames w1) as [w2 tr1] eqn:E. intros [= <- <-].
    destruct Hc as (Ht1 & _ & Hc). subst t.
    assert ((∀ d, r ≠ WriteToNetwork d) → awaits b l (tunn w1)) as Hother.
    { intros Hr. eapply (sends_other _ laws); [done..|]. by intros d []%Hr. }
    destruct r as [|e|d|d|d].
    1,2,4,5: destruct Hc as (-> & [m ->] & _); destruct (IH w1 tr1 l (Hother ltac:(done)) E) as (H1 & H2 & l' & H3 & H4);
      split_and!; [cbn; lia|by constructor|by exists l'].
    destruct Hc as (-> & -> & _). destruct (is_data d) eqn:Ed; cbn [outcome_map].
    + pose proof (sends_data _ laws _ _ _ _ _ _ _ _ Haw Et Ed) as Haw1.
      destruct (IH w1 tr1 _ Haw1 E) as (H1 & H2 & l' & H3 & H4).
      split_and!; [cbn; lia|by constructor|]. exists ((d, hdr ++ concat parts) :: l').
      rewrite <- app_assoc in H3. split; [done|]. constructor; [|done].
      split_and!; [done| |by exists hdr]. cbn.
      pose proof (encapsulate_size _ laws _ _ _ _ _ _ Et). lia.
    + assert (awaits b l (tunn w1)) as Haw1.
      { eapply (sends_other _ laws); [done..|]. by intros ? [= <-]. }
      destruct (IH w1 tr1 l Haw1 E) as (H1 & H2 & l' & H3 & H4).
      split_and!; [cbn; lia|by constructor|by exists l'].
Qed.

(** The receiver gets any selection of the messages on their way, in order. *)
Lemma selection_arrives now l cs ks bufs a b :
  awaits (tunn b) l a → Forall2 in_transit l cs → sublist ks cs → (length ks ≤ length bufs)%nat →
  ∃ b', decapsulate_batch now (fst <$> ks) bufs b =
    (b', (snd <$> ks) ++ drop (length ks) bufs, replicate (length ks) (Ok KFrame)).
Proof.
  intros Haw Hl Hsub. revert l bufs b Haw Hl.
  induction Hsub as [|[d f] ks cs Hsub IH|c ks cs Hsub IH]; intros l bufs b Haw Hl Hb.
  - exists b. by destruct bufs.
  - apply Forall2_cons_inv_r in Hl as ([d' src] & l' & (Hd & Hs & hdr & Hh & Hsrc) & Hl & ->).
    cbn in Hd, Hsrc, Hh. subst d' src. destruct bufs as [|fo bufs]; [cbn in Hb; lia|].
    destruct (carried_arrives awaits laws now d hdr f fo l' a b Hh Hs Haw) as (b1 & E & Haw1 & _).
    destruct (IH l' bufs b1 Haw1 Hl) as [b' E']; [cbn in Hb; lia|].
    exists b'. cbn. by rewrite E, E'.
  - apply Forall2_cons_inv_r in Hl as ([d' src] & l' & _ & Hl & ->).
    apply (IH l'); [|done..]. by eapply (data_is_lost _ laws).
Qed.

Context `{K : Kernel} `{U : Udp}.
Context (klaws : kernel_laws).

Lemma take_frames i n from net :
  take_events i (replicate n (Some from)) (replicate n (Ok KFrame)) net =
  (net, (λ k, inr (i + k, from)%nat) <$> List.seq 0 n).
Proof.
  revert i. induction n as [|n IH]; intros i; cbn; [done|]. rewrite IH, Nat.add_0_r. f_equal. f_equal.
  rewrite <- fmap_S_seq, <- list_fmap_compose. apply list_fmap_ext. intros ? ? _. cbn.
  by rewrite Nat.add_succ_r.
Qed.

(** C14. From one end of a link to the other: whatever the kernel accepts of a
    batch, each frame gets one result, and the peer of the session that receives
    the data messages that left the socket is handed exactly the frames reported
    as carried, in order and byte for byte, and nothing else. *)
Theorem batch_reaches_peer now now' frames gso h remote sc w net w' net' sc' st b rx from net1 :
  awaits (tunn b) [] (tunn w) → h_remote h = Some remote →
  (length frames ≤ RECV_BATCH_MAX)%nat → length (rx_frames rx) = RECV_BATCH_MAX →
  wg_send_batch now frames gso h sc w net = (w', net', sc', st) →
  let ok := carried frames (results sc') in
  length (results sc') = length frames ∧
  ∃ sent, net_out net' = net_out net ++ (pair remote <$> sent) ∧
    let '(_, net2, rx') :=
      recv_round now' ((λ d, (d, Some from)) <$> filter (λ d, is_data d = true) sent) rx b net1 in
    net2 = net1 ∧ take (length ok) (rx_frames rx') = ok ∧
    rx_events rx' = (λ k, inr (k, from)) <$> List.seq 0 (length ok).
Proof.
  intros Haw Hrem Hlen Hrx. unfold wg_send_batch. rewrite Hrem.
  destruct (enc_trace now frames w) as [w1 tr] eqn:Etr.
  destruct (encapsulate_all_trace now 0 0 frames (datagrams sc) w w1 tr) as
    (bufs & used & slots & -> & Hd & Hu & Hm); [lia|done|].
  destruct (trace_awaits now frames w w1 tr _ _ Haw Etr) as (Hl & Htag & l & Haw1 & Hl2).
  rewrite Hd, take_0. cbn [app].
  pose proof (batch_accounted klaws gso (sent_of tr) (mkSocket (net_calls net) [])) as Ha.
  destruct (if gso then _ else _) as [[s outs] stats]. destruct Ha as [Ha1 Ha2].
  intros [= <- <- <- <-]. cbn [results net_out].
  specialize (Hm [] outs eq_refl). cbn [app] in Hm. rewrite Hm.
  rewrite merge_length, <- (kept_frames frames tr outs) by done. split; [done|].
  exists (wire s). split; [done|]. rewrite Ha2. cbn [wire app].
  rewrite <- (kept_datagrams frames) by done. set (ks := kept frames tr outs).
  assert (sublist ks (made_data frames tr)) as Hsub by apply kept_sublist.
  assert (length ks ≤ RECV_BATCH_MAX)%nat as Hks.
  { etransitivity; [by eapply sublist_length|]. etransitivity; [|exact Hlen].
    rewrite <- Hl. clear. unfold made_data. revert tr.
    induction frames as [|p frames IH]; intros [|r tr]; cbn; [lia..|].
    destruct r as [[d []]|e|]; cbn; specialize (IH tr); lia. }
  destruct (selection_arrives now' l _ ks (rx_frames rx) _ b Haw1 Hl2 Hsub) as [b' E]; [lia|].
  unfold recv_round.
  assert (∀ ds : list (list Z), fst <$> ((λ d, (d, Some from)) <$> ds) = ds ∧
            snd <$> ((λ d, (d, Some from)) <$> ds) = replicate (length ds) (Some from)) as Hsrc.
  { clear. intros ds. induction ds as [|d ds [IH1 IH2]]; [done|]. split; cbn; by f_equal. }
  destruct (Hsrc (fst <$> ks)) as [-> ->]. rewrite E, length_fmap.
  rewrite take_frames. cbn [rx_frames rx_events]. rewrite length_fmap.
  split_and!; [done|by rewrite take_app_length' by by rewrite length_fmap|done].
Qed.

End peer.

(** ** An example *)

Module example.
Import plain sample.

#[export] Instance udp : Udp := {| k_send_to _ _ _ := None |}.

Definition peer_addr : SocketAddr := mkAddr (V4 0x0a000001) 5000.
Definition handle : LinkHandle := mkHandle "wan0" (Some peer_addr).
Definition frames : list (list (list Z)) := [[[1; 2]; [3]]; [[4]; []]; [[5; 6]; [7; 8]]].

(** The second call of the socket fails: its first datagram is lost. *)
Lemma batch_reaches_peer_witness :
  let r := wg_send_batch 7 frames false handle TxBatchScratch_default (fresh true) (mkNet 1 []) in
  carried frames (results r.1.2) = [[4]; [5; 6; 7; 8]] ∧
  ∃ sent, net_out r.1.1.2 = [] ++ (pair peer_addr <$> sent) ∧
    let '(_, net2, rx') :=
      recv_round 8 ((λ d, (d, Some peer_addr)) <$> filter (λ d, is_data d = true) sent)
        RxBatch_default (fresh true) (mkNet 0 []) in
    net2 = mkNet 0 [] ∧ take 2 (rx_frames rx') = [[4]; [5; 6; 7; 8]] ∧
    rx_events rx' = (λ k, inr (k, peer_addr)) <$> List.seq 0 2.
Proof.
  cbv zeta. assert (carried frames (results (wg_send_batch 7 frames false handle
    TxBatchScratch_default (fresh true) (mkNet 1 [])).1.2) = [[4]; [5; 6; 7; 8]]) as Hc
    by (vm_compute; reflexivity).
  split; [exact Hc|].
  destruct (wg_send_batch 7 frames false handle TxBatchScratch_default (fresh true) (mkNet 1 []))
    as [[[w' net'] sc'] st] eqn:E.
  assert (plain.awaits true [] true) as Haw by (split; [reflexivity|constructor]).
  pose proof (batch_reaches_peer plain.awaits plain.plain_laws sample.sample_laws 7 8 frames false handle peer_addr
    TxBatchScratch_default (fresh true) (mkNet 1 []) w' net' sc' st (fresh true) RxBatch_default
    peer_addr (mkNet 0 []) Haw eq_refl ltac:(vm_compute; lia) eq_refl E) as (_ & sent & H1 & H2).
  exists sent. split; [exact H1|]. cbn [fst snd results] in Hc. rewrite Hc in H2. exact H2.
Defined.

End example.
