(* ===== verification/LinkLife.v ===== *)
(** * How a link finds, keeps and changes its peer's address

    [link.rs]: choosing among the resolved addresses, binding, the race of the
    two address families at start-up; [tunnel.rs]: [attempt_reconnect], the error
    handling of [link_receiver], and [family_fallback_watch]. Resolving, binding
    and parsing an address are parameters. *)

From S2P Require Import Prelude Bytes Protocol F64 Configuration ProbeHistory Link Wireguard Gso LinkIo.

Definition config_error (msg : string) : MlvpnError := Prelude.Config msg.

Inductive Domain := IPV4 | IPV6.

(** ** Addresses and sockets *)

Section bind.
(** [str::parse::<IpAddr>] and [str::parse::<SocketAddr>], an error being its
    message; [crypto::StaticKeypair::load_private] and [decode_public_key]. *)
Context (parse_ip : string → string + IpAddr).
Context (parse_socket_addr : string → option SocketAddr).
Context (load_private : string → outcome (list Z)).
Context (decode_public_key : string → outcome (list Z)).
Context {Sock : Type}.
(** [bind_socket]: the socket and the interface's MTU. *)
Context (bind_socket : LinkConfig → option SocketAddr → outcome (Sock * option Z)).

Definition pick_remote_addr (candidates : list SocketAddr) (local_addr : option string)
    (link_name : string) : outcome (SocketAddr * option SocketAddr) :=
  match local_addr with
  | Some local =>
      match parse_ip local with
      | inl e => Err (config_error ("bad local_addr for link '" +:+ link_name +:+ "': " +:+ e))
      | inr i =>
          let want_v6 := ip_is_ipv6 i in
          match List.find (λ a, bool_decide (is_ipv6 a = want_v6)) candidates with
          | Some primary => Ok (primary, None)
          | None => Err (config_error ("remote_addr for link '" +:+ link_name +:+ "' resolved to no "
                      +:+ (if want_v6 then "IPv6" else "IPv4")
                      +:+ " address, but local_addr requires one"))
          end
      end
  | None =>
      let v6 := List.find is_ipv6 candidates in
      let v4 := List.find (λ a, negb (is_ipv6 a)) candidates in
      match v6, v4 with
      | Some primary, Some alternate => Ok (primary, Some alternate)
      | Some primary, None => Ok (primary, None)
      | None, Some primary => Ok (primary, None)
      | None, None => Err (config_error ("remote_addr for link '" +:+ link_name
                                           +:+ "' resolved to no addresses"))
      end
  end.

(** The answer of [timeout(lookup_host(..))]. *)
Inductive lookup_answer :=
  | LookupTimedOut
  | LookupFailed (e : string)
  | LookedUp (addrs : list SocketAddr).

Definition resolve_remote_addr (cfg : LinkConfig) (answer : lookup_answer)
    : outcome (option SocketAddr * option SocketAddr) :=
  match remote_addr cfg with
  | None => Ok (None, None)
  | Some r =>
      let what := "resolving remote_addr '" +:+ r +:+ "' for link '" +:+ link_name cfg +:+ "'" in
      match answer with
      | LookupTimedOut => Err (config_error (what +:+ " timed out after 10s"))
      | LookupFailed e => Err (config_error (what +:+ ": " +:+ e))
      | LookedUp addrs =>
          '(primary, alternate) ← pick_remote_addr addrs (local_addr cfg) (link_name cfg);
          Ok (Some primary, alternate)
      end
  end.

Definition socket_domain (cfg : LinkConfig) (remote : option SocketAddr) : outcome Domain :=
  if dual_stack cfg then Ok IPV6 else
  match remote, local_addr cfg with
  | Some r, _ => Ok (if is_ipv6 r then IPV6 else IPV4)
  | None, Some local =>
      match parse_ip local with
      | inl e => Err (config_error ("bad local_addr for link '" +:+ link_name cfg +:+ "': " +:+ e))
      | inr i => Ok (if ip_is_ipv6 i then IPV6 else IPV4)
      end
  | None, None => Ok IPV4
  end.

Context `{BT : Boringtun} `{U : Udp}.

(** The network side of a [Link]. *)
Record LinkNet := mkLinkNet {
  ln_config : LinkConfig;
  ln_socket : Sock;
  ln_remote : option SocketAddr;
  ln_mtu : option Z;
  ln_alternate : option (SocketAddr * Sock);
  ln_wg : WgTunnel }.

Definition bind (cfg : LinkConfig) (answer : lookup_answer) : outcome LinkNet :=
  '(remote, alternate_remote) ← resolve_remote_addr cfg answer;
  '(socket, physical_mtu) ← bind_socket cfg remote;
  alternate ← match alternate_remote with
              | Some a => '(s, _) ← bind_socket cfg (Some a); Ok (Some (a, s))
              | None => Ok None
              end;
  local_private ← load_private (private_key_file cfg);
  peer_public ← decode_public_key (peer_public_key cfg);
  Ok (mkLinkNet cfg socket remote physical_mtu alternate (WgTunnel_new local_private peer_public)).

Definition set_wg (w : WgTunnel) (l : LinkNet) : LinkNet :=
  mkLinkNet (ln_config l) (ln_socket l) (ln_remote l) (ln_mtu l) (ln_alternate l) w.

Definition commit_remote (winner : option SocketAddr) (l : LinkNet) : LinkNet :=
  match ln_alternate l with
  | None => l
  | Some (a, s) =>
      if bool_decide (winner = Some a)
      then mkLinkNet (ln_config l) s (Some a) (ln_mtu l) None (ln_wg l)
      else mkLinkNet (ln_config l) (ln_socket l) (ln_remote l) (ln_mtu l) None (ln_wg l)
  end.

(** [answered]: the tunnel, the network and whether the datagram was an
    authenticated answer. *)
Definition answered (now : Z) (d : list Z) (from : SocketAddr) (w : WgTunnel) (net : Net)
    : WgTunnel * Net * bool :=
  let '(w, _, r) := decapsulate_into now d [] w in
  match r with
  | Ok (KSendReply reply) => let '(net, _) := send_to reply from net in (w, net, true)
  | Ok KFrame => (w, net, true)
  | _ => (w, net, false)
  end.

(** What happens while the two addresses race. *)
Inductive race_event :=
  | RetryTick (now : Z)
  | FromPrimary (now : Z) (r : IoError + list Z * SocketAddr)
  | FromAlternate (now : Z) (r : IoError + list Z * SocketAddr)
  | GiveUp.

(** The state of the race: the first datagram if it is still to be sent, the
    tunnel and the network. *)
Record racing := mkRacing { r_init : option (list Z); r_wg : WgTunnel; r_net : Net }.

(** A receive on the socket of [addr]. *)
Definition hear (now : Z) (r : IoError + list Z * SocketAddr) (addr : SocketAddr) (s : racing)
    : racing * option (option SocketAddr) :=
  match r with
  | inr (d, from) =>
      if bool_decide (from = addr) then
        let '(w, net, ok) := answered now d from (r_wg s) (r_net s) in
        (mkRacing (r_init s) w net, if ok then Some (Some addr) else None)
      else (s, None)
  | inl _ => (s, None)
  end.

(** One turn of the loop, and the verdict if it ends. *)
Definition race_turn (primary alt : SocketAddr) (ev : race_event) (s : racing)
    : racing * option (option SocketAddr) :=
  match ev with
  | RetryTick now =>
      let '(w, d) := match r_init s with
                     | Some d => (r_wg s, Some d)
                     | None => tick now (r_wg s)
                     end in
      let net := match d with
                 | Some d => (send_to d alt (send_to d primary (r_net s)).1).1
                 | None => r_net s
                 end in
      (mkRacing None w net, None)
  | FromPrimary now r => hear now r primary s
  | FromAlternate now r => hear now r alt s
  | GiveUp => (s, Some None)
  end.

Fixpoint race (primary alt : SocketAddr) (evs : list race_event) (s : racing)
    : racing * option (option SocketAddr) :=
  match evs with
  | [] => (s, None)
  | ev :: evs =>
      match race_turn primary alt ev s with
      | (s, Some verdict) => (s, Some verdict)
      | (s, None) => race primary alt evs s
      end
  end.

(** [resolve_alternate]: [frame] is the encoded keepalive header the first
    datagram is made of. *)
Definition resolve_alternate (now : Z) (frame : list Z) (evs : list race_event) (l : LinkNet)
    (net : Net) : option (LinkNet * Net) :=
  match ln_alternate l, ln_remote l with
  | None, _ => Some (l, net)
  | Some _, None => Some (commit_remote None l, net)
  | Some (alt, _), Some primary =>
      let '(w, r) := encapsulate now frame (ln_wg l) in
      match r with
      | Ok (init, _) =>
          let '(s, winner) := race primary alt evs (mkRacing (Some init) w net) in
          (λ winner, (commit_remote winner (set_wg (r_wg s) l), r_net s)) <$> winner
      | _ => Some (commit_remote None (set_wg w l), net)
      end
  end.

Definition family_fallback_eligible (cfg : LinkConfig) : bool :=
  bool_decide (local_addr cfg = None) &&
  match remote_addr cfg with
  | Some r => bool_decide (parse_socket_addr r = None)
  | None => false
  end.

Definition switch_family (remote : SocketAddr) (socket : Sock) (l : LinkNet) : LinkNet :=
  mkLinkNet (ln_config l) socket (Some remote) (ln_mtu l) (ln_alternate l) (ln_wg l).

(** [reconnect]: only the socket is replaced. *)
Definition reconnect (l : LinkNet) : LinkNet * outcome unit :=
  match bind_socket (ln_config l) (ln_remote l) with
  | Ok (s, _) =>
      (mkLinkNet (ln_config l) s (ln_remote l) (ln_mtu l) (ln_alternate l) (ln_wg l), Ok tt)
  | Err e => (l, Err e)
  | Panic => (l, Err (config_error "reconnect task panicked"))
  end.

End bind.

(** ** Reconnecting *)

Definition RECONNECT_FAILURE_THRESHOLD : Z := 5.
Definition RECONNECT_BACKOFF_INITIAL_MS : Z := 500.
Definition RECONNECT_BACKOFF_MAX_MS : Z := 30000.

(** The new backoff of [attempt_reconnect], which is also how long it sleeps. *)
Definition attempt_reconnect (r : outcome unit) (backoff_ms : Z) : Z :=
  match r with
  | Ok _ => RECONNECT_BACKOFF_INITIAL_MS
  | Err (CapabilityMissing _) => RECONNECT_BACKOFF_MAX_MS
  | _ => Z.min (wrap 64 (backoff_ms * 2)) RECONNECT_BACKOFF_MAX_MS
  end.

Record recovery := mkRecovery { consecutive_failures : Z; backoff_ms : Z }.
Definition recovery_new : recovery := mkRecovery 0 RECONNECT_BACKOFF_INITIAL_MS.

(** What a task does about an event: goes on, pauses, or tries a reconnect and
    sleeps. *)
Inductive reaction := GoOn | Pause (ms : Z) | Reconnect (sleep_ms : Z).

(** The event arms of [link_receiver]; [r] is what a reconnect would give. *)
Definition receiver_event (ev : MlvpnError + nat * SocketAddr) (r : outcome unit)
    (s : recovery) : recovery * reaction :=
  match ev with
  | inr _ => (mkRecovery 0 (backoff_ms s), GoOn)
  | inl (Io e) =>
      if is_interface_gone_error e then
        let n := wrap 32 (consecutive_failures s + 1) in
        if RECONNECT_FAILURE_THRESHOLD <=? n then
          let b := attempt_reconnect r (backoff_ms s) in (mkRecovery 0 b, Reconnect b)
        else (mkRecovery n (backoff_ms s), Pause 100)
      else (s, Pause 100)
  | inl _ => (s, GoOn)
  end.

(** The same on the sending side, in [link_prober]. *)
Inductive ProbeSendOutcome := ProbeSent | Skipped | InterfaceGone | TransientFailure.

Definition send_outcome (r : outcome bool) : ProbeSendOutcome :=
  match r with
  | Ok _ => ProbeSent
  | Err (Io e) => if is_interface_gone_error e then InterfaceGone else TransientFailure
  | _ => Skipped
  end.

Definition prober_event (o : ProbeSendOutcome) (r : outcome unit) (s : recovery)
    : recovery * reaction :=
  match o with
  | ProbeSent => (mkRecovery 0 (backoff_ms s), GoOn)
  | InterfaceGone =>
      let n := wrap 32 (consecutive_failures s + 1) in
      if RECONNECT_FAILURE_THRESHOLD <=? n then
        let b := attempt_reconnect r (backoff_ms s) in (mkRecovery 0 b, Reconnect b)
      else (mkRecovery n (backoff_ms s), GoOn)
  | TransientFailure | Skipped => (s, GoOn)
  end.

(** ** Falling back to the other address family *)

Definition SECOND : Z := 1000000000.
Definition FAMILY_FALLBACK_AFTER : Z := 30 * SECOND.
Definition FAMILY_PROBE_WARN_AFTER : Z := 3.
Definition LADDER_MINS : list Z := [1; 2; 5; 10; 30].

Definition family_probe_backoff (failures : Z) : Z :=
  if failures =? 0 then 0
  else 60 * SECOND * nth (Nat.min (Z.to_nat failures - 1) (length LADDER_MINS - 1)) LADDER_MINS 0.

Record watch := mkWatch {
  down_since : option Z; last_try : option Z; failures : Z; warned : bool }.
Definition watch_new : watch := mkWatch None None 0 false.

(** The link as the watch sees it under its lock. *)
Record link_view := mkView { v_state : LinkState; v_disabled : bool; v_remote : option SocketAddr }.

(** The readings of the clock in one turn, in order. *)
Record readings := mkReadings { t_since : Z; t_down : Z; t_tried : Z; t_try : Z }.

(** What one turn did: nothing, or a probe of the family [current] is not in,
    with the address it switched to and whether it warned. *)
Inductive watch_out :=
  | NoProbe
  | Probe (current : SocketAddr) (switched : option SocketAddr) (warns : bool).

(** One turn of [family_fallback_watch]: [v] before the probe, [answer] the
    address and socket that answered it, [v'] after it. *)
Definition watch_step {Sock : Type} (v : link_view) (t : readings)
    (answer : option (SocketAddr * Sock)) (v' : link_view) (w : watch) : watch * watch_out :=
  if bool_decide (v_state v = Up) || v_disabled v
  then (mkWatch None None 0 (warned w), NoProbe) else
  match v_remote v with
  | None => (w, NoProbe)
  | Some current =>
      let since := default (t_since t) (down_since w) in
      if (sat_sub (t_down t) since <? FAMILY_FALLBACK_AFTER)
         || match last_try w with
            | Some l => sat_sub (t_tried t) l <? family_probe_backoff (failures w)
            | None => false
            end
      then (mkWatch (Some since) (last_try w) (failures w) (warned w), NoProbe) else
      match answer with
      | Some (alt, _) =>
          if bool_decide (v_state v' ≠ Up) && bool_decide (v_remote v' = Some current)
          then (mkWatch None (Some (t_try t)) 0 (warned w), Probe current (Some alt) false)
          else (mkWatch (Some since) (Some (t_try t)) 0 (warned w), Probe current None false)
      | None =>
          let n := Z.min (failures w + 1) (2 ^ 32 - 1) in
          let warn := (FAMILY_PROBE_WARN_AFTER <=? n) && negb (warned w) in
          (mkWatch (Some since) (Some (t_try t)) n (warned w || warn), Probe current None warn)
      end
  end.

(** The switch a turn makes to the link. *)
Definition watch_switch `{BT : Boringtun} {Sock : Type} (answer : option (SocketAddr * Sock))
    (o : watch_out) (l : LinkNet) : LinkNet :=
  match o, answer with
  | Probe _ (Some alt) _, Some (_, s) => switch_family alt s l
  | _, _ => l
  end.

(** ** Start-up *)

Section startup.
Context (parse_ip : string → string + IpAddr).
Context (load_private : string → outcome (list Z)).
Context (decode_public_key : string → outcome (list Z)).
Context {Sock : Type}.
Context (bind_socket : LinkConfig → option SocketAddr → outcome (Sock * option Z)).
Context `{BT : Boringtun} `{U : Udp}.

Lemma find_spec {A} (f : A → bool) l x : List.find f l = Some x → x ∈ l ∧ f x = true.
Proof. intros [? ?]%find_some. by rewrite list_elem_of_In. Qed.

Lemma pick_remote_spec cands local name p a :
  pick_remote_addr parse_ip cands local name = Ok (p, a) →
  p ∈ cands ∧ (∀ x, a = Some x → x ∈ cands ∧ is_ipv6 p = true ∧ is_ipv6 x = false ∧ local = None) ∧
  (∀ s i, local = Some s → parse_ip s = inr i → is_ipv6 p = ip_is_ipv6 i).
Proof.
  unfold pick_remote_addr. destruct local as [s|].
  - destruct (parse_ip s) as [e|i] eqn:Ei; [done|].
    destruct (List.find _ _) as [x|] eqn:E; [|done]. intros [= <- <-].
    apply find_spec in E as [E1 E2%bool_decide_eq_true]. split_and!; [done..|].
    intros ? ? [= <-]. rewrite Ei. by intros [= <-].
  - destruct (List.find is_ipv6 cands) as [x|] eqn:E6;
      destruct (List.find (λ a, negb (is_ipv6 a)) cands) as [y|] eqn:E4; intros [= <- <-];
      try (apply find_spec in E6 as [? ?]); try (apply find_spec in E4 as [? ?%negb_true_iff]);
      naive_solver.
Qed.

(** An authenticated answer: a frame or a handshake reply. *)
Definition authentic (now : Z) (d : list Z) (w : WgTunnel) : Prop :=
  ∃ w' f k, decapsulate_into now d [] w = (w', f, Ok k) ∧ k ≠ KConsumed.

Lemma answered_authentic now d from w net w' net' :
  answered now d from w net = (w', net', true) → authentic now d w.
Proof.
  unfold answered, authentic. destruct (decapsulate_into now d [] w) as [[w1 f] r].
  destruct r as [[|reply|]|e|]; try done; [by eauto|].
  destruct (send_to reply from net) as [net1 e]. intros _. by eauto.
Qed.

Lemma race_ends primary alt evs s s' v :
  race primary alt evs s = (s', Some v) →
  ∃ pre ev post s1, evs = pre ++ ev :: post ∧ race primary alt pre s = (s1, None) ∧
    race_turn primary alt ev s1 = (s', Some v).
Proof.
  revert s. induction evs as [|ev evs IH]; intros s; cbn [race]; [done|].
  destruct (race_turn primary alt ev s) as [s1 [v1|]] eqn:E.
  - intros [= <- <-]. exists [], ev, evs, s. done.
  - intros (pre & ev1 & post & s2 & -> & H1 & H2)%IH. exists (ev :: pre), ev1, post, s2.
    cbn [race]. by rewrite E.
Qed.

Lemma hear_authentic now r addr s s' a :
  hear now r addr s = (s', Some (Some a)) →
  a = addr ∧ ∃ d, r = inr (d, addr) ∧ authentic now d (r_wg s).
Proof.
  unfold hear. destruct r as [e|[d from]]; [done|]. case_bool_decide as Hf; [|done]. subst from.
  destruct (answered now d addr (r_wg s) (r_net s)) as [[w net] ok] eqn:Ea.
  destruct ok; [|done]. intros [= _ <-]. apply answered_authentic in Ea. eauto.
Qed.

(** Who won: the winner is one of the two, and it answered from its own address
    while the race was on. *)
Lemma race_winner primary alt evs s s' a :
  race primary alt evs s = (s', Some (Some a)) →
  ∃ pre now d post s1, race primary alt pre s = (s1, None) ∧ authentic now d (r_wg s1) ∧
    (a = primary ∧ evs = pre ++ FromPrimary now (inr (d, primary)) :: post ∨
     a = alt ∧ evs = pre ++ FromAlternate now (inr (d, alt)) :: post).
Proof.
  intros (pre & ev & post & s1 & -> & H1 & H2)%race_ends. destruct ev as [now|now r|now r|]; cbn in H2.
  - by destruct (match r_init s1 with Some _ => _ | None => _ end).
  - apply hear_authentic in H2 as (-> & d & -> & Hd). exists pre, now, d, post, s1. auto.
  - apply hear_authentic in H2 as (-> & d & -> & Hd). exists pre, now, d, post, s1. auto.
  - done.
Qed.

(** A link that came up through binding and the race of its two address
    families talks through the socket bound for its peer's address. That address
    is one the name resolved to, of the family the configuration pins if it pins
    one, and the alternate only if it answered from its own address, with an
    authenticated datagram, while the race was on. *)
Theorem startup_address cfg addrs now frame evs net l l' net' :
  bind parse_ip load_private decode_public_key bind_socket cfg (LookedUp addrs) = Ok l →
  resolve_alternate now frame evs l net = Some (l', net') →
  ln_alternate l' = None ∧
  (∃ mtu, bind_socket cfg (ln_remote l') = Ok (ln_socket l', mtu)) ∧
  (ln_remote l' = None ↔ remote_addr cfg = None) ∧
  (∀ r, ln_remote l' = Some r → r ∈ addrs ∧
     ∀ s i, local_addr cfg = Some s → parse_ip s = inr i → is_ipv6 r = ip_is_ipv6 i) ∧
  (ln_remote l' ≠ ln_remote l →
   ∃ alt pre t d post s0 s1, ln_remote l' = Some alt ∧
     evs = pre ++ FromAlternate t (inr (d, alt)) :: post ∧
     race (default alt (ln_remote l)) alt pre s0 = (s1, None) ∧ authentic t d (r_wg s1)).
Proof.
  intros Hb Hr. unfold bind, resolve_remote_addr in Hb.
  destruct (remote_addr cfg) as [name|] eqn:Ename.
  2: { cbn in Hb. destruct (bind_socket cfg None) as [[s m]|e|] eqn:Es; [|done..]. cbn in Hb.
       inv_ok; simplify_eq. cbn in Hr. injection Hr as <- <-. cbn. split_and!; [done|by eauto|done..]. }
  destruct (pick_remote_addr _ _ _ _) as [[p a]|e|] eqn:Ep; [|done..]. cbn in Hb.
  apply pick_remote_spec in Ep as (Hp & Ha & Hpin).
  destruct (bind_socket cfg (Some p)) as [[s m]|e|] eqn:Es; [|done..]. cbn in Hb.
  assert (∀ i j, local_addr cfg = Some i → parse_ip i = inr j → a = None) as Hno.
  { intros i j Hi _. destruct a as [x|]; [|done]. destruct (Ha x eq_refl) as (_ & _ & _ & Hl). congruence. }
  destruct a as [alt|].
  2: { inv_ok; simplify_eq. cbn in Hr. injection Hr as <- <-. cbn.
       split_and!; [done|by eauto|done| |done]. intros r [= <-]. split; [done|]. by apply Hpin. }
  destruct (Ha alt eq_refl) as (Hal & _ & _ & Hloc).
  destruct (bind_socket cfg (Some alt)) as [[sa ma]|e|] eqn:Esa; [|done..]. cbn in Hb.
  inv_ok; simplify_eq. unfold resolve_alternate in Hr. cbn [ln_alternate ln_remote] in Hr.
  destruct (encapsulate _ _ _) as [w [[init c]|e|]].
  - destruct (race p alt evs _) as [s1 [winner|]] eqn:Er; [|done]. injection Hr as <- _.
    unfold commit_remote. cbn. case_bool_decide as Hw; cbn.
    + subst winner. split_and!; [done|by eauto|done| |].
      * intros r [= <-]. split; [done|]. intros i j Hi. congruence.
      * intros Hne. apply race_winner in Er as (pre & t & d & post & s2 & H1 & H2 & [[-> _]|[_ ->]]);
          [done|]. by exists alt, pre, t, d, post, (mkRacing (Some init) w net), s2.
    + split_and!; [done|by eauto|done| |done]. intros r [= <-]. split; [done|]. intros i j Hi. congruence.
  - injection Hr as <- _. cbn. split_and!; [done|by eauto|done| |done].
    intros r [= <-]. split; [done|]. intros i j Hi. congruence.
  - injection Hr as <- _. cbn. split_and!; [done|by eauto|done| |done].
    intros r [= <-]. split; [done|]. intros i j Hi. congruence.
Qed.

End startup.

(** ** Reconnects are rare *)

(** An event of either task that may lead to a reconnect, with the result the
    reconnect would have. *)
Inductive io_event :=
  | RxEv (ev : MlvpnError + nat * SocketAddr) (r : outcome unit)
  | TxEv (sent : outcome bool) (r : outcome unit).

Definition io_step (s : recovery) (ev : io_event) : recovery * reaction :=
  match ev with
  | RxEv ev r => receiver_event ev r s
  | TxEv sent r => prober_event (send_outcome sent) r s
  end.

Definition reconnect_result (ev : io_event) : outcome unit :=
  match ev with RxEv _ r | TxEv _ r => r end.

Definition gone_error (e : MlvpnError) : bool :=
  match e with Io e => is_interface_gone_error e | _ => false end.
Definition is_gone (ev : io_event) : bool :=
  match ev with
  | RxEv (inl e) _ | TxEv (Err e) _ => gone_error e
  | _ => false
  end.
(** A frame was received or a probe left: the socket works. *)
Definition is_fine (ev : io_event) : bool :=
  match ev with RxEv (inr _) _ | TxEv (Ok _) _ => true | _ => false end.
Definition is_reconnect (r : reaction) : bool :=
  match r with Reconnect _ => true | _ => false end.

(** The states a task reaches, with its events and the results of the attempts
    to reconnect it made, latest first. *)
Inductive io_reach : list io_event → list (outcome unit) → recovery → Prop :=
  | io_start : io_reach [] [] recovery_new
  | io_next h att s ev s' r :
      io_reach h att s → io_step s ev = (s', r) →
      io_reach (ev :: h) (if is_reconnect r then reconnect_result ev :: att else att) s'.

(** The "interface gone" errors since the socket last worked. *)
Fixpoint gone_since (h : list io_event) : Z :=
  match h with
  | [] => 0
  | ev :: h => if is_fine ev then 0 else (if is_gone ev then 1 else 0) + gone_since h
  end.

(** An attempt that failed, but not for want of a capability. *)
Definition plain_failure (r : outcome unit) : bool :=
  match r with Ok _ | Err (CapabilityMissing _) => false | _ => true end.

(** The pause after the attempts [att], latest first: half a second, doubled for
    every failure in a row up to 30 seconds; 30 seconds from a missing capability
    on until an attempt succeeds. *)
Fixpoint leading_failures (att : list (outcome unit)) : nat * list (outcome unit) :=
  match att with
  | r :: rest =>
      if plain_failure r then let '(n, rest) := leading_failures rest in (S n, rest) else (O, att)
  | [] => (O, [])
  end.
Definition pause_after (att : list (outcome unit)) : Z :=
  match leading_failures att with
  | (_, Err _ :: _) => 30000
  | (n, _) => Z.min 30000 (500 * 2 ^ Z.of_nat n)
  end.

Lemma pause_range att : 500 ≤ pause_after att ≤ 30000.
Proof.
  unfold pause_after. destruct (leading_failures att) as [n rest].
  assert (1 ≤ 2 ^ Z.of_nat n) by (apply (Z.pow_le_mono_r 2 0); lia).
  repeat case_match; lia.
Qed.

(** The code's step from one pause to the next. *)
Lemma attempt_pause r att : attempt_reconnect r (pause_after att) = pause_after (r :: att).
Proof.
  pose proof (pause_range att) as Hr. unfold attempt_reconnect, RECONNECT_BACKOFF_INITIAL_MS, RECONNECT_BACKOFF_MAX_MS.
  rewrite wrap_small by (unfold fits; lia).
  assert (plain_failure r = true → Z.min (pause_after att * 2) 30000 = pause_after (r :: att)) as H.
  { intros Hf. unfold pause_after. cbn [leading_failures]. rewrite Hf.
    destruct (leading_failures att) as [n rest]. rewrite Nat2Z.inj_succ, Z.pow_succ_r by lia.
    repeat case_match; lia. }
  destruct r as [[]|[]|]; try (by apply H); done.
Qed.

Definition recovery_inv (h : list io_event) (att : list (outcome unit)) (s : recovery) : Prop :=
  consecutive_failures s = gone_since h mod 5 ∧ backoff_ms s = pause_after att.

(** A failure that is counted, on either side. *)
Lemma counted h att s ev s' r quiet :
  recovery_inv h att s → is_fine ev = false → is_gone ev = true → is_reconnect quiet = false →
  (let n := wrap 32 (consecutive_failures s + 1) in
   if RECONNECT_FAILURE_THRESHOLD <=? n then
     let b := attempt_reconnect (reconnect_result ev) (backoff_ms s) in (mkRecovery 0 b, Reconnect b)
   else (mkRecovery n (backoff_ms s), quiet)) = (s', r) →
  recovery_inv (ev :: h) (if is_reconnect r then reconnect_result ev :: att else att) s' ∧
  (is_reconnect r = true ↔ gone_since (ev :: h) mod 5 = 0) ∧
  (∀ ms, r = Reconnect ms → ms = pause_after (reconnect_result ev :: att)).
Proof.
  intros [Hc Hb] Hf Hg Hq. unfold recovery_inv. cbn [gone_since]. rewrite Hf, Hg.
  pose proof (Z.mod_pos_bound (gone_since h) 5 ltac:(lia)) as Hm.
  assert ((1 + gone_since h) mod 5 =
          if decide (gone_since h mod 5 = 4) then 0 else gone_since h mod 5 + 1) as ->.
  { rewrite <- Zplus_mod_idemp_r. case_decide as E; [by rewrite E|]. rewrite Z.mod_small; lia. }
  rewrite Hc, Hb, wrap_small by (unfold fits; lia). cbv zeta.
  unfold RECONNECT_FAILURE_THRESHOLD. rewrite attempt_pause.
  destruct (Z.leb_spec 5 (gone_since h mod 5 + 1)); intros [= <- <-]; cbn;
    rewrite ?Hq; case_decide; try lia.
  - split_and!; [done..|]. by intros ms [= ->].
  - split_and!; [done..| |by intros ms ->]. split; [done|lia].
Qed.

Lemma io_step_inv h att s ev s' r :
  recovery_inv h att s → io_step s ev = (s', r) →
  recovery_inv (ev :: h) (if is_reconnect r then reconnect_result ev :: att else att) s' ∧
  (is_reconnect r = true ↔ is_gone ev = true ∧ gone_since (ev :: h) mod 5 = 0) ∧
  (∀ ms, r = Reconnect ms → ms = pause_after (reconnect_result ev :: att)).
Proof.
  intros Hi H.
  assert (is_fine ev = true ∨ is_gone ev = false → is_reconnect r = false →
          s' = (if is_fine ev then mkRecovery 0 (backoff_ms s) else s) →
          recovery_inv (ev :: h) (if is_reconnect r then reconnect_result ev :: att else att) s' ∧
          (is_reconnect r = true ↔ is_gone ev = true ∧ gone_since (ev :: h) mod 5 = 0) ∧
          (∀ ms, r = Reconnect ms → ms = pause_after (reconnect_result ev :: att))) as Hidle.
  { intros Hev Hr ->. destruct Hi as [Hc Hb].
    assert (is_gone ev = false) as Hg.
    { destruct Hev as [Hf|]; [|done]. by destruct ev as [[?|?] ?|[?|?|] ?]. }
    rewrite Hr. split; [|split; [naive_solver|by intros ms ->]].
    split; cbn [gone_since]; rewrite ?Hg; by destruct (is_fine ev). }
  destruct ev as [[e|f] x|sent x]; cbn [io_step receiver_event] in H.
  - destruct e as [| |e| | | | | | | | | |]; try (injection H as <- <-; apply Hidle; auto).
    destruct (is_interface_gone_error e) eqn:Eg.
    + destruct (counted h att s (RxEv (inl (Io e)) x) s' r (Pause 100) Hi eq_refl Eg eq_refl H)
        as (H1 & H2 & H3). split; [done|]. split; [|done]. cbn [is_gone gone_error]. rewrite Eg. naive_solver.
    + injection H as <- <-. apply Hidle; auto.
  - injection H as <- <-. apply Hidle; auto.
  - destruct sent as [b|e|]; cbn [send_outcome] in H;
      [injection H as <- <-; apply Hidle; auto| |injection H as <- <-; apply Hidle; auto].
    destruct e as [| |e| | | | | | | | | |]; cbn [send_outcome prober_event] in H;
      try (injection H as <- <-; apply Hidle; auto).
    destruct (is_interface_gone_error e) eqn:Eg; cbn [prober_event] in H.
    + destruct (counted h att s (TxEv (Err (Io e)) x) s' r GoOn Hi eq_refl Eg eq_refl H)
        as (H1 & H2 & H3). split; [done|]. split; [|done]. cbn [is_gone gone_error]. rewrite Eg. naive_solver.
    + injection H as <- <-. apply Hidle; auto.
Qed.

Lemma io_reach_inv h att s : io_reach h att s → recovery_inv h att s.
Proof.
  induction 1 as [|h att s ev s' r _ IH H]; [done|]. by destruct (io_step_inv h att s ev s' r IH H).
Qed.


(** ** Family probes are disciplined *)

(** A turn that finds the link up or disabled. *)
Definition healthy (v : link_view) : bool := bool_decide (v_state v = Up) || v_disabled v.

Definition probed (o : watch_out) : bool := match o with Probe _ _ _ => true | NoProbe => false end.
Definition warns (o : watch_out) : nat := match o with Probe _ _ true => 1 | _ => 0 end.

(** The states the watch reaches under a clock that does not go back: with what
    each turn found, latest first, the time of the last probe since the link was
    last healthy, the failed probes in a row since then or since one was
    answered, and the warnings. *)
Inductive watch_reach {Sock : Type} : Z → list (Z * bool) → option Z → nat → nat → watch → Prop :=
  | watch_start c : watch_reach c [] None 0 0 watch_new
  | watch_turn c H P n k w v t (a : option (SocketAddr * Sock)) v' w' o :
      watch_reach c H P n k w →
      c ≤ t_since t ≤ t_down t → t_down t ≤ t_tried t ≤ t_try t →
      watch_step v t a v' w = (w', o) →
      watch_reach (t_try t) ((t_since t, healthy v) :: H)
        (if healthy v then None else if probed o then Some (t_try t) else P)
        (if healthy v then 0%nat
         else if probed o then match a with Some _ => 0%nat | None => S n end else n)
        (k + warns o) w'.

(** Every turn since [s] found the link down and enabled. *)
Definition down_from (H : list (Z * bool)) (s : Z) : Prop :=
  (s, false) ∈ H ∧ ∀ t b, (t, b) ∈ H → s < t → b = false.

Record watch_inv (c : Z) (H : list (Z * bool)) (P : option Z) (n k : nat) (w : watch) : Prop := {
  wi_past : ∀ t b, (t, b) ∈ H → t ≤ c;
  wi_try : last_try w = P;
  wi_try_past : ∀ p, P = Some p → p ≤ c;
  wi_fail : failures w = Z.min (Z.of_nat n) (2 ^ 32 - 1);
  wi_warn : k = if warned w then 1%nat else 0%nat;
  wi_down : ∀ s, down_since w = Some s → s ≤ c ∧ down_from H s }.

Lemma backoff_saturates n :
  family_probe_backoff (Z.min (Z.of_nat n) (2 ^ 32 - 1)) = family_probe_backoff (Z.of_nat n).
Proof.
  destruct (Z.le_gt_cases (Z.of_nat n) (2 ^ 32 - 1)); [by rewrite Z.min_l|].
  rewrite Z.min_r by lia. unfold family_probe_backoff.
  destruct (Z.eqb_spec (Z.of_nat n) 0); [lia|]. rewrite (proj2 (Z.eqb_neq _ 0)) by lia.
  f_equal. f_equal. cbn [length LADDER_MINS]. lia.
Qed.

Lemma down_from_turn H c s t b :
  s ≤ c → c ≤ t → down_from H s → b = false → down_from ((t, b) :: H) s.
Proof.
  intros Hc Ht [Hin Hall] ->. split; [by right|].
  intros t' b' [[= -> ->]|Hin']%elem_of_cons Hs; [done|by eapply Hall].
Qed.

Lemma down_from_new H c t :
  (∀ t b, (t, b) ∈ H → t ≤ c) → c ≤ t → down_from ((t, false) :: H) t.
Proof.
  intros Hp Hc. split; [by left|]. intros t' b' [[= -> ->]|Hin]%elem_of_cons Hs; [lia|].
  specialize (Hp _ _ Hin). lia.
Qed.

(** What a turn owes: the conditions of a probe and the next invariant. *)
Lemma watch_step_inv {Sock} c H P n k w v t (a : option (SocketAddr * Sock)) v' w' o :
  watch_inv c H P n k w → c ≤ t_since t ≤ t_down t → t_down t ≤ t_tried t ≤ t_try t →
  watch_step v t a v' w = (w', o) →
  let H' := (t_since t, healthy v) :: H in
  watch_inv (t_try t) H' (if healthy v then None else if probed o then Some (t_try t) else P)
    (if healthy v then 0%nat
     else if probed o then match a with Some _ => 0%nat | None => S n end else n) (k + warns o) w' ∧
  ∀ cur sw wn, o = Probe cur sw wn →
    healthy v = false ∧ v_remote v = Some cur ∧
    (∃ s, FAMILY_FALLBACK_AFTER ≤ t_down t - s ∧ down_from H' s) ∧
    (∀ p, P = Some p → family_probe_backoff (Z.of_nat n) ≤ t_tried t - p) ∧
    (∀ alt, sw = Some alt → v_state v' ≠ Up ∧ v_remote v' = Some cur ∧ fst <$> a = Some alt).
Proof.
  intros [I1 I2 I3 I4 I5 I6] Ht1 Ht2 Hs H'.
  assert (∀ x b, (x, b) ∈ H' → x ≤ t_try t) as Hpast.
  { intros x b [[= -> ->]|Hin]%elem_of_cons; [lia|]. specialize (I1 _ _ Hin). lia. }
  unfold watch_step in Hs. fold (healthy v) in Hs. destruct (healthy v) eqn:Eh.
  { injection Hs as <- <-. split; [|done]. split; cbn; try done. by rewrite Nat.add_0_r. }
  set (since := default (t_since t) (down_since w)) in *.
  assert (since ≤ t_since t ∧ down_from H' since) as [Hsin Hdown].
  { unfold since. destruct (down_since w) as [s|] eqn:Es; cbn.
    - destruct (I6 s eq_refl). split; [lia|]. eapply down_from_turn; [done|lia|done|done].
    - split; [done|]. eapply down_from_new; [done|lia]. }
  destruct (v_remote v) as [current|] eqn:Er.
  2: { injection Hs as <- <-. split; [|done]. split; cbn; try done.
       - intros p Hp. specialize (I3 p Hp). lia.
       - by rewrite Nat.add_0_r.
       - intros s Es. destruct (I6 s Es). split; [lia|]. eapply down_from_turn; [done|lia|done|done]. }
  destruct (_ || _) eqn:Ew.
  { injection Hs as <- <-. split; [|done]. split; cbn; try done.
    - intros p Hp. specialize (I3 p Hp). lia.
    - by rewrite Nat.add_0_r.
    - intros s [= <-]. split; [lia|done]. }
  apply orb_false_iff in Ew as [Ew1 Ew2]. apply Z.ltb_ge in Ew1.
  assert (∃ s, FAMILY_FALLBACK_AFTER ≤ t_down t - s ∧ down_from H' s) as Hlong.
  { exists since. split; [unfold sat_sub in Ew1; unfold FAMILY_FALLBACK_AFTER, SECOND in *; lia|done]. }
  assert (∀ p, P = Some p → family_probe_backoff (Z.of_nat n) ≤ t_tried t - p) as Hgap.
  { intros p Hp. rewrite I2, Hp in Ew2. apply Z.ltb_ge in Ew2. rewrite I4, backoff_saturates in Ew2.
    specialize (I3 p Hp). unfold sat_sub in Ew2. lia. }
  destruct a as [[alt sock]|]; [destruct (_ && _) eqn:Esw|].
  - injection Hs as <- <-. apply andb_true_iff in Esw as [E1%bool_decide_eq_true E2%bool_decide_eq_true].
    split; [|by intros ??? [= <- <- <-]; split_and!; [..|intros ? [= <-]]].
    split; cbn; try done; [by intros p [= <-]|by rewrite Nat.add_0_r].
  - injection Hs as <- <-. split; [|by intros ??? [= <- <- <-]; split_and!].
    split; cbn; try done; [by intros p [= <-]|by rewrite Nat.add_0_r|].
    intros s [= <-]. split; [lia|done].
  - injection Hs as <- <-. split; [|by intros ??? [= <- <- <-]; split_and!].
    split; cbn; try done; [by intros p [= <-]| | |].
    + rewrite I4. lia.
    + rewrite I5. destruct (warned w); cbn [negb andb orb]; [by rewrite andb_false_r|].
      rewrite andb_true_r. by destruct (FAMILY_PROBE_WARN_AFTER <=? _).
    + intros s [= <-]. split; [lia|done].
Qed.

Lemma watch_reach_inv {Sock} c H P n k w :
  watch_reach (Sock := Sock) c H P n k w → watch_inv c H P n k w.
Proof.
  induction 1 as [c|c H P n k w v t a v' w' o _ IH H1 H2 Hs].
  - split; cbn; try done. by intros t b Hin%not_elem_of_nil.
  - by destruct (watch_step_inv _ _ _ _ _ _ _ _ _ _ _ _ IH H1 H2 Hs).
Qed.

(** In every reachable state a dual-stack link's other address family is
    probed only when the link was found down and enabled at every turn of the
    last 30 seconds, no sooner after the previous probe than the ladder of 0, 1,
    2, 5, 10 and 30 minutes says for the failures in a row; the link moves only
    to the address that answered, if it is then still down on the address probed
    from; and the watch warns at most once. *)
Theorem family_probes_disciplined {Sock} c H P n k w v t (a : option (SocketAddr * Sock)) v' w' o :
  watch_reach (Sock := Sock) c H P n k w →
  c ≤ t_since t ≤ t_down t → t_down t ≤ t_tried t ≤ t_try t →
  watch_step v t a v' w = (w', o) →
  (k + warns o ≤ 1)%nat ∧
  ∀ cur sw wn, o = Probe cur sw wn →
    healthy v = false ∧ v_remote v = Some cur ∧
    (∃ s, FAMILY_FALLBACK_AFTER ≤ t_down t - s ∧
          down_from ((t_since t, healthy v) :: H) s) ∧
    (∀ p, P = Some p → family_probe_backoff (Z.of_nat n) ≤ t_tried t - p) ∧
    (∀ alt, sw = Some alt → v_state v' ≠ Up ∧ v_remote v' = Some cur ∧ fst <$> a = Some alt).
Proof.
  intros Hr H1 H2 Hs. apply watch_reach_inv in Hr.
  destruct (watch_step_inv _ _ _ _ _ _ _ _ _ _ _ _ Hr H1 H2 Hs) as [Hi Hp]. split; [|done].
  rewrite (wi_warn _ _ _ _ _ _ Hi). destruct (warned w'); lia.
Qed.

(** ** Examples *)

Module life_example.
Import plain sample example.

Definition alt_addr : SocketAddr := mkAddr (V6 1) 5000.
Definition cfg : LinkConfig :=
  mkLinkConfig "wan0" "eth0" None false (Some "vpn.example:5000") 5000 f64.one None 200
    Sendto "/etc/wan0.key" "".
Definition parse_ip (s : string) : string + IpAddr := inl "invalid IP address syntax".
Definition no_key (s : string) : outcome (list Z) := Ok [].
(** The socket is named after the address it is bound for. *)
Definition bind_sock (c : LinkConfig) (a : option SocketAddr)
    : outcome (option SocketAddr * option Z) := Ok (a, Some 1500).

Definition bound : outcome (LinkNet (Sock := option SocketAddr)) :=
  bind parse_ip no_key no_key bind_sock cfg (LookedUp [peer_addr; alt_addr]).
(** The peer answers over IPv4 only; a datagram from elsewhere is not heard. *)
Definition race_evs : list race_event :=
  [RetryTick 1; FromPrimary 2 (inr ([9], peer_addr));
   FromAlternate 3 (inr (1 :: replicate 147 0, peer_addr))].

Lemma startup_address_witness :
  match bound with
  | Ok l =>
      match resolve_alternate 0 [1; 2; 3] race_evs l (mkNet 0 []) with
      | Some (l', _) =>
          ln_remote l' = Some peer_addr ∧ ln_alternate l' = None ∧
          ∃ mtu, bind_sock cfg (ln_remote l') = Ok (ln_socket l', mtu)
      | None => False
      end
  | _ => False
  end.
Proof.
  assert (match bound with
          | Ok l => (λ r, ln_remote r.1) <$> resolve_alternate 0 [1; 2; 3] race_evs l (mkNet 0 [])
          | _ => None
          end = Some (Some peer_addr)) as Hrem by (vm_compute; reflexivity).
  destruct bound as [l|e|] eqn:E; [|discriminate..].
  destruct (resolve_alternate 0 [1; 2; 3] race_evs l (mkNet 0 [])) as [[l' net']|] eqn:Er;
    [|discriminate].
  pose proof (startup_address parse_ip no_key no_key bind_sock cfg [peer_addr; alt_addr]
                0 [1; 2; 3] race_evs (mkNet 0 []) l l' net' E Er) as (H1 & H2 & _).
  cbn in Hrem. injection Hrem as Hrem. exact (conj Hrem (conj H1 H2)).
Defined.

Definition gone : io_event :=
  RxEv (inl (Io (mkIo (Some 19) "no such device"))) (Err (Tun "no such device")).
Definition heard : io_event := RxEv (inr (1%nat, peer_addr)) (Ok tt).

(** Two errors, a frame, and nine errors: the fifth of those led to a first
    attempt, the tenth leads to a second, and its failure to a pause of 2 s. *)
Definition flaps : list io_event := repeat gone 9 ++ [heard; gone; gone].

Fixpoint io_play (h : list io_event) : list (outcome unit) * recovery :=
  match h with
  | [] => ([], recovery_new)
  | ev :: h =>
      let '(att, s) := io_play h in
      let '(s', r) := io_step s ev in
      (if is_reconnect r then reconnect_result ev :: att else att, s')
  end.

Lemma play_reach h : io_reach h (io_play h).1 (io_play h).2.
Proof.
  induction h as [|ev h IH]; cbn [io_play]; [apply io_start|].
  destruct (io_play h) as [att s]. destruct (io_step s ev) as [s' r] eqn:E. by apply (io_next h att s).
Qed.

Lemma flaps_reach : io_reach flaps [Err (Tun "no such device")] (mkRecovery 4 1000).
Proof. exact (play_reach flaps). Qed.


Definition down_view : link_view := mkView Down false (Some peer_addr).
Definition at_sec (n : Z) : readings :=
  mkReadings (n * SECOND) (n * SECOND) (n * SECOND) (n * SECOND).

Lemma family_probes_disciplined_witness :
  let w := mkWatch (Some 0) None 0 false in
  watch_reach (Sock := unit) 0 [(0, false)] None 0 0 w ∧
  watch_step down_view (at_sec 31) (Some (alt_addr, tt)) down_view w =
    (mkWatch None (Some (31 * SECOND)) 0 false, Probe peer_addr (Some alt_addr) false) ∧
  ∃ s, FAMILY_FALLBACK_AFTER ≤ 31 * SECOND - s ∧
       down_from [(31 * SECOND, false); (0, false)] s.
Proof.
  intros w.
  assert (watch_reach (Sock := unit) 0 [(0, false)] None 0 0 w) as Hr.
  { refine (watch_turn 0 [] None 0 0 watch_new down_view (at_sec 0) None down_view w NoProbe
              _ _ _ _); [apply watch_start|cbn; lia..|reflexivity]. }
  split; [exact Hr|]. split; [reflexivity|].
  assert (watch_step down_view (at_sec 31) (Some (alt_addr, tt)) down_view w =
    (mkWatch None (Some (31 * SECOND)) 0 false, Probe peer_addr (Some alt_addr) false)) as Hs
    by reflexivity.
  assert (0 ≤ t_since (at_sec 31) ≤ t_down (at_sec 31)) as H1 by (unfold at_sec, SECOND; cbn [t_since t_down]; lia).
  assert (t_down (at_sec 31) ≤ t_tried (at_sec 31) ≤ t_try (at_sec 31)) as H2 by (cbn; lia).
  destruct (family_probes_disciplined _ _ _ _ _ _ _ _ _ _ _ _ Hr H1 H2 Hs) as [_ H].
  destruct (H _ _ _ eq_refl) as (_ & _ & Hlong & _). exact Hlong.
Defined.

End life_example.
