(* ===== verification/Tuning.v ===== *)
(** * Runtime tuning ([tunnel.rs])

    What [link_prober] changes of its link after every sweep (the probe
    interval and the smoothing factor of the averages), and
    [reorder_tuning_loop], which moves the receive pipeline's reorder window.
    [clamp] panics on reversed or unordered bounds. *)

From Stdlib Require Import SpecFloat.
From S2P Require Import Prelude Bytes F64 Rounding ExactInt Configuration Protocol FecRecovery RxPipeline ProbeHistory Link.

Definition clamp_f64 (x lo hi : f64) : outcome f64 :=
  if (lo <=? hi)%f64 then Ok (f64.clamp x lo hi) else Panic.
Definition clamp_u64 (x lo hi : Z) : outcome Z :=
  if lo <=? hi then Ok (Z.min hi (Z.max lo x)) else Panic.
Definition is_multiple_of (n d : Z) : bool := n mod d =? 0.

Definition EWMA_ALPHA_SMOOTHING_STREAK : Z := 10.
Definition EWMA_ALPHA_STEP : f64 := f64.lit 2 100.
Definition PROBE_BACKOFF_STREAK : Z := 10.
Definition PROBE_BACKOFF_FACTOR : f64 := f64.lit 3 2.

Definition suggest_ewma_alpha (min_alpha max_alpha current : f64) (hits misses : Z)
    : outcome f64 :=
  if 0 <? misses then Ok max_alpha
  else if (0 <? hits) && is_multiple_of hits EWMA_ALPHA_SMOOTHING_STREAK
  then clamp_f64 (current - EWMA_ALPHA_STEP)%f64 min_alpha max_alpha
  else clamp_f64 current min_alpha max_alpha.

Definition suggest_probe_interval_ms (floor_ms max_ms current_ms hits misses : Z)
    : outcome Z :=
  if 0 <? misses then Ok floor_ms
  else if (0 <? hits) && is_multiple_of hits PROBE_BACKOFF_STREAK
  then clamp_u64 (f64.to_u64 (f64.of_Z current_ms * PROBE_BACKOFF_FACTOR)%f64) floor_ms max_ms
  else clamp_u64 current_ms floor_ms max_ms.

(** The fields of a link that are tuned, and its statistics. *)
Record Tuned := mkTuned {
  effective_probe_interval_ms : Z;
  effective_ewma_alpha : f64;
  tuned_stats : LinkStats }.

Definition Tuned_new (lc : LinkConfig) (ewma_alpha : f64) (now now' : Z) : Tuned :=
  mkTuned (probe_interval_ms lc) ewma_alpha (LinkStats_new ewma_alpha now now').

(** The period the two timers are made anew with, when it changed. *)
Definition tune_interval (cfg : SchedulerConfig) (lc : LinkConfig) (t : Tuned)
    : outcome (Tuned * option Z) :=
  if auto_tune_probe_interval cfg then
    suggested ← suggest_probe_interval_ms (probe_interval_ms lc) (probe_interval_max_ms cfg)
      (effective_probe_interval_ms t) (consecutive_hits (tuned_stats t))
      (consecutive_misses (tuned_stats t));
    if suggested =? effective_probe_interval_ms t then Ok (t, None)
    else Ok (mkTuned suggested (effective_ewma_alpha t) (tuned_stats t), Some suggested)
  else Ok (t, None).

Definition tune_alpha (cfg : SchedulerConfig) (t : Tuned) : outcome Tuned :=
  if auto_tune_ewma_alpha cfg then
    suggested ← suggest_ewma_alpha (ewma_alpha_min cfg) (ewma_alpha_max cfg)
      (effective_ewma_alpha t) (consecutive_hits (tuned_stats t))
      (consecutive_misses (tuned_stats t));
    if SFeqb suggested (effective_ewma_alpha t) then Ok t
    else Ok (mkTuned (effective_probe_interval_ms t) suggested (set_alpha suggested (tuned_stats t)))
  else Ok t.

Definition tune (cfg : SchedulerConfig) (lc : LinkConfig) (t : Tuned)
    : outcome (Tuned * option Z) :=
  '(t, timer) ← tune_interval cfg lc t;
  t ← tune_alpha cfg t;
  Ok (t, timer).

(** ** The reorder window *)

Definition REORDER_TUNING_INTERVAL : Z := nanos_of_secs 30.
Definition REORDER_WINDOW_SPREAD_MULTIPLIER : f64 := f64.lit 3 2.
Definition REORDER_WINDOW_JITTER_MULTIPLIER : f64 := f64.of_Z 4.
Definition REORDER_WINDOW_FLOOR_MS : f64 := f64.of_Z 10.

Definition rtt_spread (rtts : list f64) : f64 :=
  if bool_decide (2 ≤ length rtts)%nat
  then (foldl f64.max f64.MIN rtts - foldl f64.min f64.MAX rtts)%f64
  else f64.zero.

Definition suggest_reorder_window_ms (scores : list LinkScore) (primary_idx : option nat)
    (min_ms max_ms : Z) : outcome (option Z) :=
  let up := List.filter (λ s, bool_decide (ls_state s = Up)) scores in
  if bool_decide (up = []) then Ok None else
  let settled_primary :=
    match primary_idx with
    | Some idx => List.find (λ s, (link_index s =? idx)%nat) up
    | None => None
    end in
  let '(spread_term, jitter_term) :=
    match settled_primary with
    | Some p =>
        (f64.zero, (default f64.zero (ls_jitter_ms p) * REORDER_WINDOW_JITTER_MULTIPLIER)%f64)
    | None =>
        ((rtt_spread (omap ls_rtt_ms up) * REORDER_WINDOW_SPREAD_MULTIPLIER)%f64,
         (foldl f64.max f64.zero (omap ls_jitter_ms up) * REORDER_WINDOW_JITTER_MULTIPLIER)%f64)
    end in
  x ← clamp_f64 (spread_term + jitter_term + REORDER_WINDOW_FLOOR_MS)%f64
        (f64.of_Z min_ms) (f64.of_Z max_ms);
  Ok (Some (f64.to_u64 (f64.round x))).

Definition hysteresis (current : Z) : Z :=
  f64.to_u64 (f64.max (f64.of_Z current * f64.lit 2 10)%f64 (f64.of_Z 10)).

(** A tick of [reorder_tuning_loop]: the window in effect, and the one sent to
    the pipeline. *)
Definition reorder_tick (cfg : SchedulerConfig) (scores : list LinkScore)
    (primary_idx : option nat) (current : Z) : outcome (Z * option Z) :=
  suggested ← suggest_reorder_window_ms scores primary_idx
    (reorder_window_min_ms cfg) (reorder_window_max_ms cfg);
  match suggested with
  | None => Ok (current, None)
  | Some s =>
      if hysteresis current <? Z.abs (current - s) then Ok (s, Some s) else Ok (current, None)
  end.

(** The loop until the pipeline's channel closes: the windows sent, oldest
    first, and the window in effect. A tick is given the scores, the settled
    primary, and whether the channel is open. *)
Fixpoint reorder_run (cfg : SchedulerConfig) (ticks : list (list LinkScore * option nat * bool))
    (current : Z) : outcome (list Z * Z) :=
  match ticks with
  | [] => Ok ([], current)
  | (scores, primary_idx, open) :: ticks =>
      '(current', sent) ← reorder_tick cfg scores primary_idx current;
      match sent with
      | None => reorder_run cfg ticks current
      | Some s =>
          if open then '(ws, c) ← reorder_run cfg ticks current'; Ok (s :: ws, c)
          else Ok ([], current)
      end
  end.

Definition reorder_tuning_loop (cfg : SchedulerConfig)
    (ticks : list (list LinkScore * option nat * bool)) : outcome (list Z * Z) :=
  if auto_tune_reorder_window cfg then reorder_run cfg ticks (reorder_window_ms cfg)
  else Ok ([], reorder_window_ms cfg).

(** ** Probe interval and smoothing factor *)

(** What happens to a link's statistics between two sweeps. *)
Inductive stats_step : LinkStats → LinkStats → Prop :=
  | step_rtt s now rtt : stats_step s (record_rtt now rtt s)
  | step_miss s now : stats_step s (record_miss now s)
  | step_tx s now now' b n : stats_step s (record_tx_many now now' b n s)
  | step_rx s now now' n : stats_step s (record_rx now now' n s)
  | step_transition s c ramp v w d : stats_step s (set_transition c ramp v w d s).

Inductive tuned_reach (cfg : SchedulerConfig) (lc : LinkConfig) (a : f64) : Tuned → Prop :=
  | tuned_start now now' : tuned_reach cfg lc a (Tuned_new lc a now now')
  | tuned_stats_step i x s s' :
      tuned_reach cfg lc a (mkTuned i x s) → stats_step s s' → tuned_reach cfg lc a (mkTuned i x s')
  | tuned_sweep t t' timer :
      tuned_reach cfg lc a t → tune cfg lc t = Ok (t', timer) → tuned_reach cfg lc a t'.

(** The factors the averages smooth with. *)
Definition alphas (s : LinkStats) : list f64 :=
  [alpha (rtt_ms s); alpha (jitter_ms s); alpha (loss_rate s);
   alpha (rx_throughput_mbps s); alpha (tx_throughput_mbps s)].

Lemma Ewma_update_alpha x e : alpha (Ewma_update x e) = alpha e.
Proof. by destruct e as [? []]. Qed.

Lemma stats_step_alphas s s' : stats_step s s' → alphas s' = alphas s.
Proof.
  intros []; unfold alphas, record_rtt, record_miss, record_tx_many, record_rx;
    repeat case_match; cbn; by rewrite ?Ewma_update_alpha.
Qed.

Definition tuned_ok (cfg : SchedulerConfig) (lc : LinkConfig) (t : Tuned) : Prop :=
  probe_interval_ms lc ≤ effective_probe_interval_ms t ≤ probe_interval_max_ms cfg ∧
  alphas (tuned_stats t) = replicate 5 (effective_ewma_alpha t) ∧
  f64.is_nan (effective_ewma_alpha t) = false.

Definition milestone (t : Tuned) : bool :=
  (0 <? consecutive_hits (tuned_stats t)) && is_multiple_of (consecutive_hits (tuned_stats t)) 10.
Definition missed (t : Tuned) : bool := 0 <? consecutive_misses (tuned_stats t).

(** What a sweep does to the interval. *)
Definition interval_spec (cfg : SchedulerConfig) (lc : LinkConfig) (t t' : Tuned) : Prop :=
  let i := effective_probe_interval_ms t in
  let i' := effective_probe_interval_ms t' in
  if negb (auto_tune_probe_interval cfg) then i' = i
  else if missed t then i' = probe_interval_ms lc
  else if milestone t
  then i ≤ i' ≤ probe_interval_max_ms cfg ∧ (2 ≤ i → Z.min (probe_interval_max_ms cfg) (i + 1) ≤ i')
  else i' = i.

(** And to the smoothing factor. *)
Definition alpha_spec (cfg : SchedulerConfig) (t t' : Tuned) : Prop :=
  if auto_tune_ewma_alpha cfg then
    within (ewma_alpha_min cfg) (ewma_alpha_max cfg) (effective_ewma_alpha t') ∧
    (missed t = true → fle (ewma_alpha_max cfg) (effective_ewma_alpha t'))
  else effective_ewma_alpha t' = effective_ewma_alpha t.

Section tuning.
Context (cfg : SchedulerConfig) (lc : LinkConfig).
Hypothesis floor_pos : 0 ≤ probe_interval_ms lc.
Hypothesis interval_bounds : probe_interval_ms lc ≤ probe_interval_max_ms cfg.
Hypothesis max_exact : probe_interval_max_ms cfg < 2 ^ 52.
Hypothesis alpha_bounds : fle (ewma_alpha_min cfg) (ewma_alpha_max cfg).

Lemma backed_off_ge i :
  0 ≤ i < 2 ^ 52 →
  let i' := f64.to_u64 (f64.of_Z i * PROBE_BACKOFF_FACTOR)%f64 in
  i ≤ i' ∧ (2 ≤ i → i + 1 ≤ i').
Proof.
  intros Hi. assert (wf (f64.of_Z i * PROBE_BACKOFF_FACTOR)%f64 = true) as Hw
    by (apply mul_wf; [apply of_Z_wf|by vm_compute]).
  split; [|intros Hi2; apply to_u64_ge; [lia|done|apply (three_halves_ge i); lia]].
  destruct (Z.eq_dec i 0) as [-> |]; [by vm_compute|]. apply to_u64_ge; [lia|done|].
  destruct (of_Z_value i) as (m & e & E & _); [lia|].
  apply mul_ge; [rewrite E; by exists m, e|apply of_Z_wf|by vm_compute..].
Qed.

Lemma tune_interval_ok t :
  tuned_ok cfg lc t →
  ∃ i timer, tune_interval cfg lc t = Ok (mkTuned i (effective_ewma_alpha t) (tuned_stats t), timer) ∧
    probe_interval_ms lc ≤ i ≤ probe_interval_max_ms cfg ∧
    timer = (if i =? effective_probe_interval_ms t then None else Some i) ∧
    interval_spec cfg lc t (mkTuned i (effective_ewma_alpha t) (tuned_stats t)).
Proof.
  intros (Hi & _ & _). destruct t as [i x s]. unfold tune_interval, interval_spec, missed, milestone.
  cbn [effective_probe_interval_ms effective_ewma_alpha tuned_stats] in *.
  destruct (auto_tune_probe_interval cfg); cbn [negb].
  2: { exists i, None. rewrite Z.eqb_refl. auto. }
  unfold suggest_probe_interval_ms, clamp_u64. rewrite Zle_imp_le_bool by done.
  assert (∀ j, probe_interval_ms lc ≤ j ≤ probe_interval_max_ms cfg →
    ∃ timer, (if j =? i then Ok (mkTuned i x s, None) else Ok (mkTuned j x s, Some j)) =
             Ok (mkTuned j x s, timer) ∧
             timer = (if j =? i then None else Some j)) as Hend.
  { intros j Hj. destruct (Z.eqb_spec j i) as [-> |]; eauto. }
  pose proof (backed_off_ge i ltac:(lia)) as [Hb Hb2]. cbn zeta in *.
  change PROBE_BACKOFF_STREAK with 10.
  destruct (0 <? consecutive_misses s); [|destruct (_ && _)]; cbn [mbind outcome_bind].
  - destruct (Hend (probe_interval_ms lc)) as (timer & -> & Ht); [lia|]. eexists _, timer. split_and!; [done|lia..|done|done].
  - destruct (Hend (Z.min (probe_interval_max_ms cfg) (Z.max (probe_interval_ms lc)
      (f64.to_u64 (f64.of_Z i * PROBE_BACKOFF_FACTOR)%f64)))) as (timer & -> & Ht); [lia|].
    eexists _, timer. split_and!; [done|lia..|done|lia|lia|]. lia.
  - destruct (Hend (Z.min (probe_interval_max_ms cfg) (Z.max (probe_interval_ms lc) i)))
      as (timer & -> & Ht); [lia|].
    eexists _, timer. split_and!; [done|lia..|done|lia].
Qed.

Lemma alphas_set_alpha a s : alphas (set_alpha a s) = replicate 5 a.
Proof. done. Qed.

Lemma tune_alpha_ok t :
  tuned_ok cfg lc t →
  ∃ t', tune_alpha cfg t = Ok t' ∧ tuned_ok cfg lc t' ∧ alpha_spec cfg t t' ∧
    effective_probe_interval_ms t' = effective_probe_interval_ms t.
Proof.
  intros (Hi & Ha & Hn). unfold tune_alpha, alpha_spec.
  destruct (auto_tune_ewma_alpha cfg); [|by exists t].
  destruct (fle_not_nan _ _ alpha_bounds) as [Nlo Nhi].
  assert (∃ x, suggest_ewma_alpha (ewma_alpha_min cfg) (ewma_alpha_max cfg)
      (effective_ewma_alpha t) (consecutive_hits (tuned_stats t))
      (consecutive_misses (tuned_stats t)) = Ok x ∧
      within (ewma_alpha_min cfg) (ewma_alpha_max cfg) x ∧
      (missed t = true → x = ewma_alpha_max cfg)) as (x & -> & Hx & Hm).
  { unfold suggest_ewma_alpha, missed, clamp_f64. destruct (0 <? _).
    - eexists. split_and!; [done|by split; [|apply fle_refl]|done].
    - rewrite alpha_bounds. destruct (_ && _); eexists; (split_and!; [done| |done]);
        (apply clamp_within; [|done]); [|done].
      apply sub_not_nan; [done|by vm_compute]. }
  cbn [mbind outcome_bind]. destruct (SFeqb x (effective_ewma_alpha t)) eqn:E.
  - assert (fle x (effective_ewma_alpha t) ∧ fle (effective_ewma_alpha t) x) as [E1 E2].
    { clear -E. unfold fle, f64.leb, SFleb, SFeqb in *. pose proof (compare_rank x (effective_ewma_alpha t)) as H.
      pose proof (compare_rank (effective_ewma_alpha t) x) as H'.
      destruct (SFcompare x _) as [[]|]; try done.
      destruct (rank x) as [a|], (rank (effective_ewma_alpha t)) as [b|]; try done. subst b.
      destruct (SFcompare _ x) as [[]|]; try done. unfold lex_lt in H'. lia. }
    exists t. split; [done|]. split; [exact (conj Hi (conj Ha Hn))|]. split; [|done]. split.
    + destruct Hx. split; by eapply fle_trans.
    + intros Hm'. by rewrite <- (Hm Hm').
  - destruct Hx as [Hx1 Hx2]. destruct (fle_not_nan _ _ Hx1) as [_ Nx].
    eexists. split; [done|]. split; [exact (conj Hi (conj (alphas_set_alpha x _) Nx))|].
    split; [|done]. split; [by split|]. intros Hm'. cbn. rewrite (Hm Hm'). by apply fle_refl.
Qed.

Lemma tune_ok t :
  tuned_ok cfg lc t →
  ∃ t' timer, tune cfg lc t = Ok (t', timer) ∧ tuned_ok cfg lc t' ∧
    interval_spec cfg lc t t' ∧ alpha_spec cfg t t' ∧
    timer = (if effective_probe_interval_ms t' =? effective_probe_interval_ms t
             then None else Some (effective_probe_interval_ms t')).
Proof.
  intros Ht. destruct (tune_interval_ok t Ht) as (i & timer & E & Hi & Htm & Hs).
  unfold tune. rewrite E. cbn [mbind outcome_bind]. destruct Ht as (_ & Ha & Hn).
  destruct (tune_alpha_ok (mkTuned i (effective_ewma_alpha t) (tuned_stats t))) as (t' & -> & Ht' & Hal & Hii);
    [exact (conj Hi (conj Ha Hn))|].
  exists t', timer. cbn in Hii. split_and!; [done|done| | |by rewrite Hii].
  - unfold interval_spec in *. cbn in Hs. by rewrite Hii.
  - done.
Qed.

Lemma reach_tuned_ok a t :
  f64.is_nan a = false → tuned_reach cfg lc a t → tuned_ok cfg lc t.
Proof.
  intros Hn. induction 1 as [now now'|i x s s' _ (Hi & Ha & Hx) Hs|t t' timer _ IH Htune].
  - unfold tuned_ok. cbn. split_and!; [lia|done..].
  - split; [exact Hi|]. split; [|done]. cbn in *. by rewrite (stats_step_alphas _ _ Hs).
  - destruct (tune_ok t IH) as (u & ? & Hu & Hok & _). rewrite Htune in Hu. by injection Hu as <- _.
Qed.
End tuning.

(** Tuning after a sweep never panics and stays in its bounds. From any
    state a link reaches by its traffic and earlier sweeps, a sweep leaves the
    probe interval between the configured floor and the maximum: a miss brings
    it back to the floor at once, a clean milestone lengthens it (by at least
    a millisecond, up to the maximum, unless it is below two), and anything
    else keeps it; the timers are made anew exactly when it changed. The
    smoothing factor stays within its bounds, a miss raises it to the upper
    one, and every average smooths with it. *)
Theorem tuning_disciplined cfg lc a t :
  0 ≤ probe_interval_ms lc → probe_interval_ms lc ≤ probe_interval_max_ms cfg →
  probe_interval_max_ms cfg < 2 ^ 52 → fle (ewma_alpha_min cfg) (ewma_alpha_max cfg) →
  f64.is_nan a = false → tuned_reach cfg lc a t →
  ∃ t' timer, tune cfg lc t = Ok (t', timer) ∧
    interval_spec cfg lc t t' ∧ alpha_spec cfg t t' ∧
    probe_interval_ms lc ≤ effective_probe_interval_ms t' ≤ probe_interval_max_ms cfg ∧
    alphas (tuned_stats t') = replicate 5 (effective_ewma_alpha t') ∧
    timer = (if effective_probe_interval_ms t' =? effective_probe_interval_ms t
             then None else Some (effective_probe_interval_ms t')).
Proof.
  intros H1 H2 H3 H4 Ha Hr.
  destruct (tune_ok cfg lc H1 H2 H3 H4 t) as (t' & timer & E & (Hi & Hal & _) & Hs & Has & Ht);
    [by eapply reach_tuned_ok|].
  exists t', timer. exact (conj E (conj Hs (conj Has (conj Hi (conj Hal Ht))))).
Qed.

(** ** Reorder window *)

Lemma fmul_comm x y : (x * y)%f64 = (y * x)%f64.
Proof.
  destruct x as [sx|sx| |sx mx ex], y as [sy|sy| |sy my ey]; unfold f64.mul, SFmul; try done;
    try (by rewrite xorb_comm). by rewrite xorb_comm, Pos.mul_comm, Z.add_comm.
Qed.

Lemma max_ge_r x y : f64.is_nan y = false → fle y (f64.max x y).
Proof.
  intros Hy. unfold f64.max. destruct (f64.is_nan x) eqn:Hx; [by apply fle_refl|]. rewrite Hy.
  destruct (x <? y)%f64 eqn:E; [by apply fle_refl|]. by apply not_flt.
Qed.

Lemma max_ge_l x y : f64.is_nan x = false → fle x (f64.max x y).
Proof.
  intros Hx. unfold f64.max. rewrite Hx. destruct (f64.is_nan y); [by apply fle_refl|].
  destruct (x <? y)%f64 eqn:E; [by apply flt_le|by apply fle_refl].
Qed.

Lemma max_pick x y : f64.max x y = x ∨ f64.max x y = y.
Proof. unfold f64.max. repeat case_match; auto. Qed.
Lemma min_pick x y : f64.min x y = x ∨ f64.min x y = y.
Proof. unfold f64.min. repeat case_match; auto. Qed.

(** A fold that picks keeps what holds of everything it picks from. *)
Lemma foldl_pick {A} (f : A → A → A) (P : A → Prop) acc l :
  (∀ x y, f x y = x ∨ f x y = y) → P acc → Forall P l → P (foldl f acc l).
Proof.
  intros Hf Ha Hl. revert acc Ha. induction Hl as [|x l Hx _ IH]; intros acc Ha; [done|].
  apply IH. by destruct (Hf acc x) as [-> | ->].
Qed.

Lemma foldl_max_ge acc l : f64.is_nan acc = false → fle acc (foldl f64.max acc l).
Proof.
  revert acc. induction l as [|x l IH]; intros acc Ha; [by apply fle_refl|].
  pose proof (max_ge_l acc x Ha) as H. eapply fle_trans; [exact H|]. apply IH.
  by apply fle_not_nan in H as [_ ?].
Qed.

Lemma foldl_min_le acc l :
  f64.is_nan acc = false → Forall (λ x, f64.is_nan x = false) l → fle (foldl f64.min acc l) acc.
Proof.
  intros Ha Hl. revert acc Ha. induction Hl as [|x l Hx _ IH]; intros acc Ha; [by apply fle_refl|].
  eapply fle_trans; [apply IH; by apply min_not_nan|by apply min_le_l].
Qed.

Lemma nonneg_not_nan x : nonneg x → f64.is_nan x = false.
Proof. by intros [_ ?]%fle_not_nan. Qed.

(** A round-trip time: a finite number that is not negative. *)
Definition rtt_ok (x : f64) : Prop := wf x = true ∧ is_finite x = true ∧ nonneg x.
Definition jitter_ok (x : f64) : Prop := wf x = true ∧ nonneg x.
Definition score_ok (s : LinkScore) : Prop :=
  (∀ x, ls_rtt_ms s = Some x → rtt_ok x) ∧ (∀ x, ls_jitter_ms s = Some x → jitter_ok x).

Lemma Forall_omap {A B} (P : B → Prop) (f : A → option B) l :
  Forall (λ a, ∀ b, f a = Some b → P b) l → Forall P (omap f l).
Proof.
  induction 1 as [|a l Ha _ IH]; [done|]. cbn. destruct (f a) eqn:E; [constructor; auto|done].
Qed.

Lemma spread_nonneg rtts : Forall rtt_ok rtts → jitter_ok (rtt_spread rtts).
Proof.
  intros Hr. unfold rtt_spread. case_bool_decide as H2; [|by split].
  assert (Forall (λ x, f64.is_nan x = false) rtts) as Hn
    by (eapply Forall_impl; [exact Hr|]; intros x (_ & _ & ?); by apply nonneg_not_nan).
  assert (wf (foldl f64.max f64.MIN rtts) = true ∧ is_finite (foldl f64.max f64.MIN rtts) = true)
    as [W1 F1].
  { apply (foldl_pick _ (λ x, wf x = true ∧ is_finite x = true)); [apply max_pick|by vm_compute|].
    eapply Forall_impl; [exact Hr|]. by intros x (? & ? & _). }
  assert (rtt_ok (foldl f64.min f64.MAX rtts)) as (W2 & F2 & N2).
  { apply foldl_pick; [apply min_pick|by vm_compute|done]. }
  destruct rtts as [|r rtts]; [cbn in H2; lia|]. apply Forall_cons in Hn as [Nr Hn].
  assert (fle (foldl f64.min f64.MAX (r :: rtts)) (foldl f64.max f64.MIN (r :: rtts))) as Hle.
  { apply fle_trans with r; cbn [foldl].
    - eapply fle_trans; [apply foldl_min_le; [|done]|by apply min_le_r]. by apply min_not_nan.
    - pose proof (max_ge_r f64.MIN r Nr) as H. eapply fle_trans; [exact H|].
      apply foldl_max_ge. by apply fle_not_nan in H as [_ ?]. }
  split; [by apply sub_wf|by apply nonneg_sub].
Qed.

Lemma jitter_mul x y : jitter_ok x → positive_finite y → wf y = true → jitter_ok (x * y)%f64.
Proof. intros [Wx Nx] Py Wy. split; [by apply mul_wf|]. rewrite fmul_comm. by apply nonneg_mul. Qed.

Lemma jitter_add x y : jitter_ok x → jitter_ok y → jitter_ok (x + y)%f64.
Proof. intros [Wx Nx] [Wy Ny]. split; [by apply add_wf|by apply nonneg_add]. Qed.

Lemma clamp_round_between x lo hi :
  0 ≤ lo ≤ hi → hi < 2 ^ 53 → jitter_ok x →
  ∃ y, clamp_f64 x (f64.of_Z lo) (f64.of_Z hi) = Ok y ∧ lo ≤ f64.to_u64 (f64.round y) ≤ hi.
Proof.
  intros Hlo Hhi [Wx Nx]. pose proof (of_Z_mono lo hi Hlo Hhi) as Hm.
  unfold clamp_f64. rewrite Hm. eexists. split; [done|].
  destruct (clamp_within (f64.of_Z lo) (f64.of_Z hi) x) as [H1 H2]; [by apply nonneg_not_nan|done|].
  apply round_between; [done..| |done|done]. apply clamp_wf; [done|apply of_Z_wf..].
Qed.

Lemma suggest_reorder_ok scores primary_idx lo hi :
  0 ≤ lo ≤ hi → hi < 2 ^ 53 → Forall score_ok scores →
  ∃ r, suggest_reorder_window_ms scores primary_idx lo hi = Ok r ∧
       (∀ w, r = Some w → lo ≤ w ≤ hi) ∧
       (r = None ↔ Forall (λ s, ls_state s ≠ Up) scores).
Proof.
  intros Hlo Hhi Hs. unfold suggest_reorder_window_ms. set (up := List.filter _ _).
  assert (∀ s, s ∈ up ↔ s ∈ scores ∧ ls_state s = Up) as Hin.
  { intros s. unfold up. rewrite !list_elem_of_In, filter_In, bool_decide_eq_true. done. }
  assert (Forall score_ok up) as Hup.
  { apply Forall_forall. intros s Hs'. rewrite Forall_forall in Hs. apply Hs. by apply Hin in Hs' as [? _]. }
  assert (up = [] ↔ Forall (λ s, ls_state s ≠ Up) scores) as Hnone.
  { rewrite Forall_forall. split.
    - intros E s Hs1 Hs2. assert (s ∈ up) as Hi by (by apply Hin). rewrite E in Hi. by apply not_elem_of_nil in Hi.
    - intros Hall. destruct up as [|s up'] eqn:E; [done|].
      destruct (proj1 (Hin s) ltac:(left)) as [H1 H2]. by destruct (Hall s H1). }
  clearbody up. case_bool_decide as Hb; [exists None; naive_solver|].
  set (terms := match _ with Some p => _ | None => _ end).
  assert (jitter_ok terms.1 ∧ jitter_ok terms.2) as [J1 J2].
  { assert (∀ x, jitter_ok x → jitter_ok (x * REORDER_WINDOW_JITTER_MULTIPLIER)%f64) as Hj
      by (intros x Hx; apply jitter_mul; [done|by eexists _, _|done]).
    unfold terms. destruct (match primary_idx with Some _ => _ | None => _ end) as [p|] eqn:Ep; cbn [fst snd].
    - split; [by split|]. apply Hj. destruct (ls_jitter_ms p) as [x|] eqn:Ex; [|by split].
      destruct primary_idx; [|done]. apply find_some in Ep as [Ep _]. apply list_elem_of_In in Ep.
      rewrite Forall_forall in Hup. by apply (Hup p Ep).
    - split.
      + apply jitter_mul; [|by eexists _, _|done]. apply spread_nonneg, Forall_omap.
        eapply Forall_impl; [exact Hup|]. by intros s [H _].
      + apply Hj, foldl_pick; [apply max_pick|by split|]. apply Forall_omap.
        eapply Forall_impl; [exact Hup|]. by intros s [_ H]. }
  destruct terms as [a b]. cbn [fst snd] in *.
  destruct (clamp_round_between (a + b + REORDER_WINDOW_FLOOR_MS)%f64 lo hi) as (y & -> & Hy); [done..| |].
  { apply jitter_add; [by apply jitter_add|by split]. }
  eexists. cbn. split; [done|]. split; [by intros w [= <-]|]. naive_solver.
Qed.

Lemma hysteresis_ge current : 10 ≤ hysteresis current.
Proof.
  apply to_u64_ge; [lia| |by apply max_ge_r].
  apply max_wf; [|by vm_compute]. apply mul_wf; [apply of_Z_wf|by vm_compute].
Qed.

(** Every window differs from the one before it by more than ten
    milliseconds. *)
Fixpoint moves (current : Z) (ws : list Z) : Prop :=
  match ws with [] => True | w :: ws => 10 < Z.abs (current - w) ∧ moves w ws end.

Lemma reorder_run_ok cfg ticks current :
  0 ≤ reorder_window_min_ms cfg ≤ reorder_window_max_ms cfg →
  reorder_window_max_ms cfg < 2 ^ 53 → Forall (λ t, Forall score_ok t.1.1) ticks →
  ∃ ws c, reorder_run cfg ticks current = Ok (ws, c) ∧
    Forall (λ w, reorder_window_min_ms cfg ≤ w ≤ reorder_window_max_ms cfg) ws ∧
    c = default current (last ws) ∧ moves current ws.
Proof.
  intros Hb Hm Ht. revert current.
  induction Ht as [|[[scores primary_idx] open] ticks Hs _ IH]; intros current; [by exists [], current|].
  cbn [reorder_run]. unfold reorder_tick.
  destruct (suggest_reorder_ok scores primary_idx _ _ Hb Hm Hs) as (r & -> & Hr & _).
  cbn [mbind outcome_bind]. destruct r as [s|]; [|apply IH].
  destruct (Z.ltb_spec (hysteresis current) (Z.abs (current - s))) as [Hh|]; [|apply IH].
  cbn [mbind outcome_bind]. destruct open; [|by exists [], current].
  destruct (IH s) as (ws & c & -> & Hws & Hc & Hmv). cbn [mbind outcome_bind]. exists (s :: ws), c. split; [done|].
  split; [by constructor; [apply Hr|]|]. split.
  - rewrite last_cons, Hc. by destruct (last ws).
  - split; [|done]. pose proof (hysteresis_ge current). lia.
Qed.

(** The windows the pipeline is told of. *)
Definition event_window (ev : Z * RxEvent) : option Z :=
  match ev.2 with EvSetReorderWindow ms => Some ms | _ => None end.
Definition step_windows (st : pipe_step) : list Z :=
  match st with Batch events _ _ => omap event_window events | _ => [] end.

Section window.
Context `{!HashIter} (primary_is_set : nat → bool) (fec_on : bool).

Lemma drain_loop_window now q r : window (drain_loop now q r).1 = window r.
Proof.
  revert r. induction q as [|[seq [sent_at payload]] rest IH]; intros r; [done|].
  cbn [drain_loop]. specialize (IH (drain_one now seq sent_at r rest)).
  by destruct (drain_loop _ _ _).
Qed.

Lemma insert_window now seq d r : window (RxPipeline.insert now seq d r) = window r.
Proof. unfold RxPipeline.insert. by destruct (bt_insert _ _ _). Qed.

Lemma rx_deliver_window now seq d p :
  window (reorder (rx_deliver primary_is_set now seq d p)) = window (reorder p).
Proof.
  unfold rx_deliver. destruct (primary_is_set _); [done|]. unfold drain_ready.
  pose proof (drain_loop_window now (pending (RxPipeline.insert now seq d (reorder p)))
                (RxPipeline.insert now seq d (reorder p))) as Hw.
  rewrite insert_window in Hw. by destruct (drain_loop _ _ _).
Qed.

Lemma deliver_recovered_window now frames p :
  window (reorder (deliver_recovered primary_is_set now frames p)) = window (reorder p).
Proof.
  revert p. induction frames as [|[seq d] frames IH]; intros p; [done|]. cbn [deliver_recovered].
  by rewrite IH, rx_deliver_window.
Qed.

Lemma handle_event_window now ev p :
  window (reorder (handle_event primary_is_set fec_on now ev p)) =
  match event_window (now, ev) with Some ms => millis ms | None => window (reorder p) end.
Proof.
  destruct ev as [seq d|kind parity|ms]; cbn [event_window snd]; [| |done].
  - unfold handle_event. destruct fec_on; cbn [andb].
    + destruct (observe_data _ _ _ _) as [b fresh]. destruct fresh; cbn [negb]; [|done].
      destruct (has_late_recoveries _); [|by rewrite rx_deliver_window].
      destruct (take_late_recoveries _) as [b' late]. rewrite deliver_recovered_window.
      cbn [set_fec reorder]. by rewrite rx_deliver_window.
    + apply rx_deliver_window.
  - unfold handle_event. destruct (try_recover _ _ _ _) as [b oc].
    destruct oc; try done. by rewrite deliver_recovered_window.
Qed.

Lemma events_window events p :
  window (reorder (foldl (λ p ev, handle_event primary_is_set fec_on ev.1 ev.2 p) p events)) =
  match last (omap event_window events) with Some ms => millis ms | None => window (reorder p) end.
Proof.
  revert p. induction events as [|[now ev] events IH]; intros p; [done|]. cbn [foldl fst snd].
  rewrite IH, handle_event_window. cbn [omap list_omap].
  destruct (event_window (now, ev)); [|done]. rewrite last_cons. by destruct (last _).
Qed.

Lemma pipeline_step_window st p :
  window (reorder (pipeline_step primary_is_set fec_on st p)) =
  match last (step_windows st) with Some ms => millis ms | None => window (reorder p) end.
Proof.
  destruct st as [events rx_len busy_ns|now|now|]; cbn [step_windows last].
  - cbn [pipeline_step set_stats reorder]. rewrite events_window. done.
  - cbn [pipeline_step]. unfold drain_ready.
    pose proof (drain_loop_window now (pending (reorder p)) (reorder p)) as Hw.
    by destruct (drain_loop _ _ _).
  - cbn [pipeline_step]. destruct fec_on; [|done]. destruct (FecRecovery.tick _ _) as [b n].
    by destruct (0 <? n).
  - cbn [pipeline_step]. by destruct (0 <? dropped p).
Qed.

Lemma pipeline_window steps p :
  window (reorder (foldl (λ p st, pipeline_step primary_is_set fec_on st p) p steps)) =
  match last (concat (step_windows <$> steps)) with
  | Some ms => millis ms | None => window (reorder p) end.
Proof.
  revert p. induction steps as [|st steps IH]; intros p; [done|]. cbn [foldl].
  rewrite IH, pipeline_step_window. cbn [fmap list_fmap concat]. rewrite last_app.
  by destruct (last (concat _)).
Qed.
End window.

(** The reorder window tuner never panics; every window it sends is
    between the configured bounds and more than ten milliseconds away from the
    one before it; and the window it believes in effect is the pipeline's, for
    any run of the pipeline that started with the configured window and
    received what was sent. *)
Theorem reorder_tuning_tracks `{!HashIter} cfg ticks primary_is_set fec_on b steps :
  0 ≤ reorder_window_min_ms cfg ≤ reorder_window_max_ms cfg →
  reorder_window_max_ms cfg < 2 ^ 53 → Forall (λ t, Forall score_ok t.1.1) ticks →
  ∃ ws current, reorder_tuning_loop cfg ticks = Ok (ws, current) ∧
    Forall (λ w, reorder_window_min_ms cfg ≤ w ≤ reorder_window_max_ms cfg) ws ∧
    moves (reorder_window_ms cfg) ws ∧
    (concat (step_windows <$> steps) = ws →
     window (reorder (foldl (λ p st, pipeline_step primary_is_set fec_on st p)
                        (pipeline_new (reorder_window_ms cfg) b) steps)) = millis current).
Proof.
  intros Hb Hm Ht. unfold reorder_tuning_loop.
  destruct (auto_tune_reorder_window cfg).
  - destruct (reorder_run_ok cfg ticks (reorder_window_ms cfg) Hb Hm Ht) as (ws & c & -> & Hw & Hc & Hmv).
    exists ws, c. split; [done|]. split; [done|]. split; [done|]. intros E.
    rewrite pipeline_window, E, Hc. by destruct (last ws).
  - eexists [], _. split; [done|]. split; [done|]. split; [done|]. intros E.
    by rewrite pipeline_window, E.
Qed.

(** ** Examples *)

Module tuning_example.

(** The defaults with every tuner on, and given smoothing bounds. *)
Definition tuned_cfg (lo hi : f64) : SchedulerConfig :=
  mkSchedulerConfig 5 3 50 (f64.lit 2 10) false false 8 1 Scheduler false false
    true 10 500 true 2000 true lo hi false 300 2 1800.
Definition cfg : SchedulerConfig := tuned_cfg (f64.lit 5 100) (f64.lit 5 10).
Definition lc : LinkConfig := sample_link "wan0".
Definition fresh : Tuned := Tuned_new lc (f64.lit 2 10) 0 0.

Lemma tuning_disciplined_witness :
  ∃ t' timer, tune cfg lc fresh = Ok (t', timer) ∧
    interval_spec cfg lc fresh t' ∧ alpha_spec cfg fresh t' ∧
    probe_interval_ms lc ≤ effective_probe_interval_ms t' ≤ probe_interval_max_ms cfg ∧
    alphas (tuned_stats t') = replicate 5 (effective_ewma_alpha t') ∧
    timer = (if effective_probe_interval_ms t' =? effective_probe_interval_ms fresh
             then None else Some (effective_probe_interval_ms t')).
Proof.
  apply (tuning_disciplined cfg lc (f64.lit 2 10) fresh);
    [by vm_compute..|apply tuned_start].
Defined.

Definition up_score (i : nat) (rtt jitter : Z) : LinkScore :=
  mkScore i Up false f64.one None (Some (f64.of_Z rtt)) (Some (f64.of_Z jitter)) None None None 0.

(** Links 20 and 90 ms away: half as much again as the spread, four times the
    jitter, and ten. *)
Example suggested_window :
  suggest_reorder_window_ms [up_score 0 20 5; up_score 1 90 10] None 10 500 = Ok (Some 155).
Proof. vm_compute. reflexivity. Qed.

Example suggested_window_single :
  suggest_reorder_window_ms [up_score 0 20 5] None 10 500 = Ok (Some 30).
Proof. vm_compute. reflexivity. Qed.

Definition ticks : list (list LinkScore * option nat * bool) :=
  [([up_score 0 20 5; up_score 1 90 10], None, true); ([up_score 0 20 5], Some 0%nat, true)].

Lemma reorder_tuning_tracks_witness :
  ∃ ws current, reorder_tuning_loop cfg ticks = Ok (ws, current) ∧
    Forall (λ w, reorder_window_min_ms cfg ≤ w ≤ reorder_window_max_ms cfg) ws ∧
    moves (reorder_window_ms cfg) ws ∧
    (concat (step_windows <$>
       [Batch [(0, EvSetReorderWindow 155)] 0 0; FlushTick 1; Batch [(2, EvSetReorderWindow 30)] 0 0]) = ws →
     window (reorder (foldl (λ p st, @pipeline_step list_iter (λ _, false) false st p)
        (pipeline_new (reorder_window_ms cfg) (FecRecoveryBuffer_new 1 0))
        [Batch [(0, EvSetReorderWindow 155)] 0 0; FlushTick 1; Batch [(2, EvSetReorderWindow 30)] 0 0]))
       = millis current).
Proof.
  assert (∀ i r j, 0 ≤ r → 0 ≤ j → is_finite (f64.of_Z r) = true → score_ok (up_score i r j)) as Hs.
  { intros i r j Hr Hj Hf. split; intros x [= <-].
    - split; [apply of_Z_wf|]. split; [exact Hf|by apply nonneg_of_Z].
    - split; [apply of_Z_wf|by apply nonneg_of_Z]. }
  apply (@reorder_tuning_tracks list_iter cfg ticks (λ _, false) false (FecRecoveryBuffer_new 1 0));
    [by vm_compute..|].
  repeat first [apply Forall_nil; exact I|apply Forall_cons; split|apply Hs; [lia|lia|by vm_compute]].
Defined.

Example tuned_windows : reorder_tuning_loop cfg ticks = Ok ([155; 30], 30).
Proof. vm_compute. reflexivity. Qed.

(** An upper bound that is not a number passes the check of the bounds, and a
    sweep without a miss then panics. *)
Lemma nan_bound_panics :
  validate_scheduler (λ _, "NaN") (tuned_cfg (f64.lit 5 100) S754_nan) = Ok tt ∧
  tune (tuned_cfg (f64.lit 5 100) S754_nan) lc fresh = Panic.
Proof. split; by vm_compute. Qed.

(** An interval of one millisecond never grows. *)
Example one_never_grows : suggest_probe_interval_ms 1 2000 1 10 0 = Ok 1.
Proof. vm_compute. reflexivity. Qed.

End tuning_example.
