(* ===== verification/Bandwidth.v ===== *)
(** * Bandwidth measurement ([tunnel.rs], [control.rs])

    The paced test stream and the state that measures it at the other end, the
    registry that routes results to whoever waits for them, the ramp that
    looks for a link's ceiling, and [active_bandwidth_prober], which caches
    that ceiling with the link. What a step of the ramp measured is an answer
    given to the model. *)

From Stdlib Require Import SpecFloat.
From S2P Require Import Prelude Bytes F64 Rounding ExactInt Configuration Protocol ProbeHistory Link.

(** ** Who waits for a result *)

(** A waiter's channel: whether its receiver is gone, and what it was sent. *)
Record channel := mkChan { closed : bool; sent : list f64 }.

(** [waiters] maps a test to a channel; the channels are numbered in the order
    they were made. *)
Record ThroughputTestContext := mkCtx {
  waiters : gmap Z nat; channels : list channel }.

Definition ThroughputTestContext_new : ThroughputTestContext := mkCtx ∅ [].

Definition is_closed (cs : list channel) (c : nat) : bool :=
  match cs !! c with Some ch => closed ch | None => true end.

Definition register_wait (test_id : Z) (x : ThroughputTestContext)
    : ThroughputTestContext * nat :=
  let open := filter (λ kv, is_closed (channels x) kv.2 = false) (waiters x) in
  (mkCtx (<[test_id := length (channels x)]> open) (channels x ++ [mkChan false []]),
   length (channels x)).

Definition send (v : f64) (ch : channel) : channel :=
  if closed ch then ch else mkChan false (sent ch ++ [v]).

Definition forward_result (test_id : Z) (achieved_mbps : f64) (x : ThroughputTestContext)
    : ThroughputTestContext :=
  match waiters x !! test_id with
  | Some c => mkCtx (delete test_id (waiters x)) (alter (send achieved_mbps) c (channels x))
  | None => x
  end.

(** The receiver of a channel is dropped. *)
Definition forget_waiter (c : nat) (x : ThroughputTestContext) : ThroughputTestContext :=
  mkCtx (waiters x) (alter (λ ch, mkChan true (sent ch)) c (channels x)).

(** ** The receiving side *)

Record ThroughputTestReceiveState := mkReceive {
  test_id : option Z;
  first_seen : Z;
  last_data_at : option Z;
  bytes_seen : Z;
  last_completed_test_id : option Z }.

Definition ThroughputTestReceiveState_new (now : Z) : ThroughputTestReceiveState :=
  mkReceive None now None 0 None.

Definition compute_achieved_mbps (bytes : Z) (elapsed_secs : f64) : f64 :=
  ((f64.of_Z bytes * f64.of_Z 8) / f64.max elapsed_secs (f64.lit 1 1000000)
   / f64.of_Z 1000000)%f64.

Definition receive_elapsed_secs (first : Z) (last_data : option Z) (done_arrived_at : Z) : f64 :=
  f64.as_secs_f64 (sat_sub (default done_arrived_at last_data) first).

(** A [ThroughputTestData] frame of [frame_len] bytes for test [id]: the new
    state, and the rate when the frame completed the stream. The clock is read
    when a stream starts, when a packet that is not the last is noted, and
    when the rate is computed. *)
Definition on_test_data (now now' now'' id : Z) (done : bool) (frame_len : Z)
    (s : ThroughputTestReceiveState) : ThroughputTestReceiveState * option f64 :=
  if bool_decide (last_completed_test_id s = Some id) then (s, None) else
  let s := if bool_decide (test_id s = Some id) then s
           else mkReceive (Some id) now None 0 (last_completed_test_id s) in
  let s := mkReceive (test_id s) (first_seen s) (last_data_at s)
             (wrap 64 (bytes_seen s + frame_len)) (last_completed_test_id s) in
  if done then
    let mbps := compute_achieved_mbps (bytes_seen s)
                  (receive_elapsed_secs (first_seen s) (last_data_at s) now'') in
    (mkReceive None (first_seen s) (last_data_at s) (bytes_seen s) (Some id), Some mbps)
  else (mkReceive (test_id s) (first_seen s) (Some now') (bytes_seen s)
          (last_completed_test_id s), None).

(** ** The ramp *)

Record RampStep := mkRampStep { target_mbps : f64; achieved_mbps : option f64; clean : bool }.
Record RampResult := mkRampResult { steps : list RampStep; confirmed_mbps : f64 }.

Definition RAMP_START_MBPS : f64 := f64.of_Z 2.
Definition RAMP_DOUBLING_FACTOR : f64 := f64.of_Z 2.
Definition RAMP_MAX_STEPS : nat := 12.
Definition RAMP_SUCCESS_THRESHOLD : f64 := f64.lit 9 10.
Definition RAMP_BACKOFF_FACTOR : f64 := f64.lit 8 10.

Definition step_clean (target : f64) (achieved : option f64) : bool :=
  match achieved with
  | Some a => (RAMP_SUCCESS_THRESHOLD * target <=? a)%f64
  | None => false
  end.

Definition or_else {A} (a b : option A) : option A := match a with Some _ => a | None => b end.

(** The loop with [n] rounds left; [run_step k] answers the [k]th step. *)
Fixpoint ramp_loop (run_step : nat → f64 → option f64) (n k : nat) (target : f64)
    (last_clean : option f64) (done : list RampStep) : RampResult :=
  match n with
  | O => mkRampResult done
           (default RAMP_START_MBPS (last done ≫= achieved_mbps))
  | S n =>
      let achieved := run_step k target in
      let c := step_clean target achieved in
      let done := done ++ [mkRampStep target achieved c] in
      if c then ramp_loop run_step n (S k) (target * RAMP_DOUBLING_FACTOR)%f64 achieved done
      else mkRampResult done (default target (or_else last_clean achieved) * RAMP_BACKOFF_FACTOR)%f64
  end.

Definition adaptive_bandwidth_ramp (run_step : nat → f64 → option f64) : RampResult :=
  ramp_loop run_step RAMP_MAX_STEPS 0 RAMP_START_MBPS None [].

Definition got_real_measurement (r : RampResult) : bool :=
  existsb (λ s, bool_decide (is_Some (achieved_mbps s))) (steps r).

(** [run_throughput_test_leg_upload]: the confirmed rate and the trace. *)
Definition run_throughput_test_leg_upload (run_step : nat → f64 → option f64)
    : option f64 * list (f64 * option f64) :=
  let result := adaptive_bandwidth_ramp run_step in
  (if got_real_measurement result then Some (confirmed_mbps result) else None,
   map (λ s, (target_mbps s, achieved_mbps s)) (steps result)).

(** ** The periodic prober *)

Definition ACTIVE_BANDWIDTH_PROBE_RESULT_GRACE : Z := nanos_of_secs 5.
Definition REVERSE_LEG_FALLBACK_MBPS : f64 := f64.of_Z 20.

Definition should_full_ramp (now : Z) (s : LinkStats) (reramp_interval : Z) : bool :=
  match last_ramp_at s with
  | None => true
  | Some t =>
      bool_decide (confirmed_ceiling_mbps s = None) || (2 <=? consecutive_verify_misses s)
      || (reramp_interval <=? sat_sub now t)
  end.

Definition ramp_result_still_valid (current_state : LinkState) (current_since before : Z) : bool :=
  bool_decide (current_state = Up) && (current_since =? before).

Definition set_bandwidth (a : Ewma) (c : option f64) (ramp : option Z) (v : Z) (s : LinkStats)
    : LinkStats :=
  mkLinkStats (rtt_ms s) (jitter_ms s) (loss_rate s) (rx_throughput_mbps s)
    (tx_throughput_mbps s) a c ramp v (last_rtt_ms s) (consecutive_misses s)
    (consecutive_hits s) (probe_window s) (down_transitions s) (rx_bytes_since_last_sample s)
    (last_rx_throughput_sample s) (tx_bytes_since_last_sample s) (last_tx_throughput_sample s)
    (tx_bytes s) (rx_bytes s) (tx_packets s) (rx_packets s).

(** After a full ramp that started when the link's [state_since] was
    [before]. *)
Definition commit_ramp (now before : Z) (result : RampResult) (l : Link) : Link :=
  if negb (got_real_measurement result) then l
  else if negb (ramp_result_still_valid (state l) (state_since l) before) then l
  else with_stats (λ s,
         set_bandwidth (Ewma_update (confirmed_mbps result) (active_bandwidth_mbps s))
           (Some (confirmed_mbps result)) (Some now) 0 s) l.

(** After a single step at the cached rate. *)
Definition commit_verify (cached : f64) (achieved : option f64) (l : Link) : Link :=
  with_stats (λ s,
    set_bandwidth
      (match achieved with Some a => Ewma_update a (active_bandwidth_mbps s)
                         | None => active_bandwidth_mbps s end)
      (confirmed_ceiling_mbps s) (last_ramp_at s)
      (if step_clean cached achieved then 0 else wrap 32 (consecutive_verify_misses s + 1)) s) l.

(** What a tick starts, from the link as it is then: nothing without a peer
    address, a full ramp, or one step at the cached rate. *)
Inductive measurement := FullRamp (before : Z) | Verify (cached : f64).

Definition prober_begin (now : Z) (cfg : SchedulerConfig) (has_remote : bool) (l : Link)
    : option measurement :=
  if negb has_remote then None
  else if should_full_ramp now (stats l) (nanos_of_secs (active_bandwidth_reramp_interval_secs cfg))
  then Some (FullRamp (state_since l))
  else Verify <$> confirmed_ceiling_mbps (stats l).

(** What it does with the link when the measurement is over; the single step
    of a verification is the ramp's first answer. *)
Definition prober_end (now : Z) (m : measurement) (run_step : nat → f64 → option f64) (l : Link)
    : Link :=
  match m with
  | FullRamp before => commit_ramp now before (adaptive_bandwidth_ramp run_step) l
  | Verify cached => commit_verify cached (run_step 0%nat cached) l
  end.

(** The pace a peer's reverse stream is sent at. *)
Definition reverse_target_mbps (l : Link) : f64 :=
  default REVERSE_LEG_FALLBACK_MBPS
    (or_else (confirmed_ceiling_mbps (stats l)) (bandwidth_cap_mbps (config l))).

(** ** The test stream *)

Definition THROUGHPUT_TEST_DONE_RETRY_DELAY : Z := 250 * 1000000.

(** [Duration::from_secs_f64] of a number that is not negative: nanoseconds,
    to the nearest, halves to even; it panics past [u64::MAX] seconds. *)
Definition div_nearest_even (a b : Z) : Z :=
  let q := a / b in
  match (2 * (a mod b) ?= b) with
  | Lt => q | Gt => q + 1 | Eq => if Z.even q then q else q + 1
  end.
Definition from_secs_f64 (x : f64) : outcome Z :=
  match x with
  | S754_zero _ => Ok 0
  | S754_finite false m e =>
      let ns := if 0 <=? e then Zpos m * 2 ^ e * 1000000000
                else div_nearest_even (Zpos m * 1000000000) (2 ^ (- e)) in
      if ns / 1000000000 <? 2 ^ 64 then Ok ns else Panic
  | _ => Panic
  end.

Definition target_elapsed_for_bytes (bytes_sent : Z) (target : f64) : outcome Z :=
  let bits := (f64.of_Z bytes_sent * f64.of_Z 8)%f64 in
  let secs := (bits / (f64.max target (f64.lit 1 1000) * f64.of_Z 1000000))%f64 in
  from_secs_f64 (f64.max secs f64.zero).

(** A round of the stream's loop reads the live MTU, the clock before the
    packet and, unless it is the last, the clock after it. *)
Record stream_round := mkRound { r_mtu : Z; r_before : Z; r_after : Z }.

Definition stream_payload_len (mtu : Z) : Z :=
  Z.max mtu (Z.of_nat TestData_HEADER_LEN).

(** What the stream does: packets (whether the final one, and the length of
    the payload), and sleeps. *)
Inductive stream_act := SendPacket (done : bool) (payload_len : Z) | Sleep (ns : Z).

Definition final_copies (payload_len : Z) : list stream_act :=
  SendPacket true payload_len ::
  concat (replicate 2 [Sleep THROUGHPUT_TEST_DONE_RETRY_DELAY; SendPacket true payload_len]).

(** The loop for the rounds given, until the deadline; whether it returned. *)
Fixpoint stream_loop (deadline start : Z) (target : f64) (rounds : list stream_round)
    (bytes_sent : Z) : outcome (list stream_act * bool) :=
  match rounds with
  | [] => Ok ([], false)
  | r :: rounds =>
      let n := stream_payload_len (r_mtu r) in
      let bytes_sent := wrap 64 (bytes_sent + n) in
      if deadline <=? r_before r then Ok (final_copies n, true)
      else
        target_elapsed ← target_elapsed_for_bytes bytes_sent target;
        let actual := sat_sub (r_after r) start in
        let nap := if actual <? target_elapsed then [Sleep (target_elapsed - actual)] else [] in
        '(acts, fin) ← stream_loop deadline start target rounds bytes_sent;
        Ok (SendPacket false n :: nap ++ acts, fin)
  end.

Definition send_throughput_test_stream (now now' duration : Z) (target : f64)
    (rounds : list stream_round) : outcome (list stream_act * bool) :=
  stream_loop (now + duration) now' target rounds 0.

(** ** Results reach their waiter *)

Inductive ctx_op := Register (id : Z) | Forward (id : Z) (v : f64) | GiveUp (c : nat).

Definition ctx_step (x : ThroughputTestContext) (op : ctx_op) : ThroughputTestContext :=
  match op with
  | Register id => (register_wait id x).1
  | Forward id v => forward_result id v x
  | GiveUp c => forget_waiter c x
  end.

(** What channel [c], which waits for test [id], is sent by what happens next:
    the first result for [id], unless its receiver is gone by then or another
    waiter has taken its place. *)
Fixpoint awaited (id : Z) (c : nat) (ops : list ctx_op) : list f64 :=
  match ops with
  | [] => []
  | Register id' :: ops => if id' =? id then [] else awaited id c ops
  | Forward id' v :: ops => if id' =? id then [v] else awaited id c ops
  | GiveUp c' :: ops => if (c' =? c)%nat then [] else awaited id c ops
  end.

Definition content (x : ThroughputTestContext) (c : nat) : option (list f64) :=
  sent <$> channels x !! c.

(** No channel waits for two tests, and every waiter has its channel. *)
Record ctx_inv (x : ThroughputTestContext) : Prop := {
  ci_injective : ∀ i j c, waiters x !! i = Some c → waiters x !! j = Some c → i = j;
  ci_bound : ∀ i c, waiters x !! i = Some c → (c < length (channels x))%nat }.

Lemma ctx_inv_new : ctx_inv ThroughputTestContext_new.
Proof. split; intros *; cbn; rewrite lookup_empty; done. Qed.

Lemma register_waiters id x i c :
  waiters (register_wait id x).1 !! i = Some c →
  (i = id ∧ c = length (channels x)) ∨
  (i ≠ id ∧ waiters x !! i = Some c ∧ is_closed (channels x) c = false).
Proof.
  cbn. rewrite lookup_insert_Some, map_lookup_filter_Some. cbn. naive_solver.
Qed.

Lemma forward_waiters id v x i c :
  waiters (forward_result id v x) !! i = Some c → i ≠ id ∧ waiters x !! i = Some c.
Proof.
  unfold forward_result. destruct (waiters x !! id) eqn:E; cbn.
  - rewrite lookup_delete_Some. naive_solver.
  - intros H. split; [congruence|done].
Qed.

Lemma ctx_step_length x op :
  (length (channels x) ≤ length (channels (ctx_step x op)))%nat.
Proof.
  destruct op; cbn; [rewrite length_app; lia| |by rewrite length_alter].
  unfold forward_result. case_match; cbn; [by rewrite length_alter|done].
Qed.

Lemma ctx_inv_step x op : ctx_inv x → ctx_inv (ctx_step x op).
Proof.
  intros [Hi Hb]. pose proof (ctx_step_length x op) as Hl. destruct op as [id|id v|c].
  3: { split; [exact Hi|]. intros i c' H. apply Hb in H. lia. }
  - split.
    + intros i j c [[-> ->]|(? & H1 & _)]%register_waiters [[-> Hc]|(? & H2 & _)]%register_waiters;
        [done|apply Hb in H2; lia|apply Hb in H1; lia|eauto].
    + intros i c [[-> ->]|(? & H1 & _)]%register_waiters; cbn; rewrite length_app; cbn; [lia|].
      apply Hb in H1. lia.
  - split.
    + intros i j c [_ H1]%forward_waiters [_ H2]%forward_waiters. eauto.
    + intros i c [_ H1]%forward_waiters. apply Hb in H1. cbn in Hl. cbn [ctx_step]. lia.
Qed.

(** A channel that waits for nothing, or whose receiver is gone, keeps what it
    has. *)
Definition settled (x : ThroughputTestContext) (c : nat) (l : list f64) : Prop :=
  ∃ b, channels x !! c = Some (mkChan b l) ∧ (b = true ∨ ∀ i, waiters x !! i ≠ Some c).

Lemma alter_send_other v (c c' : nat) (cs : list channel) ch :
  cs !! c = Some ch → (c' = c → closed ch = true) → alter (send v) c' cs !! c = Some ch.
Proof.
  intros H Hc. destruct (decide (c' = c)) as [-> |].
  - rewrite list_lookup_alter_eq, H. cbn. unfold send. by rewrite Hc.
  - by rewrite list_lookup_alter_ne.
Qed.

Lemma settled_step x op c l : settled x c l → settled (ctx_step x op) c l.
Proof.
  intros (b & H & Hb). pose proof (lookup_lt_Some _ _ _ H) as Hlt. destruct op as [id|id v|c'].
  - exists b. split; [by apply lookup_app_l_Some|]. destruct Hb as [-> |Hb]; [by left|].
    right. intros i [[_ Hc]|(_ & Hc & _)]%register_waiters; [lia|by eapply Hb].
  - exists b. split.
    + cbn. unfold forward_result. destruct (waiters x !! id) as [c'|] eqn:E; cbn; [|done].
      apply alter_send_other; [done|]. intros ->. destruct Hb as [-> |Hb]; [done|].
      by apply Hb in E.
    + destruct Hb as [-> |Hb]; [by left|]. right. intros i [_ Hc]%forward_waiters. by eapply Hb.
  - destruct (decide (c' = c)) as [-> |].
    + exists true. cbn. rewrite list_lookup_alter_eq, H. cbn. auto.
    + exists b. cbn. by rewrite list_lookup_alter_ne.
Qed.

Lemma settled_run ops x c l : settled x c l → content (foldl ctx_step x ops) c = Some l.
Proof.
  revert x. induction ops as [|op ops IH]; intros x Hs; [|apply IH; by apply settled_step].
  destruct Hs as (b & H & _). unfold content. cbn. by rewrite H.
Qed.

(** A channel that waits for a test. *)
Definition waiting (x : ThroughputTestContext) (id : Z) (c : nat) : Prop :=
  ctx_inv x ∧ waiters x !! id = Some c ∧ channels x !! c = Some (mkChan false []).

Lemma waiting_run ops x id c :
  waiting x id c → content (foldl ctx_step x ops) c = Some (awaited id c ops).
Proof.
  revert x. induction ops as [|op ops IH]; intros x (Hinv & Hw & Hc).
  { unfold content. cbn. by rewrite Hc. }
  pose proof (ctx_inv_step x op Hinv) as Hinv'. pose proof (lookup_lt_Some _ _ _ Hc) as Hlt.
  destruct Hinv as [Hinj _]. cbn [foldl awaited]. destruct op as [id'|id' v|c'].
  - destruct (Z.eqb_spec id' id) as [-> |Hne].
    + apply settled_run. exists false. split; [by apply lookup_app_l_Some|]. right.
      intros i [[-> Hi]|(Hi & Hi' & _)]%register_waiters; [lia|eauto].
    + apply IH. split; [done|]. split; [|by apply lookup_app_l_Some].
      cbn. rewrite lookup_insert_ne by done. apply map_lookup_filter_Some.
      split; [done|]. cbn. unfold is_closed. by rewrite Hc.
  - cbn [ctx_step] in *. destruct (Z.eqb_spec id' id) as [-> |Hne].
    + apply settled_run. exists false. unfold forward_result. rewrite Hw. cbn.
      rewrite list_lookup_alter_eq, Hc. split; [done|]. right. intros i Hi.
      apply lookup_delete_Some in Hi as [? Hi]. eauto.
    + apply IH. split; [done|]. unfold forward_result.
      destruct (waiters x !! id') as [c'|] eqn:E; cbn; [|done].
      rewrite lookup_delete_ne by done. split; [done|].
      rewrite list_lookup_alter_ne; [done|]. intros ->. by apply Hne, (Hinj id' id c).
  - destruct (Nat.eqb_spec c' c) as [-> |Hne].
    + apply settled_run. exists true. cbn. rewrite list_lookup_alter_eq, Hc. auto.
    + apply IH. split; [done|]. split; [done|]. cbn. by rewrite list_lookup_alter_ne.
Qed.

Lemma ctx_run_inv ops : ctx_inv (foldl ctx_step ThroughputTestContext_new ops).
Proof.
  induction ops as [|op ops IH] using rev_ind; [apply ctx_inv_new|].
  rewrite foldl_app. by apply ctx_inv_step.
Qed.

(** Whatever else is registered, measured or abandoned before and after,
    the channel a waiter gets from [register_wait] is sent the first result
    for its test and nothing else; it is sent nothing only if its receiver was
    dropped or the same test registered again first. Entries whose receiver is
    gone do not survive the next registration. *)
Theorem results_routed before id after :
  let x := foldl ctx_step ThroughputTestContext_new before in
  let '(x', c) := register_wait id x in
  content (foldl ctx_step x' after) c = Some (awaited id c after) ∧
  ∀ i c', waiters x' !! i = Some c' → is_closed (channels x') c' = false.
Proof.
  intros x. cbn. split.
  - apply (waiting_run after (register_wait id x).1). split; [|split].
    + apply (ctx_inv_step x (Register id)), ctx_run_inv.
    + cbn. apply lookup_insert_eq.
    + cbn. rewrite lookup_app_r by lia. by rewrite Nat.sub_diag.
  - intros i c' Hi. unfold is_closed.
    destruct (register_waiters id x i c' Hi) as [[_ ->]|(_ & _ & Hc)].
    + rewrite lookup_app_r by lia. by rewrite Nat.sub_diag.
    + unfold is_closed in Hc. destruct (channels x !! c') eqn:E; [|done].
      by rewrite (lookup_app_l_Some _ _ _ _ E).
Qed.

(** ** A stream is measured once *)

(** The packets of a stream: whether final, and the length of the payload. *)
Definition packets (acts : list stream_act) : list (bool * Z) :=
  omap (λ a, match a with SendPacket d n => Some (d, n) | Sleep _ => None end) acts.

(** The rounds before the deadline, and the one that met it. *)
Fixpoint split_deadline (deadline : Z) (rounds : list stream_round)
    : list stream_round * option stream_round :=
  match rounds with
  | [] => ([], None)
  | r :: rounds =>
      if deadline <=? r_before r then ([], Some r)
      else let '(a, b) := split_deadline deadline rounds in (r :: a, b)
  end.

Definition round_len (r : stream_round) : Z := stream_payload_len (r_mtu r).
Definition lens (rs : list stream_round) : Z := foldr (λ r t, round_len r + t) 0 rs.

Lemma from_secs_returns x : nonneg x → below 64 x → wf x = true → ∃ ns, from_secs_f64 x = Ok ns.
Proof.
  intros [(s & ->)|[-> |(m & e & ->)]]%nonneg_cases Hb Hw; [by eexists|done|].
  cbn [below] in Hb. unfold from_secs_f64. apply wf_bounds in Hw as (He & Hm & _).
  destruct (digits_bounds (Z.pos m) ltac:(lia)) as (Hd & _ & Hd2).
  set (ns := if 0 <=? e then _ else _). rewrite (proj2 (Z.ltb_lt (ns / 1000000000) (2 ^ 64))); [by eexists|].
  apply Z.div_lt_upper_bound; [lia|]. subst ns. destruct (Z.leb_spec 0 e).
  - assert (Z.pos m * 2 ^ e < 2 ^ 64); [|lia].
    eapply Z.lt_le_trans; [apply Z.mul_lt_mono_pos_r; [apply Z.pow_pos_nonneg; lia|exact Hd2]|].
    rewrite <- Z.pow_add_r by lia. apply Z.pow_le_mono_r; lia.
  - assert (div_nearest_even (Z.pos m * 1000000000) (2 ^ (- e)) ≤ Z.pos m * 1000000000 / 2 ^ (- e) + 1).
    { unfold div_nearest_even. repeat case_match; lia. }
    assert (Z.pos m * 1000000000 / 2 ^ (- e) ≤ Z.pos m * 1000000000).
    { apply Z.div_le_upper_bound; [apply Z.pow_pos_nonneg; lia|].
      assert (1 ≤ 2 ^ (- e)) by (pose proof (Z.pow_pos_nonneg 2 (- e)); lia). nia. }
    lia.
Qed.

(** The floor of the pace keeps the time a stream should have taken in
    range. *)
Lemma target_elapsed_returns bytes target :
  0 ≤ bytes < 2 ^ 47 → wf target = true → ∃ ns, target_elapsed_for_bytes bytes target = Ok ns.
Proof.
  intros Hb Hw. unfold target_elapsed_for_bytes.
  set (pace := f64.max target (f64.lit 1 1000)).
  assert (fle (f64.lit 1 1000) pace) as Hp.
  { unfold pace, f64.max. change (f64.is_nan (f64.lit 1 1000)) with false.
    destruct (f64.is_nan target) eqn:Hn; [by apply fle_refl|]. cbn [orb].
    destruct (target <? f64.lit 1 1000)%f64 eqn:E; [by apply fle_refl|]. by apply not_flt. }
  assert (wf pace = true) as Wp by (apply max_wf; [done|by vm_compute]).
  assert (above (-10) pace) as Ap.
  { eapply above_fle; [|exact Wp| |exact Hp]; vm_compute; done. }
  clearbody pace. set (d := (pace * f64.of_Z 1000000)%f64).
  assert (above (-10) d ∧ wf d = true) as [Ad Wd].
  { unfold d. clear d Hp. destruct pace as [|[]| |[] m e]; try done.
    destruct (mul_ge (S754_finite false m e) (f64.of_Z 1000000)) as [H1 H2];
      [by exists m, e|done|by vm_compute..|].
    split; [|done]. by apply (above_fle _ _ _ Wp H2 Ap). }
  clearbody d. set (bits := (f64.of_Z bytes * f64.of_Z 8)%f64).
  assert (below 53 bits) as Hbits.
  { change 53 with (48 + 4 + 1). apply mul_below; [apply of_Z_wf|by vm_compute| |by vm_compute|lia].
    change 48 with (47 + 1). apply of_Z_below; lia. }
  assert (nonneg bits) as Nbits.
  { unfold bits. destruct (Z.eq_dec bytes 0) as [-> |]; [by vm_compute|].
    destruct (of_Z_value bytes) as (m & e & E & _); [lia|].
    apply nonneg_mul; [rewrite E; by exists m, e|by vm_compute]. }
  clearbody bits. assert (nonneg (bits / d)%f64) as Nq.
  { destruct d as [|[]| |[] m e]; [destruct Ad|discriminate Ad| |destruct Ad|destruct Ad|].
    - apply nonneg_cases in Nbits as [([] & E)|[E|(m & e & E)]]; subst bits;
        [reflexivity..|destruct Hbits|reflexivity].
    - apply nonneg_div; [done|by exists m, e]. }
  assert (below 64 (bits / d)%f64) as Bq.
  { change 64 with (53 - (-10) + 1). apply div_below; [exact Hbits|exact Ad|lia]. }
  assert (f64.max (bits / d) f64.zero = (bits / d)%f64 ∨ f64.max (bits / d) f64.zero = f64.zero) as Hm.
  { unfold f64.max. repeat case_match; auto. }
  apply from_secs_returns; destruct Hm as [-> | ->];
    [exact Nq|reflexivity|exact Bq|exact I|apply div_wf|reflexivity].
Qed.

Lemma packets_app a b : packets (a ++ b) = packets a ++ packets b.
Proof. apply omap_app. Qed.

Lemma stream_loop_packets deadline start target rounds b :
  wf target = true → Forall (λ r, 0 ≤ r_mtu r) rounds → 0 ≤ b → b + lens rounds < 2 ^ 47 →
  ∃ acts, stream_loop deadline start target rounds b =
            Ok (acts, bool_decide (is_Some (split_deadline deadline rounds).2)) ∧
    packets acts =
      map (λ r, (false, round_len r)) (split_deadline deadline rounds).1 ++
      match (split_deadline deadline rounds).2 with
      | Some r => replicate 3 (true, round_len r)
      | None => []
      end.
Proof.
  intros Hw Hr. revert b. induction Hr as [|r rounds Hm Hr IH]; intros b Hb Hs; [by exists []|].
  assert (0 ≤ lens rounds) as Hl.
  { clear -Hr. unfold lens. induction Hr as [|r rs ? _ IHr]; cbn; [lia|].
    unfold round_len at 1, stream_payload_len. lia. }
  cbn [stream_loop split_deadline lens foldr] in *. fold (lens rounds) in Hs.
  change (stream_payload_len (r_mtu r)) with (round_len r).
  assert (0 ≤ round_len r) by (unfold round_len, stream_payload_len; lia).
  rewrite wrap_small by (unfold fits; lia).
  destruct (deadline <=? r_before r); [by eexists|].
  destruct (target_elapsed_returns (b + round_len r) target) as (ns & ->); [lia|done|].
  destruct (IH (b + round_len r)) as (acts & -> & Hp); [lia..|].
  cbn [mbind outcome_bind]. destruct (split_deadline deadline rounds) as [rs o]. cbn [fst snd] in *.
  eexists. split; [done|]. cbn. rewrite packets_app, Hp. by destruct (_ <? ns).
Qed.

(** A packet as it arrives: the clock readings and the frame's length. *)
Record arrival := mkArrival { a_start : Z; a_data : Z; a_done : Z; a_packet : bool * Z }.

Definition frame_bytes (a : arrival) : Z := Z.of_nat HEADER_LEN + (a_packet a).2.

Fixpoint feed (id : Z) (rx : list arrival) (s : ThroughputTestReceiveState)
    : ThroughputTestReceiveState * list f64 :=
  match rx with
  | [] => (s, [])
  | a :: rx =>
      let '(s, r) := on_test_data (a_start a) (a_data a) (a_done a) id (a_packet a).1 (frame_bytes a) s in
      let '(s, rs) := feed id rx s in
      (s, option_list r ++ rs)
  end.

Definition total_bytes (l : list arrival) : Z := foldr (λ a t, frame_bytes a + t) 0 l.

(** The rate of a stream of which the data packets [ds] and then a first final
    packet [f] arrived. *)
Definition stream_rate (ds : list arrival) (f : arrival) : f64 :=
  compute_achieved_mbps (wrap 64 (total_bytes ds + frame_bytes f))
    (receive_elapsed_secs (match ds with d :: _ => a_start d | [] => a_start f end)
       (a_data <$> last ds) (a_done f)).

(** A stream in progress takes the data packets in. *)
Lemma feed_progress id ds rest first o b lc :
  lc ≠ Some id → Forall (λ a, (a_packet a).1 = false) ds →
  feed id (ds ++ rest) (mkReceive (Some id) first o (wrap 64 b) lc) =
  feed id rest (mkReceive (Some id) first (or_else (a_data <$> last ds) o)
                  (wrap 64 (b + total_bytes ds)) lc).
Proof.
  intros Hlc Hd. revert o b. induction Hd as [|a ds Ha _ IH]; intros o b.
  { cbn. by rewrite Z.add_0_r. }
  cbn [app feed]. unfold on_test_data. cbn [last_completed_test_id test_id first_seen last_data_at bytes_seen].
  rewrite bool_decide_false by done. rewrite bool_decide_true by done. cbn [test_id first_seen last_data_at bytes_seen].
  rewrite Ha, wrap_add_l. rewrite IH. cbn [total_bytes foldr]. fold (total_bytes ds).
  rewrite last_cons, Z.add_assoc. destruct (last ds); cbn;
    by destruct (feed _ _ _).
Qed.

(** The redundant copies of a finished stream change nothing. *)
Lemma feed_finished id rx s : last_completed_test_id s = Some id → feed id rx s = (s, []).
Proof.
  intros H. induction rx as [|a rx IH]; [done|]. cbn [feed]. unfold on_test_data.
  rewrite bool_decide_true by done. by rewrite IH.
Qed.

Lemma feed_stream id ds fs s :
  last_completed_test_id s ≠ Some id → test_id s ≠ Some id →
  Forall (λ a, (a_packet a).1 = false) ds → Forall (λ a, (a_packet a).1 = true) fs →
  (feed id (ds ++ fs) s).2 = match fs with f :: _ => [stream_rate ds f] | [] => [] end ∧
  (fs ≠ [] → last_completed_test_id (feed id (ds ++ fs) s).1 = Some id).
Proof.
  intros Hl Ht Hd Hf.
  assert (∀ a first o b, (a_packet a).1 = true →
    on_test_data (a_start a) (a_data a) (a_done a) id (a_packet a).1 (frame_bytes a)
      (mkReceive (Some id) first o b (last_completed_test_id s)) =
    (mkReceive None first o (wrap 64 (b + frame_bytes a)) (Some id),
     Some (compute_achieved_mbps (wrap 64 (b + frame_bytes a)) (receive_elapsed_secs first o (a_done a)))))
    as Hfin.
  { intros a first o b Ha. unfold on_test_data. cbn [last_completed_test_id].
    rewrite bool_decide_false by done. cbn [test_id]. rewrite bool_decide_true by done. by rewrite Ha. }
  assert (∀ a, on_test_data (a_start a) (a_data a) (a_done a) id (a_packet a).1 (frame_bytes a) s =
               on_test_data (a_start a) (a_data a) (a_done a) id (a_packet a).1 (frame_bytes a)
                 (mkReceive (Some id) (a_start a) None 0 (last_completed_test_id s))) as Hstart.
  { intros a. unfold on_test_data. cbn [last_completed_test_id]. rewrite !bool_decide_false by done.
    cbn [test_id]. rewrite bool_decide_true by done. done. }
  assert (∀ d l, feed id (d :: l) s =
            feed id (d :: l) (mkReceive (Some id) (a_start d) None (wrap 64 0) (last_completed_test_id s)))
    as Hfirst by (intros d l; cbn [feed]; by rewrite Hstart).
  assert (∀ f fs' first o b, (a_packet f).1 = true →
    feed id (f :: fs') (mkReceive (Some id) first o (wrap 64 b) (last_completed_test_id s)) =
    (mkReceive None first o (wrap 64 (b + frame_bytes f)) (Some id),
     [compute_achieved_mbps (wrap 64 (b + frame_bytes f)) (receive_elapsed_secs first o (a_done f))]))
    as Hend.
  { intros f fs' first o b Ha. cbn [feed]. rewrite Hfin by done. rewrite wrap_add_l.
    by rewrite feed_finished. }
  destruct ds as [|d ds].
  - destruct fs as [|f fs]; [done|]. apply Forall_cons in Hf as [Hf _]. cbn [app].
    rewrite Hfirst, (Hend f fs) by done. done.
  - cbn [app]. rewrite Hfirst. change (d :: ds ++ fs) with ((d :: ds) ++ fs).
    rewrite feed_progress by done. destruct fs as [|f fs]; [done|].
    apply Forall_cons in Hf as [Hf _]. rewrite (Hend f fs) by done. unfold stream_rate.
    rewrite Z.add_0_l. destruct (last (d :: ds)) eqn:E; [done|].
    by rewrite last_None in E.
Qed.

(** What arrives of packets that come in order splits like them. *)
Lemma sublist_split {A B} (g : B → A) (rx : list B) (xs ys : list A) :
  sublist (g <$> rx) (xs ++ ys) →
  ∃ ds fs, rx = ds ++ fs ∧ sublist (g <$> ds) xs ∧ sublist (g <$> fs) ys.
Proof.
  intros (k1 & k2 & E & H1 & H2)%sublist_app_r.
  apply fmap_app_inv in E as (ds & fs & -> & -> & ->). eauto.
Qed.

Lemma sublist_Forall {A} (P : A → Prop) l k : sublist l k → Forall P k → Forall P l.
Proof. induction 1; inversion 1; subst; auto. Qed.

(** A test stream makes one measurement. The sender never panics; it sends
    data packets until its deadline and then three final packets; and whatever
    part of them arrives in order, a receiver that was not already at this
    test reports exactly one rate when any of the final copies arrived (the
    bytes up to and with the first of them, over the time from the first
    packet to the last data packet), and none otherwise. *)
Theorem stream_measured_once now now' duration target rounds id rx s :
  wf target = true → Forall (λ r, 0 ≤ r_mtu r) rounds → lens rounds < 2 ^ 47 →
  last_completed_test_id s ≠ Some id → test_id s ≠ Some id →
  ∃ acts,
    send_throughput_test_stream now now' duration target rounds =
      Ok (acts, bool_decide (is_Some (split_deadline (now + duration) rounds).2)) ∧
    (sublist (a_packet <$> rx) (packets acts) →
     ∃ ds fs, rx = ds ++ fs ∧ Forall (λ a, (a_packet a).1 = false) ds ∧
       Forall (λ a, (a_packet a).1 = true) fs ∧
       (feed id rx s).2 = match fs with f :: _ => [stream_rate ds f] | [] => [] end).
Proof.
  intros Hw Hr Hlen Hl Ht. unfold send_throughput_test_stream.
  destruct (stream_loop_packets (now + duration) now' target rounds 0 Hw Hr) as (acts & -> & Hp);
    [lia..|].
  exists acts. split; [done|]. rewrite Hp. intros Hsub.
  destruct (sublist_split a_packet _ _ _ Hsub) as (ds & fs & -> & H1 & H2).
  assert (Forall (λ p : bool * Z, p.1 = false) (a_packet <$> ds)) as Hd.
  { eapply sublist_Forall; [exact H1|]. apply Forall_map, Forall_true. done. }
  assert (Forall (λ p : bool * Z, p.1 = true) (a_packet <$> fs)) as Hf.
  { eapply sublist_Forall; [exact H2|]. destruct (split_deadline _ _).2; [|done].
    by apply Forall_replicate. }
  apply Forall_fmap in Hd, Hf. exists ds, fs. split; [done|]. split; [done|]. split; [done|].
  by apply feed_stream.
Qed.

(** ** The ramp *)

(** The [k]th step: its rate doubles from 2 Mbps. *)
Definition rate_of (k : nat) : f64 := f64.of_Z (2 ^ (Z.of_nat k + 1)).
Definition ramp_step_of (run_step : nat → f64 → option f64) (k : nat) : RampStep :=
  let a := run_step k (rate_of k) in mkRampStep (rate_of k) a (step_clean (rate_of k) a).

(** How many of the steps from [k] on, at most [n], are clean before one is
    not. *)
Fixpoint clean_run (run_step : nat → f64 → option f64) (n k : nat) : nat :=
  match n with
  | O => 0
  | S n => if clean (ramp_step_of run_step k) then S (clean_run run_step n (S k)) else 0
  end.

Lemma clean_run_le run_step n k : (clean_run run_step n k ≤ n)%nat.
Proof. revert k. induction n as [|n IH]; intros k; cbn; [done|]. case_match; [|lia]. specialize (IH (S k)). lia. Qed.

Lemma rate_doubles k : (k < 12)%nat → (rate_of k * RAMP_DOUBLING_FACTOR)%f64 = rate_of (S k).
Proof. intros Hk. do 12 (destruct k as [|k]; [by vm_compute|]). lia. Qed.

Lemma clean_achieved run_step k :
  clean (ramp_step_of run_step k) = true → ∃ a, run_step k (rate_of k) = Some a.
Proof. unfold ramp_step_of. cbn. destruct (run_step k (rate_of k)); [eauto|done]. Qed.

(** What the ramp confirms after [c] clean steps in a row. *)
Definition ramp_confirmed (run_step : nat → f64 → option f64) (c : nat) : f64 :=
  match c with
  | O => (default (rate_of 0) (run_step 0%nat (rate_of 0)) * RAMP_BACKOFF_FACTOR)%f64
  | S k =>
      let a := default RAMP_START_MBPS (run_step k (rate_of k)) in
      if (c =? RAMP_MAX_STEPS)%nat then a else (a * RAMP_BACKOFF_FACTOR)%f64
  end.

Lemma ramp_loop_spec run_step n k :
  (n + k = 12)%nat → (∀ j, (j < k)%nat → clean (ramp_step_of run_step j) = true) →
  let c := (k + clean_run run_step n k)%nat in
  ramp_loop run_step n k (rate_of k)
    (match k with O => None | S j => run_step j (rate_of j) end)
    (map (ramp_step_of run_step) (List.seq 0 k)) =
  mkRampResult (map (ramp_step_of run_step) (List.seq 0 (Nat.min 12 (S c)))) (ramp_confirmed run_step c).
Proof.
  revert k. induction n as [|n IH]; intros k Hk Hc; cbn zeta.
  - cbn [ramp_loop clean_run]. replace k with 12%nat by lia.
    reflexivity.
  - cbn [ramp_loop clean_run].
    change (step_clean (rate_of k) (run_step k (rate_of k))) with (clean (ramp_step_of run_step k)).
    change (mkRampStep _ _ (clean (ramp_step_of run_step k))) with (ramp_step_of run_step k).
    assert (map (ramp_step_of run_step) (List.seq 0 k) ++ [ramp_step_of run_step k] =
            map (ramp_step_of run_step) (List.seq 0 (S k))) as ->.
    { rewrite List.seq_S, List.map_app. done. }
    destruct (clean (ramp_step_of run_step k)) eqn:E.
    + rewrite rate_doubles by lia. specialize (IH (S k)). cbn zeta in IH.
      rewrite IH; [|lia|].
      * by replace (S k + clean_run run_step n (S k))%nat with (k + S (clean_run run_step n (S k)))%nat by lia.
      * intros j Hj. destruct (decide (j = k)) as [-> |]; [done|]. apply Hc. lia.
    + rewrite Nat.add_0_r. rewrite Nat.min_r by lia. f_equal.
      destruct k as [|j]; [done|]. cbn [ramp_confirmed].
      destruct (Nat.eqb_spec (S j) RAMP_MAX_STEPS) as [Ej|]; [unfold RAMP_MAX_STEPS in Ej; lia|].
      destruct (clean_achieved run_step j) as (a & Ea); [apply Hc; lia|]. by rewrite Ea.
Qed.

(** The ramp ends after at most twelve steps, at 2, 4, 8 and so on Mbps,
    the first that is not clean being the last; it confirms the rate achieved
    at the twelfth when all were clean, and otherwise four fifths of the rate
    achieved at the last clean step (of the first step's own rate when there
    is none). *)
Theorem ramp_finds_ceiling run_step :
  let c := clean_run run_step 12 0 in
  adaptive_bandwidth_ramp run_step =
    mkRampResult (map (ramp_step_of run_step) (List.seq 0 (Nat.min 12 (S c))))
      (ramp_confirmed run_step c) ∧
  (∀ k, (k < c)%nat → clean (ramp_step_of run_step k) = true) ∧
  (c < 12 → clean (ramp_step_of run_step c) = false)%nat.
Proof.
  intros c. split; [exact (ramp_loop_spec run_step 12 0 eq_refl ltac:(lia))|].
  assert (∀ n k, (∀ j, (j < clean_run run_step n k)%nat → clean (ramp_step_of run_step (k + j)) = true) ∧
    (clean_run run_step n k < n → clean (ramp_step_of run_step (k + clean_run run_step n k)) = false)%nat)
    as H.
  { induction n as [|n IH]; intros k; cbn [clean_run]; [split; lia|].
    destruct (clean (ramp_step_of run_step k)) eqn:E.
    - destruct (IH (S k)) as [H1 H2]. split.
      + intros [|j] Hj; [by rewrite Nat.add_0_r|]. rewrite Nat.add_succ_r. apply H1. lia.
      + intros Hn. rewrite Nat.add_succ_r. apply H2. lia.
    - split; [lia|]. by rewrite Nat.add_0_r. }
  destruct (H 12%nat 0%nat) as [H1 H2]. by split.
Qed.

(** ** The cached ceiling is of the present *)

(** What the link's other tasks do to it, in any order with the prober's
    measurements: [now] is the time, [flight] the measurement under way with
    the time it began, [src] where the cached ceiling came from. *)
Inductive link_reach (cfg : SchedulerConfig)
    : Z → Link → option (Z * measurement) → option (Z * RampResult) → Prop :=
  | reach_start now l :
      confirmed_ceiling_mbps (stats l) = None → state_since l ≤ now →
      link_reach cfg now l None None
  | reach_probe now l flight src op t :
      link_reach cfg now l flight src →
      now ≤ (match op with ProbeReply _ _ t' | ProbeMisses _ _ t' => t' end) ≤ t →
      link_reach cfg t (probe_step cfg l op) flight src
  | reach_traffic now l flight src t f :
      link_reach cfg now l flight src → now ≤ t →
      (∀ s, confirmed_ceiling_mbps (f s) = confirmed_ceiling_mbps s ∧ last_ramp_at (f s) = last_ramp_at s) →
      link_reach cfg t (with_stats f l) flight src
  | reach_begin now l src t has_remote m :
      link_reach cfg now l None src → now ≤ t →
      prober_begin t cfg has_remote l = Some m →
      link_reach cfg t l (Some (t, m)) src
  | reach_end now l src t began m run_step :
      link_reach cfg now l (Some (began, m)) src → now ≤ t →
      link_reach cfg t (prober_end t m run_step l) None
        (match m with
         | FullRamp before =>
             if got_real_measurement (adaptive_bandwidth_ramp run_step)
                && ramp_result_still_valid (state l) (state_since l) before
             then Some (began, adaptive_bandwidth_ramp run_step) else src
         | Verify _ => src
         end).

Record ceiling_inv (now : Z) (l : Link) (flight : option (Z * measurement))
    (src : option (Z * RampResult)) : Prop := {
  ce_since : state_since l ≤ now;
  ce_flight : ∀ began m, flight = Some (began, m) →
    began ≤ now ∧ match m with FullRamp before => before ≤ began | Verify _ => True end;
  ce_src : ∀ c, confirmed_ceiling_mbps (stats l) = Some c →
    ∃ began r t, src = Some (began, r) ∧ c = confirmed_mbps r ∧ got_real_measurement r = true ∧
      last_ramp_at (stats l) = Some t ∧ began ≤ t ≤ now ∧ (state l = Up → state_since l ≤ began) }.

Lemma ceiling_later now t l flight src : now ≤ t → ceiling_inv now l flight src → ceiling_inv t l flight src.
Proof.
  intros Ht [H1 H2 H3]. split; [lia| |].
  - intros began m E. destruct (H2 _ _ E). split; [lia|done].
  - intros c Hc. destruct (H3 c Hc) as (began & r & u & ? & ? & ? & ? & ? & ?).
    exists began, r, u. split_and!; try done; lia.
Qed.

(** Recording probes keeps the ceiling; the change of state to Up clears it. *)
Lemma update_ceiling now cfg l :
  let l' := update_link_state now cfg l in
  (state l' = state l ∧ state_since l' = state_since l ∧
   confirmed_ceiling_mbps (stats l') = confirmed_ceiling_mbps (stats l) ∧
   last_ramp_at (stats l') = last_ramp_at (stats l)) ∨
  (state_since l' = now ∧ state l' = Up ∧ confirmed_ceiling_mbps (stats l') = None) ∨
  (state_since l' = now ∧ state l' ≠ Up ∧
   confirmed_ceiling_mbps (stats l') = confirmed_ceiling_mbps (stats l) ∧
   last_ramp_at (stats l') = last_ramp_at (stats l)).
Proof.
  unfold update_link_state. destruct (state l) eqn:Es;
    repeat case_match; case_bool_decide; cbn; auto; try congruence; right;
    (left; by split_and!) || (right; by split_and!).
Qed.

Lemma record_misses_ceiling ts s :
  let s' := foldl (λ s t, record_miss t s) s ts in
  confirmed_ceiling_mbps s' = confirmed_ceiling_mbps s ∧ last_ramp_at s' = last_ramp_at s.
Proof. revert s. induction ts as [|t ts IH]; intros s; [done|]. cbn [foldl]. by destruct (IH (record_miss t s)). Qed.

Lemma ceiling_update now t cfg l flight src :
  ceiling_inv now l flight src → now ≤ t → ceiling_inv t (update_link_state t cfg l) flight src.
Proof.
  intros Hc Ht. apply (ceiling_later _ t) in Hc; [|done]. destruct Hc as [H1 H2 H3].
  destruct (update_ceiling t cfg l) as [(Es & Eu & Ec & Er)|[(Eu & Es & Ec)|(Eu & Es & Ec & Er)]];
    (split; [rewrite Eu; lia|exact H2|]); rewrite Ec; [|done|].
  - rewrite Es, Eu, Er. exact H3.
  - rewrite Er. intros c Hc. destruct (H3 c Hc) as (began & r & u & ? & ? & ? & ? & ? & ?).
    exists began, r, u. split_and!; try done; lia.
Qed.

Lemma ceiling_stats now l flight src f :
  ceiling_inv now l flight src →
  confirmed_ceiling_mbps (f (stats l)) = confirmed_ceiling_mbps (stats l) →
  last_ramp_at (f (stats l)) = last_ramp_at (stats l) →
  ceiling_inv now (with_stats f l) flight src.
Proof. intros [H1 H2 H3] Ec Er. split; [done|done|]. cbn. rewrite Ec, Er. exact H3. Qed.

Lemma reach_ceiling cfg now l flight src :
  link_reach cfg now l flight src → ceiling_inv now l flight src.
Proof.
  induction 1 as [now l Hc Hs|now l flight src op t _ IH Ht|now l flight src t f _ IH Ht Hf
    |now l src t has_remote m _ IH Ht Hm|now l src t began m run_step _ IH Ht].
  - split; [done|done|]. intros c. by rewrite Hc.
  - destruct op as [u rtt t'|u us t']; cbn [probe_step].
    + apply (ceiling_later t'); [lia|]. apply (ceiling_update now); [|lia]. by apply ceiling_stats.
    + apply (ceiling_later t'); [lia|]. apply (ceiling_update now); [|lia].
      destruct (record_misses_ceiling (u :: us) (stats l)). by apply ceiling_stats.
  - apply (ceiling_later now); [done|]. destruct (Hf (stats l)). by apply ceiling_stats.
  - destruct (ceiling_later _ t _ _ _ Ht IH) as [H1 _ H3]. split; [done| |done].
    intros began m' [= <- <-]. split; [done|]. unfold prober_begin in Hm.
    destruct has_remote; [|done]. cbn in Hm. destruct (should_full_ramp _ _ _).
    + by injection Hm as <-.
    + by destruct (confirmed_ceiling_mbps _); cbn in Hm; simplify_eq.
  - destruct (ceiling_later _ t _ _ _ Ht IH) as [H1 H2 H3]. destruct (H2 _ _ eq_refl) as [Hb Hm].
    assert (ceiling_inv t l None src) as Hi by (split; [done|done|exact H3]).
    destruct m as [before|cached]; cbn [prober_end]; [|by apply ceiling_stats].
    unfold commit_ramp. destruct (got_real_measurement _) eqn:Eg; cbn [negb andb]; [|done].
    destruct (ramp_result_still_valid _ _ _) eqn:Ev; cbn [negb]; [|done].
    split; [done|done|]. intros c [= <-]. exists began, (adaptive_bandwidth_ramp run_step), t.
    split_and!; try done. intros _. unfold ramp_result_still_valid in Ev.
    apply andb_true_iff in Ev as [_ Ev%Z.eqb_eq]. cbn. lia.
Qed.

(** C16. A cached bandwidth ceiling is never stale: however probes, traffic and
    measurements interleave, while a link is Up the ceiling cached with it is
    the confirmed rate of a ramp that measured something and that began after
    the link last came Up; and a ceiling always says when it was confirmed. *)
Theorem ceiling_is_current cfg now l flight src c :
  link_reach cfg now l flight src → confirmed_ceiling_mbps (stats l) = Some c →
  ∃ began r t, src = Some (began, r) ∧ c = confirmed_mbps r ∧ got_real_measurement r = true ∧
    last_ramp_at (stats l) = Some t ∧ began ≤ t ≤ now ∧ (state l = Up → state_since l ≤ began).
Proof. intros Hr Hc. exact (ce_src _ _ _ _ (reach_ceiling _ _ _ _ _ Hr) c Hc). Qed.

(** ** Examples *)

Module bandwidth_example.

(** A link that carries at most 20 Mbps. *)
Definition capped (k : nat) (target : f64) : option f64 := Some (f64.min target (f64.of_Z 20)).

Example ramp_capped :
  confirmed_mbps (adaptive_bandwidth_ramp capped) = (f64.of_Z 16 * f64.lit 8 10)%f64 ∧
  length (steps (adaptive_bandwidth_ramp capped)) = 5%nat.
Proof. vm_compute. done. Qed.

Definition SECOND : Z := 1000000000.
Definition rounds : list stream_round :=
  [mkRound 1400 0 1000; mkRound 1400 (SECOND / 2) (SECOND / 2); mkRound 1200 SECOND SECOND].
Definition arrivals : list arrival :=
  [mkArrival 0 0 0 (false, 1400); mkArrival 1 1 1 (true, 1200); mkArrival 2 2 2 (true, 1200)].

Lemma stream_measured_once_witness :
  let s := ThroughputTestReceiveState_new 0 in
  ∃ acts,
    send_throughput_test_stream 0 0 SECOND (f64.of_Z 2) rounds =
      Ok (acts, bool_decide (is_Some (split_deadline (0 + SECOND) rounds).2)) ∧
    (sublist (a_packet <$> arrivals) (packets acts) →
     ∃ ds fs, arrivals = ds ++ fs ∧ Forall (λ a, (a_packet a).1 = false) ds ∧
       Forall (λ a, (a_packet a).1 = true) fs ∧
       (feed 7 arrivals s).2 = match fs with f :: _ => [stream_rate ds f] | [] => [] end).
Proof.
  apply (stream_measured_once 0 0 SECOND (f64.of_Z 2) rounds 7 arrivals (ThroughputTestReceiveState_new 0));
    [by vm_compute|by repeat constructor|by vm_compute|done|done].
Defined.

Definition up_link : Link := mkLink (sample_link "wan0") Up 0 sample_stats false.
Definition ramped : Link := prober_end 20 (FullRamp 0) capped up_link.

Lemma ceiling_is_current_witness :
  confirmed_ceiling_mbps (stats ramped) = Some (confirmed_mbps (adaptive_bandwidth_ramp capped)) ∧
  ∃ began r t, Some (10, adaptive_bandwidth_ramp capped) = Some (began, r) ∧
    confirmed_mbps (adaptive_bandwidth_ramp capped) = confirmed_mbps r ∧
    got_real_measurement r = true ∧
    last_ramp_at (stats ramped) = Some t ∧ began ≤ t ≤ 20 ∧
    (state ramped = Up → state_since ramped ≤ began).
Proof.
  assert (confirmed_ceiling_mbps (stats ramped) = Some (confirmed_mbps (adaptive_bandwidth_ramp capped)))
    as Hc by (vm_compute; reflexivity).
  split; [exact Hc|].
  apply (ceiling_is_current SchedulerConfig_default 20 ramped None
           (Some (10, adaptive_bandwidth_ramp capped)) _); [|exact Hc].
  refine (reach_end _ 10 up_link None 20 10 (FullRamp 0) capped _ _); [|lia].
  refine (reach_begin _ 0 up_link None 10 true (FullRamp 0) _ _ _);
    [apply reach_start; [reflexivity|cbn; lia]|lia|reflexivity].
Defined.

(** A result for a test nobody waits for any more is dropped; the other waiter
    gets its own. *)
Example two_waiters :
  let x := foldl ctx_step ThroughputTestContext_new
             [Register 1; Register 2; GiveUp 0; Forward 1 f64.one; Forward 2 (f64.of_Z 5)] in
  content x 0 = Some [] ∧ content x 1 = Some [f64.of_Z 5] ∧ waiters x = ∅.
Proof. vm_compute. done. Qed.

End bandwidth_example.
