(* ===== verification/Node.v ===== *)
(** * A node's control plane ([tunnel.rs])

    What [link_receiver] does with a decrypted frame ([handle_incoming]) and
    what [link_prober] does on its timers: the state they share is a [Node].
    A frame given to [LinkHandle::wg_send] (modelled in [LinkIo]) is kept in
    the node's outbox with the link and the peer address it is sent to; the
    result of that send, where the code looks at it, is an argument. The [n]th
    reading of the clock in a step is [c n]. *)

From Stdlib Require Import SpecFloat Ascii.
From S2P Require Import Prelude Bytes Utf8 F64 Configuration Protocol FecRecovery RxPipeline ProbeHistory Link Delivery Scheduler Tuning Bandwidth Wireguard Gso LinkIo LinkLife.
Import delivery scheduler.

(** The bytes of a string. *)
Definition str_bytes (s : string) : list Z :=
  map (λ a, Z.of_nat (nat_of_ascii a)) (String.list_ascii_of_string s).

(** [x as f32], by its bits: rounded to nearest even. *)
Definition f64_as_f32 (x : f64) : Z :=
  let sign (s : bool) := if s then 2 ^ 31 else 0 in
  match x with
  | S754_nan => 0x7fc00000
  | S754_infinity s => sign s + 0x7f800000
  | S754_zero s => sign s
  | S754_finite s m e =>
      match binary_round 24 128 s m e with
      | S754_finite s m e =>
          if Zpos m <? 2 ^ 23 then sign s + Zpos m
          else sign s + Z.shiftl (e + 150) 23 + (Zpos m - 2 ^ 23)
      | S754_infinity s => sign s + 0x7f800000
      | _ => sign s
      end
  end.

(** ** State *)

(** A link with what its tasks keep about it. *)
Record NodeLink := mkNodeLink {
  nl_link : Link;
  nl_id : Z;
  nl_remote : option SocketAddr;
  nl_interval : Z;
  nl_alpha : f64;
  nl_tracker : ProbeTracker;
  nl_test : ThroughputTestReceiveState;
  nl_probe_seq : Z }.

(** A stream started for a peer's reverse request. *)
Record spawned := mkSpawned {
  sp_link : nat; sp_remote : option SocketAddr; sp_test_id : Z; sp_duration : Z; sp_target : f64 }.

Record Node := mkNode {
  n_links : list NodeLink;
  n_scheduler : Scheduler;
  n_rx : list RxEvent;
  n_rx_dropped : Z;
  n_peer_stats : PeerStatsTable;
  n_tests : ThroughputTestContext;
  n_peer_version : option (list Z);
  n_peer_mtu : option Z;
  n_peer_live_mtu : option Z;
  n_peer_primary : option (list Z);
  n_send_seq : Z;
  n_outbox : list (nat * option SocketAddr * list Z);
  n_spawned : list spawned }.

Definition with_nodelinks (ls : list NodeLink) (n : Node) : Node :=
  mkNode ls (n_scheduler n) (n_rx n) (n_rx_dropped n) (n_peer_stats n) (n_tests n)
    (n_peer_version n) (n_peer_mtu n) (n_peer_live_mtu n) (n_peer_primary n) (n_send_seq n)
    (n_outbox n) (n_spawned n).
Definition with_scheduler (s : Scheduler) (n : Node) : Node :=
  mkNode (n_links n) s (n_rx n) (n_rx_dropped n) (n_peer_stats n) (n_tests n)
    (n_peer_version n) (n_peer_mtu n) (n_peer_live_mtu n) (n_peer_primary n) (n_send_seq n)
    (n_outbox n) (n_spawned n).
Definition with_rx (q : list RxEvent) (d : Z) (n : Node) : Node :=
  mkNode (n_links n) (n_scheduler n) q d (n_peer_stats n) (n_tests n)
    (n_peer_version n) (n_peer_mtu n) (n_peer_live_mtu n) (n_peer_primary n) (n_send_seq n)
    (n_outbox n) (n_spawned n).
Definition with_peer_stats (t : PeerStatsTable) (n : Node) : Node :=
  mkNode (n_links n) (n_scheduler n) (n_rx n) (n_rx_dropped n) t (n_tests n)
    (n_peer_version n) (n_peer_mtu n) (n_peer_live_mtu n) (n_peer_primary n) (n_send_seq n)
    (n_outbox n) (n_spawned n).
Definition with_tests (x : ThroughputTestContext) (n : Node) : Node :=
  mkNode (n_links n) (n_scheduler n) (n_rx n) (n_rx_dropped n) (n_peer_stats n) x
    (n_peer_version n) (n_peer_mtu n) (n_peer_live_mtu n) (n_peer_primary n) (n_send_seq n)
    (n_outbox n) (n_spawned n).
Definition with_peer_info (v : option (list Z)) (m live : option Z) (p : option (list Z)) (n : Node)
    : Node :=
  mkNode (n_links n) (n_scheduler n) (n_rx n) (n_rx_dropped n) (n_peer_stats n) (n_tests n)
    v m live p (n_send_seq n) (n_outbox n) (n_spawned n).
Definition with_outbox (s : Z) (o : list (nat * option SocketAddr * list Z)) (n : Node) : Node :=
  mkNode (n_links n) (n_scheduler n) (n_rx n) (n_rx_dropped n) (n_peer_stats n) (n_tests n)
    (n_peer_version n) (n_peer_mtu n) (n_peer_live_mtu n) (n_peer_primary n) s o (n_spawned n).
Definition with_spawned (s : list spawned) (n : Node) : Node :=
  mkNode (n_links n) (n_scheduler n) (n_rx n) (n_rx_dropped n) (n_peer_stats n) (n_tests n)
    (n_peer_version n) (n_peer_mtu n) (n_peer_live_mtu n) (n_peer_primary n) (n_send_seq n)
    (n_outbox n) s.

Definition on_link (i : nat) (f : NodeLink → NodeLink) (n : Node) : Node :=
  with_nodelinks (alter f i (n_links n)) n.
Definition with_link (l : Link) (x : NodeLink) : NodeLink :=
  mkNodeLink l (nl_id x) (nl_remote x) (nl_interval x) (nl_alpha x) (nl_tracker x) (nl_test x)
    (nl_probe_seq x).
Definition with_remote (r : option SocketAddr) (x : NodeLink) : NodeLink :=
  mkNodeLink (nl_link x) (nl_id x) r (nl_interval x) (nl_alpha x) (nl_tracker x) (nl_test x)
    (nl_probe_seq x).
Definition with_tracker (t : ProbeTracker) (x : NodeLink) : NodeLink :=
  mkNodeLink (nl_link x) (nl_id x) (nl_remote x) (nl_interval x) (nl_alpha x) t (nl_test x)
    (nl_probe_seq x).
Definition with_test (t : ThroughputTestReceiveState) (x : NodeLink) : NodeLink :=
  mkNodeLink (nl_link x) (nl_id x) (nl_remote x) (nl_interval x) (nl_alpha x) (nl_tracker x) t
    (nl_probe_seq x).
Definition with_probe_seq (s : Z) (x : NodeLink) : NodeLink :=
  mkNodeLink (nl_link x) (nl_id x) (nl_remote x) (nl_interval x) (nl_alpha x) (nl_tracker x)
    (nl_test x) s.
Definition with_tuning (i : Z) (a : f64) (s : LinkStats) (x : NodeLink) : NodeLink :=
  mkNodeLink (with_stats (λ _, s) (nl_link x)) (nl_id x) (nl_remote x) i a (nl_tracker x)
    (nl_test x) (nl_probe_seq x).

(** ** Shared steps *)

Definition RX_PIPELINE_CAPACITY : nat := 8192.

(** [RxPipelineTx::deliver]: a full channel drops the event and counts it. *)
Definition deliver (ev : RxEvent) (n : Node) : Node :=
  if bool_decide (length (n_rx n) < RX_PIPELINE_CAPACITY)%nat
  then with_rx (n_rx n ++ [ev]) (n_rx_dropped n) n
  else with_rx (n_rx n) (wrap 64 (n_rx_dropped n + 1)) n.

Definition resolve_peer_primary_index (snap : list Link) (name : option (list Z)) : option nat :=
  nm ← name; position (λ l, bool_decide (str_bytes (link_name (config l)) = nm)) snap.

(** Snapshot the links and refresh the scheduler. *)
Definition resched (cfg : SchedulerConfig) (n : Node) : Node :=
  let snap := nl_link <$> n_links n in
  with_scheduler (refresh snap cfg (resolve_peer_primary_index snap (n_peer_primary n))
                    (n_scheduler n)) n.

(** A frame with the next sequence number, on link [i]'s fresh handle. *)
Definition transmit (i : nat) (pt : PacketType) (lid : Z) (remote : option SocketAddr)
    (payload : list Z) (n : Node) : outcome Node :=
  frame ← Header_encode (mkHeader pt lid (n_send_seq n)) [];
  Ok (with_outbox (wrap 64 (n_send_seq n + 1))
        (n_outbox n ++ [(i, remote, frame ++ payload)]) n).

(** [let Ok(x) = .. else { return }]. *)
Definition or_return {A} (o : outcome A) (n : Node) (k : A → outcome Node) : outcome Node :=
  match o with Ok a => k a | Err _ => Ok n | Panic => Panic end.

(** ** Incoming frames *)

(** The frame's source becomes the link's peer address, and a data frame is
    counted. *)
Definition note_frame (c : nat → Z) (pt : PacketType) (frame_len : Z) (from : SocketAddr)
    (x : NodeLink) : NodeLink :=
  let x := with_remote (Some from) x in
  if bool_decide (pt = Data)
  then with_link (with_stats (record_rx (c 0%nat) (c 1%nat) frame_len) (nl_link x)) x
  else x.

Definition on_probe (i : nat) (plaintext : list Z) (n : Node) : outcome Node :=
  match n_links n !! i with
  | None => Ok n
  | Some x => transmit i Protocol.ProbeReply (nl_id x) (nl_remote x) plaintext n
  end.

Definition on_probe_reply (c : nat → Z) (cfg : SchedulerConfig) (i : nat) (plaintext : list Z)
    (n : Node) : outcome Node :=
  or_return (ProbePayload_decode plaintext) n (λ probe,
    match n_links n !! i with
    | None => Ok n
    | Some x =>
        let '(t, rtt) := record_reply (c 0%nat) (probe_seq probe) (nl_tracker x) in
        let n := on_link i (with_tracker t) n in
        match rtt with
        | None => Ok n
        | Some rtt =>
            let n := on_link i (λ x, with_link
                       (update_link_state (c 2%nat) cfg
                          (with_stats (record_rtt (c 1%nat) rtt) (nl_link x))) x) n in
            Ok (resched cfg n)
        end
    end).

Definition on_stats_share (c : nat → Z) (i : nat) (local_tx : Z) (plaintext : list Z) (n : Node)
    : outcome Node :=
  or_return (StatsPayload_decode plaintext) n (λ payload,
    t ← PeerStatsTable_update (c 0%nat) (wrap 8 (Z.of_nat i)) payload local_tx (n_peer_stats n);
    Ok (with_peer_stats t n)).

Definition on_version_info (plaintext : list Z) (n : Node) : outcome Node :=
  or_return (VersionInfoPayload_decode plaintext) n (λ payload,
    v ← version_str payload;
    p ← primary_link_name_str payload;
    Ok (with_peer_info (Some v) (Some (v_tunnel_mtu payload))
          (if v_live_tunnel_mtu payload =? 0 then None else Some (v_live_tunnel_mtu payload))
          p n)).

Definition on_test_frame (c : nat → Z) (i : nat) (frame_len : Z) (plaintext : list Z) (n : Node)
    : outcome Node :=
  or_return (TestData_decode plaintext) n (λ data,
    match n_links n !! i with
    | None => Ok n
    | Some x =>
        let '(t, rate) := on_test_data (c 0%nat) (c 1%nat) (c 2%nat) (td_test_id data)
                            (td_done data) frame_len (nl_test x) in
        let n := on_link i (with_test t) n in
        match rate with
        | None => Ok n
        | Some mbps =>
            payload ← TestResult_encode (mkTestResult (td_test_id data) (f64_as_f32 mbps));
            n ← transmit i ThroughputTestResult (nl_id x) (nl_remote x) payload n;
            Ok (with_tests (forward_result (td_test_id data) mbps (n_tests n)) n)
        end
    end).

Definition on_test_result (plaintext : list Z) (n : Node) : outcome Node :=
  or_return (TestResult_decode plaintext) n (λ r,
    Ok (with_tests (forward_result (tr_test_id r) (f32_as_f64 (tr_achieved_mbps r)) (n_tests n)) n)).

Definition on_reverse_request (i : nat) (plaintext : list Z) (n : Node) : outcome Node :=
  or_return (Reverse_decode plaintext) n (λ req,
    match n_links n !! i with
    | None => Panic
    | Some x =>
        Ok (with_spawned (n_spawned n ++
              [mkSpawned i (nl_remote x) (rr_test_id req) (nanos_of_secs (rr_duration_secs req))
                 (reverse_target_mbps (nl_link x))]) n)
    end).

Definition on_parity (cfg : SchedulerConfig) (kind : ParityKind) (plaintext : list Z) (n : Node)
    : outcome Node :=
  if fec_enabled cfg then
    or_return (FecParityPayload_decode plaintext) n (λ p, Ok (deliver (EvParity kind p) n))
  else Ok n.

Definition handle_incoming (c : nat → Z) (cfg : SchedulerConfig) (i : nat) (frame : list Z)
    (from : SocketAddr) (n : Node) : outcome Node :=
  or_return (Header_decode frame) n (λ hp,
    let '(hdr, plaintext) := hp in
    if bool_decide (ptype hdr = HandshakeInit) || bool_decide (ptype hdr = HandshakeResp)
    then Ok n
    else
      let n := on_link i (note_frame c (ptype hdr) (len frame) from) n in
      let local_tx := match n_links n !! i with
                      | Some x => tx_bytes (stats (nl_link x)) | None => 0 end in
      let c' k := c (2 + k)%nat in
      match ptype hdr with
      | Data => Ok (deliver (EvData (seq hdr) plaintext) n)
      | FecParity => on_parity cfg P plaintext n
      | FecParityQ => on_parity cfg Q plaintext n
      | Protocol.Probe => on_probe i plaintext n
      | Protocol.ProbeReply => on_probe_reply c' cfg i plaintext n
      | StatsShare => on_stats_share c' i local_tx plaintext n
      | VersionInfo => on_version_info plaintext n
      | ThroughputTestData => on_test_frame c' i (len frame) plaintext n
      | ThroughputTestResult => on_test_result plaintext n
      | ThroughputTestReverseRequest => on_reverse_request i plaintext n
      | Keepalive | Disconnect => Ok n
      | HandshakeInit | HandshakeResp => Panic
      end).

(** ** The prober's timers *)

(** [record_send_failure_as_miss]. *)
Definition record_send_failure_as_miss (c : nat → Z) (cfg : SchedulerConfig) (i : nat) (n : Node)
    : Node :=
  resched cfg
    (on_link i (λ x, with_link
       (update_link_state (c 1%nat) cfg (with_stats (record_miss (c 0%nat)) (nl_link x))) x) n).

(** [send_probe]: [wall_ns] is the wall clock, [sent] what [wg_send] answered. *)
Definition send_probe (c : nat → Z) (wall_ns : Z) (sent : outcome bool) (i : nat) (n : Node)
    : outcome (Node * ProbeSendOutcome) :=
  match n_links n !! i with
  | None => Panic
  | Some x =>
      let ps := nl_probe_seq x in
      payload ← ProbePayload_encode (mkProbe ps (wrap 64 wall_ns));
      n ← transmit i Protocol.Probe (nl_id x) (nl_remote x) payload
            (on_link i (with_probe_seq (wrap 32 (ps + 1))) n);
      let n := match send_outcome sent with
               | ProbeSent => on_link i (λ x, with_tracker (record_sent (c 0%nat) ps (nl_tracker x)) x) n
               | _ => n
               end in
      Ok (n, send_outcome sent)
  end.

(** The prober's [probe_tick] arm, with its reconnect counter; [reconnected]
    is what an attempt to reconnect answers. *)
Definition probe_tick (c : nat → Z) (wall_ns : Z) (cfg : SchedulerConfig) (sent : outcome bool)
    (reconnected : outcome unit) (i : nat) (n : Node) (r : recovery)
    : outcome (Node * recovery * reaction) :=
  '(n, o) ← send_probe c wall_ns sent i n;
  let n := match o with
           | InterfaceGone | TransientFailure =>
               record_send_failure_as_miss (λ k, c (1 + k)%nat) cfg i n
           | ProbeSent | Skipped => n
           end in
  let '(r, re) := prober_event o reconnected r in
  Ok (n, r, re).

(** The [stats_tick] arm. *)
Definition send_stats_share (i : nat) (n : Node) : outcome Node :=
  match n_links n !! i with
  | None => Panic
  | Some x =>
      match nl_remote x with
      | None => Ok n
      | Some _ =>
          let l := nl_link x in
          let s := stats l in
          let f (e : Ewma) := default f64.zero (Ewma_get e) in
          name ← StatsPayload_encode_name (str_bytes (link_name (config l)));
          payload ← StatsPayload_encode
            (Protocol.mkStats name (f64_as_f32 (f (rtt_ms s))) (f64_as_f32 (f (jitter_ms s)))
               (f64_as_f32 (f (loss_rate s) * f64.of_Z 100)%f64)
               (f64_as_f32 (f (rx_throughput_mbps s))) (to_wire (state l))
               (Some (rx_bytes s)));
          transmit i StatsShare (nl_id x) (nl_remote x) payload n
      end
  end.

Definition primary_name (n : Node) : list Z :=
  match primary (n_scheduler n) with
  | Some p => match n_links n !! p with
              | Some x => str_bytes (link_name (config (nl_link x)))
              | None => []
              end
  | None => []
  end.

(** [version] is the program's version string; the MTUs are the live ones. *)
Definition send_version_info (version : list Z) (capability_mtu live_mtu : Z) (i : nat) (n : Node)
    : outcome Node :=
  match n_links n !! i with
  | None => Panic
  | Some x =>
      match nl_remote x with
      | None => Ok n
      | Some _ =>
          v ← encode_version version;
          p ← encode_link_name (primary_name n);
          payload ← VersionInfoPayload_encode (mkVersionInfo v capability_mtu live_mtu p);
          transmit i VersionInfo (nl_id x) (nl_remote x) payload n
      end
  end.

Definition stats_tick (version : list Z) (capability_mtu live_mtu : Z) (i : nat) (n : Node)
    : outcome Node :=
  n ← send_stats_share i n;
  send_version_info version capability_mtu live_mtu i n.

(** The [sweep_tick] arm: the node, the prober's record of all links being
    down (kept by the first link's only), and the timers' new period if it
    changed. *)
Definition sweep_tick (c : nat → Z) (cfg : SchedulerConfig) (i : nat) (all_down_reported : bool)
    (n : Node) : outcome (Node * bool * option Z) :=
  match n_links n !! i with
  | None => Panic
  | Some x =>
      let '(t, misses) := sweep_timeouts (c 0%nat) (nl_tracker x) in
      let n := on_link i (with_tracker t) n in
      let n := if bool_decide (0 < misses)%nat then
                 resched cfg (on_link i (λ x, with_link
                   (update_link_state (c (S misses)) cfg
                      (with_stats (λ s, foldl (λ s k, record_miss (c k) s) s (List.seq 1 misses))
                         (nl_link x))) x) n)
               else n in
      let reported := if (i =? 0)%nat then all_down (nl_link <$> n_links n) else all_down_reported in
      match n_links n !! i with
      | None => Panic
      | Some x =>
          '(t, timer) ← tune cfg (config (nl_link x))
                          (mkTuned (nl_interval x) (nl_alpha x) (stats (nl_link x)));
          Ok (on_link i (with_tuning (effective_probe_interval_ms t) (effective_ewma_alpha t)
                           (tuned_stats t)) n, reported, timer)
      end
  end.

(** ** What a step can change *)

Definition frame_with (pt : PacketType) (lid s : Z) (payload : list Z) : list Z :=
  (MAGIC :: VERSION :: PacketType_to_u8 pt :: lid :: u64_to_be s) ++ payload.

Lemma transmit_eq i pt lid remote payload n :
  transmit i pt lid remote payload n =
  Ok (with_outbox (wrap 64 (n_send_seq n + 1))
        (n_outbox n ++ [(i, remote, frame_with pt lid (n_send_seq n) payload)]) n).
Proof. done. Qed.

Lemma frame_decode pt lid s payload :
  fits 64 s → Header_decode (frame_with pt lid s payload) = Ok (mkHeader pt lid s, payload).
Proof.
  intros Hs. unfold frame_with. cbn [app]. rewrite header_decode_cons by apply length_to_be.
  unfold u64_to_be. by rewrite from_to_be.
Qed.

(** What handling a frame of type [pt], which came by link [i] from [to], may do
    once the frame is noted: *)
Record contained (cfg : SchedulerConfig) (pt : PacketType) (i : nat) (to : option SocketAddr)
    (n n' : Node) : Prop := {
  (** of the links, to link [i] only, and there to what the type is about; *)
  co_links : ∃ f, n_links n' = alter f i (n_links n) ∧
    ∀ x, nl_id (f x) = nl_id x ∧ config (nl_link (f x)) = config (nl_link x) ∧
         nl_remote (f x) = nl_remote x ∧ nl_interval (f x) = nl_interval x ∧
         nl_alpha (f x) = nl_alpha x ∧ nl_probe_seq (f x) = nl_probe_seq x ∧
         (pt ≠ Protocol.ProbeReply → nl_tracker (f x) = nl_tracker x ∧ nl_link (f x) = nl_link x) ∧
         (pt ≠ ThroughputTestData → nl_test (f x) = nl_test x);
  (** a probe's answer may refresh the scheduler from the links, *)
  co_scheduler : n_scheduler n' = n_scheduler n ∨
    pt = Protocol.ProbeReply ∧
    n_scheduler n' = refresh (nl_link <$> n_links n') cfg
      (resolve_peer_primary_index (nl_link <$> n_links n') (n_peer_primary n)) (n_scheduler n);
  (** data and parity hand the receive pipeline one event, or count it dropped, *)
  co_rx : (n_rx n' = n_rx n ∧ n_rx_dropped n' = n_rx_dropped n) ∨
    pt ∈ [Data; FecParity; FecParityQ] ∧
    ((length (n_rx n) < RX_PIPELINE_CAPACITY)%nat ∧ n_rx_dropped n' = n_rx_dropped n ∧
       (∃ ev, n_rx n' = n_rx n ++ [ev]) ∨
     (RX_PIPELINE_CAPACITY ≤ length (n_rx n))%nat ∧ n_rx n' = n_rx n ∧
       n_rx_dropped n' = wrap 64 (n_rx_dropped n + 1));
  (** shared statistics replace the entry of this link, *)
  co_stats : ∀ k, k ≠ wrap 8 (Z.of_nat i) ∨ pt ≠ StatsShare →
    n_peer_stats n' !! k = n_peer_stats n !! k;
  (** test frames and results may wake who waits for the test, *)
  co_tests : pt ≠ ThroughputTestData → pt ≠ ThroughputTestResult → n_tests n' = n_tests n;
  (** version information replaces what is known of the peer, *)
  co_peer : pt ≠ VersionInfo →
    n_peer_version n' = n_peer_version n ∧ n_peer_mtu n' = n_peer_mtu n ∧
    n_peer_live_mtu n' = n_peer_live_mtu n ∧ n_peer_primary n' = n_peer_primary n;
  (** a reverse request starts one stream, on the link to the address, *)
  co_spawned : n_spawned n' = n_spawned n ∨
    pt = ThroughputTestReverseRequest ∧
    ∃ sp, n_spawned n' = n_spawned n ++ [sp] ∧ sp_link sp = i ∧ sp_remote sp = to;
  (** and a probe or the end of a test is answered, on the link to the address. *)
  co_outbox : (n_outbox n' = n_outbox n ∧ n_send_seq n' = n_send_seq n) ∨
    ∃ answer lid payload,
      (pt = Protocol.Probe ∧ answer = Protocol.ProbeReply ∨
       pt = ThroughputTestData ∧ answer = ThroughputTestResult) ∧
      n_outbox n' = n_outbox n ++ [(i, to, frame_with answer lid (n_send_seq n) payload)] ∧
      n_send_seq n' = wrap 64 (n_send_seq n + 1) }.

(** The parts an arm leaves as they are. *)
Ltac untouched := intros; first [by auto | by split_and!; auto | naive_solver].

Lemma alter_id (l : list NodeLink) i : alter id i l = l.
Proof. apply list_alter_id. done. Qed.

Lemma contained_refl cfg pt i to n : contained cfg pt i to n n.
Proof.
  split; try untouched. exists id. split; [by rewrite alter_id|]. done.
Qed.

Lemma or_return_spec {A} (o : outcome A) n k (Q : outcome Node → Prop) :
  returns o → Q (Ok n) → (∀ a, o = Ok a → Q (k a)) → Q (or_return o n k).
Proof. destruct o; cbn; intros Hr H1 H2; [by apply H2|done|by destruct Hr]. Qed.

(** The names a decoded payload carries are read without panicking. *)
Lemma field_str_ok n (f : list Z) :
  length f = n → ∃ s, slice f 0 (field_end n f) = Ok s.
Proof.
  intros Hf. eexists. apply slice_ok. split; [lia|]. unfold field_end.
  destruct (position (λ b, b =? 0) f) as [p|] eqn:E; cbn; [|lia].
  assert (p < length f)%nat; [|lia]. clear Hf. revert p E.
  induction f as [|b f IH]; intros p; cbn; [done|]. destruct (b =? 0); [intros [= <-]; lia|].
  destruct (position _ f) as [q|]; cbn; [|done]. intros [= <-]. specialize (IH q eq_refl). lia.
Qed.

Lemma update_state_config now cfg l :
  config (update_link_state now cfg l) = config l.
Proof. unfold update_link_state. by case_bool_decide. Qed.

Definition ok_contained (cfg : SchedulerConfig) (pt : PacketType) (i : nat) (to : option SocketAddr)
    (n : Node) (o : outcome Node) : Prop :=
  ∃ n', o = Ok n' ∧ contained cfg pt i to n n'.

Lemma unchanged cfg pt i to n : ok_contained cfg pt i to n (Ok n).
Proof. exists n. split; [done|apply contained_refl]. Qed.

(** An arm that leaves the links alone. *)
Ltac links_kept := split; [exists id; split; [by rewrite alter_id|done]|try untouched..].

Section arms.
Context (c : nat → Z) (cfg : SchedulerConfig) (i : nat) (n : Node) (x : NodeLink).
Hypothesis link_i : n_links n !! i = Some x.

Lemma probe_contained plaintext :
  ok_contained cfg Protocol.Probe i (nl_remote x) n (on_probe i plaintext n).
Proof.
  unfold on_probe. rewrite link_i, transmit_eq. eexists. split; [done|]. links_kept.
Qed.

Lemma reply_contained plaintext :
  ok_contained cfg Protocol.ProbeReply i (nl_remote x) n (on_probe_reply c cfg i plaintext n).
Proof.
  unfold on_probe_reply. apply or_return_spec; [by destruct (fixed_decodes_return plaintext)|apply unchanged|].
  intros p _. rewrite link_i. destruct (record_reply _ _ _) as [t [rtt|]]; eexists; (split; [done|]).
  - set (g := λ x, with_link (update_link_state (c 2%nat) cfg
            (with_stats (record_rtt (c 1%nat) rtt) (nl_link x))) x).
    split; [exists (g ∘ with_tracker t); split; [by cbn; rewrite list_alter_alter_eq|]|by right|untouched..].
    intros y. unfold g. cbn. rewrite update_state_config. by split_and!.
  - split; [exists (with_tracker t); split; [done|by intros y; split_and!]|untouched..].
Qed.

Lemma stats_contained local_tx plaintext :
  ok_contained cfg StatsShare i (nl_remote x) n (on_stats_share c i local_tx plaintext n).
Proof.
  unfold on_stats_share. apply or_return_spec; [apply stats_decode_returns|apply unchanged|]. intros p Hp.
  assert (length (s_name p) = NAME_LEN) as Hl.
  { unfold StatsPayload_decode in Hp. inv_ok. rewrite ?slice_Ok in *. destruct_and!. subst. cbn.
    rewrite length_take, length_drop. unfold NAME_LEN in *. lia. }
  destruct (field_str_ok NAME_LEN (s_name p) Hl) as (s & Hs).
  unfold PeerStatsTable_update, StatsPayload_name_str. rewrite Hs. eexists. split; [done|].
  links_kept. intros k [Hk|Hk]; [|done]. exact (lookup_insert_ne _ _ _ _ (not_eq_sym Hk)).
Qed.

Lemma version_contained plaintext :
  ok_contained cfg VersionInfo i (nl_remote x) n (on_version_info plaintext n).
Proof.
  unfold on_version_info. apply or_return_spec; [apply version_decode_returns|apply unchanged|]. intros p Hp.
  assert (length (v_version p) = VERSION_LEN ∧ length (v_primary_link_name p) = LINK_NAME_LEN) as [H1 H2].
  { destruct (decide (VERSION_LEN ≤ length plaintext)%nat) as [Hl|Hl].
    - rewrite version_decode_eq in Hp by done. injection Hp as <-. cbn. split.
      + rewrite length_take. unfold VERSION_LEN in *. lia.
      + unfold resize0, LINK_NAME_LEN. rewrite length_app, length_take, length_replicate. lia.
    - unfold VersionInfoPayload_decode in Hp.
      rewrite (bool_decide_true (length plaintext < VERSION_LEN)%nat) in Hp by lia. done. }
  destruct (field_str_ok _ _ H1) as (s1 & E1). destruct (field_str_ok _ _ H2) as (s2 & E2).
  unfold version_str, primary_link_name_str. rewrite E1. cbn [mbind outcome_bind].
  case_bool_decide; cbn [mbind outcome_bind mret outcome_ret]; rewrite ?E2; eexists;
    (split; [done|]); links_kept.
Qed.

Lemma test_contained frame_len plaintext :
  ok_contained cfg ThroughputTestData i (nl_remote x) n (on_test_frame c i frame_len plaintext n).
Proof.
  unfold on_test_frame.
  apply or_return_spec; [by destruct (fixed_decodes_return plaintext) as (_ & ? & _)|apply unchanged|].
  intros d _. rewrite link_i. destruct (on_test_data _ _ _ _ _ _ _) as [t [rate|]].
  - destruct (TestResult_encode (mkTestResult (td_test_id d) (f64_as_f32 rate))) as [b| |] eqn:E;
      [|exfalso; revert E..].
    + cbn [mbind outcome_bind]. rewrite transmit_eq. eexists. split; [done|].
      split; [exists (with_test t); split; [done|by intros y; split_and!]|untouched..|].
      right. eexists _, _, _. split; [by right|done].
    + unfold TestResult_encode. rewrite (pair_encode _ _ 4 4) by apply length_to_be. done.
    + unfold TestResult_encode. rewrite (pair_encode _ _ 4 4) by apply length_to_be. done.
  - eexists. split; [done|].
    split; [exists (with_test t); split; [done|by intros y; split_and!]|untouched..].
Qed.

Lemma result_contained plaintext :
  ok_contained cfg ThroughputTestResult i (nl_remote x) n (on_test_result plaintext n).
Proof.
  unfold on_test_result.
  apply or_return_spec; [by destruct (fixed_decodes_return plaintext) as (_ & _ & ? & _)|apply unchanged|].
  intros r _. eexists. split; [done|]. links_kept.
Qed.

Lemma reverse_contained plaintext :
  ok_contained cfg ThroughputTestReverseRequest i (nl_remote x) n (on_reverse_request i plaintext n).
Proof.
  unfold on_reverse_request.
  apply or_return_spec; [by destruct (fixed_decodes_return plaintext) as (_ & _ & _ & ?)|apply unchanged|].
  intros r _. rewrite link_i. eexists. split; [done|]. links_kept.
Qed.

Lemma deliver_contained pt ev :
  pt ∈ [Data; FecParity; FecParityQ] → contained cfg pt i (nl_remote x) n (deliver ev n).
Proof.
  intros Hpt. unfold deliver. case_bool_decide as Hc; links_kept; right; (split; [done|]).
  right. split_and!; [lia|done..].
Qed.

Lemma parity_contained pt kind plaintext :
  pt ∈ [Data; FecParity; FecParityQ] →
  ok_contained cfg pt i (nl_remote x) n (on_parity cfg kind plaintext n).
Proof.
  intros Hpt. unfold on_parity. destruct (fec_enabled cfg); [|apply unchanged].
  apply or_return_spec; [apply parity_decode_returns|apply unchanged|].
  intros p _. eexists. split; [done|]. by apply deliver_contained.
Qed.
End arms.

Lemma note_frame_link c pt flen from i n x :
  n_links n !! i = Some x →
  n_links (on_link i (note_frame c pt flen from) n) !! i = Some (note_frame c pt flen from x).
Proof. intros H. cbn. by rewrite list_lookup_alter_eq, H. Qed.

Lemma note_frame_keeps c pt flen from x :
  nl_id (note_frame c pt flen from x) = nl_id x ∧
  config (nl_link (note_frame c pt flen from x)) = config (nl_link x) ∧
  nl_remote (note_frame c pt flen from x) = Some from.
Proof. unfold note_frame. by case_bool_decide. Qed.

Definition legacy (pt : PacketType) : bool :=
  bool_decide (pt = HandshakeInit) || bool_decide (pt = HandshakeResp).

(** Every arm of the dispatch returns. *)
Lemma dispatch_contained c cfg i frame from n x h plaintext :
  n_links n !! i = Some x → Header_decode frame = Ok (h, plaintext) → legacy (ptype h) = false →
  ok_contained cfg (ptype h) i (Some from) (on_link i (note_frame c (ptype h) (len frame) from) n)
    (handle_incoming c cfg i frame from n).
Proof.
  intros Hx Hd Hl. unfold handle_incoming. rewrite Hd. cbn [or_return]. unfold legacy in Hl. rewrite Hl.
  pose proof (note_frame_link c (ptype h) (len frame) from i n x Hx) as Hy.
  destruct (note_frame_keeps c (ptype h) (len frame) from x) as (_ & _ & Hr).
  rewrite <- Hr. set (y := note_frame _ _ _ _ x) in *. set (m := on_link i _ n) in *. clearbody y m.
  destruct (ptype h); try done; try (by apply unchanged).
  all: first
    [ by apply probe_contained | by apply reply_contained | by apply stats_contained
    | by apply version_contained | by apply test_contained | by apply result_contained
    | by apply reverse_contained | by apply parity_contained; set_solver
    | eexists; split; [done|by apply deliver_contained; set_solver] ].
Qed.

(** What noting a frame of type [pt] does to its link: its source becomes the
    peer's address, and a data frame is counted. *)
Definition noted_only (pt : PacketType) (from : SocketAddr) (x y : NodeLink) : Prop :=
  nl_remote y = Some from ∧ nl_id y = nl_id x ∧ config (nl_link y) = config (nl_link x) ∧
  nl_interval y = nl_interval x ∧ nl_alpha y = nl_alpha x ∧ nl_tracker y = nl_tracker x ∧
  nl_test y = nl_test x ∧ nl_probe_seq y = nl_probe_seq x ∧ (pt ≠ Data → nl_link y = nl_link x).

Lemma note_frame_noted c pt flen from x : noted_only pt from x (note_frame c pt flen from x).
Proof. unfold note_frame, noted_only. by case_bool_decide; split_and!. Qed.


(** ** A probe's round trip *)

Lemma send_probe_eq c wall carried i n x :
  n_links n !! i = Some x → fits 32 (nl_probe_seq x) →
  ∃ payload,
    send_probe c wall (Ok carried) i n =
      Ok (on_link i (λ x', with_tracker (record_sent (c 0%nat) (nl_probe_seq x) (nl_tracker x')) x')
            (with_outbox (wrap 64 (n_send_seq n + 1))
               (n_outbox n ++ [(i, nl_remote x, frame_with Protocol.Probe (nl_id x) (n_send_seq n) payload)])
               (on_link i (with_probe_seq (wrap 32 (nl_probe_seq x + 1))) n)), ProbeSent) ∧
    ProbePayload_decode payload = Ok (mkProbe (nl_probe_seq x) (wrap 64 wall)).
Proof.
  intros Hx Hs. unfold send_probe. rewrite Hx.
  destruct (fixed_payload_roundtrips (nl_probe_seq x) (wrap 64 wall) 0 0 0 false 0 [])
    as (Hp & _); try (done || (unfold fits; lia)); [by apply wrap_fits|].
  destruct (ProbePayload_encode _) as [payload| |]; try done. cbn [mbind outcome_bind] in *.
  rewrite app_nil_r in Hp. exists payload. by rewrite transmit_eq.
Qed.

(** What the echo of a probe does to the node that sent it. *)
Lemma reply_matched c cfg i payload ps ts n x t0 :
  n_links n !! i = Some x → ProbePayload_decode payload = Ok (mkProbe ps ts) →
  outstanding (nl_tracker x) !! ps = Some t0 →
  let rtt := (f64.as_secs_f64 (sat_sub (c 0%nat) t0) * f64.of_Z 1000)%f64 in
  ∃ n' x', on_probe_reply c cfg i payload n = Ok n' ∧ n_links n' !! i = Some x' ∧
    outstanding (nl_tracker x') = delete ps (outstanding (nl_tracker x)) ∧
    nl_link x' = update_link_state (c 2%nat) cfg (with_stats (record_rtt (c 1%nat) rtt) (nl_link x)) ∧
    nl_remote x' = nl_remote x ∧
    n_scheduler n' = refresh (nl_link <$> n_links n') cfg
      (resolve_peer_primary_index (nl_link <$> n_links n') (n_peer_primary n')) (n_scheduler n).
Proof.
  intros Hx Hp Ht rtt. unfold on_probe_reply. rewrite Hp. cbn [or_return]. rewrite Hx.
  unfold record_reply. cbn [probe_seq]. rewrite Ht. fold rtt. eexists _, _. split; [done|].
  split; [cbn; by rewrite !list_lookup_alter_eq, Hx|]. by cbn.
Qed.

(** C12. A probe measures its link. The frame a node sends as a probe makes the
    peer answer on the link it came by, to the address it came from; and when
    that answer comes back while the probe is outstanding, the node takes it
    off the list, records the time since it was sent as a round trip, updates
    the link's state and refreshes the scheduler from it. *)
Theorem probe_roundtrip ca wall carried i a x :
  n_links a !! i = Some x → fits 32 (nl_probe_seq x) → fits 64 (n_send_seq a) →
  ∃ a1 probe x1, send_probe ca wall (Ok carried) i a = Ok (a1, ProbeSent) ∧
    n_outbox a1 = n_outbox a ++ [(i, nl_remote x, probe)] ∧
    n_links a1 !! i = Some x1 ∧ outstanding (nl_tracker x1) !! nl_probe_seq x = Some (ca 0%nat) ∧
    ∀ cb cfgb j from b y, n_links b !! j = Some y → fits 64 (n_send_seq b) →
    ∃ b1 reply, handle_incoming cb cfgb j probe from b = Ok b1 ∧
      n_outbox b1 = n_outbox b ++ [(j, Some from, reply)] ∧
      ∀ c cfg a2 x2 peer, n_links a2 !! i = Some x2 →
        outstanding (nl_tracker x2) !! nl_probe_seq x = Some (ca 0%nat) →
      ∃ a3 x3, handle_incoming c cfg i reply peer a2 = Ok a3 ∧
        n_links a3 !! i = Some x3 ∧ nl_remote x3 = Some peer ∧
        outstanding (nl_tracker x3) = delete (nl_probe_seq x) (outstanding (nl_tracker x2)) ∧
        nl_link x3 = update_link_state (c 4%nat) cfg
          (with_stats (record_rtt (c 3%nat)
             (f64.as_secs_f64 (sat_sub (c 2%nat) (ca 0%nat)) * f64.of_Z 1000)%f64) (nl_link x2)) ∧
        n_scheduler a3 = refresh (nl_link <$> n_links a3) cfg
          (resolve_peer_primary_index (nl_link <$> n_links a3) (n_peer_primary a3))
          (n_scheduler a2).
Proof.
  intros Hx Hps Hseq. destruct (send_probe_eq ca wall carried i a x Hx Hps) as (payload & E & Hdec).
  eexists _, _, _. split; [exact E|]. split; [done|].
  split; [cbn; by rewrite !list_lookup_alter_eq, Hx|]. split; [cbn; by rewrite lookup_insert_eq|].
  intros cb cfgb j from b y Hy Hseqb. unfold handle_incoming at 1.
  rewrite frame_decode by done. cbn [or_return ptype].
  rewrite !bool_decide_false by done. cbn [orb]. unfold on_probe.
  rewrite (note_frame_link _ _ _ _ _ _ _ Hy).
  destruct (note_frame_keeps cb Protocol.Probe (len (frame_with Protocol.Probe (nl_id x) (n_send_seq a) payload)) from y)
    as (_ & _ & Hr). rewrite transmit_eq, Hr.
  eexists _, _. split; [done|]. split; [done|].
  intros c cfg a2 x2 peer Hx2 Hout. unfold handle_incoming.
  rewrite frame_decode by done. cbn [or_return ptype].
  rewrite !bool_decide_false by done. cbn [orb].
  pose proof (note_frame_link c Protocol.ProbeReply
    (len (frame_with Protocol.ProbeReply (nl_id (note_frame cb Protocol.Probe
       (len (frame_with Protocol.Probe (nl_id x) (n_send_seq a) payload)) from y))
       (n_send_seq b) payload)) peer i a2 x2 Hx2) as Hn.
  destruct (reply_matched (λ k, c (2 + k)%nat) cfg i payload _ _ _ _ _ Hn Hdec Hout)
    as (a3 & x3 & E3 & H1 & H2 & H3 & H4 & H5).
  exists a3, x3. split_and!; [exact E3|done|by rewrite H4|done|done|done].
Qed.

(** ** Following the peer's primary *)

(** A name both ends can say: not empty, at most sixteen bytes of UTF-8
    without a zero. *)
Definition sayable (name : list Z) : Prop :=
  name ≠ [] ∧ (length name ≤ LINK_NAME_LEN)%nat ∧ valid_utf8 name = true ∧ Forall (λ b, b ≠ 0) name.

Lemma link_name_field name :
  sayable name →
  encode_link_name name = Ok (name ++ replicate (LINK_NAME_LEN - length name) 0).
Proof.
  intros (_ & Hl & _ & _). unfold encode_link_name. rewrite field_encoded.
  rewrite Nat.min_l, floor_boundary_len by done. by rewrite firstn_all.
Qed.

Lemma primary_name_decoded name v m live :
  sayable name →
  primary_link_name_str (mkVersionInfo v m live (name ++ replicate (LINK_NAME_LEN - length name) 0))
  = Ok (Some name).
Proof.
  intros (Hne & Hl & Hv & Hz). unfold primary_link_name_str. cbn [v_primary_link_name].
  rewrite field_decoded by done. rewrite bool_decide_false by (by destruct name).
  rewrite slice_ok by (rewrite length_app; lia). cbn [mbind outcome_bind].
  by rewrite drop_0, Nat.sub_0_r, take_app_length, lossy_valid.
Qed.

Lemma version_info_frame version cap live i n x name :
  n_links n !! i = Some x → is_Some (nl_remote x) → primary_name n = name → sayable name →
  fits 16 cap → fits 16 live →
  ∃ payload v,
    send_version_info version cap live i n =
      Ok (with_outbox (wrap 64 (n_send_seq n + 1))
            (n_outbox n ++ [(i, nl_remote x, frame_with VersionInfo (nl_id x) (n_send_seq n) payload)]) n) ∧
    length v = VERSION_LEN ∧
    VersionInfoPayload_decode payload =
      Ok (mkVersionInfo v cap live (name ++ replicate (LINK_NAME_LEN - length name) 0)).
Proof.
  intros Hx [r Hr] Hn Hs Hcap Hlive. unfold send_version_info. rewrite Hx, Hr.
  unfold encode_version. rewrite field_encoded. cbn [mbind outcome_bind].
  set (v := take _ version ++ _). assert (length v = VERSION_LEN) as Hv.
  { unfold v. rewrite length_app, length_take, length_replicate.
    pose proof (floor_boundary_le version (Nat.min (length version) VERSION_LEN)). lia. }
  rewrite Hn, (link_name_field _ Hs). cbn [mbind outcome_bind].
  set (nm := name ++ _). assert (length nm = LINK_NAME_LEN) as Hnm.
  { unfold nm. rewrite length_app, length_replicate. destruct Hs as (_ & ? & _). lia. }
  destruct (version_info_prefix (mkVersionInfo v cap live nm) [] 36) as (b & E & Hb & Hd);
    [done..|autounfold with rust; cbn [length]; lia|].
  rewrite E. cbn [mbind outcome_bind]. rewrite transmit_eq, <- Hr. exists b, v. split; [done|]. split; [done|].
  rewrite app_nil_r, firstn_all2 in Hd by (rewrite Hb; autounfold with rust; lia). rewrite Hd.
  rewrite !bool_decide_true by lia. cbn [v_version v_tunnel_mtu v_live_tunnel_mtu v_primary_link_name].
  rewrite firstn_all2 by (rewrite Hnm; autounfold with rust; lia). unfold resize0.
  change 16%nat with LINK_NAME_LEN. by rewrite firstn_all2, Hnm, Nat.sub_diag, app_nil_r by lia.
Qed.

Lemma refresh_follows links cfg p s :
  follow_peer_primary cfg = true →
  primary (refresh links cfg p s) =
  match p with
  | Some k => if existsb (λ y, (y.1 =? k)%nat) (up_indices links) then Some k else None
  | None => None
  end.
Proof. intros Hf. unfold refresh, refresh_from_scores. rewrite Hf. by destruct p. Qed.

(** C17. Primary selection agrees across the tunnel: when a node whose primary
    link has a name both ends can say advertises it, the peer stores exactly
    that name with the two MTUs, and a peer that follows selects, on its next
    refresh, its own link of that name if that link scores, whatever its index
    and the link the message came by; and none otherwise. *)
Theorem primary_followed version cap live i a x name :
  n_links a !! i = Some x → is_Some (nl_remote x) → primary_name a = name → sayable name →
  fits 16 cap → fits 16 live → fits 64 (n_send_seq a) →
  ∃ a1 frame, send_version_info version cap live i a = Ok a1 ∧
    n_outbox a1 = n_outbox a ++ [(i, nl_remote x, frame)] ∧
    ∀ c cfg j from b y, n_links b !! j = Some y →
    ∃ b1, handle_incoming c cfg j frame from b = Ok b1 ∧
      n_peer_primary b1 = Some name ∧ n_peer_mtu b1 = Some cap ∧
      n_peer_live_mtu b1 = (if live =? 0 then None else Some live) ∧
      (follow_peer_primary cfg = true →
       let links := nl_link <$> n_links b1 in
       primary (n_scheduler (resched cfg b1)) =
       match position (λ l, bool_decide (str_bytes (link_name (config l)) = name)) links with
       | Some k => if existsb (λ y, (y.1 =? k)%nat) (up_indices links) then Some k else None
       | None => None
       end).
Proof.
  intros Hx Hr Hn Hs Hcap Hlive Hseq.
  destruct (version_info_frame version cap live i a x name Hx Hr Hn Hs Hcap Hlive)
    as (payload & v & E & Hv & Hd).
  eexists _, _. split; [exact E|]. split; [done|]. intros c cfg j from b y Hy.
  unfold handle_incoming. rewrite frame_decode by done. cbn [or_return ptype].
  rewrite !bool_decide_false by done. cbn [orb]. unfold on_version_info. rewrite Hd. cbn [or_return].
  destruct (field_str_ok VERSION_LEN v Hv) as (s & Es). unfold version_str. cbn [v_version].
  rewrite Es. cbn [mbind outcome_bind mret outcome_ret]. rewrite primary_name_decoded by done.
  cbn [mbind outcome_bind]. eexists. split; [done|]. split; [done|]. split; [done|]. split; [done|].
  intros Hf. unfold resched. cbn [n_scheduler with_scheduler]. by rewrite refresh_follows.
Qed.

(** ** Sharing statistics *)

(** What a link measured reaches the peer whole: the peer files, under its
    own index of the link the report came by, the name, the state, the received
    bytes and the averages as single-precision numbers, with its own count of
    bytes sent on that link and the time. *)
Theorem stats_shared i a x :
  n_links a !! i = Some x → is_Some (nl_remote x) → fits 64 (n_send_seq a) →
  let l := nl_link x in
  let name := str_bytes (link_name (config l)) in
  let avg (e : Ewma) := f64_as_f32 (default f64.zero (Ewma_get e)) in
  let loss := f64_as_f32 (default f64.zero (Ewma_get (loss_rate (stats l))) * f64.of_Z 100)%f64 in
  sayable name → fits 64 (rx_bytes (stats l)) →
  fits 32 (avg (rtt_ms (stats l))) → fits 32 (avg (jitter_ms (stats l))) → fits 32 loss →
  fits 32 (avg (rx_throughput_mbps (stats l))) →
  ∃ a1 frame, send_stats_share i a = Ok a1 ∧
    n_outbox a1 = n_outbox a ++ [(i, nl_remote x, frame)] ∧
    ∀ c cfg j from b y, n_links b !! j = Some y →
    ∃ b1, handle_incoming c cfg j frame from b = Ok b1 ∧
      n_peer_stats b1 = <[wrap 8 (Z.of_nat j) :=
        mkPeer name (f32_as_f64 (avg (rtt_ms (stats l)))) (f32_as_f64 (avg (jitter_ms (stats l))))
          (f32_as_f64 loss) (f32_as_f64 (avg (rx_throughput_mbps (stats l)))) (to_wire (state l))
          (Some (rx_bytes (stats l))) (tx_bytes (stats (nl_link y))) (c 2%nat)]> (n_peer_stats b).
Proof.
  intros Hx [r Hr] Hseq l name avg loss (Hne & Hl & Hv & Hz) Hrx F1 F2 F3 F4.
  unfold send_stats_share. rewrite Hx, Hr. cbv zeta. fold l.
  unfold StatsPayload_encode_name. fold name. rewrite field_encoded.
  rewrite Nat.min_l, floor_boundary_len, firstn_all by done. cbn [mbind outcome_bind].
  set (nm := name ++ _). assert (length nm = NAME_LEN) as Hnm.
  { unfold nm. rewrite length_app, length_replicate. unfold NAME_LEN, LINK_NAME_LEN in *. lia. }
  set (p := Protocol.mkStats _ _ _ _ _ _ _).
  destruct (stats_roundtrip p []) as (bs & E & _ & Hd & _);
    [exact (conj Hnm (conj F1 (conj F2 (conj F3 (conj F4 Hrx)))))|].
  rewrite E. cbn [mbind outcome_bind]. rewrite transmit_eq, <- Hr. eexists _, _. split; [done|].
  split; [done|]. intros c cfg j from b y Hy. unfold handle_incoming.
  rewrite frame_decode by done. cbn [or_return ptype].
  rewrite !bool_decide_false by done. cbn [orb]. unfold on_stats_share. rewrite app_nil_r in Hd.
  rewrite Hd. cbn [or_return]. unfold PeerStatsTable_update, StatsPayload_name_str.
  cbn [s_name p Protocol.with_rx]. unfold nm.
  rewrite (field_decoded NAME_LEN name) by done.
  rewrite slice_ok by (rewrite length_app; lia). cbn [mbind outcome_bind mret outcome_ret].
  rewrite drop_0, Nat.sub_0_r, take_app_length, lossy_valid by done.
  eexists. split; [done|]. cbn -[note_frame]. rewrite list_lookup_alter_eq, Hy. cbn -[note_frame].
  unfold note_frame. by rewrite bool_decide_false by done.
Qed.

(** ** Examples *)

Module node_example.

Definition here : SocketAddr := mkAddr (V4 1) 5000.
Definition there : SocketAddr := mkAddr (V4 2) 5000.
Definition node_link (name : string) (id : Z) : NodeLink :=
  mkNodeLink (mkLink (sample_link name) Up 0
                (record_rtt 1 (f64.of_Z 20) (record_rtt 0 (f64.of_Z 10) sample_stats)) false)
    id (Some there) 200 (f64.lit 2 10) (ProbeTracker_new (nanos_of_secs 1))
    (ThroughputTestReceiveState_new 0) 7.
Definition node_of (ls : list NodeLink) (s : Scheduler) : Node :=
  mkNode ls s [] 0 ∅ ThroughputTestContext_new None None None None 41 [] [].

(** The two ends list their links in different orders. *)
Definition a : Node := node_of [node_link "wan0" 0; node_link "wan1" 1] (set_primary (Some 1%nat) Scheduler_new).
Definition b : Node := node_of [node_link "wan1" 0; node_link "wan0" 1] Scheduler_new.
Definition clk (k : nat) : Z := 1000 + Z.of_nat k.
Definition following : SchedulerConfig :=
  mkSchedulerConfig 5 3 50 (f64.lit 2 10) false false 8 1 Configuration.Scheduler false true
    false 10 500 false 2000 false (f64.lit 5 100) (f64.lit 5 10) false 300 2 1800.


Lemma probe_roundtrip_witness :
  ∃ a1 probe x1, send_probe clk 5 (Ok true) 0 a = Ok (a1, ProbeSent) ∧
    n_outbox a1 = n_outbox a ++ [(0%nat, Some there, probe)] ∧
    n_links a1 !! 0%nat = Some x1 ∧ outstanding (nl_tracker x1) !! 7 = Some (clk 0).
Proof.
  destruct (probe_roundtrip clk 5 true 0 a (node_link "wan0" 0) eq_refl) as (a1 & p & x1 & H1 & H2 & H3 & H4 & _);
    [vm_compute; split; discriminate || reflexivity..|].
  exists a1, p, x1. exact (conj H1 (conj H2 (conj H3 H4))).
Defined.

Lemma wan1_sayable : sayable (str_bytes "wan1").
Proof. split; [discriminate|]. split; [vm_compute; lia|]. split; [reflexivity|]. vm_compute. repeat constructor; discriminate. Qed.

Lemma primary_followed_witness :
  ∃ a1 frame, send_version_info [49] 1400 1380 0 a = Ok a1 ∧
    n_outbox a1 = n_outbox a ++ [(0%nat, Some there, frame)] ∧
    ∃ b1, handle_incoming clk following 1 frame here b = Ok b1 ∧
      n_peer_primary b1 = Some (str_bytes "wan1") ∧ n_peer_mtu b1 = Some 1400.
Proof.
  destruct (primary_followed [49] 1400 1380 0 a (node_link "wan0" 0) (str_bytes "wan1") eq_refl)
    as (a1 & f & H1 & H2 & H3);
    [by eexists|reflexivity|exact wan1_sayable|unfold fits; lia|unfold fits; lia|vm_compute; split; discriminate || reflexivity|].
  exists a1, f. split; [exact H1|]. split; [exact H2|].
  destruct (H3 clk following 1%nat here b (node_link "wan0" 1) eq_refl) as (b1 & E1 & E2 & E3 & _).
  exists b1. exact (conj E1 (conj E2 E3)).
Defined.

(** The peer then uses its own first link, which has the name. *)
Example followed_index :
  match send_version_info [49] 1400 1380 0 a with
  | Ok a1 => match rev (n_outbox a1) with
             | (_, _, f) :: _ =>
                 match handle_incoming clk following 1 f here b with
                 | Ok b1 => primary (n_scheduler (resched following b1))
                 | _ => None
                 end
             | [] => None
             end
  | _ => None
  end = Some 0%nat.
Proof. vm_compute. reflexivity. Qed.

Lemma stats_shared_witness :
  ∃ a1 frame, send_stats_share 0 a = Ok a1 ∧
    n_outbox a1 = n_outbox a ++ [(0%nat, Some there, frame)] ∧
    ∃ b1, handle_incoming clk following 1 frame here b = Ok b1 ∧ is_Some (n_peer_stats b1 !! 1).
Proof.
  destruct (stats_shared 0 a (node_link "wan0" 0) eq_refl) as (a1 & f & H1 & H2 & H3);
    [by eexists|vm_compute; split; discriminate || reflexivity| |vm_compute; split; discriminate || reflexivity..|].
  { split; [discriminate|]. split; [vm_compute; lia|]. split; [reflexivity|]. vm_compute. repeat constructor; discriminate. }
  exists a1, f. split; [exact H1|]. split; [exact H2|].
  destruct (H3 clk following 1%nat here b (node_link "wan0" 1) eq_refl) as (b1 & E1 & E2).
  exists b1. split; [exact E1|]. rewrite E2. eexists. apply lookup_insert_eq.
Defined.

(** A primary whose name is longer than its field is not found by the peer,
    even under the same name. *)
Definition long_name : string := "starlink-backup-1".
Definition a_long : Node := node_of [node_link long_name 0] (set_primary (Some 0%nat) Scheduler_new).
Definition b_long : Node := node_of [node_link long_name 0] Scheduler_new.

Lemma long_name_not_followed :
  match send_version_info [49] 1400 1380 0 a_long with
  | Ok a1 => match rev (n_outbox a1) with
             | (_, _, f) :: _ =>
                 match handle_incoming clk following 0 f here b_long with
                 | Ok b1 => Some (primary (n_scheduler (resched following b1)))
                 | _ => None
                 end
             | [] => None
             end
  | _ => None
  end = Some None.
Proof. vm_compute. reflexivity. Qed.

End node_example.
