(* ===== verification/Events.v ===== *)
(** * Structured events ([events.rs], [logbuf.rs])

    The rings that serve log lines and events to monitoring clients, and the
    detector that turns successive observations of the daemon into events. The
    text of a percentage ([{:.1}]) is a parameter. *)

From S2P Require Import Prelude Bytes F64 Link.

(** ** Rings *)

(** A ring of numbered entries: [LogRing] and [EventRing]. *)
Record ring (A : Type) := mkRing { entries : list (Z * A); next_seq : Z }.
Arguments mkRing {_} _ _.
Arguments entries {_} _.
Arguments next_seq {_} _.

Definition EVENT_RING_CAPACITY : nat := 1000.
Definition LOG_RING_CAPACITY : nat := 500.

Definition ring_new {A} : ring A := mkRing [] 1.

(** [push] takes its number, then appends under the lock. *)
Definition ring_reserve {A} (r : ring A) : Z * ring A :=
  (next_seq r, mkRing (entries r) (wrap 64 (next_seq r + 1))).

Definition ring_append {A} (capacity : nat) (seq : Z) (a : A) (r : ring A) : ring A :=
  let kept := if bool_decide (length (entries r) = capacity) then drop 1 (entries r)
              else entries r in
  mkRing (kept ++ [(seq, a)]) (next_seq r).

Definition ring_push {A} (capacity : nat) (a : A) (r : ring A) : ring A :=
  let '(seq, r) := ring_reserve r in ring_append capacity seq a r.

Definition entries_since {A} (since : Z) (r : ring A) : list (Z * A) :=
  filter (λ e, since < e.1) (entries r).

(** ** Events *)

Inductive EventKind :=
  | LinkUp | LinkDown | LinkDegraded | LinkRecovered | CongestionDetected | CongestionCleared
  | TxQueueFull | SendFailure | Reroute | FecRecovery | FecUnrecoverable | ReorderWarning
  | MtuChanged | MtuNegotiationFailed | WireguardHandshake | WireguardRekey | WireguardError
  | TunDrop | OutboundQueueDrop.

Global Instance EventKind_eq_dec : EqDecision EventKind.
Proof. solve_decision. Defined.

Definition EventKind_as_str (k : EventKind) : string :=
  match k with
  | LinkUp => "LINK_UP" | LinkDown => "LINK_DOWN" | LinkDegraded => "LINK_DEGRADED"
  | LinkRecovered => "LINK_RECOVERED" | CongestionDetected => "CONGESTION_DETECTED"
  | CongestionCleared => "CONGESTION_CLEARED" | TxQueueFull => "TX_QUEUE_FULL"
  | SendFailure => "SEND_FAILURE" | Reroute => "REROUTE" | FecRecovery => "FEC_RECOVERY"
  | FecUnrecoverable => "FEC_UNRECOVERABLE" | ReorderWarning => "REORDER_WARNING"
  | MtuChanged => "MTU_CHANGED" | MtuNegotiationFailed => "MTU_NEGOTIATION_FAILED"
  | WireguardHandshake => "WIREGUARD_HANDSHAKE" | WireguardRekey => "WIREGUARD_REKEY"
  | WireguardError => "WIREGUARD_ERROR" | TunDrop => "TUN_DROP"
  | OutboundQueueDrop => "OUTBOUND_QUEUE_DROP"
  end.

Global Instance EventKind_countable : Countable EventKind.
Proof.
  set (all := [LinkUp; LinkDown; LinkDegraded; LinkRecovered; CongestionDetected;
    CongestionCleared; TxQueueFull; SendFailure; Reroute; FecRecovery; FecUnrecoverable;
    ReorderWarning; MtuChanged; MtuNegotiationFailed; WireguardHandshake; WireguardRekey;
    WireguardError; TunDrop; OutboundQueueDrop]).
  apply (inj_countable' EventKind_as_str
    (λ s, default LinkUp (List.find (λ k, String.eqb (EventKind_as_str k) s) all))).
  by intros [].
Defined.

Definition is_loss (k : EventKind) : bool :=
  match k with
  | FecUnrecoverable | SendFailure | TunDrop | OutboundQueueDrop => true
  | _ => false
  end.

Inductive Severity := Info | Warn | Error.
Definition Severity_as_str (s : Severity) : string :=
  match s with Info => "info" | Warn => "warn" | Error => "error" end.

Record NewEvent := mkEvent {
  e_kind : EventKind;
  e_severity : Severity;
  e_link : option string;
  e_message : string;
  e_fields : list (string * string) }.

(** What the rings hold; the number is the ring's. *)
Record EventRecord := mkEventRecord {
  er_unix_ts_ms : Z;
  er_severity : string;
  er_kind : string;
  er_link : option string;
  er_message : string;
  er_fields : list (string * string) }.

Record LogEntry := mkLogEntry {
  log_unix_ts_ms : Z;
  log_level : string;
  log_target : option string;
  log_message : string }.

Definition EventRing_push (unix_ts_ms : Z) (ev : NewEvent) (r : ring EventRecord)
    : ring EventRecord :=
  ring_push EVENT_RING_CAPACITY
    (mkEventRecord unix_ts_ms (Severity_as_str (e_severity ev)) (EventKind_as_str (e_kind ev))
       (e_link ev) (e_message ev) (e_fields ev)) r.

Definition LogRing_push (unix_ts_ms : Z) (level : string) (target : option string)
    (message : string) (r : ring LogEntry) : ring LogEntry :=
  ring_push LOG_RING_CAPACITY (mkLogEntry unix_ts_ms level target message) r.

Definition recent_lines_snapshot (r : ring LogEntry) : string :=
  String.concat (String (Ascii.ascii_of_nat 10) EmptyString)
    ((λ e, log_message e.2) <$> entries_since 0 r).

(** ** Observations and the detector *)

Record LinkObs := mkLinkObs {
  o_name : string;
  o_state : LinkState;
  o_congested : bool;
  o_loss_pct : option f64;
  o_queue_full : Z;
  o_send_failed : Z;
  o_rerouted : Z;
  o_wg_rejected : Z;
  o_handshake_age_ms : option Z }.

Record Obs := mkObs {
  now_ms : Z;
  o_links : list LinkObs;
  o_fec_recovered : Z;
  o_fec_unrecoverable : Z;
  o_outbound_dropped : Z;
  o_tun_dropped : Z;
  o_reorder_timeouts : Z;
  o_mtu : Z }.

Record LinkTrack := mkTrack {
  t_state : option LinkState;
  t_ever_up : bool;
  t_congested : bool;
  t_lossy : bool;
  t_queue_full : Z;
  t_send_failed : Z;
  t_rerouted : Z;
  t_wg_rejected : Z;
  t_handshake_age_ms : option Z }.

Definition LinkTrack_default : LinkTrack := mkTrack None false false false 0 0 0 0 None.

Definition GLOBAL : Z := 2 ^ 64 - 1.
Definition COUNTER_THROTTLE_MS : Z := 2000.
Definition REORDER_WARN_MIN : Z := 50.
Definition LOSSY_ENTER_PCT : f64 := f64.of_Z 5.
Definition LOSSY_EXIT_PCT : f64 := f64.of_Z 2.

Record EventDetector := mkDetector {
  seeded : bool;
  d_links : list LinkTrack;
  d_fec_recovered : Z;
  d_fec_unrecoverable : Z;
  d_outbound_dropped : Z;
  d_tun_dropped : Z;
  d_reorder_timeouts : Z;
  d_mtu : Z;
  pending : gmap (EventKind * Z) Z;
  last_emit_ms : gmap (EventKind * Z) Z }.

Definition EventDetector_new : EventDetector := mkDetector false [] 0 0 0 0 0 0 ∅ ∅.

Definition add_delta (k : EventKind) (idx now prev : Z) (p : gmap (EventKind * Z) Z)
    : gmap (EventKind * Z) Z :=
  if prev <? now then <[(k, idx) := wrap 64 (default 0 (p !! (k, idx)) + (now - prev))]> p else p.

Section detector.
Context (fmt1 : f64 → string).

(** The events of one link's observation. *)
Definition state_events (l : LinkObs) (t : LinkTrack) : list NewEvent :=
  match t_state t with
  | Some prev =>
      if bool_decide (prev = o_state l) then [] else
      let f := [("from", as_str prev); ("to", as_str (o_state l))] in
      match o_state l with
      | Up => if t_ever_up t
              then [mkEvent LinkRecovered Info (Some (o_name l))
                      ("link " +:+ o_name l +:+ " is back up") f]
              else [mkEvent LinkUp Info (Some (o_name l)) ("link " +:+ o_name l +:+ " is up") f]
      | Down => [mkEvent LinkDown Error (Some (o_name l)) ("link " +:+ o_name l +:+ " is down") f]
      | Probing => []
      end
  | None => []
  end.

Definition congestion_events (l : LinkObs) (t : LinkTrack) : list NewEvent :=
  if o_congested l && negb (t_congested t)
  then [mkEvent CongestionDetected Warn (Some (o_name l))
          ("link " +:+ o_name l +:+ " is congested; traffic is being shifted away") []]
  else if negb (o_congested l) && t_congested t
  then [mkEvent CongestionCleared Info (Some (o_name l))
          ("link " +:+ o_name l +:+ " congestion cleared") []]
  else [].

Definition loss_events (l : LinkObs) (t : LinkTrack) : list NewEvent :=
  match o_loss_pct l with
  | None => []
  | Some loss =>
      if (LOSSY_ENTER_PCT <=? loss)%f64 && negb (t_lossy t)
      then [mkEvent LinkDegraded Warn (Some (o_name l))
              ("link " +:+ o_name l +:+ " loss is " +:+ fmt1 loss +:+ "%") [("loss_pct", fmt1 loss)]]
      else if (loss <=? LOSSY_EXIT_PCT)%f64 && t_lossy t
      then [mkEvent LinkRecovered Info (Some (o_name l))
              ("link " +:+ o_name l +:+ " loss is back to " +:+ fmt1 loss +:+ "%")
              [("loss_pct", fmt1 loss)]]
      else []
  end.

Definition handshake_events (l : LinkObs) (t : LinkTrack) : list NewEvent :=
  match t_handshake_age_ms t, o_handshake_age_ms l with
  | None, Some age =>
      [mkEvent WireguardHandshake Info (Some (o_name l))
         ("link " +:+ o_name l +:+ " completed its WireGuard handshake") [("age_ms", pretty age)]]
  | Some prev, Some now =>
      if now <? prev
      then [mkEvent WireguardRekey Info (Some (o_name l)) ("link " +:+ o_name l +:+ " rekeyed") []]
      else []
  | _, None => []
  end.

Definition next_lossy (l : LinkObs) (t : LinkTrack) : bool :=
  match o_loss_pct l with
  | Some loss =>
      if bool_decide (o_state l = Up) then
        if (LOSSY_ENTER_PCT <=? loss)%f64 then true
        else if (loss <=? LOSSY_EXIT_PCT)%f64 then false else t_lossy t
      else false
  | None => false
  end.

Definition track_link (l : LinkObs) (t : LinkTrack) : LinkTrack :=
  mkTrack (Some (o_state l)) (t_ever_up t || bool_decide (o_state l = Up))
    (bool_decide (o_state l = Up) && o_congested l) (next_lossy l t)
    (o_queue_full l) (o_send_failed l) (o_rerouted l) (o_wg_rejected l) (o_handshake_age_ms l).

Definition link_events (l : LinkObs) (t : LinkTrack) : list NewEvent :=
  state_events l t ++
  (if bool_decide (o_state l = Up) then congestion_events l t ++ loss_events l t else []) ++
  handshake_events l t.

Definition link_deltas (idx : Z) (l : LinkObs) (t : LinkTrack) (p : gmap (EventKind * Z) Z)
    : gmap (EventKind * Z) Z :=
  let p := add_delta TxQueueFull idx (o_queue_full l) (t_queue_full t) p in
  let p := add_delta SendFailure idx (o_send_failed l) (t_send_failed t) p in
  let p := add_delta Reroute idx (o_rerouted l) (t_rerouted t) p in
  add_delta WireguardError idx (o_wg_rejected l) (t_wg_rejected t) p.

(** [observe_link] for every link of the observation, from index [idx] on. *)
Fixpoint observe_links (emit : bool) (idx : Z) (ls : list LinkObs) (ts : list LinkTrack)
    (p : gmap (EventKind * Z) Z) : list LinkTrack * gmap (EventKind * Z) Z * list NewEvent :=
  match ls, ts with
  | l :: ls, t :: ts =>
      let p := if emit then link_deltas idx l t p else p in
      let out := if emit then link_events l t else [] in
      let '(ts, p, rest) := observe_links emit (idx + 1) ls ts p in
      (track_link l t :: ts, p, out ++ rest)
  | _, _ => (ts, p, [])
  end.

(** [sort_by_key(|(k, idx)| (k.as_str(), *idx))]. *)
Definition key_leb (a b : EventKind * Z) : bool :=
  match String.compare (EventKind_as_str a.1) (EventKind_as_str b.1) with
  | Lt => true | Gt => false | Eq => a.2 <=? b.2
  end.
Fixpoint key_insert (k : EventKind * Z) (l : list (EventKind * Z)) : list (EventKind * Z) :=
  match l with
  | [] => [k]
  | x :: l => if key_leb k x then k :: x :: l else x :: key_insert k l
  end.
Definition key_sort (l : list (EventKind * Z)) : list (EventKind * Z) := foldr key_insert [] l.

Definition is_due (now : Z) (last : gmap (EventKind * Z) Z) (kn : (EventKind * Z) * Z) : Prop :=
  0 < kn.2 ∧ match last !! kn.1 with
             | Some t => COUNTER_THROTTLE_MS ≤ sat_sub now t
             | None => True
             end.
Global Instance is_due_dec now last kn : Decision (is_due now last kn).
Proof. unfold is_due. destruct (last !! kn.1); apply _. Defined.

Definition link_at (ls : list LinkObs) (idx : Z) : option string :=
  if (0 <=? idx) && (idx <? len ls) then o_name <$> ls !! Z.to_nat idx else None.

Definition counter_text (k : EventKind) (who n : string) : option (Severity * string) :=
  match k with
  | TxQueueFull => Some (Warn, "link " +:+ who +:+ ": TX queue was full " +:+ n +:+ " time(s)")
  | SendFailure => Some (Warn, "link " +:+ who +:+ ": " +:+ n +:+ " packet(s) failed to send")
  | Reroute => Some (Info, "link " +:+ who +:+ ": " +:+ n +:+ " packet(s) rerouted to another link")
  | WireguardError =>
      Some (Warn, "link " +:+ who +:+ ": " +:+ n +:+ " datagram(s) rejected by WireGuard")
  | FecRecovery => Some (Info, "FEC recovered " +:+ n +:+ " lost frame(s)")
  | FecUnrecoverable => Some (Warn, "FEC could not recover " +:+ n +:+ " parity group share(s)")
  | OutboundQueueDrop => Some (Warn, n +:+ " packet(s) dropped: outbound queue full")
  | TunDrop => Some (Warn, "TUN device dropped " +:+ n +:+ " packet(s)")
  | ReorderWarning => Some (Warn, n +:+ " frame(s) waited out the full reorder window")
  | _ => None
  end.

(** What a due counter is reported as. *)
Definition counter_event (ls : list LinkObs) (key : EventKind * Z) (n : Z) : list NewEvent :=
  if bool_decide (key.1 = ReorderWarning) && (n <? REORDER_WARN_MIN) then []
  else
    let link := link_at ls key.2 in
    match counter_text key.1 (default "" link) (pretty n) with
    | Some (sev, msg) => [mkEvent key.1 sev link msg [("count", pretty n)]]
    | None => []
    end.

Fixpoint flush_keys (now : Z) (ls : list LinkObs) (due : list (EventKind * Z))
    (p last : gmap (EventKind * Z) Z) : gmap (EventKind * Z) Z * gmap (EventKind * Z) Z * list NewEvent :=
  match due with
  | [] => (p, last, [])
  | key :: due =>
      let n := default 0 (p !! key) in
      let '(p, last, out) := flush_keys now ls due (delete key p) (<[key := now]> last) in
      (p, last, counter_event ls key n ++ out)
  end.

Definition flush_counters (now : Z) (ls : list LinkObs) (p last : gmap (EventKind * Z) Z)
    : gmap (EventKind * Z) Z * gmap (EventKind * Z) Z * list NewEvent :=
  flush_keys now ls (key_sort (map_to_list (filter (is_due now last) p)).*1) p last.

Definition mtu_events (from to : Z) : list NewEvent :=
  if negb (to =? from) && negb (from =? 0)
  then [mkEvent MtuChanged Info None ("tunnel MTU changed " +:+ pretty from +:+ " -> " +:+ pretty to)
          [("from", pretty from); ("to", pretty to)]]
  else [].

Definition global_deltas (o : Obs) (d : EventDetector) (p : gmap (EventKind * Z) Z)
    : gmap (EventKind * Z) Z :=
  let p := add_delta FecRecovery GLOBAL (o_fec_recovered o) (d_fec_recovered d) p in
  let p := add_delta FecUnrecoverable GLOBAL (o_fec_unrecoverable o) (d_fec_unrecoverable d) p in
  let p := add_delta OutboundQueueDrop GLOBAL (o_outbound_dropped o) (d_outbound_dropped d) p in
  let p := add_delta TunDrop GLOBAL (o_tun_dropped o) (d_tun_dropped d) p in
  add_delta ReorderWarning GLOBAL (o_reorder_timeouts o) (d_reorder_timeouts d) p.

Definition observe (o : Obs) (d : EventDetector) : EventDetector * list NewEvent :=
  let ts := d_links d ++ replicate (length (o_links o) - length (d_links d)) LinkTrack_default in
  let '(ts, p, out) := observe_links (seeded d) 0 (o_links o) ts (pending d) in
  let out' := if seeded d then mtu_events (d_mtu d) (o_mtu o) else [] in
  let p := if seeded d then global_deltas o d p else p in
  let '(p, last, out'') := flush_counters (now_ms o) (o_links o) p (last_emit_ms d) in
  (mkDetector true ts (o_fec_recovered o) (o_fec_unrecoverable o) (o_outbound_dropped o)
     (o_tun_dropped o) (o_reorder_timeouts o) (o_mtu o) p last,
   out ++ out' ++ out'').

End detector.

(** ** A client of a ring *)

(** The entries [as] numbered from [k]. *)
Fixpoint numbered {A} (k : Z) (as_ : list A) : list (Z * A) :=
  match as_ with [] => [] | a :: as_ => (k, a) :: numbered (k + 1) as_ end.

Lemma numbered_app {A} k (xs ys : list A) :
  numbered k (xs ++ ys) = numbered k xs ++ numbered (k + len xs) ys.
Proof.
  revert k. induction xs as [|x xs IH]; intros k; cbn [app numbered]; [by rewrite Z.add_0_r|].
  rewrite IH. cbn [app]. do 3 f_equal. unfold len. cbn [length]. lia.
Qed.

Lemma length_numbered {A} k (xs : list A) : length (numbered k xs) = length xs.
Proof. revert k. induction xs as [|x xs IH]; intros k; cbn; [done|by rewrite IH]. Qed.

Lemma numbered_drop {A} k n (xs : list A) :
  (n ≤ length xs)%nat → drop n (numbered k xs) = numbered (k + Z.of_nat n) (drop n xs).
Proof.
  revert k n. induction xs as [|x xs IH]; intros k [|n] Hn; cbn [drop numbered length] in *;
    [done|lia|by replace (k + Z.of_nat 0) with k by lia|].
  rewrite IH by lia. f_equal. lia.
Qed.

Lemma numbered_since {A} k since (xs : list A) :
  filter (λ e, since < e.1) (numbered k xs) =
  numbered (Z.max k (since + 1)) (drop (Z.to_nat (since + 1 - k)) xs).
Proof.
  revert k. induction xs as [|x xs IH]; intros k; cbn [numbered]; [by rewrite drop_nil|].
  rewrite filter_cons. cbn [fst]. case_decide as Hk.
  - replace (Z.to_nat (since + 1 - k)) with O by lia. rewrite Z.max_l by lia. cbn. f_equal.
    rewrite IH. replace (Z.to_nat (since + 1 - (k + 1))) with O by lia. f_equal. lia.
  - rewrite IH. replace (Z.to_nat (since + 1 - k)) with (S (Z.to_nat (since + 1 - (k + 1)))) by lia.
    cbn [drop]. f_equal. lia.
Qed.

Definition ring_after {A} (capacity : nat) (xs : list A) : ring A :=
  foldl (λ r a, ring_push capacity a r) ring_new xs.

Lemma ring_contents {A} capacity (xs : list A) :
  (0 < capacity)%nat → len xs + 1 < 2 ^ 64 →
  ring_after capacity xs =
    mkRing (drop (length xs - capacity) (numbered 1 xs)) (len xs + 1).
Proof.
  intros Hc. induction xs as [|x xs IH] using rev_ind; intros Hl; [done|].
  unfold ring_after in *. rewrite foldl_app. cbn [foldl].
  unfold len in Hl. rewrite length_app in Hl. cbn [length] in Hl.
  rewrite IH by (unfold len; lia). unfold ring_push, ring_reserve, ring_append. cbn [entries next_seq].
  rewrite length_drop, length_numbered, length_app, numbered_app. cbn [length numbered].
  unfold len. rewrite length_app. cbn [length].
  rewrite wrap_small by (unfold fits; lia). f_equal; [|lia].
  case_bool_decide as Hd.
  - rewrite drop_drop. rewrite drop_app_le by (rewrite length_numbered; lia).
    replace (length xs - capacity + 1)%nat with (length xs + 1 - capacity)%nat by lia.
    do 2 f_equal. f_equal. lia.
  - rewrite drop_app_le by (rewrite length_numbered; lia).
    replace (length xs + 1 - capacity)%nat with (length xs - capacity)%nat by lia.
    do 2 f_equal. f_equal. lia.
Qed.

(** A ring numbers what is pushed from one and keeps the latest; a client
    that asks with the number it last saw gets every newer entry that is still
    kept, in order. So a client that asks before more than a ringful of new
    entries came misses none and sees none twice. *)
Theorem ring_serves_deltas {A} capacity (seen new : list A) since :
  (0 < capacity)%nat → len seen + len new + 1 < 2 ^ 64 → 0 ≤ since →
  let xs := seen ++ new in
  entries_since since (ring_after capacity xs) =
    (let from := Z.max since (len xs - Z.of_nat capacity) in
     numbered (from + 1) (drop (Z.to_nat from) xs)) ∧
  ((length new ≤ capacity)%nat →
   entries_since (len seen) (ring_after capacity xs) = numbered (len seen + 1) new).
Proof.
  intros Hc Hl Hs xs.
  assert (len xs + 1 < 2 ^ 64) as Hx by (unfold xs, len in *; rewrite length_app; lia).
  assert (∀ since, 0 ≤ since → entries_since since (ring_after capacity xs) =
    numbered (Z.max since (len xs - Z.of_nat capacity) + 1)
      (drop (Z.to_nat (Z.max since (len xs - Z.of_nat capacity))) xs)) as H.
  { intros c Hc0. rewrite ring_contents by done. unfold entries_since. cbn [entries].
    rewrite numbered_drop by lia. rewrite numbered_since, drop_drop. unfold len in *.
    f_equal; [lia|]. f_equal. lia. }
  split; [by apply H|]. intros Hn. rewrite H by (unfold len; lia).
  unfold xs, len in *. rewrite length_app. rewrite Z.max_l by lia. f_equal.
  rewrite Nat2Z.id. apply drop_app_length.
Qed.

(** ** Counters are accounted for *)

Definition amount (p : gmap (EventKind * Z) Z) (key : EventKind * Z) : Z := default 0 (p !! key).

Definition rise (now prev : Z) : Z := Z.max 0 (now - prev).

Definition link_rise (k : EventKind) (l : LinkObs) (t : LinkTrack) : Z :=
  match k with
  | TxQueueFull => rise (o_queue_full l) (t_queue_full t)
  | SendFailure => rise (o_send_failed l) (t_send_failed t)
  | Reroute => rise (o_rerouted l) (t_rerouted t)
  | WireguardError => rise (o_wg_rejected l) (t_wg_rejected t)
  | _ => 0
  end.

Fixpoint links_rise (key : EventKind * Z) (idx : Z) (ls : list LinkObs) (ts : list LinkTrack) : Z :=
  match ls, ts with
  | l :: ls, t :: ts => (if key.2 =? idx then link_rise key.1 l t else 0) + links_rise key (idx + 1) ls ts
  | _, _ => 0
  end.

Definition global_rise (key : EventKind * Z) (o : Obs) (d : EventDetector) : Z :=
  if key.2 =? GLOBAL then
    match key.1 with
    | FecRecovery => rise (o_fec_recovered o) (d_fec_recovered d)
    | FecUnrecoverable => rise (o_fec_unrecoverable o) (d_fec_unrecoverable d)
    | OutboundQueueDrop => rise (o_outbound_dropped o) (d_outbound_dropped d)
    | TunDrop => rise (o_tun_dropped o) (d_tun_dropped d)
    | ReorderWarning => rise (o_reorder_timeouts o) (d_reorder_timeouts d)
    | _ => 0
    end
  else 0.

Definition tracks_for (o : Obs) (d : EventDetector) : list LinkTrack :=
  d_links d ++ replicate (length (o_links o) - length (d_links d)) LinkTrack_default.

(** By how much the counter of a key rose since the previous observation. *)
Definition rose (key : EventKind * Z) (o : Obs) (d : EventDetector) : Z :=
  if seeded d then links_rise key 0 (o_links o) (tracks_for o d) + global_rise key o d else 0.

(** Pending amounts are 64-bit counters. *)
Definition counts (p : gmap (EventKind * Z) Z) : Prop := ∀ key, fits 64 (amount p key).

Lemma counts_wrap p key : counts p → wrap 64 (amount p key) = amount p key.
Proof. intros H. by apply wrap_small. Qed.

Lemma rise_nonneg a b : 0 ≤ rise a b.
Proof. unfold rise. lia. Qed.
#[local] Hint Resolve rise_nonneg : core.

Lemma add_delta_amount k idx now prev p key :
  counts p →
  amount (add_delta k idx now prev p) key =
  wrap 64 (amount p key + (if bool_decide (key = (k, idx)) then rise now prev else 0)).
Proof.
  intros Hp. pose proof (counts_wrap p key Hp) as Hw. unfold add_delta, amount, rise in *.
  destruct (Z.ltb_spec prev now).
  - case_bool_decide as Hk; [subst key|].
    + rewrite lookup_insert_eq, Z.max_r by lia. done.
    + rewrite lookup_insert_ne by done. by rewrite Z.add_0_r.
  - replace (if bool_decide _ then _ else 0) with 0 by (case_bool_decide; lia).
    by rewrite Z.add_0_r.
Qed.

Lemma add_delta_counts k idx now prev p : counts p → counts (add_delta k idx now prev p).
Proof. intros Hp key. rewrite add_delta_amount by done. apply wrap_fits; lia. Qed.
#[local] Hint Resolve add_delta_counts : core.

Lemma link_deltas_amount idx l t p key :
  counts p →
  amount (link_deltas idx l t p) key =
  wrap 64 (amount p key + (if key.2 =? idx then link_rise key.1 l t else 0)).
Proof.
  intros Hp. unfold link_deltas. rewrite !add_delta_amount by auto. repeat first [rewrite wrap_add_l | rewrite <-Z.add_assoc]. f_equal.
  destruct key as [k i]. cbn [fst snd]. destruct (Z.eqb_spec i idx) as [->|Hi].
  - destruct k; cbn [link_rise]; repeat first [rewrite bool_decide_true by done | rewrite bool_decide_false by congruence]; lia.
  - rewrite !bool_decide_false by congruence. lia.
Qed.

Lemma link_deltas_counts idx l t p : counts p → counts (link_deltas idx l t p).
Proof. unfold link_deltas. auto. Qed.
#[local] Hint Resolve link_deltas_counts : core.

Section runs.
Context (fmt1 : f64 → string).

Lemma observe_links_amount emit idx ls ts p key ts' p' out :
  counts p → observe_links fmt1 emit idx ls ts p = (ts', p', out) →
  counts p' ∧ amount p' key = wrap 64 (amount p key + (if emit then links_rise key idx ls ts else 0)).
Proof.
  revert idx ts p ts' p' out. induction ls as [|l ls IH]; intros idx [|t ts] p ts' p' out Hp E;
    cbn [observe_links links_rise] in E |- *; try (simplify_eq; split; [done|];
      rewrite <-(counts_wrap _ key Hp) at 1; f_equal; destruct emit; lia).
  destruct (observe_links _ _ _ ls ts _) as [[ts1 p1] out1] eqn:E1. simplify_eq.
  destruct emit.
  - destruct (IH _ _ _ _ _ _ (link_deltas_counts idx l t p Hp) E1) as [Hc ->]. split; [done|].
    rewrite link_deltas_amount, wrap_add_l by done. f_equal. lia.
  - by destruct (IH _ _ _ _ _ _ Hp E1) as [Hc ->].
Qed.

Lemma global_deltas_amount o d p key :
  counts p → counts (global_deltas o d p) ∧
  amount (global_deltas o d p) key = wrap 64 (amount p key + global_rise key o d).
Proof.
  intros Hp. unfold global_deltas. split; [auto 10|].
  rewrite !add_delta_amount by auto 10. repeat first [rewrite wrap_add_l | rewrite <-Z.add_assoc]. f_equal. unfold global_rise.
  destruct key as [k i]. cbn [fst snd]. destruct (Z.eqb_spec i GLOBAL) as [->|Hi].
  - destruct k; repeat first [rewrite bool_decide_true by done | rewrite bool_decide_false by congruence]; lia.
  - rewrite !bool_decide_false by congruence. lia.
Qed.

(** *** The sorted list of due keys *)

Lemma key_insert_perm k l : key_insert k l ≡ₚ k :: l.
Proof.
  induction l as [|x l IH]; cbn; [done|]. destruct (key_leb k x); [done|]. rewrite IH. constructor.
Qed.

Lemma key_sort_perm l : key_sort l ≡ₚ l.
Proof. induction l as [|x l IH]; cbn; [done|]. by rewrite key_insert_perm, IH. Qed.

Definition due_keys (now : Z) (p last : gmap (EventKind * Z) Z) : list (EventKind * Z) :=
  key_sort (map_to_list (filter (is_due now last) p)).*1.

Lemma due_keys_nodup now p last : NoDup (due_keys now p last).
Proof. unfold due_keys. rewrite key_sort_perm. apply NoDup_fst_map_to_list. Qed.

Lemma elem_of_due_keys now p last key :
  key ∈ due_keys now p last ↔ is_due now last (key, amount p key).
Proof.
  unfold due_keys. rewrite key_sort_perm, list_elem_of_fmap. unfold amount. split.
  - intros ([k n] & -> & Hin%elem_of_map_to_list). cbn [fst].
    apply map_lookup_filter_Some in Hin as [-> Hd]. done.
  - intros Hd. destruct (p !! key) as [n|] eqn:E; [|by destruct Hd as [?%Z.lt_irrefl _]].
    exists (key, n). split; [done|]. apply elem_of_map_to_list, map_lookup_filter_Some. done.
Qed.

Lemma flush_keys_spec now ls due p last p' last' out :
  NoDup due → flush_keys now ls due p last = (p', last', out) →
  out = concat ((λ key, counter_event ls key (amount p key)) <$> due) ∧
  ∀ key, p' !! key = (if bool_decide (key ∈ due) then None else p !! key) ∧
         last' !! key = (if bool_decide (key ∈ due) then Some now else last !! key).
Proof.
  revert p last p' last' out. induction due as [|k due IH]; intros p last p' last' out Hnd E;
    cbn [flush_keys] in E; [by simplify_eq|].
  destruct (flush_keys now ls due _ _) as [[p1 last1] out1] eqn:E1. simplify_eq.
  apply NoDup_cons in Hnd as [Hk Hnd]. destruct (IH _ _ _ _ _ Hnd E1) as [-> Hl]. split.
  - cbn [fmap list_fmap concat]. f_equal. f_equal. apply list_fmap_ext. intros i key Hi.
    unfold amount. rewrite lookup_delete_ne; [done|]. intros ->. by apply list_elem_of_lookup_2 in Hi.
  - intros key. destruct (Hl key) as [-> ->]. destruct (decide (key = k)) as [->|Hne].
    + rewrite (bool_decide_false (k ∈ due)) by done. rewrite bool_decide_true by left.
      by rewrite lookup_delete_eq, lookup_insert_eq.
    + rewrite (bool_decide_ext (key ∈ k :: due) (key ∈ due)) by set_solver.
      by rewrite lookup_delete_ne, lookup_insert_ne.
Qed.

(** What one observation reports of a key: its whole pending amount, when it is
    due. *)
Definition reported (key : EventKind * Z) (o : Obs) (d : EventDetector) : Z :=
  let n := wrap 64 (amount (pending d) key + rose key o d) in
  if bool_decide (is_due (now_ms o) (last_emit_ms d) (key, n)) then n else 0.

Definition wf (d : EventDetector) : Prop := counts (pending d).

Lemma observe_step o d d' out :
  wf d → observe fmt1 o d = (d', out) →
  wf d' ∧ seeded d' = true ∧
  ∀ key, let n := wrap 64 (amount (pending d) key + rose key o d) in
    let due := bool_decide (is_due (now_ms o) (last_emit_ms d) (key, n)) in
    amount (pending d') key = (if due then 0 else n) ∧
    last_emit_ms d' !! key = (if due then Some (now_ms o) else last_emit_ms d !! key) ∧
    (due → counter_event (o_links o) key n ⊆ out).
Proof.
  intros Hw E. unfold observe in E. fold (tracks_for o d) in E.
  destruct (observe_links _ _ _ _ _ _) as [[ts p] out1] eqn:E1.
  set (p1 := if seeded d then global_deltas o d p else p) in *.
  assert (∀ key, counts p1 ∧ amount p1 key = wrap 64 (amount (pending d) key + rose key o d)) as Hp1.
  { intros key. destruct (observe_links_amount _ _ _ _ _ key _ _ _ Hw E1) as [Hc Ha].
    unfold p1, rose. destruct (seeded d).
    - destruct (global_deltas_amount o d p key Hc) as [Hg ->]. split; [done|].
      rewrite Ha, wrap_add_l. f_equal. lia.
    - done. }
  unfold flush_counters in E. fold (due_keys (now_ms o) p1 (last_emit_ms d)) in E.
  destruct (flush_keys _ _ _ _ _) as [[p2 last] out2] eqn:E2. simplify_eq.
  apply flush_keys_spec in E2 as [-> Hl]; [|apply due_keys_nodup].
  assert (∀ key, amount p2 key =
    (if bool_decide (key ∈ due_keys (now_ms o) p1 (last_emit_ms d)) then 0 else amount p1 key)) as H2.
  { intros key. unfold amount. destruct (Hl key) as [-> _]. by case_bool_decide. }
  split; [|split; [done|]].
  - intros key. cbn [pending]. rewrite H2. destruct (Hp1 key) as [Hc _].
    case_bool_decide; [unfold fits; lia|apply Hc].
  - intros key. cbn [pending last_emit_ms]. rewrite H2. destruct (Hl key) as [_ ->].
    destruct (Hp1 key) as [_ <-]. rewrite !(bool_decide_ext _ _ (elem_of_due_keys _ _ _ _)).
    split; [done|]. split; [done|]. intros Hd%bool_decide_unpack%elem_of_due_keys e He.
    rewrite !elem_of_app. do 2 right. apply list_elem_of_In, in_concat. eexists.
    split; [|by apply list_elem_of_In]. apply list_elem_of_In.
    apply list_elem_of_fmap. by exists key.
Qed.

(** *** Runs of observations *)

(** The counter a key stands for. *)
Definition at_link (f : LinkObs → Z) (i : Z) (o : Obs) : Z :=
  if 0 <=? i then default 0 (f <$> o_links o !! Z.to_nat i) else 0.

Definition at_global (f : Obs → Z) (i : Z) (o : Obs) : Z := if i =? GLOBAL then f o else 0.

Definition counter (key : EventKind * Z) (o : Obs) : Z :=
  match key.1 with
  | TxQueueFull => at_link o_queue_full key.2 o
  | SendFailure => at_link o_send_failed key.2 o
  | Reroute => at_link o_rerouted key.2 o
  | WireguardError => at_link o_wg_rejected key.2 o
  | FecRecovery => at_global o_fec_recovered key.2 o
  | FecUnrecoverable => at_global o_fec_unrecoverable key.2 o
  | OutboundQueueDrop => at_global o_outbound_dropped key.2 o
  | TunDrop => at_global o_tun_dropped key.2 o
  | ReorderWarning => at_global o_reorder_timeouts key.2 o
  | _ => 0
  end.

(** The detector holds the counters of the observation [o]. *)
Definition same_counters (l : LinkObs) (t : LinkTrack) : Prop :=
  t_queue_full t = o_queue_full l ∧ t_send_failed t = o_send_failed l ∧
  t_rerouted t = o_rerouted l ∧ t_wg_rejected t = o_wg_rejected l.

Record follows (o : Obs) (d : EventDetector) : Prop := mkFollows {
  f_seeded : seeded d = true;
  f_links : Forall2 same_counters (o_links o) (d_links d);
  f_recovered : d_fec_recovered d = o_fec_recovered o;
  f_unrecoverable : d_fec_unrecoverable d = o_fec_unrecoverable o;
  f_outbound : d_outbound_dropped d = o_outbound_dropped o;
  f_tun : d_tun_dropped d = o_tun_dropped o;
  f_reorder : d_reorder_timeouts d = o_reorder_timeouts o }.

Lemma observe_links_tracks emit idx ls ts p ts' p' out :
  length ls = length ts → observe_links fmt1 emit idx ls ts p = (ts', p', out) →
  Forall2 same_counters ls ts'.
Proof.
  revert idx ts p ts' p' out. induction ls as [|l ls IH]; intros idx [|t ts] p ts' p' out Hl E;
    cbn [observe_links] in E; simplify_eq/=; [constructor|].
  destruct (observe_links _ _ _ ls ts _) as [[ts1 p1] out1] eqn:E1. simplify_eq.
  constructor; [done|]. by eapply IH.
Qed.

Lemma observe_follows o d d' out :
  (length (d_links d) ≤ length (o_links o))%nat → observe fmt1 o d = (d', out) → follows o d'.
Proof.
  intros Hl E. unfold observe in E. fold (tracks_for o d) in E.
  destruct (observe_links _ _ _ _ _ _) as [[ts p] out1] eqn:E1.
  destruct (flush_counters _ _ _ _) as [[p2 last] out2]. simplify_eq. split; try done.
  cbn [d_links]. eapply observe_links_tracks, E1. unfold tracks_for.
  rewrite length_app, length_replicate. lia.
Qed.

Lemma links_rise_at key idx ls ts :
  links_rise key idx ls ts =
  (if idx <=? key.2 then
     match ls !! Z.to_nat (key.2 - idx), ts !! Z.to_nat (key.2 - idx) with
     | Some l, Some t => link_rise key.1 l t
     | _, _ => 0
     end
   else 0).
Proof.
  revert idx ts. induction ls as [|l ls IH]; intros idx [|t ts]; cbn [links_rise];
    try (destruct (idx <=? _); [|done]; rewrite ?lookup_nil; by repeat case_match).
  rewrite IH. destruct (Z.eqb_spec key.2 idx) as [->|Hne].
  - rewrite Z.sub_diag, Z.leb_refl. destruct (Z.leb_spec (idx + 1) idx); [lia|].
    rewrite Z.add_0_r. done.
  - destruct (Z.leb_spec (idx + 1) key.2), (Z.leb_spec idx key.2); try lia.
    replace (Z.to_nat (key.2 - idx)) with (S (Z.to_nat (key.2 - (idx + 1)))) by lia. done.
Qed.

Lemma at_link_rise f g o o' d i :
  Forall2 (λ l t, g t = f l) (o_links o) (d_links d) → length (o_links o') = length (o_links o) →
  (if 0 <=? i then
     match o_links o' !! Z.to_nat (i - 0), d_links d !! Z.to_nat (i - 0) with
     | Some l, Some t => rise (f l) (g t)
     | _, _ => 0
     end else 0) = rise (at_link f i o') (at_link f i o).
Proof.
  intros Hf Hl. unfold at_link. rewrite Z.sub_0_r. destruct (0 <=? i); [|done].
  destruct (o_links o' !! Z.to_nat i) as [l'|] eqn:E'; cbn.
  - apply lookup_lt_Some in E' as Hi. rewrite Hl in Hi.
    apply lookup_lt_is_Some in Hi as [l E]. rewrite E.
    destruct (Forall2_lookup_l _ _ _ _ _ Hf E) as (t & -> & ->). done.
  - apply lookup_ge_None in E'. rewrite (proj2 (lookup_ge_None (o_links o) _)) by lia. done.
Qed.

Lemma rose_counter key o o' d :
  follows o d → length (o_links o') = length (o_links o) →
  rose key o' d = rise (counter key o') (counter key o).
Proof.
  intros [Hs Hf H1 H2 H3 H4 H5] Hl. unfold rose. rewrite Hs. unfold tracks_for.
  rewrite <-(Forall2_length _ _ _ Hf), Hl, Nat.sub_diag. cbn [replicate]. rewrite app_nil_r.
  rewrite links_rise_at. unfold global_rise, counter, at_global. destruct key as [k i]. cbn [fst snd].
  assert (∀ x y : Z, (if i =? GLOBAL then rise x y else 0) =
    rise (if i =? GLOBAL then x else 0) (if i =? GLOBAL then y else 0)) as Hg
    by (intros; by destruct (i =? GLOBAL)).
  assert (∀ A B (a : option A) (b : option B), (if 0 <=? i then match a, b with Some _, Some _ => 0 | _, _ => 0 end else 0) = 0) as H0
    by (intros ?? [] []; by destruct (0 <=? i)).
  destruct k; cbn [link_rise];
    try (rewrite H0, ?H1, ?H2, ?H3, ?H4, ?H5, <-?Hg; by destruct (i =? GLOBAL));
    match goal with
    | |- context [rise (?f _) (?g _)] => rewrite (at_link_rise f g o o' d i);
        [by destruct (i =? GLOBAL); rewrite Z.add_0_r| |done];
        eapply Forall2_impl; [exact Hf|by intros ? ? (?&?&?&?)]
    end.
Qed.

(** The detector after a run, and what the run reported of a key: per report the
    observation, the amount and the events that observation produced. *)
Fixpoint observe_all (os : list Obs) (d : EventDetector) : EventDetector :=
  match os with [] => d | o :: os => observe_all os (observe fmt1 o d).1 end.

Fixpoint reports (key : EventKind * Z) (os : list Obs) (d : EventDetector)
    : list (Obs * Z * list NewEvent) :=
  match os with
  | [] => []
  | o :: os =>
      (if 0 <? reported key o d then [(o, reported key o d, (observe fmt1 o d).2)] else []) ++
      reports key os (observe fmt1 o d).1
  end.

Definition report_total (rs : list (Obs * Z * list NewEvent)) : Z :=
  foldr (λ r acc, r.1.2 + acc) 0 rs.

(** Each report is at least the throttle after the one before ([last]). *)
Fixpoint spaced (last : option Z) (rs : list (Obs * Z * list NewEvent)) : Prop :=
  match rs with
  | [] => True
  | (o, _, _) :: rs =>
      match last with Some t => COUNTER_THROTTLE_MS ≤ sat_sub (now_ms o) t | None => True end ∧
      spaced (Some (now_ms o)) rs
  end.

Lemma reported_split key o d d' out :
  wf d → observe fmt1 o d = (d', out) →
  reported key o d + amount (pending d') key = wrap 64 (amount (pending d) key + rose key o d) ∧
  0 ≤ reported key o d ∧
  last_emit_ms d' !! key = (if 0 <? reported key o d then Some (now_ms o) else last_emit_ms d !! key) ∧
  (0 < reported key o d →
   is_due (now_ms o) (last_emit_ms d) (key, reported key o d) ∧
   counter_event (o_links o) key (reported key o d) ⊆ out).
Proof.
  intros Hw E. destruct (observe_step _ _ _ _ Hw E) as (_ & _ & H). destruct (H key) as (-> & -> & He).
  unfold reported. case_bool_decide as Hd.
  - pose proof Hd as [Hn _]. cbn [snd] in Hn. rewrite (proj2 (Z.ltb_lt _ _)) by lia.
    split; [lia|]. split; [lia|]. split; [done|]. intros _. split; [done|]. by apply He.
  - rewrite Z.ltb_irrefl. split; [lia|]. split; [lia|]. split; [done|lia].
Qed.

Lemma throttled key os d :
  wf d → spaced (last_emit_ms d !! key) (reports key os d).
Proof.
  revert d. induction os as [|o os IH]; intros d Hw; cbn [reports]; [done|].
  destruct (observe fmt1 o d) as [d' out] eqn:E. cbn [fst snd].
  destruct (observe_step _ _ _ _ Hw E) as (Hw' & _).
  destruct (reported_split key _ _ _ _ Hw E) as (_ & _ & Hl & Hd). specialize (IH d' Hw').
  rewrite Hl in IH. destruct (Z.ltb_spec 0 (reported key o d)) as [Hr|]; cbn [app spaced]; [|done].
  split; [|done]. destruct (Hd Hr) as [[_ Ht] _]. cbn [fst] in Ht. by destruct (last_emit_ms d !! key).
Qed.

Lemma reports_announced key os d :
  wf d → Forall (λ r, counter_event (o_links r.1.1) key r.1.2 ⊆ r.2) (reports key os d).
Proof.
  revert d. induction os as [|o os IH]; intros d Hw; cbn [reports]; [constructor|].
  destruct (observe fmt1 o d) as [d' out] eqn:E. cbn [fst snd].
  destruct (observe_step _ _ _ _ Hw E) as (Hw' & _).
  destruct (reported_split key _ _ _ _ Hw E) as (_ & _ & _ & Hd). apply Forall_app. split; [|by apply IH].
  destruct (Z.ltb_spec 0 (reported key o d)) as [Hr|]; [|constructor].
  constructor; [by apply Hd|constructor].
Qed.

(** The counter never falls from one observation to the next. *)
Fixpoint rising (key : EventKind * Z) (o : Obs) (os : list Obs) : Prop :=
  match os with [] => True | o' :: os => counter key o ≤ counter key o' ∧ rising key o' os end.

Fixpoint final (o : Obs) (os : list Obs) : Obs :=
  match os with [] => o | o' :: os => final o' os end.

Lemma rising_final key o os : rising key o os → counter key o ≤ counter key (final o os).
Proof.
  revert o. induction os as [|o' os IH]; intros o; cbn; [lia|]. intros [H1 H2]. specialize (IH o' H2). lia.
Qed.

Lemma final_app o os os' : final o (os ++ os') = final (final o os) os'.
Proof. revert o. induction os as [|x os IH]; intros o; cbn; [done|apply IH]. Qed.

Lemma rising_app key o os os' :
  rising key o (os ++ os') ↔ rising key o os ∧ rising key (final o os) os'.
Proof. revert o. induction os as [|x os IH]; intros o; cbn; [tauto|]. rewrite IH. tauto. Qed.

Lemma final_links o os :
  Forall (λ o', length (o_links o') = length (o_links o)) os →
  length (o_links o) = length (o_links (final o os)).
Proof.
  revert o. induction os as [|x os IH]; intros o; [done|]. intros [Hx H]%Forall_cons. cbn [final].
  rewrite <-IH; [done|]. eapply Forall_impl; [exact H|]. cbn. congruence.
Qed.

Lemma reports_total key os o d :
  wf d → follows o d → Forall (λ o', length (o_links o') = length (o_links o)) os →
  rising key o os → amount (pending d) key + (counter key (final o os) - counter key o) < 2 ^ 64 →
  report_total (reports key os d) + amount (pending (observe_all os d)) key =
  amount (pending d) key + (counter key (final o os) - counter key o).
Proof.
  revert o d. induction os as [|o' os IH]; intros o d Hw Hf Hl Hr Hb;
    cbn [reports observe_all final rising] in *; [cbn; lia|].
  apply Forall_cons in Hl as [Hl' Hl]. destruct Hr as [Hr' Hr].
  pose proof (rising_final _ _ _ Hr) as Hfin.
  destruct (observe fmt1 o' d) as [d' out] eqn:E. cbn [fst snd].
  destruct (observe_step _ _ _ _ Hw E) as (Hw' & _).
  assert (follows o' d') as Hf'.
  { eapply observe_follows, E. rewrite <-(Forall2_length _ _ _ (f_links _ _ Hf)). lia. }
  destruct (reported_split key _ _ _ _ Hw E) as (Hs & Hn & _).
  rewrite (rose_counter key o) in Hs by done. unfold rise in Hs. pose proof (Hw key) as H0.
  rewrite wrap_small in Hs by (unfold fits in *; lia).
  assert (Forall (λ o'', length (o_links o'') = length (o_links o')) os) as Hl''
    by (eapply Forall_impl; [exact Hl|]; cbn; congruence).
  specialize (IH o' d' Hw' Hf' Hl'' Hr ltac:(lia)).
  destruct (Z.ltb_spec 0 (reported key o' d)); cbn [app report_total foldr fst snd]; fold (report_total (reports key os d')); lia.
Qed.

Lemma observe_all_follows os o d :
  wf d → follows o d → Forall (λ o', length (o_links o') = length (o_links o)) os →
  wf (observe_all os d) ∧ follows (final o os) (observe_all os d).
Proof.
  revert o d. induction os as [|o' os IH]; intros o d Hw Hf Hl; cbn [observe_all final]; [done|].
  apply Forall_cons in Hl as [Hl' Hl]. destruct (observe fmt1 o' d) as [d' out] eqn:E. cbn [fst].
  destruct (observe_step _ _ _ _ Hw E) as (Hw' & _). apply IH; [done| |].
  - eapply observe_follows, E. rewrite <-(Forall2_length _ _ _ (f_links _ _ Hf)). lia.
  - eapply Forall_impl; [exact Hl|]. cbn. congruence.
Qed.

Lemma report_total_nonneg key os d : 0 ≤ report_total (reports key os d).
Proof.
  revert d. induction os as [|o os IH]; intros d; cbn [reports]; [done|].
  specialize (IH (observe fmt1 o d).1).
  destruct (Z.ltb_spec 0 (reported key o d)); cbn [app report_total foldr fst snd];
    [fold (report_total (reports key os (observe fmt1 o d).1)); lia|done].
Qed.

(** What is pending never exceeds the rise since the first observation. *)
Lemma pending_bounded key os o d :
  wf d → follows o d → Forall (λ o', length (o_links o') = length (o_links o)) os →
  rising key o os → amount (pending d) key + (counter key (final o os) - counter key o) < 2 ^ 64 →
  amount (pending (observe_all os d)) key ≤
  amount (pending d) key + (counter key (final o os) - counter key o).
Proof.
  intros Hw Hf Hl Hr Hb. pose proof (report_total_nonneg key os d).
  rewrite <-(reports_total key os o d) by done. lia.
Qed.

(** The first observation is a baseline. *)
Lemma observe_baseline o :
  let d := (observe fmt1 o EventDetector_new).1 in
  wf d ∧ follows o d ∧ ∀ key, amount (pending d) key = 0 ∧ last_emit_ms d !! key = None.
Proof.
  destruct (observe fmt1 o EventDetector_new) as [d out] eqn:E. cbn [fst].
  assert (wf EventDetector_new) as Hw by (intros key; unfold amount; cbn [pending EventDetector_new]; rewrite lookup_empty; unfold fits; cbn [default]; lia).
  destruct (observe_step _ _ _ _ Hw E) as (Hw' & _ & H). split; [done|].
  split; [eapply observe_follows, E; cbn; lia|]. intros key. destruct (H key) as (Hp & Hl & _).
  revert Hp Hl. change (rose key o EventDetector_new) with 0.
  change (amount (pending EventDetector_new) key) with 0. change (wrap 64 (0 + 0)) with 0.
  rewrite bool_decide_false by (intros [? _]; cbn in *; lia). done.
Qed.

(** Nothing a counter counts goes unreported or is reported twice: over a
    run of observations of the same links after the baseline, the reports of a
    counter that does not fall add up, with what is still pending, to exactly
    its rise. Each report is announced by an event of its own observation that
    carries the count (late frames below the warning threshold excepted), and
    two reports of a counter are at least the throttle apart. *)
Theorem counters_accounted key o os :
  Forall (λ o', length (o_links o') = length (o_links o)) os →
  rising key o os → 0 ≤ counter key o → counter key (final o os) < 2 ^ 64 →
  let d := (observe fmt1 o EventDetector_new).1 in
  let rs := reports key os d in
  report_total rs + amount (pending (observe_all os d)) key =
    counter key (final o os) - counter key o ∧
  Forall (λ r, counter_event (o_links r.1.1) key r.1.2 ⊆ r.2) rs ∧
  spaced None rs.
Proof.
  intros Hl Hr H0 Hb d rs. destruct (observe_baseline o) as (Hw & Hf & Hk). fold d in Hw, Hf, Hk.
  destruct (Hk key) as [Ha Hn]. split; [|split].
  - unfold rs. rewrite (reports_total key os o d) by (try done; lia). lia.
  - by apply reports_announced.
  - rewrite <-Hn. by apply throttled.
Qed.

End runs.

(** *** Examples *)

Module events_example.

Definition fmt (_ : f64) : string := "7.5".
Definition wan (queue_full : Z) : LinkObs :=
  mkLinkObs "wan" Up false None queue_full 0 0 0 (Some 10).
Definition obs (t queue_full late : Z) : Obs := mkObs t [wan queue_full] 0 0 0 0 late 1400.
Definition o0 : Obs := obs 0 2 5.
Definition run : list Obs := [obs 500 5 15; obs 1000 9 25; obs 2600 9 90; obs 3000 10 99].

(** Three rejections are reported at once, the next four when the throttle
    allows it; the last one is still pending. *)
Lemma counters_accounted_witness :
  let d := (observe fmt o0 EventDetector_new).1 in
  let rs := reports fmt (TxQueueFull, 0) run d in
  rs.*1 = [(obs 500 5 15, 3); (obs 2600 9 90, 4)] ∧
  report_total rs + amount (pending (observe_all fmt run d)) (TxQueueFull, 0) = 8 ∧
  Forall (λ r, counter_event (o_links r.1.1) (TxQueueFull, 0) r.1.2 ⊆ r.2) rs ∧ spaced None rs.
Proof.
  split; [vm_compute; reflexivity|].
  apply (counters_accounted fmt (TxQueueFull, 0) o0 run);
    [repeat constructor|vm_compute; intuition discriminate|vm_compute; discriminate|vm_compute; reflexivity].
Defined.

(** A counter that reads zero once (an interface whose statistics cannot be read
    for one sample) is reported as risen by its whole value. *)
Lemma zero_reading_reported_whole :
  let down := mkObs 500 [wan 0] 0 0 0 0 0 1400 in
  let back := mkObs 1000 [wan 0] 0 0 0 7000 0 1400 in
  let d := (observe fmt (mkObs 0 [wan 0] 0 0 0 7000 0 1400) EventDetector_new).1 in
  e_message <$> (observe fmt back (observe fmt down d).1).2 = ["TUN device dropped 7000 packet(s)"].
Proof. vm_compute. reflexivity. Qed.

Lemma ring_serves_deltas_witness :
  entries_since 3 (ring_after 4 ["a"; "b"; "c"; "d"; "e"; "f"]%string) =
    [(4, "d"); (5, "e"); (6, "f")]%string ∧
  entries_since 0 (ring_after 4 ["a"; "b"; "c"; "d"; "e"; "f"]%string) =
    [(3, "c"); (4, "d"); (5, "e"); (6, "f")]%string.
Proof.
  split.
  - apply (ring_serves_deltas 4 ["a"; "b"; "c"] ["d"; "e"; "f"] 3)%string;
      [lia|vm_compute; reflexivity|lia|cbn; lia].
  - apply (ring_serves_deltas 4 [] ["a"; "b"; "c"; "d"; "e"; "f"] 0)%string; [lia|vm_compute; reflexivity|lia].
Defined.

(** Two pushes can take their numbers in one order and append in the other. A
    client that asks in between never gets the entry appended last. *)
Lemma racing_push_missed :
  let '(n1, r) := ring_reserve ring_new in
  let '(n2, r) := ring_reserve r in
  let r2 := ring_append LOG_RING_CAPACITY n2 "second" r in
  let r1 := ring_append LOG_RING_CAPACITY n1 "first" r2 in
  entries_since 0 r2 = [(2, "second")]%string ∧ entries_since 2 r1 = [] ∧
  entries r1 = [(2, "second"); (1, "first")]%string.
Proof. vm_compute. auto. Qed.

End events_example.
