(* ===== verification/Telemetry.v ===== *)
(** * Telemetry ([telemetry.rs])

    The task that samples the daemon twice a second: it feeds the event
    detector, follows which link traffic was moved away from, computes rates and
    derives the overall health. The readings a sample takes of the rest of the
    daemon and of the host are its input. *)

From S2P Require Import Prelude Bytes F64 Rounding ExactInt Configuration RxPipeline Link Congestion Events.

Definition RATE_WINDOW : Z := 1000000000.
Definition STARTUP_GRACE_SECS : Z := 30.
Definition HEALTH_HOLD_MS : Z := 10000.
Definition LOSSY_LINK_PCT : f64 := f64.of_Z 5.

(** ** Snapshots *)

Record ReorderSnapshot := mkReorderSnapshot {
  rs_window_ms : Z; rs_depth : Z; rs_max_depth : Z; rs_wait_recent_us : Z; rs_wait_max_us : Z;
  rs_late_total : Z; rs_duplicate_total : Z; rs_timeout_total : Z }.

Definition reorder_snapshot (s : RxPipelineStats) : ReorderSnapshot :=
  mkReorderSnapshot (st_window_ms s) (st_depth s) (st_max_depth s) (st_wait_recent_us s)
    (st_wait_max_us s) (st_late_total s) (st_duplicate_total s) (st_timeout_total s).

Record FecConfigSnapshot := mkFecSnapshot {
  fs_enabled : bool; fs_group_size : Z; fs_parity : Z; fs_placement : string }.

Record StaticConfig := mkStatic { sc_fec : FecConfigSnapshot; scheduler_mode : string }.

Definition from_scheduler (cfg : SchedulerConfig) : StaticConfig :=
  let mode := if follow_peer_primary cfg then "follow-peer"
              else if primary_link_mode cfg then "primary"
              else if redundant_mode cfg then "redundant" else "weighted" in
  let placement := match fec_parity_placement cfg with
                   | Scheduler => "scheduler" | Dominant => "dominant" | Diverse => "diverse" end in
  mkStatic (mkFecSnapshot (fec_enabled cfg) (fec_group_size cfg) (fec_parity cfg) placement) mode.

(** ** Health *)

Inductive Health := Starting | Healthy | Degraded | Failover | HealthDown.
Global Instance Health_eq_dec : EqDecision Health.
Proof. solve_decision. Defined.

Definition Health_as_str (h : Health) : string :=
  match h with
  | Starting => "STARTING" | Healthy => "HEALTHY" | Degraded => "DEGRADED"
  | Failover => "FAILOVER" | HealthDown => "DOWN"
  end.

Record LinkHealth := mkLinkHealth {
  h_name : string; h_state : LinkState; h_congested : bool; h_loss_pct : option f64 }.

Record HealthInput := mkHealthInput {
  uptime_secs : Z; h_links : list LinkHealth; failed_over_from : option string; recent_loss : bool }.

Definition is_up (l : LinkHealth) : bool := bool_decide (h_state l = Up).
Definition is_probing (l : LinkHealth) : bool := bool_decide (h_state l = Probing).
Definition is_lossy (l : LinkHealth) : bool :=
  match h_loss_pct l with Some p => (LOSSY_LINK_PCT <=? p)%f64 | None => false end.

Definition count_links (f : LinkHealth → bool) (ls : list LinkHealth) : Z := len (List.filter f ls).

Section telemetry.
Context (fmt1 : f64 → string).

Definition derive_health (i : HealthInput) : Health * string :=
  let ls := h_links i in
  let total := pretty (len ls) in
  let up := count_links is_up ls in
  if len ls =? 0 then (Starting, "no links configured yet")
  else if up =? 0 then
    if (0 <? count_links is_probing ls) && (uptime_secs i <? STARTUP_GRACE_SECS)
    then (Starting, "waiting for the first link") else (HealthDown, "no link is up")
  else match failed_over_from i with
  | Some name =>
      (Failover, "traffic moved off link " +:+ name +:+ "; " +:+ pretty up +:+ " of " +:+ total
                 +:+ " links carrying it")
  | None =>
      match h_name <$> List.filter (λ l, negb (is_up l)) ls with
      | n :: ns =>
          (Degraded, "link " +:+ String.concat ", " (n :: ns) +:+ " is not up (" +:+ pretty up
                     +:+ " of " +:+ total +:+ " up)")
      | [] =>
          match List.find h_congested ls with
          | Some l => (Degraded, "link " +:+ h_name l +:+ " is congested and shedding traffic")
          | None =>
              match List.find is_lossy ls with
              | Some l => (Degraded, "link " +:+ h_name l +:+ " loss is "
                                     +:+ fmt1 (default f64.zero (h_loss_pct l)) +:+ "%")
              | None => if recent_loss i then (Degraded, "packets were recently dropped")
                        else (Healthy, "all " +:+ total +:+ " links up")
              end
          end
      end
  end.

(** ** Failovers *)

Record FailoverTracker := mkFailover {
  prev_up : list bool; prev_primary : option nat; last_failover : option (Z * string) }.
Definition FailoverTracker_default : FailoverTracker := mkFailover [] None None.

(** The loop over the links: the last one that was pushed off its traffic. *)
Fixpoint dropped_link (primary_mode : bool) (prev : list bool) (prim : option nat) (idx : nat)
    (ls : list LinkHealth) (acc : option string) : option string :=
  match ls with
  | [] => acc
  | l :: ls =>
      let was_up := default false (prev !! idx) in
      let carried := negb primary_mode || bool_decide (prim = Some idx) in
      dropped_link primary_mode prev prim (S idx) ls
        (if was_up && negb (is_up l) && carried then Some (h_name l) else acc)
  end.

Definition failover_update (now_ms : Z) (ls : list LinkHealth) (primary : option nat)
    (primary_mode : bool) (f : FailoverTracker) : FailoverTracker :=
  let off := if existsb is_up ls
             then dropped_link primary_mode (prev_up f) (prev_primary f) 0 ls None else None in
  mkFailover (is_up <$> ls) primary
    (match off with Some name => Some (now_ms, name) | None => last_failover f end).

Definition failover_active (now_ms : Z) (f : FailoverTracker) : option string :=
  match last_failover f with
  | Some (t, name) => if sat_sub now_ms t <? HEALTH_HOLD_MS then Some name else None
  | None => None
  end.

(** ** Rates *)

Definition rate_between (prev cur : Z) (secs : f64) : f64 :=
  if (secs <=? f64.zero)%f64 then f64.zero else (f64.of_Z (sat_sub cur prev) / secs)%f64.

Record TunIfaceStats := mkTun {
  tun_rx_bytes : option Z; tun_tx_bytes : option Z; tun_rx_packets : option Z;
  tun_tx_packets : option Z; tun_rx_errors : option Z; tun_tx_errors : option Z;
  tun_rx_dropped : option Z; tun_tx_dropped : option Z }.

Record TunSample := mkTunSample {
  at_ : Z; s_rx_bytes : Z; s_tx_bytes : Z; s_rx_packets : Z; s_tx_packets : Z;
  cpu_ticks : option Z }.

Record RateSnapshot := mkRates { tx_pps : f64; rx_pps : f64; tx_mbps : f64; rx_mbps : f64 }.

Record Sampler := mkSampler {
  last_sample : option TunSample; rates : RateSnapshot; cpu_pct : option f64 }.
Definition Sampler_default : Sampler :=
  mkSampler None (mkRates f64.zero f64.zero f64.zero f64.zero) None.

(** [now] is the sample's clock reading in nanoseconds, [ticks] the clock ticks
    per second of the host. *)
Definition sampler_update (now ticks : Z) (tun : TunIfaceStats) (cpu : option Z) (s : Sampler)
    : Sampler :=
  let cur := mkTunSample now (default 0 (tun_rx_bytes tun)) (default 0 (tun_tx_bytes tun))
               (default 0 (tun_rx_packets tun)) (default 0 (tun_tx_packets tun)) cpu in
  match last_sample s with
  | None => mkSampler (Some cur) (rates s) (cpu_pct s)
  | Some prev =>
      let dt := sat_sub (at_ cur) (at_ prev) in
      if dt <? RATE_WINDOW then s
      else
        let secs := f64.as_secs_f64 dt in
        let mbps a b := (rate_between a b secs * f64.of_Z 8 / f64.of_Z 1000000)%f64 in
        mkSampler (Some cur)
          (mkRates (rate_between (s_tx_packets prev) (s_tx_packets cur) secs)
             (rate_between (s_rx_packets prev) (s_rx_packets cur) secs)
             (mbps (s_tx_bytes prev) (s_tx_bytes cur)) (mbps (s_rx_bytes prev) (s_rx_bytes cur)))
          (match cpu_ticks prev, cpu_ticks cur with
           | Some a, Some b => Some (rate_between a b secs / f64.of_Z ticks * f64.of_Z 100)%f64
           | _, _ => None
           end)
  end.

(** ** One sample *)

(** What a sample reads of a link. *)
Record LinkReading := mkReading {
  lr_link : Link; lr_tx : TxCounters; lr_wg_rejected : Z; lr_handshake_age_ms : option Z }.

Definition reading_congested (r : LinkReading) : bool :=
  bool_decide (state (lr_link r) = Up) &&
  (f64.of_Z (congestion_milli (lr_tx r)) / f64.of_Z 1000 <? congestion.DEGRADED_BELOW)%f64.
Definition reading_loss (r : LinkReading) : option f64 :=
  (λ v, (v * f64.of_Z 100)%f64) <$> Ewma_get (loss_rate (stats (lr_link r))).

Definition link_obs (r : LinkReading) : LinkObs :=
  mkLinkObs (link_name (config (lr_link r))) (state (lr_link r)) (reading_congested r)
    (reading_loss r) (queue_full (lr_tx r)) (send_failed (lr_tx r)) (rerouted_away (lr_tx r))
    (lr_wg_rejected r) (lr_handshake_age_ms r).
Definition link_health (r : LinkReading) : LinkHealth :=
  mkLinkHealth (link_name (config (lr_link r))) (state (lr_link r)) (reading_congested r)
    (reading_loss r).

Record ProcessStats := mkProcess {
  p_cpu_ticks : option Z; p_rss_kb : option Z; p_threads : option Z; p_open_fds : option Z }.

Record Readings := mkReadings {
  r_now_ms : Z;
  r_elapsed_secs : Z;
  r_at : Z;
  r_ticks_per_sec : Z;
  r_links : list LinkReading;
  r_primary : option nat;
  r_tun : TunIfaceStats;
  r_rx : RxPipelineStats;
  r_fec_recovered : Z;
  r_fec_unrecoverable : Z;
  r_outbound_dropped : Z;
  r_mtu : Z;
  r_process : ProcessStats;
  r_stamp : nat → Z }.

Record TelemetrySnapshot := mkSnapshot {
  health : string;
  health_reason : string;
  tunnel_uptime_secs : Z;
  snap_mode : string;
  snap_fec : FecConfigSnapshot;
  snap_reorder : ReorderSnapshot;
  snap_rates : RateSnapshot;
  reroutes_total : Z;
  rx_pipeline_dropped_total : Z;
  rx_pipeline_busy_ns_total : Z;
  rx_pipeline_max_backlog : Z;
  snap_cpu_pct : option f64;
  snap_rss_kb : option Z;
  snap_threads : option Z;
  snap_open_fds : option Z }.

(** The task's variables, the event ring and the cached snapshot. *)
Record Telemetry := mkTelemetry {
  detector : EventDetector;
  failover : FailoverTracker;
  sampler : Sampler;
  last_loss_ms : option Z;
  events_ : ring EventRecord;
  cached : TelemetrySnapshot }.

Definition Telemetry_new : Telemetry :=
  mkTelemetry EventDetector_new FailoverTracker_default Sampler_default None ring_new
    (mkSnapshot (Health_as_str Starting) "daemon starting" 0 "" (mkFecSnapshot false 0 0 "")
       (mkReorderSnapshot 0 0 0 0 0 0 0 0) (rates Sampler_default) 0 0 0 0 None None None None).

Definition obs_of (mode : string) (r : Readings) : Obs :=
  mkObs (r_now_ms r) (link_obs <$> r_links r) (r_fec_recovered r) (r_fec_unrecoverable r)
    (r_outbound_dropped r)
    (wrap 64 (default 0 (tun_rx_dropped (r_tun r)) + default 0 (tun_tx_dropped (r_tun r))))
    (if String.eqb mode "redundant" then 0 else rs_timeout_total (reorder_snapshot (r_rx r)))
    (r_mtu r).

(** The events of a sample are numbered and stamped as they are pushed. *)
Fixpoint push_events (now : Z) (stamp : nat → Z) (evs : list NewEvent) (loss : option Z)
    (ring : ring EventRecord) : option Z * Events.ring EventRecord :=
  match evs with
  | [] => (loss, ring)
  | ev :: evs =>
      push_events now (λ k, stamp (S k)) evs (if is_loss (e_kind ev) then Some now else loss)
        (EventRing_push (stamp 0%nat) ev ring)
  end.

(** The body of the loop of [run]; [t0_ms] is the wall clock when the task
    started. *)
Definition sample (cfg : StaticConfig) (t0_ms : Z) (r : Readings) (t : Telemetry)
    : Telemetry * Health :=
  let mode := scheduler_mode cfg in
  let primary_mode := String.eqb mode "primary" || String.eqb mode "follow-peer" in
  let hs := link_health <$> r_links r in
  let '(det, evs) := observe fmt1 (obs_of mode r) (detector t) in
  let '(loss, ring) := push_events (r_now_ms r) (r_stamp r) evs (last_loss_ms t) (events_ t) in
  let fo := failover_update (r_now_ms r) hs (r_primary r) primary_mode (failover t) in
  let sa := sampler_update (r_at r) (r_ticks_per_sec r) (r_tun r) (p_cpu_ticks (r_process r)) (sampler t) in
  let recent := match loss with Some l => sat_sub (r_now_ms r) l <? HEALTH_HOLD_MS | None => false end in
  let '(h, why) := derive_health
    (mkHealthInput (r_elapsed_secs r) hs (failover_active (r_now_ms r) fo) recent) in
  let snap := mkSnapshot (Health_as_str h) why
    (Z.max (r_elapsed_secs r) (sat_sub (r_now_ms r) t0_ms / 1000)) mode (sc_fec cfg)
    (reorder_snapshot (r_rx r)) (rates sa)
    (foldl (λ acc l, wrap 64 (acc + rerouted_away (lr_tx l))) 0 (r_links r))
    (st_dropped_total (r_rx r)) (st_busy_ns_total (r_rx r)) (st_max_backlog (r_rx r))
    (cpu_pct sa) (p_rss_kb (r_process r)) (p_threads (r_process r)) (p_open_fds (r_process r)) in
  (mkTelemetry det fo sa loss ring snap, h).

End telemetry.

(** ** The headline *)

Lemma count_zero f ls : count_links f ls = 0 ↔ Forall (λ l, f l = false) ls.
Proof.
  unfold count_links, len. induction ls as [|l ls IH]; cbn [List.filter]; [by split|].
  rewrite Forall_cons, <-IH. destruct (f l); cbn [length]; split; intros H; try lia; by destruct H.
Qed.

Lemma count_pos f ls : 0 < count_links f ls ↔ Exists (λ l, f l = true) ls.
Proof.
  unfold count_links, len. induction ls as [|l ls IH]; cbn [List.filter].
  - rewrite Exists_nil. cbn. lia.
  - rewrite Exists_cons, <-IH. destruct (f l); cbn [length]; split; intros H; auto; try lia; by destruct H.
Qed.

Lemma find_none (f : LinkHealth → bool) ls : List.find f ls = None ↔ Forall (λ l, f l = false) ls.
Proof.
  induction ls as [|l ls IH]; cbn; [by split|]. rewrite Forall_cons, <-IH.
  destruct (f l); split; try done; by intros [].
Qed.

Lemma filter_nil (f : LinkHealth → bool) ls :
  List.filter f ls = [] ↔ Forall (λ l, f l = false) ls.
Proof.
  rewrite <-count_zero. unfold count_links, len. destruct (List.filter f ls); cbn; split; intros; try done; lia.
Qed.

Definition troubled (l : LinkHealth) : bool := negb (is_up l) || h_congested l || is_lossy l.

Lemma forall_calm ls :
  Forall (λ l, troubled l = false) ls ↔
  Forall (λ l, negb (is_up l) = false) ls ∧ Forall (λ l, h_congested l = false) ls ∧
  Forall (λ l, is_lossy l = false) ls.
Proof.
  rewrite <-!Forall_and. apply Forall_iff. intros l. unfold troubled.
  destruct (negb (is_up l)), (h_congested l), (is_lossy l); cbn; intuition congruence.
Qed.

(** The headline when a link is up. *)
Lemma health_some_up fmt1 i :
  Exists (λ l, is_up l = true) (h_links i) →
  (derive_health fmt1 i).1 =
  (if bool_decide (is_Some (failed_over_from i)) then Failover
   else if bool_decide (Exists (λ l, troubled l = true) (h_links i)) || recent_loss i then Degraded
   else Healthy).
Proof.
  intros Hup. pose proof (proj2 (count_pos _ _) Hup) as Hc. unfold derive_health.
  destruct (Z.eqb_spec (len (h_links i)) 0) as [H0|_].
  { unfold len in H0. destruct (h_links i); [by inversion Hup|cbn in H0; lia]. }
  destruct (Z.eqb_spec (count_links is_up (h_links i)) 0) as [?|_]; [lia|].
  destruct (failed_over_from i) as [name|]; [done|]. cbn [bool_decide].
  rewrite (bool_decide_false (is_Some None)) by (by intros [? ?]).
  assert (bool_decide (Exists (λ l, troubled l = true) (h_links i)) = false ↔
    Forall (λ l, troubled l = false) (h_links i)) as Hb.
  { rewrite bool_decide_eq_false, <-Forall_Exists_neg. apply Forall_iff. intros l.
    destruct (troubled l); split; congruence. }
  rewrite forall_calm, <-!filter_nil in Hb. rewrite (filter_nil is_lossy), (filter_nil h_congested) in Hb.
  rewrite <-!find_none in Hb.
  destruct (bool_decide _) eqn:E; cbn [orb].
  - destruct (List.filter _ (h_links i)) eqn:E1; [|done]. cbn [fmap list_fmap].
    destruct (List.find h_congested _) eqn:E2; [done|].
    destruct (List.find is_lossy _) eqn:E3; [done|]. by destruct Hb as [_ Hb]; discriminate Hb.
  - destruct Hb as [Hb _]. destruct (Hb eq_refl) as (-> & -> & ->). cbn. by destruct (recent_loss i).
Qed.

Lemma health_none_up fmt1 i :
  Forall (λ l, is_up l = false) (h_links i) →
  (derive_health fmt1 i).1 =
  (if bool_decide (h_links i = []) ||
      (bool_decide (Exists (λ l, is_probing l = true) (h_links i)) && (uptime_secs i <? STARTUP_GRACE_SECS))
   then Starting else HealthDown).
Proof.
  intros Hn. unfold derive_health. destruct (Z.eqb_spec (len (h_links i)) 0) as [H0|H0].
  - unfold len in H0. destruct (h_links i); [done|cbn in H0; lia].
  - rewrite (bool_decide_false (h_links i = [])) by (intros E; by rewrite E in H0).
    rewrite (proj2 (count_zero _ _)) by done. cbn [Z.eqb orb].
    rewrite <-(bool_decide_ext _ _ (count_pos is_probing (h_links i))).
    replace (bool_decide _) with (0 <? count_links is_probing (h_links i))
      by (destruct (Z.ltb_spec 0 (count_links is_probing (h_links i)));
          [by rewrite bool_decide_true|rewrite bool_decide_false by lia; done]).
    by destruct (_ && _).
Qed.

(** The headline is the worst state that applies. With a link up it is never
    down: it is a failover exactly when traffic was moved off a link, healthy
    exactly when besides every link is up, uncongested and below the loss
    threshold and nothing was dropped, degraded otherwise. With none up it is
    down, unless there are no links or one is still probing within the grace
    period. *)
Theorem health_headline fmt1 i :
  let h := (derive_health fmt1 i).1 in
  (h = Healthy ↔ h_links i ≠ [] ∧ failed_over_from i = None ∧ recent_loss i = false ∧
                 Forall (λ l, troubled l = false) (h_links i)) ∧
  (h = Failover ↔ Exists (λ l, is_up l = true) (h_links i) ∧ is_Some (failed_over_from i)) ∧
  (h = HealthDown ↔ h_links i ≠ [] ∧ Forall (λ l, is_up l = false) (h_links i) ∧
     (Forall (λ l, is_probing l = false) (h_links i) ∨ STARTUP_GRACE_SECS ≤ uptime_secs i)) ∧
  (h = Starting ↔ h_links i = [] ∨
     Forall (λ l, is_up l = false) (h_links i) ∧
     Exists (λ l, is_probing l = true) (h_links i) ∧ uptime_secs i < STARTUP_GRACE_SECS).
Proof.
  intros h. unfold h. clear h.
  assert (∀ f, Forall (λ l, f l = false) (h_links i) ↔ ¬ Exists (λ l : LinkHealth, f l = true) (h_links i)) as HF.
  { intros f. rewrite <-Forall_Exists_neg. apply Forall_iff. intros l. destruct (f l); split; congruence. }
  destruct (decide (Exists (λ l, is_up l = true) (h_links i))) as [Hup|Hup].
  - rewrite health_some_up by done.
    assert (h_links i ≠ []) by (intros E; rewrite E in Hup; by inversion Hup).
    rewrite !HF. repeat case_bool_decide; destruct (recent_loss i), (failed_over_from i); cbn [orb];
      repeat match goal with H : is_Some None |- _ => by destruct H end;
      try match goal with H : ¬ is_Some (Some _) |- _ => by destruct H end;
      split_and!; split; intros; try done; intuition eauto; try discriminate; by apply is_Some_None.
  - rewrite health_none_up by (by apply HF).
    assert (Forall (λ l, troubled l = false) (h_links i) → h_links i = []) as Ht.
    { intros Ht. destruct (h_links i) as [|l ls]; [done|]. apply Forall_cons in Ht as [Ht _].
      unfold troubled in Ht. destruct (is_up l) eqn:E; [|done]. by destruct Hup; left. }
    rewrite !HF in *. repeat case_bool_decide; destruct (Z.ltb_spec (uptime_secs i) STARTUP_GRACE_SECS); cbn [orb andb];
      split_and!; split; intros; try done; intuition (try discriminate; try lia; auto).
Qed.

(** ** Samples *)

Section runs.
Context (fmt1 : f64 → string) (cfg : StaticConfig) (t0_ms : Z).

Definition hold (now : Z) (since : option Z) : bool :=
  match since with Some l => sat_sub now l <? HEALTH_HOLD_MS | None => false end.

Lemma push_events_loss now stamp evs loss ring :
  (push_events now stamp evs loss ring).1 =
  (if existsb (λ e, is_loss (e_kind e)) evs then Some now else loss).
Proof.
  revert stamp loss ring.
  induction evs as [|e evs IH]; intros stamp loss ring; cbn [push_events existsb fst snd]; [done|].
  rewrite IH. by destruct (is_loss (e_kind e)), (existsb _ evs).
Qed.

Definition sees (r : Readings) : Obs := obs_of (scheduler_mode cfg) r.
Definition primary_mode : bool :=
  String.eqb (scheduler_mode cfg) "primary" || String.eqb (scheduler_mode cfg) "follow-peer".

Lemma sample_spec r t t' h :
  sample fmt1 cfg t0_ms r t = (t', h) →
  let evs := (observe fmt1 (sees r) (detector t)).2 in
  detector t' = (observe fmt1 (sees r) (detector t)).1 ∧
  last_loss_ms t' = (if existsb (λ e, is_loss (e_kind e)) evs then Some (r_now_ms r)
                     else last_loss_ms t) ∧
  failover t' = failover_update (r_now_ms r) (link_health <$> r_links r) (r_primary r) primary_mode
                  (failover t) ∧
  h = (derive_health fmt1 (mkHealthInput (r_elapsed_secs r) (link_health <$> r_links r)
         (failover_active (r_now_ms r) (failover t')) (hold (r_now_ms r) (last_loss_ms t')))).1.
Proof.
  unfold sample, sees. destruct (observe fmt1 _ (detector t)) as [det evs] eqn:E. cbn [fst snd].
  destruct (push_events _ _ _ _ _) as [loss ring] eqn:Ep.
  destruct (derive_health _ _) as [h' why] eqn:Eh. intros [= <- <-]. cbn [detector last_loss_ms failover].
  pose proof (push_events_loss (r_now_ms r) (r_stamp r) evs (last_loss_ms t) (events_ t)) as Hl.
  rewrite Ep in Hl. cbn [fst] in Hl. unfold primary_mode, hold. by rewrite Eh.
Qed.

Fixpoint samples (rs : list Readings) (t : Telemetry) : Telemetry * list Health :=
  match rs with
  | [] => (t, [])
  | r :: rs => let '(t, h) := sample fmt1 cfg t0_ms r t in
               let '(t, hs) := samples rs t in (t, h :: hs)
  end.

Lemma samples_app rs rs' t :
  samples (rs ++ rs') t =
  ((samples rs' (samples rs t).1).1, (samples rs t).2 ++ (samples rs' (samples rs t).1).2).
Proof.
  revert t. induction rs as [|r rs IH]; intros t; cbn [app samples fst snd]; [by destruct (samples rs' t)|].
  destruct (sample fmt1 cfg t0_ms r t) as [t1 h]. rewrite IH. by destruct (samples rs t1).
Qed.

Lemma samples_detector rs t :
  detector (samples rs t).1 = observe_all fmt1 (sees <$> rs) (detector t).
Proof.
  revert t. induction rs as [|r rs IH]; intros t; cbn [samples observe_all fmap list_fmap]; [done|].
  destruct (sample fmt1 cfg t0_ms r t) as [t1 h] eqn:E. apply sample_spec in E as (<- & _).
  rewrite <-IH. by destruct (samples rs t1).
Qed.

(** ** Losses show in the headline *)

Lemma healthy_calm i :
  (derive_health fmt1 i).1 = Healthy → recent_loss i = false ∧ failed_over_from i = None.
Proof.
  destruct (decide (Exists (λ l, is_up l = true) (h_links i))) as [Hup|Hup].
  - rewrite health_some_up by done. case_bool_decide as Hf; [done|].
    destruct (_ || _) eqn:E; [done|]. apply orb_false_iff in E as [_ ->]. split; [done|].
    destruct (failed_over_from i); [|done]. by destruct Hf; eexists.
  - rewrite health_none_up; [intros Eh; by case_match|]. apply Forall_Exists_neg in Hup.
    eapply Forall_impl; [exact Hup|]. intros l Hl. cbn in Hl.
    destruct (is_up l); [by destruct Hl|done].
Qed.

Lemma loss_event ls key n :
  is_loss key.1 = true → Exists (λ e, is_loss (e_kind e) = true) (counter_event ls key n).
Proof.
  destruct key as [k i]. unfold counter_event. destruct k; cbn; intros; try done; by left.
Qed.

Lemma reported_is_loss key o d :
  wf d → is_loss key.1 = true → 0 < reported key o d →
  existsb (λ e, is_loss (e_kind e)) (observe fmt1 o d).2 = true.
Proof.
  intros Hw Hk Hr. destruct (observe fmt1 o d) as [d' out] eqn:E.
  destruct (reported_split fmt1 key _ _ _ _ Hw E) as (_ & _ & _ & Hd). destruct (Hd Hr) as [_ Hin].
  apply existsb_exists. pose proof (loss_event (o_links o) key (reported key o d) Hk) as He.
  apply Exists_exists in He as (e & He & Hl). exists e. split; [|done]. by apply list_elem_of_In, Hin.
Qed.

(** The last loss is at least as recent as any report of a loss counter. *)
Definition known (now : Z) (t : Telemetry) : Prop :=
  wf (detector t) ∧ (∀ l, last_loss_ms t = Some l → l ≤ now) ∧
  ∀ key e, is_loss key.1 = true → last_emit_ms (detector t) !! key = Some e →
    ∃ l, last_loss_ms t = Some l ∧ e ≤ l.

Lemma sample_known now r t t' h :
  known now t → now ≤ r_now_ms r → sample fmt1 cfg t0_ms r t = (t', h) → known (r_now_ms r) t'.
Proof.
  intros (Hw & Hl & He) Hn E. apply sample_spec in E as (Ed & El & _).
  destruct (observe fmt1 (sees r) (detector t)) as [d' out] eqn:Eo. cbn [fst snd] in *.
  destruct (observe_step _ _ _ _ _ Hw Eo) as (Hw' & _). unfold known. rewrite Ed, El. split; [done|].
  split; [intros l; destruct (existsb _ out); [intros [= <-]; lia|intros H; apply Hl in H; lia]|].
  intros key e Hk. destruct (reported_split fmt1 key _ _ _ _ Hw Eo) as (_ & _ & Hle & _).
  rewrite Hle. destruct (Z.ltb_spec 0 (reported key (sees r) (detector t))) as [Hr|_].
  - intros [= <-]. pose proof (reported_is_loss key _ _ Hw Hk Hr) as Hx. rewrite Eo in Hx.
    cbn [snd] in Hx. rewrite Hx. exists (r_now_ms r). split; [done|]. cbn. lia.
  - intros H. destruct (He key e Hk H) as (l & Hl1 & Hl2). specialize (Hl l Hl1).
    destruct (existsb _ out); [exists (r_now_ms r)|exists l]; split; try done; lia.
Qed.

(** A loss that is held, or one that waits for its report, keeps the headline
    from being healthy. *)
Lemma loss_step key a now r t t' h :
  is_loss key.1 = true → known now t → now ≤ r_now_ms r → a ≤ r_now_ms r →
  amount (pending (detector t)) key + rose key (sees r) (detector t) < 2 ^ 64 →
  0 ≤ rose key (sees r) (detector t) →
  ((∃ l, last_loss_ms t = Some l ∧ a ≤ l) ∨
   0 < amount (pending (detector t)) key + rose key (sees r) (detector t)) →
  sample fmt1 cfg t0_ms r t = (t', h) →
  ((∃ l, last_loss_ms t' = Some l ∧ a ≤ l) ∨ 0 < amount (pending (detector t')) key) ∧
  (r_now_ms r - a < HEALTH_HOLD_MS → h ≠ Healthy).
Proof.
  intros Hk (Hw & Hl & He) Hn Ha Hb H0 Hc E. apply sample_spec in E as (Ed & El & _ & Eh).
  destruct (observe fmt1 (sees r) (detector t)) as [d' out] eqn:Eo. cbn [fst snd] in *.
  destruct (reported_split fmt1 key _ _ _ _ Hw Eo) as (Hs & Hr0 & _).
  pose proof (Hw key) as Hp. rewrite wrap_small in Hs by (unfold fits in *; lia).
  assert (∀ l, last_loss_ms t' = Some l → r_now_ms r - l < HEALTH_HOLD_MS → h ≠ Healthy) as Hheld.
  { intros l Hl' Hlt ->. symmetry in Eh. apply healthy_calm in Eh as [Eh _]. cbn [recent_loss] in Eh.
    rewrite Hl' in Eh. unfold hold, sat_sub, HEALTH_HOLD_MS in *. apply Z.ltb_ge in Eh. lia. }
  destruct (Z.ltb_spec 0 (reported key (sees r) (detector t))) as [Hr|Hr].
  - pose proof (reported_is_loss key _ _ Hw Hk Hr) as Hx. rewrite Eo in Hx. cbn [snd] in Hx.
    rewrite Hx in El. split; [left; by exists (r_now_ms r)|]. intros _. apply (Hheld (r_now_ms r) El).
    unfold HEALTH_HOLD_MS. lia.
  - assert (∃ b, (∀ l, last_loss_ms t = Some l → b ≤ l) ∧ is_Some (last_loss_ms t) ∧ b ≤ r_now_ms r ∧
      (r_now_ms r - a < HEALTH_HOLD_MS → r_now_ms r - b < HEALTH_HOLD_MS) ∧
      (a ≤ b ∨ 0 < amount (pending d') key)) as (b & B1 & [l0 B2] & B3 & B4 & B5).
    { destruct Hc as [(l & Hl1 & Hl2)|Hpos].
      - exists a. rewrite Hl1. split; [by intros ? [= <-]|]. split; [by eexists|]. split; [done|].
        split; [done|left; lia].
      - assert (¬ is_due (now_ms (sees r)) (last_emit_ms (detector t))
          (key, amount (pending (detector t)) key + rose key (sees r) (detector t))) as Hnd.
        { intros Hd. unfold reported in Hr. rewrite wrap_small in Hr by (unfold fits in *; lia).
          rewrite bool_decide_true in Hr by done. lia. }
        unfold is_due in Hnd. cbn [fst snd] in Hnd.
        destruct (last_emit_ms (detector t) !! key) as [e|] eqn:Ee; [|by destruct Hnd].
        destruct (He key e Hk Ee) as (l & Hl1 & Hl2). specialize (Hl l Hl1). exists e. rewrite Hl1.
        split; [by intros ? [= <-]|]. split; [by eexists|]. split; [lia|]. split; [|right; lia].
        intros _. change (now_ms (sees r)) with (r_now_ms r) in Hnd.
        unfold sat_sub, COUNTER_THROTTLE_MS, HEALTH_HOLD_MS in *. lia. }
    assert (∃ l, last_loss_ms t' = Some l ∧ b ≤ l) as (l & Hl1 & Hl2).
    { rewrite El. destruct (existsb _ out); [by exists (r_now_ms r)|]. exists l0. auto. }
    rewrite Ed. split; [destruct B5; [left; exists l; split; [done|lia]|by right]|].
    intros Hlt. apply (Hheld l Hl1). specialize (B4 Hlt). lia.
Qed.

(** The wall clock does not run backwards. *)
Fixpoint ordered (now : Z) (rs : list Readings) : Prop :=
  match rs with [] => True | r :: rs => now ≤ r_now_ms r ∧ ordered (r_now_ms r) rs end.

Fixpoint clock (now : Z) (rs : list Readings) : Z :=
  match rs with [] => now | r :: rs => clock (r_now_ms r) rs end.

Lemma ordered_app now rs rs' : ordered now (rs ++ rs') ↔ ordered now rs ∧ ordered (clock now rs) rs'.
Proof.
  revert now. induction rs as [|r rs IH]; intros now; cbn; [by split; [|intros []]|].
  rewrite IH. tauto.
Qed.

Lemma samples_known now rs t :
  known now t → ordered now rs → known (clock now rs) (samples rs t).1.
Proof.
  revert now t. induction rs as [|r rs IH]; intros now t Hk Ho; cbn [samples clock ordered] in *; [done|].
  destruct Ho as [Hn Ho]. destruct (sample fmt1 cfg t0_ms r t) as [t1 h] eqn:E.
  pose proof (IH _ t1 (sample_known _ _ _ _ _ Hk Hn E) Ho). by destruct (samples rs t1).
Qed.

Lemma ordered_forall a now rs : a ≤ now → ordered now rs → Forall (λ r, a ≤ r_now_ms r) rs.
Proof.
  revert now. induction rs as [|r rs IH]; intros now Ha; [constructor|]. cbn. intros [Hn Ho].
  constructor; [lia|]. apply (IH (r_now_ms r)); [lia|done].
Qed.

(** From a sample on, what is held of a loss. *)
Lemma losses_held key a now rs o t :
  is_loss key.1 = true → known now t → ordered now rs → follows o (detector t) →
  Forall (λ r, a ≤ r_now_ms r) rs →
  Forall (λ r, length (o_links (sees r)) = length (o_links o)) rs → rising key o (sees <$> rs) →
  amount (pending (detector t)) key + (counter key (final o (sees <$> rs)) - counter key o) < 2 ^ 64 →
  ((∃ l, last_loss_ms t = Some l ∧ a ≤ l) ∨ 0 < amount (pending (detector t)) key ∨
   match rs with r :: _ => counter key o < counter key (sees r) | [] => True end) →
  Forall2 (λ r h, r_now_ms r - a < HEALTH_HOLD_MS → h ≠ Healthy) rs (samples rs t).2.
Proof.
  revert now o t. induction rs as [|r rs IH]; intros now o t Hk Hkn Ho Hf Ha Hl Hr Hb Hc; [constructor|].
  cbn [samples ordered fmap list_fmap rising final] in *. destruct Ho as [Hn Ho]. destruct Hr as [Hr' Hr].
  apply Forall_cons in Ha as [Ha' Ha]. apply Forall_cons in Hl as [Hl' Hl].
  destruct (sample fmt1 cfg t0_ms r t) as [t1 h] eqn:E.
  pose proof (rising_final _ _ _ Hr) as Hfin. pose proof Hkn as (Hw & _). pose proof (Hw key) as Hp.
  assert (rose key (sees r) (detector t) = counter key (sees r) - counter key o) as Hro.
  { rewrite (rose_counter key o) by done. unfold rise. lia. }
  destruct (loss_step key a now r t t1 h) as [Hc' Hh]; try done; [lia|lia| |].
  { destruct Hc as [Hc|Hc]; [by left|right]. destruct Hc; unfold fits in *; lia. }
  pose proof E as E'. apply sample_spec in E' as (Ed & _).
  destruct (observe fmt1 (sees r) (detector t)) as [d' out] eqn:Eo. cbn [fst] in Ed.
  assert (follows (sees r) (detector t1)) as Hf1.
  { rewrite Ed. eapply observe_follows, Eo. rewrite <-(Forall2_length _ _ _ (f_links _ _ Hf)). lia. }
  destruct (reported_split fmt1 key _ _ _ _ Hw Eo) as (Hs & Hr0 & _).
  rewrite wrap_small in Hs by (unfold fits in *; lia).
  assert (Forall2 (λ r h, r_now_ms r - a < HEALTH_HOLD_MS → h ≠ Healthy) rs (samples rs t1).2) as IH'.
  { apply (IH (r_now_ms r) (sees r) t1); try done; [by eapply sample_known| |rewrite Ed; lia|].
    - eapply Forall_impl; [exact Hl|]. intros x Hx. by rewrite Hx, Hl'.
    - destruct Hc'; auto. }
  destruct (samples rs t1). by constructor.
Qed.

(** C35. A lost packet shows. When a counter of losses (send failures, outbound
    drops, drops of the TUN device, unrecoverable parity groups) rises between two
    samples, no sample of the following ten seconds calls the tunnel healthy,
    although the event that announces the loss may be throttled. *)
Theorem loss_shows key r0 mid r later :
  is_loss key.1 = true → ordered (r_now_ms r0) (mid ++ r :: later) →
  Forall (λ x, length (r_links x) = length (r_links r0)) (mid ++ r :: later) →
  rising key (sees r0) (sees <$> mid ++ r :: later) →
  0 ≤ counter key (sees r0) → counter key (final (sees r0) (sees <$> mid ++ r :: later)) < 2 ^ 64 →
  counter key (final (sees r0) (sees <$> mid)) < counter key (sees r) →
  Forall2 (λ x h, r_now_ms x - r_now_ms r < HEALTH_HOLD_MS → h ≠ Healthy)
    (r :: later) (samples (r :: later) (samples (r0 :: mid) Telemetry_new).1).2.
Proof.
  intros Hk Ho Hl Hr H0 Hb Hlt. set (t := (samples (r0 :: mid) Telemetry_new).1).
  apply ordered_app in Ho as [Ho1 Ho2]. apply Forall_app in Hl as [Hl1 Hl2].
  assert (∀ rs, Forall (λ x, length (r_links x) = length (r_links r0)) rs →
    Forall (λ o, length (o_links o) = length (o_links (sees r0))) (sees <$> rs)) as Hlen.
  { intros rs Hrs. apply Forall_fmap. eapply Forall_impl; [exact Hrs|]. intros x Hx. cbn.
    by rewrite !length_fmap. }
  rewrite fmap_app in Hr, Hb. apply rising_app in Hr as [Hr1 Hr2]. rewrite final_app in Hb.
  destruct (observe_baseline fmt1 (sees r0)) as (Hw & Hf & Hz).
  set (d := (observe fmt1 (sees r0) EventDetector_new).1) in *.
  assert (detector t = observe_all fmt1 (sees <$> mid) d) as Hd by apply samples_detector.
  destruct (observe_all_follows fmt1 (sees <$> mid) (sees r0) d) as [Hw' Hf']; [by auto..|].
  pose proof (rising_final _ _ _ Hr1) as F1. pose proof (rising_final _ _ _ Hr2) as F2.
  pose proof (pending_bounded fmt1 key (sees <$> mid) (sees r0) d) as Hpb. rewrite (proj1 (Hz key)) in Hpb.
  specialize (Hpb Hw Hf (Hlen _ Hl1) Hr1 ltac:(lia)).
  assert (known (clock (r_now_ms r0) mid) t) as Hkn.
  { change (clock (r_now_ms r0) mid) with (clock (r_now_ms r0) (r0 :: mid)). apply samples_known.
    - split; [|split; [done|intros k e _; cbn; by rewrite lookup_empty]].
      intros k. unfold amount. cbn [detector pending Telemetry_new EventDetector_new].
      rewrite lookup_empty. unfold fits. cbn [default]. lia.
    - by split; [lia|]. }
  apply (losses_held key _ (clock (r_now_ms r0) mid) (r :: later) (final (sees r0) (sees <$> mid)));
    [done..|by rewrite Hd| | |done|rewrite Hd; lia|by right; right].
  - apply Forall_cons. split; [lia|]. by apply (ordered_forall _ (r_now_ms r)), Ho2.
  - apply Hlen in Hl2. rewrite Forall_fmap in Hl2. eapply Forall_impl; [exact Hl2|].
    intros x Hx. cbn [compose] in Hx. rewrite Hx. by apply final_links, Hlen.
Qed.

(** ** Failovers show in the headline *)

Definition reading_up (l : LinkReading) : bool := bool_decide (state (lr_link l) = Up).

(** Between the samples [p] and [r] traffic was pushed off link [i]: the link
    went down while another is up and, when one link carries all the traffic, it
    was that one. *)
Definition pushed_off (p r : Readings) (i : nat) : Prop :=
  reading_up <$> r_links p !! i = Some true ∧ reading_up <$> r_links r !! i = Some false ∧
  Exists (λ l, reading_up l = true) (r_links r) ∧ (primary_mode = false ∨ r_primary p = Some i).

Lemma dropped_link_spec pm prev prim idx ls acc :
  is_Some (dropped_link pm prev prim idx ls acc) ↔
  is_Some acc ∨ ∃ i, is_up <$> ls !! i = Some false ∧ prev !! (idx + i)%nat = Some true ∧
                     (pm = false ∨ prim = Some (idx + i)%nat).
Proof.
  revert idx acc. induction ls as [|l ls IH]; intros idx acc; cbn [dropped_link].
  - split; [by left|]. intros [H|(i & H & _)]; [done|]. by rewrite lookup_nil in H.
  - rewrite IH. split.
    + intros [H|(i & H1 & H2 & H3)].
      * destruct (_ && _ && _) eqn:E; [|by left]. right. exists 0%nat. rewrite Nat.add_0_r. cbn.
        destruct (prev !! idx) as [[]|]; [|done..]. destruct (is_up l); [done|]. split; [done|].
        split; [done|]. destruct pm; [right|by left]. cbn in E. by case_bool_decide.
      * right. exists (S i). rewrite Nat.add_succ_r. done.
    + intros [H|([|i] & H1 & H2 & H3)].
      * left. by destruct (_ && _ && _).
      * left. rewrite Nat.add_0_r in *. cbn in H1. rewrite H2. injection H1 as ->. cbn.
        destruct H3 as [->| ->]; cbn; [done|]. rewrite bool_decide_true by done. by rewrite orb_true_r.
      * right. exists i. rewrite Nat.add_succ_r in *. done.
Qed.

(** The tracker after a sample. *)
Lemma sample_failover r t t' h :
  sample fmt1 cfg t0_ms r t = (t', h) →
  prev_up (failover t') = reading_up <$> r_links r ∧ prev_primary (failover t') = r_primary r ∧
  (h = Failover ↔ Exists (λ l, reading_up l = true) (r_links r) ∧
                  is_Some (failover_active (r_now_ms r) (failover t'))).
Proof.
  intros E. apply sample_spec in E as (_ & _ & Ef & Eh).
  assert (Exists (λ l, reading_up l = true) (r_links r) ↔
          Exists (λ l, is_up l = true) (link_health <$> r_links r)) as Hx by (by rewrite Exists_fmap).
  split; [rewrite Ef; cbn; by rewrite <-list_fmap_compose|]. split; [by rewrite Ef|]. rewrite Eh, Hx.
  destruct (decide (Exists (λ l, is_up l = true) (link_health <$> r_links r))) as [Hup|Hup].
  - rewrite health_some_up by done. cbn [failed_over_from h_links recent_loss].
    case_bool_decide; [tauto|]. destruct (_ || _); split; [done|tauto|done|tauto].
  - rewrite health_none_up; [case_match; split; [done|tauto|done|tauto]|].
    apply Forall_Exists_neg in Hup. eapply Forall_impl; [exact Hup|]. cbn [h_links].
    intros l Hl. cbn in Hl. by destruct (is_up l).
Qed.

Lemma sample_last_failover p r t t' h :
  prev_up (failover t) = reading_up <$> r_links p → prev_primary (failover t) = r_primary p →
  sample fmt1 cfg t0_ms r t = (t', h) →
  ((∃ i, pushed_off p r i) → ∃ n, last_failover (failover t') = Some (r_now_ms r, n)) ∧
  (last_failover (failover t') = last_failover (failover t) ∨
   (∃ i, pushed_off p r i) ∧ ∃ n, last_failover (failover t') = Some (r_now_ms r, n)).
Proof.
  intros Hp Hpr E. apply sample_spec in E as (_ & _ & Ef & _). rewrite Ef. unfold failover_update.
  cbn [last_failover].
  assert ((∃ i, pushed_off p r i) ↔
    is_Some (if existsb is_up (link_health <$> r_links r)
             then dropped_link primary_mode (prev_up (failover t)) (prev_primary (failover t)) 0
                    (link_health <$> r_links r) None else None)) as Hd.
  { destruct (existsb _ _) eqn:Ex.
    - rewrite dropped_link_spec, Hp, Hpr. apply existsb_exists in Ex as (y & Hin & Hy).
      assert (Exists (λ l, reading_up l = true) (r_links r)) as Hup.
      { apply list_elem_of_In, list_elem_of_fmap in Hin as (l & -> & Hl). apply Exists_exists. by exists l. }
      unfold pushed_off. split.
      + intros (i & H1 & H2 & _ & H4). right. exists i. cbn [Nat.add].
        rewrite !list_lookup_fmap, <-option_fmap_compose. done.
      + intros [[? ?]|(i & H1 & H2 & H4)]; [done|]. exists i. cbn [Nat.add] in *.
        rewrite !list_lookup_fmap in *. rewrite <-option_fmap_compose in H1. done.
    - split; [|by intros [? ?]]. intros (i & _ & _ & Hup & _). apply Exists_exists in Hup as (l & Hl & Hu).
      exfalso. enough (existsb is_up (link_health <$> r_links r) = true) by congruence.
      apply existsb_exists. exists (link_health l). split; [|done].
      apply list_elem_of_In, list_elem_of_fmap. by exists l. }
  split.
  - intros [n Hn]%Hd. rewrite Hn. by exists n.
  - destruct (if existsb _ _ then _ else None) as [n|] eqn:En; [|by left]. right.
    split; [by apply Hd|by exists n].
Qed.

Lemma samples_snoc rs p t :
  (samples (rs ++ [p]) t).1 = (sample fmt1 cfg t0_ms p (samples rs t).1).1.
Proof. rewrite samples_app. cbn [samples fst]. by destruct (sample _ _ _ p _). Qed.

Lemma samples_tracker rs p t :
  prev_up (failover (samples (rs ++ [p]) t).1) = reading_up <$> r_links p ∧
  prev_primary (failover (samples (rs ++ [p]) t).1) = r_primary p.
Proof.
  rewrite samples_snoc. destruct (sample _ _ _ p _) as [t' h] eqn:E.
  by apply sample_failover in E as (? & ? & _).
Qed.

Lemma first_sample_no_failover r : last_failover (failover (samples [r] Telemetry_new).1) = None.
Proof.
  cbn [samples]. destruct (sample _ _ _ r _) as [t' h] eqn:E. apply sample_spec in E as (_ & _ & Ef & _).
  cbn [fst]. rewrite Ef. unfold failover_update. cbn [last_failover]. destruct (existsb _ _); [|done].
  destruct (dropped_link _ _ _ _ _ _) eqn:Ed; [|done].
  assert (is_Some (dropped_link primary_mode [] None 0 (link_health <$> r_links r) None)) as Hs by (by eexists).
  apply dropped_link_spec in Hs as [[? ?]|(i & _ & H & _)]; [done|]. by rewrite lookup_nil in H.
Qed.

Lemma failover_history rs tm n :
  last_failover (failover (samples rs Telemetry_new).1) = Some (tm, n) →
  ∃ a p r b i, rs = a ++ p :: r :: b ∧ pushed_off p r i ∧ tm = r_now_ms r.
Proof.
  induction rs as [|x rs IH] using rev_ind; [done|].
  destruct rs as [|p rs _] using rev_ind; [change ([] ++ [x]) with [x]; by rewrite first_sample_no_failover|].
  destruct (samples_tracker rs p Telemetry_new) as [H1 H2]. rewrite samples_snoc.
  destruct (sample _ _ _ x _) as [t' h] eqn:E. cbn [fst].
  destruct (sample_last_failover p x _ _ _ H1 H2 E) as (_ & [Hs|[[i Hi] [n' Hn]]]).
  - rewrite Hs. intros Hf. destruct (IH Hf) as (a & q & r & b & i & Eq & Hi & ->).
    exists a, q, r, (b ++ [x]), i. rewrite Eq, <-app_assoc. done.
  - rewrite Hn. intros [= <- <-]. exists rs, p, x, [], i. by rewrite <-app_assoc.
Qed.

Lemma failover_kept now rs t tm n :
  last_failover (failover t) = Some (tm, n) → tm ≤ now → ordered now rs →
  ∃ tm' n', last_failover (failover (samples rs t).1) = Some (tm', n') ∧ tm ≤ tm'.
Proof.
  revert now t tm n. induction rs as [|r rs IH]; intros now t tm n Hl Hn Ho; cbn [samples ordered] in *.
  { by exists tm, n. }
  destruct Ho as [Hr Ho]. destruct (sample _ _ _ r t) as [t' h] eqn:E.
  apply sample_spec in E as (_ & _ & Ef & _).
  assert (∃ tm' n', last_failover (failover t') = Some (tm', n') ∧ tm ≤ tm' ∧ tm' ≤ r_now_ms r)
    as (tm' & n' & Hl' & Hle & Hle').
  { rewrite Ef. unfold failover_update. cbn [last_failover]. destruct (if existsb _ _ then _ else None) as [m|].
    - exists (r_now_ms r), m. split; [done|lia].
    - exists tm, n. split; [done|lia]. }
  destruct (IH (r_now_ms r) t' tm' n' Hl' Hle' Ho) as (tm2 & n2 & H2 & Hle2).
  exists tm2, n2. destruct (samples rs t'). split; [done|lia].
Qed.

(** The headline says failover exactly when a link is up and, at this sample
    or one less than ten seconds before it, traffic was pushed off a link: one
    that was up went down while another is up, in the modes with a primary only
    if it was the primary. *)
Theorem failover_headline now rs x :
  ordered now (rs ++ [x]) →
  (sample fmt1 cfg t0_ms x (samples rs Telemetry_new).1).2 = Failover ↔
  Exists (λ l, reading_up l = true) (r_links x) ∧
  ∃ a p r b i, rs ++ [x] = a ++ p :: r :: b ∧ pushed_off p r i ∧
               r_now_ms x - r_now_ms r < HEALTH_HOLD_MS.
Proof.
  intros Ho. pose proof (samples_snoc rs x Telemetry_new) as Hs.
  destruct (sample _ _ _ x _) as [t' h] eqn:E. cbn [fst snd] in *.
  apply sample_failover in E as (_ & _ & ->). apply and_iff_compat_l.
  assert (∀ tm n, last_failover (failover t') = Some (tm, n) →
    is_Some (failover_active (r_now_ms x) (failover t')) ↔ r_now_ms x - tm < HEALTH_HOLD_MS) as Hact.
  { intros tm n Hl. unfold failover_active. rewrite Hl. unfold sat_sub, HEALTH_HOLD_MS.
    destruct (Z.ltb_spec (Z.max 0 (r_now_ms x - tm)) 10000); split; intros; try lia; [by eexists|].
    by apply is_Some_None in H0. }
  split.
  - intros Ha. destruct (last_failover (failover t')) as [[tm n]|] eqn:Hl.
    + rewrite <-Hs in Hl. pose proof Hl as Hh. apply failover_history in Hh as (a & p & r & b & i & Eq & Hi & ->).
      exists a, p, r, b, i. split; [done|]. split; [done|]. by apply (Hact _ n).
    + unfold failover_active in Ha. rewrite Hl in Ha. by apply is_Some_None in Ha.
  - intros (a & p & r & b & i & Eq & Hi & Hlt).
    rewrite Eq in Hs, Ho. replace (a ++ p :: r :: b) with ((a ++ [p]) ++ [r] ++ b) in Hs, Ho
      by (by rewrite <-app_assoc).
    apply ordered_app in Ho as [_ [_ Ho]]. rewrite samples_app, samples_app in Hs. cbn [fst samples] in Hs.
    destruct (samples_tracker a p Telemetry_new) as [H1 H2].
    destruct (sample _ _ _ r _) as [t1 h1] eqn:E1. cbn [fst] in Hs.
    destruct (sample_last_failover p r _ _ _ H1 H2 E1) as [Hf _].
    destruct Hf as [n Hn]; [by exists i|].
    destruct (failover_kept (r_now_ms r) b t1 _ _ Hn) as (tm & n' & Hl & Hle); [lia|done|].
    rewrite Hs in Hl. apply (Hact _ _ Hl). lia.
Qed.

End runs.

(** ** The reorder warning *)

(** No frame waits out the window: the receive pipeline publishes a timeout
    count of zero, whatever it receives. *)
Definition no_timeouts (p : Pipeline) : Prop :=
  RxPipeline.timeout (RxPipeline.counters (reorder p)) = 0 ∧ st_timeout_total (RxPipeline.stats p) = 0.

Section warning.
Context `{HI : FecRecovery.HashIter} (primary_is_set : nat → bool) (fec_on : bool).

Lemma drain_loop_timeout now q r : RxPipeline.timeout (RxPipeline.counters (drain_loop now q r).1) = RxPipeline.timeout (RxPipeline.counters r).
Proof.
  revert r. induction q as [|[seq [sent payload]] q IH]; intros r; cbn [drain_loop]; [done|].
  specialize (IH (drain_one now seq sent r q)). by destruct (drain_loop now q _).
Qed.

Lemma insert_timeout now seq b r : RxPipeline.timeout (RxPipeline.counters (RxPipeline.insert now seq b r)) = RxPipeline.timeout (RxPipeline.counters r).
Proof. unfold RxPipeline.insert. by destruct (bt_insert _ _ _). Qed.

Lemma rx_deliver_timeouts now seq b p : no_timeouts p → no_timeouts (rx_deliver primary_is_set now seq b p).
Proof.
  intros [H1 H2]. unfold rx_deliver. destruct (primary_is_set _); [by split|].
  pose proof (drain_loop_timeout now (RxPipeline.pending (RxPipeline.insert now seq b (reorder p)))
    (RxPipeline.insert now seq b (reorder p))) as Hd. unfold drain_ready.
  destruct (drain_loop _ _ _) as [r out]. cbn in Hd. split; [|done]. cbn. by rewrite Hd, insert_timeout.
Qed.

Lemma deliver_recovered_timeouts now fs p :
  no_timeouts p → no_timeouts (deliver_recovered primary_is_set now fs p).
Proof.
  revert p. induction fs as [|[seq b] fs IH]; intros p Hp; cbn [deliver_recovered]; [done|].
  by apply IH, rx_deliver_timeouts.
Qed.

Lemma handle_event_timeouts now ev p :
  no_timeouts p → no_timeouts (handle_event primary_is_set fec_on now ev p).
Proof.
  intros Hp. destruct ev as [seq b|k q|ms]; cbn [handle_event].
  - assert (∀ x skip, no_timeouts x → no_timeouts (if skip : bool then x else
      let p' := rx_deliver primary_is_set now seq b x in
      if fec_on && FecRecovery.has_late_recoveries (fec_recovery p') then
        let '(c, late) := FecRecovery.take_late_recoveries (fec_recovery p') in
        deliver_recovered primary_is_set now late (set_fec c p') else p')) as H.
    { intros x skip Hx. destruct skip; [done|]. cbn zeta. apply (rx_deliver_timeouts now seq b) in Hx.
      destruct (_ && _); [|done]. destruct (FecRecovery.take_late_recoveries _).
      by apply deliver_recovered_timeouts. }
    destruct fec_on; [|by apply (H p false)].
    destruct (FecRecovery.observe_data _ _ _ _) as [c fresh]. by apply (H (set_fec c p) (negb fresh)).
  - destruct (FecRecovery.try_recover _ _ _ _) as [c oc]. destruct oc; try done.
    by apply deliver_recovered_timeouts.
  - done.
Qed.

Lemma pipeline_no_timeouts st p :
  no_timeouts p → no_timeouts (pipeline_step primary_is_set fec_on st p).
Proof.
  intros Hp. destruct st as [evs rx busy|now|now|]; cbn [pipeline_step].
  - set (p1 := set_stats _ _ p). assert (no_timeouts p1) as Hp1 by done. clearbody p1.
    assert (no_timeouts (foldl (λ p ev, handle_event primary_is_set fec_on ev.1 ev.2 p) p1 evs)) as H.
    { revert p1 Hp1. induction evs as [|ev evs IH]; intros p1 Hp1; [done|]. cbn [foldl].
      by apply IH, handle_event_timeouts. }
    done.
  - destruct Hp as [H1 H2]. pose proof (drain_loop_timeout now (RxPipeline.pending (reorder p)) (reorder p)) as Hd.
    unfold drain_ready. destruct (drain_loop _ _ _) as [r out]. cbn in Hd. split; cbn; by rewrite Hd.
  - destruct fec_on; [|done]. destruct (FecRecovery.tick _ _) as [c g]. by destruct (0 <? g).
  - by destruct (0 <? dropped p).
Qed.

(** Whatever the pipeline receives, its published count of late frames that the
    reorder warning is driven by stays zero. *)
Lemma reorder_warning_silent ms b steps :
  rs_timeout_total (reorder_snapshot (RxPipeline.stats
    (foldl (λ p st, pipeline_step primary_is_set fec_on st p) (pipeline_new ms b) steps))) = 0.
Proof.
  enough (∀ p, no_timeouts p → no_timeouts (foldl (λ p st, pipeline_step primary_is_set fec_on st p) p steps)) as H
    by (by apply H).
  induction steps as [|st steps IH]; intros p Hp; [done|]. cbn [foldl]. by apply IH, pipeline_no_timeouts.
Qed.

End warning.

(** ** Examples *)

Module telemetry_example.

Definition tx (send_failed_ : Z) : TxCounters := mkTxCounters 0 send_failed_ 0 0 0 0 0 0 0 0 0 0 1000 1000000.
Definition wan (name : string) (st : LinkState) (failed : Z) : LinkReading :=
  mkReading (mkLink (sample_link name) st 0 sample_stats false) (tx failed) 0 None.
Definition no_tun : TunIfaceStats := mkTun None None None None None None None None.
Definition at_time (now : Z) (ls : list LinkReading) : Readings :=
  mkReadings now 60 (now * 1000000) 100 ls (Some 0%nat) no_tun (RxPipeline.mkStats 0 0 0 0 0 0 0 0 0 0 0)
    0 0 0 1400 (mkProcess None None None None) (λ _, now).
Definition cfg : StaticConfig := from_scheduler SchedulerConfig_default.
Definition fmt (_ : f64) : string := "0.0".
Definition calm (now failed : Z) : Readings := at_time now [wan "wan0" Up failed; wan "wan1" Up 0].

(** The second failure comes while the report of the first throttles its event. *)
Definition mid : list Readings := [calm 500 1].
Definition later : list Readings := [calm 2000 2; calm 11500 2; calm 22000 2].

Lemma loss_shows_witness :
  Forall2 (λ x h, r_now_ms x - 1000 < HEALTH_HOLD_MS → h ≠ Healthy) (calm 1000 2 :: later)
    (samples fmt cfg 0 (calm 1000 2 :: later) (samples fmt cfg 0 (calm 0 0 :: mid) Telemetry_new).1).2 ∧
  (samples fmt cfg 0 (calm 1000 2 :: later) (samples fmt cfg 0 (calm 0 0 :: mid) Telemetry_new).1).2 =
    [Degraded; Degraded; Degraded; Healthy].
Proof.
  split; [|vm_compute; reflexivity].
  apply (loss_shows fmt cfg 0 (SendFailure, 0) (calm 0 0) mid (calm 1000 2) later);
    [reflexivity|vm_compute; intuition discriminate|repeat constructor|vm_compute; intuition discriminate
    |vm_compute; discriminate|vm_compute; reflexivity|vm_compute; reflexivity].
Defined.

Definition lost : Readings := at_time 1000 [wan "wan0" Down 0; wan "wan1" Up 0].

Lemma failover_headline_witness :
  (sample fmt cfg 0 (at_time 9000 [wan "wan0" Probing 0; wan "wan1" Up 0])
     (samples fmt cfg 0 [calm 500 0; lost] Telemetry_new).1).2 = Failover ↔
  Exists (λ l, reading_up l = true) [wan "wan0" Probing 0; wan "wan1" Up 0] ∧
  ∃ a p r b i, [calm 500 0; lost] ++ [at_time 9000 [wan "wan0" Probing 0; wan "wan1" Up 0]] =
    a ++ p :: r :: b ∧ pushed_off cfg p r i ∧ 9000 - r_now_ms r < HEALTH_HOLD_MS.
Proof.
  apply (failover_headline fmt cfg 0 500 [calm 500 0; lost]).
  vm_compute. intuition discriminate.
Defined.

End telemetry_example.
