(* ===== verification/MtuMonitor.v ===== *)
(** * Keeping the tunnel MTU agreed ([control.rs])

    [mtu_monitor_loop]: every tick recomputes what this side's links carry,
    folds in what the peer last advertised and resizes the TUN device. Two
    monitors that advertise to each other over a network form a system whose
    steps are ticks and the sending, arrival and loss of advertisements: these
    arrive in any order, or not at all. *)

From S2P Require Import Prelude Bytes Configuration Mtu.

Inductive mtu_log :=
  | WorkingAgain (suppressed : Z)
  | Resized (old_mtu new_mtu : Z)
  | ResizeFailed (attempted_mtu : Z).

(** The loop's arguments that do not change, its variables and the cells it
    shares. *)
Record Monitor := mkMonitor {
  tunnel_cfg : TunnelConfig;
  fec_reservation_ : Z;
  live_mtu : Z;
  local_capability_mtu : Z;
  peer_mtu : option Z;
  failures_ : ResizeFailureLatch }.

(** What a tick reads: the interfaces' MTUs, the scheduler's primary, and what
    the kernel answers a resize. *)
Record mtu_reading := mkMtuReading {
  detected : list (option Z); primary_idx : option nat; accepts : Z → bool }.

Definition monitor_tick (r : mtu_reading) (m : Monitor) : Monitor * list mtu_log :=
  let local := (effective_tunnel_mtu (tunnel_cfg m) (detected r) (fec_reservation_ m) (primary_idx r)).1 in
  let floor := mtu_floor_for (tunnel_cfg m) in
  let recomputed := negotiate_tunnel_mtu local (peer_mtu m) floor in
  let current := live_mtu m in
  let set live f := mkMonitor (tunnel_cfg m) (fec_reservation_ m) live local (peer_mtu m) f in
  if negb (mtu_resize_needed current recomputed) then (set current (failures_ m), [])
  else if accepts r recomputed then
    let '(f, suppressed) := record_success (failures_ m) in
    (set recomputed f,
     match suppressed with Some n => [WorkingAgain n] | None => [] end ++ [Resized current recomputed])
  else
    let '(f, warn) := record_failure recomputed (failures_ m) in
    (set current f, if warn then [ResizeFailed recomputed] else []).

(** The peer's advertised capability arrives. *)
Definition hear (capability : Z) (m : Monitor) : Monitor :=
  mkMonitor (tunnel_cfg m) (fec_reservation_ m) (live_mtu m) (local_capability_mtu m)
    (Some capability) (failures_ m).

(** Two ends, and the advertisements under way to each. *)
Record Net := mkNet {
  end_a : Monitor; end_b : Monitor; to_a : list Z; to_b : list Z }.

Inductive mtu_op :=
  | TickA (r : mtu_reading)
  | TickB (r : mtu_reading)
  | SayA
  | SayB
  | HearA (k : nat)
  | HearB (k : nat)
  | LoseToA (k : nat)
  | LoseToB (k : nat).

(** One step; an advertisement that is not under way cannot be heard or lost. *)
Definition mtu_step (op : mtu_op) (s : Net) : option Net :=
  let '(mkNet a b qa qb) := s in
  match op with
  | TickA r => Some (mkNet (monitor_tick r a).1 b qa qb)
  | TickB r => Some (mkNet a (monitor_tick r b).1 qa qb)
  | SayA => Some (mkNet a b qa (qb ++ [local_capability_mtu a]))
  | SayB => Some (mkNet a b (qa ++ [local_capability_mtu b]) qb)
  | HearA k => c ← qa !! k; Some (mkNet (hear c a) b (delete k qa) qb)
  | HearB k => c ← qb !! k; Some (mkNet a (hear c b) qa (delete k qb))
  | LoseToA k => _ ← qa !! k; Some (mkNet a b (delete k qa) qb)
  | LoseToB k => _ ← qb !! k; Some (mkNet a b qa (delete k qb))
  end.

Fixpoint mtu_run (ops : list mtu_op) (s : Net) : option Net :=
  match ops with
  | [] => Some s
  | op :: ops => s ← mtu_step op s; mtu_run ops s
  end.

(** ** A tick *)

Definition capability (r : mtu_reading) (m : Monitor) : Z :=
  (effective_tunnel_mtu (tunnel_cfg m) (detected r) (fec_reservation_ m) (primary_idx r)).1.

Lemma capability_floor r m : mtu_floor_for (tunnel_cfg m) ≤ capability r m.
Proof.
  unfold capability, effective_tunnel_mtu. case_match; cbn [fst]; [|lia].
  repeat case_match; cbn [fst]; lia.
Qed.

Definition same_setup (m m' : Monitor) : Prop :=
  tunnel_cfg m' = tunnel_cfg m ∧ fec_reservation_ m' = fec_reservation_ m.

Lemma tick_spec r m :
  let m' := (monitor_tick r m).1 in
  let want := negotiate_tunnel_mtu (capability r m) (peer_mtu m) (mtu_floor_for (tunnel_cfg m)) in
  same_setup m m' ∧ local_capability_mtu m' = capability r m ∧ peer_mtu m' = peer_mtu m ∧
  live_mtu m' = (if accepts r want then want else live_mtu m).
Proof.
  cbn zeta. unfold monitor_tick. fold (capability r m). unfold mtu_resize_needed.
  destruct (Z.eqb_spec (live_mtu m) (negotiate_tunnel_mtu (capability r m) (peer_mtu m)
    (mtu_floor_for (tunnel_cfg m)))) as [E|E]; cbn [negb].
  - rewrite <-E. by destruct (accepts r (live_mtu m)).
  - destruct (accepts r _); [|by destruct (record_failure _ _)].
    by destruct (record_success (failures_ m)).
Qed.

(** ** Agreement *)

Section agreement.
Context (ra rb : mtu_reading).

(** The links of both ends have settled: every tick reads the same of them,
    whatever the kernel answers its resize. *)
Definition settled (op : mtu_op) : Prop :=
  match op with
  | TickA r => detected r = detected ra ∧ primary_idx r = primary_idx ra
  | TickB r => detected r = detected rb ∧ primary_idx r = primary_idx rb
  | _ => True
  end.

Context (cap_a cap_b floor_a floor_b : Z).
Let want_a : Z := negotiate_tunnel_mtu cap_a (Some cap_b) floor_a.
Let want_b : Z := negotiate_tunnel_mtu cap_b (Some cap_a) floor_b.

(** The setup both ends keep, with the capability it gives. *)
Definition base (s : Net) : Prop :=
  capability ra (end_a s) = cap_a ∧ capability rb (end_b s) = cap_b ∧
  mtu_floor_for (tunnel_cfg (end_a s)) = floor_a ∧ mtu_floor_for (tunnel_cfg (end_b s)) = floor_b.
Definition told_a (s : Net) : Prop := local_capability_mtu (end_a s) = cap_a.
Definition told_b (s : Net) : Prop := local_capability_mtu (end_b s) = cap_b.

(** Nothing out of date is under way. *)
Definition fresh (s : Net) : Prop :=
  Forall (λ c, c = cap_b) (to_a s) ∧ Forall (λ c, c = cap_a) (to_b s).
Definition current (s : Net) : Prop := told_a s ∧ told_b s ∧ fresh s.
Definition heard_a (s : Net) : Prop := current s ∧ peer_mtu (end_a s) = Some cap_b.
Definition heard_b (s : Net) : Prop := current s ∧ peer_mtu (end_b s) = Some cap_a.
Definition agreed_a (s : Net) : Prop := heard_a s ∧ live_mtu (end_a s) = want_a.
Definition agreed_b (s : Net) : Prop := heard_b s ∧ live_mtu (end_b s) = want_b.

Lemma tick_settled r r0 m :
  detected r = detected r0 ∧ primary_idx r = primary_idx r0 → capability r m = capability r0 m.
Proof. unfold capability. by intros [-> ->]. Qed.

(** What a settled step does to either end. *)
Lemma step_cases op s s' :
  base s → settled op → mtu_step op s = Some s' →
  base s' ∧ (told_a s → told_a s') ∧ (told_b s → told_b s') ∧ (current s → current s') ∧
  (current s → (peer_mtu (end_a s') = peer_mtu (end_a s) ∧ ∀ k, op ≠ HearA k) ∨
               peer_mtu (end_a s') = Some cap_b) ∧
  (current s → (peer_mtu (end_b s') = peer_mtu (end_b s) ∧ ∀ k, op ≠ HearB k) ∨
               peer_mtu (end_b s') = Some cap_a).
Proof.
  unfold current, fresh, told_a, told_b, base.
  destruct s as [a b qa qb], op as [r|r| | |k|k|k|k];
    cbn [mtu_step settled end_a end_b to_a to_b] in *; intros (B1 & B2 & B3 & B4) Hs H.
  1: injection H as <-; destruct (tick_spec r a) as ([E1 E2] & E3 & E4 & _);
     rewrite (tick_settled r ra a Hs) in E3.
  2: injection H as <-; destruct (tick_spec r b) as ([E1 E2] & E3 & E4 & _);
     rewrite (tick_settled r rb b Hs) in E3.
  1-2: unfold capability in *; cbn [end_a end_b to_a to_b];
       rewrite ?E1, ?E2, ?E3, ?E4; split_and!; try done; naive_solver.
  1-2: injection H as <-; cbn [end_a end_b to_a to_b]; split_and!; try done; try naive_solver;
       intros (T1 & T2 & F1 & F2); split_and!; try done; apply Forall_app; auto.
  all: apply bind_Some in H as (c & Hc & [= <-]);
       cbn [end_a end_b to_a to_b hear tunnel_cfg local_capability_mtu peer_mtu];
       split_and!; try done; try naive_solver;
       intros (T1 & T2 & F1 & F2); split_and?; try done; try (by apply Forall_delete);
       right; f_equal; by (eapply Forall_lookup_1 in Hc; [exact Hc|]).
Qed.

(** A settled step keeps each stage. *)
Lemma stages_kept op s s' :
  base s → settled op → mtu_step op s = Some s' →
  (heard_a s → heard_a s') ∧ (heard_b s → heard_b s') ∧
  (agreed_a s → agreed_a s') ∧ (agreed_b s → agreed_b s').
Proof.
  intros Hb Hs H. destruct (step_cases op s s' Hb Hs H) as (_ & _ & _ & Hc & Ha & Hb').
  destruct Hb as (B1 & B2 & B3 & B4).
  assert ((heard_a s → heard_a s') ∧ (heard_b s → heard_b s')) as [KA KB].
  { unfold heard_a, heard_b. split; intros [C P]; (split; [auto|]).
    - destruct (Ha C) as [[-> _]|]; done.
    - destruct (Hb' C) as [[-> _]|]; done. }
  split_and!; [done..| |]; intros [HH L]; (split; [auto|]); rewrite <- L;
    destruct s as [a b qa qb], op as [r|r| | |k|k|k|k]; cbn [mtu_step settled end_a end_b] in *;
    try (by injection H as <-); try (by apply bind_Some in H as (c & _ & [= <-])); injection H as <-.
  - destruct (tick_spec r a) as (_ & _ & _ & E). cbn [end_a]. rewrite E, (tick_settled r ra a Hs), B1, B3.
    destruct HH as [_ P]. cbn [end_a] in P. rewrite P, L. fold want_a. by destruct (accepts r want_a).
  - destruct (tick_spec r b) as (_ & _ & _ & E). cbn [end_b]. rewrite E, (tick_settled r rb b Hs), B2, B4.
    destruct HH as [_ P]. cbn [end_b] in P. rewrite P, L. fold want_b. by destruct (accepts r want_b).
Qed.

(** The step that reaches each stage: a tick; an arrival when nothing out of
    date is under way; a tick whose resize the kernel takes. *)
Lemma stages_reached op s s' :
  base s → settled op → mtu_step op s = Some s' →
  ((∃ r, op = TickA r) → told_a s') ∧ ((∃ r, op = TickB r) → told_b s') ∧
  ((∃ k, op = HearA k) → current s → heard_a s') ∧
  ((∃ k, op = HearB k) → current s → heard_b s') ∧
  ((∃ r, op = TickA r ∧ accepts r want_a = true) → heard_a s → agreed_a s') ∧
  ((∃ r, op = TickB r ∧ accepts r want_b = true) → heard_b s → agreed_b s').
Proof.
  intros Hb Hs H. destruct (step_cases op s s' Hb Hs H) as (_ & _ & _ & Hc & Ha & Hb').
  destruct (stages_kept op s s' Hb Hs H) as (KA & KB & _).
  destruct Hb as (B1 & B2 & B3 & B4). split_and!.
  - intros (r & ->). destruct s as [a b qa qb]. injection H as <-. unfold told_a. cbn [end_a] in *.
    destruct (tick_spec r a) as (_ & -> & _). by rewrite (tick_settled r ra a Hs).
  - intros (r & ->). destruct s as [a b qa qb]. injection H as <-. unfold told_b. cbn [end_b] in *.
    destruct (tick_spec r b) as (_ & -> & _). by rewrite (tick_settled r rb b Hs).
  - intros (k & ->) C. split; [auto|]. destruct (Ha C) as [[_ Hk]|]; [by destruct (Hk k)|done].
  - intros (k & ->) C. split; [auto|]. destruct (Hb' C) as [[_ Hk]|]; [by destruct (Hk k)|done].
  - intros (r & -> & Hacc) HH. split; [auto|]. destruct s as [a b qa qb]. injection H as <-.
    cbn [end_a] in *. destruct (tick_spec r a) as (_ & _ & _ & E).
    rewrite E, (tick_settled r ra a Hs), B1, B3. destruct HH as [_ P]. cbn [end_a] in P.
    rewrite P. fold want_a. by rewrite Hacc.
  - intros (r & -> & Hacc) HH. split; [auto|]. destruct s as [a b qa qb]. injection H as <-.
    cbn [end_b] in *. destruct (tick_spec r b) as (_ & _ & _ & E).
    rewrite E, (tick_settled r rb b Hs), B2, B4. destruct HH as [_ P]. cbn [end_b] in P.
    rewrite P. fold want_b. by rewrite Hacc.
Qed.

Definition keeps (Q : Net → Prop) : Prop :=
  ∀ op s s', base s → settled op → mtu_step op s = Some s' → Q s → Q s'.

Lemma keeps_run Q ops s s' :
  keeps Q → base s → Forall settled ops → mtu_run ops s = Some s' → Q s → base s' ∧ Q s'.
Proof.
  intros K. revert s. induction ops as [|op ops IH]; intros s Hb Hs H HQ; cbn in H; [by simplify_eq|].
  apply Forall_cons in Hs as [Ho Hs]. apply bind_Some in H as (s1 & H1 & H).
  apply (IH s1); [|done..|exact (K op s s1 Hb Ho H1 HQ)]. by destruct (step_cases op s s1 Hb Ho H1).
Qed.

(** A stage [Q] that settled steps keep, and that a step in [X] reaches from a
    state in [P], which they keep too, holds after any settled run with such a
    step. *)
Lemma stage_run (P Q : Net → Prop) (X : mtu_op → Prop) ops s s' :
  keeps P → keeps Q →
  (∀ op s s', base s → settled op → mtu_step op s = Some s' → X op → P s → Q s') →
  base s → Forall settled ops → mtu_run ops s = Some s' → P s → (∃ op, op ∈ ops ∧ X op) → Q s'.
Proof.
  intros KP KQ HX. revert s. induction ops as [|o ops IH]; intros s Hb Hs H HP (op & Hin & Hop).
  { by apply elem_of_nil in Hin. }
  cbn in H. apply Forall_cons in Hs as [Ho Hs]. apply bind_Some in H as (s1 & H1 & H).
  assert (base s1) as Hb1 by (by destruct (step_cases o s s1 Hb Ho H1)).
  apply elem_of_cons in Hin as [->|Hin].
  - destruct (keeps_run Q ops s1 s' KQ Hb1 Hs H); [by eapply (HX o s s1)|done].
  - apply (IH s1); [done..|exact (KP o s s1 Hb Ho H1 HP)|eauto].
Qed.

Ltac stage := intros ? ? ?; intros;
  match goal with
  | Hb : base ?s, Hs : settled ?op, H : mtu_step ?op ?s = Some ?s' |- _ =>
      pose proof (step_cases op s s' Hb Hs H); pose proof (stages_kept op s s' Hb Hs H);
      pose proof (stages_reached op s s' Hb Hs H); tauto
  end.

(** Both ends tick; once nothing out of date is under way each hears the other;
    then each ticks and the kernel takes its resize. *)
Lemma settles ops1 ops2 ops3 s s1 s2 s3 :
  base s → Forall settled (ops1 ++ ops2 ++ ops3) →
  mtu_run ops1 s = Some s1 → mtu_run ops2 s1 = Some s2 → mtu_run ops3 s2 = Some s3 →
  (∃ op, op ∈ ops1 ∧ ∃ r, op = TickA r) → (∃ op, op ∈ ops1 ∧ ∃ r, op = TickB r) → fresh s1 →
  (∃ op, op ∈ ops2 ∧ ∃ k, op = HearA k) → (∃ op, op ∈ ops2 ∧ ∃ k, op = HearB k) →
  (∃ op, op ∈ ops3 ∧ ∃ r, op = TickA r ∧ accepts r want_a = true) →
  (∃ op, op ∈ ops3 ∧ ∃ r, op = TickB r ∧ accepts r want_b = true) →
  agreed_a s3 ∧ agreed_b s3.
Proof.
  intros Hb Hs R1 R2 R3 A1 B1 F A2 B2 A3 B3. apply Forall_app in Hs as [S1 [S2 S3]%Forall_app].
  assert (keeps (λ _, True)) as KT by done.
  destruct (keeps_run _ ops1 s s1 KT Hb S1 R1 I) as [Hb1 _].
  destruct (keeps_run _ ops2 s1 s2 KT Hb1 S2 R2 I) as [Hb2 _].
  assert (told_a s1 ∧ told_b s1) as [TA TB].
  { split; [apply (stage_run (λ _, True) told_a (λ op, ∃ r, op = TickA r) ops1 s)
           |apply (stage_run (λ _, True) told_b (λ op, ∃ r, op = TickB r) ops1 s)]; try done; stage. }
  assert (heard_a s2 ∧ heard_b s2) as [HA HB].
  { split; [apply (stage_run current heard_a (λ op, ∃ k, op = HearA k) ops2 s1)
           |apply (stage_run current heard_b (λ op, ∃ k, op = HearB k) ops2 s1)]; try done; stage. }
  split; [apply (stage_run heard_a agreed_a (λ op, ∃ r, op = TickA r ∧ accepts r want_a = true) ops3 s2)
         |apply (stage_run heard_b agreed_b (λ op, ∃ r, op = TickB r ∧ accepts r want_b = true) ops3 s2)];
    try done; stage.
Qed.

End agreement.

Lemma step_setup op s s' :
  mtu_step op s = Some s' → same_setup (end_a s) (end_a s') ∧ same_setup (end_b s) (end_b s').
Proof.
  destruct s as [a b qa qb], op as [r|r| | |k|k|k|k]; cbn [mtu_step]; intros H.
  1: injection H as <-; by destruct (tick_spec r a) as ([E1 E2] & _).
  1: injection H as <-; by destruct (tick_spec r b) as ([E1 E2] & _).
  1-2: by injection H as <-.
  all: by apply bind_Some in H as (c & _ & [= <-]).
Qed.

Lemma run_setup ops s s' :
  mtu_run ops s = Some s' → same_setup (end_a s) (end_a s') ∧ same_setup (end_b s) (end_b s').
Proof.
  revert s. induction ops as [|op ops IH]; intros s H; cbn in H; [by simplify_eq|].
  apply bind_Some in H as (s1 & [[E1 E2] [E3 E4]]%step_setup & [[F1 F2] [F3 F4]]%IH).
  unfold same_setup. split; split; congruence.
Qed.

(** What both ends come to: the smaller capability, an end's floor permitting. *)
Definition mtu_goal (floor cap_a cap_b : Z) : Z := Z.max floor (Z.min cap_a cap_b).

Lemma negotiated_goal cap peer floor :
  floor ≤ cap → 0 < floor → peer ≠ 0 →
  negotiate_tunnel_mtu cap (Some peer) floor = mtu_goal floor cap peer.
Proof.
  intros H1 H2 H3. unfold negotiate_tunnel_mtu, mtu_goal.
  destruct (Z.eqb_spec peer 0); [done|]. lia.
Qed.

(** C13. Both ends settle on one MTU. Whatever happened before (lower values
    advertised or applied, resizes refused, advertisements delayed, reordered or
    lost), suppose that the links of both ends read the same from now on, each
    end ticks, and what it said before that has arrived or is lost; that then
    each hears one advertisement of the other; and that then each ticks with the
    kernel taking the resize. In any interleaving with further ticks, refused
    resizes and advertisements, both ends come to the smaller of the two
    capabilities, each end's floor permitting, and stay there; ends with the same
    floor then use the same MTU. *)
Theorem mtu_agreed history ops1 ops2 ops3 ra rb a b qa qb s s1 s2 s3 :
  let cap_a := capability ra a in
  let cap_b := capability rb b in
  let goal_a := mtu_goal (mtu_floor_for (tunnel_cfg a)) cap_a cap_b in
  let goal_b := mtu_goal (mtu_floor_for (tunnel_cfg b)) cap_a cap_b in
  mtu_run history (mkNet a b qa qb) = Some s → Forall (settled ra rb) (ops1 ++ ops2 ++ ops3) →
  mtu_run ops1 s = Some s1 → mtu_run ops2 s1 = Some s2 → mtu_run ops3 s2 = Some s3 →
  (∃ r, TickA r ∈ ops1) → (∃ r, TickB r ∈ ops1) → fresh cap_a cap_b s1 →
  (∃ k, HearA k ∈ ops2) → (∃ k, HearB k ∈ ops2) →
  (∃ r, TickA r ∈ ops3 ∧ accepts r goal_a = true) →
  (∃ r, TickB r ∈ ops3 ∧ accepts r goal_b = true) →
  live_mtu (end_a s3) = goal_a ∧ live_mtu (end_b s3) = goal_b ∧
  (mtu_floor_for (tunnel_cfg a) = mtu_floor_for (tunnel_cfg b) →
     live_mtu (end_a s3) = live_mtu (end_b s3)).
Proof.
  intros cap_a cap_b goal_a goal_b H0 Hs R1 R2 R3 A1 B1 F A2 B2 A3 B3.
  destruct (run_setup _ _ _ H0) as [[E1 E2] [E3 E4]]. cbn [end_a end_b] in *.
  assert (base ra rb cap_a cap_b (mtu_floor_for (tunnel_cfg a)) (mtu_floor_for (tunnel_cfg b)) s) as Hb.
  { unfold base, cap_a, cap_b, capability. by rewrite E1, E2, E3, E4. }
  pose proof (capability_floor ra a) as Fa. pose proof (capability_floor rb b) as Fb.
  pose proof (floor_bounds (tunnel_cfg a)). pose proof (floor_bounds (tunnel_cfg b)).
  fold cap_a in Fa. fold cap_b in Fb.
  assert (negotiate_tunnel_mtu cap_a (Some cap_b) (mtu_floor_for (tunnel_cfg a)) = goal_a) as Ga
    by (apply negotiated_goal; lia).
  assert (negotiate_tunnel_mtu cap_b (Some cap_a) (mtu_floor_for (tunnel_cfg b)) = goal_b) as Gb.
  { rewrite negotiated_goal by lia. unfold goal_b, mtu_goal. lia. }
  destruct (settles ra rb cap_a cap_b (mtu_floor_for (tunnel_cfg a)) (mtu_floor_for (tunnel_cfg b))
              ops1 ops2 ops3 s s1 s2 s3) as [[_ HA] [_ HB]]; rewrite ?Ga, ?Gb; try naive_solver.
  rewrite HA, HB, Ga, Gb. split_and!; [done..|]. intros E. unfold goal_a, goal_b. by rewrite E.
Qed.

(** *** Example *)

Module mtu_example.

Definition v4 : TunnelConfig := mkTunnelConfig "mlvpn0" "10.0.0.2/24" None None true 5000.
Definition reads (m : Z) : mtu_reading := mkMtuReading [Some m] None (λ _, true).
Definition refused (m : Z) : mtu_reading := mkMtuReading [Some m] None (λ _, false).
Definition fresh_end : Monitor := mkMonitor v4 0 1400 1400 None latch_default.

(** One end's link was smaller for a while: its low value arrives late, when it
    has already recovered, and the other end's first resize is refused. *)
Definition dip : list mtu_op := [TickA (reads 1300); SayA; TickB (reads 1500)].
Definition back : list mtu_op := [TickA (reads 1480); TickB (reads 1500); HearB 0; TickB (reads 1500)].
Definition talk : list mtu_op := [SayB; SayA; HearB 0; HearA 0; TickB (refused 1500)].
Definition again : list mtu_op := [TickB (reads 1500); TickA (reads 1480)].

Definition after (ops : list mtu_op) (s : Net) : Net := default s (mtu_run ops s).
Definition start : Net := mkNet fresh_end fresh_end [] [].
Definition dipped : Net := after dip start.
Definition came_back : Net := after back dipped.
Definition talked : Net := after talk came_back.
Definition rest : Net := after again talked.

(** The late value is applied for a while. *)
Lemma dip_applied : live_mtu (end_a came_back) = 1368 ∧ live_mtu (end_b came_back) = 1188.
Proof. vm_compute. auto. Qed.

Lemma mtu_agreed_witness : live_mtu (end_a rest) = 1368 ∧ live_mtu (end_b rest) = 1368.
Proof.
  destruct (mtu_agreed dip back talk again (reads 1480) (reads 1500) fresh_end fresh_end [] []
              dipped came_back talked rest) as (-> & -> & _).
  - vm_compute. reflexivity.
  - repeat constructor.
  - vm_compute. reflexivity.
  - vm_compute. reflexivity.
  - vm_compute. reflexivity.
  - eexists. apply list_elem_of_here.
  - eexists. apply list_elem_of_further, list_elem_of_here.
  - vm_compute. split; constructor.
  - exists 0%nat. repeat (apply list_elem_of_here || apply list_elem_of_further).
  - exists 0%nat. repeat (apply list_elem_of_here || apply list_elem_of_further).
  - eexists. split; [apply list_elem_of_further, list_elem_of_here|reflexivity].
  - eexists. split; [apply list_elem_of_here|reflexivity].
  - vm_compute. auto.
Defined.

End mtu_example.
