(* ===== verification/Snapshot.v ===== *)
(** * Snapshots for monitoring clients ([control.rs], [ipc.rs], [diag.rs])

    What the control socket serves: a snapshot of every link, of the daemon and
    of the log lines and events that are new to the client, and the text of a
    diagnostic dump. The text of an address and of a number with a given number
    of decimals are parameters. *)

From S2P Require Import Prelude Bytes F64 Configuration RxPipeline LinkIo Link Congestion Delivery Events Telemetry.

Record LinkSnapshot := mkLinkSnapshot {
  ln_name : string; ln_bind_interface : string; ln_local_port : Z; ln_remote_addr : option string;
  ln_state : string; ln_is_primary : bool; ln_score : f64; ln_state_duration_ms : Z;
  ln_tx_bytes : Z; ln_rx_bytes : Z; ln_tx_packets : Z; ln_rx_packets : Z;
  local_rtt_ms : option f64; local_jitter_ms : option f64; local_loss_pct : option f64;
  local_rx_throughput_mbps : option f64; local_tx_throughput_mbps : option f64;
  local_active_bandwidth_mbps : option f64; local_confirmed_ceiling_mbps : option f64;
  local_consecutive_hits : Z; local_consecutive_misses : Z;
  wg_rejected_total : Z; wg_substituted_total : Z;
  tx_queue_full_total : Z; tx_send_failed_total : Z; tx_rerouted_total : Z; tx_queue_depth : Z;
  tx_queue_delay_us : Z; tx_queue_delay_max_us : Z; tx_send_wait_us : Z;
  congestion_factor : f64; delivery_factor : f64; degraded : bool;
  peer_name : option (list Z); peer_state : option string; peer_rtt_ms : option f64;
  peer_jitter_ms : option f64; peer_loss_pct : option f64; peer_throughput_mbps : option f64;
  peer_stats_age_ms : option Z }.

Record TunSnapshot := mkTunSnapshot {
  iface : string; ts_rx_bytes : option Z; ts_tx_bytes : option Z; ts_rx_errors : option Z;
  ts_tx_errors : option Z; ts_rx_dropped : option Z; ts_tx_dropped : option Z }.

Record SystemStats := mkSystem {
  load1 : option f64; load5 : option f64; load15 : option f64;
  mem_total_kb : option Z; mem_available_kb : option Z; sys_uptime_secs : option Z }.

Record DaemonSnapshot := mkDaemon {
  outbound_queue_len : Z; outbound_queue_capacity : Z; outbound_queue_dropped_total : Z;
  d_wg_rejected_total : Z; d_wg_substituted_total : Z;
  d_fec_recovered_total : Z; d_fec_unrecoverable_total : Z;
  fec_groups_sent_total : Z; fec_parity_p_sent_total : Z; fec_parity_q_sent_total : Z;
  d_tun : TunSnapshot; d_system : SystemStats;
  local_version : string; peer_version : option string;
  local_tunnel_mtu : Z; peer_tunnel_mtu : option Z; peer_applied_tunnel_mtu : option Z;
  telemetry : TelemetrySnapshot }.

Record Snapshot := mkSnap {
  sn_tunnel_name : string;
  sn_mode : string;
  sn_unix_ts_ms : Z;
  sn_links : list LinkSnapshot;
  sn_daemon : DaemonSnapshot;
  new_log_lines : list (Z * LogEntry);
  new_events : list (Z * EventRecord) }.

(** What a snapshot reads of a link and of the daemon. *)
Record LinkView := mkView { lv_reading : LinkReading; lv_remote : option SocketAddr; lv_substituted : Z }.

Record DaemonView := mkDaemonView {
  dv_now : Z;
  dv_unix_ts_ms : Z;
  dv_tunnel_name : string;
  dv_mode : string;
  dv_links : list LinkView;
  dv_peer_stats : delivery.PeerStatsTable;
  dv_primary : option nat;
  dv_max_capacity : Z;
  dv_capacity : Z;
  dv_outbound_dropped : Z;
  dv_fec_recovered : Z;
  dv_fec_unrecoverable : Z;
  dv_groups : Z;
  dv_parity_p : Z;
  dv_parity_q : Z;
  dv_tun : TunIfaceStats;
  dv_system : SystemStats;
  dv_version : string;
  dv_peer_version : option string;
  dv_mtu : Z;
  dv_peer_mtu : option Z;
  dv_peer_live_mtu : option Z;
  dv_telemetry : TelemetrySnapshot }.

Section snapshots.
Context (addr_to_string : SocketAddr → string).

Definition elapsed_ms (now at_ : Z) : Z := wrap 64 (sat_sub now at_ / 1000000).

Definition link_snapshot (v : DaemonView) (idx : nat) (x : LinkView) : LinkSnapshot :=
  let r := lv_reading x in
  let l := lr_link r in
  let tx := lr_tx r in
  let peer := delivery.PeerStatsTable_get (wrap 8 (Z.of_nat idx)) (dv_peer_stats v) in
  let congestion := (f64.of_Z (congestion_milli tx) / f64.of_Z 1000)%f64 in
  let delivery := (f64.of_Z (delivery_ppm tx) / f64.of_Z 1000000)%f64 in
  mkLinkSnapshot (link_name (config l)) (bind_interface (config l)) (local_port (config l))
    (addr_to_string <$> lv_remote x) (as_str (state l))
    (bool_decide (dv_primary v = Some idx)) (score l) (elapsed_ms (dv_now v) (state_since l))
    (tx_bytes (stats l)) (rx_bytes (stats l)) (tx_packets (stats l)) (rx_packets (stats l))
    (Ewma_get (rtt_ms (stats l))) (Ewma_get (jitter_ms (stats l)))
    ((λ p, (p * f64.of_Z 100)%f64) <$> Ewma_get (loss_rate (stats l)))
    (Ewma_get (rx_throughput_mbps (stats l))) (Ewma_get (tx_throughput_mbps (stats l)))
    (Ewma_get (active_bandwidth_mbps (stats l))) (confirmed_ceiling_mbps (stats l))
    (consecutive_hits (stats l)) (consecutive_misses (stats l))
    (lr_wg_rejected r) (lv_substituted x)
    (queue_full tx) (send_failed tx) (rerouted_away tx) (depth tx)
    (queue_delay_recent_us tx) (queue_delay_max_us tx) (send_wait_recent_us tx)
    congestion delivery
    (bool_decide (state l = Up) &&
     ((congestion <? congestion.DEGRADED_BELOW)%f64 || (delivery <? delivery.DEGRADED_BELOW)%f64))
    (delivery.p_name <$> peer) ((λ p, as_str (from_wire (delivery.p_state p))) <$> peer) (delivery.p_rtt_ms <$> peer)
    (delivery.p_jitter_ms <$> peer) (delivery.p_loss_pct <$> peer)
    (delivery.p_throughput_mbps <$> peer)
    ((λ p, elapsed_ms (dv_now v) (delivery.received_at p)) <$> peer).

(** [new.last().map(|e| e.seq).unwrap_or(cursor)]. *)
Definition cursor_after {A} (new : list (Z * A)) (cursor : Z) : Z := default cursor (fst <$> list.last new).

Definition sum_u64 (xs : list Z) : Z := foldl (λ acc x, wrap 64 (acc + x)) 0 xs.

Definition build_snapshot (v : DaemonView) (log_ring : ring LogEntry) (last_log_seq : Z)
    (event_ring : ring EventRecord) (last_event_seq : Z) : Snapshot * Z * Z :=
  let links := imap (link_snapshot v) (dv_links v) in
  let logs := entries_since last_log_seq log_ring in
  let events := entries_since last_event_seq event_ring in
  let t := dv_tun v in
  (mkSnap (dv_tunnel_name v) (dv_mode v) (dv_unix_ts_ms v) links
     (mkDaemon (dv_max_capacity v - dv_capacity v) (dv_max_capacity v) (dv_outbound_dropped v)
        (sum_u64 (wg_rejected_total <$> links)) (sum_u64 (wg_substituted_total <$> links))
        (dv_fec_recovered v) (dv_fec_unrecoverable v) (dv_groups v) (dv_parity_p v) (dv_parity_q v)
        (mkTunSnapshot (dv_tunnel_name v) (tun_rx_bytes t) (tun_tx_bytes t) (tun_rx_errors t)
           (tun_tx_errors t) (tun_rx_dropped t) (tun_tx_dropped t))
        (dv_system v) (dv_version v) (dv_peer_version v) (dv_mtu v) (dv_peer_mtu v)
        (dv_peer_live_mtu v) (dv_telemetry v))
     logs events,
   cursor_after logs last_log_seq, cursor_after events last_event_seq).

(** ** A connected client *)

(** [serve_client]: the two cursors and what was written to the stream. *)
Record Client := mkClient { last_log_seq : Z; last_event_seq : Z; written : list Snapshot }.
Definition Client_new : Client := mkClient 0 0 [].

(** One turn of the loop, while the client reads. *)
Definition client_tick (v : DaemonView) (log_ring : ring LogEntry) (event_ring : ring EventRecord)
    (c : Client) : Client :=
  let '(s, lseq, eseq) := build_snapshot v log_ring (last_log_seq c) event_ring (last_event_seq c) in
  mkClient lseq eseq (written c ++ [s]).

(** A ring while several threads push to it: [push] takes its number, and appends
    under the lock later, so the numbers taken and not yet appended are part of
    the state, and any of them can come next. *)
Inductive ring_op (A : Type) := Take | Append (k : nat) (a : A).
Global Arguments Take {A}.
Global Arguments Append {A} k a.

Definition ring_do {A} (capacity : nat) (op : ring_op A) (r : ring A * list Z) : ring A * list Z :=
  match op with
  | Take => let '(seq, r') := ring_reserve r.1 in (r', r.2 ++ [seq])
  | Append k a => match r.2 !! k with
                  | Some seq => (ring_append capacity seq a r.1, delete k r.2)
                  | None => r
                  end
  end.

(** The daemon logs and raises events while a client is served. *)
Inductive serve_op :=
  | LogDo (op : ring_op LogEntry)
  | EventDo (op : ring_op EventRecord)
  | ServeTick (v : DaemonView).

Record Served := mkServed {
  logs : ring LogEntry * list Z; evs : ring EventRecord * list Z; client : Client }.

Definition serve_step (op : serve_op) (s : Served) : Served :=
  match op with
  | LogDo o => mkServed (ring_do LOG_RING_CAPACITY o (logs s)) (evs s) (client s)
  | EventDo o => mkServed (logs s) (ring_do EVENT_RING_CAPACITY o (evs s)) (client s)
  | ServeTick v => mkServed (logs s) (evs s) (client_tick v (logs s).1 (evs s).1 (client s))
  end.

End snapshots.

(** ** What a client is sent *)

(** One ring seen by one client: [Some a] is pushed, [None] is a poll. The
    entries the client is sent. *)
Fixpoint feed {A} (capacity : nat) (ops : list (option A)) (r : ring A) (cursor : Z) : list (Z * A) :=
  match ops with
  | [] => []
  | Some a :: ops => feed capacity ops (ring_push capacity a r) cursor
  | None :: ops =>
      let new := entries_since cursor r in new ++ feed capacity ops r (cursor_after new cursor)
  end.

(** What is pushed before the last poll, after [new]. *)
Fixpoint polled {A} (new : list A) (ops : list (option A)) : list A :=
  match ops with
  | [] => []
  | Some a :: ops => polled (new ++ [a]) ops
  | None :: ops => new ++ polled [] ops
  end.

(** At most a ringful is pushed between two polls, [k] since the last one. *)
Fixpoint paced {A} (capacity k : nat) (ops : list (option A)) : Prop :=
  match ops with
  | [] => True
  | Some _ :: ops => paced capacity (S k) ops
  | None :: ops => (k ≤ capacity)%nat ∧ paced capacity 0 ops
  end.

Lemma cursor_numbered {A} k (xs : list A) : cursor_after (numbered (k + 1) xs) k = k + len xs.
Proof.
  unfold cursor_after. destruct xs as [|x xs _] using rev_ind; [unfold len; cbn; lia|].
  rewrite numbered_app. cbn [numbered]. rewrite last_snoc. unfold len. rewrite length_app. cbn. lia.
Qed.

Lemma ring_after_snoc {A} capacity (xs : list A) a :
  ring_push capacity a (ring_after capacity xs) = ring_after capacity (xs ++ [a]).
Proof. unfold ring_after. by rewrite foldl_app. Qed.

Lemma feed_paced {A} capacity (ops : list (option A)) seen new :
  (0 < capacity)%nat → len seen + len new + len ops + 1 < 2 ^ 64 →
  paced capacity (length new) ops →
  feed capacity ops (ring_after capacity (seen ++ new)) (len seen) =
  numbered (len seen + 1) (polled new ops).
Proof.
  intros Hc. revert seen new. induction ops as [|[a|] ops IH]; intros seen new Hl Hp;
    cbn [feed polled paced] in *; [done| |]; unfold len in *; cbn [length] in Hl.
  - rewrite ring_after_snoc, <-app_assoc. apply IH.
    + rewrite length_app. cbn. lia.
    + rewrite length_app. cbn. by rewrite Nat.add_1_r.
  - destruct Hp as [Hn Hp]. change (Z.of_nat (length seen)) with (len seen) in *.
    destruct (ring_serves_deltas capacity seen new 0) as [_ E]; [lia|unfold len in *; lia|lia|].
    rewrite E by done. rewrite cursor_numbered, numbered_app. f_equal.
    replace (len seen + len new) with (len (seen ++ new)) by (unfold len; rewrite length_app; lia).
    rewrite <-(app_nil_r (seen ++ new)) at 1. rewrite IH.
    + f_equal. unfold len. rewrite length_app. lia.
    + unfold len. rewrite length_app. cbn. unfold len in Hl. lia.
    + done.
Qed.

(** The same with the steps of the threads that push. *)
Fixpoint feed_race {A} (capacity : nat) (ops : list (option (ring_op A))) (r : ring A * list Z)
    (cursor : Z) : list (Z * A) :=
  match ops with
  | [] => []
  | Some op :: ops => feed_race capacity ops (ring_do capacity op r) cursor
  | None :: ops =>
      let new := entries_since cursor r.1 in new ++ feed_race capacity ops r (cursor_after new cursor)
  end.

(** What the steps append, and the polls. *)
Definition appended {A} (ops : list (option (ring_op A))) : list (option A) :=
  omap (λ op, match op with
              | Some Take => None
              | Some (Append _ a) => Some (Some a)
              | None => Some None
              end) ops.

(** No thread overtakes another between taking its number and appending; [n]
    numbers are taken. *)
Fixpoint in_order {A} (n : nat) (ops : list (option (ring_op A))) : Prop :=
  match ops with
  | [] => True
  | Some Take :: ops => in_order (S n) ops
  | Some (Append k _) :: ops => k = 0%nat ∧ (0 < n)%nat ∧ in_order (n - 1) ops
  | None :: ops => in_order n ops
  end.

(** The ring after [xs], with [n] further numbers taken. *)
Definition racing {A} (capacity : nat) (xs : list A) (n : nat) : ring A * list Z :=
  (mkRing (entries (ring_after capacity xs)) (len xs + Z.of_nat n + 1), seqZ (len xs + 1) (Z.of_nat n)).

Lemma racing_none {A} capacity (xs : list A) :
  (0 < capacity)%nat → len xs + 1 < 2 ^ 64 → racing capacity xs 0 = (ring_after capacity xs, []).
Proof.
  intros Hc Hl. unfold racing. rewrite ring_contents by done. cbn [entries]. f_equal. f_equal. lia.
Qed.

Lemma racing_take {A} capacity (xs : list A) n :
  len xs + Z.of_nat n + 2 < 2 ^ 64 →
  ring_do capacity Take (racing capacity xs n) = racing capacity xs (S n).
Proof.
  intros Hl. unfold racing. cbn. rewrite wrap_small by (unfold fits, len in *; lia).
  f_equal; [f_equal; lia|]. rewrite seqZ_S. do 2 f_equal. unfold len. lia.
Qed.

Lemma racing_append {A} capacity (xs : list A) a n :
  (0 < capacity)%nat → len xs + 2 < 2 ^ 64 →
  ring_do capacity (Append 0 a) (racing capacity xs (S n)) = racing capacity (xs ++ [a]) n.
Proof.
  intros Hc Hl. unfold racing. cbn [ring_do fst snd].
  rewrite Nat2Z.inj_succ, seqZ_cons by lia. cbn [lookup list_lookup delete list_delete].
  assert (entries (ring_after capacity (xs ++ [a])) =
          entries (ring_append capacity (len xs + 1) a (ring_after capacity xs))) as ->.
  { rewrite <- ring_after_snoc. unfold ring_push. cbn. by rewrite (ring_contents capacity xs) by (done || lia). }
  unfold ring_append. cbn [entries next_seq]. f_equal.
  - f_equal. unfold len. rewrite length_app. cbn. lia.
  - f_equal; unfold len; rewrite ?length_app; cbn; lia.
Qed.

(** Without overtaking it makes no difference that a push is not atomic. *)
Lemma feed_race_feed {A} capacity (ops : list (option (ring_op A))) xs n cursor :
  (0 < capacity)%nat → len xs + Z.of_nat n + len ops + 1 < 2 ^ 64 → in_order n ops →
  feed_race capacity ops (racing capacity xs n) cursor =
  feed capacity (appended ops) (ring_after capacity xs) cursor.
Proof.
  intros Hc. revert xs n cursor.
  induction ops as [|[[|k a]|] ops IH]; intros xs n cursor Hl Ho; cbn [feed_race]; [done|..];
    unfold appended in *; cbn [omap list_omap feed in_order] in *;
    unfold len in *; cbn [length] in Hl.
  - rewrite racing_take by (unfold len; lia). apply IH; [lia|done].
  - destruct Ho as (-> & Hn & Ho). destruct n as [|n]; [lia|].
    rewrite racing_append by (unfold len; try done; lia).
    replace (S n - 1)%nat with n in Ho by lia. rewrite IH; [|rewrite length_app; cbn; lia|done].
    by rewrite ring_after_snoc.
  - unfold racing at 1 2. cbn [fst].
    replace (entries_since cursor (mkRing (entries (ring_after capacity xs)) _))
      with (entries_since cursor (ring_after capacity xs)) by done.
    f_equal. apply IH; [lia|done].
Qed.

Definition log_steps (ops : list serve_op) : list (option (ring_op LogEntry)) :=
  omap (λ op, match op with LogDo o => Some (Some o) | EventDo _ => None | ServeTick _ => Some None end) ops.
Definition event_steps (ops : list serve_op) : list (option (ring_op EventRecord)) :=
  omap (λ op, match op with LogDo _ => None | EventDo o => Some (Some o) | ServeTick _ => Some None end) ops.
Definition log_ops (ops : list serve_op) : list (option LogEntry) := appended (log_steps ops).
Definition event_ops (ops : list serve_op) : list (option EventRecord) := appended (event_steps ops).

Section serve.
Context (addr_to_string : SocketAddr → string).

Definition serve_run (ops : list serve_op) (s : Served) : Served :=
  foldl (λ s op, serve_step addr_to_string op s) s ops.

Definition sent_logs (c : Client) : list (Z * LogEntry) := concat (new_log_lines <$> written c).
Definition sent_events (c : Client) : list (Z * EventRecord) := concat (new_events <$> written c).

Lemma serve_run_sent ops s :
  sent_logs (client (serve_run ops s)) =
    sent_logs (client s) ++
    feed_race LOG_RING_CAPACITY (log_steps ops) (logs s) (last_log_seq (client s)) ∧
  sent_events (client (serve_run ops s)) =
    sent_events (client s) ++
    feed_race EVENT_RING_CAPACITY (event_steps ops) (evs s) (last_event_seq (client s)).
Proof.
  unfold serve_run. revert s. induction ops as [|op ops IH]; intros s; cbn [foldl].
  { unfold log_steps, event_steps. cbn. by rewrite !app_nil_r. }
  destruct (IH (serve_step addr_to_string op s)) as [-> ->]. destruct op as [e|e|v]; [done|done|].
  cbn [serve_step client logs evs log_steps event_steps omap list_omap feed_race].
  unfold client_tick, sent_logs, sent_events. cbn [build_snapshot written last_log_seq last_event_seq].
  rewrite !fmap_app, !concat_app. cbn. rewrite !app_nil_r, <-!app_assoc. done.
Qed.

(** What a client first sees of a ring that has had [xs]: the latest ringful. *)
Definition backlog {A} (capacity : nat) (xs : list A) : nat := length xs - capacity.

Lemma feed_connected {A} capacity (xs : list A) ops :
  (0 < capacity)%nat → len xs + len ops + 1 < 2 ^ 64 → paced capacity 0 ops →
  feed capacity (None :: ops) (ring_after capacity xs) 0 =
  numbered (Z.of_nat (backlog capacity xs) + 1) (drop (backlog capacity xs) xs ++ polled [] ops).
Proof.
  intros Hc Hl Hp. cbn [feed]. unfold len in Hl.
  assert (entries_since 0 (ring_after capacity xs) =
    numbered (Z.of_nat (backlog capacity xs) + 1) (drop (backlog capacity xs) xs)) as He.
  { destruct (ring_serves_deltas capacity xs [] 0) as [E _]; [lia|unfold len; cbn; lia|lia|].
    rewrite app_nil_r in E. rewrite E. unfold backlog, len. cbn zeta. f_equal; [lia|]. f_equal. lia. }
  rewrite He, numbered_app. f_equal.
  assert (cursor_after (numbered (Z.of_nat (backlog capacity xs) + 1) (drop (backlog capacity xs) xs)) 0
    = len xs) as ->.
  { destruct (decide (xs = [])) as [->|Hne]; [done|]. unfold len.
    assert (backlog capacity xs < length xs)%nat by (unfold backlog; destruct xs; [done|cbn in *; lia]).
    transitivity (cursor_after (numbered (Z.of_nat (backlog capacity xs) + 1) (drop (backlog capacity xs) xs))
      (Z.of_nat (backlog capacity xs))).
    - unfold cursor_after. remember (drop (backlog capacity xs) xs) as zs eqn:E.
      destruct zs as [|y ys _] using rev_ind.
      + apply (f_equal length) in E. rewrite length_drop in E. cbn in E. lia.
      + rewrite numbered_app. cbn [numbered]. by rewrite last_snoc.
    - rewrite cursor_numbered. unfold len. rewrite length_drop. lia. }
  pose proof (feed_paced capacity ops xs []) as Hf. rewrite app_nil_r in Hf. rewrite Hf; [|done| |done].
  - f_equal. unfold len. rewrite length_drop. unfold backlog. lia.
  - unfold len. cbn. lia.
Qed.

(** The rings when a client connects, no thread being in the middle of a push. *)
Definition connected_to (past_logs : list LogEntry) (past_events : list EventRecord) : Served :=
  mkServed (ring_after LOG_RING_CAPACITY past_logs, [])
           (ring_after EVENT_RING_CAPACITY past_events, []) Client_new.

(** A client of the control socket is sent, over its snapshots, the latest
    ringful of log lines and of events when it connects and then every further
    one, each once and in order, as long as no more than a ringful comes between
    two snapshots and no thread overtakes another between taking its number and
    appending; the numbers it sees have no gap. *)
Theorem client_stream past_logs past_events v ops :
  in_order 0 (log_steps ops) → in_order 0 (event_steps ops) →
  paced LOG_RING_CAPACITY 0 (log_ops ops) → paced EVENT_RING_CAPACITY 0 (event_ops ops) →
  len past_logs + len (log_steps ops) + 2 < 2 ^ 64 →
  len past_events + len (event_steps ops) + 2 < 2 ^ 64 →
  let c := client (serve_run (ServeTick v :: ops) (connected_to past_logs past_events)) in
  let bl := backlog LOG_RING_CAPACITY past_logs in
  let be := backlog EVENT_RING_CAPACITY past_events in
  sent_logs c = numbered (Z.of_nat bl + 1) (drop bl past_logs ++ polled [] (log_ops ops)) ∧
  sent_events c = numbered (Z.of_nat be + 1) (drop be past_events ++ polled [] (event_ops ops)).
Proof.
  intros Ol Oe Pl Pe Bl Be c bl be. unfold c.
  destruct (serve_run_sent (ServeTick v :: ops) (connected_to past_logs past_events)) as [-> ->].
  assert (∀ {A} (l : list (option (ring_op A))), len (appended l) ≤ len l) as Hlen.
  { intros A l. unfold len, appended. induction l as [|[[]|] l IH]; cbn in *; lia. }
  assert (0 < LOG_RING_CAPACITY)%nat by (unfold LOG_RING_CAPACITY; lia).
  assert (0 < EVENT_RING_CAPACITY)%nat by (unfold EVENT_RING_CAPACITY; lia).
  assert (0 ≤ len (log_steps ops) ∧ 0 ≤ len (event_steps ops)) as [? ?] by (unfold len; lia).
  pose proof (Hlen _ (log_steps ops)). pose proof (Hlen _ (event_steps ops)).
  unfold connected_to. cbn [logs evs client Client_new last_log_seq last_event_seq].
  rewrite <- !racing_none by (done || lia).
  change (log_steps (ServeTick v :: ops)) with (None :: log_steps ops).
  change (event_steps (ServeTick v :: ops)) with (None :: event_steps ops).
  split; (etrans; [apply feed_race_feed; [done| |done]|]);
    try (apply feed_connected; [done| |done]; unfold log_ops, event_ops in *; lia);
    unfold len in *; cbn [length]; lia.
Qed.

End serve.

(** *** Example *)

Module snapshot_example.

Definition view : DaemonView :=
  mkDaemonView 0 0 "vpn" "client" [] ∅ None 256 256 0 0 0 0 0 0
    (mkTun None None None None None None None None) (mkSystem None None None None None None)
    "1.0" None 1400 None None (cached Telemetry_new).
Definition line (m : string) : LogEntry := mkLogEntry 0 "INFO" None m.

(** Two threads log; the second takes its number before the first appends. *)
Definition ops : list serve_op :=
  [LogDo Take; LogDo Take; LogDo (Append 0 (line "c")); LogDo (Append 0 (line "d"));
   ServeTick view; LogDo Take; LogDo (Append 0 (line "e"))].

Lemma client_stream_witness :
  sent_logs (client (serve_run (λ _, "addr") (ServeTick view :: ops)
                       (connected_to [line "a"; line "b"] []))) =
    [(1, line "a"); (2, line "b"); (3, line "c"); (4, line "d")].
Proof.
  destruct (client_stream (λ _, "addr") [line "a"; line "b"] [] view ops) as [H _];
    [vm_compute; split_and!; lia|vm_compute; lia|vm_compute; lia|vm_compute; lia
    |vm_compute; reflexivity|vm_compute; reflexivity|exact H].
Defined.

(** If it overtakes the first, and the client is served in between, the first
    line never reaches the client. *)
Definition overtaken : list serve_op :=
  [LogDo Take; LogDo Take; LogDo (Append 1 (line "d")); ServeTick view;
   LogDo (Append 0 (line "c")); ServeTick view].

Lemma overtaken_line_missed :
  ¬ in_order 0 (log_steps overtaken) ∧
  sent_logs (client (serve_run (λ _, "addr") overtaken (connected_to [] []))) = [(2, line "d")].
Proof. split; [by intros (? & _)|vm_compute; reflexivity]. Qed.

End snapshot_example.
