(* ===== verification/Diag.v ===== *)
(** * Diagnostic dumps ([diag.rs], [control.rs])

    The text of a dump, the files it is kept in, and the loop that watches the
    links and files a ticket. The text of a number with a given number of
    decimals is a parameter; what the file system answers is an input. *)

From Stdlib Require Import Sorted.
From S2P Require Import Prelude Bytes F64 Configuration ProbeHistory Link Events Telemetry Snapshot AutoReport.

(** ** The text of a dump *)

Definition nl : string := String (Ascii.ascii_of_nat 10) EmptyString.
Definition str_bool (b : bool) : string := if b then "true" else "false".
Definition z (n : Z) : string := pretty n.
Definition cat (xs : list string) : string := foldr String.append EmptyString xs.

Definition fmt_opt_u64 (v : option Z) : string := match v with Some v => z v | None => "n/a" end.

Section dump.
Context (fmt : nat → f64 → string).

Definition fmt_opt_ms (v : option f64) : string :=
  match v with Some v => fmt 1%nat v +:+ "ms" | None => "n/a" end.
Definition fmt_opt_pct (v : option f64) : string :=
  match v with Some v => fmt 1%nat v +:+ "%" | None => "n/a" end.
Definition fmt_opt_mbps (v : option f64) : string :=
  match v with Some v => fmt 1%nat v +:+ "Mbps" | None => "n/a" end.
Definition fmt_opt_f64 (v : option f64) : string :=
  match v with Some v => fmt 2%nat v | None => "n/a" end.

Definition dump_link (l : LinkSnapshot) : string :=
  cat [ln_name l; ": state="; ln_state l; " up_for="; z (ln_state_duration_ms l); "ms score=";
       fmt 2%nat (ln_score l); nl;
       "  local:  rtt="; fmt_opt_ms (local_rtt_ms l); " jitter="; fmt_opt_ms (local_jitter_ms l);
       " loss="; fmt_opt_pct (local_loss_pct l); " rx="; fmt_opt_mbps (local_rx_throughput_mbps l);
       " tx="; fmt_opt_mbps (local_tx_throughput_mbps l); " active_bw=";
       fmt_opt_mbps (local_active_bandwidth_mbps l); " hits="; z (local_consecutive_hits l);
       " misses="; z (local_consecutive_misses l); nl;
       "  peer:   state="; default "n/a" (peer_state l); " rtt="; fmt_opt_ms (peer_rtt_ms l);
       " jitter="; fmt_opt_ms (peer_jitter_ms l); " loss="; fmt_opt_pct (peer_loss_pct l);
       " throughput="; fmt_opt_mbps (peer_throughput_mbps l); " age=";
       match peer_stats_age_ms l with Some v => z v +:+ "ms" | None => "n/a" end; nl;
       "  totals: tx_bytes="; z (ln_tx_bytes l); " rx_bytes="; z (ln_rx_bytes l);
       " tx_packets="; z (ln_tx_packets l); " rx_packets="; z (ln_rx_packets l);
       " wg_rejected="; z (wg_rejected_total l); " wg_substituted="; z (wg_substituted_total l);
       " tx_queue_full="; z (tx_queue_full_total l); " tx_send_failed="; z (tx_send_failed_total l);
       " tx_rerouted="; z (tx_rerouted_total l); nl;
       "  tx_queue: depth="; z (tx_queue_depth l); " delay="; z (tx_queue_delay_us l);
       "us (max "; z (tx_queue_delay_max_us l); "us) send_wait="; z (tx_send_wait_us l);
       "us congestion_factor="; fmt 2%nat (congestion_factor l); " delivery_factor=";
       fmt 3%nat (delivery_factor l); " degraded="; str_bool (degraded l); nl; nl].

Definition dump_daemon (d : DaemonSnapshot) : string :=
  let t := telemetry d in
  let r := snap_reorder t in
  cat ["--- Daemon ---"; nl;
       "version: local="; local_version d; " peer="; default "unknown" (peer_version d); nl;
       "outbound_queue: "; z (outbound_queue_len d); "/"; z (outbound_queue_capacity d);
       " (dropped_lifetime="; z (outbound_queue_dropped_total d); ")"; nl;
       "wg_rejected_total (all links): "; z (d_wg_rejected_total d); nl;
       "wg_substituted_total (all links): "; z (d_wg_substituted_total d); nl;
       "fec_recovered_total: "; z (d_fec_recovered_total d); nl;
       "fec_unrecoverable_total: "; z (d_fec_unrecoverable_total d); nl;
       "fec_sent: groups="; z (fec_groups_sent_total d); " parity_p="; z (fec_parity_p_sent_total d);
       " parity_q="; z (fec_parity_q_sent_total d); nl;
       "health: "; health t; " ("; health_reason t; ") tunnel_uptime_secs=";
       z (tunnel_uptime_secs t); " scheduler="; snap_mode t; nl;
       "fec_config: enabled="; str_bool (fs_enabled (snap_fec t)); " group_size=";
       z (fs_group_size (snap_fec t)); " parity="; z (fs_parity (snap_fec t)); " placement=";
       fs_placement (snap_fec t); nl;
       "reorder: window_ms="; z (rs_window_ms r); " depth="; z (rs_depth r); " max_depth=";
       z (rs_max_depth r); " wait_recent_us="; z (rs_wait_recent_us r); " wait_max_us=";
       z (rs_wait_max_us r); " late="; z (rs_late_total r); " duplicate="; z (rs_duplicate_total r);
       " timeout="; z (rs_timeout_total r); nl;
       "rates: tx="; fmt 1%nat (tx_pps (snap_rates t)); " pps / "; fmt 2%nat (tx_mbps (snap_rates t));
       " Mbps rx="; fmt 1%nat (rx_pps (snap_rates t)); " pps / "; fmt 2%nat (rx_mbps (snap_rates t));
       " Mbps reroutes_total="; z (reroutes_total t); " rx_pipeline_dropped_total=";
       z (rx_pipeline_dropped_total t); nl;
       "process: cpu_pct="; fmt_opt_f64 (snap_cpu_pct t); " rss_kb="; fmt_opt_u64 (snap_rss_kb t);
       " threads="; fmt_opt_u64 (snap_threads t); " open_fds="; fmt_opt_u64 (snap_open_fds t); nl;
       "tun("; iface (d_tun d); "): rx_bytes="; fmt_opt_u64 (ts_rx_bytes (d_tun d)); " tx_bytes=";
       fmt_opt_u64 (ts_tx_bytes (d_tun d)); " rx_errors="; fmt_opt_u64 (ts_rx_errors (d_tun d));
       " tx_errors="; fmt_opt_u64 (ts_tx_errors (d_tun d)); " rx_dropped=";
       fmt_opt_u64 (ts_rx_dropped (d_tun d)); " tx_dropped="; fmt_opt_u64 (ts_tx_dropped (d_tun d)); nl;
       "system: load="; fmt_opt_f64 (load1 (d_system d)); ","; fmt_opt_f64 (load5 (d_system d)); ",";
       fmt_opt_f64 (load15 (d_system d)); " mem_total_kb="; fmt_opt_u64 (mem_total_kb (d_system d));
       " mem_available_kb="; fmt_opt_u64 (mem_available_kb (d_system d)); " uptime_secs=";
       fmt_opt_u64 (sys_uptime_secs (d_system d)); nl; nl].

Definition dump_event (e : EventRecord) : string :=
  cat ["["; z (er_unix_ts_ms e); "] "; er_severity e; " "; er_kind e;
       match er_link e with Some l => " link=" +:+ l | None => EmptyString end; ": ";
       er_message e; nl].

Definition dump_log (e : LogEntry) : string :=
  cat ["["; z (log_unix_ts_ms e); "] "; log_level e; " "; default "-" (log_target e); ": ";
       log_message e; nl].

Definition format_dump (s : Snapshot) (trigger : string) : string :=
  cat ["=== mlvpn diagnostic dump ==="; nl; "generated_unix_ms: "; z (sn_unix_ts_ms s); nl;
       "tunnel: "; sn_tunnel_name s; " ("; sn_mode s; ")"; nl; "trigger: "; trigger; nl; nl;
       "--- Links ---"; nl;
       match sn_links s with [] => "(no links configured)" +:+ nl +:+ nl | _ => EmptyString end;
       cat (dump_link <$> sn_links s); dump_daemon (sn_daemon s);
       "--- Recent events ("; z (len (new_events s)); ") ---"; nl;
       cat ((λ e, dump_event e.2) <$> new_events s); nl;
       "--- Recent log lines ("; z (len (new_log_lines s)); ") ---"; nl;
       cat ((λ e, dump_log e.2) <$> new_log_lines s)].

(** ** The text of a trigger *)

Definition pad2 (n : Z) : string := if n <? 10 then "0" +:+ z n else z n.

Definition fmt_dur (d : Z) : string :=
  let s := d / 1000000000 in
  if 3600 <=? s then cat [z (s / 3600); "h"; pad2 (s mod 3600 / 60); "m"]
  else if 60 <=? s then cat [z (s / 60); "m"; pad2 (s mod 60); "s"]
  else z s +:+ "s".

Definition kind_phase (k : DumpKind) : string :=
  match k with Opened => "opened" | Escalated => "escalated" | Ongoing => "ongoing" end.

Definition describe_event (link : string) (obs : LinkObs) (ev : EventInfo) (kind : DumpKind)
    (cfg : TriggerCfg) : string :=
  let phase := kind_phase kind in
  cat ["["; label (info_class ev); "] "; phase; " link '"; link; "' "; phase; " (event "; info_id ev; ")";
    match info_class ev with
    | Outage => cat [nl; "  link not Up for "; fmt_dur (default 0 (down_for obs)); " (threshold ";
                     fmt_dur (outage_after cfg); ")"]
    | Flap => cat [nl; "  "; z (recent_downs obs); " Up->Down transitions in the last ";
                   fmt_dur (flap_window cfg)]
    | Degraded => cat [nl; "  "; z (missed obs); "/"; z (total obs); " probes lost (";
                       fmt 1%nat (default f64.zero (loss_pct obs)); "%) over the last ";
                       fmt_dur (window cfg); " (opens at >= "; z (open_misses cfg); " lost and >= ";
                       fmt 0%nat (open_pct cfg); "%)"]
    end;
    nl; "  peak loss this event: "; fmt 1%nat (info_peak ev); "%, event age: "; fmt_dur (info_age ev);
    match info_previous ev with
    | Some p => cat [nl; "  previous event on this link: "; label (ps_class p); " ";
                     fmt_dur (ps_ended_ago p); " ago, lasted "; fmt_dur (ps_duration p);
                     ", peak loss "; fmt 1%nat (ps_peak p); "%"]
    | None => nl +:+ "  previous event on this link: none recorded"
    end;
    if 0 <? info_suppressed ev
    then cat [nl; "  "; z (info_suppressed ev);
              " earlier degraded event(s) on this link were not ticketed (rate limit)"]
    else EmptyString].

End dump.

(** ** Dump files *)

(** The dump directory: the names of its files and their content. *)
Notation dir := (gmap string string).

Definition dump_prefix (tunnel_name : string) : string := "mlvpn-diag-" +:+ tunnel_name +:+ "-".
Definition dump_name (tunnel_name : string) (unix_ts_ms : Z) : string :=
  dump_prefix tunnel_name +:+ z unix_ts_ms +:+ ".txt".

(** How [write_dump_file] goes: a failed write may leave a part behind, and the
    mode is set once the file is there. *)
Inductive write_answer := NoDirectory | WriteFails (left_ : option string) | ModeFails | Written.

Definition write_dump_file (answer : write_answer) (unix_ts_ms : Z) (tunnel_name text : string)
    (d : dir) : dir * bool :=
  let path := dump_name tunnel_name unix_ts_ms in
  match answer with
  | NoDirectory => (d, false)
  | WriteFails None => (d, false)
  | WriteFails (Some part) => (<[path := part]> d, false)
  | ModeFails => (<[path := text]> d, false)
  | Written => (<[path := text]> d, true)
  end.

Definition ends_with (suffix s : string) : bool :=
  String.eqb (String.substring (String.length s - String.length suffix) (String.length suffix) s) suffix
  && (String.length suffix <=? String.length s)%nat.

Definition is_dump (tunnel_name n : string) : bool :=
  String.prefix (dump_prefix tunnel_name) n && ends_with ".txt" n.

(** [sort_by_key(|n| (n.len(), n.clone()))]. *)
Definition older (a b : string) : bool :=
  (String.length a <? String.length b)%nat ||
  ((String.length a =? String.length b)%nat &&
   match String.compare a b with Gt => false | _ => true end).
Fixpoint insert_by (n : string) (l : list string) : list string :=
  match l with [] => [n] | x :: l => if older n x then n :: x :: l else x :: insert_by n l end.
Definition sort_names (l : list string) : list string := foldr insert_by [] l.

(** [listed]: the directory can be read; [removable n]: file [n] can be deleted. *)
Definition prune_dump_files (listed : bool) (removable : string → bool) (tunnel_name : string)
    (keep : nat) (d : dir) : dir :=
  if negb listed then d
  else
    let files := List.filter (is_dump tunnel_name) (map_to_list d).*1 in
    if (length files <=? keep)%nat then d
    else foldl (λ d n, if removable n then delete n d else d) d
           (take (length files - keep) (sort_names files)).

(** ** The watch loop *)

Record WatchParams := mkWatch {
  degraded_open_pct : f64;
  degraded_open_misses : Z;
  degraded_close_pct : f64;
  cooldown : Z;
  w_window : Z;
  w_min_probes : Z;
  w_clear : Z;
  w_outage : Z;
  w_warmup : Z;
  w_degraded_ticket_gap : Z;
  w_flap_downs : Z;
  max_dump_files : nat;
  auto_submit : bool }.

Definition DIAGNOSTICS_EVENT_JOIN : Z := nanos_of_secs 60.
Definition DIAGNOSTICS_FLAP_WINDOW : Z := nanos_of_secs 600.

Definition trigger_cfg (w : WatchParams) : TriggerCfg :=
  mkTrigger (w_window w) (w_min_probes w) (degraded_open_misses w) (degraded_open_pct w)
    (degraded_close_pct w) (w_clear w) (w_outage w) (w_warmup w) (w_flap_downs w)
    DIAGNOSTICS_FLAP_WINDOW.

(** What the state file holds when the loop starts; [None] when it is missing or
    unreadable. *)
Definition watch_start (w : WatchParams) (now now_unix : Z) (saved : option PersistedEvents)
    : EventTracker :=
  let tr := EventTracker_new (trigger_cfg w)
              (mkTrackerCfg (cooldown w) DIAGNOSTICS_EVENT_JOIN (w_degraded_ticket_gap w)) in
  match saved with Some p => restore tr now now_unix p | None => tr end.

(** What a turn reads: the clocks, what the file system answers (when the state
    cannot be written, what the file then holds) and the snapshot for the dump. *)
Record turn := mkTurn {
  t_now : Z;
  t_unix : Z;
  t_dump_ms : Z;
  t_state_left : option (option PersistedEvents);
  t_write : write_answer;
  t_listed : bool;
  t_removable : string → bool;
  t_snapshot : Snapshot }.

(** What the loop leaves behind: its tracker, the state file, the dump files and
    the reports submitted. *)
Record Watch := mkWatching {
  tracker : EventTracker;
  state_file : option PersistedEvents;
  dumps_dir : dir;
  submitted : list string }.

Section watch.
Context (fmt : nat → f64 → string) (w : WatchParams) (tunnel_name : string).

Definition observe_of (now : Z) (l : Link) : LinkObs :=
  gather (probe_window (stats l)) (down_transitions (stats l))
    (if bool_decide (state l = Up) then None else Some (sat_sub now (state_since l))) now (trigger_cfg w).

(** The loop over the links: the dumps wanted, with whether a ticket goes with
    them. *)
Fixpoint watch_links (now now_unix : Z) (ls : list Link) (tr : EventTracker)
    : outcome (EventTracker * list (bool * string)) :=
  match ls with
  | [] => Ok (tr, [])
  | l :: ls =>
      let obs := observe_of now l in
      let name := link_name (config l) in
      '(tr, oc) ← AutoReport.observe tr now now_unix name obs;
      '(tr, rest) ← watch_links now now_unix ls tr;
      Ok (tr, match oc with
              | Dump submit kind ev => [(submit, describe_event fmt name obs ev kind (trigger_cfg w))]
              | _ => []
              end ++ rest)
  end.

Definition watch_turn (t : turn) (ls : list Link) (s : Watch) : outcome Watch :=
  '(tr, dumps) ← watch_links (t_now t) (t_unix t) ls (tracker s);
  let '(tr, st) := take_dirty_state tr (t_now t) (t_unix t) in
  let file := match st with
              | Some p => default (Some p) (t_state_left t)
              | None => state_file s
              end in
  match dumps with
  | [] => Ok (mkWatching tr file (dumps_dir s) (submitted s))
  | _ =>
      let submit := existsb fst dumps in
      let trigger := "automatic" +:+ nl +:+ String.concat nl dumps.*2 in
      let text := format_dump fmt (t_snapshot t) trigger in
      let '(d, ok) := write_dump_file (t_write t) (t_dump_ms t) tunnel_name text (dumps_dir s) in
      if ok then
        Ok (mkWatching tr file
              (prune_dump_files (t_listed t) (t_removable t) tunnel_name (max_dump_files w) d)
              (submitted s ++ (if auto_submit w && submit then [text] else [])))
      else Ok (mkWatching tr file d (submitted s))
  end.

End watch.

(** ** Dump names sort by time *)

Lemma length_append a b : String.length (a +:+ b) = (String.length a + String.length b)%nat.
Proof. induction a as [|c a IH]; [done|]. exact (f_equal S IH). Qed.

Lemma append_assoc a b c : (a +:+ b) +:+ c = a +:+ (b +:+ c).
Proof. induction a as [|x a IH]; [done|]. exact (f_equal (String x) IH). Qed.

Lemma ascii_compare_refl c : Ascii.compare c c = Eq.
Proof. unfold Ascii.compare. apply N.compare_refl. Qed.

Lemma compare_append p a b : String.compare (p +:+ a) (p +:+ b) = String.compare a b.
Proof.
  induction p as [|c p IH]; [done|]. rewrite <-IH. simpl.
  by rewrite ascii_compare_refl.
Qed.

(** Digits before a common tail of digits. *)
Lemma go_append x s : pretty_N_go x s = pretty_N_go x "" +:+ s.
Proof.
  revert s. induction (N.lt_wf_0 x) as [x _ IH]; intros s.
  assert (x = 0 ∨ 0 < x)%N as [->|Hx] by lia; [done|].
  rewrite !(pretty_N_go_step x) by done. rewrite IH by (by apply N.div_lt).
  rewrite (IH (x `div` 10)%N) with (s := String _ "") by (by apply N.div_lt).
  by rewrite append_assoc.
Qed.

Lemma go_longer x s : (0 < x)%N → (String.length s < String.length (pretty_N_go x s))%nat.
Proof.
  revert s. induction (N.lt_wf_0 x) as [x _ IH]; intros s Hx. rewrite pretty_N_go_step by done.
  destruct (N.eq_0_gt_0_cases (x `div` 10)) as [->|Hd]; [rewrite pretty_N_go_0; simpl; lia|].
  specialize (IH (x `div` 10)%N (N.div_lt x 10 Hx eq_refl) (String (pretty_N_char (x `mod` 10)) s) Hd).
  simpl in IH. lia.
Qed.

Lemma digit_order x y : (x < y)%N → (y < 10)%N → Ascii.compare (pretty_N_char x) (pretty_N_char y) = Lt.
Proof.
  intros Hx Hy.
  assert (x = 0 ∨ x = 1 ∨ x = 2 ∨ x = 3 ∨ x = 4 ∨ x = 5 ∨ x = 6 ∨ x = 7 ∨ x = 8)%N as Ex by lia.
  assert (y = 1 ∨ y = 2 ∨ y = 3 ∨ y = 4 ∨ y = 5 ∨ y = 6 ∨ y = 7 ∨ y = 8 ∨ y = 9)%N as Ey by lia.
  destruct_or? Ex; destruct_or? Ey; subst; try lia; done.
Qed.

(** A smaller number is shorter, or as long and earlier. *)
Lemma go_order x y s s' :
  (x < y)%N → String.length s = String.length s' →
  (String.length (pretty_N_go x s) < String.length (pretty_N_go y s'))%nat ∨
  String.length (pretty_N_go x s) = String.length (pretty_N_go y s') ∧
  String.compare (pretty_N_go x s) (pretty_N_go y s') = Lt.
Proof.
  revert x s s'. induction (N.lt_wf_0 y) as [y _ IH]; intros x s s' Hxy Hl.
  assert (x = 0 ∨ 0 < x)%N as [->|Hx] by lia.
  { left. rewrite pretty_N_go_0, Hl. apply go_longer. lia. }
  rewrite (pretty_N_go_step x), (pretty_N_go_step y) by lia.
  assert (x `div` 10 ≤ y `div` 10)%N as Hd by (apply N.div_le_mono; lia).
  apply N.lt_eq_cases in Hd as [Hlt|Heq].
  - apply IH; [apply N.div_lt; lia|done|]. simpl. by rewrite Hl.
  - right. rewrite Heq, go_append, (go_append _ (String _ s')), !length_append, compare_append. simpl.
    rewrite Hl. split; [done|].
    rewrite digit_order; [done| |apply N.mod_lt; lia].
    pose proof (N.div_mod x 10). pose proof (N.div_mod y 10). lia.
Qed.

Lemma z_go m : 0 < m → z m = pretty_N_go (Z.to_N m) "".
Proof. intros Hm. destruct m as [|p|p]; [lia|done|lia]. Qed.

Lemma dump_names_sorted tunnel m m' :
  0 < m → m < m' → older (dump_name tunnel m) (dump_name tunnel m') = true ∧
                   older (dump_name tunnel m') (dump_name tunnel m) = false.
Proof.
  intros Hm Hlt. unfold older, dump_name. rewrite !length_append, !compare_append, !z_go by lia.
  rewrite <-!go_append.
  pose proof (go_order (Z.to_N m) (Z.to_N m') "" "" ltac:(lia) eq_refl) as H1.
  pose proof (go_order (Z.to_N m) (Z.to_N m') ".txt" ".txt" ltac:(lia) eq_refl) as H2.
  rewrite (go_append (Z.to_N m) ".txt"), (go_append (Z.to_N m') ".txt"), !length_append in H2.
  rewrite <-(go_append (Z.to_N m) ".txt"), <-(go_append (Z.to_N m') ".txt") in H2.
  destruct H1 as [H1|[H1 _]].
  - rewrite (proj2 (Nat.ltb_lt _ _)) by lia. split; [done|].
    apply orb_false_iff. split; [apply Nat.ltb_ge; lia|]. apply andb_false_iff. left.
    apply Nat.eqb_neq. lia.
  - destruct H2 as [H2|[H2 H3]]; [lia|]. rewrite H1, !Nat.ltb_irrefl, Nat.eqb_refl, H3. split; [done|].
    rewrite String.compare_antisym, H3. done.
Qed.

Lemma compare_trans a b c :
  String.compare a b ≠ Gt → String.compare b c ≠ Gt → String.compare a c ≠ Gt.
Proof.
  revert b c. induction a as [|x a IH]; intros [|y b] [|w c]; simpl; try done.
  unfold Ascii.compare.
  destruct (N.compare_spec (Ascii.N_of_ascii x) (Ascii.N_of_ascii y)),
           (N.compare_spec (Ascii.N_of_ascii y) (Ascii.N_of_ascii w)),
           (N.compare_spec (Ascii.N_of_ascii x) (Ascii.N_of_ascii w)); try done; try lia.
  apply IH.
Qed.

Definition older_eq (a b : string) : Prop := older a b = true.

Lemma older_spec a b :
  older_eq a b ↔ (String.length a < String.length b)%nat ∨
                 String.length a = String.length b ∧ String.compare a b ≠ Gt.
Proof.
  unfold older_eq, older. rewrite orb_true_iff, andb_true_iff, Nat.ltb_lt, Nat.eqb_eq.
  destruct (String.compare a b); intuition congruence.
Qed.

Lemma older_total a b : older a b = false → older_eq b a.
Proof.
  intros H. apply older_spec. assert (¬ older_eq a b) as Hn by (unfold older_eq; congruence).
  rewrite older_spec in Hn. rewrite String.compare_antisym.
  destruct (lt_eq_lt_dec (String.length a) (String.length b)) as [[?|?]|?]; [tauto| |by left].
  right. split; [done|]. intros Hc. apply Hn. right. split; [done|]. by destruct (String.compare a b).
Qed.

Lemma older_trans a b c : older_eq a b → older_eq b c → older_eq a c.
Proof.
  rewrite !older_spec. intros [H1|[H1 H2]] [H3|[H3 H4]]; [left; lia|left; lia|left; lia|].
  right. split; [lia|]. by eapply compare_trans.
Qed.

Lemma insert_by_perm n l : insert_by n l ≡ₚ n :: l.
Proof.
  induction l as [|x l IH]; [done|]. cbn [insert_by]. destruct (older n x); [done|]. rewrite IH. constructor.
Qed.

Lemma sort_names_perm l : sort_names l ≡ₚ l.
Proof.
  induction l as [|n l IH]; [done|]. unfold sort_names in *. cbn [foldr]. by rewrite insert_by_perm, IH.
Qed.

Lemma insert_by_sorted n l : StronglySorted older_eq l → StronglySorted older_eq (insert_by n l).
Proof.
  induction l as [|x l IH]; intros Hs; cbn [insert_by]; [by repeat constructor|].
  apply StronglySorted_inv in Hs as [Hs Hx]. destruct (older n x) eqn:E.
  - constructor; [by constructor|]. constructor; [done|]. eapply Forall_impl; [exact Hx|].
    intros y Hy. by eapply older_trans.
  - constructor; [by apply IH|]. rewrite insert_by_perm. constructor; [by apply older_total|done].
Qed.

Lemma sort_names_sorted l : StronglySorted older_eq (sort_names l).
Proof. induction l as [|n l IH]; [constructor|]. by apply insert_by_sorted. Qed.

Lemma sorted_split l k a b :
  StronglySorted older_eq l → a ∈ take k l → b ∈ drop k l → older_eq a b.
Proof.
  revert k. induction l as [|x l IH]; intros [|k] Hs Ha Hb; cbn in Ha, Hb; try (by apply elem_of_nil in Ha).
  apply StronglySorted_inv in Hs as [Hs Hx]. apply elem_of_cons in Ha as [->|Ha]; [|by eapply IH].
  rewrite Forall_forall in Hx. apply Hx. by eapply subseteq_drop.
Qed.

(** ** Pruning *)

Lemma prefix_append p s : String.prefix p (p +:+ s) = true.
Proof.
  induction p as [|c p IH]; [by destruct s|]. simpl. by destruct (Ascii.ascii_dec c c).
Qed.

Lemma substring_all t : String.substring 0 (String.length t) t = t.
Proof. induction t as [|c t IH]; [done|]. exact (f_equal (String c) IH). Qed.

Lemma substring_tail s t : String.substring (String.length s) (String.length t) (s +:+ t) = t.
Proof.
  induction s as [|c s IH]; [apply substring_all|exact IH].
Qed.

Lemma dump_name_is_dump tunnel m : is_dump tunnel (dump_name tunnel m) = true.
Proof.
  unfold is_dump, ends_with, dump_name. rewrite prefix_append. cbn [andb].
  rewrite <-append_assoc, length_append.
  replace (String.length (dump_prefix tunnel +:+ z m) + String.length ".txt" - String.length ".txt")%nat
    with (String.length (dump_prefix tunnel +:+ z m)) by lia.
  rewrite substring_tail, String.eqb_refl. apply Nat.leb_le. lia.
Qed.

Definition dumps (tunnel : string) (d : dir) : list string :=
  List.filter (is_dump tunnel) (map_to_list d).*1.

Lemma elem_of_dumps tunnel d n : n ∈ dumps tunnel d ↔ is_dump tunnel n = true ∧ is_Some (d !! n).
Proof.
  unfold dumps. rewrite list_elem_of_In, filter_In, <-list_elem_of_In, list_elem_of_fmap.
  split; intros [H1 H2]; split; try done.
  - destruct H1 as ([k v] & -> & Hk%elem_of_map_to_list). by exists v.
  - destruct H2 as [v Hv]. exists (n, v). split; [done|]. by apply elem_of_map_to_list.
Qed.

Lemma NoDup_dumps tunnel d : NoDup (dumps tunnel d).
Proof.
  unfold dumps. pose proof (NoDup_fst_map_to_list d) as H. apply NoDup_ListNoDup.
  apply List.NoDup_filter. by apply NoDup_ListNoDup.
Qed.

Lemma delete_all_lookup (ns : list string) (d : dir) n :
  foldl (λ d n, delete n d) d ns !! n = (if bool_decide (n ∈ ns) then None else d !! n).
Proof.
  revert d. induction ns as [|x ns IH]; intros d; cbn [foldl]; [done|]. rewrite IH.
  destruct (decide (n ∈ ns)) as [Hn|Hn].
  - rewrite !bool_decide_true by set_solver. done.
  - rewrite (bool_decide_false (n ∈ ns)) by done. destruct (decide (n = x)) as [->|Hne].
    + rewrite bool_decide_true by set_solver. apply lookup_delete_eq.
    + rewrite bool_decide_false by set_solver. by apply lookup_delete_ne.
Qed.

Definition pruned (tunnel : string) (keep : nat) (d : dir) : list string :=
  take (length (dumps tunnel d) - keep) (sort_names (dumps tunnel d)).

Lemma prune_lookup tunnel keep d n :
  prune_dump_files true (λ _, true) tunnel keep d !! n =
  (if bool_decide (n ∈ pruned tunnel keep d) then None else d !! n).
Proof.
  unfold prune_dump_files. cbn [negb]. fold (dumps tunnel d). unfold pruned.
  destruct (Nat.leb_spec (length (dumps tunnel d)) keep) as [Hle|Hgt]; [|apply delete_all_lookup].
  replace (length (dumps tunnel d) - keep)%nat with O by lia. done.
Qed.

Lemma kept_dumps tunnel keep d :
  dumps tunnel (prune_dump_files true (λ _, true) tunnel keep d) ≡ₚ
  drop (length (dumps tunnel d) - keep) (sort_names (dumps tunnel d)).
Proof.
  set (k := (length (dumps tunnel d) - keep)%nat).
  assert (NoDup (take k (sort_names (dumps tunnel d)) ++ drop k (sort_names (dumps tunnel d)))) as Hnd.
  { rewrite take_drop, sort_names_perm. apply NoDup_dumps. }
  apply NoDup_app in Hnd as (_ & Hdis & Hnd).
  apply NoDup_Permutation; [apply NoDup_dumps|done|]. intros n.
  rewrite elem_of_dumps, prune_lookup. unfold pruned. fold k.
  assert (n ∈ dumps tunnel d ↔ n ∈ take k (sort_names (dumps tunnel d)) ∨ n ∈ drop k (sort_names (dumps tunnel d)))
    as Hn by (by rewrite <-elem_of_app, take_drop, sort_names_perm).
  rewrite elem_of_dumps in Hn. case_bool_decide as Ht; split.
  - intros [_ [? ?]]; done.
  - intros Hd. by destruct (Hdis n Ht).
  - intros H. apply Hn in H as [?|?]; done.
  - intros Hd. apply Hn. by right.
Qed.

(** Pruning deletes only dump files, and leaves exactly the permitted number
    of them (all when there are fewer). What it deletes is older than what it
    keeps: of two dumps of the tunnel, the kept one has the later time in its
    name, although the names are compared as text. *)
Theorem prune_keeps_newest tunnel keep d :
  let d' := prune_dump_files true (λ _, true) tunnel keep d in
  (∀ n, is_dump tunnel n = false → d' !! n = d !! n) ∧
  (∀ n, d' !! n = None ∨ d' !! n = d !! n) ∧
  length (dumps tunnel d') = Nat.min keep (length (dumps tunnel d)) ∧
  (∀ m m', 0 < m → 0 < m' → is_Some (d !! dump_name tunnel m) →
     d' !! dump_name tunnel m = None → is_Some (d' !! dump_name tunnel m') → m < m').
Proof.
  intros d'.
  assert (∀ n, n ∈ pruned tunnel keep d → is_dump tunnel n = true) as Hp.
  { intros n Hn. unfold pruned in Hn. apply subseteq_take in Hn. rewrite sort_names_perm in Hn.
    by apply elem_of_dumps in Hn as [? _]. }
  split; [|split; [|split]].
  - intros n Hn. unfold d'. rewrite prune_lookup. case_bool_decide as Hin; [|done].
    apply Hp in Hin. congruence.
  - intros n. unfold d'. rewrite prune_lookup. case_bool_decide; [by left|by right].
  - unfold d'. rewrite kept_dumps, length_drop, sort_names_perm. lia.
  - intros m m' Hm Hm' Hs Hdel Hkept.
    assert (dump_name tunnel m ∈ pruned tunnel keep d) as Ha.
    { unfold d' in Hdel. rewrite prune_lookup in Hdel. case_bool_decide; [done|].
      rewrite Hdel in Hs. by destruct Hs. }
    assert (dump_name tunnel m' ∈ drop (length (dumps tunnel d) - keep) (sort_names (dumps tunnel d))) as Hb.
    { rewrite <-kept_dumps. apply elem_of_dumps. split; [apply dump_name_is_dump|done]. }
    pose proof (sorted_split _ _ _ _ (sort_names_sorted _) Ha Hb) as Ho. unfold older_eq in Ho.
    destruct (Z.lt_trichotomy m m') as [?|[->|Hlt]]; [done| |].
    + destruct Hkept as [v Hv]. congruence.
    + apply (dump_names_sorted tunnel) in Hlt as [_ Hf]; [congruence|lia].
Qed.

(** *** Examples *)

Module diag_example.

Definition texts (ns : list string) : dir := list_to_map ((λ n, (n, "dump")) <$> ns).
Definition three : dir :=
  texts [dump_name "vpn" 999; dump_name "vpn" 1000; dump_name "vpn" 1001; "notes.txt"].

(** The dump of time 999 is the oldest, although its name sorts last as text. *)
Lemma prune_keeps_newest_witness :
  let d' := prune_dump_files true (λ _, true) "vpn" 2 three in
  length (dumps "vpn" d') = 2%nat ∧ d' !! dump_name "vpn" 999 = None ∧ 999 < 1001.
Proof.
  split; [vm_compute; reflexivity|]. split; [vm_compute; reflexivity|].
  apply (prune_keeps_newest "vpn" 2 three); [lia|lia|vm_compute; by eexists|vm_compute; reflexivity
    |vm_compute; by eexists].
Defined.

(** The dumps of a tunnel whose name extends this one's count as this one's, and
    as newer. *)
Lemma prune_takes_namesake :
  let d := texts [dump_name "vpn" 2000; dump_name "vpn-b" 1000] in
  let d' := prune_dump_files true (λ _, true) "vpn" 1 d in
  d' !! dump_name "vpn" 2000 = None ∧ d' !! dump_name "vpn-b" 1000 = Some "dump".
Proof. vm_compute. auto. Qed.

Definition params : WatchParams :=
  mkWatch (f64.of_Z 15) 10 (f64.of_Z 8) (nanos_of_secs 1800) (nanos_of_secs 600) 100 (nanos_of_secs 300)
    (nanos_of_secs 60) (nanos_of_secs 120) (nanos_of_secs 21600) 3 20 true.
Definition silent : Link := mkLink (sample_link "wan0") Down 0 sample_stats false.
Definition view : DaemonView :=
  mkDaemonView 0 0 "vpn" "client" [] ∅ None 256 256 0 0 0 0 0 0
    (mkTun None None None None None None None None) (mkSystem None None None None None None)
    "1.0" None 1400 None None (cached Telemetry_new).
Definition snapshot : Snapshot := (build_snapshot (λ _, "addr") view ring_new 0 ring_new 0).1.1.
Definition fmt (_ : nat) (_ : f64) : string := "0".
Definition turn_at (secs : Z) (a : write_answer) : turn :=
  mkTurn (nanos_of_secs secs) (1700000000 + secs) (1700000000000 + secs) None a true (λ _, true) snapshot.
Definition started : Watch := mkWatching (watch_start params 0 1700000000 None) None ∅ [].

(** An outage is ticketed once; when its dump cannot be written the ticket is
    never filed, although the tracker takes it as filed. *)
Lemma unwritten_dump_loses_ticket :
  let run a := w ← watch_turn fmt params "vpn" (turn_at 100 a) [silent] started;
               w ← watch_turn fmt params "vpn" (turn_at 105 Written) [silent] w;
               watch_turn fmt params "vpn" (turn_at 1900 Written) [silent] w in
  (∃ w, run Written = Ok w ∧ length (submitted w) = 1%nat) ∧
  (∃ w, run NoDirectory = Ok w ∧ submitted w = [] ∧
        last_submit <$> tracks (tracker w) !! "wan0" = Some (Some (nanos_of_secs 100))).
Proof. vm_compute. eauto 10. Qed.

End diag_example.
