(* ===== verification/Commands.v ===== *)
(** * Commands ([control.rs], [ipc.rs])

    What an operator can ask of the running daemon over the command socket. The
    results of the measurements a command starts are its inputs, and so is the
    parsed form of the line and of an address. *)

From S2P Require Import Prelude Bytes F64 Configuration LinkIo Link Congestion Delivery Scheduler Dispatch Bandwidth Events Telemetry Snapshot Diag.
Import scheduler.

Inductive Transport := Udp | Tcp.

Inductive Command :=
  | SetLinkEnabled (link : string) (enabled : bool)
  | RunThroughputTest (link : option string) (duration_secs : Z) (bidirectional : bool)
  | DiagDump
  | RunTunnelThroughputTest (peer_addr : string) (duration_secs : Z) (bidirectional : bool)
      (protocol : Transport).

Record ThroughputTestLinkResult := mkLinkResult {
  tr_link : string;
  upload_mbps : option f64;
  download_mbps : option f64;
  upload_steps : list (f64 * option f64) }.

Record TunnelTestCommandResult := mkTunnelResult {
  tt_upload_mbps : option f64;
  tt_download_mbps : option f64;
  local_outbound_queue_dropped_delta : Z;
  peer_outbound_queue_dropped_delta : option Z;
  upload_retransmits : option Z;
  download_retransmits : option Z }.

Record CommandResult := mkResult {
  ok : bool;
  error : option string;
  throughput_results : list ThroughputTestLinkResult;
  diag_dump : option string;
  tunnel_test_result : option TunnelTestCommandResult;
  cr_peer_version : option string }.

(** A link as the commands see it: with the id its frames carry and the peer's
    address. *)
Record Target := mkTarget { tg_link : Link; tg_id : Z; tg_remote : option SocketAddr }.

(** What the measurements give: per target the steps of the upload ramp, whether
    the reverse request could be sent and what was then measured in time; for the
    test through the tunnel its result. Besides, what a dump is made of. *)
Record measured := mkMeasured {
  m_step : nat → nat → f64 → option f64;
  m_request_sent : nat → bool;
  m_received : nat → option f64;
  m_tunnel : IpAddr → TunnelTestCommandResult;
  m_view : DaemonView;
  m_logs : ring LogEntry;
  m_events : ring EventRecord }.

Section commands.
Context (fmt : nat → f64 → string) (addr_to_string : SocketAddr → string).
Context (parse_ip : string → IpAddr + string).
Context (peer_version : option string).

Definition failed (msg : string) : CommandResult := mkResult false (Some msg) [] None None peer_version.

Definition set_enabled (enabled : bool) (t : Target) : Target :=
  let l := tg_link t in
  mkTarget (mkLink (config l) (state l) (state_since l) (stats l) (negb enabled)) (tg_id t) (tg_remote t).

Definition named (name : string) (t : Target) : bool := String.eqb (link_name (config (tg_link t))) name.

(** The search for the link: the first one with the name. *)
Fixpoint set_link_enabled (name : string) (enabled : bool) (ts : list Target) : list Target * bool :=
  match ts with
  | [] => ([], false)
  | t :: ts =>
      if named name t then (set_enabled enabled t :: ts, true)
      else let '(ts, found) := set_link_enabled name enabled ts in (t :: ts, found)
  end.

Definition test_targets (link : option string) (ts : list Target) : list Target :=
  List.filter (λ t, match link with Some name => named name t | None => true end
                    && bool_decide (is_Some (tg_remote t))) ts.

Definition run_throughput_test_leg_download (request_sent : bool) (received : option f64)
    : option f64 := if request_sent then received else None.

Definition run_throughput_test_command (m : measured) (link : option string) (bidirectional : bool)
    (ts : list Target) : CommandResult :=
  match test_targets link ts with
  | [] =>
      failed (match link with
              | Some name => "no such link '" +:+ name +:+ "', or it has no known peer address yet"
              | None => "no configured link has a known peer address yet"
              end)
  | targets =>
      mkResult true None
        (imap (λ k t,
           let '(up, steps) := run_throughput_test_leg_upload (m_step m k) in
           mkLinkResult (link_name (config (tg_link t))) up
             (if bidirectional
              then run_throughput_test_leg_download (m_request_sent m k) (m_received m k) else None)
             steps) targets)
        None None peer_version
  end.

Definition run_diag_dump_command (m : measured) : CommandResult :=
  let snap := (build_snapshot addr_to_string (m_view m) (m_logs m) 0 (m_events m) 0).1.1 in
  mkResult true None [] (Some (format_dump fmt snap "manual (mlvpnd diag-dump)")) None peer_version.

Definition run_tunnel_throughput_test_command (m : measured) (peer_addr : string) : CommandResult :=
  match parse_ip peer_addr with
  | inr e => failed ("invalid peer_addr '" +:+ peer_addr +:+ "': " +:+ e)
  | inl ip => mkResult true None [] None (Some (m_tunnel m ip)) peer_version
  end.

Definition apply_command (m : measured) (cmd : Command) (ts : list Target) : list Target * CommandResult :=
  match cmd with
  | SetLinkEnabled link enabled =>
      let '(ts, found) := set_link_enabled link enabled ts in
      (ts, if found then mkResult true None [] None None peer_version
           else failed ("no such link '" +:+ link +:+ "'"))
  | RunThroughputTest link _ bidirectional =>
      (ts, run_throughput_test_command m link bidirectional ts)
  | DiagDump => (ts, run_diag_dump_command m)
  | RunTunnelThroughputTest peer_addr _ _ _ => (ts, run_tunnel_throughput_test_command m peer_addr)
  end.

(** One connection: the line is parsed ([inr] when it is no command) and the
    result written. *)
Definition serve_command_client (m : measured) (line : Command + string) (ts : list Target)
    : list Target * CommandResult :=
  match line with
  | inl cmd => apply_command m cmd ts
  | inr e => (ts, failed ("invalid command: " +:+ e))
  end.

(** ** A disabled link carries no traffic *)

Lemma set_link_spec name enabled ts :
  let '(ts', found) := set_link_enabled name enabled ts in
  if found then
    ∃ a t b, ts = a ++ t :: b ∧ named name t = true ∧ Forall (λ t, named name t = false) a ∧
             ts' = a ++ set_enabled enabled t :: b
  else ts' = ts ∧ Forall (λ t, named name t = false) ts.
Proof.
  induction ts as [|t ts IH]; cbn [set_link_enabled]; [done|]. destruct (named name t) eqn:En.
  - exists [], t, ts. done.
  - destruct (set_link_enabled name enabled ts) as [ts' found]. destruct found.
    + destruct IH as (a & x & b & -> & Hx & Ha & ->). exists (t :: a), x, b. by repeat constructor.
    + destruct IH as [-> IH]. split; [done|]. by constructor.
Qed.

(** Packets scheduled one after the other, without a refresh in between. *)
Fixpoint pick_all (clocks : nat → nat → Z) (ls : list Link) (lens : list Z) (s : Scheduler)
    : outcome (list nat) :=
  match lens with
  | [] => Ok []
  | n :: lens =>
      '(s, i) ← pick_link (clocks (2 * length lens)%nat) (clocks (2 * length lens + 1)%nat) ls n s;
      rest ← pick_all clocks ls lens s;
      Ok (match i with Some i => i :: rest | None => rest end)
  end.

(** The scheduler knows usable links, and [j] is not one of them. *)
Record avoids (n : nat) (t : Z) (j : nat) (s : Scheduler) : Prop := {
  av_inv : sched_inv n t s;
  av_some : entries s ≠ [];
  av_entry : j ∉ indices (entries s) }.

Lemma pick_avoids n t j ls len clock clock' s :
  avoids n t j s → length ls = n → (0 < n)%nat →
  ∃ s' i, pick_link clock clock' ls len s = Ok (s', Some i) ∧ i ≠ j ∧ (i < n)%nat ∧ avoids n t j s'.
Proof.
  intros [Hi Hne Hj] Hl Hn.
  destruct (pick_link_ok n t s ls len clock clock' Hi Hl Hn) as (Heq & s' & i & Hp & Hin & _ & He).
  exists s', i. split; [done|]. split; [intros ->; by apply Hj, He|]. split; [done|].
  rewrite Heq in Hp. unfold select in Hp. destruct (snapshot_scores ls); [done|].
  destruct (primary s) eqn:Ep; [by injection Hp as <- _; split|].
  destruct (entries s) as [|e es] eqn:Ee; [done|].
  destruct (swrr_pick_spec clock len s) as (s1 & pos & y & E & Hpost);
    [by rewrite Ee|apply Hi|]. rewrite E in Hp. cbn in Hp. injection Hp as -> _.
  pose proof (pp_frame _ _ _ _ _ _ Hpost) as Hf.
  pose proof (same_shape_indices _ _ (pf_entries _ _ Hf)) as Hix.
  split; [by eapply frame_inv| |by rewrite <-Hix, Ee].
  intros E0. rewrite E0, Ee in Hix. done.
Qed.

Lemma pick_all_avoids n t j ls clocks lens s :
  avoids n t j s → length ls = n → (0 < n)%nat →
  ∃ is_, pick_all clocks ls lens s = Ok is_ ∧ length is_ = length lens ∧
         Forall (λ i, i ≠ j ∧ (i < n)%nat) is_.
Proof.
  intros Ha Hl Hn. revert s Ha. induction lens as [|len lens IH]; intros s Ha; cbn [pick_all].
  { exists []. by repeat constructor. }
  destruct (pick_avoids n t j ls len (clocks (2 * length lens)%nat) (clocks (2 * length lens + 1)%nat) s)
    as (s' & i & -> & Hi & Hin & Ha'); [done..|]. cbn [mbind outcome_bind].
  destruct (IH s' Ha') as (is_ & -> & Hlen & Hf). cbn [mbind outcome_bind]. exists (i :: is_).
  split; [done|]. split; [cbn; by rewrite Hlen|]. by constructor.
Qed.

Lemma disabled_not_up ls j l :
  ls !! j = Some l → admin_disabled l = true → j ∉ map fst (up_indices ls).
Proof.
  intros Hl Hd Hin. apply list_elem_of_fmap in Hin as ([i w] & -> & Hx).
  unfold up_indices in Hx. apply list_elem_of_In, filter_In in Hx as [Hx Hw].
  apply list_elem_of_In, elem_of_lookup_imap in Hx as (k & l' & [= -> ->] & Hl').
  cbn [fst snd] in *. rewrite Hl in Hl'. injection Hl' as <-. unfold score in Hw.
  rewrite Hd, orb_true_r in Hw. by vm_compute in Hw.
Qed.

(** C18. Disabling a link over the command socket takes effect with the
    scheduler's next refresh: as long as another link is usable then, the
    scheduler picks a link for every packet and never the disabled one. The other
    links are untouched, and a name that no link has changes nothing and is
    reported. The copies of redundant mode do not go through the scheduler and
    are not covered ([disabled_link_still_copied]). *)
Theorem disabled_link_avoided m name ts cfg peer n t s clocks lens :
  sched_reach n t s → length ts = n →
  let '(ts', r) := apply_command m (SetLinkEnabled name false) ts in
  let ls := tg_link <$> ts' in
  (ok r = false → ts' = ts ∧ Forall (λ t, named name t = false) ts ∧ is_Some (error r)) ∧
  (ok r = true →
   ∃ j l, ts !! j = Some l ∧ named name l = true ∧ ts' !! j = Some (set_enabled false l) ∧
     (∀ i, i ≠ j → ts' !! i = ts !! i) ∧
     (up_indices ls ≠ [] →
      ∃ is_, pick_all clocks ls lens (refresh ls cfg peer s) = Ok is_ ∧ length is_ = length lens ∧
             Forall (λ i, i ≠ j ∧ (i < n)%nat) is_)).
Proof.
  intros Hs%sched_reach_inv Hn. cbn [apply_command].
  pose proof (set_link_spec name false ts) as Hset.
  destruct (set_link_enabled name false ts) as [ts' found]. destruct found; cbn [ok failed error].
  - split; [done|]. intros _. destruct Hset as (a & x & b & -> & Hx & _ & ->).
    exists (length a), x. rewrite !list_lookup_middle by done. split; [done|]. split; [done|].
    split; [done|]. split.
    + intros i Hi. rewrite !lookup_app. case_match; [done|]. apply lookup_ge_None in H.
      destruct (i - length a)%nat eqn:E; [lia|done].
    + intros Hup. set (ls := tg_link <$> a ++ set_enabled false x :: b) in *.
      assert (length ls = n) as Hlen by (unfold ls; rewrite length_fmap, length_app in *; done).
      assert (0 < n)%nat by (rewrite <-Hn, length_app; cbn; lia).
      apply (pick_all_avoids n t); [|done..].
      assert (indices (entries (refresh ls cfg peer s)) = map fst (up_indices ls)) as Hix
        by (unfold refresh, indices; cbn; by rewrite map_map).
      split; [by apply refresh_inv| |].
      * intros E. apply (f_equal indices) in E. rewrite Hix in E. by destruct (up_indices ls).
      * rewrite Hix. apply (disabled_not_up _ _ (tg_link (set_enabled false x))); [|done].
        unfold ls. rewrite list_lookup_fmap, list_lookup_middle; done.
  - split; [|done]. intros _. destruct Hset as [-> Hset]. by repeat split.
Qed.

End commands.

(** *** Examples *)

Module commands_example.

Definition wan (name : string) (st : LinkState) : Target :=
  mkTarget (mkLink (sample_link name) st 0
              (record_rtt 1 (f64.of_Z 20) (record_rtt 0 (f64.of_Z 10) sample_stats)) false)
    0 (Some (mkAddr (V4 1) 5000)).
Definition two : list Target := [wan "wan0" Up; wan "wan1" Up].
Definition unmeasured : measured :=
  mkMeasured (λ _ _ _, None) (λ _, false) (λ _, None) (λ _, mkTunnelResult None None 0 None None None)
    diag_example.view ring_new ring_new.
Definition fmt (_ : nat) (_ : f64) : string := "0".
Definition addr (_ : SocketAddr) : string := "addr".
Definition parse (_ : string) : IpAddr + string := inl (V4 1).
Notation apply := (apply_command fmt addr parse None unmeasured).

Lemma disabled_link_avoided_witness :
  let ls := tg_link <$> (apply (SetLinkEnabled "wan0" false) two).1 in
  pick_all (λ _ _, 0) ls [100; 100; 100] (refresh ls SchedulerConfig_default None Scheduler_new) =
    Ok [1; 1; 1]%nat ∧
  ∃ j, (j < 2)%nat ∧ ∃ is_, pick_all (λ _ _, 0) ls [100; 100; 100]
         (refresh ls SchedulerConfig_default None Scheduler_new) = Ok is_ ∧ Forall (λ i, i ≠ j) is_.
Proof.
  split; [vm_compute; reflexivity|].
  destruct (disabled_link_avoided fmt addr parse None unmeasured "wan0" two SchedulerConfig_default None 2 0
    Scheduler_new (λ _ _, 0) [100; 100; 100] (sr_new 2 0) eq_refl) as [_ H].
  destruct (H eq_refl) as (j & l & Hj & _ & _ & _ & Hp).
  destruct Hp as (is_ & E & _ & Hf); [vm_compute; discriminate|].
  exists j. split; [exact (lookup_lt_Some _ _ _ Hj)|]. exists is_. split; [exact E|].
  eapply Forall_impl; [exact Hf|]. by intros i [Hi _].
Defined.

(** In redundant mode a disabled link keeps getting its copy of every packet. *)
Lemma disabled_link_still_copied :
  let ts := (apply (SetLinkEnabled "wan0" false) two).1 in
  redundant_targets ((λ t, (tg_link t, bool_decide (is_Some (tg_remote t)))) <$> ts) = [0; 1]%nat.
Proof. vm_compute. reflexivity. Qed.

(** With no usable link the scheduler may fall back to the disabled one. *)
Lemma disabled_link_fallback :
  let ls := tg_link <$> (apply (SetLinkEnabled "wan0" false) [wan "wan0" Up; wan "wan1" Down]).1 in
  pick_all (λ _ _, 0) ls [100] (refresh ls SchedulerConfig_default None Scheduler_new) = Ok [0%nat].
Proof. vm_compute. reflexivity. Qed.

End commands_example.
