(* ===== verification/Text.v ===== *)
(** * Strings and JSON values

    What [firewall.rs], [procstats.rs] and the web interface use of [str] and of
    [serde_json::Value]. A string is its bytes. *)

From Stdlib Require Import Ascii SpecFloat.
From S2P Require Import Prelude Bytes F64.

(** ** JSON values ([serde_json::Value]) *)

Inductive Number := PosInt (n : Z) | NegInt (n : Z) | Float (x : f64).

Inductive Value :=
  | Null
  | Bool (b : bool)
  | Num (n : Number)
  | Str (s : string)
  | Array (l : list Value)
  | Object (m : list (string * Value)).

Definition get (k : string) (v : Value) : option Value :=
  match v with
  | Object m => snd <$> List.find (λ kv, String.eqb k kv.1) m
  | _ => None
  end.
Definition as_array (v : Value) : option (list Value) :=
  match v with Array l => Some l | _ => None end.
Definition as_str (v : Value) : option string := match v with Str s => Some s | _ => None end.
Definition as_u64 (v : Value) : option Z := match v with Num (PosInt n) => Some n | _ => None end.

(** ** Strings *)

Definition lower (a : Ascii.ascii) : Ascii.ascii :=
  let n := Ascii.nat_of_ascii a in
  if (65 <=? n)%nat && (n <=? 90)%nat then Ascii.ascii_of_nat (n + 32) else a.
Fixpoint to_ascii_lowercase (s : string) : string :=
  match s with
  | EmptyString => EmptyString
  | String a s => String (lower a) (to_ascii_lowercase s)
  end.

(** [s.split(c)] for a character. *)
Fixpoint split_char (c : Ascii.ascii) (s : string) : list string :=
  match s with
  | EmptyString => [EmptyString]
  | String a s =>
      let r := split_char c s in
      if Ascii.eqb a c then EmptyString :: r
      else match r with w :: ws => String a w :: ws | [] => [String a EmptyString] end
  end.

(** [s.split_once(c)] and [s.rsplit_once(c)]: around the first and around the
    last such character. *)
Fixpoint split_once (c : Ascii.ascii) (s : string) : option (string * string) :=
  match s with
  | EmptyString => None
  | String a s =>
      if Ascii.eqb a c then Some (EmptyString, s)
      else match split_once c s with Some (x, y) => Some (String a x, y) | None => None end
  end.
Fixpoint rsplit_once (c : Ascii.ascii) (s : string) : option (string * string) :=
  match s with
  | EmptyString => None
  | String a s =>
      match rsplit_once c s with
      | Some (x, y) => Some (String a x, y)
      | None => if Ascii.eqb a c then Some (EmptyString, s) else None
      end
  end.

Definition code (a : Ascii.ascii) : Z := Z.of_nat (Ascii.nat_of_ascii a).
Fixpoint all_chars (f : Ascii.ascii → bool) (s : string) : bool :=
  match s with EmptyString => true | String a s => f a && all_chars f s end.
Definition contains_char (c : Ascii.ascii) (s : string) : bool :=
  negb (all_chars (λ a, negb (Ascii.eqb a c)) s).

Definition is_digit (a : Ascii.ascii) : bool := (48 <=? code a) && (code a <=? 57).

(** [str::parse::<u64>] (and [usize]): an optional plus sign and digits; [None]
    for an error. *)
Fixpoint digits_value (s : string) (acc : Z) : option Z :=
  match s with
  | EmptyString => Some acc
  | String a s =>
      if is_digit a then
        let acc := acc * 10 + (code a - 48) in
        if acc <? 2 ^ 64 then digits_value s acc else None
      else None
  end.
Definition parse_u64 (s : string) : option Z :=
  match s with
  | EmptyString => None
  | String a s' =>
      if Ascii.eqb a "+"%char then (if String.eqb s' "" then None else digits_value s' 0)
      else digits_value s 0
  end.

(** [s.trim()] of ASCII text. *)
Definition ascii_space (a : Ascii.ascii) : bool :=
  ((9 <=? code a) && (code a <=? 13)) || (code a =? 32).
Fixpoint trim_start (s : string) : string :=
  match s with
  | EmptyString => EmptyString
  | String a s' => if ascii_space a then trim_start s' else s
  end.
Fixpoint trim_end (s : string) : string :=
  match s with
  | EmptyString => EmptyString
  | String a s =>
      match trim_end s with
      | EmptyString => if ascii_space a then EmptyString else String a EmptyString
      | t => String a t
      end
  end.
Definition trim (s : string) : string := trim_start (trim_end s).

(** The UTF-8 forms of the characters [char::is_whitespace] accepts. *)
Definition spaces : list string :=
  let s := foldr (λ n, String (Ascii.ascii_of_nat n)) EmptyString in
  s <$> (List.map (λ n, [n]) [9; 10; 11; 12; 13; 32]
         ++ [[194; 133]; [194; 160]; [225; 154; 128]; [226; 128; 168]; [226; 128; 169];
             [226; 128; 175]; [226; 129; 159]; [227; 128; 128]]
         ++ List.map (λ i, [226; 128; 128 + i]) (List.seq 0 11))%nat.

(** The length of the white space character a string begins with. *)
Definition space_len (s : string) : option nat :=
  String.length <$> List.find (λ w, String.prefix w s) spaces.

(** [s.split_whitespace()]: [skip] bytes of a white space character are still
    to be passed, [cur] is the word so far. *)
Definition flush (cur : string) : list string := if String.eqb cur "" then [] else [cur].
Fixpoint split_ws (s : string) (skip : nat) (cur : string) : list string :=
  match s with
  | EmptyString => flush cur
  | String a r =>
      match skip with
      | S skip => split_ws r skip cur
      | O =>
          match space_len s with
          | Some n => flush cur ++ split_ws r (pred n) ""
          | None => split_ws r 0 (cur +:+ String a EmptyString)
          end
      end
  end.
Definition split_whitespace (s : string) : list string := split_ws s 0 "".

(** [s.trim()] of any text. *)
Fixpoint skip_space (s : string) (skip : nat) : string :=
  match s with
  | EmptyString => EmptyString
  | String a r =>
      match skip with
      | S skip => skip_space r skip
      | O => match space_len s with Some n => skip_space r (pred n) | None => s end
      end
  end.
Fixpoint all_space (s : string) (skip : nat) : bool :=
  match s with
  | EmptyString => true
  | String a r =>
      match skip with
      | S skip => all_space r skip
      | O => match space_len s with Some n => all_space r (pred n) | None => false end
      end
  end.
Fixpoint cut_space (s : string) : string :=
  match s with
  | EmptyString => EmptyString
  | String a r => if all_space s 0 then EmptyString else String a (cut_space r)
  end.
Definition trim_unicode (s : string) : string := cut_space (skip_space s 0).

(** [s.lines()]: a line ends at a line feed, with a carriage return before
    it; what follows the last one is a line unless it is empty. *)
Fixpoint strip_cr (s : string) : string :=
  match s with
  | String a EmptyString => if Ascii.eqb a (Ascii.ascii_of_nat 13) then EmptyString else s
  | String a r => String a (strip_cr r)
  | EmptyString => EmptyString
  end.
Fixpoint ended_lines (ps : list string) : list string :=
  match ps with
  | [] => []
  | [p] => flush p
  | p :: ps => strip_cr p :: ended_lines ps
  end.
Definition lines (s : string) : list string := ended_lines (split_char (Ascii.ascii_of_nat 10) s).

Fixpoint strip_prefix (p s : string) : option string :=
  match p, s with
  | EmptyString, _ => Some s
  | String a p, String b s => if Ascii.eqb a b then strip_prefix p s else None
  | _, EmptyString => None
  end.

(** [str::parse::<f64>]: a sign, and digits with an optional point and an
    optional exponent, rounded to the nearest; or a name. *)
Fixpoint digits (s : string) (acc : Z) (n : nat) : Z * nat * string :=
  match s with
  | String a r => if is_digit a then digits r (acc * 10 + (code a - 48)) (S n) else (acc, n, s)
  | EmptyString => (acc, n, s)
  end.
Definition round_ratio (neg : bool) (num den : Z) : f64 :=
  match num, den with
  | Zpos p, Zpos q => SpecFloat.SFdiv 53 1024 (S754_finite neg p 0) (S754_finite false q 0)
  | _, _ => S754_zero neg
  end.
Definition scale10 (neg : bool) (m e : Z) : f64 :=
  if 0 <=? e then round_ratio neg (m * 10 ^ e) 1 else round_ratio neg m (10 ^ - e).
(** The exponent after the [e]. *)
Definition parse_exponent (s : string) : option Z :=
  let '(neg, s) := match s with
                   | String "-" r => (true, r) | String "+" r => (false, r) | _ => (false, s) end in
  let '(e, n, rest) := digits s 0 0 in
  if (n =? 0)%nat || negb (String.eqb rest "") then None else Some (if neg : bool then - e else e).
Definition parse_decimal (neg : bool) (s : string) : option f64 :=
  let '(m, n, rest) := digits s 0 0 in
  let '(m, frac, rest) := match rest with String "." r => digits r m 0 | _ => (m, 0%nat, rest) end in
  if (n + frac =? 0)%nat then None
  else
    match rest with
    | EmptyString => Some (scale10 neg m (- Z.of_nat frac))
    | String c r =>
        if Ascii.eqb (lower c) "e" then
          e ← parse_exponent r; Some (scale10 neg m (e - Z.of_nat frac))
        else None
    end.
Definition parse_f64 (s : string) : option f64 :=
  let '(neg, s) := match s with
                   | String "-" r => (true, r) | String "+" r => (false, r) | _ => (false, s) end in
  let l := to_ascii_lowercase s in
  if String.eqb l "inf" || String.eqb l "infinity" then Some (S754_infinity neg)
  else if String.eqb l "nan" then Some S754_nan
  else parse_decimal neg s.

(** A visible ASCII character, with which no white space begins. *)
Definition graphic (a : Ascii.ascii) : bool := (33 <=? code a) && (code a <=? 126).

Lemma graphic_no_space a s : graphic a = true → space_len (String a s) = None.
Proof. destruct a as [[] [] [] [] [] [] [] []]; (discriminate || reflexivity). Qed.

Lemma trim_graphic s : all_chars graphic s = true → trim_unicode s = s.
Proof.
  intros H. assert (cut_space s = s) as Hc.
  { induction s as [|a s IH]; [done|]. simpl in H. apply andb_true_iff in H as [Ha H].
    cbn [cut_space all_space]. rewrite graphic_no_space by done. by rewrite IH. }
  destruct s as [|a s]; [done|]. simpl in H. apply andb_true_iff in H as [Ha _].
  unfold trim_unicode. cbn [skip_space]. by rewrite graphic_no_space.
Qed.

Example trim_key : trim_unicode "  a b
" = "a b".
Proof. vm_compute. reflexivity. Qed.
Example parse_load : parse_f64 "0.58" = Some (f64.of_Z 58 / f64.of_Z 100)%f64.
Proof. vm_compute. reflexivity. Qed.
Example parse_words : split_whitespace " 0.52 0.58  1/234
" = ["0.52"; "0.58"; "1/234"].
Proof. vm_compute. reflexivity. Qed.

(** ** Joining what was split *)

Lemma split_char_cons c s : split_char c s ≠ [].
Proof. destruct s as [|a s]; [done|]. cbn. destruct (Ascii.eqb a c); [done|]. by destruct (split_char c s). Qed.

Lemma concat_cons_char c a w ws :
  String.concat (String c EmptyString) (String a w :: ws) = String a (String.concat (String c EmptyString) (w :: ws)).
Proof. by destruct ws. Qed.

Lemma split_char_join c s : String.concat (String c EmptyString) (split_char c s) = s.
Proof.
  induction s as [|a s IH]; [done|]. cbn [split_char].
  pose proof (split_char_cons c s) as Hc. destruct (split_char c s) as [|w ws]; [done|].
  destruct (Ascii.eqb_spec a c) as [->|Ha].
  - change (String.concat (String c EmptyString) (EmptyString :: w :: ws))
      with (String c (String.concat (String c EmptyString) (w :: ws))). by rewrite IH.
  - by rewrite concat_cons_char, IH.
Qed.

Lemma split_once_join c s x y :
  split_once c s = Some (x, y) → s = x +:+ String c y ∧ contains_char c x = false.
Proof.
  revert x. induction s as [|a s IH]; intros x; [done|]. cbn [split_once].
  destruct (Ascii.eqb_spec a c) as [->|Ha]; [by intros [= <- <-]|].
  destruct (split_once c s) as [[x' y']|]; [|done]. intros [= <- <-].
  destruct (IH x' eq_refl) as [-> Hx]. split; [done|]. unfold contains_char in *. cbn.
  by rewrite (proj2 (Ascii.eqb_neq _ _) Ha).
Qed.

(** ** Splitting what was joined *)

Lemma string_app_nil s : s +:+ "" = s.
Proof. induction s as [|a s IH]; [done|]. exact (f_equal (String a) IH). Qed.

Lemma string_app_assoc x y z : x +:+ y +:+ z = (x +:+ y) +:+ z.
Proof. induction x as [|a x IH]; [done|]. exact (f_equal (String a) IH). Qed.

Lemma all_chars_app f x y : all_chars f (x +:+ y) = all_chars f x && all_chars f y.
Proof. induction x as [|a x IH]; [done|]. simpl. by rewrite IH, andb_assoc. Qed.

Lemma contains_char_app c x y : contains_char c (x +:+ y) = contains_char c x || contains_char c y.
Proof. unfold contains_char. by rewrite all_chars_app, negb_andb. Qed.

Lemma contains_char_cons c a s : contains_char c (String a s) = Ascii.eqb a c || contains_char c s.
Proof. unfold contains_char. cbn. by rewrite negb_andb, negb_involutive. Qed.

Lemma split_once_first c x y : contains_char c x = false → split_once c (x +:+ String c y) = Some (x, y).
Proof.
  induction x as [|a x IH]; intros H; [simpl; by rewrite Ascii.eqb_refl|].
  rewrite contains_char_cons in H. apply orb_false_iff in H as [Ha Hx]. simpl. by rewrite Ha, IH.
Qed.

Lemma split_char_none c x : contains_char c x = false → split_char c x = [x].
Proof.
  induction x as [|a x IH]; intros H; [done|].
  rewrite contains_char_cons in H. apply orb_false_iff in H as [Ha Hx]. simpl. by rewrite Ha, IH.
Qed.

Lemma split_char_first c x y :
  contains_char c x = false → split_char c (x +:+ String c y) = x :: split_char c y.
Proof.
  induction x as [|a x IH]; intros H; [simpl; by rewrite Ascii.eqb_refl|].
  rewrite contains_char_cons in H. apply orb_false_iff in H as [Ha Hx]. simpl. by rewrite Ha, IH.
Qed.

(** ** Decimal numbers *)

Lemma code_pretty_digit d : (d < 10)%N → code (pretty_N_char d) = 48 + Z.of_N d.
Proof.
  intros H. destruct d as [|p]; [done|]. do 4 (destruct p as [p|p|]; try done); lia.
Qed.

Lemma digits_go x s :
  (x < 2 ^ 64)%N → digits_value (pretty_N_go x s) 0 = digits_value s (Z.of_N x).
Proof.
  revert s. induction (N.lt_wf_0 x) as [x _ IH]; intros s Hx.
  destruct (N.eq_0_gt_0_cases x) as [->|Hp]; [by rewrite pretty_N_go_0|].
  rewrite pretty_N_go_step by done.
  assert (x `div` 10 < x)%N as Hd by (apply N.div_lt; lia).
  rewrite IH by (try done; lia). cbn [digits_value]. unfold is_digit.
  assert (x `mod` 10 < 10)%N as Hm by (by apply N.mod_lt).
  rewrite code_pretty_digit by done.
  assert (0 ≤ Z.of_N (x `mod` 10) < 10) as Hz by (clear -Hm; revert Hm; generalize (x `mod` 10)%N; lia).
  rewrite (proj2 (Z.leb_le 48 _)), (proj2 (Z.leb_le _ 57)) by lia. cbn [andb].
  replace (Z.of_N (x `div` 10) * 10 + (48 + Z.of_N (x `mod` 10) - 48)) with (Z.of_N x).
  - by rewrite (proj2 (Z.ltb_lt _ _)) by lia.
  - rewrite N2Z.inj_div, N2Z.inj_mod. change (Z.of_N 10) with 10.
    pose proof (Z.div_mod (Z.of_N x) 10). lia.
Qed.

Lemma pretty_go_digits x s : all_chars is_digit s = true → all_chars is_digit (pretty_N_go x s) = true.
Proof.
  revert s. induction (N.lt_wf_0 x) as [x _ IH]; intros s Hs.
  destruct (N.eq_0_gt_0_cases x) as [->|Hp]; [by rewrite pretty_N_go_0|].
  rewrite pretty_N_go_step by done. apply IH; [apply N.div_lt; lia|]. cbn. unfold is_digit.
  rewrite code_pretty_digit by (by apply N.mod_lt).
  assert (x `mod` 10 < 10)%N as Hm by (by apply N.mod_lt).
  assert (0 ≤ Z.of_N (x `mod` 10) < 10) as Hz by (clear -Hm; revert Hm; generalize (x `mod` 10)%N; lia).
  by rewrite (proj2 (Z.leb_le 48 _)), (proj2 (Z.leb_le _ 57)) by lia.
Qed.

(** The text of a number that is not negative. *)
Lemma pretty_nonneg n : 0 ≤ n → pretty n = pretty (Z.to_N n).
Proof. intros H. destruct n; done. Qed.

Lemma pretty_digits n : 0 ≤ n → all_chars is_digit (pretty n) = true.
Proof.
  intros H. rewrite pretty_nonneg by done. unfold pretty, pretty_N.
  case_decide; [done|]. by apply pretty_go_digits.
Qed.

Lemma digits_contain_no c s : is_digit c = false → all_chars is_digit s = true → contains_char c s = false.
Proof.
  intros Hc. induction s as [|a s IH]; [done|]. simpl. intros [Ha Hs]%andb_true_iff.
  rewrite contains_char_cons, IH by done. destruct (Ascii.eqb_spec a c); [congruence|done].
Qed.

Lemma parse_pretty n : fits 64 n → parse_u64 (pretty n) = Some n.
Proof.
  intros [H0 H1]. rewrite pretty_nonneg by done. unfold pretty, pretty_N.
  case_decide as Hz; [assert (n = 0) as -> by lia; vm_compute; reflexivity|].
  pose proof (digits_go (Z.to_N n) "" ltac:(lia)) as Hd.
  pose proof (pretty_go_digits (Z.to_N n) "" eq_refl) as Ha.
  rewrite Z2N.id in Hd by done. destruct (pretty_N_go (Z.to_N n) "") as [|a s];
    [exfalso; injection Hd as Hd; lia|].
  unfold parse_u64. destruct (Ascii.eqb_spec a "+") as [->|Hn]; [discriminate Ha|].
  exact Hd.
Qed.
