(* ===== verification/Firewall.v ===== *)
(** * Firewall set-up ([firewall.rs])

    The one-shot subcommand that opens or closes the UDP ports of the links on
    whichever firewall manages the host. The programs it runs (and what they do
    to the host) are a parameter, as is the JSON parser; the lines it prints are
    kept. The theorem is about nftables, where the plan depends on the rules
    the host already has. *)

From Stdlib Require Import Sorted.
From S2P Require Import Prelude Bytes Utf8 F64 Configuration Text.

(** [v.get(k).and_then(Value::as_str) == Some(s)] *)
Definition str_is (k s : string) (v : Value) : bool := bool_decide (get k v ≫= as_str = Some s).

(** ** Backends and commands *)

Inductive Backend := Firewalld | Ufw | Nftables | IptablesLegacy.
Inductive Action := Add | Remove.

Definition Backend_name (b : Backend) : string :=
  match b with
  | Firewalld => "firewalld"
  | Ufw => "ufw"
  | Nftables => "nftables"
  | IptablesLegacy => "iptables (legacy)"
  end.

Definition Backend_parse (s : string) : option Backend :=
  let s := to_ascii_lowercase s in
  if String.eqb s "firewalld" then Some Firewalld
  else if String.eqb s "ufw" then Some Ufw
  else if String.eqb s "nftables" || String.eqb s "nft" then Some Nftables
  else if String.eqb s "iptables" || String.eqb s "iptables-legacy" then Some IptablesLegacy
  else None.

Record PlannedCommand := mkCommand { label : string; program : string; args : list string }.

Fixpoint has_whitespace (s : string) : bool :=
  existsb (λ w, String.prefix w s) spaces ||
  match s with EmptyString => false | String _ s => has_whitespace s end.

Definition display (c : PlannedCommand) : string :=
  foldl (λ s a,
    s +:+ " " +:+ (if String.eqb a "" || has_whitespace a then "'" +:+ a +:+ "'" else a))
    (program c) (args c).

(** A [BTreeSet] is its sorted list. *)
Fixpoint port_insert (p : Z) (l : list Z) : list Z :=
  match l with
  | [] => [p]
  | q :: r => if p <? q then p :: l else if p =? q then l else q :: port_insert p r
  end.
Definition required_ports (cfg : Config) : list Z :=
  foldl (λ s l, port_insert (local_port l) s) [] (links cfg).

(** ** Plans that need no look at the host *)

Definition plan_firewalld (ports : list Z) (action : Action) : list PlannedCommand :=
  let flag := match action with Add => "--add-port" | Remove => "--remove-port" end in
  map (λ p, mkCommand (pretty p +:+ "/udp via firewalld") "firewall-cmd"
              ["--permanent"; flag +:+ "=" +:+ pretty p +:+ "/udp"]) ports
  ++ [mkCommand "apply permanent changes immediately" "firewall-cmd" ["--reload"]].

Definition plan_ufw (ports : list Z) (action : Action) : list PlannedCommand :=
  map (λ p, mkCommand (pretty p +:+ "/udp via ufw") "ufw"
              match action with
              | Add => ["allow"; pretty p +:+ "/udp"]
              | Remove => ["delete"; "allow"; pretty p +:+ "/udp"]
              end) ports.

(** ** Reading an nftables ruleset *)

Definition Chain : Type := string * string * string.

(** One item of the list, if it is an input filter chain. *)
Definition input_chain (item : Value) : option Chain :=
  chain ← get "chain" item;
  if str_is "hook" "input" chain && str_is "type" "filter" chain then
    family ← get "family" chain ≫= as_str;
    table ← get "table" chain ≫= as_str;
    name ← get "name" chain ≫= as_str;
    Some (family, table, name)
  else None.

Definition find_input_filter_chains (ruleset : Value) : list Chain :=
  match get "nftables" ruleset ≫= as_array with
  | None => []
  | Some items => omap input_chain items
  end.

Definition is_udp_dport_match (expr : Value) (port : Z) : bool :=
  match get "match" expr with
  | None => false
  | Some m =>
      match get "left" m ≫= get "payload" with
      | Some p => str_is "protocol" "udp" p && str_is "field" "dport" p
      | None => false
      end && bool_decide (get "right" m ≫= as_u64 = Some port)
  end.

(** The rule of an item, if it belongs to the chain. *)
Definition rule_of (k : Chain) (item : Value) : option Value :=
  let '(family, table, chain) := k in
  rule ← get "rule" item;
  if str_is "family" family rule && str_is "table" table rule && str_is "chain" chain rule
  then Some rule else None.

(** The body of the loop of [find_rule_handle]. *)
Definition rule_handle (k : Chain) (port : Z) (item : Value) : option Z :=
  rule ← rule_of k item;
  expr ← get "expr" rule ≫= as_array;
  if existsb (λ e, is_udp_dport_match e port) expr
     && existsb (λ e, bool_decide (is_Some (get "accept" e))) expr
  then wrap 32 <$> (get "handle" rule ≫= as_u64) else None.

Fixpoint find_map {A B} (f : A → option B) (l : list A) : option B :=
  match l with
  | [] => None
  | x :: l => match f x with Some y => Some y | None => find_map f l end
  end.

Definition find_rule_handle (ruleset : Value) (k : Chain) (port : Z) : option Z :=
  items ← get "nftables" ruleset ≫= as_array;
  find_map (rule_handle k port) items.

Definition nft_label (k : Chain) (port : Z) : string :=
  let '(family, table, chain) := k in
  pretty port +:+ "/udp via nftables (" +:+ family +:+ " " +:+ table +:+ " " +:+ chain +:+ ")".
Definition insert_args (k : Chain) (port : Z) : list string :=
  let '(family, table, chain) := k in
  ["insert"; "rule"; family; table; chain; "position"; "0"; "udp"; "dport"; pretty port; "accept"].
Definition delete_args (k : Chain) (handle : Z) : list string :=
  let '(family, table, chain) := k in
  ["delete"; "rule"; family; table; chain; "handle"; pretty handle].

(** The body of the inner loop of [plan_nftables]. *)
Definition nft_command (json : Value) (action : Action) (k : Chain) (port : Z)
    : list PlannedCommand :=
  match action, find_rule_handle json k port with
  | Add, Some _ => []
  | Add, None => [mkCommand (nft_label k port) "nft" (insert_args k port)]
  | Remove, Some handle => [mkCommand (nft_label k port) "nft" (delete_args k handle)]
  | Remove, None => []
  end.

(** ** The programs of the host *)

(** What a process left: whether it succeeded, the text of its exit status, and
    its two streams. *)
Record Output := mkOutput { success : bool; status : string; stdout : list Z; stderr : list Z }.

(** What the code asks of its environment. *)
Record Env := mkEnv {
  is_root : bool;
  path_dirs : option (list string);
  is_file : string → string → bool }.

Definition text (bytes : list Z) : string :=
  foldr (λ b, String (Ascii.ascii_of_N (Z.to_N b))) EmptyString (from_utf8_lossy bytes).

Section host.
Context {H : Type}.
Context (exec : string → list string → H → (IoError + Output) * H).
Context (from_slice : list Z → string + Value).

Record World := mkWorld { host : H; printed : list string }.

(** A computation that runs programs and prints. *)
Definition Sh (A : Type) : Type := World → outcome A * World.
#[local] Instance Sh_ret : MRet Sh := λ A a w, (Ok a, w).
#[local] Instance Sh_bind : MBind Sh := λ A B f m w,
  match m w with
  | (Ok a, w) => f a w
  | (Err e, w) => (Err e, w)
  | (Panic, w) => (Panic, w)
  end.
Definition throw {A} (e : MlvpnError) : Sh A := λ w, (Err e, w).
Definition println (s : string) : Sh unit :=
  λ w, (Ok tt, mkWorld (host w) (printed w ++ [s])).
Definition output (prog : string) (a : list string) : Sh (IoError + Output) := λ w,
  let '(r, h) := exec prog a (host w) in (Ok r, mkWorld h (printed w)).

Fixpoint for_each {A} (f : A → Sh unit) (l : list A) : Sh unit :=
  match l with
  | [] => mret tt
  | x :: l => f x;; for_each f l
  end.
Fixpoint collect {A B} (f : A → Sh (list B)) (l : list A) : Sh (list B) :=
  match l with
  | [] => mret []
  | x :: l => ys ← f x; zs ← collect f l; mret (ys ++ zs)
  end.

Definition succeeds (r : IoError + Output) : bool :=
  match r with inr o => success o | inl _ => false end.

(** [map_err(MlvpnError::Io)?] *)
Definition or_io (r : IoError + Output) : Sh Output :=
  match r with inl e => throw (Io e) | inr o => mret o end.

Definition command_exists (env : Env) (bin : string) : bool :=
  match path_dirs env with
  | Some dirs => existsb (λ d, is_file env d bin) dirs
  | None => false
  end.

Definition is_firewalld_active : Sh bool :=
  r ← output "firewall-cmd" ["--state"]; mret (succeeds r).

Definition is_ufw_active : Sh bool :=
  r ← output "ufw" ["status"];
  mret match r with
       | inr o => success o && String.prefix "Status: active" (text (stdout o))
       | inl _ => false
       end.

Definition detect_backend (env : Env) : Sh (option Backend) :=
  fw ← is_firewalld_active;
  if fw : bool then mret (Some Firewalld) else
  ufw ← is_ufw_active;
  mret (if ufw : bool then Some Ufw
        else if command_exists env "nft" then Some Nftables
        else if command_exists env "iptables" then Some IptablesLegacy
        else None).

Definition rule_args (p : Z) : list string :=
  ["INPUT"; "-p"; "udp"; "--dport"; pretty p; "-j"; "ACCEPT"].

Definition plan_iptables (ports : list Z) (action : Action) : Sh (list PlannedCommand) :=
  collect (λ p,
    let planned a := mkCommand (pretty p +:+ "/udp via iptables") "iptables" a in
    match action with
    | Add =>
        r ← output "iptables" ("-C" :: rule_args p);
        mret (if succeeds r then []
              else [planned (["-I"; "INPUT"; "1"] ++ drop 1 (rule_args p))])
    | Remove => mret [planned ("-D" :: rule_args p)]
    end) ports.

Definition plan_nftables (ports : list Z) (action : Action) : Sh (list PlannedCommand) :=
  r ← output "nft" ["-j"; "list"; "ruleset"];
  o ← or_io r;
  if negb (success o)
  then throw (config_err ("`nft -j list ruleset` failed: " +:+ text (stderr o)))
  else
    match from_slice (stdout o) with
    | inl e => throw (config_err ("parsing `nft -j list ruleset` output: " +:+ e))
    | inr json =>
        match find_input_filter_chains json with
        | [] =>
            println ("no active nftables input-filter chain found; the default policy already "
                     +:+ "permits this traffic, so there's nothing to add.");;
            mret []
        | chains =>
            mret (List.flat_map (λ k, List.flat_map (nft_command json action k) ports) chains)
        end
    end.

Definition plan_commands (backend : Backend) (ports : list Z) (action : Action)
    : Sh (list PlannedCommand) :=
  match backend with
  | Firewalld => mret (plan_firewalld ports action)
  | Ufw => mret (plan_ufw ports action)
  | IptablesLegacy => plan_iptables ports action
  | Nftables => plan_nftables ports action
  end.

(** One turn of the loop of [run] over the plan. *)
Definition run_planned (dry_run : bool) (cmd : PlannedCommand) : Sh unit :=
  if dry_run then println ("[dry-run] " +:+ display cmd +:+ "  # " +:+ label cmd)
  else
    println ("+ " +:+ display cmd +:+ "  # " +:+ label cmd);;
    r ← output (program cmd) (args cmd);
    o ← or_io r;
    if success o then mret tt
    else throw (config_err ("command failed (" +:+ status o +:+ "): " +:+ label cmd)).

Definition choose_backend (env : Env) (backend_override : option string) : Sh Backend :=
  match backend_override with
  | Some s =>
      match Backend_parse s with
      | Some b => mret b
      | None => throw (config_err ("unrecognized --backend '" +:+ s
                   +:+ "'; expected one of: firewalld, ufw, nftables, iptables"))
      end
  | None =>
      b ← detect_backend env;
      match b with
      | Some b => mret b
      | None => throw (config_err ("no supported firewall backend detected (checked: firewalld, "
          +:+ "ufw, nft, iptables). Nothing to do -- open these UDP ports manually if your host "
          +:+ "filters inbound traffic by default."))
      end
  end.

Definition run (env : Env) (cfg : Config) (dry_run : bool) (action : Action)
    (backend_override : option string) : Sh unit :=
  if negb (is_root env) then
    throw (Privilege ("firewall-setup must run as root (it inspects and modifies system "
                      +:+ "firewall state); re-run with sudo"))
  else
    backend ← choose_backend env backend_override;
    let ports := required_ports cfg in
    match ports with
    | [] => println "no [[links]] configured; nothing to open."
    | _ =>
        println ("backend: " +:+ Backend_name backend +:+ " | ports: "
                 +:+ String.concat ", " (map pretty ports) +:+ " | action: "
                 +:+ match action with Add => "open" | Remove => "close" end);;
        planned ← plan_commands backend ports action;
        match planned with
        | [] => println "already up to date; nothing to change."
        | _ =>
            for_each (run_planned dry_run) planned;;
            println (if dry_run
              then "dry run only -- nothing was changed. Re-run without --dry-run to apply."
              else "done.")
        end
    end.

End host.
Arguments World : clear implicits.

(** ** What [nft] promises *)

(** The JSON form of a ruleset and of the rule this code inserts, as
    libnftables-json(5) documents them. *)
Definition ruleset (items : list Value) : Value := Object [("nftables", Array items)].
Definition udp_dport (op : string) (port : Z) : Value :=
  Object [("match", Object [
    ("left", Object [("payload", Object [("field", Str "dport"); ("protocol", Str "udp")])]);
    ("op", Str op); ("right", Num (PosInt port))])].
Definition rule_item (k : Chain) (handle : Z) (expr : list Value) : Value :=
  let '(family, table, chain) := k in
  Object [("rule", Object [
    ("chain", Str chain); ("expr", Array expr); ("family", Str family);
    ("handle", Num (PosInt handle)); ("table", Str table)])].
Definition accept_rule (k : Chain) (port handle : Z) : Value :=
  rule_item k handle [udp_dport "==" port; Object [("accept", Null)]].

(** A rule with this handle, in this table, in this chain. *)
Definition has_handle (handle : Z) (rule : Value) : bool :=
  bool_decide (get "handle" rule ≫= as_u64 = Some handle).
Definition in_table (k : Chain) (handle : Z) (item : Value) : bool :=
  match get "rule" item with
  | Some rule => str_is "family" k.1.1 rule && str_is "table" k.1.2 rule && has_handle handle rule
  | None => false
  end.
Definition rule_at (k : Chain) (handle : Z) (item : Value) : bool :=
  match rule_of k item with Some rule => has_handle handle rule | None => false end.

(** An [nft] that does as its manual says for an administrator: it lists the
    rules as they are, inserts a rule into a chain that exists under a handle
    no rule of the table has, and deletes the rule of a handle. Handles are
    given out in ascending order: those of the rules to come are at least 0 and
    the [i]-th is at most [bound] and [i]. *)
Record nft_works {H} (exec : string → list string → H → (IoError + Output) * H)
    (from_slice : list Z → string + Value) (listing : H → list Value) (bound : H → Z) : Prop := {
  nft_list h : ∃ o, exec "nft" ["-j"; "list"; "ruleset"] h = (inr o, h) ∧ success o = true ∧
    from_slice (stdout o) = inr (ruleset (listing h));
  nft_chains h : NoDup (find_input_filter_chains (ruleset (listing h)));
  nft_insert h k p :
    k ∈ find_input_filter_chains (ruleset (listing h)) → 0 ≤ p < 2 ^ 16 →
    ∃ o h' before after n, exec "nft" (insert_args k p) h = (inr o, h') ∧ success o = true ∧
      listing h = before ++ after ∧ listing h' = before ++ accept_rule k p n :: after ∧
      0 ≤ n ≤ bound h ∧ bound h' ≤ bound h + 1 ∧
      Forall (λ item, in_table k n item = false) (listing h);
  nft_delete h k n :
    existsb (rule_at k n) (listing h) = true →
    ∃ o h', exec "nft" (delete_args k n) h = (inr o, h') ∧ success o = true ∧
      listing h' = List.filter (λ item, negb (rule_at k n item)) (listing h) }.

(** ** Rulesets that grow *)

Lemma find_map_None {A B} (f : A → option B) l : find_map f l = None ↔ ∀ x, x ∈ l → f x = None.
Proof.
  induction l as [|x l IH]; cbn; [by setoid_rewrite elem_of_nil|].
  setoid_rewrite elem_of_cons. destruct (f x) eqn:E; [|naive_solver].
  split; [done|]. intros Hx. specialize (Hx x). naive_solver.
Qed.

Lemma find_map_unique {A B} (f : A → option B) l x y :
  x ∈ l → f x = Some y → (∀ x' y', x' ∈ l → f x' = Some y' → y' = y) → find_map f l = Some y.
Proof.
  induction l as [|a l IH]; cbn; [by rewrite elem_of_nil|]. intros Hx Hy Hu.
  destruct (f a) as [b|] eqn:E; [by rewrite (Hu a b); [|left|]|].
  apply elem_of_cons in Hx as [->|Hx]; [congruence|]. apply IH; try done.
  intros x' y' Hx'. apply Hu. by right.
Qed.

Lemma find_rule_handle_items items k p :
  find_rule_handle (ruleset items) k p = find_map (rule_handle k p) items.
Proof. done. Qed.

Lemma chains_items items : find_input_filter_chains (ruleset items) = omap input_chain items.
Proof. done. Qed.

(** What the code reads off the rule it inserts. *)
Lemma rule_of_item k k' n expr :
  rule_of k (rule_item k' n expr) = if decide (k = k') then get "rule" (rule_item k' n expr) else None.
Proof.
  destruct k as [[f t] c], k' as [[f' t'] c']. cbn. unfold str_is. cbn.
  repeat case_bool_decide; case_decide; cbn; try done; simplify_eq.
Qed.

Lemma rule_handle_accept k p k' p' n :
  rule_handle k p (accept_rule k' p' n) =
  if decide (k = k' ∧ p = p') then Some (wrap 32 n) else None.
Proof.
  unfold rule_handle, accept_rule. rewrite rule_of_item.
  destruct (decide (k = k')) as [->|Hk]; [|by case_decide as Hd; [destruct Hd|]].
  destruct k' as [[f t] c]. cbn. unfold str_is; cbn.
  rewrite (bool_decide_eq_true_2 (Some "dport" = _)), (bool_decide_eq_true_2 (Some "udp" = _)) by done.
  destruct (decide (p = p')) as [->|Hp].
  - rewrite bool_decide_eq_true_2, decide_True by auto. done.
  - rewrite bool_decide_eq_false_2, decide_False by (intuition congruence). done.
Qed.

Lemma rule_at_accept k n k' p' n' :
  rule_at k n (accept_rule k' p' n') = bool_decide (k = k' ∧ n = n').
Proof.
  unfold rule_at, accept_rule. rewrite rule_of_item. case_decide as Hk.
  - subst. destruct k' as [[f t] c]. cbn. unfold has_handle; cbn.
    repeat case_bool_decide; naive_solver.
  - rewrite bool_decide_eq_false_2; naive_solver.
Qed.

Lemma rule_at_table k n item : in_table k n item = false → rule_at k n item = false.
Proof.
  destruct k as [[f t] c]. unfold in_table, rule_at, rule_of. cbn.
  destruct (get "rule" item); [|done]. cbn.
  destruct (str_is "family" f v), (str_is "table" t v), (str_is "chain" c v); done.
Qed.

(** A rule asked for, with the handle it was given. *)
Notation Made := (Chain * Z * Z)%type.
Definition made_rule (m : Made) : Value := accept_rule m.1.1 m.1.2 m.2.
Definition made_at (item : Value) (m : Made) : bool := rule_at m.1.1 m.2 item.
Definition others (made : list Made) (items : list Value) : list Value :=
  List.filter (λ item, negb (existsb (made_at item) made)) items.

(** [items] with the rules [made] put in one after the other, each under a
    handle that was free. *)
Inductive grown (items : list Value) : list Value → list Made → Prop :=
  | grown_start : grown items items []
  | grown_more before after made k p n :
      grown items (before ++ after) made →
      Forall (λ item, in_table k n item = false) (before ++ after) →
      grown items (before ++ accept_rule k p n :: after) (made ++ [(k, p, n)]).

Lemma grown_perm items items' made :
  grown items items' made → items' ≡ₚ items ++ (made_rule <$> made).
Proof.
  induction 1 as [|before after made k p n _ IH _]; [by rewrite app_nil_r|].
  rewrite fmap_app, (assoc_L (++)), <-IH. cbn.
  rewrite <-Permutation_middle. by rewrite Permutation_cons_append.
Qed.

Lemma grown_chains items items' made :
  grown items items' made →
  find_input_filter_chains (ruleset items') = find_input_filter_chains (ruleset items).
Proof.
  rewrite !chains_items. induction 1 as [|before after made k p n _ IH _]; [done|].
  rewrite <-IH, !omap_app. cbn. by destruct k as [[f t] c].
Qed.

Lemma grown_elem items items' made item :
  grown items items' made → item ∈ items' ↔ item ∈ items ∨ ∃ m, m ∈ made ∧ made_rule m = item.
Proof.
  intros Hg. rewrite (grown_perm _ _ _ Hg), elem_of_app, list_elem_of_fmap. naive_solver.
Qed.

Lemma made_at_rule m m' : made_at (made_rule m') m = bool_decide ((m.1.1, m.2) = (m'.1.1, m'.2)).
Proof.
  unfold made_at, made_rule. rewrite rule_at_accept. apply bool_decide_ext.
  split; [by intros [-> ->]|by intros [= -> ->]].
Qed.

(** No two of the rules made share a handle. *)
Lemma grown_nodup items items' made :
  grown items items' made → NoDup ((λ m, (m.1.1, m.2)) <$> made).
Proof.
  induction 1 as [|before after made k p n Hg IH Hf]; [constructor|].
  rewrite fmap_app. apply NoDup_app. split; [done|]. split; [|apply NoDup_singleton].
  intros x Hx Heq. apply list_elem_of_singleton in Heq as ->.
  apply list_elem_of_fmap in Hx as (m & Hm & Hin).
  rewrite Forall_forall in Hf.
  assert (made_rule m ∈ before ++ after) as Hr by (apply (grown_elem _ _ _ _ Hg); eauto).
  apply Hf, rule_at_table in Hr.
  pose proof (made_at_rule (k, p, n) m) as E. unfold made_at in E; cbn in E, Hm.
  rewrite Hr in E. symmetry in E. by apply bool_decide_eq_false in E.
Qed.

Lemma others_app made l1 l2 : others made (l1 ++ l2) = others made l1 ++ others made l2.
Proof. apply List.filter_app. Qed.

Lemma others_more made m items :
  others (made ++ [m]) items = List.filter (λ item, negb (made_at item m)) (others made items).
Proof.
  unfold others. induction items as [|x items IH]; [done|]. cbn.
  rewrite existsb_app. cbn. rewrite orb_false_r.
  destruct (existsb (made_at x) made); cbn; [done|]. destruct (made_at x m); cbn; by rewrite IH.
Qed.

Lemma filter_keep {A} (f : A → bool) l : Forall (λ x, f x = true) l → List.filter f l = l.
Proof. induction 1 as [|x l Hx _ IH]; cbn; [done|]. by rewrite Hx, IH. Qed.

(** Taking out what was put in gives back the ruleset, in its order. *)
Lemma grown_others items items' made : grown items items' made → others made items' = items.
Proof.
  induction 1 as [|before after made k p n Hg IH Hf].
  - apply filter_keep, Forall_forall. done.
  - rewrite others_more, (others_app _ before). cbn [others List.filter].
    change (List.filter (λ item, negb (existsb (made_at item) made)) after) with (others made after).
    assert (List.filter (λ item, negb (made_at item (k, p, n)))
              (others made before ++ others made after) = items) as Hrest.
    { rewrite <-others_app, IH. apply filter_keep, Forall_forall. intros x Hx.
      rewrite Forall_forall in Hf. unfold made_at; cbn.
      rewrite rule_at_table; [done|]. apply Hf, (grown_elem _ _ _ _ Hg). by left. }
    destruct (negb (existsb (made_at (accept_rule k p n)) made)); [|done].
    rewrite List.filter_app in *. cbn [List.filter].
    unfold made_at at 2; cbn. rewrite rule_at_accept, bool_decide_eq_true_2 by done. done.
Qed.

(** Which handle the code finds after the ruleset grew. *)
Lemma grown_found items items' made k p :
  grown items items' made →
  (is_Some (find_rule_handle (ruleset items) k p) ∨ ∃ n, (k, p, n) ∈ made) →
  is_Some (find_rule_handle (ruleset items') k p).
Proof.
  intros Hg Hor. rewrite !find_rule_handle_items in *.
  destruct (find_map (rule_handle k p) items') eqn:E; [done|]. exfalso.
  rewrite find_map_None in E. setoid_rewrite (grown_elem _ _ _ _ Hg) in E.
  destruct Hor as [[y Hy]|(n & Hn)].
  - assert (find_map (rule_handle k p) items = None) as E'; [|congruence].
    apply find_map_None. eauto.
  - specialize (E (accept_rule k p n)). rewrite rule_handle_accept, decide_True in E by done.
    enough (Some (wrap 32 n) = None) by done. apply E. right. by exists (k, p, n).
Qed.

Lemma grown_handle items items' made k p n :
  grown items items' made → find_rule_handle (ruleset items) k p = None →
  NoDup (fst <$> made) → (k, p, n) ∈ made → 0 ≤ n < 2 ^ 32 →
  find_rule_handle (ruleset items') k p = Some n.
Proof.
  intros Hg Hn Hd Hin Hb. rewrite find_rule_handle_items in *. rewrite find_map_None in Hn.
  apply (find_map_unique _ _ (accept_rule k p n)).
  - apply (grown_elem _ _ _ _ Hg). right. by exists (k, p, n).
  - rewrite rule_handle_accept, decide_True by done. by rewrite wrap_small.
  - intros x y Hx Hy. apply (grown_elem _ _ _ _ Hg) in Hx as [Hx|([[k' p'] n'] & Hm & <-)];
      [by rewrite Hn in Hy|].
    unfold made_rule in Hy; cbn in Hy. rewrite rule_handle_accept in Hy. case_decide as Hk; [|done].
    destruct Hk as [<- <-]. injection Hy as <-.
    apply list_elem_of_lookup in Hin as (i & Hi), Hm as (j & Hj).
    assert (i = j) as <-; [|simplify_eq; by apply wrap_small].
    by apply (NoDup_lookup _ _ _ (k, p) Hd); rewrite list_lookup_fmap, ?Hi, ?Hj.
Qed.

(** ** Running a plan *)

Section runs.
Context {H : Type} (exec : string → list string → H → (IoError + Output) * H)
  (from_slice : list Z → string + Value).

Lemma run_planned_ok prog a txt o h (w : World H) :
  exec prog a (host w) = (inr o, h) → success o = true →
  ∃ w', run_planned exec false (mkCommand txt prog a) w = (Ok tt, w') ∧ host w' = h.
Proof.
  intros He Ho. unfold run_planned, println, output, or_io, mbind, Sh_bind, mret, Sh_ret. cbn.
  rewrite He. cbn. rewrite Ho. eauto.
Qed.

Lemma for_each_step {A} (f : A → Sh unit) x l (w w' : World H) :
  f x w = (Ok tt, w') → for_each f (x :: l) w = for_each f l w'.
Proof. intros Hf. cbn. unfold mbind, Sh_bind. by rewrite Hf. Qed.

Lemma flat_map_pairs {A B C} (f : A → B → list C) l1 l2 :
  List.flat_map (λ x, List.flat_map (f x) l2) l1 =
  List.flat_map (λ xy, f xy.1 xy.2) (list_prod l1 l2).
Proof.
  induction l1 as [|x l1 IH]; cbn; [done|]. rewrite List.flat_map_app, IH. f_equal.
  clear IH. induction l2 as [|y l2 IH2]; cbn; [done|]. by rewrite IH2.
Qed.

Context (listing : H → list Value) (bound : H → Z).
Context (Hw : nft_works exec from_slice listing bound).

Definition nft_pairs (items : list Value) (ports : list Z) : list (Chain * Z) :=
  list_prod (find_input_filter_chains (ruleset items)) ports.

(** A run with nftables carries out the commands of all pairs of a chain and a
    port. *)
Lemma run_nft env cfg dry action s (w : World H) :
  is_root env = true → Backend_parse s = Some Nftables →
  ∃ w0, host w0 = host w ∧
    ∀ w1, for_each (run_planned exec dry)
        (List.flat_map (λ kp, nft_command (ruleset (listing (host w))) action kp.1 kp.2)
           (nft_pairs (listing (host w)) (required_ports cfg))) w0 = (Ok tt, w1) →
      ∃ w2, run exec from_slice env cfg dry action (Some s) w = (Ok tt, w2) ∧ host w2 = host w1.
Proof.
  intros Hr Hp. destruct (nft_list _ _ _ _ Hw (host w)) as (o & Ho & Hs & Hj).
  unfold nft_pairs. rewrite <-(flat_map_pairs (nft_command _ action)).
  unfold run, choose_backend. rewrite Hr, Hp. cbn [negb].
  destruct (required_ports cfg) as [|p ps].
  { exists w. split; [done|]. intros w1 Hf.
    enough (w1 = w) as -> by (eexists; done).
    revert Hf. generalize (find_input_filter_chains (ruleset (listing (host w)))). intros cs.
    induction cs as [|c cs IH]; cbn; [by intros [= ->]|done]. }
  unfold println, plan_commands, plan_nftables, output, or_io, mbind, Sh_bind, mret, Sh_ret. cbn [host].
  rewrite Ho. cbn [host]. rewrite Hs, Hj. cbn [negb].
  destruct (find_input_filter_chains (ruleset (listing (host w)))) as [|c cs].
  { eexists (mkWorld (host w) _). split; [done|]. cbn. intros w1 [= <-]. eexists; done. }
  destruct (List.flat_map _ (c :: cs)) as [|cmd plan] eqn:Epl.
  { eexists (mkWorld (host w) _). split; [done|]. cbn. intros w1 [= <-]. eexists; done. }
  eexists (mkWorld (host w) _). split; [done|]. intros w1 Hf. rewrite Hf. eexists; done.
Qed.

Definition insert_cmd (kp : Chain * Z) : PlannedCommand :=
  mkCommand (nft_label kp.1 kp.2) "nft" (insert_args kp.1 kp.2).
Definition delete_cmd (m : Made) : PlannedCommand :=
  mkCommand (nft_label m.1.1 m.1.2) "nft" (delete_args m.1.1 m.2).

Lemma insert_all items ps top (w : World H) made :
  grown items (listing (host w)) made →
  Forall (λ kp, kp.1 ∈ find_input_filter_chains (ruleset items) ∧ 0 ≤ kp.2 < 2 ^ 16) ps →
  bound (host w) + Z.of_nat (length ps) ≤ top →
  ∃ w' ns, for_each (run_planned exec false) (map insert_cmd ps) w = (Ok tt, w') ∧
    length ns = length ps ∧ Forall (λ n, 0 ≤ n < top) ns ∧
    grown items (listing (host w')) (made ++ zip ps ns).
Proof.
  revert w made. induction ps as [|[k p] ps IH]; intros w made Hg Hps Ht.
  { exists w, []. rewrite app_nil_r. done. }
  apply Forall_cons in Hps as [[Hk Hp] Hps]. cbn [fst snd length] in Hk, Hp, Ht.
  rewrite <-(grown_chains _ _ _ Hg) in Hk.
  destruct (nft_insert _ _ _ _ Hw _ _ _ Hk Hp)
    as (o & h' & before & after & n & He & Ho & Hl & Hl' & Hn & Hb & Hf).
  destruct (run_planned_ok _ _ (nft_label k p) _ _ _ He Ho) as (w' & Hrun & <-).
  destruct (IH w' (made ++ [(k, p, n)])) as (w2 & ns & Hrun2 & Hlen & Hns & Hg2).
  - rewrite Hl'. rewrite Hl in Hg, Hf. by constructor.
  - done.
  - lia.
  - exists w2, (n :: ns). cbn [map length zip zip_with]. rewrite (for_each_step _ _ _ _ _ Hrun).
    split; [done|]. split; [lia|]. split; [constructor; [lia|done]|].
    by rewrite (cons_middle _ made), (assoc_L (++)).
Qed.

Lemma delete_all items items' gone rest (w : World H) :
  grown items items' (gone ++ rest) → listing (host w) = others gone items' →
  ∃ w', for_each (run_planned exec false) (map delete_cmd rest) w = (Ok tt, w') ∧
    listing (host w') = items.
Proof.
  revert gone w. induction rest as [|m rest IH]; intros gone w Hg Hl.
  { exists w. split; [done|]. rewrite Hl. rewrite app_nil_r in Hg. by apply grown_others. }
  assert (existsb (rule_at m.1.1 m.2) (listing (host w)) = true) as Hex.
  { apply existsb_exists. exists (made_rule m). rewrite Hl. split.
    - apply filter_In. split.
      + apply list_elem_of_In, (grown_elem _ _ _ _ Hg). right. exists m. set_solver.
      + apply negb_true_iff, not_true_iff_false. intros (d & Hd & He)%existsb_exists.
        rewrite made_at_rule, bool_decide_eq_true in He. apply list_elem_of_In in Hd.
        pose proof (grown_nodup _ _ _ Hg) as Hnd. rewrite fmap_app, NoDup_app in Hnd.
        destruct Hnd as (_ & Hnd & _). apply (Hnd (d.1.1, d.2)).
        * by apply (list_elem_of_fmap_2 (λ m : Made, (m.1.1, m.2))).
        * rewrite He. cbn. left.
    - pose proof (made_at_rule m m) as E. unfold made_at in E. rewrite E.
      by apply bool_decide_eq_true_2. }
  destruct (nft_delete _ _ _ _ Hw _ _ _ Hex) as (o & h' & He & Ho & Hl').
  destruct (run_planned_ok _ _ (nft_label m.1.1 m.1.2) _ _ _ He Ho) as (w' & Hrun & <-).
  cbn [map]. rewrite (for_each_step _ _ _ _ _ Hrun).
  apply (IH (gone ++ [m])).
  - by rewrite <-(assoc_L (++)).
  - by rewrite Hl', Hl, others_more.
Qed.

End runs.

(** ** The ports *)

Lemma port_insert_elem p l x : x ∈ port_insert p l ↔ x = p ∨ x ∈ l.
Proof.
  induction l as [|q l IH]; cbn [port_insert]; [set_solver|].
  destruct (p <? q); [set_solver|]. destruct (Z.eqb_spec p q); set_solver.
Qed.

Lemma port_insert_length p l : (length (port_insert p l) ≤ S (length l))%nat.
Proof.
  induction l as [|q l IH]; cbn [port_insert]; [done|].
  destruct (p <? q); [done|]. destruct (p =? q); cbn in *; lia.
Qed.

Lemma port_insert_sorted p l : StronglySorted Z.lt l → StronglySorted Z.lt (port_insert p l).
Proof.
  induction 1 as [|q l Hs IH Hq]; cbn [port_insert]; [repeat constructor|].
  destruct (Z.ltb_spec p q).
  - constructor; [by constructor|]. constructor; [done|]. eapply Forall_impl; [done|]. lia.
  - destruct (Z.eqb_spec p q); [by constructor|]. constructor; [done|].
    rewrite Forall_forall in *. intros x Hx. apply port_insert_elem in Hx as [->|Hx]; [lia|auto].
Qed.

Lemma ports_sorted (ls : list LinkConfig) s :
  StronglySorted Z.lt s → StronglySorted Z.lt (foldl (λ s l, port_insert (local_port l) s) s ls).
Proof. revert s. induction ls as [|l ls IH]; intros s Hs; [done|]. by apply IH, port_insert_sorted. Qed.

Lemma required_ports_nodup cfg : NoDup (required_ports cfg).
Proof.
  assert (StronglySorted Z.lt (required_ports cfg)) as Hs by (apply ports_sorted; constructor).
  induction Hs as [|p l _ IH Hp]; constructor; [|done].
  intros Hx. rewrite Forall_forall in Hp. specialize (Hp p Hx). lia.
Qed.

Lemma required_ports_elem cfg p : p ∈ required_ports cfg ↔ p ∈ local_port <$> links cfg.
Proof.
  enough (∀ s, p ∈ foldl (λ s l, port_insert (local_port l) s) s (links cfg) ↔
                p ∈ s ∨ p ∈ local_port <$> links cfg) as E.
  { unfold required_ports. rewrite E. set_solver. }
  induction (links cfg) as [|l ls IH]; intros s; [set_solver|].
  cbn [foldl]. rewrite IH, port_insert_elem, fmap_cons, elem_of_cons. naive_solver.
Qed.

Lemma required_ports_length cfg : (length (required_ports cfg) ≤ length (links cfg))%nat.
Proof.
  enough (∀ s, (length (foldl (λ s l, port_insert (local_port l) s) s (links cfg))
                ≤ length s + length (links cfg))%nat) as E by apply (E []).
  induction (links cfg) as [|l ls IH]; intros s; cbn [foldl length]; [lia|].
  specialize (IH (port_insert (local_port l) s)). pose proof (port_insert_length (local_port l) s). lia.
Qed.

(** The pairs of an input filter chain and a port of the configuration for
    which the chain has no rule yet. *)
Definition nft_missing (items : list Value) (cfg : Config) : list (Chain * Z) :=
  List.filter (λ kp, bool_decide (find_rule_handle (ruleset items) kp.1 kp.2 = None))
    (nft_pairs items (required_ports cfg)).

Lemma missing_elem items cfg k p :
  (k, p) ∈ nft_missing items cfg ↔
  find_rule_handle (ruleset items) k p = None ∧
  k ∈ find_input_filter_chains (ruleset items) ∧ p ∈ local_port <$> links cfg.
Proof.
  unfold nft_missing, nft_pairs.
  rewrite list_elem_of_In, filter_In, in_prod_iff, <-!list_elem_of_In, required_ports_elem,
    bool_decide_eq_true. cbn. tauto.
Qed.

Lemma missing_plan items cfg :
  List.flat_map (λ kp, nft_command (ruleset items) Add kp.1 kp.2)
    (nft_pairs items (required_ports cfg)) = map insert_cmd (nft_missing items cfg).
Proof.
  unfold nft_missing. induction (nft_pairs _ _) as [|kp ps IH]; [done|].
  cbn [List.flat_map List.filter]. rewrite IH. unfold nft_command.
  destruct (find_rule_handle _ kp.1 kp.2); [by rewrite bool_decide_eq_false_2|].
  by rewrite bool_decide_eq_true_2.
Qed.

Lemma missing_length items cfg :
  (length (nft_missing items cfg) ≤
   length (find_input_filter_chains (ruleset items)) * length (links cfg))%nat.
Proof.
  unfold nft_missing, nft_pairs. etrans; [apply List.filter_length_le|]. rewrite length_prod.
  apply Nat.mul_le_mono_l, required_ports_length.
Qed.

Lemma NoDup_list_prod {A B} (l1 : list A) (l2 : list B) :
  NoDup l1 → NoDup l2 → NoDup (list_prod l1 l2).
Proof.
  intros H1 H2. induction H1 as [|x l1 Hx _ IH]; cbn; [constructor|].
  apply NoDup_app. split; [|split; [|done]].
  - apply (NoDup_fmap_2 (pair x)), H2.
  - intros [a b] Ha Hb. apply list_elem_of_fmap in Ha as (y & [= -> ->] & _).
    by apply list_elem_of_In, in_prod_iff in Hb as [Hb%list_elem_of_In _].
Qed.

Lemma made_zip ps ns :
  made_rule <$> zip ps ns = zip_with (λ kp n, accept_rule kp.1 kp.2 n) ps ns.
Proof. revert ns. induction ps as [|kp ps IH]; intros [|n ns]; cbn; by rewrite ?IH. Qed.

Lemma zip_handle {A B} (ps : list A) (ns : list B) x :
  length ns = length ps → x ∈ ps → ∃ n, (x, n) ∈ zip ps ns.
Proof.
  intros Hl (i & Hi)%list_elem_of_lookup. destruct (lookup_lt_is_Some_2 ns i) as [n Hn].
  { rewrite Hl. by eapply lookup_lt_Some. }
  exists n. apply list_elem_of_lookup. exists i. by rewrite lookup_zip_with, Hi; cbn; rewrite Hn.
Qed.

Lemma missing_none items cfg :
  (∀ k p, k ∈ find_input_filter_chains (ruleset items) → p ∈ local_port <$> links cfg →
    is_Some (find_rule_handle (ruleset items) k p)) → nft_missing items cfg = [].
Proof.
  intros Hall. destruct (nft_missing items cfg) as [|[k p] l] eqn:E; [done|].
  assert ((k, p) ∈ nft_missing items cfg) as (Hn & Hk & Hp)%missing_elem by (rewrite E; left).
  destruct (Hall k p Hk Hp). congruence.
Qed.

Lemma missing_all items cfg :
  (∀ k p, k ∈ find_input_filter_chains (ruleset items) → p ∈ local_port <$> links cfg →
    find_rule_handle (ruleset items) k p = None) →
  nft_missing items cfg = nft_pairs items (required_ports cfg).
Proof.
  intros Hall. apply filter_keep, Forall_forall. intros [k p] Hkp. apply bool_decide_eq_true_2.
  apply list_elem_of_In, in_prod_iff in Hkp as [Hk Hp]. apply Hall; [by apply list_elem_of_In|].
  apply required_ports_elem. by apply list_elem_of_In.
Qed.

Lemma remove_plan items' ps ns :
  length ns = length ps →
  (∀ k p n, (k, p, n) ∈ zip ps ns → find_rule_handle (ruleset items') k p = Some n) →
  List.flat_map (λ kp, nft_command (ruleset items') Remove kp.1 kp.2) ps
  = map delete_cmd (zip ps ns).
Proof.
  revert ns. induction ps as [|[k p] ps IH]; intros [|n ns] Hl Hn; try done.
  cbn [List.flat_map zip zip_with map]. rewrite (IH ns).
  - unfold nft_command. cbn [fst snd]. rewrite (Hn k p n) by left. done.
  - by injection Hl.
  - intros. apply Hn. by right.
Qed.

(** Removing after adding, when there was no rule before. *)
Lemma remove_made {H} exec from_slice (listing : H → list Value) bound env cfg s items ns w :
  nft_works exec from_slice listing bound →
  is_root env = true → Backend_parse s = Some Nftables →
  (∀ k p, k ∈ find_input_filter_chains (ruleset items) → p ∈ local_port <$> links cfg →
    find_rule_handle (ruleset items) k p = None) →
  NoDup (find_input_filter_chains (ruleset items)) →
  length ns = length (nft_missing items cfg) → Forall (λ n, 0 ≤ n < 2 ^ 32) ns →
  grown items (listing (host w)) (zip (nft_missing items cfg) ns) →
  ∃ w3, run exec from_slice env cfg false Remove (Some s) w = (Ok tt, w3) ∧
    listing (host w3) = items.
Proof.
  intros Hw Hr Hs Hnone Hnd Hlen Hns Hg.
  destruct (run_nft _ _ _ _ Hw env cfg false Remove s w Hr Hs) as (w0 & Hw0 & Hrun).
  rewrite (missing_all _ _ Hnone) in *. unfold nft_pairs at 1 in Hrun.
  rewrite (grown_chains _ _ _ Hg) in Hrun. fold (nft_pairs items (required_ports cfg)) in Hrun.
  rewrite (remove_plan _ _ ns) in Hrun; [|done|].
  - destruct (delete_all _ _ _ _ Hw items (listing (host w)) []
      (zip (nft_pairs items (required_ports cfg)) ns) w0) as (w1 & Hd & Hl); [done| |].
    { rewrite Hw0. symmetry. apply filter_keep, Forall_forall. done. }
    destruct (Hrun _ Hd) as (w3 & Hw3 & Hh). exists w3. by rewrite Hh.
  - intros k p n Hin. eapply grown_handle; [done| | |done|].
    + apply elem_of_zip_l, list_elem_of_In, in_prod_iff in Hin as [Hk Hp].
      apply Hnone; [by apply list_elem_of_In|]. apply required_ports_elem. by apply list_elem_of_In.
    + rewrite fst_zip by lia. apply NoDup_list_prod; [done|apply required_ports_nodup].
    + apply elem_of_zip_r in Hin. rewrite Forall_forall in Hns. by apply Hns.
Qed.

(** C24. Opening the ports with nftables works, once, and can be taken back. On
    a host whose [nft] does as its manual says, adding runs to its end and gives
    every input filter chain one plain accept rule for each port of the
    configuration it had none for, and nothing else; every such chain has a rule
    for every port then, and adding again changes nothing. If there was no rule
    for any of the ports before, removing brings back the ruleset there was, in
    its order. *)
Theorem firewall_reversible {H} exec from_slice (listing : H → list Value) bound env cfg s w :
  nft_works exec from_slice listing bound →
  is_root env = true → Backend_parse s = Some Nftables →
  Forall (λ l, 0 ≤ local_port l < 2 ^ 16) (links cfg) →
  let items := listing (host w) in
  let chains := find_input_filter_chains (ruleset items) in
  bound (host w) + Z.of_nat (length chains * length (links cfg)) ≤ 2 ^ 32 →
  ∃ w1, run exec from_slice env cfg false Add (Some s) w = (Ok tt, w1) ∧
    (∃ handles, length handles = length (nft_missing items cfg) ∧
      listing (host w1) ≡ₚ
        items ++ zip_with (λ kp n, accept_rule kp.1 kp.2 n) (nft_missing items cfg) handles) ∧
    (∀ k p, k ∈ chains → p ∈ local_port <$> links cfg →
      is_Some (find_rule_handle (ruleset (listing (host w1))) k p)) ∧
    (∃ w2, run exec from_slice env cfg false Add (Some s) w1 = (Ok tt, w2) ∧ host w2 = host w1) ∧
    ((∀ k p, k ∈ chains → p ∈ local_port <$> links cfg →
        find_rule_handle (ruleset items) k p = None) →
     ∃ w3, run exec from_slice env cfg false Remove (Some s) w1 = (Ok tt, w3) ∧
       listing (host w3) = items).
Proof.
  intros Hw Hr Hs Hports items chains Hb.
  destruct (run_nft _ _ _ _ Hw env cfg false Add s w Hr Hs) as (w0 & Hw0 & Hadd).
  rewrite missing_plan in Hadd. fold items in Hadd.
  destruct (insert_all _ _ _ _ Hw items (nft_missing items cfg) (2 ^ 32) w0 [])
    as (w1' & ns & Hrun & Hlen & Hns & Hg).
  { rewrite Hw0. constructor. }
  { apply Forall_forall. intros [k p] (_ & Hk & Hp)%missing_elem. split; [done|].
    apply list_elem_of_fmap in Hp as (l & -> & Hl). rewrite Forall_forall in Hports. by apply Hports. }
  { rewrite Hw0. pose proof (missing_length items cfg) as Hlen. fold chains in Hlen. lia. }
  destruct (Hadd _ Hrun) as (w1 & Hw1 & Hh1). cbn [app] in Hg. rewrite <-Hh1 in Hg.
  assert (∀ k p, k ∈ chains → p ∈ local_port <$> links cfg →
    is_Some (find_rule_handle (ruleset (listing (host w1))) k p)) as Hall.
  { intros k p Hk Hp. apply (grown_found _ _ _ _ _ Hg).
    destruct (find_rule_handle (ruleset items) k p) eqn:E; [by left|right].
    apply zip_handle; [done|]. by apply missing_elem. }
  exists w1. split; [done|]. split.
  { exists ns. split; [done|]. by rewrite (grown_perm _ _ _ Hg), made_zip. }
  split; [done|]. split.
  - destruct (run_nft _ _ _ _ Hw env cfg false Add s w1 Hr Hs) as (w2 & Hw2 & Hagain).
    rewrite missing_plan, missing_none in Hagain by (by rewrite (grown_chains _ _ _ Hg)).
    destruct (Hagain w2 eq_refl) as (w3 & Hw3 & Hh3). exists w3. by rewrite Hh3.
  - intros Hnone. eapply remove_made; try done. apply (nft_chains _ _ _ _ Hw).
Qed.

(** ** A host *)

Module firewall_example.

(** One input filter chain; the state is the handle and the port of each of its
    rules, and the listing gives them as the numbers they are. *)
Definition State : Type := list (Z * Z).
Definition input : Chain := ("inet", "filter", "input").
Definition chain_item : Value :=
  Object [("chain", Object [("family", Str "inet"); ("handle", Num (PosInt 1));
    ("hook", Str "input"); ("name", Str "input"); ("policy", Str "drop");
    ("table", Str "filter"); ("type", Str "filter")])].
Definition items_of (st : State) : list Value :=
  chain_item :: map (λ r, accept_rule input r.2 r.1) st.

Definition encode (st : State) : list Z := st ≫= λ r, [r.1; r.2].
Fixpoint decode (bytes : list Z) : State :=
  match bytes with n :: p :: l => (n, p) :: decode l | _ => [] end.
Definition from_slice (bytes : list Z) : string + Value := inr (ruleset (items_of (decode bytes))).

Definition next_handle (st : State) : Z := 1 + foldr (λ r m, Z.max r.1 m) 1 st.
Definition exits_0 (out : list Z) : IoError + Output := inr (mkOutput true "exit status: 0" out []).
Definition failed : IoError + Output := inr (mkOutput false "exit status: 1" [] []).

(** The number a decimal text stands for, among those of a list. *)
Definition number_in (l : list Z) (txt : string) : option Z :=
  List.find (λ n, String.eqb (pretty n) txt) l.
Fixpoint count_from (n : nat) (z : Z) : list Z :=
  match n with O => [] | S n => z :: count_from n (z + 1) end.
Definition port_range : list Z := count_from (Z.to_nat (2 ^ 16)) 0.

Definition exec (prog : string) (a : list string) (st : State) : (IoError + Output) * State :=
  match a with
  | [_; _; _] => (exits_0 (encode st), st)
  | ["insert"; _; "inet"; "filter"; "input"; _; _; _; _; p; _] =>
      match number_in port_range p with
      | Some p => (exits_0 [], (next_handle st, p) :: st)
      | None => (failed, st)
      end
  | ["delete"; _; "inet"; "filter"; "input"; _; n] =>
      match number_in (map fst st) n with
      | Some n => (exits_0 [], List.filter (λ r, negb (r.1 =? n)) st)
      | None => (failed, st)
      end
  | _ => (failed, st)
  end.

Lemma elem_of_count n z x : z ≤ x < z + Z.of_nat n → x ∈ count_from n z.
Proof.
  revert z. induction n as [|n IH]; intros z Hx; [lia|]. cbn.
  destruct (decide (x = z)) as [->|Hn]; [left|right; apply IH; lia].
Qed.

Lemma decode_encode st : decode (encode st) = st.
Proof. induction st as [|[n p] st IH]; [reflexivity|]. cbn. f_equal. exact IH. Qed.

Lemma number_in_pretty l n : n ∈ l → number_in l (pretty n) = Some n.
Proof.
  intros Hn. unfold number_in. destruct (List.find _ l) as [m|] eqn:E.
  - apply find_some in E as [_ E]. apply String.eqb_eq, (inj pretty) in E. by subst.
  - apply list_elem_of_In in Hn. pose proof (find_none _ _ E n Hn) as Hc. cbn in Hc.
    by rewrite String.eqb_refl in Hc.
Qed.

Lemma handle_below st r : r ∈ st → r.1 < next_handle st.
Proof.
  unfold next_handle. induction st as [|a st IH]; [by rewrite elem_of_nil|].
  rewrite elem_of_cons. cbn. intros [->|Hr]; [lia|]. specialize (IH Hr). lia.
Qed.

Lemma chains_of st : find_input_filter_chains (ruleset (items_of st)) = [input].
Proof.
  rewrite chains_items. unfold items_of. cbn [omap list_omap].
  change (input_chain chain_item) with (Some input). cbn. f_equal. by induction st.
Qed.

Lemma next_handle_pos st : 2 ≤ next_handle st.
Proof. unfold next_handle. induction st; cbn; lia. Qed.

Lemma works : nft_works exec from_slice items_of next_handle.
Proof.
  split.
  - intros st. eexists. split; [reflexivity|]. split; [reflexivity|].
    unfold from_slice. cbn [stdout]. by rewrite decode_encode.
  - intros st. rewrite chains_of. apply NoDup_singleton.
  - intros st k p Hk Hp. rewrite chains_of, list_elem_of_singleton in Hk. subst k.
    exists (mkOutput true "exit status: 0" [] []), ((next_handle st, p) :: st), [chain_item],
      (map (λ r, accept_rule input r.2 r.1) st), (next_handle st).
    split. { cbn. rewrite number_in_pretty; [reflexivity|]. apply elem_of_count. lia. }
    split; [reflexivity|]. split; [reflexivity|]. split; [reflexivity|].
    pose proof (next_handle_pos st). split; [lia|]. split; [unfold next_handle; cbn; lia|].
    unfold items_of. constructor; [reflexivity|]. apply Forall_forall. intros x Hx.
    apply list_elem_of_fmap in Hx as (r & -> & Hr). apply handle_below in Hr.
    unfold in_table; cbn. unfold has_handle; cbn.
    rewrite bool_decide_eq_false_2; [reflexivity|]. intros [= Heq]. lia.
  - intros st k n Hex. unfold items_of in *. cbn [existsb] in Hex.
    assert (rule_at k n chain_item = false) as Hc by (by destruct k as [[f t] c]).
    rewrite Hc in Hex. cbn [orb] in Hex.
    apply existsb_exists in Hex as (x & Hx & Hat). apply in_map_iff in Hx as (r & <- & Hr).
    rewrite rule_at_accept, bool_decide_eq_true in Hat. destruct Hat as [-> ->].
    exists (mkOutput true "exit status: 0" [] []), (List.filter (λ r', negb (r'.1 =? r.1)) st).
    split. { cbn. rewrite number_in_pretty; [reflexivity|]. apply list_elem_of_In, in_map_iff. by exists r. }
    split; [reflexivity|]. cbn [List.filter]. rewrite Hc. cbn [negb]. f_equal.
    clear Hr. induction st as [|r' st IH]; [reflexivity|]. cbn [map List.filter].
    rewrite rule_at_accept. destruct (Z.eqb_spec r'.1 r.1) as [E|E].
    + rewrite bool_decide_eq_true_2 by (by rewrite E). cbn. exact IH.
    + rewrite bool_decide_eq_false_2 by (intros [_ Heq]; congruence). cbn. by f_equal.
Qed.

Definition with_ports (ps : list Z) : Config := {|
  mode := mode sample_config; tunnel := tunnel sample_config; scheduler := scheduler sample_config;
  links := map (λ p, {|
    link_name := "wan"; bind_interface := "eth0"; local_addr := None; dual_stack := false;
    remote_addr := None; local_port := p; weight := f64.of_Z 1; bandwidth_cap_mbps := None;
    probe_interval_ms := 500; tx_send_mode := Sendmmsg; private_key_file := "/etc/mlvpn/key";
    peer_public_key := "peer" |}) ps;
  logging := logging sample_config; control := control sample_config;
  command := command sample_config; diagnostics := diagnostics sample_config |}.
Definition admin : Env := mkEnv true None (λ _ _, false).

(** A host with a rule for another port: two ports are opened and closed
    again; the ruleset ends as it began. *)
Lemma firewall_reversible_witness :
  ∃ w1, run exec from_slice admin (with_ports [51001; 51000]) false Add (Some "nft")
          (mkWorld [(7, 22)] []) = (Ok tt, w1) ∧
    is_Some (find_rule_handle (ruleset (items_of (host w1))) input 51000) ∧
    ∃ w3, run exec from_slice admin (with_ports [51001; 51000]) false Remove (Some "nft") w1 =
            (Ok tt, w3) ∧
      items_of (host w3) = items_of [(7, 22)].
Proof.
  destruct (firewall_reversible exec from_slice items_of next_handle admin
              (with_ports [51001; 51000]) "nft" (mkWorld [(7, 22)] []))
    as (w1 & Hrun & _ & Hall & _ & Hback).
  - exact works.
  - reflexivity.
  - reflexivity.
  - repeat constructor; vm_compute; congruence.
  - vm_compute. congruence.
  - exists w1. split; [exact Hrun|]. split.
    + apply Hall; [rewrite chains_of; left|right; left].
    + apply Hback. intros k p Hk Hp. rewrite chains_of in Hk.
      apply list_elem_of_singleton in Hk as ->.
      change (p ∈ [51001; 51000]) in Hp. rewrite !elem_of_cons, elem_of_nil in Hp.
      destruct Hp as [->|[->|[]]]; vm_compute; reflexivity.
Defined.

(** The commands of a run, and the lines it prints. *)
Example adds_two :
  let '(r, w) := run exec from_slice admin (with_ports [51001; 51000]) false Add (Some "NFT")
                   (mkWorld [(7, 22)] []) in
  r = Ok tt ∧ host w = [(9, 51001); (8, 51000); (7, 22)] ∧
  printed w = [
    "backend: nftables | ports: 51000, 51001 | action: open";
    "+ nft insert rule inet filter input position 0 udp dport 51000 accept  # 51000/udp via nftables (inet filter input)";
    "+ nft insert rule inet filter input position 0 udp dport 51001 accept  # 51001/udp via nftables (inet filter input)";
    "done."].
Proof. vm_compute. done. Qed.

(** A rule that accepts every port but this one, or this port from one
    network only, is taken for the rule that opens it: adding leaves the port
    shut, and removing deletes that rule. *)
Definition from_lan : Value :=
  Object [("match", Object [
    ("left", Object [("payload", Object [("field", Str "saddr"); ("protocol", Str "ip")])]);
    ("op", Str "=="); ("right", Str "192.168.1.2")])].
Definition accept : Value := Object [("accept", Null)].
Example other_rules_taken :
  Forall (λ expr, let json := ruleset [chain_item; rule_item input 7 expr] in
      nft_command json Add input 51000 = [] ∧
      map args (nft_command json Remove input 51000) =
        [["delete"; "rule"; "inet"; "filter"; "input"; "handle"; "7"]])
    [[udp_dport "!=" 51000; accept]; [from_lan; udp_dport "==" 51000; accept]].
Proof. repeat constructor. Qed.

(** Of two rules for one port, removing deletes one. *)
Example one_of_two_removed :
  let '(r, w) := run exec from_slice admin (with_ports [51000]) false Remove (Some "nft")
                   (mkWorld [(7, 51000); (8, 51000)] []) in
  r = Ok tt ∧ host w = [(8, 51000)].
Proof. vm_compute. done. Qed.

End firewall_example.
