(* ===== verification/TunnelTest.v ===== *)
(** * The tunnel-level self-test ([tunneltest.rs])

    Test traffic that crosses the tunnel like any other: the UDP stream and its
    TCP counterpart, the listener that measures what arrives, the registry that
    hands a reverse leg's result to the test that waits for it, and the test
    itself. What the sockets and the clock answer is an input. *)

From Stdlib Require Import SpecFloat.
From S2P Require Import Prelude Bytes F64 Rounding ExactInt Configuration Protocol ProbeHistory Link Delivery LinkIo Bandwidth Node.

Import delivery.

Definition TUNNEL_TEST_PORT : Z := 34551.
Definition HEADER_LEN : nat := 4 + 1 + 4 + 8.
Definition FLAG_DONE : Z := 1.
Definition FLAG_BIDIRECTIONAL_REQUESTED : Z := 2.
Definition RESULT_LEN : nat := 4 + 4.
Definition MAX_APP_FRAME : nat := Z.to_nat 9000.
Definition DONE_RETRY_DELAY : Z := 500 * 1000000.
Definition DONE_RETRY_COUNT : nat := 4.
Definition RESULT_GRACE : Z := nanos_of_secs 8.
Definition MAX_SEND_RATE_MBPS : f64 := f64.of_Z 150.

(** ** What is on the wire *)

Record DataPayload := mkData {
  d_test_id : Z;
  d_done : bool;
  bidirectional_requested : bool;
  d_duration_secs : Z;
  sender_queue_drops : Z }.

Definition DataPayload_encode_padded (p : DataPayload) (total_len : nat) : outcome (list Z) :=
  let out := replicate (Nat.max total_len HEADER_LEN) 0 in
  out ← copy_from_slice out 0 4 (u32_to_be (d_test_id p));
  let flags := 0 in
  let flags := if d_done p then Z.lor flags FLAG_DONE else flags in
  let flags := if bidirectional_requested p then Z.lor flags FLAG_BIDIRECTIONAL_REQUESTED
               else flags in
  out ← set_idx out 4 flags;
  out ← copy_from_slice out 5 9 (u32_to_be (d_duration_secs p));
  copy_from_slice out 9 17 (u64_to_be (sender_queue_drops p)).

Definition DataPayload_decode (buf : list Z) : outcome (option DataPayload) :=
  if bool_decide (length buf < HEADER_LEN)%nat then Ok None
  else
    flags ← idx buf 4;
    id ← slice buf 0 4;
    secs ← slice buf 5 9;
    drops ← slice buf 9 17;
    Ok (Some (mkData (from_be id) (negb (Z.land flags FLAG_DONE =? 0))
                (negb (Z.land flags FLAG_BIDIRECTIONAL_REQUESTED =? 0)) (from_be secs)
                (from_be drops))).

(** An [f32] is its 32 bits. *)
Record ResultPayload := mkResultPayload { r_test_id : Z; r_achieved_mbps : Z }.

Definition ResultPayload_encode (p : ResultPayload) : outcome (list Z) :=
  let out := replicate RESULT_LEN 0 in
  out ← copy_from_slice out 0 4 (u32_to_be (r_test_id p));
  copy_from_slice out 4 8 (u32_to_be (r_achieved_mbps p)).

Definition ResultPayload_decode (buf : list Z) : outcome (option ResultPayload) :=
  if bool_decide (length buf < RESULT_LEN)%nat then Ok None
  else
    id ← slice buf 0 4;
    mbps ← slice buf 4 8;
    Ok (Some (mkResultPayload (from_be id) (from_be mbps))).

Definition TCP_HEADER_LEN : nat := 9.
Definition TCP_FLAG_BIDIRECTIONAL_REQUESTED : Z := 1.

Definition encode_tcp_header (test_id : Z) (bidir : bool) (duration_secs : Z) : outcome (list Z) :=
  let out := replicate TCP_HEADER_LEN 0 in
  out ← copy_from_slice out 0 4 (u32_to_be test_id);
  out ← set_idx out 4 (if bidir then TCP_FLAG_BIDIRECTIONAL_REQUESTED else 0);
  copy_from_slice out 5 9 (u32_to_be duration_secs).

Definition decode_tcp_header (buf : list Z) : outcome (option (Z * bool * Z)) :=
  if bool_decide (length buf < TCP_HEADER_LEN)%nat then Ok None
  else
    id ← slice buf 0 4;
    flags ← idx buf 4;
    secs ← slice buf 5 9;
    Ok (Some (from_be id, negb (Z.land flags TCP_FLAG_BIDIRECTIONAL_REQUESTED =? 0),
              from_be secs)).

(** [f64::to_bits] and [f64::from_bits]. *)
Definition f64_to_bits (x : f64) : Z :=
  let sign (s : bool) := if s then 2 ^ 63 else 0 in
  match x with
  | S754_nan => 0x7ff8000000000000
  | S754_infinity s => sign s + 0x7ff0000000000000
  | S754_zero s => sign s
  | S754_finite s m e =>
      sign s + if Zpos m <? 2 ^ 52 then Zpos m else (e + 1075) * 2 ^ 52 + (Zpos m - 2 ^ 52)
  end.
Definition f64_from_bits (b : Z) : f64 :=
  let s := 2 ^ 63 <=? b in
  let e := (b / 2 ^ 52) mod 2048 in
  let m := b mod 2 ^ 52 in
  if e =? 2047 then (if m =? 0 then S754_infinity s else S754_nan)
  else if e =? 0 then match m with Zpos p => S754_finite s p (-1074) | _ => S754_zero s end
  else match (m + 2 ^ 52)%Z with Zpos p => S754_finite s p (e - 1075) | _ => S754_nan end.

Definition TCP_RESULT_LEN : nat := 8 + 4.
Record TcpResultPayload := mkTcpResult { tcp_achieved_mbps : f64; tcp_retransmits : Z }.

Definition TcpResultPayload_encode (p : TcpResultPayload) : outcome (list Z) :=
  let out := replicate TCP_RESULT_LEN 0 in
  out ← copy_from_slice out 0 8 (u64_to_be (f64_to_bits (tcp_achieved_mbps p)));
  copy_from_slice out 8 12 (u32_to_be (tcp_retransmits p)).

Definition TcpResultPayload_decode (buf : list Z) : outcome (option TcpResultPayload) :=
  if bool_decide (length buf < TCP_RESULT_LEN)%nat then Ok None
  else
    mbps ← slice buf 0 8;
    retrans ← slice buf 8 12;
    Ok (Some (mkTcpResult (f64_from_bits (from_be mbps)) (from_be retrans))).

(** ** Who waits for a reverse leg *)

Record TunnelTestLegResult := mkLeg {
  leg_achieved_mbps : f64;
  leg_peer_queue_drops : Z;
  leg_retransmits : option Z }.

(** A channel: whether its receiver is gone, and what it was sent. *)
Record leg_channel := mkLegChan { leg_closed : bool; leg_sent : list TunnelTestLegResult }.

Record TunnelTestContext := mkTunnelCtx {
  leg_waiters : gmap Z nat; leg_channels : list leg_channel }.
Definition TunnelTestContext_new : TunnelTestContext := mkTunnelCtx ∅ [].

Definition leg_is_closed (cs : list leg_channel) (c : nat) : bool :=
  match cs !! c with Some ch => leg_closed ch | None => true end.

Definition register_leg (test_id : Z) (x : TunnelTestContext) : TunnelTestContext * nat :=
  let open := filter (λ kv, leg_is_closed (leg_channels x) kv.2 = false) (leg_waiters x) in
  (mkTunnelCtx (<[test_id := length (leg_channels x)]> open) (leg_channels x ++ [mkLegChan false []]),
   length (leg_channels x)).

Definition forward_leg (test_id : Z) (r : TunnelTestLegResult) (x : TunnelTestContext)
    : TunnelTestContext * bool :=
  match leg_waiters x !! test_id with
  | Some c =>
      (mkTunnelCtx (delete test_id (leg_waiters x))
         (alter (λ ch, if leg_closed ch then ch else mkLegChan false (leg_sent ch ++ [r])) c
            (leg_channels x)), true)
  | None => (x, false)
  end.

(** ** The stream *)

(** What a round of the loop reads: the live MTU, the clock, the drop counter
    (used in the last round) and the clock again (in the others). *)
Record Round := mkRound { s_mtu : Z; s_now : Z; s_drops : Z; s_after : Z }.

Inductive StreamAct := SendDatagram (payload : list Z) | Nap (ns : Z).

Definition payload_len (mtu : Z) : nat := Nat.max (Z.to_nat (sat_sub mtu 48)) HEADER_LEN.

(** The sleep that keeps the stream at [MAX_SEND_RATE_MBPS]. *)
Definition pace (start now bytes_sent : Z) : outcome (list StreamAct) :=
  let elapsed := f64.as_secs_f64 (sat_sub now start) in
  let ideal := ((f64.of_Z bytes_sent * f64.of_Z 8)
                / (MAX_SEND_RATE_MBPS * f64.of_Z 1000000))%f64 in
  if (elapsed <? ideal)%f64 then ns ← from_secs_f64 (ideal - elapsed)%f64; Ok [Nap ns] else Ok [].

Definition round_payload (id duration : Z) (bidir : bool) (drops_before : Z) (done : bool)
    (r : Round) : DataPayload :=
  mkData id done bidir (wrap 32 (duration / nanos_of_secs 1))
    (if done then sat_sub (s_drops r) drops_before else 0).

(** The loop for the rounds given, until the deadline; whether it returned. *)
Fixpoint send_loop (deadline start id duration : Z) (bidir : bool) (drops_before : Z)
    (rounds : list Round) (bytes_sent : Z) : outcome (list StreamAct * bool) :=
  match rounds with
  | [] => Ok ([], false)
  | r :: rounds =>
      let done := deadline <=? s_now r in
      payload ← DataPayload_encode_padded (round_payload id duration bidir drops_before done r)
                  (payload_len (s_mtu r));
      let bytes_sent := wrap 64 (bytes_sent + len payload) in
      if done then
        Ok (SendDatagram payload ::
            concat (replicate DONE_RETRY_COUNT [Nap DONE_RETRY_DELAY; SendDatagram payload]), true)
      else
        nap ← pace start (s_after r) bytes_sent;
        '(acts, fin) ← send_loop deadline start id duration bidir drops_before rounds bytes_sent;
        Ok (SendDatagram payload :: nap ++ acts, fin)
  end.

Definition send_stream (start id duration : Z) (bidir : bool) (drops_before : Z)
    (rounds : list Round) : outcome (list StreamAct * bool) :=
  send_loop (start + duration) start id duration bidir drops_before rounds 0.

(** ** The listener *)

Record ReceiveState := mkRecv {
  rs_test_id : option Z;
  rs_first_seen : Z;
  rs_bytes_seen : Z;
  rs_last_completed : option Z }.
Definition ReceiveState_new (now : Z) : ReceiveState := mkRecv None now 0 None.

Record Listener := mkListener { ls_state : ReceiveState; ls_ctx : TunnelTestContext }.

Inductive ListenerAct :=
  | SendReply (payload : list Z) (to : SocketAddr)
  | SpawnStream (to : SocketAddr) (test_id duration : Z).

(** A decoded packet of [n] bytes; the clock is read when a test is seen first
    and when it is done. *)
Definition listener_data (t_new t_done n : Z) (data : DataPayload) (from : SocketAddr)
    (l : Listener) : outcome (Listener * list ListenerAct) :=
  let s := ls_state l in
  if bool_decide (rs_last_completed s = Some (d_test_id data)) then Ok (l, [])
  else
    let s := if bool_decide (rs_test_id s = Some (d_test_id data)) then s
             else mkRecv (Some (d_test_id data)) t_new 0 (rs_last_completed s) in
    let s := mkRecv (rs_test_id s) (rs_first_seen s) (wrap 64 (rs_bytes_seen s + n))
               (rs_last_completed s) in
    if negb (d_done data) then Ok (mkListener s (ls_ctx l), [])
    else
      let achieved_mbps := compute_achieved_mbps (rs_bytes_seen s)
                             (f64.as_secs_f64 (sat_sub t_done (rs_first_seen s))) in
      let s := mkRecv None (rs_first_seen s) (rs_bytes_seen s) (Some (d_test_id data)) in
      let '(x, delivered_locally) :=
        forward_leg (d_test_id data) (mkLeg achieved_mbps (sender_queue_drops data) None)
          (ls_ctx l) in
      if delivered_locally then Ok (mkListener s x, [])
      else
        result ← ResultPayload_encode (mkResultPayload (d_test_id data) (f64_as_f32 achieved_mbps));
        Ok (mkListener s x,
            SendReply result from ::
            if bidirectional_requested data
            then [SpawnStream (mkAddr (ip from) TUNNEL_TEST_PORT) (d_test_id data)
                    (nanos_of_secs (d_duration_secs data))]
            else []).

(** A turn of the loop of [run_listener]; the buffer cuts what is longer. *)
Definition listener_turn (t_new t_done : Z) (datagram : list Z) (from : SocketAddr) (l : Listener)
    : outcome (Listener * list ListenerAct) :=
  let buf := take MAX_APP_FRAME datagram in
  data ← DataPayload_decode buf;
  match data with
  | None => Ok (l, [])
  | Some data => listener_data t_new t_done (len buf) data from l
  end.

(** ** The test *)

Record TunnelTestOutcome := mkOutcome {
  upload_mbps : option f64;
  download_mbps : option f64;
  local_queue_drops : Z;
  peer_queue_drops : option Z;
  upload_retransmits : option Z;
  download_retransmits : option Z }.

(** [tokio::time::timeout] on something that comes after so long, if ever. *)
Definition within {A} (limit : Z) (a : option (Z * A)) : option A :=
  match a with Some (t, v) => if t <=? limit then Some v else None | None => None end.

(** [run_test] after its wait was registered, with the readings of the drop
    counter around the stream: what it makes of the first datagram that answers
    (read into a buffer of a result's size) and of the first result the channel
    gives. [bound] tells whether it got a socket. *)
Definition run_test (bound : bool) (test_id duration : Z) (bidirectional : bool)
    (drops_before drops_after : Z) (answer : option (Z * list Z))
    (download : option (Z * TunnelTestLegResult)) : outcome TunnelTestOutcome :=
  if negb bound then Ok (mkOutcome None None 0 None None None)
  else
    upload ←
      match within (duration + RESULT_GRACE) answer with
      | None => Ok None
      | Some datagram =>
          r ← ResultPayload_decode (take RESULT_LEN datagram);
          Ok (match r with
              | Some r => if r_test_id r =? test_id then Some (f32_as_f64 (r_achieved_mbps r))
                          else None
              | None => None
              end)
      end;
    let down := if bidirectional then within (duration * 2 + RESULT_GRACE * 2) download
                else None in
    Ok (mkOutcome upload (leg_achieved_mbps <$> down) (sat_sub drops_after drops_before)
          (leg_peer_queue_drops <$> down) None None).

(** ** Over TCP *)

(** What the kernel answers to the sending side: the connection, the header,
    how many chunks went out before the deadline with the shutdown in time
    ([None] for an error or a timeout), its retransmissions, and the bytes
    of the reply with the time they took. *)
Record TcpAnswers := mkTcpAnswers {
  connected : bool;
  header_written : bool;
  chunks_written : option nat;
  kernel_retransmits : Z;
  tcp_reply : option (Z * list Z) }.

Definition CHUNK_LEN : Z := 65536.

(** The header it writes, how many bytes follow it, and what it returns. *)
Definition run_tcp_upload_leg (test_id duration : Z) (bidir : bool) (a : TcpAnswers)
    : outcome (list Z * Z * option (f64 * Z)) :=
  if negb (connected a) then Ok ([], 0, None)
  else
    header ← encode_tcp_header test_id bidir (wrap 32 (duration / nanos_of_secs 1));
    if negb (header_written a) then Ok (header, 0, None)
    else
      match chunks_written a with
      | None => Ok (header, 0, None)
      | Some n =>
          match within (duration + RESULT_GRACE) (tcp_reply a) with
          | None => Ok (header, CHUNK_LEN * Z.of_nat n, None)
          | Some buf =>
              r ← TcpResultPayload_decode buf;
              Ok (header, CHUNK_LEN * Z.of_nat n,
                  match r with
                  | Some r => Some (tcp_achieved_mbps r, kernel_retransmits a)
                  | None => None
                  end)
          end
      end.

(** The reads up to the end of the stream: their lengths, an error being
    [None]; the total, if the end came before an error or the timeout. *)
Fixpoint read_to_eof (reads : list (option Z)) (bytes_read : Z) : option Z :=
  match reads with
  | Some 0 :: _ => Some bytes_read
  | Some n :: reads => read_to_eof reads (wrap 64 (bytes_read + n))
  | None :: _ | [] => None
  end.

(** The new registry, the reply, and the reverse leg to start. *)
Definition handle_tcp_incoming (header : option (list Z)) (start t_done : Z)
    (reads : list (option Z)) (x : TunnelTestContext)
    : outcome (TunnelTestContext * option (list Z) * option (Z * bool * Z)) :=
  match header with
  | None => Ok (x, None, None)
  | Some header =>
      h ← decode_tcp_header header;
      match h with
      | None => Ok (x, None, None)
      | Some (test_id, bidir, duration_secs) =>
          match read_to_eof reads 0 with
          | None => Ok (x, None, None)
          | Some bytes_read =>
              let achieved_mbps := compute_achieved_mbps bytes_read
                                     (f64.as_secs_f64 (sat_sub t_done start)) in
              let '(x, delivered_locally) :=
                forward_leg test_id (mkLeg achieved_mbps 0 None) x in
              if delivered_locally then Ok (x, None, None)
              else
                reply ← TcpResultPayload_encode (mkTcpResult achieved_mbps 0);
                Ok (x, Some reply, Some (test_id, bidir, duration_secs))
          end
      end
  end.

(** The leg [run_tcp_listener] starts after a connection: where to, its test
    and its duration; it never asks for another. *)
Definition tcp_reverse_leg (peer : SocketAddr) (h : option (Z * bool * Z))
    : option (SocketAddr * Z * Z) :=
  match h with
  | Some (test_id, true, duration_secs) =>
      Some (mkAddr (ip peer) TUNNEL_TEST_PORT, test_id, nanos_of_secs duration_secs)
  | _ => None
  end.

Definition run_tcp_test (duration : Z) (bidirectional : bool) (upload : option (f64 * Z))
    (download : option (Z * TunnelTestLegResult)) : TunnelTestOutcome :=
  let down := if bidirectional then within (duration * 2 + RESULT_GRACE * 2) download else None in
  mkOutcome (fst <$> upload) (leg_achieved_mbps <$> down) 0 None (snd <$> upload)
    (down ≫= leg_retransmits).

(** ** Codecs *)

Lemma copy_mid {A} (a old src c : list A) i j :
  i = length a → j = (i + length old)%nat → length src = length old →
  copy_from_slice (a ++ old ++ c) i j src = Ok (a ++ src ++ c).
Proof.
  intros -> -> Hs. rewrite copy_ok by (rewrite ?length_app; lia).
  rewrite take_app_length. rewrite <-drop_drop, drop_app_length, drop_app_length. done.
Qed.

Lemma slice_front {A} (s post : list A) j : length s = j → slice (s ++ post) 0 j = Ok s.
Proof. intros H. by apply (slice_mid [] s). Qed.

Definition data_flags (p : DataPayload) : Z :=
  (if d_done p then 1 else 0) + (if bidirectional_requested p then 2 else 0).

(** The header of a packet, before its padding. *)
Definition data_header (p : DataPayload) : list Z :=
  u32_to_be (d_test_id p) ++ [data_flags p] ++ u32_to_be (d_duration_secs p)
  ++ u64_to_be (sender_queue_drops p).

Lemma data_header_length p : length (data_header p) = HEADER_LEN.
Proof. unfold data_header, u32_to_be, u64_to_be. by rewrite !length_app, !length_to_be. Qed.

Lemma data_encoded p n :
  DataPayload_encode_padded p n = Ok (data_header p ++ replicate (n - HEADER_LEN) 0).
Proof.
  unfold DataPayload_encode_padded, data_header, u32_to_be, u64_to_be.
  replace (Nat.max n HEADER_LEN) with (HEADER_LEN + (n - HEADER_LEN))%nat by lia.
  rewrite replicate_add. generalize (replicate (n - HEADER_LEN) 0). intros pad.
  change (replicate HEADER_LEN 0) with ([] ++ replicate 4 0 ++ ([0] ++ replicate 4 0 ++ replicate 8 0)).
  rewrite <-!(assoc_L (++)).
  rewrite copy_mid by (rewrite ?length_to_be; done). cbn [mbind outcome_bind].
  rewrite app_nil_l.
  rewrite set_idx_ok by (rewrite !length_app, !length_to_be; cbn; lia). cbn [mbind outcome_bind].
  rewrite insert_app_r_alt by (rewrite length_to_be; lia). rewrite length_to_be. cbn [Nat.sub insert list_insert app].
  set (flag := if bidirectional_requested p then _ else _).
  assert (flag = data_flags p) as -> by (by unfold flag, data_flags; destruct (d_done p), (bidirectional_requested p)).
  change (data_flags p :: replicate 4 0 ++ replicate 8 0 ++ pad)
    with ([data_flags p] ++ (replicate 4 0 ++ replicate 8 0 ++ pad)).
  rewrite (assoc_L (++) (to_be 4 _) [_]).
  rewrite copy_mid by (rewrite ?length_app, ?length_to_be; done). cbn [mbind outcome_bind].
  rewrite (assoc_L (++) (to_be 4 _ ++ [_])).
  rewrite copy_mid by (rewrite ?length_app, ?length_to_be; done).
  by rewrite <-!(assoc_L (++)).
Qed.

Definition data_fits (p : DataPayload) : Prop :=
  fits 32 (d_test_id p) ∧ fits 32 (d_duration_secs p) ∧ fits 64 (sender_queue_drops p).

Lemma data_decoded p rest : data_fits p → DataPayload_decode (data_header p ++ rest) = Ok (Some p).
Proof.
  intros (Hi & Hs & Hd). unfold DataPayload_decode.
  rewrite bool_decide_false by (rewrite length_app, data_header_length; lia).
  unfold data_header, u32_to_be, u64_to_be. rewrite <-!(assoc_L (++)).
  erewrite idx_Some; [|rewrite lookup_app_r by (rewrite length_to_be; lia); by rewrite length_to_be].
  cbn [mbind outcome_bind].
  rewrite slice_front by (rewrite ?length_to_be; done).
  cbn [mbind outcome_bind].
  rewrite (assoc_L (++) (to_be 4 _) [_]).
  rewrite (slice_mid _ _ _ 5 9) by (rewrite ?length_app, ?length_to_be; done). cbn [mbind outcome_bind].
  rewrite (assoc_L (++) (to_be 4 _ ++ [_])).
  rewrite (slice_mid _ _ _ 9 17) by (rewrite ?length_app, ?length_app, ?length_to_be; done). cbn [mbind outcome_bind].
  rewrite !from_to_be by done. destruct p as [? [] [] ? ?]; done.
Qed.

Lemma result_roundtrip id mbps :
  fits 32 id →
  ∃ b, ResultPayload_encode (mkResultPayload id mbps) = Ok b ∧
    ResultPayload_decode (take RESULT_LEN b) = Ok (Some (mkResultPayload id (wrap 32 mbps))).
Proof.
  intros Hi. unfold ResultPayload_encode, u32_to_be.
  change (replicate RESULT_LEN 0) with ([] ++ replicate 4 0 ++ replicate 4 0).
  rewrite copy_mid by (rewrite ?length_to_be; done). cbn [mbind outcome_bind r_test_id r_achieved_mbps app].
  pose proof (copy_mid (to_be 4 id) (replicate 4 0) (to_be 4 mbps) [] 4 8) as E.
  rewrite !app_nil_r in E. rewrite E by (rewrite ?length_to_be; done). eexists. split; [done|].
  rewrite firstn_all2 by (rewrite length_app, !length_to_be; done).
  unfold ResultPayload_decode. rewrite bool_decide_false by (rewrite length_app, !length_to_be; cbn; lia).
  rewrite slice_front by (rewrite ?length_to_be; done). cbn [mbind outcome_bind].
  pose proof (slice_mid (to_be 4 id) (to_be 4 mbps) [] 4 8) as E2. rewrite app_nil_r in E2.
  rewrite E2 by (rewrite ?length_to_be; done). cbn [mbind outcome_bind].
  rewrite from_to_be by done. rewrite from_to_be_mod. done.
Qed.

(** ** The stream ends as it should *)

Lemma below_fle x y k : wf x = true → wf y = true → nonneg x → below k y → fle x y → below k x.
Proof.
  intros Wx Wy [(s & ->)|[-> |(m & e & ->)]]%nonneg_cases Hy Hle; [done| |].
  - by destruct y as [[]|[]| |[]].
  - cbn [below]. destruct (Z.le_gt_cases (Zdigits2 (Z.pos m) + e) k) as [H|H]; [done|].
    pose proof (above_fle _ _ k Wx Wy H Hle) as Ha. destruct y as [|[]| |[] my ey]; try done.
    cbn [above below] in *. lia.
Qed.

Lemma secs_wf ns : wf (f64.as_secs_f64 ns) = true.
Proof. apply add_wf; [apply of_Z_wf|apply div_wf]. Qed.

Lemma bits_below bytes :
  0 ≤ bytes < 2 ^ 47 → below 53 (f64.of_Z bytes * f64.of_Z 8)%f64 ∧ nonneg (f64.of_Z bytes * f64.of_Z 8)%f64.
Proof.
  intros Hb. split.
  - change 53 with (48 + 4 + 1). apply mul_below; [apply of_Z_wf|by vm_compute| |by vm_compute|lia].
    change 48 with (47 + 1). apply of_Z_below; lia.
  - destruct (Z.eq_dec bytes 0) as [-> |]; [by vm_compute|].
    destruct (of_Z_value bytes) as (m & e & E & _); [lia|].
    apply nonneg_mul; [rewrite E; by exists m, e|by vm_compute].
Qed.

(** The sleep the pace asks for is always a duration. *)
Lemma pace_returns start now bytes :
  0 ≤ bytes < 2 ^ 47 → ∃ naps, pace start now bytes = Ok (Nap <$> naps).
Proof.
  intros Hb. unfold pace. destruct (bits_below bytes Hb) as [Hbits Nbits].
  set (bits := (f64.of_Z bytes * f64.of_Z 8)%f64) in *. clearbody bits.
  set (rate := (MAX_SEND_RATE_MBPS * f64.of_Z 1000000)%f64).
  set (elapsed := f64.as_secs_f64 (sat_sub now start)).
  destruct (elapsed <? bits / rate)%f64 eqn:E; [|by exists []].
  assert (below 27 (bits / rate)%f64) as Bi.
  { change 27 with (53 - 27 + 1). apply div_below; [done|by vm_compute|lia]. }
  assert (wf elapsed = true) as We by apply secs_wf.
  assert (nonneg elapsed) as Ne by (apply nonneg_secs; unfold sat_sub; lia).
  assert (fle elapsed (bits / rate)%f64) as Hle by by apply flt_le.
  assert (wf (bits / rate)%f64 = true) as Wi by apply div_wf.
  pose proof (below_fle _ _ 27 We Wi Ne Bi Hle) as Be.
  destruct (from_secs_returns (bits / rate - elapsed)%f64) as (ns & ->).
  - apply nonneg_sub; try done; by eapply below_finite.
  - pose proof (sub_below _ _ 27 ltac:(lia) Bi Be) as Hs.
    destruct (bits / rate - elapsed)%f64; try done. cbn [below] in *. lia.
  - by apply sub_wf.
  - by exists [ns].
Qed.

Definition datagrams (acts : list StreamAct) : list (list Z) :=
  omap (λ a, match a with SendDatagram p => Some p | Nap _ => None end) acts.

Lemma datagrams_naps ns acts : datagrams ((Nap <$> ns) ++ acts) = datagrams acts.
Proof. induction ns as [|n ns IH]; [done|]. exact IH. Qed.

Definition stream_packet (p : DataPayload) (r : Round) : list Z :=
  data_header p ++ replicate (payload_len (s_mtu r) - HEADER_LEN) 0.

(** The rounds before the deadline, and the one that met it. *)
Fixpoint until_deadline (deadline : Z) (rounds : list Round) : list Round * option Round :=
  match rounds with
  | [] => ([], None)
  | r :: rounds =>
      if deadline <=? s_now r then ([], Some r)
      else let '(a, b) := until_deadline deadline rounds in (r :: a, b)
  end.

Lemma stream_packet_length p r : len (stream_packet p r) = Z.of_nat (payload_len (s_mtu r)).
Proof.
  unfold len, stream_packet, payload_len.
  rewrite length_app, data_header_length, length_replicate. lia.
Qed.

Lemma send_loop_packets deadline start id duration bidir before rounds b :
  Forall (λ r, s_mtu r < 2 ^ 16) rounds → 0 ≤ b → b + 2 ^ 16 * len rounds < 2 ^ 47 →
  ∃ acts, send_loop deadline start id duration bidir before rounds b =
            Ok (acts, bool_decide (is_Some (until_deadline deadline rounds).2)) ∧
    datagrams acts =
      map (λ r, stream_packet (round_payload id duration bidir before false r) r)
        (until_deadline deadline rounds).1 ++
      match (until_deadline deadline rounds).2 with
      | Some r => replicate 5 (stream_packet (round_payload id duration bidir before true r) r)
      | None => []
      end.
Proof.
  intros Hr. revert b. induction Hr as [|r rounds Hm Hr IH]; intros b Hb Hs; [by exists []|].
  assert (len (r :: rounds) = len rounds + 1) as El by (unfold len; cbn [length]; lia).
  assert (0 ≤ len rounds) by (unfold len; lia).
  cbn [send_loop until_deadline]. rewrite data_encoded. cbn [mbind outcome_bind].
  fold (stream_packet (round_payload id duration bidir before (deadline <=? s_now r) r) r).
  destruct (deadline <=? s_now r) eqn:Ed; [by eexists|].
  rewrite stream_packet_length.
  assert (Z.of_nat (payload_len (s_mtu r)) ≤ 2 ^ 16).
  { unfold payload_len, sat_sub, HEADER_LEN. lia. }
  rewrite wrap_small by (unfold fits; lia).
  destruct (pace_returns start (s_after r) (b + Z.of_nat (payload_len (s_mtu r)))) as (ns & ->); [lia|].
  cbn [mbind outcome_bind].
  destruct (IH (b + Z.of_nat (payload_len (s_mtu r)))) as (acts & -> & Hp); [lia..|].
  cbn [mbind outcome_bind]. destruct (until_deadline deadline rounds) as [rs o]. cbn [fst snd] in *.
  eexists. split; [done|]. change (datagrams (SendDatagram ?p :: ?l)) with (p :: datagrams l).
  rewrite datagrams_naps, Hp. done.
Qed.

(** ** A stream is measured once *)

(** A datagram as it arrives, with the readings of the clock. *)
Record Arrival := mkArrive { t_new : Z; t_done : Z; datagram : list Z }.

Fixpoint feed_listener (from : SocketAddr) (rx : list Arrival) (l : Listener)
    : outcome (Listener * list ListenerAct) :=
  match rx with
  | [] => Ok (l, [])
  | a :: rx =>
      '(l, acts) ← listener_turn (t_new a) (t_done a) (datagram a) from l;
      '(l, acts') ← feed_listener from rx l;
      Ok (l, acts ++ acts')
  end.

Definition read_len (a : Arrival) : Z := len (take MAX_APP_FRAME (datagram a)).
Definition bytes_read (l : list Arrival) : Z := foldr (λ a t, read_len a + t) 0 l.

(** The rate of a stream of which the data packets [ds] and then a first final
    packet [f] arrived. *)
Definition leg_rate (ds : list Arrival) (f : Arrival) : f64 :=
  compute_achieved_mbps (wrap 64 (bytes_read ds + read_len f))
    (f64.as_secs_f64 (sat_sub (t_done f) (match ds with d :: _ => t_new d | [] => t_new f end))).

(** The arrival carries this payload. *)
Definition carries (p : DataPayload) (a : Arrival) : Prop :=
  ∃ pad, datagram a = data_header p ++ pad.

Lemma listener_turn_data p a from l :
  data_fits p → carries p a →
  listener_turn (t_new a) (t_done a) (datagram a) from l =
  listener_data (t_new a) (t_done a) (read_len a) p from l.
Proof.
  intros Hf [pad E]. unfold listener_turn, read_len. rewrite E.
  rewrite (take_app_ge (data_header p)) by (rewrite data_header_length; unfold HEADER_LEN, MAX_APP_FRAME; lia).
  rewrite data_decoded by done. done.
Qed.

(** The redundant copies of a finished stream change nothing. *)
Lemma feed_finished_stream id from rx l :
  rs_last_completed (ls_state l) = Some id →
  Forall (λ a, ∃ p, data_fits p ∧ d_test_id p = id ∧ carries p a) rx →
  feed_listener from rx l = Ok (l, []).
Proof.
  intros Hl Hrx. induction Hrx as [|a rx (p & Hf & Hid & Hc) _ IH]; [done|]. cbn [feed_listener].
  rewrite (listener_turn_data _ _ _ _ Hf Hc). unfold listener_data.
  rewrite bool_decide_true by (by rewrite Hid). cbn [mbind outcome_bind]. by rewrite IH.
Qed.

(** A stream in progress takes the data packets in. *)
Lemma feed_data_packets id from ds rest first b lc x :
  lc ≠ Some id →
  Forall (λ a, ∃ p, data_fits p ∧ d_test_id p = id ∧ d_done p = false ∧ carries p a) ds →
  feed_listener from (ds ++ rest) (mkListener (mkRecv (Some id) first (wrap 64 b) lc) x) =
  feed_listener from rest
    (mkListener (mkRecv (Some id) first (wrap 64 (b + bytes_read ds)) lc) x).
Proof.
  intros Hlc Hd. revert b. induction Hd as [|a ds (p & Hf & Hid & Hdone & Hc) _ IH]; intros b.
  { cbn. by rewrite Z.add_0_r. }
  cbn [app feed_listener]. rewrite (listener_turn_data _ _ _ _ Hf Hc). unfold listener_data.
  cbn [ls_state rs_last_completed rs_test_id].
  rewrite bool_decide_false by (by rewrite Hid). rewrite bool_decide_true by (by rewrite Hid).
  cbn [rs_test_id rs_first_seen rs_bytes_seen rs_last_completed ls_ctx]. rewrite Hdone. cbn [negb mbind outcome_bind].
  rewrite wrap_add_l, IH. cbn [bytes_read foldr]. fold (bytes_read ds). rewrite Z.add_assoc.
  destruct (feed_listener _ _ _) as [[l acts]| |]; done.
Qed.

(** What the listener makes of a finished stream: a result for who waits for
    it, or a reply with the rate and, if asked for, a stream back. *)
Definition answered (q : DataPayload) (rate : f64) (from : SocketAddr) (x : TunnelTestContext)
    (x' : TunnelTestContext) (acts : list ListenerAct) : Prop :=
  let '(x1, delivered) := forward_leg (d_test_id q) (mkLeg rate (sender_queue_drops q) None) x in
  x' = x1 ∧
  if delivered then acts = []
  else ∃ reply,
    ResultPayload_decode (take RESULT_LEN reply) =
      Ok (Some (mkResultPayload (d_test_id q) (wrap 32 (f64_as_f32 rate)))) ∧
    acts = SendReply reply from ::
      if bidirectional_requested q
      then [SpawnStream (mkAddr (ip from) TUNNEL_TEST_PORT) (d_test_id q)
              (nanos_of_secs (d_duration_secs q))]
      else [].

Lemma feed_final q f fs from first b lc x :
  lc ≠ Some (d_test_id q) → data_fits q → d_done q = true → Forall (carries q) (f :: fs) →
  ∃ l' acts, feed_listener from (f :: fs) (mkListener (mkRecv (Some (d_test_id q)) first (wrap 64 b) lc) x)
      = Ok (l', acts) ∧
    answered q (compute_achieved_mbps (wrap 64 (b + read_len f))
                  (f64.as_secs_f64 (sat_sub (t_done f) first))) from x (ls_ctx l') acts.
Proof.
  intros Hlc Hf Hdone [Hc Hcs]%Forall_cons.
  assert (∀ l, rs_last_completed (ls_state l) = Some (d_test_id q) →
    feed_listener from fs l = Ok (l, [])) as Hrest.
  { intros l Hl. apply (feed_finished_stream (d_test_id q)); [done|].
    eapply Forall_impl; [exact Hcs|]. intros a Ha. by exists q. }
  cbn [feed_listener]. rewrite (listener_turn_data _ _ _ _ Hf Hc). unfold listener_data.
  cbn [ls_state rs_last_completed rs_test_id].
  rewrite bool_decide_false by done. rewrite bool_decide_true by done.
  cbn [rs_test_id rs_first_seen rs_bytes_seen rs_last_completed ls_ctx].
  rewrite Hdone, wrap_add_l. cbn [negb]. unfold answered.
  set (rate := compute_achieved_mbps _ _).
  destruct (forward_leg _ _ x) as [x1 []]; cbn [mbind outcome_bind].
  - rewrite Hrest by done. cbn [mbind outcome_bind]. by eexists _, _.
  - destruct (result_roundtrip (d_test_id q) (f64_as_f32 rate)) as (reply & -> & Hr); [apply Hf|].
    cbn [mbind outcome_bind]. rewrite Hrest by done. cbn [mbind outcome_bind]. rewrite app_nil_r.
    eexists _, _. split; [done|]. split; [done|]. by exists reply.
Qed.

Lemma listener_stream q ds fs from l :
  rs_last_completed (ls_state l) ≠ Some (d_test_id q) → rs_test_id (ls_state l) ≠ Some (d_test_id q) →
  Forall (λ a, ∃ p, data_fits p ∧ d_test_id p = d_test_id q ∧ d_done p = false ∧ carries p a) ds →
  data_fits q → d_done q = true → Forall (carries q) fs →
  ∃ l' acts, feed_listener from (ds ++ fs) l = Ok (l', acts) ∧
    match fs with
    | [] => ls_ctx l' = ls_ctx l ∧ acts = []
    | f :: _ => answered q (leg_rate ds f) from (ls_ctx l) (ls_ctx l') acts
    end.
Proof.
  intros Hl Ht Hd Hf Hdone Hfs. set (id := d_test_id q) in *.
  assert (∀ p a, data_fits p → d_test_id p = id → carries p a →
    listener_turn (t_new a) (t_done a) (datagram a) from l =
    listener_turn (t_new a) (t_done a) (datagram a) from
      (mkListener (mkRecv (Some id) (t_new a) (wrap 64 0) (rs_last_completed (ls_state l))) (ls_ctx l)))
    as Hstart.
  { intros p a Hp Hid Hc. rewrite !(listener_turn_data p) by done. unfold listener_data.
    cbn [ls_state rs_last_completed rs_test_id]. rewrite Hid.
    rewrite !(bool_decide_false (_ = Some id)) by done. by rewrite bool_decide_true. }
  destruct ds as [|d ds].
  - destruct fs as [|f fs]; [by eexists l, []|]. cbn [app feed_listener].
    rewrite (Hstart q f); [|done..|by apply Forall_cons in Hfs as [? _]].
    apply (feed_final q f fs from (t_new f) 0); done.
  - pose proof Hd as Hd'. apply Forall_cons in Hd' as [(p & Hp & Hid & _ & Hc) _].
    assert (feed_listener from ((d :: ds) ++ fs) l =
      feed_listener from ((d :: ds) ++ fs)
        (mkListener (mkRecv (Some id) (t_new d) (wrap 64 0) (rs_last_completed (ls_state l))) (ls_ctx l)))
      as ->.
    { cbn [app feed_listener]. by rewrite (Hstart p d). }
    rewrite feed_data_packets by done. rewrite Z.add_0_l.
    destruct fs as [|f fs]; [by eexists _, []|]. by apply feed_final.
Qed.

(** What arrives of a stream is data packets, and then copies of the last. *)
Lemma stream_arrivals id duration bidir before deadline rounds rx acts :
  fits 32 id →
  datagrams acts =
    map (λ r, stream_packet (round_payload id duration bidir before false r) r)
      (until_deadline deadline rounds).1 ++
    match (until_deadline deadline rounds).2 with
    | Some r => replicate 5 (stream_packet (round_payload id duration bidir before true r) r)
    | None => []
    end →
  sublist (datagram <$> rx) (datagrams acts) →
  ∃ ds fs, rx = ds ++ fs ∧
    Forall (λ a, ∃ p, data_fits p ∧ d_test_id p = id ∧ d_done p = false ∧ carries p a) ds ∧
    match (until_deadline deadline rounds).2 with
    | Some r => Forall (carries (round_payload id duration bidir before true r)) fs
    | None => fs = []
    end.
Proof.
  intros Hid -> Hsub. destruct (sublist_split datagram _ _ _ Hsub) as (ds & fs & -> & H1 & H2).
  exists ds, fs. split; [done|]. split.
  - apply (Forall_fmap datagram (λ b, ∃ p, data_fits p ∧ d_test_id p = id ∧ d_done p = false ∧ ∃ pad, b = data_header p ++ pad)).
    eapply sublist_Forall; [exact H1|]. apply Forall_fmap, Forall_true. intros r.
    eexists. split; [|split; [|split; [|by eexists]]]; [|done..].
    split; [done|]. split; [apply Z.mod_pos_bound; lia|]. unfold fits; cbn. lia.
  - destruct (until_deadline deadline rounds).2 as [r|].
    + apply (Forall_fmap datagram (λ b, ∃ pad, b = data_header (round_payload id duration bidir before true r) ++ pad)).
      eapply sublist_Forall; [exact H2|]. apply Forall_replicate. by eexists.
    + by apply sublist_nil_r, fmap_nil_inv in H2.
Qed.

(** A listener that is not at this test and has not just completed it. *)
Definition fresh_for (id : Z) (l : Listener) : Prop :=
  rs_last_completed (ls_state l) ≠ Some id ∧ rs_test_id (ls_state l) ≠ Some id.

(** The readings of a stream: the MTU and the drop counter at their widths,
    and fewer than 2^30 rounds. *)
Definition rounds_ok (before : Z) (rounds : list Round) : Prop :=
  0 ≤ before ∧ Forall (λ r, s_mtu r < 2 ^ 16 ∧ s_drops r < 2 ^ 64) rounds ∧ len rounds < 2 ^ 30.

Definition data_arrival (a : Arrival) : Prop := ∃ p, d_done p = false ∧ carries p a.
Definition final_arrival (a : Arrival) : Prop := ∃ p, d_done p = true ∧ carries p a.

(** The final packet of a stream. *)
Definition final_of (start id duration : Z) (bidir : bool) (before : Z) (rounds : list Round)
    : option DataPayload :=
  round_payload id duration bidir before true <$> (until_deadline (start + duration) rounds).2.

Lemma until_deadline_in deadline rounds r :
  (until_deadline deadline rounds).2 = Some r → r ∈ rounds.
Proof.
  induction rounds as [|r' rounds IH]; [done|]. cbn [until_deadline].
  destruct (_ <=? _); [intros [= <-]; left|].
  destruct (until_deadline deadline rounds) as [a b]. intros H. right. by apply IH.
Qed.

Lemma final_fits start id duration bidir before rounds q :
  fits 32 id → rounds_ok before rounds → final_of start id duration bidir before rounds = Some q →
  data_fits q ∧ d_test_id q = id ∧ d_done q = true ∧ bidirectional_requested q = bidir ∧
  d_duration_secs q = wrap 32 (duration / nanos_of_secs 1).
Proof.
  unfold final_of. intros Hid (Hb & Hr & _) Hq.
  destruct (until_deadline _ rounds).2 as [r|] eqn:E; [|done]. injection Hq as <-.
  apply until_deadline_in in E. rewrite Forall_forall in Hr. apply Hr in E as [_ Hd].
  split; [|done]. split; [done|]. split; [apply Z.mod_pos_bound; lia|].
  unfold fits; cbn. unfold sat_sub. lia.
Qed.

(** A stream sent at one end and what of it arrives at the other. *)
Lemma leg_measured start id duration bidir before rounds from l :
  fits 32 id → rounds_ok before rounds → fresh_for id l →
  ∃ sent, send_stream start id duration bidir before rounds =
      Ok (sent, bool_decide (is_Some (until_deadline (start + duration) rounds).2)) ∧
    ∀ rx, sublist (datagram <$> rx) (datagrams sent) →
      ∃ ds fs l' acts, rx = ds ++ fs ∧ Forall data_arrival ds ∧ Forall final_arrival fs ∧
        feed_listener from rx l = Ok (l', acts) ∧
        match fs with
        | [] => ls_ctx l' = ls_ctx l ∧ acts = []
        | f :: _ => ∃ q, final_of start id duration bidir before rounds = Some q ∧
            answered q (leg_rate ds f) from (ls_ctx l) (ls_ctx l') acts
        end.
Proof.
  intros Hid Hok [Hl Ht]. pose proof Hok as (Hb & Hr & Hlen). unfold send_stream.
  destruct (send_loop_packets (start + duration) start id duration bidir before rounds 0)
    as (sent & -> & Hp); [eapply Forall_impl; [exact Hr|]; cbn; lia|lia|lia|].
  exists sent. split; [done|]. intros rx Hsub.
  destruct (stream_arrivals _ _ _ _ _ _ _ _ Hid Hp Hsub) as (ds & fs & -> & Hds & Hfs).
  pose proof (final_fits start id duration bidir before rounds) as Hq. unfold final_of in *.
  destruct (until_deadline (start + duration) rounds).2 as [r|].
  - destruct (Hq _ Hid Hok eq_refl) as (Hf & Hqi & Hdone & _).
    destruct (listener_stream (round_payload id duration bidir before true r) ds fs from l)
      as (l' & acts & Hfeed & Hm); try done.
    exists ds, fs, l', acts. split; [done|].
    split; [eapply Forall_impl; [exact Hds|]; intros a (p & _ & _ & ? & ?); by exists p|].
    split; [eapply Forall_impl; [exact Hfs|]; intros a Ha; by eexists|].
    split; [done|]. destruct fs; [done|]. by eexists.
  - subst fs.
    destruct (listener_stream (mkData id true bidir 0 0) ds [] from l) as (l' & acts & Hfeed & Hm);
      try done.
    exists ds, [], l', acts. split; [done|].
    split; [eapply Forall_impl; [exact Hds|]; intros a (p & _ & _ & ? & ?); by exists p|]. done.
Qed.

Definition leg_content (x : TunnelTestContext) (c : nat) : option (list TunnelTestLegResult) :=
  leg_sent <$> leg_channels x !! c.

(** A result that is forwarded reaches who registered, and nobody else's entry
    is touched. *)
Lemma registered_forward id x r :
  let '(x1, c) := register_leg id x in
  leg_content x1 c = Some [] ∧
  (forward_leg id r x1).2 = true ∧ leg_content (forward_leg id r x1).1 c = Some [r].
Proof.
  unfold register_leg, forward_leg, leg_content. cbn. rewrite lookup_insert_eq. cbn.
  rewrite list_lookup_alter_eq, lookup_app_r, Nat.sub_diag by done. done.
Qed.

Lemma spawned_duration secs : fits 32 secs → wrap 32 (nanos_of_secs secs / nanos_of_secs 1) = secs.
Proof.
  intros H. unfold nanos_of_secs. rewrite Z.mul_1_l, Z.div_mul by lia. by apply wrap_small.
Qed.

(** C20. A test measures both directions. A node that tests its peer for some
    seconds sends a stream without a panic; whatever part of it arrives in
    order, a peer that is not at this test answers nothing until one of the
    final copies is there, and then once: with the rate of what arrived, and with
    a stream of its own to the node's listener, as long and without a request,
    if that was asked for. Whatever arrives of that one, the node's listener
    answers nothing; the first final copy gives the waiting test its one
    result, with the drops of the peer's queue; and the outcome of the test is
    those two rates. *)
Theorem self_test_measures id secs bidir start start' before before' rounds rounds' la lb from back :
  let duration := nanos_of_secs secs in
  fits 32 id → fits 32 secs → rounds_ok before rounds → rounds_ok before' rounds' →
  fresh_for id la → fresh_for id lb → leg_waiters (ls_ctx lb) !! id = None →
  let '(xa, c) := register_leg id (ls_ctx la) in
  ∃ up down fin fin',
    send_stream start id duration bidir before rounds = Ok (up, fin) ∧
    send_stream start' id duration false before' rounds' = Ok (down, fin') ∧
    ∀ rx, sublist (datagram <$> rx) (datagrams up) →
    ∃ ds fs lb' acts, rx = ds ++ fs ∧ Forall data_arrival ds ∧ Forall final_arrival fs ∧
      feed_listener from rx lb = Ok (lb', acts) ∧
      match fs with
      | [] => acts = []
      | f :: _ => ∃ reply,
          acts = SendReply reply from ::
            (if bidir then [SpawnStream (mkAddr (ip from) TUNNEL_TEST_PORT) id duration] else []) ∧
          ∀ rx', sublist (datagram <$> rx') (datagrams down) →
          ∃ ds' fs' la', rx' = ds' ++ fs' ∧ Forall data_arrival ds' ∧ Forall final_arrival fs' ∧
            feed_listener back rx' (mkListener (ls_state la) xa) = Ok (la', []) ∧
            ∃ got, leg_content (ls_ctx la') c = Some got ∧
            match fs' with
            | [] => got = []
            | f' :: _ => ∃ q, final_of start' id duration false before' rounds' = Some q ∧
                got = [mkLeg (leg_rate ds' f') (sender_queue_drops q) None] ∧
                ∀ t t' after, t ≤ duration + RESULT_GRACE → t' ≤ duration * 2 + RESULT_GRACE * 2 →
                run_test true id duration bidir before after (Some (t, reply)) ((λ r, (t', r)) <$> head got) =
                Ok (mkOutcome (Some (f32_as_f64 (wrap 32 (f64_as_f32 (leg_rate ds f)))))
                      (if bidir then Some (leg_rate ds' f') else None) (sat_sub after before)
                      (if bidir then Some (sender_queue_drops q) else None) None None)
            end
      end.
Proof.
  intros duration Hid Hsecs Hok Hok' Ha Hb Hnone.
  pose proof (registered_forward id (ls_ctx la)) as Hreg.
  destruct (register_leg id (ls_ctx la)) as [xa c].
  destruct (leg_measured start id duration bidir before rounds from lb Hid Hok Hb) as (up & Hup & Hrx).
  destruct (leg_measured start' id duration false before' rounds' back (mkListener (ls_state la) xa)
              Hid Hok' Ha) as (down & Hdown & Hrx').
  exists up, down. do 2 eexists. split; [exact Hup|]. split; [exact Hdown|].
  intros rx Hsub. destruct (Hrx rx Hsub) as (ds & fs & lb' & acts & Hsplit & Hds & Hfs & Hfeed & Hm).
  exists ds, fs, lb', acts. do 4 (split; [done|]). destruct fs as [|f fs]; [by destruct Hm|].
  destruct Hm as (q & Hq & Hans).
  destruct (final_fits _ _ _ _ _ _ _ Hid Hok Hq) as (_ & Hqi & _ & Hbd & Hqs).
  unfold answered, forward_leg in Hans. rewrite Hqi, Hnone, Hbd, Hqs in Hans.
  unfold duration in Hans. rewrite spawned_duration in Hans by done.
  destruct Hans as (_ & reply & Hreply & Hacts).
  exists reply. split; [exact Hacts|]. intros rx' Hsub'.
  destruct (Hrx' rx' Hsub') as (ds' & fs' & la' & acts' & Hsplit' & Hds' & Hfs' & Hfeed' & Hm').
  exists ds', fs', la'. do 3 (split; [done|]).
  destruct fs' as [|f' fs'].
  { destruct Hm' as [Hctx ->]. split; [done|]. exists []. split; [|done]. rewrite Hctx. apply (Hreg (mkLeg f64.zero 0 None)). }
  destruct Hm' as (q' & Hq' & Hans').
  destruct (final_fits _ _ _ _ _ _ _ Hid Hok' Hq') as (_ & Hqi' & _).
  unfold answered in Hans'. rewrite Hqi' in Hans'. cbn [ls_ctx] in Hans'.
  pose proof (Hreg (mkLeg (leg_rate ds' f') (sender_queue_drops q') None)) as (_ & Hdel & Hcon).
  destruct (forward_leg _ _ xa) as [x1 d]. cbn [fst snd] in *. subst d.
  destruct Hans' as [Hx ->]. split; [done|]. eexists. rewrite Hx. split; [exact Hcon|].
  exists q'. split; [done|]. split; [done|]. intros t t' after Ht Ht'.
  unfold run_test, within. cbn [negb head fmap option_fmap option_map].
  rewrite (proj2 (Z.leb_le _ _) Ht), (proj2 (Z.leb_le _ _) Ht'), Hreply. cbn.
  rewrite Z.eqb_refl. by destruct bidir.
Qed.

(** ** Over TCP *)

Lemma f64_bits_fits x : wf x = true → fits 64 (f64_to_bits x).
Proof.
  unfold fits, f64_to_bits. destruct x as [[]|[]| |s m e]; try (intros _; lia).
  intros Hw. pose proof (wf_bounds _ _ _ Hw) as (He & Hm & He').
  cbn [valid_binary] in Hw. apply andb_true_iff in Hw as [_ Hmax%Z.leb_le]. unfold f64.emax, f64.prec in Hmax.
  destruct (Z.ltb_spec (Z.pos m) (2 ^ 52)); destruct s; lia.
Qed.

Lemma f64_bits_roundtrip x : wf x = true → f64_from_bits (f64_to_bits x) = x.
Proof.
  destruct x as [[]|[]| |s m e]; [intros _; by vm_compute..|]. intros Hw.
  pose proof (wf_bounds _ _ _ Hw) as (He & Hm & He').
  cbn [valid_binary] in Hw. apply andb_true_iff in Hw as [_ Hmax%Z.leb_le]. unfold f64.emax, f64.prec in Hmax.
  unfold f64_to_bits, f64_from_bits.
  destruct (Z.ltb_spec (Z.pos m) (2 ^ 52)) as [Hs|Hs].
  - assert (e = -1074) as -> by lia. destruct s.
    + rewrite (proj2 (Z.leb_le _ _)) by lia.
      replace (((2 ^ 63 + Z.pos m) / 2 ^ 52) mod 2048) with 0 by (Z.to_euclidean_division_equations; lia).
      replace ((2 ^ 63 + Z.pos m) mod 2 ^ 52) with (Z.pos m) by (Z.to_euclidean_division_equations; lia). done.
    + rewrite (proj2 (Z.leb_gt _ _)) by lia.
      replace (((0 + Z.pos m) / 2 ^ 52) mod 2048) with 0 by (Z.to_euclidean_division_equations; lia).
      replace ((0 + Z.pos m) mod 2 ^ 52) with (Z.pos m) by (Z.to_euclidean_division_equations; lia). done.
  - set (sg := if s then 2 ^ 63 else 0).
    set (b := sg + ((e + 1075) * 2 ^ 52 + (Z.pos m - 2 ^ 52))).
    assert ((b / 2 ^ 52) mod 2048 = e + 1075) as -> by (subst b sg; destruct s; Z.to_euclidean_division_equations; lia).
    assert (b mod 2 ^ 52 = Z.pos m - 2 ^ 52) as -> by (subst b sg; destruct s; Z.to_euclidean_division_equations; lia).
    assert ((2 ^ 63 <=? b) = s) as ->.
    { subst b sg. destruct s; [apply Z.leb_le|apply Z.leb_gt]; lia. }
    rewrite !(proj2 (Z.eqb_neq _ _)) by lia. rewrite Z.sub_add. f_equal. lia.
Qed.

Lemma tcp_header_roundtrip id bidir secs :
  fits 32 id → fits 32 secs →
  ∃ b, encode_tcp_header id bidir secs = Ok b ∧ length b = TCP_HEADER_LEN ∧
    decode_tcp_header b = Ok (Some (id, bidir, secs)).
Proof.
  intros Hi Hs. unfold encode_tcp_header, u32_to_be.
  change (replicate TCP_HEADER_LEN 0) with ([] ++ replicate 4 0 ++ ([0] ++ replicate 4 0)).
  rewrite copy_mid by (rewrite ?length_to_be; done). cbn [mbind outcome_bind]. rewrite app_nil_l.
  rewrite set_idx_ok by (rewrite !length_app, !length_to_be; cbn; lia). cbn [mbind outcome_bind].
  rewrite insert_app_r_alt by (rewrite length_to_be; lia). rewrite length_to_be.
  cbn [Nat.sub insert list_insert app]. set (flag := if bidir then _ else _).
  pose proof (copy_mid (to_be 4 id ++ [flag]) (replicate 4 0) (to_be 4 secs) [] 5 9) as E.
  rewrite <-!(assoc_L (++)), app_nil_r in E. cbn [app] in E. rewrite app_nil_r in E.
  match goal with |- context [copy_from_slice ?b 5 9 _] =>
    change b with (to_be 4 id ++ flag :: replicate 4 0) end.
  rewrite E by (rewrite ?length_app, ?length_to_be; done).
  eexists. split; [done|]. rewrite length_app, length_to_be. cbn [length]. rewrite length_to_be. split; [done|].
  unfold decode_tcp_header. rewrite bool_decide_false by (rewrite length_app; cbn [length]; rewrite !length_to_be; unfold TCP_HEADER_LEN; lia).
  rewrite slice_front by (rewrite ?length_to_be; done). cbn [mbind outcome_bind].
  erewrite idx_Some; [|rewrite lookup_app_r by (rewrite length_to_be; lia); by rewrite length_to_be].
  cbn [mbind outcome_bind].
  pose proof (slice_mid (to_be 4 id ++ [flag]) (to_be 4 secs) [] 5 9) as E2.
  rewrite <-!(assoc_L (++)), app_nil_r in E2. cbn [app] in E2.
  rewrite E2 by (rewrite ?length_app, ?length_to_be; done). cbn [mbind outcome_bind].
  rewrite !from_to_be by done. by destruct bidir.
Qed.

Lemma tcp_result_roundtrip mbps retrans :
  wf mbps = true → fits 32 retrans →
  ∃ b, TcpResultPayload_encode (mkTcpResult mbps retrans) = Ok b ∧
    TcpResultPayload_decode b = Ok (Some (mkTcpResult mbps retrans)).
Proof.
  intros Hw Hr. unfold TcpResultPayload_encode, u32_to_be, u64_to_be.
  change (replicate TCP_RESULT_LEN 0) with ([] ++ replicate 8 0 ++ replicate 4 0).
  rewrite copy_mid by (rewrite ?length_to_be; done).
  cbn [mbind outcome_bind tcp_achieved_mbps tcp_retransmits]. rewrite app_nil_l.
  pose proof (copy_mid (to_be 8 (f64_to_bits mbps)) (replicate 4 0) (to_be 4 retrans) [] 8 12) as E.
  rewrite !app_nil_r in E. rewrite E by (rewrite ?length_to_be; done). eexists. split; [done|].
  unfold TcpResultPayload_decode. rewrite bool_decide_false by (rewrite length_app, !length_to_be; cbn; lia).
  rewrite slice_front by (rewrite ?length_to_be; done). cbn [mbind outcome_bind].
  pose proof (slice_mid (to_be 8 (f64_to_bits mbps)) (to_be 4 retrans) [] 8 12) as E2. rewrite app_nil_r in E2.
  rewrite E2 by (rewrite ?length_to_be; done). cbn [mbind outcome_bind].
  rewrite !from_to_be by (done || by apply f64_bits_fits). by rewrite f64_bits_roundtrip.
Qed.

(** A TCP leg whose stream reaches the other end whole, and whose reply comes
    in time, reports the rate measured there and the sender's own
    retransmissions; the other end starts the leg back exactly if it was asked
    to, with the same test and duration, unless the leg was one it waited for. *)
Theorem tcp_leg_measured id secs bidir start t_done reads total x :
  let duration := nanos_of_secs secs in
  fits 32 id → fits 32 secs → read_to_eof reads 0 = Some total → leg_waiters x !! id = None →
  let rate := compute_achieved_mbps total (f64.as_secs_f64 (sat_sub t_done start)) in
  ∃ header reply,
    handle_tcp_incoming (Some header) start t_done reads x = Ok (x, Some reply, Some (id, bidir, secs)) ∧
    ∀ a n t,
      connected a = true → header_written a = true → chunks_written a = Some n →
      tcp_reply a = Some (t, reply) → t ≤ duration + RESULT_GRACE →
      run_tcp_upload_leg id duration bidir a =
        Ok (header, CHUNK_LEN * Z.of_nat n, Some (rate, kernel_retransmits a)).
Proof.
  intros duration Hid Hs Hr Hx rate.
  destruct (tcp_header_roundtrip id bidir secs Hid Hs) as (header & He & _ & Hd).
  destruct (tcp_result_roundtrip rate 0) as (reply & Hre & Hrd); [apply div_wf|done|].
  exists header, reply. split.
  - unfold handle_tcp_incoming. rewrite Hd. cbn [mbind outcome_bind]. rewrite Hr.
    unfold forward_leg. rewrite Hx. fold rate. rewrite Hre. done.
  - intros a n t Hc Hh Hch Hreply Ht. unfold run_tcp_upload_leg. rewrite Hc, Hh, Hch, Hreply. cbn [negb].
    pose proof (spawned_duration secs Hs) as Hsd. fold duration in Hsd. rewrite Hsd, He.
    cbn [mbind outcome_bind within]. rewrite (proj2 (Z.leb_le _ _) Ht), Hrd. done.
Qed.

(** ** Examples *)

Module tunneltest_example.

(** A second of test: two packets, then the final ones. *)
Definition rounds : list Round :=
  [mkRound 1400 0 7 1000; mkRound 1400 300000000 7 300000100; mkRound 65 1000000001 9 0].
Definition idle (x : TunnelTestContext) : Listener := mkListener (ReceiveState_new 0) x.
Definition client : SocketAddr := mkAddr (V4 10) 40000.
Definition server : SocketAddr := mkAddr (V4 20) TUNNEL_TEST_PORT.

Definition sent (bidir : bool) : list (list Z) :=
  match send_stream 0 77 (nanos_of_secs 1) bidir 7 rounds with
  | Ok (acts, _) => datagrams acts
  | _ => []
  end.
Definition arrive (k : Z) (b : list Z) : Arrival := mkArrive k (k + 500000000) b.

Lemma sent_order bidir :
  ∃ a b c, sent bidir = [a; b; c; c; c; c; c] ∧ c !! 4%nat = Some (if bidir then 3 else 1).
Proof. destruct bidir; vm_compute; by eexists _, _, _. Qed.

(** Whether a packet is a final one shows in its flags. *)
Lemma final_arrives l ds fs a (bidir : bool) :
  l = ds ++ fs → a ∈ l → Forall data_arrival ds →
  datagram a !! 4%nat = Some (if bidir then 3 else 1) → fs ≠ [].
Proof.
  intros -> Hl Hd Ha ->. rewrite app_nil_r in Hl. rewrite Forall_forall in Hd.
  destruct (Hd a Hl) as (p & Hp & pad & E).
  rewrite E in Ha. unfold data_header, u32_to_be in Ha. rewrite <-!(assoc_L (++)) in Ha.
  rewrite lookup_app_r in Ha by (rewrite length_to_be; lia). rewrite length_to_be in Ha. cbn in Ha.
  unfold data_flags in Ha. rewrite Hp in Ha. by destruct (bidirectional_requested p), bidir.
Qed.

(** The first packet is lost on the way there, and all but one of the final
    copies on the way back: both directions are measured. *)
Lemma self_test_measures_witness :
  ∃ up down reply r1 r2,
    send_stream 0 77 (nanos_of_secs 1) true 7 rounds = Ok (up, true) ∧
    send_stream 0 77 (nanos_of_secs 1) false 7 rounds = Ok (down, true) ∧
    run_test true 77 (nanos_of_secs 1) true 7 9 (Some (3, reply)) (Some (3, mkLeg r2 2 None)) =
      Ok (mkOutcome (Some (f32_as_f64 (wrap 32 (f64_as_f32 r1)))) (Some r2) 2 (Some 2) None None).
Proof.
  pose proof (self_test_measures 77 1 true 0 0 7 7 rounds rounds (idle TunnelTestContext_new)
                (idle TunnelTestContext_new) client server) as H.
  cbv zeta in H. specialize (H ltac:(done) ltac:(done)).
  assert (rounds_ok 7 rounds) as Hok.
  { split; [lia|]. split; [|vm_compute; reflexivity]. repeat constructor; cbn; lia. }
  specialize (H Hok Hok ltac:(done) ltac:(done) ltac:(done)).
  destruct (register_leg 77 (ls_ctx (idle TunnelTestContext_new))) as [xa c].
  destruct H as (up & down & fin & fin' & Hup & Hdown & H).
  assert (datagrams up = sent true) as Eup by (unfold sent; by rewrite Hup).
  assert (datagrams down = sent false) as Edown by (unfold sent; by rewrite Hdown).
  assert (fin = true) as -> by (vm_compute in Hup; congruence).
  assert (fin' = true) as -> by (vm_compute in Hdown; congruence).
  destruct (sent_order true) as (a1 & b1 & c1 & E1 & F1).
  destruct (sent_order false) as (a2 & b2 & c2 & E2 & F2).
  destruct (H [arrive 1 b1; arrive 2 c1; arrive 3 c1]) as (ds & [|f fs] & lb' & acts & Hrx & Hds & _ & _ & H1).
  { rewrite Eup, E1. cbn. repeat constructor. }
  { by destruct (final_arrives _ _ _ _ true Hrx ltac:(right; left) Hds F1). }
  destruct H1 as (reply & _ & H1).
  destruct (H1 [arrive 1 a2; arrive 2 b2; arrive 3 c2])
    as (ds' & [|f' fs'] & la' & Hrx' & Hds' & _ & _ & got & _ & H2).
  { rewrite Edown, E2. cbn. repeat constructor. }
  { by destruct (final_arrives _ _ _ _ false Hrx' ltac:(right; right; left) Hds' F2). }
  destruct H2 as (q & Hq & -> & Hrun).
  assert (sender_queue_drops q = 2) as Eq by (vm_compute in Hq; injection Hq as <-; reflexivity).
  exists up, down, reply, (leg_rate ds f), (leg_rate ds' f'). split; [exact Hup|]. split; [exact Hdown|].
  rewrite Eq in Hrun. apply (Hrun 3 3 9); vm_compute; congruence.
Defined.

(** The listener remembers one finished test only. When two tests overlap, a
    late copy of the first one's final packet is taken for a test of its own:
    its rate is that of one packet in no time, and a second stream is sent
    back. *)
Definition final_packet (id : Z) : list Z := data_header (mkData id true true 1 0) ++ replicate 1335 0.
Example late_copy_measured_again :
  match feed_listener client
          [mkArrive 0 1000000 (final_packet 1); mkArrive 0 1000000 (final_packet 2);
           mkArrive 5 5 (final_packet 1)] (idle TunnelTestContext_new) with
  | Ok (_, acts) =>
      omap (λ a, match a with SpawnStream _ id _ => Some id | _ => None end) acts = [1; 2; 1] ∧
      omap (λ a, match a with
                 | SendReply b _ =>
                     match ResultPayload_decode b with
                     | Ok (Some r) => Some (r_test_id r, f64.to_u64 (f32_as_f64 (r_achieved_mbps r)))
                     | _ => None
                     end
                 | _ => None end) acts = [(1, 10); (2, 10); (1, 10816)]
  | _ => False
  end.
Proof. vm_compute. done. Qed.

Lemma tcp_leg_measured_witness :
  ∃ header reply,
    handle_tcp_incoming (Some header) 0 1000000000 [Some 65536; Some 65536; Some 0] TunnelTestContext_new
      = Ok (TunnelTestContext_new, Some reply, Some (77, true, 1)) ∧
    run_tcp_upload_leg 77 (nanos_of_secs 1) true (mkTcpAnswers true true (Some 2%nat) 5 (Some (0, reply)))
      = Ok (header, 131072,
            Some (compute_achieved_mbps 131072 (f64.as_secs_f64 1000000000), 5)).
Proof.
  destruct (tcp_leg_measured 77 1 true 0 1000000000 [Some 65536; Some 65536; Some 0] 131072
              TunnelTestContext_new) as (header & reply & H1 & H2);
    [vm_compute; split; congruence..|reflexivity|reflexivity|].
  exists header, reply. split; [exact H1|].
  apply (H2 (mkTcpAnswers true true (Some 2%nat) 5 (Some (0, reply))) 2%nat 0); vm_compute; congruence.
Defined.

End tunneltest_example.
