(* ===== verification/Web.v ===== *)
(** * The web interface ([src/bin/mlvpn-web])

    The read-only HTTP interface: reading and parsing a request from an
    unauthenticated client ([http.rs]), the telemetry it serves ([api.rs]), the
    thread that fills it from the control socket and the cap on connections
    ([main.rs]). The JSON form of a snapshot and the text of a JSON value are
    parameters; what a socket and the clock answer is an input. *)

From Stdlib Require Import Ascii Sorted.
From S2P Require Import Prelude Bytes F64 Text LinkIo Link Events Telemetry Snapshot.

(** ** Requests ([http.rs]) *)

Definition MAX_REQUEST_BYTES : Z := 8 * 1024.
Definition MAX_HEADERS : Z := 64.
Definition REQUEST_DEADLINE : Z := 10 * 1000000000.

Inductive Method := Get | Head.
Record Request := mkRequest { method : Method; path : string; query : string }.
Inductive ParseError :=
  TooLarge | Malformed | MethodNotAllowed | BodyNotAllowed | BadHost | IoError.

(** The text of ASCII bytes. *)
Definition ascii_text (b : list Z) : string :=
  foldr (λ x, String (ascii_of_N (Z.to_N x))) EmptyString b.
Definition is_ascii (b : list Z) : bool := forallb (λ x, x <? 128) b.

Definition CR : ascii := ascii_of_nat 13.
Definition LF : ascii := ascii_of_nat 10.
Definition crlf : string := String CR (String LF EmptyString).

(** [text.split] on CRLF. *)
Fixpoint split_crlf (s : string) : list string :=
  match s with
  | EmptyString => [EmptyString]
  | String a s' =>
      match s' with
      | String b t =>
          if Ascii.eqb a CR && Ascii.eqb b LF then EmptyString :: split_crlf t
          else match split_crlf s' with w :: ws => String a w :: ws | [] => [String a EmptyString] end
      | EmptyString => [String a EmptyString]
      end
  end.

Definition starts_with (p s : string) : bool := String.prefix p s.

(** The address in the brackets of a host, if nothing but a port may follow. *)
Definition bracketed (rest : string) : option string :=
  match split_once "]" rest with
  | Some (addr, tail) => if String.eqb tail "" || starts_with ":" tail then Some addr else None
  | None => None
  end.
Definition without_port (host : string) : string :=
  match rsplit_once ":" host with
  | Some (n, port) => if negb (String.eqb port "") && all_chars is_digit port then n else host
  | None => host
  end.
Definition loopback_name (name : string) : bool :=
  let name := to_ascii_lowercase name in
  String.eqb name "localhost" || String.eqb name "127.0.0.1" || String.eqb name "::1".
Definition host_allowed (host : string) : bool :=
  match host with
  | String "[" rest => match bracketed rest with Some addr => loopback_name addr | None => false end
  | _ => loopback_name (without_port host)
  end.

(** The loop over the header lines, up to an empty one: the last [Host]. *)
Fixpoint parse_headers (lines : list string) (host : option string) (count : Z)
    : ParseError + option string :=
  match lines with
  | [] => inr host
  | line :: lines =>
      if String.eqb line "" then inr host
      else
        let count := count + 1 in
        if MAX_HEADERS <? count then inl TooLarge
        else
          match split_once ":" line with
          | None => inl Malformed
          | Some (name, value) =>
              if String.eqb name "" || contains_char " " name || contains_char (ascii_of_nat 9) name
              then inl Malformed
              else
                let value := trim value in
                let name := to_ascii_lowercase name in
                if String.eqb name "host" then parse_headers lines (Some value) count
                else if String.eqb name "content-length" && negb (String.eqb value "0")
                then inl BodyNotAllowed
                else if String.eqb name "transfer-encoding" then inl BodyNotAllowed
                else parse_headers lines host count
          end
  end.

Definition bad_target (target : string) : bool :=
  negb (starts_with "/" target) || starts_with "//" target
  || negb (all_chars (λ a, 33 <=? code a) target).

Definition parse_method (m : string) : option Method :=
  if String.eqb m "GET" then Some Get else if String.eqb m "HEAD" then Some Head else None.

Definition parse_lines (lines : list string) : ParseError + Request :=
  match lines with
  | [] => inl Malformed
  | request_line :: lines =>
      match split_char " " request_line with
      | [m; target; version] =>
          if negb (String.eqb version "HTTP/1.1") && negb (String.eqb version "HTTP/1.0")
          then inl Malformed
          else if bad_target target then inl Malformed
          else
            match parse_method m with
            | None => inl MethodNotAllowed
            | Some m =>
                match parse_headers lines None 0 with
                | inl e => inl e
                | inr host =>
                    if match host with Some h => negb (host_allowed h) | None => false end
                    then inl BadHost
                    else
                      let '(path, query) := default (target, "") (split_once "?" target) in
                      inr (mkRequest m path query)
                end
            end
      | _ => inl Malformed
      end
  end.

Definition parse_request (head : list Z) : ParseError + Request :=
  if MAX_REQUEST_BYTES <? len head then inl TooLarge
  else if negb (is_ascii head) then inl Malformed
  else parse_lines (split_crlf (ascii_text head)).

(** The index after the first blank line. *)
Fixpoint find_header_end (buf : list Z) : option nat :=
  match buf with
  | [] => None
  | _ :: r =>
      if bool_decide (take 4 buf = [13; 10; 13; 10]) then Some 4%nat
      else S <$> find_header_end r
  end.

(** The loop of [read_request]: each turn that reads has the time since the
    start and what the read answered (at most 1024 bytes, none at the end of the
    stream, or an error); [None] when the client has sent no more yet. *)
Fixpoint read_request (reads : list (Z * option (list Z))) (buf : list Z)
    : option (ParseError + Request) :=
  match find_header_end buf with
  | Some e => Some (parse_request (take e buf))
  | None =>
      if MAX_REQUEST_BYTES <=? len buf then Some (inl TooLarge)
      else
        match reads with
        | [] => None
        | (elapsed, r) :: reads =>
            if REQUEST_DEADLINE <=? elapsed then Some (inl IoError)
            else
              match r with
              | None => Some (inl IoError)
              | Some [] => Some (inl Malformed)
              | Some chunk => read_request reads (buf ++ take 1024 chunk)
              end
        end
  end.

Definition query_param (query key : string) : option string :=
  snd <$> List.find (λ kv, String.eqb kv.1 key) (omap (split_once "=") (split_char "&" query)).

Record Response := mkResponse { status : Z; content_type : string; body : Value; allow : option string }.

Definition json (status : Z) (v : Value) : Response := mkResponse status "application/json" v None.
Definition error_value (message : string) : Value :=
  Object [("api", Num (PosInt 1)); ("error", Str message)].
Definition error (status : Z) (message : string) : Response := json status (error_value message).

Definition error_response (e : ParseError) : Response :=
  match e with
  | TooLarge => error 431 "request too large"
  | Malformed => error 400 "malformed request"
  | MethodNotAllowed =>
      let r := error 405 "this API is read-only: GET and HEAD only" in
      mkResponse (status r) (content_type r) (body r) (Some "GET, HEAD")
  | BodyNotAllowed => error 400 "request bodies are not accepted"
  | BadHost => error 421 "unexpected Host header"
  | IoError => error 408 "request timeout"
  end.

Definition reason (status : Z) : string :=
  if status =? 200 then "OK" else if status =? 400 then "Bad Request"
  else if status =? 404 then "Not Found" else if status =? 405 then "Method Not Allowed"
  else if status =? 408 then "Request Timeout" else if status =? 421 then "Misdirected Request"
  else if status =? 431 then "Request Header Fields Too Large"
  else if status =? 503 then "Service Unavailable" else "Error".

(** The head of a response with a body of [n] bytes. *)
Definition response_head (r : Response) (n : Z) : string :=
  let line s := s +:+ crlf in
  line ("HTTP/1.1 " +:+ pretty (status r) +:+ " " +:+ reason (status r)) +:+
  line ("Content-Type: " +:+ content_type r) +:+
  line ("Content-Length: " +:+ pretty n) +:+
  line "Cache-Control: no-store" +:+
  line "X-Content-Type-Options: nosniff" +:+
  line "Content-Security-Policy: default-src 'none'; frame-ancestors 'none'" +:+
  line "Referrer-Policy: no-referrer" +:+
  line "Connection: close" +:+
  match allow r with Some a => line ("Allow: " +:+ a) | None => "" end +:+
  crlf.

(** ** What is served ([api.rs]) *)

Definition EVENT_CAPACITY : nat := 500.
Definition HISTORY_CAPACITY : nat := 600.
Definition MAX_EVENTS_PER_REQUEST : Z := 500.
Definition MAX_HISTORY_PER_REQUEST : Z := Z.of_nat HISTORY_CAPACITY.

Record LinkSample := mkLinkSample {
  sm_name : string; sm_tx_mbps : option f64; sm_rx_mbps : option f64;
  sm_rtt_ms : option f64; sm_loss_pct : option f64 }.
Record HistorySample := mkHistorySample {
  hs_unix_ts_ms : Z; hs_tx_mbps : f64; hs_rx_mbps : f64; hs_links : list LinkSample }.

Record Shared := mkShared {
  snapshot : option Snapshot;
  is_connected : bool;
  last_update : option Z;
  events : list (Z * EventRecord);
  history : list HistorySample }.
Definition Shared_default : Shared := mkShared None false None [] [].

Definition on_connect (s : Shared) : Shared := mkShared (snapshot s) true (last_update s) [] [].

(** [push_back] on a deque that is kept at its capacity. *)
Definition push_capped {A} (capacity : nat) (q : list A) (x : A) : list A :=
  (if bool_decide (length q = capacity) then drop 1 q else q) ++ [x].

Definition link_sample (l : LinkSnapshot) : LinkSample :=
  mkLinkSample (ln_name l) (local_tx_throughput_mbps l) (local_rx_throughput_mbps l)
    (local_rtt_ms l) (local_loss_pct l).

Definition ingest (now : Z) (snap : Snapshot) (s : Shared) : Shared :=
  let rates := snap_rates (telemetry (sn_daemon snap)) in
  mkShared
    (Some (mkSnap (sn_tunnel_name snap) (sn_mode snap) (sn_unix_ts_ms snap) (sn_links snap)
             (sn_daemon snap) [] []))
    (is_connected s) (Some now)
    (foldl (push_capped EVENT_CAPACITY) (events s) (new_events snap))
    (push_capped HISTORY_CAPACITY (history s)
       (mkHistorySample (sn_unix_ts_ms snap) (tx_mbps rates) (rx_mbps rates)
          (map link_sample (sn_links snap)))).

(** What [reader_thread] does to the shared state. *)
Inductive reader_event := Connected | Line (now : Z) (parsed : option Snapshot) | Lost.

Definition reader_step (s : Shared) (e : reader_event) : Shared :=
  match e with
  | Connected => on_connect s
  | Line now (Some snap) => ingest now snap s
  | Line _ None => s
  | Lost => mkShared (snapshot s) false (last_update s) (events s) (history s)
  end.

(** ** Routes *)

Section routes.
Context (snapshot_value : Snapshot → Value) (link_value : LinkSnapshot → Value).
Context (event_value : Z * EventRecord → Value) (sample_value : HistorySample → Value).
Context (pkg_version : string).

Definition or_null {A} (f : A → Value) (a : option A) : Value :=
  match a with Some a => f a | None => Null end.

Definition envelope (now : Z) (s : Shared) (data : Value) : list (string * Value) :=
  [("api", Num (PosInt 1)); ("connected", Bool (is_connected s));
   ("age_ms", or_null (λ t, Num (PosInt (wrap 64 (sat_sub now t / 1000000)))) (last_update s));
   ("data", data)].

Definition index : Value :=
  Object [("api", Num (PosInt 1)); ("name", Str "mlvpn-web"); ("read_only", Bool true);
    ("endpoints", Array [
      Str "/api/v1/version"; Str "/api/v1/snapshot"; Str "/api/v1/links";
      Str "/api/v1/events?since=<seq>&limit=<n>"; Str "/api/v1/history?limit=<n>"])].

Definition no_data (now : Z) (s : Shared) : Response :=
  json 503 (Object (envelope now s Null
                    ++ [("error", Str "no snapshot received from the daemon yet")])).

Definition version (now : Z) (s : Shared) : Response :=
  json 200 (Object (envelope now s (Object [
    ("api_version", Num (PosInt 1)); ("mlvpn_web", Str pkg_version);
    ("daemon", or_null Str ((λ n, local_version (sn_daemon n)) <$> snapshot s));
    ("peer", or_null Str (snapshot s ≫= λ n, peer_version (sn_daemon n)));
    ("tunnel", or_null Str (sn_tunnel_name <$> snapshot s))]))).

(** [obj.remove(key)], when the value is an object. *)
Definition remove_key (k : string) (v : Value) : Value :=
  match v with
  | Object m => Object (List.filter (λ kv, negb (String.eqb k kv.1)) m)
  | _ => v
  end.

Definition snapshot_route (now : Z) (s : Shared) : Response :=
  match snapshot s with
  | None => no_data now s
  | Some snap =>
      json 200 (Object (envelope now s
        (remove_key "new_events" (remove_key "new_log_lines" (snapshot_value snap)))))
  end.

Definition links_route (now : Z) (s : Shared) : Response :=
  match snapshot s with
  | None => no_data now s
  | Some snap => json 200 (Object (envelope now s (Array (map link_value (sn_links snap)))))
  end.

Definition clamp_limit (query : string) (dflt max : Z) : Response + Z :=
  match query_param query "limit" with
  | None => inr dflt
  | Some v =>
      match parse_u64 v with
      | Some n => inr (Z.min (Z.max 1 n) max)
      | None => inl (error 400 "limit must be a positive integer")
      end
  end.

(** The page of a poll and the cursor it hands back. *)
Definition last_of {A} (n : Z) (l : list A) : list A := drop (length l - Z.to_nat n) l.
Definition page (since limit : Z) (s : Shared) : list (Z * EventRecord) :=
  last_of limit (List.filter (λ e, since <? e.1) (events s)).
Definition next_since (since : Z) (s : Shared) : Z :=
  match rev (events s) with e :: _ => Z.max e.1 since | [] => since end.

Definition events_route (now : Z) (s : Shared) (query : string) : Response :=
  match match query_param query "since" with None => Some 0 | Some v => parse_u64 v end with
  | None => error 400 "since must be a non-negative integer"
  | Some since =>
      match clamp_limit query 100 MAX_EVENTS_PER_REQUEST with
      | inl r => r
      | inr limit =>
          json 200 (Object (envelope now s (Object [
            ("events", Array (map event_value (page since limit s)));
            ("next_since", Num (PosInt (next_since since s)))])))
      end
  end.

Definition history_route (now : Z) (s : Shared) (query : string) : Response :=
  match clamp_limit query 120 MAX_HISTORY_PER_REQUEST with
  | inl r => r
  | inr limit =>
      json 200 (Object (envelope now s (Object [
        ("interval_ms", Num (PosInt 500));
        ("samples", Array (map sample_value (last_of limit (history s))))])))
  end.

Definition handle (now : Z) (s : Shared) (req : Request) : Response :=
  let p := path req in
  if String.eqb p "/" || String.eqb p "/api" || String.eqb p "/api/v1" then json 200 index
  else if String.eqb p "/api/v1/version" then version now s
  else if String.eqb p "/api/v1/snapshot" then snapshot_route now s
  else if String.eqb p "/api/v1/links" then links_route now s
  else if String.eqb p "/api/v1/events" then events_route now s (query req)
  else if String.eqb p "/api/v1/history" then history_route now s (query req)
  else error 404 "not found".

(** [serve_connection]: the response and whether only its head is written. *)
Definition serve_connection (now : Z) (reads : list (Z * option (list Z))) (s : Shared)
    : option (Response * bool) :=
  match read_request reads [] with
  | None => None
  | Some (inr req) => Some (handle now s req, match method req with Head => true | Get => false end)
  | Some (inl e) => Some (error_response e, false)
  end.

(** What is written, for the text [to_vec] of a JSON value. *)
Definition write_response (to_vec : Value → string) (r : Response) (head_only : bool) : string :=
  let b := to_vec (body r) in
  response_head r (Z.of_nat (String.length b)) +:+ (if head_only then "" else b).

End routes.

(** ** The server ([main.rs]) *)

Definition MAX_CONNECTIONS : Z := 32.

Definition is_loopback (a : IpAddr) : bool :=
  match a with V4 a => a / 2 ^ 24 =? 127 | V6 a => a =? 1 end.
Definition ensure_loopback (addr : SocketAddr) : bool := is_loopback (ip addr).

(** [find_socket], from the file names of the directory, if it could be read. *)
Fixpoint ends_with (suffix s : string) : bool :=
  String.eqb suffix s || match s with EmptyString => false | String _ s => ends_with suffix s end.
Definition find_socket (dir : option (list string)) : option string :=
  match List.filter (λ n, ends_with ".sock" n && negb (ends_with ".command.sock" n)) <$> dir with
  | Some [n] => Some n
  | _ => None
  end.

(** The loop of [run_server] between its accesses to the counter: waiting for a
    connection, or having added to the counter for one it will serve or refuse. *)
Inductive Phase := Waiting | Serving | Refusing.
Record Server := mkServer { active : Z; phase : Phase; running : nat }.

Inductive server_step (max : Z) : Server → Server → Prop :=
  | step_accept a n :
      server_step max (mkServer a Waiting n)
        (mkServer (a + 1) (if max <=? a then Refusing else Serving) n)
  | step_refuse a n : server_step max (mkServer a Refusing n) (mkServer (a - 1) Waiting n)
  | step_spawn a n : server_step max (mkServer a Serving n) (mkServer a Waiting (S n))
  | step_spawn_failed a n : server_step max (mkServer a Serving n) (mkServer (a - 1) Waiting n)
  | step_done a p n : server_step max (mkServer a p (S n)) (mkServer (a - 1) p n).

Definition Server_start : Server := mkServer 0 Waiting 0.

(** However the connections come and end, no more than the cap are served at
    a time, and one is refused only when as many are. *)
Lemma connections_capped max s :
  0 ≤ max → rtc (server_step max) Server_start s →
  Z.of_nat (running s) ≤ max ∧
  active s = Z.of_nat (running s) + match phase s with Waiting => 0 | _ => 1 end ∧
  (phase s = Serving → Z.of_nat (running s) < max).
Proof.
  intros Hmax. apply (rtc_ind_r (λ s, Z.of_nat (running s) ≤ max ∧
    active s = Z.of_nat (running s) + match phase s with Waiting => 0 | _ => 1 end ∧
    (phase s = Serving → Z.of_nat (running s) < max))).
  - cbn. split; [lia|]. done.
  - intros s1 s2 _ [] (H1 & H2 & H3); cbn in *; try (specialize (H3 eq_refl)).
    + destruct (Z.leb_spec max a); cbn; split_and!; try done; lia.
    + split_and!; try done; lia.
    + split_and!; try done; lia.
    + split_and!; try done; lia.
    + split_and!; try lia; intros Hp; specialize (H3 Hp); lia.
Qed.

(** ** What is accepted *)

Lemma split_crlf_cons s : split_crlf s ≠ [].
Proof.
  destruct s as [|a [|b t]]; [done|done|]. cbn. destruct (_ && _); [done|].
  by destruct (match t with "" => _ | String _ _ => _ end).
Qed.

Lemma concat_crlf_char a w ws :
  String.concat crlf (String a w :: ws) = String a (String.concat crlf (w :: ws)).
Proof. by destruct ws. Qed.

Lemma split_crlf_join s : String.concat crlf (split_crlf s) = s.
Proof.
  enough (∀ n s, (String.length s ≤ n)%nat → String.concat crlf (split_crlf s) = s) as H by (by apply (H (String.length s))).
  clear s. induction n as [|n IH]; intros s Hn; [by destruct s; [|cbn in Hn; lia]|].
  destruct s as [|a [|b t]]; [done|done|]. cbn [String.length] in Hn.
  assert (String.concat crlf (split_crlf (String b t)) = String b t) as IH1 by (apply IH; cbn; lia).
  assert (String.concat crlf (split_crlf t) = t) as IH2 by (apply IH; lia).
  change (split_crlf (String a (String b t))) with
    (if Ascii.eqb a CR && Ascii.eqb b LF then EmptyString :: split_crlf t
     else match split_crlf (String b t) with w :: ws => String a w :: ws | [] => [String a EmptyString] end).
  destruct (Ascii.eqb_spec a CR) as [->|]; destruct (Ascii.eqb_spec b LF) as [->|]; cbn [andb].
  all: try (pose proof (split_crlf_cons (String b t)) as Hc; destruct (split_crlf (String b t)) as [|w ws];
            [done|]; by rewrite concat_crlf_char, IH1).
  - pose proof (split_crlf_cons t) as Hc. destruct (split_crlf t) as [|w ws]; [done|].
    change (String.concat crlf (EmptyString :: w :: ws)) with (crlf +:+ String.concat crlf (w :: ws)).
    by rewrite IH2.
  - pose proof (split_crlf_cons (String LF t)) as Hc. destruct (split_crlf (String LF t)) as [|w ws];
      [done|]. by rewrite concat_crlf_char, IH1.
Qed.

(** A host that names this machine: a loopback name, bare or in brackets, with
    a port at most. *)
Definition names_loopback (host : string) : Prop :=
  ∃ name, loopback_name name = true ∧
    (host = name ∨ (∃ port, host = name +:+ ":" +:+ port ∧ all_chars is_digit port = true) ∨
     ∃ tail, host = "[" +:+ name +:+ "]" +:+ tail ∧ (tail = "" ∨ starts_with ":" tail = true)).

Lemma rsplit_once_join c s x y : rsplit_once c s = Some (x, y) → s = x +:+ String c y.
Proof.
  revert x y. induction s as [|a s IH]; intros x y; [done|]. cbn [rsplit_once].
  destruct (rsplit_once c s) as [[x' y']|].
  - intros [= <- <-]. cbn. by rewrite (IH x' y' eq_refl).
  - destruct (Ascii.eqb_spec a c) as [->|]; [|done]. by intros [= <- <-].
Qed.

Lemma host_allowed_sound host : host_allowed host = true → names_loopback host.
Proof.
  intros H.
  assert ((∃ rest, host = String "[" rest) ∨ host_allowed host = loopback_name (without_port host))
    as [[rest ->]|E].
  { destruct host as [|[[] [] [] [] [] [] [] []] s]; eauto. }
  - cbn in H. unfold bracketed in H. destruct (split_once "]" rest) as [[addr tail]|] eqn:E; [|done].
    apply split_once_join in E as [-> _]. destruct (String.eqb tail "") eqn:Et; cbn [orb] in H.
    + apply String.eqb_eq in Et. exists addr. split; [done|]. right. right. exists tail. split; [done|]. by left.
    + destruct (starts_with ":" tail) eqn:Es; [|done]. exists addr. split; [done|]. right. right.
      exists tail. split; [done|]. by right.
  - rewrite E in H. unfold without_port in H.
    destruct (rsplit_once ":" host) as [[n port]|] eqn:Er; [|exists host; eauto].
    apply rsplit_once_join in Er. destruct (negb _ && all_chars is_digit port) eqn:Ed; [|exists host; eauto].
    apply andb_true_iff in Ed as [_ Ed]. exists n. split; [done|]. right. left. by exists port.
Qed.

Definition method_name (m : Method) : string := match m with Get => "GET" | Head => "HEAD" end.

(** A header line of an accepted request: a name without spaces and a value;
    none announces a body. *)
Definition header_line (nv : string * string) : string := nv.1 +:+ ":" +:+ nv.2.
Definition header_ok (nv : string * string) : Prop :=
  nv.1 ≠ "" ∧ contains_char " " nv.1 = false ∧ contains_char (ascii_of_nat 9) nv.1 = false ∧
  to_ascii_lowercase nv.1 ≠ "transfer-encoding" ∧
  (to_ascii_lowercase nv.1 = "content-length" → trim nv.2 = "0").

(** The value of the last [Host] header. *)
Definition host_of (hs : list (string * string)) (host : option string) : option string :=
  foldl (λ h nv, if String.eqb (to_ascii_lowercase nv.1) "host" then Some (trim nv.2) else h) host hs.

(** The text of a request that is accepted, with what is read of it: its lines
    up to an empty one, or the end. *)
Record accepted (text : string) (req : Request) : Prop := {
  acc_shape : ∃ target version hs rest,
    text = String.concat crlf
      (String.concat " " [method_name (method req); target; version] :: map header_line hs ++ rest) ∧
    (rest = [] ∨ ∃ r, rest = "" :: r) ∧
    (version = "HTTP/1.1" ∨ version = "HTTP/1.0") ∧
    bad_target target = false ∧
    (target = path req ∧ query req = "" ∨ target = path req +:+ "?" +:+ query req) ∧
    Forall header_ok hs ∧ Z.of_nat (length hs) ≤ MAX_HEADERS ∧
    ∀ host, host_of hs None = Some host → names_loopback host }.

Lemma parse_headers_sound lines host count h :
  0 ≤ count ≤ MAX_HEADERS → parse_headers lines host count = inr h →
  ∃ hs rest, lines = map header_line hs ++ rest ∧ (rest = [] ∨ ∃ r, rest = "" :: r) ∧
    Forall header_ok hs ∧ count + Z.of_nat (length hs) ≤ MAX_HEADERS ∧ h = host_of hs host.
Proof.
  revert host count. induction lines as [|line lines IH]; intros host count Hc H.
  { injection H as <-. exists [], []. split; [done|]. split; [by left|]. split; [done|]. cbn. split; [lia|done]. }
  cbn [parse_headers] in H. destruct (String.eqb_spec line "") as [->|Hl].
  { injection H as <-. exists [], ("" :: lines). split; [done|]. split; [by right; eexists|].
    split; [done|]. cbn. split; [lia|done]. }
  destruct (MAX_HEADERS <? count + 1) eqn:Em; [done|]. apply Z.ltb_ge in Em.
  destruct (split_once ":" line) as [[name value]|] eqn:E; [|done].
  apply split_once_join in E as [-> _].
  destruct (String.eqb name "") eqn:En; [done|]. apply String.eqb_neq in En.
  destruct (contains_char " " name) eqn:Es; [done|].
  destruct (contains_char (ascii_of_nat 9) name) eqn:Et; [done|]. cbn [orb] in H.
  assert (∀ host', parse_headers lines host' (count + 1) = inr h → header_ok (name, value) →
    host_of [(name, value)] host = host' →
    ∃ hs rest, (name +:+ String ":" value) :: lines = map header_line hs ++ rest ∧
      (rest = [] ∨ ∃ r, rest = "" :: r) ∧ Forall header_ok hs ∧
      count + Z.of_nat (length hs) ≤ MAX_HEADERS ∧ h = host_of hs host) as Hnext.
  { intros host' Hp Hok Hh. destruct (IH host' (count + 1)) as (hs & rest & -> & Hr & Hf & Hlen & ->); [lia|done|].
    exists ((name, value) :: hs), rest. split; [done|]. split; [done|]. split; [by constructor|].
    cbn [length]. split; [lia|]. unfold host_of at 2. cbn [foldl].
    change (foldl _ ?x hs) with (host_of hs x). f_equal. symmetry. exact Hh. }
  destruct (String.eqb (to_ascii_lowercase name) "host") eqn:Eh.
  { apply String.eqb_eq in Eh. eapply Hnext; [exact H| |].
    - split_and!; try done; cbn; rewrite Eh; done.
    - cbn. by rewrite (proj2 (String.eqb_eq _ _) Eh). }
  destruct (String.eqb (to_ascii_lowercase name) "content-length" && negb (String.eqb (trim value) "0")) eqn:Ec;
    [done|].
  destruct (String.eqb (to_ascii_lowercase name) "transfer-encoding") eqn:Etr; [done|].
  eapply Hnext; [exact H| |by cbn; rewrite Eh].
  split_and!; try done; cbn; [by apply String.eqb_neq|].
  intros Hcl. apply String.eqb_eq in Hcl. rewrite Hcl in Ec. cbn in Ec.
  apply negb_false_iff, String.eqb_eq in Ec. done.
Qed.

Lemma parse_method_name m k : parse_method m = Some k → m = method_name k.
Proof.
  unfold parse_method. destruct (String.eqb_spec m "GET"); [by intros [= <-]|].
  destruct (String.eqb_spec m "HEAD"); [by intros [= <-]|done].
Qed.

Lemma parse_request_sound head req :
  parse_request head = inr req →
  len head ≤ MAX_REQUEST_BYTES ∧ is_ascii head = true ∧ accepted (ascii_text head) req.
Proof.
  unfold parse_request. destruct (MAX_REQUEST_BYTES <? len head) eqn:El; [done|]. apply Z.ltb_ge in El.
  destruct (is_ascii head); [|done]. cbn [negb]. intros H. split; [done|]. split; [done|].
  rewrite <-(split_crlf_join (ascii_text head)).
  destruct (split_crlf (ascii_text head)) as [|line lines]; [done|]. cbn [parse_lines] in H.
  pose proof (split_char_join " " line) as Hj. change (String " " "") with " " in Hj.
  destruct (split_char " " line) as [|m [|target [|version [|]]]]; try done.
  destruct (negb _ && negb _) eqn:Ev; [done|]. destruct (bad_target target) eqn:Eb; [done|].
  destruct (parse_method m) as [k|] eqn:Em; [|done]. apply parse_method_name in Em as ->.
  destruct (parse_headers lines None 0) as [|host] eqn:Eh; [done|].
  destruct (match host with Some h => negb (host_allowed h) | None => false end) eqn:Ehost; [done|].
  destruct (default (target, "") (split_once "?" target)) as [p q] eqn:Ep. injection H as <-.
  apply parse_headers_sound in Eh as (hs & rest & -> & Hr & Hf & Hlen & ->); [|unfold MAX_HEADERS; lia].
  split. exists target, version, hs, rest. cbn [method path query].
  split; [by rewrite <-Hj|]. split; [done|]. split.
  { apply andb_false_iff in Ev as [Ev|Ev]; apply negb_false_iff, String.eqb_eq in Ev; auto. }
  split; [done|]. split.
  { destruct (split_once "?" target) as [[x y]|] eqn:Es; cbn in Ep; injection Ep as <- <-; [right|by left].
    by apply split_once_join in Es as [-> _]. }
  split; [done|]. split; [lia|]. intros h Hh. rewrite Hh in Ehost. apply negb_false_iff in Ehost.
  by apply host_allowed_sound.
Qed.

(** The bytes received by a connection. *)
Definition received (reads : list (Z * option (list Z))) : list Z :=
  concat (map (λ r, take 1024 (default [] r.2)) reads).

Lemma find_header_end_spec buf e :
  find_header_end buf = Some e → ∃ pre, take e buf = pre ++ [13; 10; 13; 10].
Proof.
  revert e. induction buf as [|x buf IH]; intros e; [done|]. cbn [find_header_end].
  case_bool_decide as Hb; [intros [= <-]; by exists []|].
  destruct (find_header_end buf) as [n|]; [|done]. intros [= <-].
  destruct (IH n eq_refl) as [pre Hp]. exists (x :: pre). cbn. by rewrite Hp.
Qed.

Lemma read_request_sound reads buf req :
  read_request reads buf = Some (inr req) →
  ∃ head rest, buf ++ received reads = head ++ rest ∧ parse_request head = inr req ∧
    ∃ pre, head = pre ++ [13; 10; 13; 10].
Proof.
  revert buf. induction reads as [|[elapsed r] reads IH]; intros buf H; cbn [read_request] in H.
  - destruct (find_header_end buf) as [e|] eqn:E; [|by destruct (_ <=? _)]. injection H as H.
    exists (take e buf), (drop e buf). split; [by rewrite take_drop, app_nil_r|]. split; [done|].
    by eapply find_header_end_spec.
  - destruct (find_header_end buf) as [e|] eqn:E.
    { injection H as H. exists (take e buf), (drop e buf ++ received ((elapsed, r) :: reads)).
      split; [by rewrite (assoc_L (++)), take_drop|]. split; [done|]. by eapply find_header_end_spec. }
    destruct (MAX_REQUEST_BYTES <=? len buf); [done|]. destruct (REQUEST_DEADLINE <=? elapsed); [done|].
    destruct r as [[|x chunk]|]; [done| |done].
    destruct (IH _ H) as (head & rest & Hs & Hp & Hpre). exists head, rest. split; [|done].
    rewrite <-Hs, <-(assoc_L (++)). done.
Qed.

Lemma reader_keeps_no_logs es :
  match snapshot (foldl reader_step Shared_default es) with
  | Some snap => new_log_lines snap = [] ∧ new_events snap = []
  | None => True
  end.
Proof.
  induction es as [|e es IH] using rev_ind; [done|]. rewrite foldl_app. cbn.
  by destruct e as [|now [snap|]|].
Qed.

Section served.
Context (snapshot_value : Snapshot → Value) (link_value : LinkSnapshot → Value).
Context (event_value : Z * EventRecord → Value) (sample_value : HistorySample → Value).
Context (pkg_version : string).

Notation handle := (handle snapshot_value link_value event_value sample_value pkg_version).
Notation serve_connection := (serve_connection snapshot_value link_value event_value sample_value pkg_version).

(** C25. Only a well-formed read from this machine is answered with data.
    Whatever bytes a client sends, in whatever pieces, a connection is answered
    with a fixed error, or what it sent up to its first blank line is a GET or
    HEAD of at most 8192 bytes and 64 headers, announces no body and names this
    machine as its host if it names one, and the answer is that of the route. No
    log line of the daemon is kept where a route could serve it. *)
Theorem only_local_reads_served now reads es r ho :
  let s := foldl reader_step Shared_default es in
  serve_connection now reads s = Some (r, ho) →
  ((∃ e, r = error_response e ∧ status r ∈ [400; 405; 408; 421; 431] ∧ ho = false) ∨
   ∃ head rest req, received reads = head ++ rest ∧ (∃ pre, head = pre ++ [13; 10; 13; 10]) ∧
     len head ≤ MAX_REQUEST_BYTES ∧ accepted (ascii_text head) req ∧ r = handle now s req ∧
     ho = bool_decide (method_name (method req) = "HEAD")) ∧
  (∀ snap, snapshot s = Some snap → new_log_lines snap = []).
Proof.
  intros s H. split.
  - unfold Web.serve_connection in H. destruct (read_request reads []) as [[e|req]|] eqn:E; [| |done].
    + injection H as <- <-. left. exists e. split; [done|]. split; [|done].
      destruct e; cbn; set_solver.
    + injection H as <- <-. right. apply read_request_sound in E as (head & rest & Hs & Hp & Hpre).
      apply parse_request_sound in Hp as (Hl & _ & Ha). exists head, rest, req.
      do 5 (split; [done|]). by destruct (method req).
  - intros snap Hsnap. pose proof (reader_keeps_no_logs es) as Hk. fold s in Hk. rewrite Hsnap in Hk. apply Hk.
Qed.

End served.

(** ** Polling the events *)

Lemma push_capped_last {A} n (q : list A) x :
  (0 < n)%nat → (length q ≤ n)%nat → push_capped n q x = drop (length (q ++ [x]) - n) (q ++ [x]).
Proof.
  intros Hn Hq. unfold push_capped. rewrite length_app. cbn [length].
  case_bool_decide as E.
  - replace (length q + 1 - n)%nat with 1%nat by lia. destruct q; [cbn in E; lia|]. done.
  - replace (length q + 1 - n)%nat with 0%nat by lia. done.
Qed.

Lemma foldl_push_capped {A} n (q xs : list A) :
  (0 < n)%nat → (length q ≤ n)%nat →
  foldl (push_capped n) q xs = drop (length (q ++ xs) - n) (q ++ xs).
Proof.
  intros Hn. revert q. induction xs as [|x xs IH]; intros q Hq.
  { rewrite app_nil_r, (proj2 (Nat.sub_0_le _ _)) by lia. done. }
  cbn [foldl]. rewrite (push_capped_last _ _ _ Hn Hq).
  rewrite IH by (rewrite length_drop, length_app; cbn; lia).
  rewrite <-(drop_app_le (q ++ [x])) by (rewrite length_app; lia).
  rewrite drop_drop, <-(assoc_L (++)). cbn [app]. f_equal.
  rewrite length_drop, !length_app. cbn [length]. lia.
Qed.

(** The query of a poll from a cursor. *)
Definition events_query (since limit : Z) : string :=
  "since=" +:+ pretty since +:+ "&limit=" +:+ pretty limit.

Lemma events_query_params since limit :
  0 ≤ since → 0 ≤ limit →
  query_param (events_query since limit) "since" = Some (pretty since) ∧
  query_param (events_query since limit) "limit" = Some (pretty limit).
Proof.
  intros Hs Hl. pose proof (pretty_digits _ Hs) as Ds. pose proof (pretty_digits _ Hl) as Dl.
  unfold query_param, events_query.
  assert (split_char "&" ("since=" +:+ pretty since +:+ String "&" ("limit=" +:+ pretty limit)) =
          ["since" +:+ String "=" (pretty since); "limit" +:+ String "=" (pretty limit)]) as E.
  { change ("since=" +:+ pretty since +:+ String "&" ("limit=" +:+ pretty limit))
      with (("since=" +:+ pretty since) +:+ String "&" ("limit=" +:+ pretty limit)).
    rewrite split_char_first by (rewrite contains_char_app; apply orb_false_iff; split;
      [done|by apply digits_contain_no]).
    rewrite split_char_none by (rewrite contains_char_app; apply orb_false_iff; split;
      [done|by apply digits_contain_no]). done. }
  change ("since=" +:+ pretty since +:+ "&limit=" +:+ pretty limit)
    with ("since=" +:+ pretty since +:+ String "&" ("limit=" +:+ pretty limit)).
  rewrite E. cbn [omap list_omap]. rewrite !split_once_first by done. done.
Qed.

Lemma snoc_case {A} (l : list A) : l = [] ∨ ∃ l' x, l = l' ++ [x].
Proof. destruct l as [|x l] using rev_ind; [by left|right; eauto]. Qed.

Lemma sorted_last a l : StronglySorted Z.lt (a :: l) → Forall (λ x, x ≤ List.last l a) l.
Proof.
  revert a. induction l as [|x l IH]; intros a H; [constructor|].
  inversion H as [|? ? H1 _]; subst. specialize (IH x H1).
  assert (List.last (x :: l) a = List.last l x) as E.
  { clear. revert x. induction l as [|y l IHl]; intros x; [done|]. cbn in *. destruct l; [done|]. apply (IHl x). }
  rewrite E. constructor; [|done]. destruct (snoc_case l) as [->|(l' & y & ->)]; [cbn; lia|].
  rewrite last_last. inversion H1 as [|? ? _ Hf]; subst.
  apply Forall_app in Hf as [_ Hf%Forall_inv]. lia.
Qed.

Lemma sorted_app_l a l1 l2 : StronglySorted Z.lt (a :: l1 ++ l2) → StronglySorted Z.lt (a :: l1).
Proof.
  revert a. induction l1 as [|x l1 IH]; intros a H; [repeat constructor|].
  inversion H as [|? ? H1 Hf]; subst. constructor; [by apply IH|].
  rewrite app_comm_cons in Hf. by apply Forall_app in Hf as [Hf _].
Qed.

Lemma sorted_app_r a l1 l2 : StronglySorted Z.lt (a :: l1 ++ l2) → StronglySorted Z.lt (List.last l1 a :: l2).
Proof.
  revert a. induction l1 as [|x l1 IH]; intros a H; [done|].
  inversion H as [|? ? H1 _]; subst. specialize (IH x H1).
  replace (List.last (x :: l1) a) with (List.last l1 x); [done|].
  clear. revert x. induction l1 as [|y l1 IHl]; intros x; [done|]. cbn in *. destruct l1; [done|]. apply (IHl x).
Qed.

Section poll.
Context (snapshot_value : Snapshot → Value) (link_value : LinkSnapshot → Value).
Context (event_value : Z * EventRecord → Value) (sample_value : HistorySample → Value).
Context (pkg_version : string).

Notation handle := (handle snapshot_value link_value event_value sample_value pkg_version).

(** A client asks for the events after its cursor and takes the events and the
    next cursor out of the answer. *)
Definition poll (now since limit : Z) (s : Shared) : option (list Value * Z) :=
  let r := handle now s (mkRequest Get "/api/v1/events" (events_query since limit)) in
  data ← get "data" (body r);
  evs ← get "events" data ≫= as_array;
  next ← get "next_since" data ≫= as_u64;
  if status r =? 200 then Some (evs, next) else None.

(** Rounds of snapshots that arrive and a poll with a limit. *)
Record poll_round := mkPollRound { pr_snaps : list (Z * Snapshot); pr_now : Z; pr_limit : Z }.

Fixpoint poll_rounds (rounds : list poll_round) (since : Z) (s : Shared) : list (option (list Value)) :=
  match rounds with
  | [] => []
  | r :: rounds =>
      let s := foldl (λ s ns, reader_step s (Line ns.1 (Some ns.2))) s (pr_snaps r) in
      match poll (pr_now r) since (pr_limit r) s with
      | Some (evs, next) => Some evs :: poll_rounds rounds next s
      | None => [None]
      end
  end.

Definition round_events (r : poll_round) : list (Z * EventRecord) :=
  concat (map (λ ns, new_events ns.2) (pr_snaps r)).

Lemma poll_eq now since limit s :
  fits 64 since → 1 ≤ limit ≤ 500 →
  poll now since limit s = Some (map event_value (page since limit s), next_since since s).
Proof.
  intros Hs Hl. destruct (events_query_params since limit) as [Es El]; [apply Hs|lia|].
  unfold poll, Web.handle. cbn [path query String.eqb orb].
  unfold events_route, clamp_limit. rewrite Es, El, !parse_pretty by (done || (unfold fits; lia)).
  replace (Z.min (Z.max 1 limit) MAX_EVENTS_PER_REQUEST) with limit by (unfold MAX_EVENTS_PER_REQUEST; lia).
  done.
Qed.

Lemma ingest_events s snaps :
  (length (events s) ≤ EVENT_CAPACITY)%nat →
  let s' := foldl (λ s ns, reader_step s (Line ns.1 (Some ns.2))) s snaps in
  let all := events s ++ concat (map (λ ns, new_events ns.2) snaps) in
  events s' = drop (length all - EVENT_CAPACITY) all.
Proof.
  revert s. induction snaps as [|[now n] snaps IH]; intros s Hs; cbn zeta.
  { cbn. rewrite app_nil_r, (proj2 (Nat.sub_0_le _ _)) by done. done. }
  cbn [foldl]. specialize (IH (reader_step s (Line now (Some n)))). cbn zeta in IH.
  assert (events (reader_step s (Line now (Some n))) =
    drop (length (events s ++ new_events n) - EVENT_CAPACITY) (events s ++ new_events n)) as E.
  { cbn. apply foldl_push_capped; [unfold EVENT_CAPACITY; lia|done]. }
  cbn [fst snd]. rewrite IH by (rewrite E, length_drop; lia). rewrite E.
  rewrite <-(drop_app_le (events s ++ new_events n)) by lia.
  rewrite drop_drop. cbn [map concat]. rewrite <-!(assoc_L (++)). f_equal.
  rewrite length_drop, !length_app. cbn [snd]. lia.
Qed.

Lemma filter_since (old new : list (Z * EventRecord)) since :
  Forall (λ e, e.1 ≤ since) old → Forall (λ e, since < e.1) new →
  List.filter (λ e, since <? e.1) (old ++ new) = new.
Proof.
  intros Ho Hn. rewrite List.filter_app.
  assert (List.filter (λ e : Z * EventRecord, since <? e.1) old = []) as ->.
  { induction Ho as [|e old He _ IH]; [done|]. cbn. by rewrite (proj2 (Z.ltb_ge _ _) He). }
  induction Hn as [|e new He _ IH]; [done|]. cbn in *. by rewrite (proj2 (Z.ltb_lt _ _) He), IH.
Qed.

(** Up to date: nothing kept is newer than the cursor. *)
Definition caught_up (since : Z) (s : Shared) : Prop :=
  (length (events s) ≤ EVENT_CAPACITY)%nat ∧ Forall (λ e, e.1 ≤ since) (events s).

Lemma last_of_all {A} n (l : list A) : Z.of_nat (length l) ≤ n → last_of n l = l.
Proof. intros H. unfold last_of. by rewrite (proj2 (Nat.sub_0_le _ _)) by lia. Qed.

Lemma next_since_ge since s : since ≤ next_since since s.
Proof. unfold next_since. destruct (rev (events s)); lia. Qed.

(** One round of a client that is up to date. *)
Lemma round_caught_up r since s :
  fits 64 since → 1 ≤ pr_limit r ≤ 500 → len (round_events r) ≤ pr_limit r → caught_up since s →
  StronglySorted Z.lt (since :: map fst (round_events r)) →
  let s' := foldl (λ s ns, reader_step s (Line ns.1 (Some ns.2))) s (pr_snaps r) in
  let next := next_since since s' in
  poll (pr_now r) since (pr_limit r) s' = Some (map event_value (round_events r), next) ∧
  caught_up next s' ∧ next = List.last (map fst (round_events r)) since.
Proof.
  intros Hs Hl Hn [Hc Hold] Hsort s' next.
  pose proof (ingest_events s (pr_snaps r) Hc) as Hev. cbn zeta in Hev. fold s' (round_events r) in Hev.
  inversion Hsort as [|? ? Hsorted Hnew]; subst.
  assert (Forall (λ e, since < e.1) (round_events r)) as Hnew'.
  { exact (proj1 (Forall_fmap fst _ _) Hnew). }
  unfold len in Hn.
  rewrite drop_app_le in Hev by (rewrite length_app; unfold EVENT_CAPACITY in *; lia).
  set (old := drop _ (events s)) in Hev.
  assert (Forall (λ e : Z * EventRecord, e.1 ≤ since) old) as Ho by (by apply Forall_drop).
  assert (next = List.last (map fst (round_events r)) since) as Hnext.
  { unfold next, next_since. rewrite Hev, rev_app_distr.
    destruct (snoc_case (round_events r)) as [E|(l & e & E)]; rewrite E.
    - cbn [rev app map List.last]. destruct (rev old) as [|e l] eqn:Er; [done|].
      assert (e ∈ old) as Hin by (apply list_elem_of_In, in_rev; rewrite Er; by left).
      rewrite Forall_forall in Ho. specialize (Ho e Hin). lia.
    - rewrite rev_app_distr, map_app. cbn [map]. rewrite last_last. cbn. rewrite E in Hnew'.
      apply Forall_app in Hnew' as [_ Hnew'%Forall_inv]. lia. }
  split; [|split; [split|done]].
  - rewrite poll_eq by (done || lia). unfold page. rewrite Hev, filter_since by done.
    by rewrite last_of_all by lia.
  - pose proof (ingest_events s (pr_snaps r) Hc) as Hi. cbn zeta in Hi. fold s' in Hi.
    rewrite Hi, length_drop. lia.
  - rewrite Hev, Forall_app. pose proof (next_since_ge since s') as Hge. fold next in Hge. split.
    + eapply Forall_impl; [exact Ho|]. cbn. lia.
    + rewrite Hnext. pose proof (sorted_last since (map fst (round_events r)) Hsort) as Hl'.
      exact (proj1 (Forall_fmap fst _ _) Hl').
Qed.

(** A client that polls with the cursor it was given misses nothing and gets
    nothing twice. Once it is up to date, as long as the daemon's events come
    with increasing numbers and no more of them come between two polls than its
    limit (500 at most), every poll is answered with exactly the events
    that came since the one before, in their order. *)
Theorem events_polled_once rounds since s :
  fits 64 since → caught_up since s →
  Forall (λ r, 1 ≤ pr_limit r ≤ 500 ∧ len (round_events r) ≤ pr_limit r) rounds →
  StronglySorted Z.lt (since :: map fst (concat (map round_events rounds))) →
  Forall (λ e, e.1 < 2 ^ 64) (concat (map round_events rounds)) →
  poll_rounds rounds since s = map (λ r, Some (map event_value (round_events r))) rounds.
Proof.
  intros Hs Hc Hr. revert since s Hs Hc. induction Hr as [|r rounds [Hl Hn] _ IH]; intros since s Hs Hc Hsort Hb;
    [done|].
  cbn [map concat] in Hsort, Hb. rewrite map_app in Hsort. apply Forall_app in Hb as [Hb1 Hb2].
  destruct (round_caught_up r since s Hs Hl Hn Hc) as (Hp & Hc' & Hnext).
  { by apply (sorted_app_l _ _ (map fst (concat (map round_events rounds)))). }
  cbn [poll_rounds map]. rewrite Hp. f_equal. apply IH; [|done| |done].
  - rewrite Hnext. destruct (snoc_case (round_events r)) as [E|(l & e & E)]; rewrite E; [done|].
    rewrite map_app. cbn [map]. rewrite last_last. rewrite E in Hb1, Hsort. apply Forall_app in Hb1 as [_ Hb1%Forall_inv].
    inversion Hsort as [|? ? _ Hf]; subst. rewrite map_app in Hf. apply Forall_app in Hf as [Hf _].
    apply Forall_app in Hf as [_ Hf%Forall_inv]. unfold fits in *. cbn in *. lia.
  - rewrite Hnext. by apply sorted_app_r.
Qed.

End poll.

(** ** Examples *)

Module web_example.

Definition daemon : DaemonSnapshot :=
  let '(s, _, _) := build_snapshot (λ _, "addr") snapshot_example.view ring_new 0 ring_new 0 in
  sn_daemon s.
Definition ev (n : Z) : Z * EventRecord := (n, mkEventRecord 0 "info" "LINK_UP" None "up" []).
Definition snap (ns : list Z) : Z * Snapshot :=
  (0, mkSnap "vpn" "client" 0 [] daemon [] (map ev ns)).
Definition seq_value (e : Z * EventRecord) : Value := Num (PosInt e.1).
Definition started : Shared := on_connect Shared_default.
Notation poll_seqs := (poll_rounds (λ _, Object []) (λ _, Null) seq_value (λ _, Null) "1.0").

(** Two rounds, the second with two snapshots. *)
Lemma events_polled_once_witness :
  poll_seqs [mkPollRound [snap [1; 2]] 0 5; mkPollRound [snap [3]; snap [4]] 0 5] 0 started =
  [Some [Num (PosInt 1); Num (PosInt 2)]; Some [Num (PosInt 3); Num (PosInt 4)]].
Proof.
  etrans.
  - apply (events_polled_once (λ _, Object []) (λ _, Null) seq_value (λ _, Null) "1.0").
    + split; vm_compute; congruence.
    + split; [vm_compute; lia|constructor].
    + repeat constructor; vm_compute; congruence.
    + repeat constructor.
    + repeat constructor.
  - reflexivity.
Defined.

(** When more events came than the limit, the oldest are skipped and the cursor
    moves past them; and after a restart of the daemon, which numbers its events
    from 1 again, a client sees none until they pass its cursor. *)
Example burst_skipped :
  poll_seqs [mkPollRound [snap [1; 2; 3]] 0 2; mkPollRound [snap [4]] 0 2] 0 started =
  [Some [Num (PosInt 2); Num (PosInt 3)]; Some [Num (PosInt 4)]].
Proof. vm_compute. reflexivity. Qed.
Example restart_hides_events :
  let before := foldl reader_step started [Line 0 (Some (snd (snap [1; 2; 3])))] in
  let after := foldl reader_step before [Lost; Connected] in
  poll_seqs [mkPollRound [snap [1; 2]] 0 100; mkPollRound [snap [3; 4]] 0 100] 3 after =
  [Some []; Some [Num (PosInt 4)]].
Proof. vm_compute. reflexivity. Qed.

Definition bytes (s : string) : list Z := map code (String.list_ascii_of_string s).
Definition request (lines : list string) : list Z := bytes (String.concat crlf (lines ++ [""; ""])).
Notation serve := (serve_connection (λ _, Object []) (λ _, Null) seq_value (λ _, Null) "1.0").

(** A request in two pieces, and one by a hostile name. *)
Lemma only_local_reads_served_witness :
  let r := request ["GET /api/v1/version HTTP/1.1"; "Host: localhost:8765"] in
  ∃ resp, serve 0 [(0, Some (take 20 r)); (1, Some (drop 20 r))] Shared_default = Some (resp, false) ∧
    status resp = 200 ∧ ∃ head rest req, r = head ++ rest ∧ accepted (ascii_text head) req ∧
      method req = Get.
Proof.
  intros r.
  assert (∃ resp, serve 0 [(0, Some (take 20 r)); (1, Some (drop 20 r))] Shared_default = Some (resp, false) ∧
    status resp = 200) as (resp & Hs & Hst).
  { eexists. split; [vm_compute; reflexivity|reflexivity]. }
  exists resp. split; [exact Hs|]. split; [exact Hst|].
  destruct (only_local_reads_served (λ _, Object []) (λ _, Null) seq_value (λ _, Null) "1.0" 0
    [(0, Some (take 20 r)); (1, Some (drop 20 r))] [] resp false Hs)
    as [[(e & -> & _)|(head & rest & req & Hr & _ & _ & Ha & _ & Hm)] _].
  - destruct e; discriminate Hst.
  - exists head, rest, req. split; [rewrite <-Hr; vm_compute; reflexivity|]. split; [exact Ha|].
    destruct (method req); [reflexivity|discriminate Hm].
Defined.

Example hostile_name_refused :
  option_map (λ r, (status r.1, r.2))
    (serve 0 [(0, Some (request ["GET / HTTP/1.1"; "Host: localhost.evil.example"]))] Shared_default) =
  Some (421, false).
Proof. vm_compute. reflexivity. Qed.

End web_example.
