(* ===== verification/Outbound.v ===== *)
(** * The outbound task ([tunnel.rs])

    [tun_reader] with its queue, and [outbound_sender]: the loop that numbers the
    packets, folds the accepted ones into FEC groups and hands out the parity of
    the groups their gates released. The gates of all groups are machines of
    [FecGate], whose other steps the link workers take at any time; placing a
    job is [Dispatch]. *)

From S2P Require Import Prelude Bytes Protocol Gf256 F64 Configuration Fec FecGate ProbeHistory Link Dispatch Mss.

(** ** [tun_reader] *)

Definition OUTBOUND_QUEUE_CAPACITY : nat := 256.

(** The queue to [outbound_sender], whether its receiver is gone, and the
    count of the packets dropped. *)
Record Outbound := mkOutbound {
  ob_queue : list (list Z);
  ob_closed : bool;
  ob_dropped : Z }.

(** One turn on a packet read from the TUN device; [mtu] is the live MTU. *)
Definition tun_reader (clamp_mss : bool) (mtu : Z) (packet : list Z) (q : Outbound)
    : outcome Outbound :=
  p ← (if clamp_mss then clamp_if_tcp_syn packet mtu else Ok packet);
  if ob_closed q then Ok q
  else if bool_decide (length (ob_queue q) < OUTBOUND_QUEUE_CAPACITY)%nat
  then Ok (mkOutbound (ob_queue q ++ [p]) false (ob_dropped q))
  else Ok (mkOutbound (ob_queue q) false (wrap 64 (ob_dropped q + 1))).

(** The reader never panics, never waits, and loses a packet only by counting it:
    every packet is in the queue, which stays within its capacity, or in the
    count, as long as somebody reads the queue. *)
Lemma tun_reader_accounts clamp_mss mtu packet q :
  bytes_ok packet → len packet ≤ 65535 → 0 ≤ mtu < 65536 →
  (length (ob_queue q) ≤ OUTBOUND_QUEUE_CAPACITY)%nat → ob_closed q = false →
  ∃ q', tun_reader clamp_mss mtu packet q = Ok q' ∧ ob_closed q' = false ∧
    (length (ob_queue q') ≤ OUTBOUND_QUEUE_CAPACITY)%nat ∧
    ((∃ p, length p = length packet ∧ (clamp_mss = false → p = packet) ∧
        ob_queue q' = ob_queue q ++ [p] ∧ ob_dropped q' = ob_dropped q) ∨
     length (ob_queue q) = OUTBOUND_QUEUE_CAPACITY ∧
     ob_queue q' = ob_queue q ∧ ob_dropped q' = wrap 64 (ob_dropped q + 1)).
Proof.
  intros Hb Hl Hm Hq Hc. unfold tun_reader.
  assert (∃ p, (if clamp_mss then clamp_if_tcp_syn packet mtu else Ok packet) = Ok p ∧
    length p = length packet ∧ (clamp_mss = false → p = packet)) as (p & -> & Hp & Hp').
  { destruct clamp_mss; [|by exists packet].
    destruct (clamp_spec packet mtu Hb Hl Hm) as (p & -> & ? & _). by exists p. }
  cbn [mbind outcome_bind]. rewrite Hc. case_bool_decide as Hlen.
  - eexists. split_and!; [done|done| |left; by exists p]. cbn. rewrite length_app. cbn. lia.
  - eexists. split_and!; [done..|]. right. split; [lia|done].
Qed.

(** [outbound_queue_drop_reporter]: the new [last_reported], and the drops
    it warns of. *)
Definition outbound_queue_drop_reporter (total last_reported : Z) : Z * option Z :=
  let n := sat_sub total last_reported in
  (total, if 0 <? n then Some n else None).

(** ** [outbound_sender] *)

Definition FEC_READY_CAPACITY : nat := 256.

Record OutCfg := mkOutCfg {
  redundant_mode : bool;
  out_fec_enabled : bool;
  out_group_size : Z;
  out_parity : Z;
  out_placement : FecParityPlacement }.

Record FecSendStats := mkSendStats { st_groups : Z; st_parity_p : Z; st_parity_q : Z }.

(** What the task hands on: the copies of a job for the links of redundant mode,
    a job to [dispatch], a job to the queue that accepted it, with the gate and
    the member it carries. *)
Inductive Handed :=
  | Copies (job : TxJob) (targets : list nat)
  | Dispatched (job : TxJob) (forced : option nat)
  | OnLink (job : TxJob) (link gate member : nat).

(** At the [select!]; holding a frame, in [reserve]; between the two shares of a
    group. *)
Inductive OutPhase :=
  | AtSelect
  | Reserving (plaintext : list Z)
  | SendingQ (q : FecParityPayload) (forced : option nat).

(** [FecTx]: the accumulator, and the gates of all groups so far, the last
    one being that of the open group. *)
Record FecTx := mkFecTx { tx_sender : FecSender; tx_gates : list (FecGate (G := FecGroup)) }.

Record Out := mkOut {
  send_seq : Z;
  fec_tx : option FecTx;
  ready_rx : list FecGroup;
  fec_unrecoverable : Z;
  send_stats : FecSendStats;
  out_phase : OutPhase;
  handed : list Handed }.

Definition Out_new (cfg : OutCfg) : Out :=
  mkOut 0
    (if out_fec_enabled cfg && negb (redundant_mode cfg)
     then Some (mkFecTx (FecSender_new (out_group_size cfg) (out_parity cfg)) [FecGate_new])
     else None)
    [] 0 (mkSendStats 0 0 0) AtSelect [].

Definition set_phase (p : OutPhase) (s : Out) : Out :=
  mkOut (send_seq s) (fec_tx s) (ready_rx s) (fec_unrecoverable s) (send_stats s) p (handed s).
Definition set_fec (tx : FecTx) (s : Out) : Out :=
  mkOut (send_seq s) (Some tx) (ready_rx s) (fec_unrecoverable s) (send_stats s) (out_phase s)
    (handed s).
Definition set_ready (r : list FecGroup) (s : Out) : Out :=
  mkOut (send_seq s) (fec_tx s) r (fec_unrecoverable s) (send_stats s) (out_phase s) (handed s).
Definition lose_group (s : Out) : Out :=
  mkOut (send_seq s) (fec_tx s) (ready_rx s) (wrap 64 (fec_unrecoverable s + 1)) (send_stats s)
    (out_phase s) (handed s).
Definition set_stats (t : FecSendStats) (s : Out) : Out :=
  mkOut (send_seq s) (fec_tx s) (ready_rx s) (fec_unrecoverable s) t (out_phase s) (handed s).
(** [next_send_seq]: the number given and the state after it. *)
Definition next_send_seq (s : Out) : Z * Out :=
  (send_seq s,
   mkOut (wrap 64 (send_seq s + 1)) (fec_tx s) (ready_rx s) (fec_unrecoverable s) (send_stats s)
     (out_phase s) (handed s)).
Definition hand (h : Handed) (s : Out) : Out :=
  mkOut (send_seq s) (fec_tx s) (ready_rx s) (fec_unrecoverable s) (send_stats s) (out_phase s)
    (handed s ++ [h]).

(** The frame's arm of the loop, from [reserve]'s answer. [seal] stores the group
    here; the release of the owner's token that follows is a step of the gate.
    Nothing can be between [join] and the store: the owner's token keeps the
    counter from zero. *)
Definition fec_frame (now : Z) (link : nat) (p : list Z) (tx : FecTx) (s : Out) : Out :=
  let '(seq, s) := next_send_seq s in
  let k := pred (length (tx_gates tx)) in
  let i := length (from_option members [] (tx_gates tx !! k)) in
  let gates := alter join k (tx_gates tx) in
  let '(sender, group) := accumulate (tx_sender tx) seq p link in
  let gates := match group with
               | Some g => alter (λ t, at_owner OStored (store_group (Some g) t)) k gates
                           ++ [FecGate_new]
               | None => gates
               end in
  hand (OnLink (mkJob Data seq p false now (Some false)) link k i)
    (set_fec (mkFecTx sender gates) s).

Definition frame_turn (cfg : OutCfg) (now : Z) (ls : list (Link * bool)) (reserved : option nat)
    (p : list Z) (s : Out) : Out :=
  if redundant_mode cfg then
    match redundant_targets ls with
    | [] => s
    | targets => let '(seq, s) := next_send_seq s in hand (Copies (TxJob_new now Data seq p) targets) s
    end
  else
    match fec_tx s with
    | None => let '(seq, s) := next_send_seq s in hand (Dispatched (TxJob_new now Data seq p) None) s
    | Some tx =>
        match reserved with
        | None => s
        | Some link => fec_frame now link p tx s
        end
    end.

Definition parity_headroom (cfg : OutCfg) : Z :=
  if out_fec_enabled cfg then parity_frame_overhead_bytes (out_group_size cfg) else 0.

(** [send_fec_parity] up to the dispatch of the [P] share. *)
Definition send_fec_parity (cfg : OutCfg) (now mtu : Z) (ls : list (Link * bool)) (g : FecGroup)
    (s : Out) : Out :=
  let parity_bytes := FecParityPayload_encode (group_p g) in
  let budget := mtu + parity_headroom cfg in
  if budget <? len parity_bytes then lose_group s
  else
    let forced := if bool_decide (out_placement cfg = Configuration.Scheduler) then None
                  else choose_parity_link (out_placement cfg) (group_member_links g)
                         (map pinned_usable ls) in
    let t := send_stats s in
    let s := set_stats (mkSendStats (wrap 64 (st_groups t + 1)) (wrap 64 (st_parity_p t + 1))
                          (if group_q g then wrap 64 (st_parity_q t + 1) else st_parity_q t)) s in
    let '(seq, s) := next_send_seq s in
    let s := hand (Dispatched (TxJob_new now FecParity seq parity_bytes) forced) s in
    match group_q g with Some q => set_phase (SendingQ q forced) s | None => s end.

Definition send_q (now : Z) (q : FecParityPayload) (forced : option nat) (s : Out) : Out :=
  let '(seq, s) := next_send_seq s in
  set_phase AtSelect (hand (Dispatched (TxJob_new now FecParityQ seq (FecParityPayload_encode q))
                              forced) s).

(** What a step of a gate does to the channel and the counter that the gates
    share. *)
Definition gate_effect (k : nat) (g g' : FecGate (G := FecGroup)) (tx : FecTx) (s : Out) : Out :=
  mkOut (send_seq s) (Some (mkFecTx (tx_sender tx) (<[k := g']> (tx_gates tx))))
    (ready_rx s ++ drop (length (ready g)) (ready g'))
    (wrap 64 (fec_unrecoverable s + (unrecoverable g' - unrecoverable g)))
    (send_stats s) (out_phase s) (handed s).

(** A step of a gate other than [join] and the store of [seal], with [try_send]
    failing when the channel is full and only then. *)
Definition gate_work (room : bool) (g g' : FecGate (G := FecGroup)) : Prop :=
  gate_step g g' ∧ length (members g') = length (members g) ∧
  (owner_at g = OOpen → owner_at g' = OOpen) ∧
  (ready g' ≠ ready g → room = true) ∧
  (unrecoverable g' ≠ unrecoverable g → phantom g = true ∨ room = false).

(** The loop, the other tasks that take sequence numbers, and the gates. *)
Inductive out_step (cfg : OutCfg) : Out → Out → Prop :=
  | out_group s g r now mtu ls :
      out_phase s = AtSelect → ready_rx s = g :: r → 0 ≤ mtu →
      out_step cfg s (send_fec_parity cfg now mtu ls g (set_ready r s))
  | out_q s q forced now :
      out_phase s = SendingQ q forced → out_step cfg s (send_q now q forced s)
  | out_take s p :
      out_phase s = AtSelect → ready_rx s = [] → bytes_ok p → len p ≤ 65535 →
      out_step cfg s (set_phase (Reserving p) s)
  | out_frame s p now ls reserved :
      out_phase s = Reserving p →
      out_step cfg s (frame_turn cfg now ls reserved p (set_phase AtSelect s))
  | out_other_seq s : out_step cfg s (next_send_seq s).2
  | out_gate s tx k g g' :
      fec_tx s = Some tx → tx_gates tx !! k = Some g →
      gate_work (bool_decide (length (ready_rx s) < FEC_READY_CAPACITY)%nat) g g' →
      out_step cfg s (gate_effect k g g' tx s).

(** ** The gates at work *)

Notation gate := (FecGate (G := FecGroup)).

(** A gate has the group somewhere: stored, taken, or released. *)
Definition has_group (x : FecGroup) (g : gate) : Prop :=
  group g = Some x ∨ (∃ c, MCheck c x ∈ members g) ∨ owner_at g = OCheck x ∨ x ∈ ready g.

Lemma elem_of_moved {A} (l : list A) i x y : y ∈ <[i := x]> l → y = x ∨ y ∈ l.
Proof.
  intros [j Hj]%list_elem_of_lookup. apply list_lookup_insert_Some in Hj as [(_ & -> & _)|[_ Hj]];
    [by left|right]. by eapply list_elem_of_lookup_2.
Qed.

Lemma has_group_moved x g i m :
  has_group x (at_member i m g) → has_group x g ∨ ∃ c, m = MCheck c x.
Proof.
  intros [H|[[c [Hc|Hc]%elem_of_moved]|[H|H]]].
  - by left; left.
  - right. by exists c.
  - left. right. left. by exists c.
  - left. by do 2 right; left.
  - left. by do 3 right.
Qed.

Lemma has_group_resolved x y room g :
  has_group x (resolve y room g) → has_group x g ∨ x = y.
Proof.
  unfold resolve. destruct (phantom g || negb room).
  - by left.
  - intros [H|[H|[H|[H|H%list_elem_of_singleton]%elem_of_app]]]; cbn in *; [| | | |by right]; left;
      unfold has_group; tauto.
Qed.

Lemma has_group_step x g g' :
  gate_step g g' → (owner_at g = OOpen → owner_at g' = OOpen) → has_group x g' → has_group x g.
Proof.
  intros Hs Ho H'. destruct Hs as [g Hop|g i c Hi|g i c Hi|g g' i c last Hi Hf|g y Hop|g g' last Hop Hf
    |g i c Hi|g Hop|g i c y room Hi|g y room Hop].
  - destruct H' as [H'|[(c & [H'|H'%list_elem_of_singleton]%elem_of_app)|H']]; unfold has_group;
      cbn in *; eauto. done.
  - apply has_group_moved in H' as [?|[? ?]]; done.
  - apply has_group_moved in H' as [?|[? ?]]; done.
  - injection Hf as <- <-. apply has_group_moved in H' as [?|[d Hd]]; [done|]. by destruct (_ =? 1).
  - rewrite Hop in Ho. by specialize (Ho eq_refl).
  - injection Hf as <- <-. destruct H' as [H'|[H'|[H'|H']]]; unfold has_group; cbn in *; eauto.
    by destruct (_ =? 1).
  - apply has_group_moved in H' as [H'|[d Hd]].
    + destruct H' as [H'|H']; [done|]. by right.
    + left. by destruct (group g) as [y|]; inversion Hd.
  - destruct H' as [H'|[H'|[H'|H']]]; unfold has_group; cbn in *; eauto; [done|].
    destruct (group g); [|done]. left. by inversion H'.
  - apply has_group_moved in H' as [[H'| ->]%has_group_resolved|[d Hd]]; [done| |done].
    right; left. exists c. by eapply list_elem_of_lookup_2.
  - assert (has_group x (resolve y room g)) as [H1| ->]%has_group_resolved.
    { destruct H' as [H'|[H'|[H'|H']]]; unfold has_group; cbn in *; eauto. done. }
    + done.
    + by right; right; left.
Qed.

(** What a step tells the channel and the counter. *)
Lemma gate_tells g g' :
  gate_step g g' →
  ready g' = ready g ∧ unrecoverable g' = unrecoverable g ∨
  ready g' = ready g ∧ unrecoverable g' = unrecoverable g + 1 ∨
  ∃ x, has_group x g ∧ ready g' = ready g ++ [x] ∧ unrecoverable g' = unrecoverable g.
Proof.
  assert (∀ x room (t : gate), has_group x g → ready t = ready g → unrecoverable t = unrecoverable g →
    let r := resolve x room t in
    ready r = ready g ∧ unrecoverable r = unrecoverable g ∨
    ready r = ready g ∧ unrecoverable r = unrecoverable g + 1 ∨
    ∃ x, has_group x g ∧ ready r = ready g ++ [x] ∧ unrecoverable r = unrecoverable g) as Hres.
  { intros x room t Hx Hr Hu. cbn. unfold resolve.
    destruct (phantom t || negb room); cbn; rewrite Hr, Hu; eauto 6. }
  intros Hs. destruct Hs as [g Hop|g i c Hi|g i c Hi|g g' i c last Hi Hf|g y Hop|g g' last Hop Hf
    |g i c Hi|g Hop|g i c y room Hi|g y room Hop]; try (by left);
    try (injection Hf as <- <-; by left).
  - apply (Hres y room g); [|done..]. right; left. exists c. by eapply list_elem_of_lookup_2.
  - apply (Hres y room g); [|done..]. by right; right; left.
Qed.

(** ** What has been handed on *)

(** The frames a link's queue accepted, with the gate and member of each, and
    the payloads of one type given to [dispatch]. *)
Definition accepted (s : Out) : list frame :=
  omap (λ h, match h with OnLink j l _ _ => Some (mkFrame (j_seq j) (plaintext j) l) | _ => None end)
    (handed s).
Definition member_ids (s : Out) : list (nat * nat) :=
  omap (λ h, match h with OnLink _ _ k i => Some (k, i) | _ => None end) (handed s).
Definition parities (t : PacketType) (s : Out) : list (list Z) :=
  omap (λ h, match h with
             | Dispatched j _ => if bool_decide (j_ptype j = t) then Some (plaintext j) else None
             | _ => None end) (handed s).

(** Group [k] of a stream of frames, and a share of it on the wire. *)
Definition chunk (n : nat) (fs : list frame) (k : nat) : list frame := take n (drop (n * k) fs).
Definition share_of (coef : nat → Z) (n : nat) (fs : list frame) (k : nat) : list Z :=
  FecParityPayload_encode (payload_of coef (chunk n fs k)).

Lemma chunk_app n fs fs' k : (n * S k ≤ length fs)%nat → chunk n (fs ++ fs') k = chunk n fs k.
Proof. intros H. unfold chunk. rewrite drop_app_le, take_app_le by (rewrite ?length_drop; lia). done. Qed.

Lemma chunk_length n fs k : (n * S k ≤ length fs)%nat → length (chunk n fs k) = n.
Proof. intros H. unfold chunk. rewrite length_take, length_drop. lia. Qed.

Definition gate_sum (f : gate → nat) (gs : list gate) : nat := sum_list_with f gs.
#[local] Arguments gate_sum : simpl never.
Definition gate_released (g : gate) : nat := length (ready g).
Definition gate_lost (g : gate) : nat := Z.to_nat (unrecoverable g).

Lemma gate_sum_insert f gs k g g' :
  gs !! k = Some g → (gate_sum f (<[k := g']> gs) + f g = gate_sum f gs + f g')%nat.
Proof.
  unfold gate_sum. revert k; induction gs as [|x gs IH]; intros [|k] H; try done; simpl in *.
  - injection H as ->. lia.
  - specialize (IH k H). lia.
Qed.

Lemma gate_sum_alter f h gs k : (∀ g, f (h g) = f g) → gate_sum f (alter h k gs) = gate_sum f gs.
Proof.
  intros Hh. unfold gate_sum. revert k; induction gs as [|x gs IH]; intros [|k]; cbn; auto.
Qed.

Lemma gate_sum_add f h gs : gate_sum (λ g, f g + h g)%nat gs = (gate_sum f gs + gate_sum h gs)%nat.
Proof. unfold gate_sum. induction gs as [|g gs IH]; simpl; lia. Qed.

Lemma gate_sum_app f gs gs' : gate_sum f (gs ++ gs') = (gate_sum f gs + gate_sum f gs')%nat.
Proof. apply sum_list_with_app. Qed.

(** The gate of group [k] when [q] groups are full. *)
Record gate_ok (n : nat) (wq : bool) (fs : list frame) (q k : nat) (g : gate) : Prop := {
  go_inv : gate_inv g;
  go_full : (k < q)%nat → owner_at g ≠ OOpen ∧ length (members g) = n ∧
              ∀ x, has_group x g → x = group_of wq (chunk n fs k);
  go_open : k = q → owner_at g = OOpen ∧ (length (members g) + n * q = length fs)%nat }.

(** [ks] are the groups whose parity was sent, [lost] those whose parity did not
    fit, [rdy] those that wait in the channel. *)
Record out_inv (n : nat) (wq : bool) (s : Out) (tx : FecTx) (ks lost rdy : list nat) : Prop := {
  oi_tx : fec_tx s = Some tx;
  oi_frames : Forall frame_ok (accepted s);
  oi_size : let q := pred (length (tx_gates tx)) in
    (0 < length (tx_gates tx))%nat ∧ (n * q ≤ length (accepted s) < n * q + n)%nat ∧
    tx_sender tx = sender_state n wq (drop (n * q) (accepted s));
  oi_gates : ∀ k g, tx_gates tx !! k = Some g →
    gate_ok n wq (accepted s) (pred (length (tx_gates tx))) k g;
  oi_ready : ready_rx s = (λ k, group_of wq (chunk n (accepted s) k)) <$> rdy;
  oi_nodup : NoDup (ks ++ lost ++ rdy);
  oi_released : ∀ k, k ∈ ks ++ lost ++ rdy → ∃ g, tx_gates tx !! k = Some g ∧ ready g ≠ [];
  oi_p : parities FecParity s = share_of coef_p n (accepted s) <$> ks;
  oi_q : parities FecParityQ s
         ++ match out_phase s with SendingQ q _ => [FecParityPayload_encode q] | _ => [] end
         = if wq then share_of coef_q n (accepted s) <$> ks else [];
  oi_total : fec_unrecoverable s
             = wrap 64 (Z.of_nat (length lost + gate_sum gate_lost (tx_gates tx)));
  oi_count : gate_sum gate_released (tx_gates tx) = length (ks ++ lost ++ rdy);
  oi_ids : ∀ j k i, member_ids s !! j = Some (k, i) → (j = n * k + i ∧ i < n)%nat;
  oi_ids_len : length (member_ids s) = length (accepted s);
  oi_phase : match out_phase s with Reserving p => bytes_ok p ∧ len p ≤ 65535 | _ => True end;
  oi_seq : fits 64 (send_seq s) }.

Lemma released_full n wq s tx ks lost rdy k :
  out_inv n wq s tx ks lost rdy → k ∈ ks ++ lost ++ rdy →
  (n * S k ≤ length (accepted s))%nat ∧
  ∃ g, tx_gates tx !! k = Some g ∧ members g = replicate n (MDone true).
Proof.
  intros I Hk. destruct (oi_released _ _ _ _ _ _ _ I k Hk) as (g & Hg & Hr).
  destruct (oi_gates _ _ _ _ _ _ _ I k g Hg) as [Hi Hf Ho].
  destruct (released_carried g Hi) as [_ Hd]. destruct (Hd Hr) as [Hown Hall].
  pose proof (lookup_lt_Some _ _ _ Hg) as Hlt.
  assert (k < pred (length (tx_gates tx)))%nat as Hkq.
  { destruct (decide (k = pred (length (tx_gates tx)))) as [->|]; [|lia].
    destruct (Ho eq_refl) as [E _]. congruence. }
  destruct (oi_size _ _ _ _ _ _ _ I) as (_ & Hn & _). split; [nia|].
  exists g. split; [done|]. destruct (Hf Hkq) as (_ & <- & _).
  clear -Hall. induction (members g) as [|m l IH]; [done|]. cbn.
  rewrite (Hall m) by apply list_elem_of_here. f_equal. apply IH. intros m' Hm'.
  apply Hall. by apply list_elem_of_further.
Qed.

(** Handing a job to [dispatch] adds it to what is dispatched. *)
Lemma hand_dispatched x s job forced :
  handed x = handed s ++ [Dispatched job forced] →
  accepted x = accepted s ∧ member_ids x = member_ids s ∧
  ∀ t, parities t x = parities t s ++ (if bool_decide (j_ptype job = t) then [plaintext job] else []).
Proof.
  intros E. unfold accepted, member_ids, parities. rewrite E, !omap_app. cbn. rewrite !app_nil_r.
  split_and!; [done..|]. intros t. rewrite omap_app. cbn. by case_bool_decide.
Qed.

Lemma inv_send_parity cfg n wq s tx ks lost rdy g r now mtu ls :
  out_inv n wq s tx ks lost rdy → out_phase s = AtSelect → ready_rx s = g :: r →
  ∃ ks lost rdy, out_inv n wq (send_fec_parity cfg now mtu ls g (set_ready r s)) tx ks lost rdy.
Proof.
  intros [] Hp Hr. rewrite Hr in oi_ready0. destruct rdy as [|k rdy]; [done|].
  injection oi_ready0 as Hg Hrest. rewrite Hp in *. unfold send_fec_parity.
  destruct (_ <? _).
  - exists ks, (lost ++ [k]), rdy.
    assert (ks ++ (lost ++ [k]) ++ rdy = ks ++ lost ++ k :: rdy) as E by (f_equal; by rewrite <- app_assoc).
    split; cbn; rewrite ?E, ?Hp; try done.
    rewrite oi_total0, wrap_add_l, length_app. cbn. f_equal. lia.
  - exists (ks ++ [k]), lost, rdy.
    assert (ks ++ lost ++ k :: rdy ≡ₚ (ks ++ [k]) ++ lost ++ rdy) as E.
    { rewrite <- (app_assoc ks [k]). apply Permutation_app_head. symmetry. exact (Permutation_middle lost rdy k). }
    assert (group_p g = payload_of coef_p (chunk n (accepted s) k) ∧
            group_q g = if wq then Some (payload_of coef_q (chunk n (accepted s) k)) else None)
      as [Eg Eq] by by subst g.
    set (forced := if bool_decide _ then _ else _). clearbody forced.
    cbn. set (job := TxJob_new now FecParity (send_seq s) (FecParityPayload_encode (group_p g))).
    set (x := match group_q g with Some _ => _ | None => _ end).
    assert (handed x = handed s ++ [Dispatched job forced]) as (Ea & Ei & Epar)%hand_dispatched
      by (subst x; by destruct (group_q g)).
    assert (fec_tx x = fec_tx s ∧ ready_rx x = r ∧ fec_unrecoverable x = fec_unrecoverable s ∧
            send_seq x = wrap 64 (send_seq s + 1) ∧
            out_phase x = match group_q g with Some q => SendingQ q forced | None => AtSelect end)
      as (Et & Er & Eu & Es & Eph) by (subst x; by destruct (group_q g)).
    clearbody x. rewrite app_nil_r in oi_q0.
    split; rewrite ?Ea, ?Ei, ?Et, ?Er, ?Eu, ?Es, ?Eph; try done.
    + by rewrite <- E.
    + intros k' Hk'. apply oi_released0. by rewrite E.
    + rewrite Epar, oi_p0, fmap_app. cbn. by rewrite Eg.
    + rewrite Epar, oi_q0, Eq. cbn. rewrite app_nil_r. destruct wq; [|done]. by rewrite fmap_app.
    + rewrite oi_count0. by rewrite E.
    + by destruct (group_q g).
    + apply wrap_fits. lia.
Qed.

Lemma inv_send_q n wq s tx ks lost rdy q forced now :
  out_inv n wq s tx ks lost rdy → out_phase s = SendingQ q forced →
  out_inv n wq (send_q now q forced s) tx ks lost rdy.
Proof.
  intros [] Hp. rewrite Hp in *.
  assert (handed (send_q now q forced s) = handed s ++ [Dispatched
    (TxJob_new now FecParityQ (send_seq s) (FecParityPayload_encode q)) forced])
    as (Ea & Ei & Epar)%hand_dispatched by done.
  split; rewrite ?Ea, ?Ei; try done.
  - rewrite Epar, oi_p0. apply app_nil_r.
  - rewrite Epar, <- oi_q0. apply app_nil_r.
  - apply wrap_fits. lia.
Qed.

(** A step of a gate keeps the invariant; a released group joins the channel. *)
Lemma gate_ok_step n wq fs q k room g g' :
  gate_ok n wq fs q k g → gate_work room g g' → gate_ok n wq fs q k g'.
Proof.
  intros [Hi Hf Ho] (Hs & Hl & Hopen & _). split.
  - apply (inv_step g); [done..|]. destruct Hi. unfold len in *. by rewrite Hl.
  - intros Hk. destruct (Hf Hk) as (Hn & Hm & Hg). rewrite Hl. split_and!; [|done|].
    + destruct Hs as [? E|? ? ? E|? ? ? E|? ? ? ? ? E E'|? ? E|? ? ? E E'|? ? ? E|? E|? ? ? ? ? E|? ? ? E];
        try injection E' as <- <-; cbn; try done; try by destruct (_ =? 1).
      * by destruct (group s).
      * unfold resolve. by destruct (_ || _).
    + intros x Hx. apply Hg. by apply (has_group_step x g g').
  - intros Hk. destruct (Ho Hk). rewrite Hl. auto.
Qed.

Lemma inv_gate n wq s tx ks lost rdy k g g' room :
  out_inv n wq s tx ks lost rdy → tx_gates tx !! k = Some g → gate_work room g g' →
  ∃ rdy, out_inv n wq (gate_effect k g g' tx s)
           (mkFecTx (tx_sender tx) (<[k := g']> (tx_gates tx))) ks lost rdy.
Proof.
  intros [] Hk Hw. pose proof Hw as (Hs & Hl & _).
  pose proof (gate_ok_step _ _ _ _ _ _ _ _ (oi_gates0 k g Hk) Hw) as Hok.
  pose proof (gate_sum_insert gate_released _ _ _ g' Hk) as Sr.
  pose proof (gate_sum_insert gate_lost _ _ _ g' Hk) as Su.
  pose proof (lookup_lt_Some _ _ _ Hk) as Hlt.
  assert (0 ≤ unrecoverable g) as Hu0.
  { destruct (oi_gates0 k g Hk) as [[] _ _]. destruct (decide (0 < tokens g)%nat) as [Ht|Ht].
    - destruct gi_before as (_ & _ & -> & _); [done|lia].
    - destruct gi_after as [(_ & ->)|(_ & _ & ?)]; lia. }
  assert (∀ rdy' more, ready g' = ready g ++ more → length more = length rdy' →
     more = (λ k, group_of wq (chunk n (accepted s) k)) <$> rdy' →
     unrecoverable g ≤ unrecoverable g' → NoDup (rdy ++ rdy') →
     (∀ j, j ∈ rdy' → j = k ∧ j ∉ ks ++ lost ++ rdy) →
     ∃ rdy, out_inv n wq (gate_effect k g g' tx s)
           (mkFecTx (tx_sender tx) (<[k := g']> (tx_gates tx))) ks lost rdy) as Hmk.
  { intros rdy' more Hr Hlen Hmore Hu Hnd Hnew. exists (rdy ++ rdy').
    split; cbn; rewrite ?length_insert; try done.
    - intros j gj. destruct (decide (j = k)) as [->|Hj].
      + rewrite list_lookup_insert_eq by done. by intros [= <-].
      + rewrite list_lookup_insert_ne by done. apply oi_gates0.
    - rewrite Hr, drop_app_length, oi_ready0, fmap_app. by rewrite Hmore.
    - rewrite !(app_assoc _ _ rdy'). rewrite app_assoc. apply NoDup_app. split_and!; [by rewrite <- app_assoc| |].
      + intros j Hj Hj'. destruct (Hnew j Hj') as [_ []]. by rewrite app_assoc.
      + by apply NoDup_app in Hnd as (_ & _ & ?).
    - intros j Hj. destruct (decide (j = k)) as [->|Hjk].
      + exists g'. rewrite list_lookup_insert_eq by done. split; [done|].
        assert (k ∈ ks ++ lost ++ rdy ∨ k ∈ rdy') as [Hin|Hin] by set_solver.
        * destruct (oi_released0 k Hin) as (g0 & Hg0 & Hne). rewrite Hr.
          assert (g0 = g) as -> by congruence. by destruct (ready g).
        * rewrite Hr. destruct rdy'; [by apply not_elem_of_nil in Hin|]. destruct more; [done|].
          by destruct (ready g).
      + rewrite list_lookup_insert_ne by done. apply oi_released0.
        assert (j ∈ ks ++ lost ++ rdy ∨ j ∈ rdy') as [?|Hin] by set_solver; [done|].
        by destruct (Hnew j Hin).
    - rewrite oi_total0, wrap_add_l. f_equal. unfold gate_lost in Su at 2 4. lia.
    - unfold gate_released in Sr at 2 4. rewrite Hr, length_app in Sr.
      rewrite !(app_assoc _ _ rdy'), app_assoc, length_app, <- app_assoc. lia. }
  destruct (gate_tells g g' Hs) as [[Hr Hu]|[[Hr Hu]|(x & Hx & Hr & Hu)]].
  - apply (Hmk [] []); rewrite ?app_nil_r, ?Hu; try done; try lia; [|set_solver].
    rewrite app_assoc in oi_nodup0. by apply NoDup_app in oi_nodup0 as (_ & _ & ?).
  - apply (Hmk [] []); rewrite ?app_nil_r, ?Hu; try done; try lia; [|set_solver].
    rewrite app_assoc in oi_nodup0. by apply NoDup_app in oi_nodup0 as (_ & _ & ?).
  - assert (ready g = []) as Hg0.
    { destruct (released_carried g' (go_inv _ _ _ _ _ _ Hok)) as [Hle _].
      rewrite Hr, length_app in Hle. cbn in Hle. apply nil_length_inv. lia. }
    assert (k ∉ ks ++ lost ++ rdy) as Hnew.
    { intros Hin. destruct (oi_released0 k Hin) as (g0 & ? & ?). congruence. }
    assert (x = group_of wq (chunk n (accepted s) k)) as ->.
    { destruct Hok as [Hi' Hf' Ho']. destruct Hf' as (_ & _ & Hf'); [|apply Hf'; do 3 right; rewrite Hr; set_solver].
      destruct (decide (k = pred (length (tx_gates tx)))) as [E|]; [|lia].
      destruct (Ho' E) as [Eo _].
      destruct (released_carried g' Hi') as [_ Hd]. destruct Hd as [Hd _]; [by rewrite Hr, Hg0|].
      congruence. }
    apply (Hmk [k] [group_of wq (chunk n (accepted s) k)]); try done; [lia| |].
    + rewrite app_assoc in oi_nodup0. apply NoDup_app in oi_nodup0 as (_ & _ & ?).
      apply NoDup_app. split_and!; [done| |apply NoDup_singleton]. set_solver.
    + set_solver.
Qed.

(** An open gate has no group, so sealing gives it its one. *)
Lemma open_empty x g : gate_inv g → owner_at g = OOpen → ¬ has_group x g.
Proof.
  intros [] Ho. destruct gi_before as (Hb & Hr & _); [unfold tokens; rewrite Ho; simpl; lia|].
  intros [Hg|[[c Hc]|[Hc|Hx]]].
  - by rewrite gi_open in Hg.
  - apply list_elem_of_lookup in Hc as [i Hi]. destruct (member_token_le _ _ _ Hi) as [_ Hle].
    unfold busy in Hb. simpl in Hle. lia.
  - congruence.
  - rewrite Hr in Hx. by apply not_elem_of_nil in Hx.
Qed.

Lemma gate_ok_grow n wq fs f q q' k g :
  gate_ok n wq fs q k g → (k < q ≤ q')%nat → (n * q ≤ length fs)%nat → gate_ok n wq (fs ++ [f]) q' k g.
Proof.
  intros [Hi Hf _] Hk Hn. split; [done| |lia]. intros _.
  rewrite chunk_app by nia. apply Hf. lia.
Qed.

Lemma gate_ok_join n wq fs f q g :
  gate_ok n wq fs q q g → len (members g) + 1 < 2 ^ 32 - 1 →
  gate_ok n wq (fs ++ [f]) q q (join g).
Proof.
  intros [Hi _ Ho] Hn. destruct (Ho eq_refl) as [Hop Hl]. split; [by apply inv_join|lia|].
  intros _. split; [done|]. cbn. rewrite !length_app. cbn. lia.
Qed.

Lemma gate_ok_seal n wq fs q g x :
  gate_ok n wq fs q q g → length fs = (n * S q)%nat → x = group_of wq (chunk n fs q) →
  gate_ok n wq fs (S q) q (at_owner OStored (store_group (Some x) g)).
Proof.
  intros [Hi _ Ho] Hn ->. destruct (Ho eq_refl) as [Hop Hl]. split; [by apply inv_seal| |lia].
  intros _. split_and!; [done|cbn; nia|].
  intros y [[= <-]|Hy]; [done|]. exfalso. apply (open_empty y g Hi Hop).
  unfold has_group in *. cbn in Hy. destruct Hy as [?|[?|?]]; [tauto|done|tauto].
Qed.

Lemma gate_ok_new n wq fs q : length fs = (n * q)%nat → gate_ok n wq fs q q FecGate_new.
Proof. intros Hn. split; [apply inv_new|lia|]. intros _. split; [done|]. cbn. lia. Qed.

(** [now] and the link aside, a frame that was accepted is the next of the
    stream. *)
Lemma hand_on_link x s job link k i :
  handed x = handed s ++ [OnLink job link k i] →
  accepted x = accepted s ++ [mkFrame (j_seq job) (plaintext job) link] ∧
  member_ids x = member_ids s ++ [(k, i)] ∧ ∀ t, parities t x = parities t s.
Proof.
  intros E. unfold accepted, member_ids, parities. rewrite E, !omap_app. cbn.
  split_and!; [done..|]. intros t. by rewrite omap_app, app_nil_r.
Qed.

Lemma inv_fec_frame n wq s tx ks lost rdy now link p :
  (1 ≤ n ≤ 255)%nat → out_inv n wq s tx ks lost rdy → out_phase s = AtSelect →
  bytes_ok p → len p ≤ 65535 →
  ∃ tx', out_inv n wq (fec_frame now link p tx s) tx' ks lost rdy.
Proof.
  intros Hn I Hph Hb Hlen. pose proof (λ k, released_full _ _ _ _ _ _ _ k I) as Hfull. destruct I.
  set (f := mkFrame (send_seq s) p link). assert (frame_ok f) as Hf by done.
  destruct oi_size0 as (Hg0 & Hq & Hsender).
  set (q := pred (length (tx_gates tx))) in *.
  assert (length (tx_gates tx) = S q) as Hlq by (unfold q; lia).
  destruct (lookup_lt_is_Some_2 (tx_gates tx) q) as [g Hg]; [lia|].
  pose proof (oi_gates0 q g Hg) as Hok. destruct (go_open _ _ _ _ _ _ Hok eq_refl) as [Hop Hl].
  assert (gate_ok n wq (accepted s ++ [f]) q q (join g)) as Hjoin by (apply gate_ok_join; [done|unfold len; lia]).
  unfold fec_frame, next_send_seq. fold q. rewrite Hg, Hsender. cbn [from_option].
  pose proof (accumulate_state n wq (drop (n * q) (accepted s)) f Hf) as Hacc.
  cbn [f_seq f_data f_link f] in Hacc. rewrite Hacc, length_drop. clear Hacc.
  assert (∀ x gates' tx', fec_tx x = Some tx' → tx_gates tx' = gates' →
    handed x = handed s ++ [OnLink (mkJob Data (send_seq s) p false now (Some false)) link q
                              (length (members g))] →
    ready_rx x = ready_rx s → fec_unrecoverable x = fec_unrecoverable s →
    send_seq x = wrap 64 (send_seq s + 1) → out_phase x = AtSelect →
    (let q' := pred (length gates') in
     (0 < length gates')%nat ∧ (n * q' ≤ length (accepted s ++ [f]) < n * q' + n)%nat ∧
     tx_sender tx' = sender_state n wq (drop (n * q') (accepted s ++ [f]))) →
    (∀ k g, gates' !! k = Some g → gate_ok n wq (accepted s ++ [f]) (pred (length gates')) k g) →
    (∀ k g, tx_gates tx !! k = Some g → ∃ g', gates' !! k = Some g' ∧ ready g' = ready g) →
    gate_sum gate_lost gates' = gate_sum gate_lost (tx_gates tx) →
    gate_sum gate_released gates' = gate_sum gate_released (tx_gates tx) →
    out_inv n wq x tx' ks lost rdy) as Hmk.
  { intros x gates' tx' Ht <- (Ea & Ei & Epar)%hand_on_link Hr Hu Hs Hp Hsz Hgs Hrel Hsl Hsr.
    fold f in Ea. assert (∀ coef k, k ∈ ks ++ lost ++ rdy →
      share_of coef n (accepted s ++ [f]) k = share_of coef n (accepted s) k) as Hsh.
    { intros coef k Hk. destruct (Hfull k Hk) as [? _]. unfold share_of. by rewrite chunk_app. }
    split; rewrite ?Ea, ?Ei, ?Epar, ?Hr, ?Hu, ?Hs, ?Hp, ?Hsl, ?Hsr; try done.
    - by apply Forall_app; split; [|constructor].
    - rewrite oi_ready0. apply list_fmap_ext. intros i k Hk%list_elem_of_lookup_2.
      destruct (Hfull k) as [? _]; [set_solver|]. by rewrite chunk_app.
    - intros k Hk. destruct (oi_released0 k Hk) as (gk & Hgk & Hne).
      destruct (Hrel k gk Hgk) as (g' & ? & Hr'). exists g'. by rewrite Hr'.
    - rewrite oi_p0. apply list_fmap_ext. intros i k Hk%list_elem_of_lookup_2.
      symmetry. apply Hsh. set_solver.
    - rewrite Hph, app_nil_r in oi_q0. rewrite app_nil_r, oi_q0. destruct wq; [|done].
      apply list_fmap_ext. intros i k Hk%list_elem_of_lookup_2. symmetry. apply Hsh. set_solver.
    - intros j k i [Hj|(Hj & Hki)]%lookup_app_Some; [by apply oi_ids0|].
      apply list_lookup_singleton_Some in Hki as [Hj0 [= <- <-]]. rewrite oi_ids_len0 in *. lia.
    - rewrite !length_app, oi_ids_len0. done.
    - apply wrap_fits. lia. }
  assert (∀ h k gk, (∀ g : gate, ready (h g) = ready g) → tx_gates tx !! k = Some gk →
    ∃ g', alter h q (tx_gates tx) !! k = Some g' ∧ ready g' = ready gk) as Hrel.
  { intros h k gk Hh Hk. destruct (decide (k = q)) as [->|Hkq].
    - exists (h gk). by rewrite list_lookup_alter_eq, Hk.
    - exists gk. by rewrite list_lookup_alter_ne. }
  assert (∀ h q' k gk, alter h q (tx_gates tx) !! k = Some gk → (q ≤ q')%nat →
    gate_ok n wq (accepted s ++ [f]) q' q (h g) → gate_ok n wq (accepted s ++ [f]) q' k gk) as Hgs.
  { intros h q' k gk Hk Hq' Hh. destruct (decide (k = q)) as [->|Hkq].
    - rewrite list_lookup_alter_eq, Hg in Hk. by injection Hk as <-.
    - rewrite list_lookup_alter_ne in Hk by done. pose proof (lookup_lt_Some _ _ _ Hk).
      apply (gate_ok_grow _ _ _ _ q); [by apply oi_gates0|lia|lia]. }
  case_bool_decide as Hfull'.
  - eexists. eapply Hmk; [reflexivity|reflexivity|..]; try done; cbn [tx_gates tx_sender].
    + rewrite length_alter. fold q. rewrite length_app. cbn.
      split_and!; [done|lia|lia|]. by rewrite drop_app_le by lia.
    + intros k gk Hk. rewrite length_alter. fold q. apply (Hgs _ _ _ _ Hk); [lia|done].
    + intros k gk. by apply Hrel.
    + by apply gate_sum_alter.
    + by apply gate_sum_alter.
  - set (x := group_of wq _).
    assert (x = group_of wq (chunk n (accepted s ++ [f]) q)) as Hx.
    { unfold x, chunk. rewrite drop_app_le by lia. rewrite take_ge; [done|].
      rewrite length_app, length_drop. cbn. lia. }
    rewrite list_alter_alter_eq. set (h := _ ∘ join).
    assert (length (alter h q (tx_gates tx) ++ [FecGate_new]) = S (S q)) as Hgl.
    { rewrite length_app, length_alter. cbn. lia. }
    eexists. eapply Hmk; [reflexivity|reflexivity|..]; try done; cbn [tx_gates tx_sender].
    + rewrite Hgl, length_app. cbn [pred length]. split_and!; [lia|nia|nia|].
      rewrite drop_ge by (rewrite length_app; cbn; nia). done.
    + intros k gk Hk. rewrite Hgl. cbn [pred].
      apply lookup_app_Some in Hk as [Hk|[Hk Hk']].
      * apply (Hgs _ _ _ _ Hk); [lia|]. apply gate_ok_seal; [done| |done].
        rewrite length_app. cbn. nia.
      * apply list_lookup_singleton_Some in Hk' as [Hk0 <-]. rewrite length_alter in *.
        assert (k = length (tx_gates tx)) as -> by lia. rewrite Hlq. apply gate_ok_new. rewrite length_app. cbn. nia.
    + intros k gk Hk. destruct (Hrel h k gk) as (g' & Hg' & ?); [done..|].
      exists g'. split; [|done]. by apply lookup_app_l_Some.
    + rewrite gate_sum_app, gate_sum_alter by done. unfold gate_sum. simpl. lia.
    + rewrite gate_sum_app, gate_sum_alter by done. unfold gate_sum. simpl. lia.
Qed.

(** ** Every reachable state *)

Lemma inv_set_phase n wq s tx ks lost rdy ph :
  out_inv n wq s tx ks lost rdy →
  match out_phase s with SendingQ _ _ => False | _ => True end →
  match ph with Reserving p => bytes_ok p ∧ len p ≤ 65535 | AtSelect => True | SendingQ _ _ => False end →
  out_inv n wq (set_phase ph s) tx ks lost rdy.
Proof.
  intros [] Hs Hph. split; try done.
  - etrans; [|exact oi_q0]. cbn. f_equal. by destruct (out_phase s), ph.
  - cbn. by destruct ph.
Qed.

Lemma inv_new_out cfg :
  out_fec_enabled cfg = true → redundant_mode cfg = false → 1 ≤ out_group_size cfg →
  out_inv (Z.to_nat (out_group_size cfg)) (2 <=? out_parity cfg) (Out_new cfg)
    (mkFecTx (FecSender_new (out_group_size cfg) (out_parity cfg)) [FecGate_new]) [] [] [].
Proof.
  intros Hf Hr Hn. unfold Out_new. rewrite Hf, Hr. split; cbn; try done.
  - split_and!; [lia..|]. rewrite drop_nil. unfold FecSender_new, sender_state. cbn.
    by destruct (2 <=? _).
  - intros [|k] g; [|done]. intros [= <-]. apply gate_ok_new. cbn. lia.
  - apply NoDup_nil_2.
  - intros k Hk. by apply not_elem_of_nil in Hk.
  - by destruct (2 <=? _).
Qed.

Lemma out_step_inv cfg s s' tx ks lost rdy :
  out_fec_enabled cfg = true → redundant_mode cfg = false → 1 ≤ out_group_size cfg ≤ 255 →
  let n := Z.to_nat (out_group_size cfg) in let wq := 2 <=? out_parity cfg in
  out_inv n wq s tx ks lost rdy → out_step cfg s s' →
  ∃ tx ks lost rdy, out_inv n wq s' tx ks lost rdy.
Proof.
  intros Hf Hr Hn n wq I Hs.
  destruct Hs as [s g r now mtu ls Hp Hg _|s q forced now Hp|s p Hp _ Hb Hl|s p now ls reserved Hp
    |s|s tx' k g g' Htx Hg Hw].
  - destruct (inv_send_parity cfg n wq s tx ks lost rdy g r now mtu ls I Hp Hg) as (? & ? & ? & ?).
    by eexists _, _, _, _.
  - eexists _, _, _, _. by eapply inv_send_q.
  - eexists _, _, _, _. apply inv_set_phase; [done|by rewrite Hp|done].
  - pose proof (oi_phase _ _ _ _ _ _ _ I) as Hb. rewrite Hp in Hb. destruct Hb as [Hb Hl].
    assert (out_inv n wq (set_phase AtSelect s) tx ks lost rdy) as I' by (apply inv_set_phase; by rewrite ?Hp).
    unfold frame_turn. rewrite Hr, (oi_tx _ _ _ _ _ _ _ I').
    destruct reserved as [link|]; [|by eexists _, _, _, _].
    destruct (inv_fec_frame n wq _ tx ks lost rdy now link p ltac:(lia) I' eq_refl Hb Hl) as [? ?].
    by eexists _, _, _, _.
  - exists tx, ks, lost, rdy. destruct I. split; try done. apply wrap_fits. lia.
  - rewrite (oi_tx _ _ _ _ _ _ _ I) in Htx. injection Htx as <-.
    destruct (inv_gate n wq s tx ks lost rdy k g g' _ I Hg Hw) as [? ?]. by eexists _, _, _, _.
Qed.

Lemma out_reach_inv cfg s :
  out_fec_enabled cfg = true → redundant_mode cfg = false → 1 ≤ out_group_size cfg ≤ 255 →
  rtc (out_step cfg) (Out_new cfg) s →
  ∃ tx ks lost rdy, out_inv (Z.to_nat (out_group_size cfg)) (2 <=? out_parity cfg) s tx ks lost rdy.
Proof.
  intros Hf Hr Hn. revert s. apply rtc_ind_r.
  - eexists _, [], [], []. apply inv_new_out; [done..|lia].
  - intros s s' _ Hs (tx & ks & lost & rdy & I). by eapply out_step_inv.
Qed.

(** Every full group's gate is finished: its owner and its members are done. *)
Definition settled (tx : FecTx) : Prop :=
  ∀ k g, tx_gates tx !! k = Some g → (S k < length (tx_gates tx))%nat →
    owner_at g = ODone ∧ ∀ m, m ∈ members g → ∃ c, m = MDone c.

Lemma sum_indicator {A} (f : A → nat) l q :
  (∀ k x, l !! k = Some x → f x = if (k <? q)%nat then 1 else 0)%nat →
  sum_list_with f l = Nat.min q (length l).
Proof.
  revert q; induction l as [|x l IH]; intros q H; simpl; [lia|].
  rewrite (H 0%nat x eq_refl), (IH (pred q)).
  - destruct q; simpl; lia.
  - intros k y Hk. rewrite (H (S k) y Hk). destruct q; [done|]. by destruct k.
Qed.

Lemma settled_sum n wq s tx ks lost rdy :
  out_inv n wq s tx ks lost rdy → settled tx →
  (gate_sum gate_released (tx_gates tx) + gate_sum gate_lost (tx_gates tx)
   = pred (length (tx_gates tx)))%nat.
Proof.
  intros [] Hd. transitivity (gate_sum (λ g, gate_released g + gate_lost g)%nat (tx_gates tx)).
  { by rewrite gate_sum_add. }
  unfold gate_sum. rewrite (sum_indicator _ _ (pred (length (tx_gates tx)))); [lia|].
  intros k g Hk. destruct (oi_gates0 k g Hk) as [Hi _ Ho]. unfold gate_released, gate_lost.
  pose proof (lookup_lt_Some _ _ _ Hk) as Hlt.
  destruct (Nat.ltb_spec k (pred (length (tx_gates tx)))) as [Hlt'|Hge].
  - destruct (Hd k g Hk) as [Hod Hmd]; [lia|].
    destruct (done_accounted g Hi Hod Hmd) as (_ & _ & Hsum & _).
    destruct (released_carried g Hi) as [Hle _]. lia.
  - destruct Ho as [Hop _]; [lia|]. destruct Hi.
    destruct gi_before as (_ & -> & -> & _); [unfold tokens; rewrite Hop; simpl; lia|done].
Qed.

(** C5. Parity covers what is on the wire. However the loop, the gates and the
    other tasks interleave, the parity handed to [dispatch] is that of distinct
    full groups of the accepted frames, in the order they were numbered, P and
    then Q where two shares are configured; every member of such a group is gone
    having reached the wire; and once the gates of all full groups are finished
    and the channel is empty, a group either had its parity sent or was counted
    as unrecoverable. *)
Theorem parity_covers_wire cfg s :
  out_fec_enabled cfg = true → redundant_mode cfg = false → 1 ≤ out_group_size cfg ≤ 255 →
  rtc (out_step cfg) (Out_new cfg) s →
  let n := Z.to_nat (out_group_size cfg) in
  ∃ tx ks, fec_tx s = Some tx ∧ NoDup ks ∧
    parities FecParity s = share_of coef_p n (accepted s) <$> ks ∧
    parities FecParityQ s
      ++ match out_phase s with SendingQ q _ => [FecParityPayload_encode q] | _ => [] end
      = (if 2 <=? out_parity cfg then share_of coef_q n (accepted s) <$> ks else []) ∧
    (∀ k, k ∈ ks → length (chunk n (accepted s) k) = n ∧
       ∃ g, tx_gates tx !! k = Some g ∧ members g = replicate n (MDone true)) ∧
    length (member_ids s) = length (accepted s) ∧
    (∀ j k i, member_ids s !! j = Some (k, i) → j = n * k + i ∧ i < n)%nat ∧
    (settled tx → ready_rx s = [] →
     fec_unrecoverable s = wrap 64 (len (accepted s) / out_group_size cfg - len ks)).
Proof.
  intros Hf Hr Hn Hreach n.
  destruct (out_reach_inv cfg s Hf Hr Hn Hreach) as (tx & ks & lost & rdy & I). fold n in I.
  exists tx, ks. pose proof (λ k, released_full _ _ _ _ _ _ _ k I) as Hfull.
  pose proof (settled_sum _ _ _ _ _ _ _ I) as Hsum. destruct I.
  split_and!; try done; [by apply NoDup_app in oi_nodup0 as [? _]| |].
  - intros k Hk. destruct (Hfull k) as [Hl Hg]; [set_solver|]. by rewrite chunk_length.
  - intros Hset Hnil. rewrite Hnil in oi_ready0. destruct rdy; [|done].
    specialize (Hsum Hset). rewrite oi_total0. f_equal.
    rewrite oi_count0, !length_app in Hsum. cbn in Hsum. destruct oi_size0 as (_ & Hq & _).
    assert (len (accepted s) / out_group_size cfg = Z.of_nat (pred (length (tx_gates tx)))) as ->.
    { symmetry. apply (Z.div_unique_pos _ _ _ (len (accepted s) - Z.of_nat (n * pred (length (tx_gates tx))))); unfold len; lia. }
    unfold len. lia.
Qed.

Module outbound_example.

(** Groups of two with two shares: two frames are accepted, sealed, sent and
    released, and both shares are dispatched. *)
Definition cfg : OutCfg := mkOutCfg false true 2 2 Configuration.Scheduler.

Definition frame_in (link : nat) (p : list Z) (s : Out) : Out :=
  frame_turn cfg 0 [] (Some link) p (set_phase AtSelect (set_phase (Reserving p) s)).
Definition on_gate (k : nat) (f : FecGate (G := FecGroup) → FecGate) (s : Out) : Out :=
  match fec_tx s with
  | Some tx => match tx_gates tx !! k with Some g => gate_effect k g (f g) tx s | None => s end
  | None => s
  end.
Definition member_gone (i : nat) (last : bool) : list (FecGate (G := FecGroup) → FecGate) :=
  [at_member i (MLive true); λ g, at_member i (MRelease true) (store_phantom true g);
   λ g, at_member i (if last then MEmit true else MDone true) (fetch_sub g).1].
Definition works : list (FecGate (G := FecGroup) → FecGate) :=
  [λ g, at_owner ODone (fetch_sub g).1] ++ member_gone 1 false ++ member_gone 0 true
  ++ [λ g, at_member 0 (match group g with Some x => MCheck true x | None => MDone true end)
             (store_group None g);
      λ g, match members g !! 0%nat with
           | Some (MCheck c x) => at_member 0 (MDone c) (resolve x true g) | _ => g end].

Definition filled : Out := frame_in 1 [3] (frame_in 0 [7; 9] (Out_new cfg)).
Definition worked (m : nat) : Out := foldl (λ s f, on_gate 0 f s) filled (take m works).
Definition released : Out := worked 9.
Definition half_sent : Out :=
  match ready_rx released with
  | g :: r => send_fec_parity cfg 0 1400 [] g (set_ready r released)
  | [] => released
  end.
Definition final : Out :=
  match out_phase half_sent with SendingQ q forced => send_q 0 q forced half_sent | _ => half_sent end.

Lemma frame_in_reached link p s :
  rtc (out_step cfg) (Out_new cfg) s → out_phase s = AtSelect → ready_rx s = [] →
  bytes_ok p → len p ≤ 65535 → rtc (out_step cfg) (Out_new cfg) (frame_in link p s).
Proof.
  intros Hs Hp Hr Hb Hl. eapply rtc_r; [eapply rtc_r; [exact Hs|by apply (out_take cfg s p)]|].
  by apply (out_frame cfg (set_phase (Reserving p) s) p 0 [] (Some link)).
Qed.

Lemma on_gate_reached k f s g tx :
  rtc (out_step cfg) (Out_new cfg) s → fec_tx s = Some tx → tx_gates tx !! k = Some g →
  gate_work (bool_decide (length (ready_rx s) < FEC_READY_CAPACITY)%nat) g (f g) →
  rtc (out_step cfg) (Out_new cfg) (on_gate k f s).
Proof.
  intros Hs Ht Hg Hw. eapply rtc_r; [exact Hs|]. unfold on_gate. rewrite Ht, Hg. by eapply out_gate.
Qed.

Lemma filled_reached : rtc (out_step cfg) (Out_new cfg) filled.
Proof.
  unfold filled. apply frame_in_reached; [apply frame_in_reached; [apply rtc_refl| | | |]| | | |];
    try (by vm_compute); repeat constructor; vm_compute; intuition congruence.
Qed.

(** The next step of gate 0. *)
Lemma worked_reached m f tx g :
  rtc (out_step cfg) (Out_new cfg) (worked m) → works !! m = Some f →
  fec_tx (worked m) = Some tx → tx_gates tx !! 0%nat = Some g →
  gate_work (bool_decide (length (ready_rx (worked m)) < FEC_READY_CAPACITY)%nat) g (f g) →
  rtc (out_step cfg) (Out_new cfg) (worked (S m)).
Proof.
  intros Hs Hf Ht Hg Hw. unfold worked. rewrite (take_S_r _ _ f Hf), foldl_app.
  by apply (on_gate_reached 0 f (worked m) g tx).
Qed.

Ltac work C :=
  eapply worked_reached; [eassumption|reflexivity|vm_compute; reflexivity|reflexivity|];
  split_and!; [apply C; reflexivity|reflexivity|vm_compute; congruence..].

Lemma released_reached : rtc (out_step cfg) (Out_new cfg) released.
Proof.
  assert (rtc (out_step cfg) (Out_new cfg) (worked 0)) as R0 by exact filled_reached.
  assert (rtc (out_step cfg) (Out_new cfg) (worked 1)) as R1 by work (λ s s', @step_owner_release FecGroup s s' false).
  assert (rtc (out_step cfg) (Out_new cfg) (worked 2)) as R2 by work (λ s, @step_mark_carried FecGroup s 1 false).
  assert (rtc (out_step cfg) (Out_new cfg) (worked 3)) as R3 by work (λ s, @step_drop FecGroup s 1 true).
  assert (rtc (out_step cfg) (Out_new cfg) (worked 4)) as R4 by work (λ s s', @step_release FecGroup s s' 1 true false).
  assert (rtc (out_step cfg) (Out_new cfg) (worked 5)) as R5 by work (λ s, @step_mark_carried FecGroup s 0 false).
  assert (rtc (out_step cfg) (Out_new cfg) (worked 6)) as R6 by work (λ s, @step_drop FecGroup s 0 true).
  assert (rtc (out_step cfg) (Out_new cfg) (worked 7)) as R7 by work (λ s s', @step_release FecGroup s s' 0 true true).
  assert (rtc (out_step cfg) (Out_new cfg) (worked 8)) as R8 by work (λ s, @step_take FecGroup s 0 true).
  unfold released. work (λ s g, @step_resolve FecGroup s 0 true g true).
Qed.

Lemma final_reached : rtc (out_step cfg) (Out_new cfg) final.
Proof.
  assert (rtc (out_step cfg) (Out_new cfg) half_sent) as R.
  { assert (∃ g r, ready_rx released = g :: r) as (g & r & E) by (vm_compute; eauto).
    eapply rtc_r; [exact released_reached|]. unfold half_sent. rewrite E.
    apply (out_group cfg released g r 0 1400 []); [by vm_compute|done|lia]. }
  assert (∃ q forced, out_phase half_sent = SendingQ q forced) as (q & forced & E)
    by (vm_compute; eauto).
  eapply rtc_r; [exact R|]. unfold final. rewrite E. by apply out_q.
Qed.

Example both_shares_sent :
  length (accepted final) = 2%nat ∧
  parities FecParity final = [share_of coef_p 2 (accepted final) 0] ∧
  parities FecParityQ final = [share_of coef_q 2 (accepted final) 0].
Proof. vm_compute. auto. Qed.

Lemma parity_covers_wire_witness :
  ∃ tx ks, fec_tx final = Some tx ∧
    parities FecParity final = share_of coef_p 2 (accepted final) <$> ks ∧ ks ≠ [] ∧
    ∀ k, k ∈ ks → ∃ g, tx_gates tx !! k = Some g ∧ members g = replicate 2 (MDone true).
Proof.
  destruct (parity_covers_wire cfg final eq_refl eq_refl ltac:(cbn; lia) final_reached)
    as (tx & ks & Ht & _ & Hp & _ & Hk & _).
  exists tx, ks. split_and!; [done|done| |].
  - intros ->. vm_compute in Hp. discriminate.
  - intros k Hin. apply (Hk k Hin).
Defined.

(** A frame that never reached the wire: its group's parity is not sent, and
    counted. *)
Definition phantom_works : list (FecGate (G := FecGroup) → FecGate) :=
  [λ g, at_owner ODone (fetch_sub g).1] ++ member_gone 1 false
  ++ [λ g, at_member 0 (MRelease false) (store_phantom false g);
      λ g, at_member 0 (MEmit false) (fetch_sub g).1;
      λ g, at_member 0 (match group g with Some x => MCheck false x | None => MDone false end)
             (store_group None g);
      λ g, match members g !! 0%nat with
           | Some (MCheck c x) => at_member 0 (MDone c) (resolve x true g) | _ => g end].
Example phantom_counted :
  let s := foldl (λ s f, on_gate 0 f s) filled phantom_works in
  ready_rx s = [] ∧ parities FecParity s = [] ∧ fec_unrecoverable s = 1.
Proof. vm_compute. auto. Qed.

End outbound_example.
