(* ===== verification/MmsgTx.v ===== *)
(** * A worker's batch ([tunnel.rs], [mmsg_tx] and the send loop)

    What [link_tx_worker] does with a batch it took from its queue: in one
    [sendmmsg] where the mode allows it, packet by packet otherwise, and what is
    remembered between batches. What becomes of the jobs that failed is
    [Dispatch]; the sockets are those of [LinkIo]. *)

From S2P Require Import Prelude Bytes Protocol F64 Configuration Wireguard Gso LinkIo ProbeHistory Link Dispatch.

(** [mmsg_tx::State]; the scratch keeps its header buffers to itself. *)
Record MmsgState := mkMmsg {
  mm_active : bool;
  mm_gso : bool;
  mm_gso_runs : Z;
  mm_gso_segments : Z;
  mm_calls : Z;
  mm_partial : Z;
  mm_pkts : Z;
  mm_batches : Z;
  mm_last_log : option Z;
  mm_scratch : TxBatchScratch }.

Definition MmsgState_new (mode : TxSendMode) : MmsgState :=
  mkMmsg (match mode with Sendto => false | _ => true end)
    (match mode with SendmmsgGso => true | _ => false end)
    0 0 0 0 0 0 None TxBatchScratch_default.

(** A job with what became of it: a datagram with its frame or with a handshake
    in its place left, or none did. *)
Definition Verdict : Type := TxJob * option bool.
Definition verdict (r : outcome bool) : option bool :=
  match r with Ok carried => Some carried | _ => None end.

(** The member's [mark_carried]. *)
Definition mark_carried (v : Verdict) : TxJob :=
  let '(job, r) := v in
  mkJob (j_ptype job) (j_seq job) (plaintext job) (rerouted job) (enqueued job)
    (match r with Some true => (λ _, true) <$> j_member job | _ => j_member job end).

(** The bytes and the packets put on the wire. *)
Definition tally (vs : list Verdict) : Z * Z :=
  foldl (λ t v, match v.2 with
                | Some _ => (wrap 64 (t.1 + frame_len v.1), wrap 64 (t.2 + 1))
                | None => t end) (0, 0) vs.

Definition is_unsupported (r : outcome bool) : bool :=
  match r with Err (Io e) => bool_decide (raw_os_error e = Some ENOSYS) | _ => false end.

Definition ten_seconds : Z := 10 * 1000000000.

(** The counters after a batch; they start again when they have been logged. *)
Definition note_stats (now : Z) (stats : SendmmsgStats) (pkts : Z) (st : MmsgState) : MmsgState :=
  let last := default now (mm_last_log st) in
  let gso := mm_gso st && negb (gso_disabled stats) in
  if ten_seconds <=? now - last
  then mkMmsg (mm_active st) gso 0 0 0 0 0 0 (Some now) (mm_scratch st)
  else mkMmsg (mm_active st) gso (wrap 64 (mm_gso_runs st + gso_runs stats))
         (wrap 64 (mm_gso_segments st + gso_segments stats)) (wrap 64 (mm_calls st + calls stats))
         (wrap 64 (mm_partial st + partial stats)) (wrap 64 (mm_pkts st + pkts))
         (wrap 64 (mm_batches st + 1)) (Some last) (mm_scratch st).
Definition set_scratch (sc : TxBatchScratch) (st : MmsgState) : MmsgState :=
  mkMmsg (mm_active st) (mm_gso st) (mm_gso_runs st) (mm_gso_segments st) (mm_calls st)
    (mm_partial st) (mm_pkts st) (mm_batches st) (mm_last_log st) sc.
Definition deactivate (st : MmsgState) : MmsgState :=
  mkMmsg false (mm_gso st) (mm_gso_runs st) (mm_gso_segments st) (mm_calls st)
    (mm_partial st) (mm_pkts st) (mm_batches st) (mm_last_log st) (mm_scratch st).

(** The header of a job and its payload, as they are sent. *)
Definition job_header (lid : Z) (job : TxJob) : list Z :=
  match Header_to_bytes (mkHeader (j_ptype job) lid (j_seq job)) with Ok b => b | _ => [] end.
Definition job_parts (lid : Z) (job : TxJob) : list (list Z) := [job_header lid job; plaintext job].

Section io.
Context `{BT : Boringtun} `{K : Kernel} `{U : Udp}.

(** [send_batch]: the jobs it left and the verdicts on those it took. [now] is
    the session's clock, [mono] the one the log is paced by. *)
Definition send_batch (now mono : Z) (target : option (Z * LinkHandle)) (batch : list TxJob)
    (st : MmsgState) (w : WgTunnel) (net : Net)
    : WgTunnel * Net * MmsgState * list TxJob * list Verdict :=
  match target with
  | Some (lid, h) =>
      if mm_active st then
        let '(w, net, sc, stats) :=
          wg_send_batch now (job_parts lid <$> batch) (mm_gso st) h (mm_scratch st) w net in
        let vs := zip batch (verdict <$> results sc) in
        let st := set_scratch (mkScratch [] (datagrams sc) (slot sc)) st in
        if existsb is_unsupported (results sc)
        then (w, net, deactivate st, [], vs)
        else (w, net, note_stats mono stats (tally vs).2 st, [], vs)
      else (w, net, st, batch, [])
  | None => (w, net, st, batch, [])
  end.

(** The loop over the jobs that are left. *)
Fixpoint send_each (now : Z) (target : option (Z * LinkHandle)) (batch : list TxJob)
    (w : WgTunnel) (net : Net) : WgTunnel * Net * list Verdict :=
  match batch with
  | [] => (w, net, [])
  | job :: batch =>
      let '(w, net, r) :=
        match target with
        | None => (w, net, None)
        | Some (lid, h) =>
            let '(w, net, r) := wg_send_parts now (job_parts lid job) h w net in (w, net, verdict r)
        end in
      let '(w, net, vs) := send_each now target batch w net in
      (w, net, (job, r) :: vs)
  end.

(** The worker's batch, up to its accounting. *)
Definition send_jobs (now mono : Z) (target : option (Z * LinkHandle)) (batch : list TxJob)
    (st : MmsgState) (w : WgTunnel) (net : Net)
    : WgTunnel * Net * MmsgState * list Verdict :=
  let '(w, net, st, rest, vs) := send_batch now mono target batch st w net in
  let '(w, net, vs') := send_each now target rest w net in
  (w, net, st, vs ++ vs').

End io.

(** ** In one call or one by one *)

(** A socket that takes whatever it is given. *)
Record takes_all `{Kernel} `{Udp} : Prop := {
  takes_batch : ∀ n msgs, (k_sendmmsg n msgs).1 = len msgs;
  takes_one : ∀ n to d, k_send_to n to d = None }.

Section same.
Context `{BT : Boringtun} `{K : Kernel} `{U : Udp}.
Context (klaws : kernel_laws) (open : takes_all).

Definition all_sent (r : Socket * list (IoError + unit) * SendmmsgStats) : Prop :=
  Forall (λ o, o = inr tt) r.1.2.

Lemma sys_sendmmsg_all msgs s :
  msgs ≠ [] → ∃ s', sys_sendmmsg msgs s = (s', inr (length msgs)).
Proof.
  intros Hm. unfold sys_sendmmsg. pose proof (takes_batch open (made s) msgs) as H.
  destruct (k_sendmmsg _ _) as [rc e]. cbn in H. subst rc. destruct msgs as [|m msgs]; [done|].
  unfold len. cbn [length]. destruct (Z.ltb_spec (Z.of_nat (S (length msgs))) 0); [lia|].
  destruct (Z.eqb_spec (Z.of_nat (S (length msgs))) 0); [lia|]. rewrite Nat2Z.id. eauto.
Qed.

Lemma sendmmsg_sends f dgs st s : all_sent (sendmmsg_from f dgs st s).
Proof.
  revert dgs st s. induction f as [|f IH]; intros dgs st s; [constructor|].
  destruct dgs as [|d dgs]; [constructor|]. cbn [sendmmsg_from]. unfold raw_sendmmsg.
  destruct (sys_sendmmsg_all ((λ d, mkMsg d None) <$>
    take (Nat.min (length (d :: dgs)) SENDMMSG_MAX) (d :: dgs)) s) as [s' ->]; [done|].
  rewrite length_fmap. set (k := length _). set (st' := if bool_decide _ then _ else _).
  specialize (IH (drop k (d :: dgs)) st' s'). destruct (sendmmsg_from _ _ _ _) as [[? out] ?].
  apply Forall_app. split; [|exact IH]. by apply Forall_replicate.
Qed.

Lemma plan_nonempty dgs : dgs ≠ [] → plan_gso_runs dgs ≠ [].
Proof. by destruct dgs. Qed.

Lemma sendmmsg_gso_sends f dgs st s : all_sent (sendmmsg_gso_from f dgs st s).
Proof.
  revert dgs st s. induction f as [|f IH]; intros dgs st s; [constructor|].
  destruct dgs as [|d dgs]; [constructor|]. cbn [sendmmsg_gso_from].
  set (window := take SENDMMSG_MAX (d :: dgs)). unfold raw_sendmmsg_gso.
  set (runs := plan_gso_runs window).
  assert (runs ≠ []) as Hr by by apply plan_nonempty.
  destruct (sys_sendmmsg_all (gso_msg window <$> take (Nat.min (length runs) SENDMMSG_MAX) runs) s)
    as [s' ->]; [by destruct runs|].
  set (k := length _). set (st' := foldl _ _ _). set (sent := sum_list_with _ _).
  specialize (IH (drop sent (d :: dgs)) st' s'). destruct (sendmmsg_gso_from _ _ _ _) as [[? out] ?].
  apply Forall_app. split; [|exact IH]. by apply Forall_replicate.
Qed.

Lemma merge_sent tr outs : Forall (λ o, o = inr tt) outs → merge tr outs = outcome_map snd <$> tr.
Proof.
  revert outs. induction tr as [|r tr IH]; intros outs Ho; [done|]. cbn.
  destruct r as [[d c]|e|]; cbn; [|by rewrite IH..].
  destruct Ho as [|o outs -> Ho]; by rewrite IH.
Qed.

(** What sending the jobs comes to, by what the session makes of them. *)
Definition sends (remote : SocketAddr) (batch : list TxJob) (net : Net)
    (tr : list (outcome (list Z * bool))) (net' : Net) (vs : list Verdict) : Prop :=
  net_out net' = net_out net ++ (pair remote <$> sent_of tr) ∧
  vs = zip batch (verdict <$> (outcome_map snd <$> tr)).

Lemma enc_trace_length now frames w : length (enc_trace now frames w).2 = length frames.
Proof.
  revert w. induction frames as [|p frames IH]; intros w; [done|]. cbn.
  destruct (encapsulate_parts now p w) as [w1 r]. specialize (IH w1).
  destruct (enc_trace now frames w1). cbn in *. by f_equal.
Qed.

Lemma send_each_sends now lid h remote batch w net w' tr :
  h_remote h = Some remote → enc_trace now (job_parts lid <$> batch) w = (w', tr) →
  ∃ net' vs, send_each now (Some (lid, h)) batch w net = (w', net', vs) ∧
    sends remote batch net tr net' vs.
Proof.
  intros Hr. revert w net tr. induction batch as [|job batch IH]; intros w net tr.
  - intros [= <- <-]. exists net, []. split_and!; [done|split; [|done]]. symmetry. apply app_nil_r.
  - cbn. unfold wg_send_parts. rewrite Hr.
    destruct (encapsulate_parts now (job_parts lid job) w) as [w1 r].
    destruct (enc_trace now (job_parts lid <$> batch) w1) as [w2 tr1] eqn:E. intros [= <- <-].
    assert (∃ net1, (match r with
      | Ok (d, c) => let '(net, e) := send_to d remote net in
                     (w1, net, match e with None => Ok c | Some e => Err (Io e) end)
      | Err e => (w1, net, Err e) | Panic => (w1, net, Panic) end)
      = (w1, net1, outcome_map snd r) ∧
      net_out net1 = net_out net ++ (pair remote <$> sent_of [r])) as (net1 & -> & Hn1).
    { destruct r as [[d c]|e|]; cbn.
      - unfold send_to. rewrite (takes_one open). eauto.
      - exists net. split; [done|]. symmetry. apply app_nil_r.
      - exists net. split; [done|]. symmetry. apply app_nil_r. }
    destruct (IH w1 net1 tr1 E) as (net' & vs & -> & Hn & ->).
    eexists net', _. split; [reflexivity|]. split; [|done].
    rewrite Hn, Hn1, <- app_assoc, <- fmap_app. do 2 f_equal. cbn. by destruct r as [[]| |].
Qed.

Lemma send_batch_sends now mono lid h remote batch st w net w' tr :
  h_remote h = Some remote → mm_active st = true →
  enc_trace now (job_parts lid <$> batch) w = (w', tr) →
  ∃ net' st' vs, send_batch now mono (Some (lid, h)) batch st w net = (w', net', st', [], vs) ∧
    sends remote batch net tr net' vs.
Proof.
  intros Hr Ha Etr. unfold send_batch, wg_send_batch. rewrite Ha, Hr.
  destruct (encapsulate_all_trace now 0 0 _ (datagrams (mm_scratch st)) w w' tr (Nat.le_0_l _) Etr)
    as (bufs & used & slots & -> & Hd & _ & Hm).
  rewrite take_0 in Hd. cbn [app] in Hd. rewrite Hd.
  pose proof (batch_accounted klaws (mm_gso st) (sent_of tr) (mkSocket (net_calls net) [])) as Hacc.
  assert (all_sent (if mm_gso st then sendmmsg_gso_all (sent_of tr) (mkSocket (net_calls net) [])
                    else sendmmsg_all (sent_of tr) (mkSocket (net_calls net) []))) as Hs
    by (destruct (mm_gso st); [apply sendmmsg_gso_sends|apply sendmmsg_sends]).
  destruct (if mm_gso st then _ else _) as [[s outs] stats]. destruct Hacc as [Hl Hw].
  unfold all_sent in Hs. cbn in Hs, Hw. specialize (Hm [] outs eq_refl). cbn in Hm.
  rewrite Hm, merge_sent by done. cbn [results].
  assert (reported (sent_of tr) outs = sent_of tr) as Hrep.
  { rewrite <- (reported_ok (sent_of tr)) at 2. f_equal. rewrite <- Hl.
    clear -Hs. induction Hs as [|o outs -> Hs IH]; cbn; by f_equal. }
  rewrite Hrep in Hw.
  destruct (existsb _ _); eexists _, _, _; (split; [reflexivity|]); (split; [|done]); cbn; by rewrite Hw.
Qed.

(** C15. The send mode makes no difference to what is sent. On a socket that takes
    whatever it is given, a worker's batch has the same end in every mode: the
    session is left in the same state, the same datagrams leave in the same
    order, and every job gets its one verdict, the same, in the order of the
    batch. *)
Theorem mode_independent now mono lid h remote batch st w net :
  h_remote h = Some remote →
  ∃ w' net' st' net1 st1 vs,
    send_jobs now mono (Some (lid, h)) batch st w net = (w', net', st', vs) ∧
    send_jobs now mono (Some (lid, h)) batch (MmsgState_new Sendto) w net = (w', net1, st1, vs) ∧
    net_out net' = net_out net1 ∧ map fst vs = batch.
Proof.
  intros Hr. destruct (enc_trace now (job_parts lid <$> batch) w) as [w' tr] eqn:Etr.
  destruct (send_each_sends now lid h remote batch w net w' tr Hr Etr) as (net1 & vs & He & Hn & Hv).
  assert (map fst vs = batch) as Hb.
  { rewrite Hv. apply fst_zip. rewrite !length_fmap.
    pose proof (enc_trace_length now (job_parts lid <$> batch) w) as H. rewrite Etr in H.
    cbn in H. rewrite H, length_fmap. done. }
  unfold send_jobs. destruct (mm_active st) eqn:Ha.
  - destruct (send_batch_sends now mono lid h remote batch st w net w' tr Hr Ha Etr)
      as (net' & st' & vs' & -> & Hn' & Hv').
    exists w', net', st', net1, (MmsgState_new Sendto), vs. cbn. rewrite He. cbn.
    rewrite app_nil_r. split_and!; [by rewrite Hv', Hv|done|by rewrite Hn', Hn|done].
  - exists w', net1, st, net1, (MmsgState_new Sendto), vs. cbn. rewrite Ha, He. by split_and!.
Qed.
End same.

Module mmsg_example.
Import plain.

#[export] Instance kernel : Kernel := {|
  k_sendmmsg n msgs := (len msgs, mkIo None "");
  k_segment size p := sample.chop (length p) (Z.to_nat size) p |}.
#[export] Instance udp : Udp := {| k_send_to _ _ _ := None |}.

Lemma laws : kernel_laws.
Proof.
  split; cbn; [lia|]. intros size ds Hs Hd.
  apply sample.chop_segments; [lia|by rewrite Z2Nat.id by lia|done].
Qed.
Lemma open : takes_all.
Proof. done. Qed.

Definition handle : LinkHandle := mkHandle "wan0" (Some (mkAddr (V4 0x0a000001) 5000)).
Definition jobs : list TxJob :=
  [TxJob_new 0 Data 5 [1; 2]; TxJob_new 0 Data 6 [3; 4]; TxJob_new 0 FecParity 7 [9]].

(** With segmentation offload: one call for the three datagrams. *)
Lemma mode_independent_witness :
  ∃ w' net' st' net1 st1 vs,
    send_jobs 7 0 (Some (3, handle)) jobs (MmsgState_new SendmmsgGso) (fresh true) (mkNet 0 [])
      = (w', net', st', vs) ∧
    send_jobs 7 0 (Some (3, handle)) jobs (MmsgState_new Sendto) (fresh true) (mkNet 0 [])
      = (w', net1, st1, vs) ∧
    net_out net' = net_out net1 ∧ map fst vs = jobs.
Proof.
  exact (mode_independent laws open 7 0 3 handle (mkAddr (V4 0x0a000001) 5000) jobs
           (MmsgState_new SendmmsgGso) (fresh true) (mkNet 0 []) eq_refl).
Defined.

Example one_call :
  let r := send_jobs 7 0 (Some (3, handle)) jobs (MmsgState_new SendmmsgGso) (fresh true) (mkNet 0 []) in
  length (net_out r.1.1.2) = 3%nat ∧ mm_calls r.1.2 = 1 ∧ tally r.2 = (41, 3).
Proof. vm_compute. auto. Qed.

(** A kernel without [sendmmsg]: the batch fails as a whole, once; from then on
    the jobs go out one by one. *)
Definition without : Kernel := {|
  k_sendmmsg n msgs := (-1, mkIo (Some ENOSYS) "Function not implemented");
  k_segment size p := [p] |}.
Example falls_back :
  let r := send_jobs (K := without) 7 0 (Some (3, handle)) jobs (MmsgState_new Sendmmsg)
             (fresh true) (mkNet 0 []) in
  mm_active r.1.2 = false ∧ tally r.2 = (0, 0) ∧ length r.2 = 3%nat ∧
  tally (send_jobs (K := without) 8 0 (Some (3, handle)) jobs r.1.2 r.1.1.1 r.1.1.2).2 = (41, 3).
Proof. vm_compute. auto. Qed.

End mmsg_example.
