(* ===== verification/Host.v ===== *)
(** * The host ([privilege.rs], [procstats.rs], [sysfs_net.rs])

    How the daemon gives up its privileges at startup, over an operating system
    whose calls are a parameter with their documented effect on the credentials
    as hypotheses; and the readers of [/proc] and [/sys], on the text of the
    files. *)

From Stdlib Require Import Ascii.
From S2P Require Import Prelude Bytes F64 Text Telemetry Snapshot.

(** ** Giving up privileges *)

(** Capabilities by their number. *)
Definition CAP_SETGID : Z := 6.
Definition CAP_NET_ADMIN : Z := 12.
Inductive CapSet := Permitted | Effective | Inheritable.

(** The calls, on the state of the process; a failed one gives the text of its
    error. *)
Class Os := {
  Proc : Type;
  geteuid : Proc → Z;
  user_from_name : string → Proc → string + option Z;
  group_from_name : string → Proc → string + option Z;
  k_keepcaps : bool → Proc → option string * Proc;
  k_setgroups : list Z → Proc → option string * Proc;
  k_setgid : Z → Proc → option string * Proc;
  k_setuid : Z → Proc → option string * Proc;
  k_caps_set : CapSet → gset Z → Proc → option string * Proc }.

Record DropTarget := mkTarget { user : string; group : string }.
Definition DropTarget_default : DropTarget := mkTarget "mlvpn" "mlvpn".

Section os.
Context `{OS : Os}.

(** A computation that makes calls. *)
Definition Sys (A : Type) : Type := Proc → outcome A * Proc.
#[local] Instance Sys_ret : MRet Sys := λ A a p, (Ok a, p).
#[local] Instance Sys_bind : MBind Sys := λ A B f m p,
  match m p with
  | (Ok a, p) => f a p
  | (Err e, p) => (Err e, p)
  | (Panic, p) => (Panic, p)
  end.
Definition refuse {A} (msg : string) : Sys A := λ p, (Err (Privilege msg), p).

(** [call().map_err(..)?], and a call whose failure is only logged. *)
Definition must (what : string) (call : Proc → option string * Proc) : Sys unit := λ p,
  match call p with
  | (None, p) => (Ok tt, p)
  | (Some e, p) => (Err (Privilege (what +:+ ": " +:+ e)), p)
  end.
Definition try_call (call : Proc → option string * Proc) : Sys unit := λ p, (Ok tt, (call p).2).

(** [User::from_name(..).map_err(..)?.ok_or_else(..)?], and the same for a group. *)
Definition look_up (kind name : string) (f : string → Proc → string + option Z) : Sys Z := λ p,
  match f name p with
  | inl e => refuse ("looking up " +:+ kind +:+ " '" +:+ name +:+ "': " +:+ e) p
  | inr None => refuse (kind +:+ " '" +:+ name +:+ "' does not exist") p
  | inr (Some id) => (Ok id, p)
  end.

Definition is_root : Sys bool := λ p, (Ok (geteuid p =? 0), p).

Definition drop_privileges (target : DropTarget) : Sys unit :=
  root ← is_root;
  if negb root then mret tt
  else
    uid ← look_up "user" (user target) user_from_name;
    gid ← look_up "group" (group target) group_from_name;
    must "prctl(PR_SET_KEEPCAPS)" (k_keepcaps true);;
    must "clearing supplementary groups" (k_setgroups []);;
    must "setgid" (k_setgid gid);;
    must "setuid" (k_setuid uid);;
    let keep : gset Z := {[CAP_NET_ADMIN]} in
    must "restricting permitted capabilities" (k_caps_set Permitted keep);;
    must "raising CAP_NET_ADMIN" (k_caps_set Effective keep);;
    try_call (k_caps_set Inheritable ∅);;
    try_call (k_keepcaps false).

Definition assert_unprivileged : Sys unit :=
  root ← is_root;
  if root : bool then refuse "still running as root after privilege drop was requested" else mret tt.

(** What [main] does once the TUN device is open. *)
Definition drop_at_startup (target : DropTarget) : Sys unit :=
  drop_privileges target;; assert_unprivileged.

(** ** What the calls do *)

(** The credentials: the real, effective and saved user and group, the
    supplementary groups, the keep-capabilities flag and the capability sets of
    the calling thread, and the permitted and effective sets of the others. *)
Record Creds := mkCreds {
  uids : Z * Z * Z; gids : Z * Z * Z; groups : list Z; keeps : bool;
  permitted : gset Z; effective : gset Z; inheritable : gset Z;
  others : list (gset Z * gset Z) }.

(** A change of all user IDs away from root takes the effective set, and the
    permitted one of a thread that does not keep it. *)
Definition setuid_creds (u : Z) (c : Creds) : Creds :=
  let leaves := negb (u =? 0) in
  mkCreds (u, u, u) (gids c) (groups c) (keeps c)
    (if leaves && negb (keeps c) then ∅ else permitted c) (if leaves then ∅ else effective c)
    (inheritable c) (if leaves then (λ _, (∅, ∅)) <$> others c else others c).

Definition caps_creds (which : CapSet) (s : gset Z) (c : Creds) : Creds :=
  mkCreds (uids c) (gids c) (groups c) (keeps c)
    (match which with Permitted => s | _ => permitted c end)
    (match which with Effective => s | _ => effective c end)
    (match which with Inheritable => s | _ => inheritable c end) (others c).

(** The documented effect of a call that succeeds, as far as the code relies on
    it; one that is only tried changes nothing when it fails. *)
Record os_laws (view : Proc → Creds) : Prop := {
  law_euid : ∀ p, geteuid p = (uids (view p)).1.2;
  law_keepcaps : ∀ b p p', k_keepcaps b p = (None, p') →
    view p' = mkCreds (uids (view p)) (gids (view p)) (groups (view p)) b (permitted (view p))
                (effective (view p)) (inheritable (view p)) (others (view p));
  law_keepcaps_fails : ∀ b p e p', k_keepcaps b p = (Some e, p') → view p' = view p;
  law_setgroups : ∀ gs p p', k_setgroups gs p = (None, p') →
    CAP_SETGID ∈ effective (view p) ∧
    view p' = mkCreds (uids (view p)) (gids (view p)) gs (keeps (view p)) (permitted (view p))
                (effective (view p)) (inheritable (view p)) (others (view p));
  law_setgid : ∀ g p p', k_setgid g p = (None, p') → CAP_SETGID ∈ effective (view p) →
    view p' = mkCreds (uids (view p)) (g, g, g) (groups (view p)) (keeps (view p))
                (permitted (view p)) (effective (view p)) (inheritable (view p)) (others (view p));
  law_setuid : ∀ u p p', k_setuid u p = (None, p') → uids (view p) = (0, 0, 0) →
    view p' = setuid_creds u (view p);
  law_caps_set : ∀ which s p p', k_caps_set which s p = (None, p') →
    view p' = caps_creds which s (view p);
  law_caps_fails : ∀ which s p e p', k_caps_set which s p = (Some e, p') → view p' = view p }.

Lemma bind_sys {A B} (m : Sys A) (f : A → Sys B) p b p' :
  (m ≫= f) p = (Ok b, p') → ∃ a q, m p = (Ok a, q) ∧ f a q = (Ok b, p').
Proof. unfold mbind, Sys_bind. destruct (m p) as [[a|e|] q]; try done. by exists a, q. Qed.

Lemma must_ok what call p p' : must what call p = (Ok tt, p') → call p = (None, p').
Proof. unfold must. destruct (call p) as [[e|] q]; [done|]. by intros [= ->]. Qed.

Lemma look_up_ok kind name f p id p' :
  look_up kind name f p = (Ok id, p') → f name p = inr (Some id) ∧ p' = p.
Proof. unfold look_up. by destruct (f name p) as [e|[i|]]; intros [= <- <-]. Qed.

(** The two calls that are only tried. *)
Lemma tried_creds view p p' :
  os_laws view →
  (try_call (k_caps_set Inheritable ∅);; try_call (k_keepcaps false)) p = (Ok tt, p') →
  ∃ inh keep, (inh = ∅ ∨ inh = inheritable (view p)) ∧
    view p' = mkCreds (uids (view p)) (gids (view p)) (groups (view p)) keep (permitted (view p))
                (effective (view p)) inh (others (view p)).
Proof.
  intros laws ([] & q & [= Hq] & [= Hp])%bind_sys.
  assert (∃ inh, (inh = ∅ ∨ inh = inheritable (view p)) ∧
    view q = mkCreds (uids (view p)) (gids (view p)) (groups (view p)) (keeps (view p))
               (permitted (view p)) (effective (view p)) inh (others (view p))) as (inh & Hinh & Ev).
  { destruct (k_caps_set Inheritable ∅ p) as [[e|] q'] eqn:E; cbn in Hq; subst q'.
    - exists (inheritable (view p)). rewrite (law_caps_fails _ laws _ _ _ _ _ E).
      destruct (view p). auto.
    - exists ∅. rewrite (law_caps_set _ laws _ _ _ _ E). auto. }
  exists inh. destruct (k_keepcaps false q) as [[e|] p''] eqn:E; cbn in Hp; subst p''.
  - exists (keeps (view p)). rewrite (law_keepcaps_fails _ laws _ _ _ _ E). auto.
  - exists false. rewrite (law_keepcaps _ laws _ _ _ E), Ev. auto.
Qed.

(** What root's [drop_privileges] leads to when it succeeds. *)
Lemma dropped_creds view target p p' :
  os_laws view → geteuid p = 0 → uids (view p) = (0, 0, 0) →
  drop_privileges target p = (Ok tt, p') →
  ∃ u g inh keep,
    user_from_name (user target) p = inr (Some u) ∧
    group_from_name (group target) p = inr (Some g) ∧
    (inh = ∅ ∨ inh = inheritable (view p)) ∧
    view p' = mkCreds (u, u, u) (g, g, g) [] keep {[CAP_NET_ADMIN]} {[CAP_NET_ADMIN]} inh
                (if u =? 0 then others (view p) else (λ _, (∅, ∅)) <$> others (view p)).
Proof.
  intros laws H0 Hroot. unfold drop_privileges, is_root.
  intros (r & q & [= <- <-] & H)%bind_sys. rewrite H0 in H. cbn [Z.eqb negb] in H.
  apply bind_sys in H as (u & q & [Hu ->]%look_up_ok & H).
  apply bind_sys in H as (g & q & [Hg ->]%look_up_ok & H). exists u, g.
  apply bind_sys in H as ([] & q1 & H1%must_ok%(law_keepcaps _ laws) & H).
  apply bind_sys in H as ([] & q2 & [H2c H2]%must_ok%(law_setgroups _ laws) & H).
  apply bind_sys in H as ([] & q3 & H3%must_ok & H).
  apply (law_setgid _ laws) in H3; [|by rewrite H2].
  apply bind_sys in H as ([] & q4 & H4%must_ok & H).
  apply (law_setuid _ laws) in H4; [|by rewrite H3, H2, H1].
  apply bind_sys in H as ([] & q5 & H5%must_ok%(law_caps_set _ laws) & H).
  apply bind_sys in H as ([] & q6 & H6%must_ok%(law_caps_set _ laws) & H).
  apply (tried_creds _ _ _ laws) in H as (inh & keep & Hinh & ->).
  exists inh, keep. rewrite H6, H5, H4, H3, H2, H1 in *. split_and!; [done..|].
  unfold setuid_creds. cbn. by destruct (u =? 0).
Qed.

(** C21. A daemon that goes on is not root. Started as root, it goes on only as
    the user and the group it was to become, with no supplementary group, with
    [CAP_NET_ADMIN] as the one capability of the thread that dropped the others,
    and with none in any other thread; started as another user it goes on as it
    was. *)
Theorem unprivileged_after_startup view target p0 p1 :
  os_laws view → (geteuid p0 = 0 → uids (view p0) = (0, 0, 0)) →
  drop_at_startup target p0 = (Ok tt, p1) →
  geteuid p1 ≠ 0 ∧ (geteuid p0 ≠ 0 → p1 = p0) ∧
  (geteuid p0 = 0 → ∃ u g,
     user_from_name (user target) p0 = inr (Some u) ∧
     group_from_name (group target) p0 = inr (Some g) ∧
     let c := view p1 in
     uids c = (u, u, u) ∧ gids c = (g, g, g) ∧ groups c = [] ∧
     permitted c = {[CAP_NET_ADMIN]} ∧ effective c = {[CAP_NET_ADMIN]} ∧
     (inheritable c = ∅ ∨ inheritable c = inheritable (view p0)) ∧
     Forall (λ t, t = (∅, ∅)) (others c)).
Proof.
  intros laws Hroot H. unfold drop_at_startup in H.
  apply bind_sys in H as ([] & p & Hdrop & H).
  unfold assert_unprivileged, is_root in H. apply bind_sys in H as (r & p' & [= <- <-] & H).
  destruct (Z.eqb_spec (geteuid p) 0) as [|Hne]; [done|]. injection H as <-.
  split; [done|]. split.
  - intros H0. unfold drop_privileges, is_root in Hdrop.
    apply bind_sys in Hdrop as (r & q & [= <- <-] & Hdrop).
    rewrite (proj2 (Z.eqb_neq _ _) H0) in Hdrop. by injection Hdrop as <-.
  - intros H0.
    destruct (dropped_creds _ _ _ _ laws H0 (Hroot H0) Hdrop) as (u & g & inh & k & Hu & Hg & Hi & E).
    rewrite (law_euid _ laws), E in Hne. cbn in Hne. apply Z.eqb_neq in Hne. rewrite Hne in E.
    exists u, g. cbn. rewrite E. split_and!; auto. apply Forall_fmap, Forall_true. done.
Qed.

End os.

(** A system that does so, with one account. *)
Module host_example.

#[export] Instance linux : Os := {|
  Proc := Creds;
  geteuid c := (uids c).1.2;
  user_from_name n _ := inr (if String.eqb n "mlvpn" then Some 990
                             else if String.eqb n "root" then Some 0 else None);
  group_from_name n _ := inr (if String.eqb n "mlvpn" then Some 991 else None);
  k_keepcaps b c := (None, mkCreds (uids c) (gids c) (groups c) b (permitted c) (effective c)
                             (inheritable c) (others c));
  k_setgroups gs c :=
    if bool_decide (CAP_SETGID ∈ effective c)
    then (None, mkCreds (uids c) (gids c) gs (keeps c) (permitted c) (effective c)
                  (inheritable c) (others c))
    else (Some "EPERM", c);
  k_setgid g c :=
    if bool_decide (CAP_SETGID ∈ effective c)
    then (None, mkCreds (uids c) (g, g, g) (groups c) (keeps c) (permitted c) (effective c)
                  (inheritable c) (others c))
    else (Some "EPERM", c);
  k_setuid u c :=
    if bool_decide (uids c = (0, 0, 0)) then (None, setuid_creds u c) else (Some "EPERM", c);
  k_caps_set which s c :=
    let d := caps_creds which s c in
    if bool_decide (permitted d ⊆ permitted c ∧ effective d ⊆ permitted d)
    then (None, d) else (Some "EPERM", c) |}.

Definition creds_of (c : Proc (Os := linux)) : Creds := c.

Lemma linux_laws : os_laws creds_of.
Proof.
  split; unfold creds_of; cbn; try done.
  - by intros b p p' [= <-].
  - intros gs p p'. case_bool_decide; by intros [= <-].
  - intros g p p'. case_bool_decide; by intros [= <-].
  - intros u p p' H Hu. rewrite Hu, bool_decide_true in H by done. by injection H as <-.
  - intros which s p p'. case_bool_decide; by intros [= <-].
  - intros which s p e p'. case_bool_decide; by intros [= _ <-].
Qed.

(** Root with three capabilities more than it needs, and a worker thread. *)
Definition all_caps : gset Z := {[0; CAP_SETGID; 7; CAP_NET_ADMIN]}.
Definition root : Creds :=
  mkCreds (0, 0, 0) (0, 0, 0) [0; 27] false all_caps all_caps ∅ [(all_caps, all_caps)].
Definition dropped : Creds :=
  mkCreds (990, 990, 990) (991, 991, 991) [] false {[CAP_NET_ADMIN]} {[CAP_NET_ADMIN]} ∅ [(∅, ∅)].

Example drops : drop_at_startup DropTarget_default root = (Ok tt, dropped).
Proof. vm_compute. reflexivity. Qed.
Example not_to_root : (drop_at_startup (mkTarget "root" "mlvpn") root).1
  = Err (Privilege "restricting permitted capabilities: EPERM").
Proof. vm_compute. reflexivity. Qed.
Example no_such_user : drop_at_startup (mkTarget "nobody" "mlvpn") root
  = (Err (Privilege "user 'nobody' does not exist"), root).
Proof. vm_compute. reflexivity. Qed.

Lemma unprivileged_after_startup_witness :
  geteuid dropped ≠ 0 ∧ (geteuid root ≠ 0 → dropped = root) ∧
  ∃ u g, uids dropped = (u, u, u) ∧ gids dropped = (g, g, g) ∧ groups dropped = [] ∧
    permitted dropped = {[CAP_NET_ADMIN]} ∧ Forall (λ t, t = (∅, ∅)) (others dropped).
Proof.
  destruct (unprivileged_after_startup creds_of DropTarget_default root dropped linux_laws
              (λ _, eq_refl) drops) as (H1 & H2 & H3).
  split; [exact H1|]. split; [exact H2|].
  destruct (H3 eq_refl) as (u & g & _ & _ & E1 & E2 & E3 & E4 & _ & _ & E5).
  exists u, g. exact (conj E1 (conj E2 (conj E3 (conj E4 E5)))).
Defined.

End host_example.

(** ** The machine's health ([procstats.rs]) *)

Definition parse_loadavg (s : string) : option (option f64 * option f64 * option f64) :=
  match split_whitespace s with
  | one :: five :: fifteen :: _ => Some (parse_f64 one, parse_f64 five, parse_f64 fifteen)
  | _ => None
  end.

Definition first_number (s : string) : option Z := head (split_whitespace s) ≫= parse_u64.

(** The loop over the lines. *)
Definition meminfo_line (acc : option Z * option Z) (line : string) : option Z * option Z :=
  match strip_prefix "MemTotal:" line with
  | Some rest => (first_number rest, acc.2)
  | None =>
      match strip_prefix "MemAvailable:" line with
      | Some rest => (acc.1, first_number rest)
      | None => acc
      end
  end.
Definition parse_meminfo (s : string) : option Z * option Z :=
  foldl meminfo_line (None, None) (lines s).

Definition parse_uptime (s : string) : option Z :=
  secs ← head (split_whitespace s) ≫= parse_f64; Some (f64.to_u64 secs).

(** From the texts of the three files, as far as they could be read. *)
Definition read_system_stats (loadavg meminfo uptime : option string) : SystemStats :=
  let '(l1, l5, l15) := default (None, None, None) (loadavg ≫= parse_loadavg) in
  let '(total, available) := from_option parse_meminfo (None, None) meminfo in
  mkSystem l1 l5 l15 total available (uptime ≫= parse_uptime).

(** ** The daemon's own use *)

Definition clock_ticks_per_sec (sysconf : Z) : Z := if 0 <? sysconf then sysconf else 100.

Definition parse_self_stat (s : string) : option (Z * Z) :=
  '(_, rest) ← rsplit_once ")" s;
  let f := split_whitespace rest in
  utime ← f !! 11%nat ≫= parse_u64;
  stime ← f !! 12%nat ≫= parse_u64;
  threads ← f !! 17%nat ≫= parse_u64;
  Some (wrap 64 (utime + stime), threads).

Definition parse_statm_rss_pages (s : string) : option Z := split_whitespace s !! 1%nat ≫= parse_u64.

(** From the texts of [stat] and [statm], the page size and the number of
    entries of [fd]. *)
Definition read_process_stats (stat statm : option string) (pagesize : Z) (fds : option Z)
    : ProcessStats :=
  let st := stat ≫= parse_self_stat in
  let page := if 0 <? pagesize then pagesize else 4096 in
  mkProcess (fst <$> st)
    ((λ pages, wrap 64 (pages * page) / 1024) <$> (statm ≫= parse_statm_rss_pages))
    (snd <$> st) fds.

(** ** The TUN device's counters ([sysfs_net.rs]) *)

(** From the text of each file of the statistics directory. *)
Definition read_counter (file : string → option string) (name : string) : option Z :=
  s ← file name; parse_u64 (trim_unicode s).
Definition read_tun_stats (file : string → option string) : TunIfaceStats :=
  mkTun (read_counter file "rx_bytes") (read_counter file "tx_bytes")
    (read_counter file "rx_packets") (read_counter file "tx_packets")
    (read_counter file "rx_errors") (read_counter file "tx_errors")
    (read_counter file "rx_dropped") (read_counter file "tx_dropped").

(** ** What the kernel writes is read back *)

Lemma rsplit_once_last c x y :
  contains_char c y = false → rsplit_once c (x +:+ String c y) = Some (x, y).
Proof.
  intros Hy. assert (rsplit_once c y = None) as Hn.
  { clear x. induction y as [|a y IH]; [done|]. rewrite contains_char_cons in Hy.
    apply orb_false_iff in Hy as [Ha Hy]. cbn. by rewrite IH, Ha. }
  induction x as [|a x IH]; simpl; [by rewrite Hn, Ascii.eqb_refl|]. by rewrite IH.
Qed.

(** A field of [stat]: printable characters other than the parenthesis. *)
Definition field_char (a : Ascii.ascii) : bool := graphic a && negb (Ascii.eqb a ")"%char).
Definition field (w : string) : Prop := w ≠ "" ∧ all_chars field_char w = true.

Definition fields_text (ws : list string) : string :=
  foldr (λ w s, String " "%char (w +:+ s)) (String (Ascii.ascii_of_nat 10) EmptyString) ws.

Lemma field_no_space a s : field_char a = true → space_len (String a s) = None.
Proof. intros [Ha _]%andb_true_iff. by apply graphic_no_space. Qed.

Lemma blank_len s : space_len (String " "%char s) = Some 1%nat.
Proof. by destruct s. Qed.

Lemma split_ws_field w s cur :
  all_chars field_char w = true → split_ws (w +:+ s) 0 cur = split_ws s 0 (cur +:+ w).
Proof.
  revert cur. induction w as [|a w IH]; intros cur; simpl.
  - intros _. by rewrite string_app_nil.
  - intros [Ha Hw]%andb_true_iff. rewrite field_no_space by done. rewrite IH by done.
    by rewrite <- string_app_assoc.
Qed.

Lemma split_fields ws cur :
  Forall field ws → split_ws (fields_text ws) 0 cur = flush cur ++ ws.
Proof.
  intros H. revert cur. induction H as [|w ws [Hne Hw] _ IH]; intros cur; [done|].
  cbn [fields_text foldr split_ws]. rewrite blank_len. cbn [pred]. f_equal. fold (fields_text ws).
  rewrite split_ws_field, IH by done. change ("" +:+ w) with w. unfold flush.
  by rewrite (proj2 (String.eqb_neq w "") Hne).
Qed.

Lemma fields_no_paren ws : Forall field ws → contains_char ")" (fields_text ws) = false.
Proof.
  intros H. induction H as [|w ws [_ Hw] _ IH]; [done|]. cbn [fields_text foldr].
  rewrite contains_char_cons, contains_char_app. fold (fields_text ws). rewrite IH, orb_false_r. cbn.
  induction w as [|a w IHw]; [done|]. cbn in Hw. apply andb_true_iff in Hw as [Ha Hw].
  rewrite contains_char_cons, IHw by done. unfold field_char in Ha.
  destruct (Ascii.eqb a ")"); [by rewrite andb_false_r in Ha|done].
Qed.

(** The line of [/proc/self/stat] is read as the kernel wrote it, whatever
    spaces and parentheses the name of the program has. *)
Theorem self_stat_read pid comm ws utime stime threads :
  Forall field ws → fits 64 utime → fits 64 stime → fits 64 threads →
  ws !! 11%nat = Some (pretty utime) → ws !! 12%nat = Some (pretty stime) →
  ws !! 17%nat = Some (pretty threads) →
  parse_self_stat (pid +:+ " (" +:+ comm +:+ ")" +:+ fields_text ws)
  = Some (wrap 64 (utime + stime), threads).
Proof.
  intros Hws Hu Hs Ht H11 H12 H17. unfold parse_self_stat.
  assert (pid +:+ " (" +:+ comm +:+ ")" +:+ fields_text ws
          = (pid +:+ " (" +:+ comm) +:+ String ")" (fields_text ws)) as ->
    by (by rewrite <- !string_app_assoc).
  rewrite rsplit_once_last by by apply fields_no_paren. cbn [mbind option_bind].
  unfold split_whitespace. rewrite split_fields by done. cbn [flush String.eqb app].
  change (flush "" ++ ws) with ws. rewrite H11, H12, H17. cbn [mbind option_bind].
  by rewrite !parse_pretty.
Qed.

Lemma self_stat_read_witness :
  parse_self_stat ("7" +:+ " (" +:+ "a) R 9 (b" +:+ ")" +:+ fields_text
    ["S"; "1"; "7"; "7"; "0"; "-1"; "4194560"; "900"; "0"; "3"; "0"; "250"; "40"; "0"; "0"; "20";
     "0"; "5"; "0"; "100"]) = Some (290, 5).
Proof.
  apply (self_stat_read "7" "a) R 9 (b" _ 250 40 5); try reflexivity; try (split; lia).
  repeat constructor; discriminate.
Defined.

Example meminfo_read :
  parse_meminfo "MemTotal:       16318480 kB
MemFree:         1 kB
MemAvailable:    900 kB
" = (Some 16318480, Some 900).
Proof. vm_compute. reflexivity. Qed.
Example uptime_read : parse_uptime "12345.67 98765.43" = Some 12345.
Proof. vm_compute. reflexivity. Qed.
