(* ===== verification/Sockets.v ===== *)
(** * The files of the control sockets ([control.rs])

    How [serve] and [serve_commands] put their sockets into the file system. The
    two tasks run at the same time, and the umask they tighten around the
    creation of a socket belongs to the whole process, so every system call is a
    step. What the file system answers is an argument of the step. *)

From S2P Require Import Prelude Bytes.

(** ** The process and the file system *)

Inductive Server := Stats | Commands.
#[export] Instance Server_eq_dec : EqDecision Server.
Proof. solve_decision. Defined.

(** A socket somebody serves is that server's; one left behind is a file. *)
Inductive Kind := Dir | File | Sock (x : Server).
Record Entry := mkEntry { e_kind : Kind; e_mode : Z }.

(** Where a server's [path] is, its [parent], and the directories from the
    outermost one to the parent. *)
Record Place := mkPlace { path : string; parent : option string; dirs : list string }.

(** The stages of [serve] and [serve_commands]. [Bind] and [Loosen] hold
    [previous_umask]; the flag is whether [bind] succeeded. *)
Inductive Stage :=
  | MakeDir (todo : list string)
  | SetDirMode
  | RemoveStale
  | TakeLock
  | Tighten
  | Bind (previous_umask : Z)
  | Loosen (previous_umask : Z) (bound : bool)
  | Release (bound : bool)
  | SetMode
  | Listening
  | Unavailable.

Record Sys := mkSys {
  umask : Z;
  lock : option Server;
  files : gmap string Entry;
  stages : Server → Stage }.

Definition set_stage (x : Server) (st : Stage) (s : Sys) : Sys :=
  mkSys (umask s) (lock s) (files s) (λ y, if decide (y = x) then st else stages s y).
Definition set_umask (u : Z) (s : Sys) : Sys := mkSys u (lock s) (files s) (stages s).
Definition set_lock (l : option Server) (s : Sys) : Sys := mkSys (umask s) l (files s) (stages s).
Definition put (p : string) (e : Entry) (s : Sys) : Sys :=
  mkSys (umask s) (lock s) (<[p := e]> (files s)) (stages s).

(** The mode a new file gets, [chmod], and [remove_file]. *)
Definition created (mode : Z) (s : Sys) : Z := Z.land mode (Z.lnot (umask s)).
Definition chmod (p : string) (mode : Z) (s : Sys) : Sys :=
  mkSys (umask s) (lock s) (alter (λ e, mkEntry (e_kind e) mode) p (files s)) (stages s).
Definition is_dir (e : Entry) : bool := match e_kind e with Dir => true | _ => false end.
Definition unlink (p : string) (s : Sys) : Sys :=
  match files s !! p with
  | Some e => if is_dir e then s else mkSys (umask s) (lock s) (delete p (files s)) (stages s)
  | None => s
  end.

(** Modes: [0o777], [0o750], [0o666]. *)
Definition ALL : Z := 0x1ff.
Definition DIR_MODE : Z := 0x1e8.
Definition FILE_MODE : Z := 0x1b6.

Section serve.
Context (group_access : bool) (place : Server → Place).

(** [0o117] or [0o177], and [0o660] or [0o600]. *)
Definition bind_umask (x : Server) : Z :=
  match x with Stats => if group_access then 0x4f else 0x7f | Commands => 0x7f end.
Definition socket_mode (x : Server) : Z :=
  match x with Stats => if group_access then 0x1b0 else 0x180 | Commands => 0x180 end.

(** The next system call of a server; [ok] is whether it succeeds. [None] when it
    waits for the lock, or the set-up is over. *)
Definition serve_turn (x : Server) (ok : bool) (s : Sys) : option Sys :=
  match stages s x with
  | MakeDir (p :: todo) =>
      Some (if ok then
              match files s !! p with
              | None => set_stage x (MakeDir todo) (put p (mkEntry Dir (created ALL s)) s)
              | Some e => set_stage x (if is_dir e then MakeDir todo else Unavailable) s
              end
            else set_stage x Unavailable s)
  | MakeDir [] => Some (set_stage x (if parent (place x) then SetDirMode else RemoveStale) s)
  | SetDirMode =>
      Some (set_stage x RemoveStale
              (match parent (place x) with
               | Some p => if ok then chmod p DIR_MODE s else s
               | None => s
               end))
  | RemoveStale => Some (set_stage x TakeLock (if ok then unlink (path (place x)) s else s))
  | TakeLock =>
      match lock s with
      | None => Some (set_lock (Some x) (set_stage x Tighten s))
      | Some _ => None
      end
  | Tighten => Some (set_umask (bind_umask x) (set_stage x (Bind (umask s)) s))
  | Bind previous =>
      Some (match files s !! path (place x) with
            | None =>
                if ok then
                  set_stage x (Loosen previous true)
                    (put (path (place x)) (mkEntry (Sock x) (created ALL s)) s)
                else set_stage x (Loosen previous false) s
            | Some _ => set_stage x (Loosen previous false) s
            end)
  | Loosen previous bound => Some (set_umask previous (set_stage x (Release bound) s))
  | Release bound =>
      Some (set_lock None (set_stage x (if bound then SetMode else Unavailable) s))
  | SetMode =>
      Some (set_stage x Listening
              (if ok then chmod (path (place x)) (socket_mode x) s else s))
  | Listening | Unavailable => None
  end.

(** The file system a server may touch besides its socket. *)
Definition elsewhere (p : string) : Prop := ∀ x, p ≠ path (place x).

(** A call of a server, or another task that creates a file of its own. *)
Inductive sys_step : Sys → Sys → Prop :=
  | step_serve x ok s s' : serve_turn x ok s = Some s' → sys_step s s'
  | step_other p s :
      elsewhere p → files s !! p = None → sys_step s (put p (mkEntry File (created FILE_MODE s)) s).

(** Start-up: what is at a path already belongs to nobody. *)
Record start (u : Z) (s : Sys) : Prop := {
  st_umask : umask s = u;
  st_lock : lock s = None;
  st_stage : ∀ x, stages s x = MakeDir (dirs (place x));
  st_files : ∀ p e x, files s !! p = Some e → e_kind e ≠ Sock x }.

(** Two paths, neither of them one of the directories. *)
Record places_ok : Prop := {
  pl_distinct : path (place Stats) ≠ path (place Commands);
  pl_dirs : ∀ x, Forall elsewhere (dirs (place x));
  pl_parent : ∀ x p, parent (place x) = Some p → elsewhere p }.

(** ** Only for those it is meant for, at any moment *)

Lemma fresh_mode x s : umask s = bind_umask x → created ALL s = socket_mode x.
Proof. unfold created. intros ->. by destruct x; cbn; destruct group_access. Qed.

(** The umask while a server holds the lock. *)
Definition masked (u : Z) (x : Server) (s : Sys) : Prop :=
  match stages s x with
  | Tighten | Release _ => umask s = u
  | Bind previous | Loosen previous _ => previous = u ∧ umask s = bind_umask x
  | _ => False
  end.
Definition outside (st : Stage) : Prop :=
  match st with Tighten | Bind _ | Loosen _ _ | Release _ => False | _ => True end.
(** The server's socket is in place. *)
Definition placed (x : Server) (s : Sys) : Prop :=
  files s !! path (place x) = Some (mkEntry (Sock x) (socket_mode x)).
Definition past_bind (st : Stage) : bool :=
  match st with Loosen _ b | Release b => b | SetMode | Listening => true | _ => false end.

Record sys_inv (u : Z) (s : Sys) : Prop := {
  si_lock : match lock s with
            | None => umask s = u ∧ ∀ x, outside (stages s x)
            | Some x => masked u x s ∧ ∀ y, y ≠ x → outside (stages s y)
            end;
  si_socks : ∀ p e x, files s !! p = Some e → e_kind e = Sock x →
    p = path (place x) ∧ e_mode e = socket_mode x;
  si_placed : ∀ x, past_bind (stages s x) = true → placed x s;
  si_todo : ∀ x l, stages s x = MakeDir l → Forall elsewhere l }.

Definition with_files (f : gmap string Entry) (s : Sys) : Sys :=
  mkSys (umask s) (lock s) f (stages s).

Lemma files_inv u s f :
  sys_inv u s →
  (∀ p e x, f !! p = Some e → e_kind e = Sock x → p = path (place x) ∧ e_mode e = socket_mode x) →
  (∀ x, past_bind (stages s x) = true → placed x (with_files f s)) →
  sys_inv u (with_files f s).
Proof. intros [] Hs Hp. by split. Qed.

(** An entry that is not at the path of a socket. *)
Lemma put_inv u s p e :
  sys_inv u s → elsewhere p → (∀ x, e_kind e ≠ Sock x) → sys_inv u (put p e s).
Proof.
  intros I Hp He. apply (files_inv u s _ I).
  - intros q e' x [[<- <-]|[_ Hq]]%lookup_insert_Some; [by intros ?%He|by apply I].
  - intros x Hx. unfold placed. cbn. rewrite lookup_insert_ne by apply Hp. by apply I.
Qed.

Lemma chmod_inv u s p mode :
  sys_inv u s → (elsewhere p ∨ ∃ x, p = path (place x) ∧ mode = socket_mode x ∧ placed x s) →
  sys_inv u (chmod p mode s).
Proof.
  intros I Hp. apply (files_inv u s _ I).
  - intros q e x [(-> & e' & Hq & ->)|[_ Hq]]%lookup_alter_Some Hk; [|by apply (si_socks _ _ I q e x)].
    cbn in Hk. destruct (si_socks _ _ I q e' x Hq Hk) as [-> _].
    destruct Hp as [Hp|(y & Ey & -> & Hy)]; [by destruct (Hp x)|].
    unfold placed in Hy. rewrite <- Ey, Hq in Hy. injection Hy as ->. by injection Hk as ->.
  - intros x Hx. apply I in Hx. unfold placed in *. cbn.
    destruct Hp as [Hp|(y & -> & -> & Hy)]; [by rewrite lookup_alter_ne by apply Hp|].
    destruct (decide (path (place y) = path (place x))) as [E|E]; [|by rewrite lookup_alter_ne].
    unfold placed in Hy. rewrite <- E, Hy in Hx. injection Hx as ->.
    by rewrite lookup_alter_eq, Hy.
Qed.

Lemma unlink_inv u s x :
  places_ok → sys_inv u s → past_bind (stages s x) = false →
  sys_inv u (unlink (path (place x)) s).
Proof.
  intros P I Hx. unfold unlink. destruct (files s !! path (place x)) as [e|]; [|done].
  destruct (is_dir e); [done|]. apply (files_inv u s _ I).
  - intros q e' y [_ Hq]%lookup_delete_Some. by apply I.
  - intros y Hy. pose proof (si_placed _ _ I y Hy) as H. unfold placed in *. cbn.
    rewrite lookup_delete_ne; [done|]. pose proof (pl_distinct P). intros E.
    destruct x, y; congruence.
Qed.

Lemma stage_inv u s x st :
  sys_inv u s → outside (stages s x) → outside st →
  (past_bind st = true → placed x s) → (∀ l, st = MakeDir l → Forall elsewhere l) →
  sys_inv u (set_stage x st s).
Proof.
  intros I Hx Hst Hp Hl. destruct I as [Ilock Isocks Iplaced Itodo]. split; cbn.
  - destruct (lock s) as [y|].
    + destruct Ilock as [Hm Ho]. split.
      * unfold masked. cbn. destruct (decide (y = x)) as [->|]; [|done].
        unfold masked in Hm. by destruct (stages s x).
      * intros z Hz. destruct (decide (z = x)); auto.
    + destruct Ilock as [Hu Ho]. split; [done|]. intros z. destruct (decide (z = x)); auto.
  - done.
  - intros y. destruct (decide (y = x)) as [->|]; [done|]. apply Iplaced.
  - intros y l. destruct (decide (y = x)); [by apply Hl|apply Itodo].
Qed.

(** A state in which the server holds the lock, from one with the same files. *)
Lemma held_inv u s x st l v :
  sys_inv u s → (∀ y, y ≠ x → outside (stages s y)) →
  masked u x (mkSys v (Some x) (files s) (λ _, st)) → l = Some x →
  (past_bind st = true → placed x s) →
  sys_inv u (mkSys v l (files s) (stages (set_stage x st s))).
Proof.
  intros I Ho Hm -> Hp. pose proof (si_placed _ _ I) as Hpl. pose proof (si_todo _ _ I) as Htd.
  unfold masked in Hm. cbn in Hm. split; cbn.
  - split; [unfold masked; cbn; by rewrite decide_True by done|].
    intros y Hy. rewrite decide_False by done. auto.
  - apply I.
  - intros y. destruct (decide (y = x)) as [->|]; [exact Hp|]. apply Hpl.
  - intros y l'. destruct (decide (y = x)) as [->|]; [by intros ->|]. apply Htd.
Qed.

Lemma holder u s x : sys_inv u s → ¬ outside (stages s x) →
  lock s = Some x ∧ masked u x s ∧ ∀ y, y ≠ x → outside (stages s y).
Proof.
  intros I Hx. pose proof (si_lock _ _ I) as H. destruct (lock s) as [y|].
  - destruct H as [Hm Ho]. destruct (decide (x = y)) as [->|]; [done|]. by destruct Hx; apply Ho.
  - by destruct Hx; apply H.
Qed.

(** The socket a server creates under its umask. *)
Lemma bound_inv u s x :
  places_ok → sys_inv u s → files s !! path (place x) = None → past_bind (stages s x) = false →
  umask s = bind_umask x →
  let s1 := put (path (place x)) (mkEntry (Sock x) (created ALL s)) s in
  sys_inv u s1 ∧ placed x s1.
Proof.
  intros P I Hn Hx Hu s1.
  assert (placed x s1) as Hp
    by (unfold placed; cbn; rewrite lookup_insert_eq, (fresh_mode x) by apply Hu; done).
  split; [|done]. apply (files_inv u s _ I).
  - intros q e y [[<- <-]|[_ Hq]]%lookup_insert_Some; [|by apply I].
    intros [= <-]. split; [done|]. by apply fresh_mode.
  - intros y Hy. destruct (decide (y = x)) as [->|Hne]; [exact Hp|].
    unfold placed. cbn. rewrite lookup_insert_ne; [by apply I|].
    pose proof (pl_distinct P). destruct x, y; congruence.
Qed.

Lemma turn_inv u s x ok s' :
  places_ok → sys_inv u s → serve_turn x ok s = Some s' → sys_inv u s'.
Proof.
  intros P I. unfold serve_turn. destruct (stages s x) as [todo| | | | |prev|prev b|b| | |] eqn:Est.
  - pose proof (si_todo _ _ I x todo Est) as Htd. assert (outside (stages s x)) as Ho by by rewrite Est.
    destruct todo as [|p todo].
    + intros [= <-]. by destruct (parent (place x)); apply stage_inv.
    + inversion Htd as [|? ? Hp Htodo]; subst. intros [= <-]. destruct ok; [|by apply stage_inv].
      destruct (files s !! p) as [e|].
      * apply stage_inv; try done; destruct (is_dir e); try done. by intros l [= <-].
      * apply stage_inv; try done; [|by intros l [= <-]]. by apply put_inv.
  - intros [= <-]. apply stage_inv; try done; [|by destruct (parent _), ok; cbn; rewrite Est].
    destruct (parent (place x)) as [p|] eqn:Ep; [|done]. destruct ok; [|done].
    apply chmod_inv; [done|]. left. by apply (pl_parent P x).
  - intros [= <-]. destruct ok; [|by apply stage_inv; rewrite ?Est].
    apply stage_inv; try done; [apply unlink_inv; by rewrite ?Est|].
    unfold unlink. destruct (files s !! _) as [e|]; [destruct (is_dir e)|]; cbn; by rewrite Est.
  - destruct (lock s) as [y|] eqn:El; [done|]. intros [= <-]. pose proof (si_lock _ _ I) as H.
    rewrite El in H. destruct H as [Hu Ho]. by apply (held_inv u s x Tighten (Some x) (umask s)).
  - destruct (holder u s x I) as (Hl & Hm & Ho); [by rewrite Est; intros H|]. intros [= <-].
    unfold masked in Hm. rewrite Est in Hm.
    by apply (held_inv u s x (Bind (umask s)) (lock s) (bind_umask x)).
  - destruct (holder u s x I) as (Hl & Hm & Ho); [by rewrite Est; intros H|]. intros [= <-].
    unfold masked in Hm. rewrite Est in Hm.
    assert (sys_inv u (set_stage x (Loosen prev false) s)) as Hfail
      by by apply (held_inv u s x (Loosen prev false) (lock s) (umask s)).
    destruct (files s !! _) eqn:Ef; [done|]. destruct ok; [|done].
    destruct (bound_inv u s x P I Ef) as [I1 Hp]; [by rewrite Est|apply Hm|].
    by apply (held_inv u _ x (Loosen prev true) (lock s) (umask s)).
  - destruct (holder u s x I) as (Hl & Hm & Ho); [by rewrite Est; intros H|]. intros [= <-].
    unfold masked in Hm. rewrite Est in Hm. destruct Hm as [-> Hm].
    apply (held_inv u s x (Release b) (lock s) u); try done.
    intros E. apply (si_placed _ _ I). by rewrite Est.
  - destruct (holder u s x I) as (Hl & Hm & Ho); [by rewrite Est; intros H|]. intros [= <-].
    unfold masked in Hm. rewrite Est in Hm. split; cbn.
    + split; [done|]. intros y. destruct (decide (y = x)) as [->|]; [by destruct b|auto].
    + apply I.
    + intros y. destruct (decide (y = x)) as [->|]; [|apply I].
      intros E. apply (si_placed _ _ I). rewrite Est. by destruct b.
    + intros y l. destruct (decide (y = x)); [by destruct b|]. apply I.
  - intros [= <-]. assert (placed x s) as Hp by (apply (si_placed _ _ I); by rewrite Est).
    assert (sys_inv u (chmod (path (place x)) (socket_mode x) s)) as Ic
      by (apply chmod_inv; [done|]; right; by exists x).
    assert (placed x (chmod (path (place x)) (socket_mode x) s)) as Hc
      by (unfold placed in *; cbn; by rewrite lookup_alter_eq, Hp).
    destruct ok; apply stage_inv; cbn; rewrite ?Est; try done.
  - done.
  - done.
Qed.

Lemma start_inv u s : places_ok → start u s → sys_inv u s.
Proof.
  intros P []. split.
  - rewrite st_lock0. split; [done|]. intros x. by rewrite st_stage0.
  - intros p e x H1 H2. by destruct (st_files0 p e x).
  - intros x. by rewrite st_stage0.
  - intros x l. rewrite st_stage0. intros [= <-]. apply P.
Qed.

Lemma reach_inv_sys u s0 s : places_ok → start u s0 → rtc sys_step s0 s → sys_inv u s.
Proof.
  intros P H0 Hs. assert (sys_inv u s0) as I by by apply start_inv. clear H0.
  induction Hs as [|s0 s1 s [x ok t t' Ht|p t Hp Hn] _ IH]; [done| |]; apply IH.
  - by apply (turn_inv u t x ok).
  - by apply put_inv.
Qed.

(** C22. What is open to whom. In every interleaving of the two servers with each
    other and with tasks that create files of their own: at any moment a socket
    of the daemon is at its own path and has the mode of its server and no
    other, 0600, or 0660 for the statistics with [group_access]; the umask is
    the one the daemon was started with unless a server that holds the lock is
    creating its socket; a server that listens has its socket in place; and
    where neither server can go on, each of them listens or has given up. *)
Theorem sockets_private u s0 s :
  places_ok → start u s0 → rtc sys_step s0 s →
  (∀ p e x, files s !! p = Some e → e_kind e = Sock x →
     p = path (place x) ∧ e_mode e = socket_mode x) ∧
  (umask s = u ∨ ∃ x, lock s = Some x ∧ umask s = bind_umask x ∧
     ((∃ v, stages s x = Bind v) ∨ ∃ v b, stages s x = Loosen v b)) ∧
  (∀ x, stages s x = Listening →
     files s !! path (place x) = Some (mkEntry (Sock x) (socket_mode x))) ∧
  ((∀ x ok, serve_turn x ok s = None) →
     umask s = u ∧ ∀ x, stages s x = Listening ∨ stages s x = Unavailable).
Proof.
  intros P H0 Hs. pose proof (reach_inv_sys u s0 s P H0 Hs) as I. clear H0 Hs.
  assert (umask s = u ∨ ∃ x, lock s = Some x ∧ umask s = bind_umask x ∧
     ((∃ v, stages s x = Bind v) ∨ ∃ v b, stages s x = Loosen v b)) as Hu.
  { pose proof (si_lock _ _ I) as H. destruct (lock s) as [x|]; [|by left; apply H].
    destruct H as [Hm _]. unfold masked in Hm.
    destruct (stages s x) eqn:E; try done; try (by left); right; exists x;
      destruct Hm; split_and!; try done; rewrite E; eauto. }
  split_and!; [apply I|exact Hu| |].
  - intros x Hx. apply I. by rewrite Hx.
  - intros Hstop.
    assert (∀ x, stages s x = Listening ∨ stages s x = Unavailable ∨ stages s x = TakeLock) as Hst.
    { intros x. specialize (Hstop x true). unfold serve_turn in Hstop.
      destruct (stages s x) as [[|]| | | | | | | | | |]; try done; auto. }
    assert (lock s = None) as Hl.
    { pose proof (si_lock _ _ I) as H. destruct (lock s) as [x|]; [|done].
      destruct H as [Hm _]. unfold masked in Hm. by destruct (Hst x) as [E|[E|E]]; rewrite E in Hm. }
    split.
    + destruct Hu as [|(x & E & _)]; [done|congruence].
    + intros x. destruct (Hst x) as [|[|E]]; [by left|by right|].
      specialize (Hstop x true). unfold serve_turn in Hstop. by rewrite E, Hl in Hstop.
Qed.

(** Each call brings its server nearer to the end. *)
Definition rank (st : Stage) : nat :=
  match st with
  | MakeDir todo => 10 + length todo
  | SetDirMode => 9 | RemoveStale => 8 | TakeLock => 7 | Tighten => 6 | Bind _ => 5
  | Loosen _ _ => 4 | Release _ => 3 | SetMode => 2 | Listening | Unavailable => 0
  end.

(** The set-up ends: a call lowers the rank of its server and leaves the other's
    alone, so two servers make at most the sum of their ranks of calls. *)
Lemma turn_rank x ok s s' :
  serve_turn x ok s = Some s' →
  (rank (stages s' x) < rank (stages s x))%nat ∧ ∀ y, y ≠ x → stages s' y = stages s y.
Proof.
  unfold serve_turn. intros H.
  assert (∃ st, stages s' = stages (set_stage x st s) ∧ (rank st < rank (stages s x))%nat)
    as (st & -> & Hr).
  { unfold unlink in H. destruct (stages s x) as [[|p todo]| | | | | | | | | |]; cbn in *;
      repeat case_match; try done; simplify_eq/=; eexists; (split; [reflexivity|]); cbn; lia. }
  cbn. rewrite decide_True by done. split; [done|]. intros y Hy. by rewrite decide_False.
Qed.
End serve.

Module sockets_example.

Definition place (x : Server) : Place :=
  mkPlace (match x with Stats => "/run/mlvpn/tun0.sock" | Commands => "/run/mlvpn/tun0.command.sock" end)
    (Some "/run/mlvpn") ["/run"; "/run/mlvpn"].
(** The umask 0022, and a socket left behind by an earlier run. *)
Definition boot : Sys :=
  mkSys 0x12 None
    {[ "/run" := mkEntry Dir 0x1ed; "/run/mlvpn/tun0.sock" := mkEntry File 0x1ff ]}
    (λ x, MakeDir (dirs (place x))).

Fixpoint turns (l : list (Server * bool)) (s : Sys) : Sys :=
  match l with
  | [] => s
  | (x, ok) :: l => turns l (default s (serve_turn true place x ok s))
  end.

Lemma turns_reached l s : rtc (sys_step true place) s (turns l s).
Proof.
  revert s. induction l as [|[x ok] l IH]; intros s; [done|]. cbn.
  destruct (serve_turn true place x ok s) as [s'|] eqn:E; [|done].
  apply rtc_l with s'; [by apply (step_serve _ _ x ok)|done].
Qed.

Lemma place_ok : places_ok place.
Proof.
  split; [done|..].
  - intros x. repeat constructor; intros []; done.
  - intros [] p [= <-] []; done.
Qed.
Lemma boots : start place 0x12 boot.
Proof.
  split; try done. intros p e x H. cbn in H. revert H.
  intros [[_ <-]|[_ [_ <-]%lookup_singleton_Some]]%lookup_insert_Some; done.
Qed.

(** The servers take turns; where one waits for the lock the other goes on. *)
Definition both : list (Server * bool) := concat (repeat [(Stats, true); (Commands, true)] 20).
Definition ready_sys : Sys := turns both boot.

Lemma sockets_private_witness :
  files ready_sys !! "/run/mlvpn/tun0.sock" = Some (mkEntry (Sock Stats) 0x1b0) ∧
  files ready_sys !! "/run/mlvpn/tun0.command.sock" = Some (mkEntry (Sock Commands) 0x180) ∧
  umask ready_sys = 0x12.
Proof.
  destruct (sockets_private true place 0x12 boot ready_sys place_ok boots (turns_reached both boot))
    as (_ & _ & Hl & He).
  split; [exact (Hl Stats eq_refl)|]. split; [exact (Hl Commands eq_refl)|].
  apply He. intros [] []; vm_compute; reflexivity.
Defined.

(** The umask is the process's: a directory that is made while a socket is
    created cannot be searched, so nothing can be created in it until its mode
    is set, and a file of another task is open to the group, which the ambient
    umask 0077 would forbid. *)
Definition tight : Sys :=
  turns (repeat (Stats, true) 7) (mkSys 0x3f None
    {[ "/run" := mkEntry Dir 0x1ed; "/run/mlvpn" := mkEntry Dir 0x1c0 ]}
    (λ x, match x with
          | Stats => MakeDir (dirs (place x))
          | Commands => MakeDir ["/run"; "/run/mlvpn"; "/run/mlvpn/private"]
          end)).
Example racing_directory_unsearchable :
  umask tight = 0x4f ∧
  files (turns [(Commands, true); (Commands, true); (Commands, true)] tight)
    !! "/run/mlvpn/private" = Some (mkEntry Dir 0x1b0) ∧
  created FILE_MODE tight = 0x1b0.
Proof. vm_compute. auto. Qed.

End sockets_example.
