(* ===== verification/Keys.v ===== *)
(** * Key files ([crypto.rs], [mlvpnd genkey] of [main.rs])

    Generating a key pair, writing the private half to a file, and reading it
    back as the daemon does at start-up. The generator and the base64 codec are
    third-party code: parameters, the codec with its documented behaviour as
    hypotheses. *)

From Stdlib Require Import Ascii.
From S2P Require Import Prelude Bytes Text Configuration.

Class Base64 := {
  b64_encode : list Z → string;
  b64_decode : string → string + list Z }.

Record base64_laws `{Base64} : Prop := {
  decode_encode : ∀ b, bytes_ok b → b64_decode (b64_encode b) = inr b;
  encode_graphic : ∀ b, bytes_ok b → all_chars graphic (b64_encode b) = true }.

(** ** [crypto.rs] *)

Record StaticKeypair := mkKeypair { private : list Z; public : list Z }.

(** What the key generator answers: it does not know the pattern, it fails, or a
    pair. *)
Inductive Keygen := BadPattern (e : string) | KeygenFailed (e : string) | Generated (kp : StaticKeypair).

(** [[u8; 32]::copy_from_slice]. *)
Definition copy_32 (b : list Z) : outcome (list Z) :=
  if bool_decide (length b = 32%nat) then Ok b else Panic.

Definition generate (answer : Keygen) : outcome StaticKeypair :=
  match answer with
  | BadPattern e => Err (Handshake ("bad noise pattern: " +:+ e))
  | KeygenFailed e => Err (Handshake ("keygen failed: " +:+ e))
  | Generated kp =>
      priv ← copy_32 (private kp);
      pub ← copy_32 (public kp);
      Ok (mkKeypair priv pub)
  end.

Section keys.
Context `{B64 : Base64}.

(** The tail of both readers: decoding and the length. *)
Definition decode_key (not_base64 must_be : string) (text : string) : outcome (list Z) :=
  match b64_decode (trim_unicode text) with
  | inl e => Err (config_err (not_base64 +:+ e))
  | inr bytes =>
      guard_err (negb (bool_decide (length bytes = 32%nat)))
        (config_err (must_be +:+ pretty (len bytes)));;
      copy_32 bytes
  end.

(** [read_to_string] gives the text or an error message. *)
Definition load_private (read_to_string : string → string + string) (path : string)
    : outcome (list Z) :=
  match read_to_string path with
  | inl e => Err (config_err ("reading key file " +:+ path +:+ ": " +:+ e))
  | inr raw =>
      decode_key "key file is not valid base64: " "private key must be 32 bytes, got " raw
  end.

Definition decode_public_key (b64 : string) : outcome (list Z) :=
  decode_key "public key is not valid base64: " "public key must be 32 bytes, got " b64.

Definition public_base64 (kp : StaticKeypair) : string := b64_encode (public kp).
Definition private_base64 (kp : StaticKeypair) : string := b64_encode (private kp).
Definition raw_bytes (kp : StaticKeypair) : list Z * list Z := (private kp, public kp).

(** ** [genkey] *)

Record KeyFile := mkFile { f_mode : Z; f_text : string }.

(** What the process leaves: its result, the files, and what it printed. *)
Record Ran := mkRan { r_result : outcome unit; r_files : gmap string KeyFile; r_out : list string }.

(** [open] with [mode(0o600)], which counts for a new file only. *)
Definition open_key_file (umask : Z) (path : string) (files : gmap string KeyFile)
    : gmap string KeyFile :=
  <[path := mkFile (match files !! path with
                    | Some f => f_mode f
                    | None => Z.land 0x180 (Z.lnot umask)
                    end) ""]> files.

(** [open] and [write] are the errors of the calls; a failed write may leave a
    part of the text. *)
Definition genkey (answer : Keygen) (link : string) (out : option string)
    (open : option IoError) (write : option (IoError * string)) (umask : Z)
    (files : gmap string KeyFile) : Ran :=
  match generate answer with
  | Err e => mkRan (Err e) files []
  | Panic => mkRan Panic files []
  | Ok kp =>
      match out with
      | Some path =>
          match open with
          | Some e => mkRan (Err (Io e)) files []
          | None =>
              let files := open_key_file umask path files in
              let put text := alter (λ f, mkFile (f_mode f) text) path files in
              match write with
              | Some (e, part) => mkRan (Err (Io e)) (put part) []
              | None =>
                  mkRan (Ok tt) (put (private_base64 kp))
                    ["private key for link '" +:+ link +:+ "' written to " +:+ path;
                     "public key for link '" +:+ link +:+ "' (share with peer): " +:+ public_base64 kp]
              end
          end
      | None =>
          mkRan (Ok tt) files
            ["private key for link '" +:+ link +:+ "': " +:+ private_base64 kp;
             "public key for link '" +:+ link +:+ "':  " +:+ public_base64 kp]
      end
  end.

(** What the daemon sees of the files. *)
Definition mode_of (files : gmap string KeyFile) (path : string) : IoError + Z :=
  match files !! path with Some f => inr (f_mode f) | None => inl (mkIo (Some 2) "not found") end.
Definition text_of (files : gmap string KeyFile) (path : string) : string + string :=
  match files !! path with Some f => inr (f_text f) | None => inl "not found" end.

(** ** A generated key is read back *)

Lemma copy_32_ok b : length b = 32%nat → copy_32 b = Ok b.
Proof. intros H. unfold copy_32. by rewrite bool_decide_true. Qed.

Lemma decode_key_encoded nb mb b :
  base64_laws → bytes_ok b → length b = 32%nat → decode_key nb mb (b64_encode b) = Ok b.
Proof.
  intros L Hb Hl. unfold decode_key. rewrite trim_graphic by by apply (encode_graphic L).
  rewrite (decode_encode L) by done. rewrite bool_decide_true by done. by apply copy_32_ok.
Qed.

(** C23. A key pair goes from [genkey --out] into the daemon. The file holds
    the private key, the daemon reads exactly it, and the printed text of the
    public key is read as the public key by the peer; nothing that is printed
    depends on the private key. A new file is the owner's alone and passes the
    daemon's permission check; a file that was there before keeps its mode, so
    that with any bit for group or others the daemon refuses it. *)
Theorem key_file_roundtrip kp link path umask files :
  base64_laws →
  bytes_ok (private kp) → bytes_ok (public kp) →
  length (private kp) = 32%nat → length (public kp) = 32%nat →
  let r := genkey (Generated kp) link (Some path) None None umask files in
  r_result r = Ok tt ∧
  load_private (text_of (r_files r)) path = Ok (private kp) ∧
  decode_public_key (public_base64 kp) = Ok (public kp) ∧
  (∀ priv, length priv = 32%nat →
     r_out (genkey (Generated (mkKeypair priv (public kp))) link (Some path) None None umask files)
     = r_out r) ∧
  (∀ p, p ≠ path → r_files r !! p = files !! p) ∧
  match files !! path with
  | None => check_permissions (mode_of (r_files r)) path = Ok tt
  | Some f =>
      let m := Z.land (f_mode f) 0x1ff in
      check_permissions (mode_of (r_files r)) path
      = if Z.land (f_mode f) 0x3f =? 0 then Ok tt else Err (InsecurePermissions path m)
  end.
Proof.
  intros L Hp Hq Hlp Hlq. unfold genkey, generate. cbn [private public].
  rewrite !copy_32_ok by done. cbn.
  set (fs := alter _ _ _).
  assert (fs !! path = Some (mkFile (match files !! path with
            | Some f => f_mode f | None => Z.land 0x180 (Z.lnot umask) end) (b64_encode (private kp))))
    as Hf by (unfold fs, open_key_file; by rewrite lookup_alter_eq, lookup_insert_eq).
  split_and!; [done|..].
  - unfold load_private, text_of. rewrite Hf. by apply decode_key_encoded.
  - by apply decode_key_encoded.
  - intros priv Hpriv. by rewrite copy_32_ok.
  - intros p Hne. unfold fs, open_key_file. by rewrite lookup_alter_ne, lookup_insert_ne.
  - unfold check_permissions, mode_of. rewrite Hf. cbn [f_mode].
    destruct (files !! path) as [f|].
    + rewrite <- Z.land_assoc. change (Z.land 0x1ff 0x3f) with 0x3f.
      by destruct (Z.land (f_mode f) 0x3f =? 0).
    + rewrite <- Z.land_assoc. change (Z.land 0x1ff 0x3f) with 0x3f.
      rewrite (Z.land_comm 0x180), <- Z.land_assoc. change (Z.land 0x180 0x3f) with 0.
      by rewrite Z.land_0_r.
Qed.

(** Whatever a key file or a configured public key holds, reading it returns,
    and gives 32 bytes or an error. *)
Lemma keys_are_32_bytes nb mb text :
  match decode_key nb mb text with Ok b => length b = 32%nat | Err _ => True | Panic => False end.
Proof.
  unfold decode_key. destruct (b64_decode _) as [e|b]; [done|].
  case_bool_decide as Hb; cbn; [|done]. unfold copy_32. by rewrite bool_decide_true.
Qed.

End keys.

(** A codec of two letters to a byte in the place of base64. *)
Module keys_example.

Definition letter (n : Z) : Ascii.ascii := Ascii.ascii_of_nat (Z.to_nat (65 + n)).
Definition value (a : Ascii.ascii) : Z := code a - 65.
Fixpoint read (s : string) : option (list Z) :=
  match s with
  | EmptyString => Some []
  | String a (String b s) => cons (value a * 16 + value b) <$> read s
  | String _ EmptyString => None
  end.
#[export] Instance letters : Base64 := {|
  b64_encode b := foldr (λ x s, String (letter (x / 16)) (String (letter (x mod 16)) s)) EmptyString b;
  b64_decode s := from_option inr (inl "odd length") (read s) |}.

Lemma letter_forall (P : Z → Prop) :
  Forall P (seqZ 0 16) → ∀ n, 0 ≤ n < 16 → P n.
Proof. intros H n Hn. rewrite Forall_forall in H. apply H, elem_of_seqZ. lia. Qed.

Lemma letter_value n : 0 ≤ n < 16 → value (letter n) = n ∧ graphic (letter n) = true.
Proof. revert n. apply letter_forall. repeat constructor. Qed.

Lemma nibbles x : byte_ok x → 0 ≤ x / 16 < 16 ∧ 0 ≤ x mod 16 < 16.
Proof.
  unfold byte_ok. intros Hx. split; [|by apply Z.mod_pos_bound].
  split; [apply Z.div_pos; lia|apply Z.div_lt_upper_bound; lia].
Qed.

Lemma letters_laws : base64_laws.
Proof.
  split.
  - intros b Hb. cbn. assert (read (b64_encode b) = Some b) as H; [|cbn in H; by rewrite H].
    induction Hb as [|x b Hx _ IH]; [done|].
    change (read (b64_encode (x :: b)))
      with (cons (value (letter (x / 16)) * 16 + value (letter (x mod 16))) <$> read (b64_encode b)).
    rewrite IH. cbn. destruct (nibbles x Hx) as [H1 H2].
    rewrite (proj1 (letter_value _ H1)), (proj1 (letter_value _ H2)).
    do 2 f_equal. pose proof (Z.div_mod x 16). lia.
  - intros b Hb. induction Hb as [|x b Hx _ IH]; [done|].
    destruct (nibbles x Hx) as [H1 H2].
    change (graphic (letter (x / 16)) && (graphic (letter (x mod 16)) && all_chars graphic (b64_encode b))
      = true).
    by rewrite IH, (proj2 (letter_value _ H1)), (proj2 (letter_value _ H2)).
Qed.

Definition pair : StaticKeypair :=
  mkKeypair (Z.of_nat <$> seq 1 32) (Z.of_nat <$> seq 200 32).
(** One that was there, readable for everyone. *)
Definition before : gmap string KeyFile := {[ "/tmp/old.key" := mkFile 0x81a4 "x" ]}.

Lemma pair_ok : bytes_ok (private pair) ∧ bytes_ok (public pair).
Proof. split; repeat (constructor; [by cbn|]); constructor. Qed.

Lemma key_file_roundtrip_witness :
  let r := genkey (Generated pair) "wan0" (Some "/etc/mlvpn/wan0.key") None None 0x12 before in
  load_private (text_of (r_files r)) "/etc/mlvpn/wan0.key" = Ok (private pair) ∧
  check_permissions (mode_of (r_files r)) "/etc/mlvpn/wan0.key" = Ok tt.
Proof.
  destruct (key_file_roundtrip pair "wan0" "/etc/mlvpn/wan0.key" 0x12 before letters_laws)
    as (_ & H1 & _ & _ & _ & H2).
  - exact (proj1 pair_ok).
  - exact (proj2 pair_ok).
  - reflexivity.
  - reflexivity.
  - split; [exact H1|exact H2].
Defined.

(** The private key is written to a file that everyone can read if there was one. *)
Example existing_file_keeps_mode :
  let r := genkey (Generated pair) "wan0" (Some "/tmp/old.key") None None 0x3f before in
  f_mode <$> (r_files r !! "/tmp/old.key") = Some 0x81a4 ∧
  check_permissions (mode_of (r_files r)) "/tmp/old.key"
  = Err (InsecurePermissions "/tmp/old.key" 0x1a4).
Proof. vm_compute. auto. Qed.

End keys_example.
