(* ===== verification/LinkSocket.v ===== *)
(** * A link's socket and interface ([link.rs])

    [bind_socket] with its options, the interface MTU calls and the thread that
    owns them, and [probe_other_family]. What the kernel answers to a call is a
    parameter; [LinkLife] uses [bind_socket] as one. *)

From Stdlib Require Import Ascii.
From S2P Require Import Prelude Bytes F64 Configuration Text Wireguard Gso LinkIo LinkLife Keys.

(** ** [bind_socket] *)

Definition EPERM : Z := 1.
Definition EACCES : Z := 13.
Definition SOCKET_BUFFER_BYTES : Z := 8 * 1024 * 1024.

#[export] Instance Domain_eq_dec : EqDecision Domain.
Proof. solve_decision. Defined.

(** How big a buffer was asked for last with success: the system's default, the
    size within the system's ceiling, or the size whatever the ceiling. *)
Inductive Buffer := Default | WithinCeiling | Forced.

Record Socket := mkSocket {
  so_domain : Domain;
  so_nonblocking : bool;
  so_reuse : bool;
  so_only_v6 : option bool;
  so_device : option string;
  so_recv : Buffer;
  so_send : Buffer;
  so_bound : option SocketAddr }.

Inductive SocketCall :=
  | NewSocket (d : Domain)
  | SetNonblocking
  | SetReuseAddress
  | SetOnlyV6 (b : bool)
  | BindDevice (interface : string)
  | RecvBufForce | SendBufForce | RecvBuf | SendBuf
  | BindTo (a : SocketAddr)
  | FromStd.

Section socket.
(** The error of a call, the size of the receive buffer read back, the ioctl that
    reads an interface's MTU, and [str::parse::<IpAddr>]. *)
Context (k_socket : SocketCall → option IoError).
Context (recv_buffer_size : option Z).
Context (k_get_mtu : list Z → option Z).
Context (parse_ip : string → string + IpAddr).

Definition io_call (c : SocketCall) : outcome unit :=
  match k_socket c with Some e => Err (Io e) | None => Ok tt end.
Definition works (c : SocketCall) : bool := match k_socket c with Some _ => false | None => true end.

(** The error of [bind_device], by its number. *)
Definition device_error (cfg : LinkConfig) (e : IoError) : MlvpnError :=
  let what := "binding link '" +:+ link_name cfg +:+ "' to interface '" +:+ bind_interface cfg in
  if bool_decide (raw_os_error e = Some ENODEV) then InterfaceNotFound (bind_interface cfg)
  else if bool_decide (raw_os_error e = Some EPERM) || bool_decide (raw_os_error e = Some EACCES)
  then CapabilityMissing (what +:+ "': permission denied (" +:+ io_message e
         +:+ "); CAP_NET_RAW is required for SO_BINDTODEVICE")
  else config_error (what +:+ "': " +:+ io_message e +:+ " (are we running with CAP_NET_RAW?)").

(** [raise_socket_buffers]: the buffers, and whether it warns. *)
Definition raise_buffer (force plain : SocketCall) : Buffer :=
  if works force then Forced else if works plain then WithinCeiling else Default.
Definition raise_socket_buffers : Buffer * Buffer * bool :=
  (raise_buffer RecvBufForce RecvBuf, raise_buffer SendBufForce SendBuf,
   match recv_buffer_size with Some n => n <? SOCKET_BUFFER_BYTES | None => false end).

(** ** The name of an interface in an [ifreq] *)

Definition IFNAMSIZ : nat := 16.
Definition string_bytes (s : string) : list Z := code <$> String.list_ascii_of_string s.
Definition ifr_name (ifname : string) : option (list Z) :=
  let name := string_bytes ifname in
  if bool_decide (IFNAMSIZ ≤ length name)%nat then None
  else Some (name ++ replicate (IFNAMSIZ - length name) 0).

(** [mtu] is a [c_int]. *)
Definition query_interface_mtu (ifname : string) : option Z :=
  if negb (works (NewSocket IPV4)) then None
  else
    name ← ifr_name ifname;
    mtu ← k_get_mtu name;
    if (0 <=? mtu) && (mtu <? 2 ^ 32) then Some mtu else None.

Definition bind_socket (cfg : LinkConfig) (remote : option SocketAddr)
    : outcome (Socket * option Z) :=
  domain ← socket_domain parse_ip cfg remote;
  io_call (NewSocket domain);;
  io_call SetNonblocking;;
  io_call SetReuseAddress;;
  only_v6 ← (if decide (domain = IPV6) then
               io_call (SetOnlyV6 (negb (dual_stack cfg)));; Ok (Some (negb (dual_stack cfg)))
             else Ok None);
  match k_socket (BindDevice (bind_interface cfg)) with
  | Some e => Err (device_error cfg e)
  | None => Ok tt
  end;;
  let '(recv, send, _) := raise_socket_buffers in
  let physical_mtu := query_interface_mtu (bind_interface cfg) in
  let unspecified_addr := match domain with IPV6 => "::" | IPV4 => "0.0.0.0" end in
  match parse_ip (default unspecified_addr (local_addr cfg)) with
  | inl e => Err (config_error ("bad local_addr for link '" +:+ link_name cfg +:+ "': " +:+ e))
  | inr bind_ip =>
      let bind_addr := mkAddr bind_ip (local_port cfg) in
      io_call (BindTo bind_addr);;
      io_call FromStd;;
      Ok (mkSocket domain true true only_v6 (Some (bind_interface cfg)) recv send (Some bind_addr),
          physical_mtu)
  end.

(** ** [probe_other_family] *)

Context `{BT : Boringtun} `{U : Udp}.

Inductive probe_event :=
  | Retry (now now' : Z)
  | Arrives (now : Z) (r : IoError + list Z * SocketAddr)
  | DeadlinePassed.

(** One turn of the loop; a verdict ends it. [frame] is the encoded keepalive
    header, [now] and [now'] the clocks of the two calls. *)
Definition probe_turn (frame : list Z) (alt : SocketAddr) (ev : probe_event) (w : WgTunnel)
    (net : Net) : WgTunnel * Net * option bool :=
  match ev with
  | Retry now now' =>
      let '(w, r) := encapsulate now frame w in
      let net := match r with Ok (d, _) => (send_to d alt net).1 | _ => net end in
      let '(w, t) := tick now' w in
      (w, match t with Some d => (send_to d alt net).1 | None => net end, None)
  | Arrives now (inr (d, from)) =>
      if bool_decide (from = alt) then
        let '(w, net, ok) := answered now d from w net in (w, net, if ok then Some true else None)
      else (w, net, None)
  | Arrives _ (inl _) => (w, net, None)
  | DeadlinePassed => (w, net, Some false)
  end.

Fixpoint probe_loop (frame : list Z) (alt : SocketAddr) (evs : list probe_event) (w : WgTunnel)
    (net : Net) : WgTunnel * Net * option bool :=
  match evs with
  | [] => (w, net, None)
  | ev :: evs =>
      match probe_turn frame alt ev w net with
      | (w, net, None) => probe_loop frame alt evs w net
      | end_ => end_
      end
  end.

(** The outer [None] while the loop is still waiting for an event. *)
Definition probe_other_family (cfg : LinkConfig) (current : SocketAddr) (answer : lookup_answer)
    (frame : list Z) (evs : list probe_event) (w : WgTunnel) (net : Net)
    : WgTunnel * Net * option (option (SocketAddr * Socket)) :=
  match remote_addr cfg, answer with
  | Some _, LookedUp candidates =>
      match List.find (λ a, negb (bool_decide (is_ipv6 a = is_ipv6 current))) candidates with
      | None => (w, net, Some None)
      | Some alt =>
          match bind_socket cfg (Some alt) with
          | Ok (socket, _) =>
              let '(w, net, verdict) := probe_loop frame alt evs w net in
              (w, net, (λ yes : bool, if yes then Some (alt, socket) else None) <$> verdict)
          | _ => (w, net, Some None)
          end
      end
  | _, _ => (w, net, Some None)
  end.

(** ** One link, one address family *)

(** A socket bound as the link asks, for a peer of the given family. *)
Record socket_ok (cfg : LinkConfig) (v6 : bool) (s : Socket) : Prop := {
  sk_domain : so_domain s = if v6 then IPV6 else IPV4;
  sk_flags : so_nonblocking s = true ∧ so_reuse s = true;
  sk_only_v6 : so_only_v6 s = if v6 then Some (negb (dual_stack cfg)) else None;
  sk_device : so_device s = Some (bind_interface cfg);
  sk_bound : ∃ i, so_bound s = Some (mkAddr i (local_port cfg)) ∧ ip_is_ipv6 i = v6 ∧
    ∀ l, local_addr cfg = Some l → parse_ip l = inr i }.

(** What [validate] asks of a dual-stack link, and the two addresses the code
    spells out. *)
Record family_laws (cfg : LinkConfig) : Prop := {
  fl_dual : dual_stack cfg = true →
    remote_addr cfg = None ∧ (local_addr cfg = None ∨ local_addr cfg = Some "::");
  fl_any6 : parse_ip "::" = inr (V6 0);
  fl_any4 : parse_ip "0.0.0.0" = inr (V4 0) }.

Lemma bind_socket_ok cfg remote s mtu :
  bind_socket cfg remote = Ok (s, mtu) →
  ∃ d only i, socket_domain parse_ip cfg remote = Ok d ∧
    parse_ip (default (match d with IPV6 => "::" | IPV4 => "0.0.0.0" end) (local_addr cfg)) = inr i ∧
    only = (if decide (d = IPV6) then Some (negb (dual_stack cfg)) else None) ∧
    s = mkSocket d true true only (Some (bind_interface cfg)) raise_socket_buffers.1.1
          raise_socket_buffers.1.2 (Some (mkAddr i (local_port cfg))).
Proof.
  unfold bind_socket. intros H. apply bind_Ok in H as (d & Hd & H).
  apply bind_Ok in H as ([] & _ & H). apply bind_Ok in H as ([] & _ & H).
  apply bind_Ok in H as ([] & _ & H). apply bind_Ok in H as (only & Ho & H).
  apply bind_Ok in H as ([] & _ & H). cbn [raise_socket_buffers] in H.
  destruct (parse_ip _) as [e|i] eqn:Ei; [done|].
  apply bind_Ok in H as ([] & _ & H). apply bind_Ok in H as ([] & _ & H).
  injection H as <- _. exists d, only, i. split_and!; try done.
  destruct (decide (d = IPV6)); [|by injection Ho].
  apply bind_Ok in Ho as ([] & _ & Ho). by injection Ho.
Qed.

(** The family of the bound address is that of the domain: a local address is of
    the family of the remote one, if there is one. *)
Lemma bind_socket_family cfg remote s mtu :
  family_laws cfg →
  (∀ r, remote = Some r → remote_addr cfg ≠ None ∧
     ∀ l i, local_addr cfg = Some l → parse_ip l = inr i → is_ipv6 r = ip_is_ipv6 i) →
  bind_socket cfg remote = Ok (s, mtu) →
  ∃ v6, socket_ok cfg v6 s ∧ (∀ r, remote = Some r → is_ipv6 r = v6) ∧
    (dual_stack cfg = true → v6 = true).
Proof.
  intros [Hdual H6 H4] Hr (d & only & i & Hd & Hi & Ho & ->)%bind_socket_ok.
  exists (bool_decide (d = IPV6)).
  assert ((∀ r, remote = Some r → is_ipv6 r = bool_decide (d = IPV6)) ∧
          (dual_stack cfg = true → d = IPV6) ∧ ip_is_ipv6 i = bool_decide (d = IPV6))
    as (E1 & E2 & E3).
  { unfold socket_domain in Hd. destruct (dual_stack cfg) eqn:Ed.
    - injection Hd as <-. destruct (Hdual eq_refl) as [Hn Hl].
      split_and!; [|done|].
      + intros r ->. by destruct (Hr r eq_refl).
      + destruct Hl as [E|E]; rewrite E in Hi; cbn in Hi; rewrite H6 in Hi; by injection Hi as <-.
    - destruct remote as [r|].
      + injection Hd as <-. split_and!; [|done|].
        * intros ? [= <-]. by destruct (is_ipv6 r).
        * destruct (local_addr cfg) as [l|] eqn:El; cbn in Hi.
          -- destruct (Hr r eq_refl) as [_ Hf]. rewrite <- (Hf l i eq_refl Hi). by destruct (is_ipv6 r).
          -- destruct (is_ipv6 r); rewrite ?H6, ?H4 in Hi; by injection Hi as <-.
      + destruct (local_addr cfg) as [l|] eqn:El; cbn in Hi.
        * destruct (parse_ip l) as [e|j]; [done|]. injection Hi as ->. injection Hd as <-.
          split_and!; [done..|]. by destruct (ip_is_ipv6 i).
        * injection Hd as <-. rewrite H4 in Hi. injection Hi as <-. by split_and!. }
  split_and!; [|done|intros Ed; rewrite (E2 Ed); done].
  split; cbn.
  - by destruct d.
  - done.
  - rewrite Ho. by destruct d.
  - done.
  - exists i. split_and!; [done..|]. intros l El. by rewrite El in Hi.
Qed.

(** [Link::bind] with all it calls. *)
Definition bind_link `{B64 : Base64} (read_to_string : string → string + string)
    (cfg : LinkConfig) (answer : lookup_answer) : outcome LinkNet :=
  LinkLife.bind parse_ip (load_private read_to_string) decode_public_key bind_socket cfg answer.

(** C31. One link, one address family. A link that came up has a socket on its
    interface and its port, bound to an address of the family the socket is of,
    which is the family of its peer's address if it has one; an IPv6 socket
    takes IPv6 only unless the link is dual-stack. The socket of the alternate
    address is made the same way, in the other family. *)
Theorem link_single_family `{B64 : Base64} read_to_string cfg answer l :
  family_laws cfg → bind_link read_to_string cfg answer = Ok l →
  ∃ v6, socket_ok cfg v6 (ln_socket l) ∧
    (∀ r, ln_remote l = Some r → is_ipv6 r = v6) ∧ (dual_stack cfg = true → v6 = true) ∧
    ∀ a s, ln_alternate l = Some (a, s) →
      v6 = true ∧ is_ipv6 a = false ∧ socket_ok cfg false s ∧ local_addr cfg = None.
Proof.
  intros F H. unfold bind_link, LinkLife.bind in H.
  apply bind_Ok in H as ([remote alt] & Hres & H).
  apply bind_Ok in H as ([s mtu] & Hs & H). apply bind_Ok in H as (alternate & Ha & H).
  apply bind_Ok in H as (priv & _ & H). apply bind_Ok in H as (pub & _ & H). injection H as <-.
  cbn [ln_socket ln_remote ln_alternate].
  assert ((∀ r, remote = Some r → remote_addr cfg ≠ None ∧
            ∀ l i, local_addr cfg = Some l → parse_ip l = inr i → is_ipv6 r = ip_is_ipv6 i) ∧
          ∀ x, alt = Some x → remote_addr cfg ≠ None ∧ local_addr cfg = None ∧ is_ipv6 x = false ∧
            ∃ r, remote = Some r ∧ is_ipv6 r = true) as [Hr Hx].
  { unfold resolve_remote_addr in Hres. destruct (remote_addr cfg) as [name|]; [|injection Hres as <- <-; by split].
    destruct answer as [|e|addrs]; [done..|].
    apply bind_Ok in Hres as ([p a] & Hp & Hres). injection Hres as <- <-.
    apply (pick_remote_spec parse_ip (load_private read_to_string) decode_public_key) in Hp as (_ & Ha' & Hl). split.
    - intros r [= <-]. split; [done|]. exact Hl.
    - intros x E. destruct (Ha' x E) as (_ & H6 & H4 & Hn). split_and!; [done..|by exists p]. }
  destruct (bind_socket_family cfg remote s mtu F Hr Hs) as (v6 & Hok & Hfam & Hd).
  exists v6. split_and!; [done..|]. intros a sa ->. destruct alt as [x|]; [|done].
  destruct (Hx x eq_refl) as (Hname & Hl & H4 & r & -> & H6).
  apply bind_Ok in Ha as ([sa' m'] & Hsa & Ha). injection Ha as -> ->.
  destruct (bind_socket_family cfg (Some a) sa m' F) as (w6 & Hok' & Hfam' & _); [|done|].
  { intros ? [= <-]. split; [done|]. intros i j. by rewrite Hl. }
  rewrite <- (Hfam r eq_refl), <- (Hfam' a eq_refl), H4 in *. by split_and!.
Qed.

(** ** The other family *)

Lemma probe_loop_answered frame alt evs w net w' net' :
  probe_loop frame alt evs w net = (w', net', Some true) →
  ∃ pre now d post w1 net1, evs = pre ++ Arrives now (inr (d, alt)) :: post ∧
    probe_loop frame alt pre w net = (w1, net1, None) ∧ authentic now d w1.
Proof.
  revert w net. induction evs as [|ev evs IH]; intros w net; [done|]. cbn [probe_loop].
  destruct (probe_turn frame alt ev w net) as [[w1 net1] [v|]] eqn:Et.
  - intros [= <- <- ->]. destruct ev as [now now'|now [e|[d from]]|]; cbn in Et; try done.
    + destruct (encapsulate now frame w) as [w2 r]. by destruct (tick now' w2).
    + case_bool_decide as Hf; [|done]. subst from.
      destruct (answered now d alt w net) as [[w2 net2] ok] eqn:Ea. destruct ok; [|done].
      exists [], now, d, evs, w, net. split_and!; [done..|]. by apply answered_authentic in Ea.
  - intros (pre & now & d & post & w2 & net2 & -> & Hp & Hd)%IH.
    exists (ev :: pre), now, d, post, w2, net2. split_and!; [done| |done]. cbn [probe_loop]. by rewrite Et.
Qed.

(** An address [probe_other_family] gives is one the link's name resolved to, of
    the other family, with a socket bound for it, and an authenticated datagram
    came from it on that socket before the deadline. *)
Lemma probe_sound cfg current answer frame evs w net w' net' alt s :
  family_laws cfg → local_addr cfg = None →
  probe_other_family cfg current answer frame evs w net = (w', net', Some (Some (alt, s))) →
  (∃ addrs, answer = LookedUp addrs ∧ alt ∈ addrs) ∧ is_ipv6 alt ≠ is_ipv6 current ∧
  socket_ok cfg (is_ipv6 alt) s ∧
  ∃ pre now d post w1 net1, evs = pre ++ Arrives now (inr (d, alt)) :: post ∧
    probe_loop frame alt pre w net = (w1, net1, None) ∧ authentic now d w1.
Proof.
  intros F Hl. unfold probe_other_family. destruct (remote_addr cfg) as [name|] eqn:Er; [|done].
  destruct answer as [|e|addrs]; [done..|].
  destruct (List.find _ addrs) as [a|] eqn:Ef; [|done].
  apply find_spec in Ef as [Hin Hne%negb_true_iff%bool_decide_eq_false].
  destruct (bind_socket cfg (Some a)) as [[s0 m]|e|] eqn:Eb; [|done..].
  destruct (probe_loop frame a evs w net) as [[w1 net1] [[|]|]] eqn:Ep; [|done..].
  intros [= <- <- <- <-]. split_and!; [by exists addrs|done| |by apply probe_loop_answered in Ep].
  destruct (bind_socket_family cfg (Some a) s0 m F) as (v6 & Hok & Hv & _); [|done|].
  - intros ? [= <-]. split; [by rewrite Er|]. intros i j. by rewrite Hl.
  - by rewrite (Hv a eq_refl).
Qed.
(** ** The interface's MTU *)

(** [SIOCSIFMTU] on the name in the [ifreq]. *)
Context {Kern : Type} (k_set_mtu : list Z → Z → Kern → option IoError * Kern).

Definition set_interface_mtu (ifname : string) (mtu : Z) (k : Kern) : outcome unit * Kern :=
  match k_socket (NewSocket IPV4) with
  | Some e => (Err (Io e), k)
  | None =>
      match ifr_name ifname with
      | None => (Err (Io (mkIo None "interface name too long")), k)
      | Some name =>
          let '(e, k) := k_set_mtu name mtu k in
          (match e with Some e => Err (Io e) | None => Ok tt end, k)
      end
  end.

(** [MtuResizer]: the requests that wait, each with the number of its reply
    channel; the thread takes them one by one until every sender is gone. *)
Record MtuResizeRequest := mkResize { rq_ifname : string; rq_mtu : Z; rq_reply : nat }.
Record MtuResizer := mkResizer {
  rz_queue : list MtuResizeRequest; rz_running : bool; rz_replies : list (nat * outcome unit) }.
Definition spawn : MtuResizer := mkResizer [] true [].

Definition broken_pipe (msg : string) : MlvpnError := Io (mkIo None msg).
(** [set_mtu] up to its wait, which ends with the reply, or an error when the
    request is dropped. *)
Definition send_resize (rq : MtuResizeRequest) (z : MtuResizer) : outcome MtuResizer :=
  if rz_running z then Ok (mkResizer (rz_queue z ++ [rq]) true (rz_replies z))
  else Err (broken_pipe "MTU resize thread has exited").
Definition await_resize (n : nat) (z : MtuResizer) : option (outcome unit) :=
  match List.find (λ r, Nat.eqb n r.1) (rz_replies z) with
  | Some r => Some r.2
  | None =>
      if rz_running z then None
      else Some (Err (broken_pipe "MTU resize thread dropped the request without replying"))
  end.
(** One request of the thread's loop. *)
Definition resize_turn (z : MtuResizer) (k : Kern) : MtuResizer * Kern :=
  match rz_queue z with
  | [] => (z, k)
  | rq :: q =>
      let '(r, k) := set_interface_mtu (rq_ifname rq) (rq_mtu rq) k in
      (mkResizer q (rz_running z) (rz_replies z ++ [(rq_reply rq, r)]), k)
  end.

(** The name the kernel reads: up to the first NUL. *)
Fixpoint c_string (b : list Z) : list Z :=
  match b with [] => [] | x :: b => if x =? 0 then [] else x :: c_string b end.

Lemma c_string_padded b n : Forall (λ x, x ≠ 0) b → c_string (b ++ replicate n 0) = b.
Proof.
  induction 1 as [|x b Hx _ IH]; [by destruct n|]. cbn. apply Z.eqb_neq in Hx. by rewrite Hx, IH.
Qed.

(** The kernel is asked about exactly the interface that was named, or, where the
    name has no room for its NUL, not at all. *)
Lemma ifr_name_exact ifname :
  Forall (λ x, x ≠ 0) (string_bytes ifname) →
  match ifr_name ifname with
  | Some b => length b = IFNAMSIZ ∧ c_string b = string_bytes ifname
  | None => (IFNAMSIZ ≤ String.length ifname)%nat
  end.
Proof.
  intros H. unfold ifr_name. assert (length (string_bytes ifname) = String.length ifname) as Hl.
  { unfold string_bytes. rewrite length_fmap. clear H. induction ifname; cbn; auto. }
  case_bool_decide; [lia|]. rewrite c_string_padded by done. split; [|done].
  rewrite length_app, length_replicate. lia.
Qed.

(** The requests are served in their order, each answered with what its own call
    returned. *)
Lemma resizer_in_order q replies k :
  let '(z, k') := Nat.iter (length q) (λ s, resize_turn s.1 s.2) (mkResizer q true replies, k) in
  rz_queue z = [] ∧
  ∃ rs, rz_replies z = replies ++ zip (rq_reply <$> q) rs ∧
    (rs, k') = foldl (λ s rq, let '(r, k) := set_interface_mtu (rq_ifname rq) (rq_mtu rq) s.2 in
                              (s.1 ++ [r], k)) ([], k) q.
Proof.
  assert (∀ q replies k acc, 
    let '(z, k') := Nat.iter (length q) (λ s, resize_turn s.1 s.2) (mkResizer q true replies, k) in
    rz_queue z = [] ∧ ∃ rs, rz_replies z = replies ++ zip (rq_reply <$> q) rs ∧ length rs = length q ∧
      (acc ++ rs, k') = foldl (λ s rq, let '(r, k) := set_interface_mtu (rq_ifname rq) (rq_mtu rq) s.2 in
                              (s.1 ++ [r], k)) (acc, k) q) as H.
  { clear. intros q. induction q as [|rq q IH]; intros replies k acc.
    - cbn. split; [done|]. exists []. cbn. by rewrite !app_nil_r.
    - cbn [length]. rewrite Nat.iter_succ_r. cbn [foldl fst snd]. unfold resize_turn at 2. cbn.
      destruct (set_interface_mtu (rq_ifname rq) (rq_mtu rq) k) as [r k1].
      specialize (IH (replies ++ [(rq_reply rq, r)]) k1 (acc ++ [r])).
      destruct (Nat.iter _ _ _) as [z k']. destruct IH as (Hq & rs & Hr & Hl & Hf).
      split; [done|]. exists (r :: rs). cbn. rewrite Hr, <- app_assoc. cbn.
      rewrite <- Hf, <- app_assoc. split_and!; [done|by rewrite Hl|done]. }
  specialize (H q replies k []). destruct (Nat.iter _ _ _) as [z k'].
  destruct H as (Hq & rs & Hr & _ & Hf). split; [done|]. by exists rs.
Qed.

End socket.

Module socket_example.
Import plain keys_example.

#[export] Instance udp : Udp := {| k_send_to _ _ _ := None |}.

Definition parse (s : string) : string + IpAddr :=
  if String.eqb s "::" then inr (V6 0)
  else if String.eqb s "0.0.0.0" then inr (V4 0) else inl "invalid IP address syntax".
Definition key : string := b64_encode (Z.of_nat <$> seq 1 32).
Definition wan : LinkConfig :=
  mkLinkConfig "wan0" "eth1" None false (Some "vpn.example.net:5000") 5000 (f64.of_Z 1) None 200 Sendto
    "/etc/mlvpn/wan0.key" key.
Definition both : list SocketAddr := [mkAddr (V4 7) 5000; mkAddr (V6 9) 5000].
Definition up : outcome LinkNet :=
  bind_link (λ _, None) (Some SOCKET_BUFFER_BYTES) (λ _, Some 1500) parse (λ _, inr key) wan
    (LookedUp both).

Definition remote_of (r : outcome (LinkNet (Sock := Socket))) : option (option SocketAddr) :=
  match r with Ok l => Some (ln_remote l) | _ => None end.
Lemma up_remote : remote_of up = Some (Some (mkAddr (V6 9) 5000)).
Proof. vm_compute. reflexivity. Qed.

Lemma wan_laws : family_laws parse wan.
Proof. by split. Qed.

(** Both families are found: the IPv6 socket first, the IPv4 one beside it. *)
Lemma link_single_family_witness :
  match up with
  | Ok l => ∃ v6, socket_ok parse wan v6 (ln_socket l) ∧ ln_remote l = Some (mkAddr (V6 9) 5000) ∧
              ∀ a s, ln_alternate l = Some (a, s) → socket_ok parse wan false s
  | _ => False
  end.
Proof.
  pose proof up_remote as R. destruct up as [l|e|] eqn:E; [|discriminate R..].
  destruct (link_single_family (λ _, None) (Some SOCKET_BUFFER_BYTES) (λ _, Some 1500) parse
              (λ _, inr key) wan (LookedUp both) l wan_laws E) as (v6 & H1 & _ & _ & H2).
  exists v6. split; [exact H1|]. split.
  - injection R as R. exact R.
  - intros a s Hs. exact (proj1 (proj2 (proj2 (H2 a s Hs)))).
Defined.

(** Without the capability, a vanished interface, and a socket that lives with
    the default buffers. *)
Definition denied (n : Z) (c : SocketCall) : option IoError :=
  match c with BindDevice _ => Some (mkIo (Some n) "refused") | _ => None end.
Example errors_told_apart :
  bind_socket (denied ENODEV) None (λ _, None) parse wan None = Err (InterfaceNotFound "eth1") ∧
  bind_socket (denied EPERM) None (λ _, None) parse wan None
  = Err (CapabilityMissing "binding link 'wan0' to interface 'eth1': permission denied (refused); CAP_NET_RAW is required for SO_BINDTODEVICE").
Proof. vm_compute. auto. Qed.
Example buffers_never_fail :
  raise_socket_buffers (λ _, Some (mkIo (Some EPERM) "refused")) (Some 212992)
  = (Default, Default, true).
Proof. reflexivity. Qed.

End socket_example.
