(* ===== verification/Cli.v ===== *)
(** * The command line and reports ([main.rs], [diagnostics.rs])

    The subcommands of [mlvpnd] that talk to a running daemon, the values [run]
    computes for the tunnel's tasks before it starts them, and the reports sent
    to the support service. Output is the list of the printed lines; what other
    processes, the file system and the network answer are parameters, and so
    are the JSON text and the formatting of a float. *)

From Stdlib Require Import Ascii.
From S2P Require Import Prelude Bytes F64 Configuration Text LinkIo Link Events Telemetry Snapshot Diag Commands.

(** ** [error.rs]: the text of an error *)

Fixpoint octal_digits (fuel : nat) (n : Z) (acc : string) : string :=
  match fuel with
  | O => acc
  | S fuel =>
      let acc := String (Ascii.ascii_of_nat (Z.to_nat (48 + n mod 8))) acc in
      if n <? 8 then acc else octal_digits fuel (n / 8) acc
  end.
(** [{:o}] of a [u32], which has at most 11 octal digits. *)
Definition octal (n : Z) : string := octal_digits 11 n "".

Definition display_error (e : MlvpnError) : string :=
  match e with
  | Prelude.Config m => "configuration error: " +:+ m
  | InsecurePermissions path mode =>
      "config file " +:+ path +:+ " has insecure permissions " +:+ octal mode
      +:+ "; expected 0600 or stricter"
  | Io e => "I/O error: " +:+ io_message e
  | Tun m => "TUN device error: " +:+ m
  | Handshake m => "crypto handshake failed: " +:+ m
  | AuthFailed => "decryption/authentication failed (possible tampering or replay)"
  | Replay => "replayed or out-of-window packet dropped"
  | AllLinksDown => "no interfaces are currently usable: link aggregate is down"
  | InterfaceNotFound n => "interface '" +:+ n +:+ "' not found on this system"
  | Privilege m => "privilege drop failed: " +:+ m
  | CapabilityMissing m => "missing required capability: " +:+ m
  | Prelude.Protocol m => "protocol error: " +:+ m
  | ChannelClosed => "channel closed unexpectedly"
  end.

(** ** The daemon's parameters ([main.rs]: [run]) *)

Definition parse_u8 (s : string) : option Z :=
  n ← parse_u64 s; if n <? 256 then Some n else None.

Definition parse_cidr (s : string) : outcome (string * Z) :=
  match split_once "/"%char s with
  | None => Err (config_err ("tunnel.address '" +:+ s +:+ "' must be in CIDR form, e.g. 10.0.0.1/30"))
  | Some (addr, prefix) =>
      match parse_u8 prefix with
      | None => Err (config_err ("invalid prefix length in tunnel.address '" +:+ s +:+ "'"))
      | Some prefix => Ok (addr, prefix)
      end
  end.

(** What [open_tun] asks the TUN library for. *)
Record TunRequest := mkTunRequest {
  tn_name : string; tn_ipv4 : string * Z; tn_ipv6 : option (string * Z); tn_mtu : Z; tn_queue : Z }.
Definition open_tun (cfg : TunnelConfig) (mtu : Z) (build : TunRequest → option string)
    : outcome TunRequest :=
  v4 ← parse_cidr (address cfg);
  v6 ← match address6 cfg with
       | Some a => p ← parse_cidr a; Ok (Some p)
       | None => Ok None
       end;
  let rq := mkTunRequest (tunnel_name cfg) v4 v6 mtu (tx_queue_len cfg) in
  match build rq with
  | Some e => Err (Tun ("creating device '" +:+ tunnel_name cfg +:+ "': " +:+ e))
  | None => Ok rq
  end.

Definition control_socket (cfg : Config) : option string :=
  if control_enabled (control cfg)
  then Some (default ("/run/mlvpn/" +:+ tunnel_name (tunnel cfg) +:+ ".sock")
               (control_socket_path (control cfg)))
  else None.
Definition command_path (cfg : Config) : string :=
  default ("/run/mlvpn/" +:+ tunnel_name (tunnel cfg) +:+ ".command.sock")
    (command_socket_path (command cfg)).
Definition command_socket (cfg : Config) : option string :=
  if command_enabled (command cfg) then Some (command_path cfg) else None.

(** [Duration::from_secs], and the parameters of the diagnostics watch with the
    directory of the dumps. *)
Definition secs (n : Z) : Z := n * 1000000000.
Definition diagnostics_watch (d : DiagnosticsConfig) : option (WatchParams * string) :=
  if auto_dump_enabled d
  then Some (Diag.mkWatch (Configuration.degraded_open_pct d) (Configuration.degraded_open_misses d)
               (Configuration.degraded_close_pct d) (secs (cooldown_secs d)) (secs (window_secs d))
               (min_probes d) (secs (clear_secs d)) (secs (outage_secs d)) (secs (warmup_secs d))
               (secs (degraded_ticket_gap_secs d)) (flap_downs d)
               (Z.to_nat (Configuration.max_dump_files d)) (auto_submit_enabled d),
             default "/var/log/mlvpn" (dump_dir d))
  else None.

(** ** [lib.rs]: the version *)

Definition format_version (cargo_version : string) (suffix : option string) : string :=
  match suffix with
  | Some s => if String.eqb s "" then cargo_version else cargo_version +:+ "-" +:+ s
  | None => cargo_version
  end.

(** ** A command to a running daemon *)

(** A run of the program: its lines, and the error it ends with. *)
Record Run := mkRun { printed : list string; ends_with_error : option string }.
Definition done (lines : list string) : Run := mkRun lines None.
Definition bail (lines : list string) (e : string) : Run := mkRun lines (Some e).

(** The daemon's side of the socket, for the bytes sent to it. *)
Inductive Talk := CannotConnect (e : string) | Broken (e : string) | Reply (bytes : string).

Section cli.
Context (load : string → outcome Config).
Context (json_cmd : Command → string).
Context (parse_result : string → CommandResult + string).
Context (fmt : nat → f64 → string).
Context (local_version : string).
Context {World : Type} (talk : string → string → World → World * Talk).

(** The text up to the first line feed. *)
Definition read_line (bytes : string) : string :=
  match split_once (Ascii.ascii_of_nat 10) bytes with
  | Some (line, _) => line +:+ nl
  | None => bytes
  end.

Definition send_command (config_path : string) (cmd : Command) (w : World)
    : World * (CommandResult + string) :=
  match load config_path with
  | Err e => (w, inr (display_error e))
  | Panic => (w, inr "")
  | Ok cfg =>
      if negb (command_enabled (command cfg)) then
        (w, inr ("[command] is not enabled in " +:+ config_path +:+ "; set `[command] enabled = true` in the config and restart mlvpnd before this will work"))
      else
        let path := command_path cfg in
        let '(w, t) := talk path (json_cmd cmd +:+ nl) w in
        (w, match t with
            | CannotConnect e =>
                inr ("connecting to command socket " +:+ path +:+ ": " +:+ e
                     +:+ " (is mlvpnd running with [command] enabled?)")
            | Broken e => inr e
            | Reply bytes => parse_result (cut_space (read_line bytes))
            end)
  end.

Definition rejected (r : CommandResult) : string :=
  "mlvpnd rejected the command: " +:+ default "(no error detail)" (error r).

Definition set_link (config_path link : string) (enabled : bool) (w : World) : World * Run :=
  let '(w, r) := send_command config_path (SetLinkEnabled link enabled) w in
  (w, match r with
      | inr e => bail [] e
      | inl r =>
          if ok r
          then done ["ok: link '" +:+ link +:+ "' " +:+ (if enabled then "enabled" else "disabled")]
          else bail [] (rejected r)
      end).

Definition print_peer_version_report (peer_version : option string) : list string :=
  match peer_version with
  | Some v =>
      if String.eqb v local_version then ["peer version: " +:+ v +:+ " (matches this host)"]
      else ["peer version: " +:+ v +:+ " -- WARNING: this host is running " +:+ local_version
            +:+ ", versions differ"]
  | None => ["peer version: unknown (no version info received from the peer yet -- session may not be established, or the peer predates this feature)"]
  end.

Definition no_result : string := "no result (timed out or peer doesn't support this)".
Definition mbps (v : option f64) : string :=
  match v with Some v => fmt 1%nat v +:+ " Mbps" | None => no_result end.

(** The lines of one link's result. *)
Definition link_result_lines (bidirectional : bool) (r : ThroughputTestLinkResult) : list string :=
  (tr_link r +:+ ": upload " +:+ mbps (upload_mbps r)
   +:+ (if bidirectional then ", download " +:+ mbps (download_mbps r) else ""))
  :: match upload_steps r with
     | [] => []
     | steps =>
         ["  ramp steps:" +:+ cat ((λ s : f64 * option f64, " " +:+ fmt 0%nat s.1 +:+ "->" +:+
            match s.2 with Some a => fmt 1%nat a | None => "none" end) <$> steps)]
     end.

Definition run_throughput_selftest (config_path : string) (link : option string)
    (duration_secs : Z) (bidirectional : bool) (w : World) : World * Run :=
  let first := "running throughput self-test (" +:+ pretty duration_secs +:+ "s per direction"
               +:+ (if bidirectional then ", bidirectional" else "")
               +:+ ") -- this will take a while..." in
  let '(w, r) := send_command config_path (RunThroughputTest link duration_secs bidirectional) w in
  (w, match r with
      | inr e => bail [first] e
      | inl r =>
          if negb (ok r) then bail [first] (rejected r)
          else match throughput_results r with
               | [] => done [first; "no links were tested"]
               | results =>
                   done (first :: mjoin (link_result_lines bidirectional <$> results)
                         ++ print_peer_version_report (cr_peer_version r))
               end
      end).

Definition protocol_str (p : Transport) : string := match p with Tcp => "tcp" | Udp => "udp" end.
Definition retransmit_lines (n : option Z) : list string :=
  match n with Some n => ["  real TCP goodput, retransmits: " +:+ pretty n] | None => [] end.

(** The lines of the upload and of the download of a test through the tunnel. *)
Definition tunnel_upload_lines (protocol : Transport) (t : TunnelTestCommandResult) : list string :=
  ("upload: " +:+ mbps (tt_upload_mbps t))
  :: match protocol with
     | Tcp => retransmit_lines (upload_retransmits t)
     | Udp =>
         ["  our own outbound queue dropped " +:+
          (if 0 <? local_outbound_queue_dropped_delta t
           then pretty (local_outbound_queue_dropped_delta t) +:+ " packet(s) during this leg"
           else "0 packets during this leg")]
     end.
Definition tunnel_download_lines (protocol : Transport) (t : TunnelTestCommandResult) : list string :=
  ("download: " +:+ mbps (tt_download_mbps t))
  :: match protocol with
     | Tcp =>
         (if tt_download_mbps t then
            ["  retransmits: unavailable for the download leg -- the peer is the real sender for this leg and has no way to report its own TCP_INFO reading back to us (see docs/monitoring.md)"]
          else []) ++ retransmit_lines (download_retransmits t)
     | Udp =>
         [match peer_outbound_queue_dropped_delta t with
          | Some 0 => "  peer's outbound queue dropped 0 packets during this leg"
          | Some n => "  peer's outbound queue dropped " +:+ pretty n +:+ " packet(s) during this leg"
          | None => "  peer's outbound queue drop count unavailable (no result)"
          end]
     end.

Definition run_tunnel_throughput_selftest (config_path peer_addr : string) (duration_secs : Z)
    (bidirectional : bool) (protocol : Transport) (w : World) : World * Run :=
  let first := "running tunnel-level self-test against " +:+ peer_addr +:+ " (" +:+ pretty duration_secs
               +:+ "s per direction" +:+ (if bidirectional then ", bidirectional" else "") +:+ ", "
               +:+ protocol_str protocol +:+ ") -- this will take a while..." in
  let '(w, r) := send_command config_path
                   (RunTunnelThroughputTest peer_addr duration_secs bidirectional protocol) w in
  (w, match r with
      | inr e => bail [first] e
      | inl r =>
          if negb (ok r) then bail [first] (rejected r)
          else match tunnel_test_result r with
               | None => bail [first] "mlvpnd accepted the command but returned no result"
               | Some t =>
                   done (first :: tunnel_upload_lines protocol t
                         ++ (if bidirectional then tunnel_download_lines protocol t else [])
                         ++ print_peer_version_report (cr_peer_version r))
               end
      end).

(** ** The dump of [mlvpnd diag-dump] *)

(** What running a program gives: its two outputs as text, or an error. *)
Definition Captured : Type := string + string * string.

Fixpoint contains_text (needle s : string) : bool :=
  String.prefix needle s || match s with String _ s => contains_text needle s | EmptyString => false end.

(** Lower case matters for ASCII letters only: no other character has one of
    [udp] as its lower case. *)
Definition run_and_capture_filtered (run : string → list string → Captured) (cmd : string)
    (args : list string) (needle : option string) : string :=
  "$ " +:+ cmd +:+ " " +:+ String.concat " " args +:+ nl +:+
  match run cmd args with
  | inl e => "(could not run " +:+ cmd +:+ ": " +:+ e +:+ " -- is it installed and on PATH?)" +:+ nl
  | inr (out, err) =>
      match needle with
      | Some needle =>
          cat (imap (λ i line,
                 if (i =? 0)%nat || contains_text needle (to_ascii_lowercase line)
                 then line +:+ nl else "") (lines (out +:+ err)))
      | None => out +:+ err
      end
  end +:+ nl.

Definition capture_kernel_udp_diagnostics (run : string → list string → Captured)
    (proc_net_udp : string + string) : string :=
  "--- Kernel UDP diagnostics (captured here, not by the daemon) ---" +:+ nl +:+ nl
  +:+ run_and_capture_filtered run "nstat" ["-az"] (Some "udp")
  +:+ run_and_capture_filtered run "ss" ["-lu"; "-n"; "-a"] None
  +:+ "$ /proc/net/udp" +:+ nl
  +:+ match proc_net_udp with
      | inr s => s
      | inl e => "(could not read /proc/net/udp: " +:+ e +:+ ")" +:+ nl
      end +:+ nl.

(** ** Reports ([diagnostics.rs]) *)

Definition DIAGNOSTICS_URL_DEFAULT : string := "https://software-support.jpps.us".

(** What a report is made of besides its text: the environment variable, the
    text of [/etc/os-release], the name of the system and the host's name. *)
Record Machine := mkMachine {
  env_url : option string; os_release : option string; const_os : string; gethostname : option string }.

Definition diagnostics_url (h : Machine) : string := default DIAGNOSTICS_URL_DEFAULT (env_url h).

Fixpoint trim_start_char (c : Ascii.ascii) (s : string) : string :=
  match s with String a r => if Ascii.eqb a c then trim_start_char c r else s | EmptyString => s end.
Fixpoint trim_end_char (c : Ascii.ascii) (s : string) : string :=
  match s with
  | EmptyString => EmptyString
  | String a r =>
      match trim_end_char c r with
      | EmptyString => if Ascii.eqb a c then EmptyString else String a EmptyString
      | t => String a t
      end
  end.
Definition trim_matches (c : Ascii.ascii) (s : string) : string := trim_end_char c (trim_start_char c s).

Definition os_info (h : Machine) : string :=
  default (const_os h)
    (contents ← os_release h;
     head (omap (λ line, trim_matches (Ascii.ascii_of_nat 34) <$> strip_prefix "PRETTY_NAME=" line)
             (lines contents))).

Definition build_report_body (h : Machine) (cargo_version bundle trigger : string)
    (message : option string) : Value :=
  Object [("product", Str "mlvpn-rs"); ("version", Str cargo_version); ("os_info", Str (os_info h));
          ("hostname", from_option Str Null (gethostname h)); ("trigger", Str trigger);
          ("logs", Str bundle); ("message", Str (default "" message))].

(** The answer to the request: an error, or the status with whether it is a
    success, and the ticket in the body, if it can be read. *)
Inductive Posted := NotSent (e : string) | Answered (status : string) (success : bool) (ticket : string + string).

(** [submit_report_blocking] and [submit_report_async]. *)
Definition submit_report (post : string → Value → Posted) (h : Machine)
    (cargo_version bundle trigger : string) (message : option string) : string + string :=
  match post (diagnostics_url h +:+ "/api/v1/reports")
          (build_report_body h cargo_version bundle trigger message) with
  | NotSent e => inl e
  | Answered status success ticket =>
      if success then ticket else inl ("software-support returned " +:+ status)
  end.

(** The crash hook: the report of a panic, its outcome ignored. *)
Definition crash_report (post : string → Value → Posted) (h : Machine) (cargo_version : string)
    (log_ring : ring LogEntry) (info : string) : string + string :=
  submit_report post h cargo_version (recent_lines_snapshot log_ring) "crash" (Some info).

(** [submit] is [submit_report_blocking], [write] the error of writing the file.
    Besides the run, the file that was written. *)
Definition run_diag_dump (submit : string → string → option string → string + string)
    (write : string → string → option string) (unix_secs : Z) (kernel_dump : string)
    (config_path : string) (output : option string) (wanted : bool) (message : option string)
    (w : World) : World * Run * option (string * string) :=
  match load config_path with
  | Err e => (w, bail [] (display_error e), None)
  | Panic => (w, bail [] "", None)
  | Ok cfg =>
      let '(w, r) := send_command config_path DiagDump w in
      match r with
      | inr e => (w, bail [] e, None)
      | inl r =>
          if negb (ok r) then (w, bail [] (rejected r), None)
          else
            let combined := default "(daemon returned no dump text)" (diag_dump r) +:+ nl +:+ kernel_dump in
            let path := default ("mlvpn-diag-" +:+ tunnel_name (tunnel cfg) +:+ "-" +:+ pretty unix_secs
                                 +:+ ".txt") output in
            match write path combined with
            | Some e => (w, bail [] e, None)
            | None =>
                (w, done (("wrote diagnostic dump to " +:+ path)
                     :: if wanted then
                          match submit combined "manual" message with
                          | inr ticket =>
                              ["submitted to software-support: ticket " +:+ ticket;
                               "status: https://software-support.jpps.us/status/" +:+ ticket]
                          | inl e => ["warning: could not submit report to software-support: " +:+ e]
                          end
                        else []), Some (path, combined))
            end
      end
  end.

End cli.

(** ** From the command line into the daemon *)

Section end_to_end.
Context (load : string → outcome Config).
Context (json_cmd : Command → string) (parse_cmd : string → Command + string).
Context (json_result : CommandResult → string) (parse_result : string → CommandResult + string).
Context (fmt : nat → f64 → string) (addr_to_string : SocketAddr → string).
Context (parse_ip : string → IpAddr + string) (peer_version : option string).

(** A running daemon at its command socket: the first line of a connection is
    served, one without a line gets no answer. *)
Definition daemon_talk (cfg : Config) (m : measured) (path bytes : string) (ts : list Target)
    : list Target * Talk :=
  if bool_decide (command_socket cfg = Some path) then
    match lines bytes with
    | [] => (ts, Reply "")
    | line :: _ =>
        let '(ts, r) := serve_command_client fmt addr_to_string parse_ip peer_version m
                          (parse_cmd line) ts in
        (ts, Reply (json_result r +:+ nl))
    end
  else (ts, CannotConnect "No such file or directory (os error 2)").

(** The JSON text of the command and of a plain result is read back, and is one
    line that ends with a visible character. *)
Record json_laws : Prop := {
  jl_cmd : ∀ link enabled, let c := SetLinkEnabled link enabled in parse_cmd (json_cmd c) = inl c;
  jl_cmd_line : ∀ c, contains_char (Ascii.ascii_of_nat 10) (json_cmd c) = false ∧
                     contains_char (Ascii.ascii_of_nat 13) (json_cmd c) = false;
  jl_result : ∀ r, throughput_results r = [] → diag_dump r = None → tunnel_test_result r = None →
    parse_result (json_result r) = inl r;
  jl_result_line : ∀ r, contains_char (Ascii.ascii_of_nat 10) (json_result r) = false ∧
                        cut_space (json_result r +:+ nl) = json_result r }.

Lemma strip_cr_none s : contains_char (Ascii.ascii_of_nat 13) s = false → strip_cr s = s.
Proof.
  induction s as [|a s IH]; [done|]. rewrite contains_char_cons. intros [Ha Hs]%orb_false_iff.
  specialize (IH Hs). destruct s as [|b s]; cbn [strip_cr]; [by rewrite Ha|].
  cbn [strip_cr] in IH. by rewrite IH.
Qed.

Lemma lines_one s :
  contains_char (Ascii.ascii_of_nat 10) s = false → contains_char (Ascii.ascii_of_nat 13) s = false →
  lines (s +:+ nl) = [s].
Proof.
  intros Hl Hc. unfold lines, nl. rewrite split_char_first by done. cbn. by rewrite strip_cr_none.
Qed.

Lemma read_line_one s :
  contains_char (Ascii.ascii_of_nat 10) s = false → read_line (s +:+ nl) = s +:+ nl.
Proof. intros H. unfold read_line, nl. by rewrite split_once_first. Qed.

(** C19. [mlvpnd set-link] does what it says. With the command socket enabled the
    program dials where the daemon listens; it reports success exactly when the
    daemon has a link of that name, and then the first link of that name is
    enabled or disabled and no other is touched; otherwise nothing changes and
    the program fails with the daemon's reason. With the socket disabled the
    daemon is not reached at all. *)
Theorem set_link_end_to_end cfg m config_path link enabled ts :
  json_laws → load config_path = Ok cfg →
  let '(ts', r) := set_link load json_cmd parse_result (daemon_talk cfg m) config_path link enabled ts in
  if command_enabled (command cfg) then
    match r with
    | mkRun lines None =>
        lines = ["ok: link '" +:+ link +:+ "' " +:+ (if enabled then "enabled" else "disabled")] ∧
        ∃ a t b, ts = a ++ t :: b ∧ named link t = true ∧ Forall (λ t, named link t = false) a ∧
                 ts' = a ++ set_enabled enabled t :: b
    | mkRun lines (Some e) =>
        lines = [] ∧ e = "mlvpnd rejected the command: no such link '" +:+ link +:+ "'" ∧
        ts' = ts ∧ Forall (λ t, named link t = false) ts
    end
  else ts' = ts ∧ ends_with_error r ≠ None.
Proof.
  intros J Hload. unfold set_link, send_command. rewrite Hload.
  destruct (command_enabled (command cfg)) eqn:Een; cbn [negb]; [|done].
  unfold daemon_talk, command_socket. rewrite Een, bool_decide_true by done.
  destruct (jl_cmd_line J (SetLinkEnabled link enabled)) as [Hl Hc].
  rewrite lines_one, (jl_cmd J) by done. cbn.
  pose proof (set_link_spec link enabled ts) as Hspec.
  destruct (set_link_enabled link enabled ts) as [ts' found].
  assert (∀ r, throughput_results r = [] → diag_dump r = None → tunnel_test_result r = None →
            parse_result (cut_space (read_line (json_result r +:+ nl))) = inl r) as Hr.
  { intros r H0 H1 H2. destruct (jl_result_line J r) as [H3 H4].
    rewrite read_line_one, H4 by done. by apply J. }
  destruct found; rewrite Hr by done; cbn; [by split|]. by destruct Hspec as [-> Hn].
Qed.
End end_to_end.

(** A codec with two letters to a character in the place of JSON. *)
Module cli_example.

Definition letter (n : nat) : Ascii.ascii := Ascii.ascii_of_nat (97 + n).
Fixpoint enc (s : string) : string :=
  match s with
  | EmptyString => EmptyString
  | String a s => let n := Ascii.nat_of_ascii a in
                  String (letter (n / 16)) (String (letter (n mod 16)) (enc s))
  end.
Fixpoint dec (s : string) : string :=
  match s with
  | String a (String b s) =>
      String (Ascii.ascii_of_nat ((Ascii.nat_of_ascii a - 97) * 16 + (Ascii.nat_of_ascii b - 97))) (dec s)
  | _ => EmptyString
  end.
Definition flag (b : bool) : string := if b then "1" else "0".
Definition json_cmd (c : Command) : string :=
  match c with SetLinkEnabled link e => "L" +:+ flag e +:+ enc link | _ => "X" end.
Definition parse_cmd (s : string) : Command + string :=
  match s with
  | String "L" (String b r) => inl (SetLinkEnabled (dec r) (Ascii.eqb b "1"))
  | _ => inr "expected value at line 1 column 1"
  end.
Definition opt (o : option string) : string := match o with Some s => "S" +:+ enc s | None => "N" end.
Definition unopt (s : string) : option string :=
  match s with String "S" r => Some (dec r) | _ => None end.
Definition json_result (r : CommandResult) : string :=
  flag (ok r) +:+ opt (error r) +:+ String ","%char (opt (cr_peer_version r)).
Definition parse_result (s : string) : CommandResult + string :=
  match s with
  | String b r =>
      match split_once ","%char r with
      | Some (x, y) => inl (mkResult (Ascii.eqb b "1") (unopt x) [] None None (unopt y))
      | None => inr "expected value"
      end
  | _ => inr "EOF"
  end.

Lemma dec_enc s : dec (enc s) = s.
Proof.
  induction s as [|a s IH]; [done|].
  change (dec (enc (String a s))) with
    (String (Ascii.ascii_of_nat ((Ascii.nat_of_ascii (letter (Ascii.nat_of_ascii a / 16)) - 97) * 16
       + (Ascii.nat_of_ascii (letter (Ascii.nat_of_ascii a mod 16)) - 97))) (dec (enc s))).
  rewrite IH. f_equal. by destruct a as [[] [] [] [] [] [] [] []].
Qed.

Definition plain_char (a : Ascii.ascii) : bool := graphic a && negb (Ascii.eqb a ",").

Lemma enc_plain s : all_chars plain_char (enc s) = true.
Proof.
  induction s as [|a s IH]; [done|].
  change (plain_char (letter (Ascii.nat_of_ascii a / 16)) &&
          (plain_char (letter (Ascii.nat_of_ascii a mod 16)) && all_chars plain_char (enc s)) = true).
  rewrite IH. by destruct a as [[] [] [] [] [] [] [] []].
Qed.

Lemma all_chars_weaken f g s :
  (∀ a, f a = true → g a = true) → all_chars f s = true → all_chars g s = true.
Proof.
  intros H. induction s as [|a s IH]; [done|]. cbn. intros [Ha Hs]%andb_true_iff. by rewrite H, IH.
Qed.

Lemma plain_no c s : plain_char c = false → all_chars plain_char s = true → contains_char c s = false.
Proof.
  intros Hc Hs. unfold contains_char. apply negb_false_iff, (all_chars_weaken plain_char); [|done].
  intros a Ha. apply negb_true_iff, Ascii.eqb_neq. intros ->. congruence.
Qed.

Lemma opt_plain o : all_chars plain_char (opt o) = true.
Proof. destruct o as [s|]; [|done]. exact (enc_plain s). Qed.

Lemma unopt_opt o : unopt (opt o) = o.
Proof. destruct o as [s|]; [|done]. exact (f_equal Some (dec_enc s)). Qed.

Lemma cut_space_graphic s : all_chars graphic s = true → cut_space (s +:+ nl) = s.
Proof.
  induction s as [|a s IH]; [done|]. intros [Ha Hs]%andb_true_iff.
  change (cut_space (String a (s +:+ nl)) = String a s).
  cbn [cut_space all_space]. rewrite graphic_no_space by done. by rewrite IH.
Qed.

Lemma codec_laws : json_laws json_cmd parse_cmd json_result parse_result.
Proof.
  assert (∀ a, plain_char a = true → graphic a = true) as Hg by by intros a [? _]%andb_true_iff.
  split.
  - intros link e. change (json_cmd (SetLinkEnabled link e)) with (String "L" (flag e +:+ enc link)).
    destruct e; [exact (f_equal (λ l, inl (SetLinkEnabled l true)) (dec_enc link))
                |exact (f_equal (λ l, inl (SetLinkEnabled l false)) (dec_enc link))].
  - intros [link e|? ? ?| |? ? ? ?]; [|done..].
    assert (all_chars plain_char (json_cmd (SetLinkEnabled link e)) = true) as H
      by (destruct e; exact (enc_plain link)).
    by split; apply plain_no.
  - intros [o e t d u v] H1 H2 H3. cbn in H1, H2, H3. subst. unfold json_result, parse_result.
    assert (split_once ","%char (opt e +:+ String ","%char (opt v)) = Some (opt e, opt v)) as Hs
      by by apply split_once_first, plain_no, opt_plain.
    assert (∀ b, parse_result (String b (opt e +:+ String "," (opt v))) =
      inl (mkResult (Ascii.eqb b "1") e [] None None v)) as Hp
      by (intros b; unfold parse_result; by rewrite Hs, !unopt_opt).
    destruct o; exact (Hp _).
  - intros r. assert (all_chars graphic (json_result r) = true) as H.
    { unfold json_result. rewrite all_chars_app, all_chars_app.
      rewrite (all_chars_weaken plain_char graphic (opt (error r))) by (done || apply opt_plain).
      change (all_chars graphic (String "," (opt (cr_peer_version r))))
        with (all_chars graphic (opt (cr_peer_version r))).
      rewrite (all_chars_weaken plain_char graphic (opt (cr_peer_version r))) by (done || apply opt_plain).
      by destruct (ok r). }
    split; [|by apply cut_space_graphic]. unfold contains_char.
    apply negb_false_iff, (all_chars_weaken graphic); [|done].
    intros a Ha. apply negb_true_iff, Ascii.eqb_neq. by intros ->.
Qed.

Import commands_example.

Definition conf : Config :=
  mkConfig Configuration.Client (mkTunnelConfig "tun0" "10.0.0.1/30" None None true 500) SchedulerConfig_default []
    LoggingConfig_default ControlConfig_default (mkCommandConfig true None) DiagnosticsConfig_default.

Definition disable (link : string) : list Target * Run :=
  set_link (λ _, Ok conf) json_cmd parse_result
    (daemon_talk parse_cmd json_result fmt addr parse (Some "0.7.3") conf unmeasured)
    "/etc/mlvpn/mlvpn.toml" link false two.

Lemma set_link_end_to_end_witness :
  (disable "wan1").2 = done ["ok: link 'wan1' disabled"] ∧
  ∃ a t b, two = a ++ t :: b ∧ named "wan1" t = true ∧ (disable "wan1").1 = a ++ set_enabled false t :: b.
Proof.
  pose proof (set_link_end_to_end (λ _, Ok conf) json_cmd parse_cmd json_result parse_result fmt addr
    parse (Some "0.7.3") conf unmeasured "/etc/mlvpn/mlvpn.toml" "wan1" false two codec_laws eq_refl) as H.
  fold (disable "wan1") in H.
  assert ((disable "wan1").2 = done ["ok: link 'wan1' disabled"]) as E by (vm_compute; reflexivity).
  split; [exact E|]. destruct (disable "wan1") as [ts' r]. cbn in E. rewrite E in H.
  destruct H as (_ & a & t & b & H1 & H2 & _ & H3). exists a, t, b. exact (conj H1 (conj H2 H3)).
Defined.

Example unknown_link : ends_with_error (disable "wan9").2
  = Some "mlvpnd rejected the command: no such link 'wan9'".
Proof. vm_compute. reflexivity. Qed.
Example cidr : parse_cidr "10.0.0.1/30" = Ok ("10.0.0.1", 30) ∧
  parse_cidr "10.0.0.1/300" = Err (config_err "invalid prefix length in tunnel.address '10.0.0.1/300'").
Proof. vm_compute. auto. Qed.
Example mode_text : display_error (InsecurePermissions "/k" 0x1a4)
  = "config file /k has insecure permissions 644; expected 0600 or stricter".
Proof. vm_compute. reflexivity. Qed.

End cli_example.
