(* ===== verification/Tui.v ===== *)
(** * The terminal viewer ([src/bin/mlvpn-tui]: [model.rs], [main.rs])

    What [mlvpn-tui] keeps of the snapshots it reads, the state of its views and
    the keys that change it, how it finds the control socket, and the thread
    that reads it. [TuiViews] has the text of the views. A character on the
    screen is the string of its bytes; what the clock, the directory, the
    socket and other programs answer is input. *)

From Stdlib Require Import SpecFloat.
From S2P Require Import Prelude Bytes F64 Text LinkIo Events Telemetry Snapshot Web Rounding ExactInt.

(** ** Health *)

Definition LOG_CAPACITY : nat := 2000.
Definition EVENT_CAPACITY : nat := 500.
Definition HISTORY_SAMPLES : nat := 120.
Definition STALE_AFTER : Z := 3 * 1000000000.

Inductive Color := Green | Yellow | Red | Cyan | DarkGray.

Inductive Health := Healthy | Degraded | Failover | HealthDown | Starting | Disconnected.
#[export] Instance viewer_Health_eq_dec : EqDecision Health.
Proof. solve_decision. Defined.

Definition label (h : Health) : string :=
  match h with
  | Healthy => "HEALTHY" | Degraded => "DEGRADED" | Failover => "FAILOVER"
  | HealthDown => "DOWN" | Starting => "STARTING" | Disconnected => "DISCONNECTED"
  end.
Definition symbol (h : Health) : string :=
  match h with
  | Healthy => "●" | Degraded => "!" | Failover => "↻"
  | HealthDown => "×" | Starting => "…" | Disconnected => "○"
  end.
Definition color (h : Health) : Color :=
  match h with
  | Healthy => Green | Degraded | Failover => Yellow
  | HealthDown => Red | Starting => Cyan | Disconnected => DarkGray
  end.
Definition parse_health (s : string) : option Health :=
  List.find (λ h, String.eqb s (label h)) [Healthy; Degraded; Failover; HealthDown; Starting].

Definition is_up (l : LinkSnapshot) : bool := String.eqb (ln_state l) "up".
Definition link_suffers (l : LinkSnapshot) : bool :=
  negb (is_up l) || degraded l
  || match local_loss_pct l with Some p => (f64.of_Z 5 <=? p)%f64 | None => false end.

Definition fallback_health (links : list LinkSnapshot) : Health * string :=
  let up := len (List.filter is_up links) in
  if up =? 0 then
    if existsb (λ l, String.eqb (ln_state l) "probing") links
    then (Starting, "no link up yet, probing") else (HealthDown, "no link is up")
  else if existsb link_suffers links
  then (Degraded, pretty up +:+ " of " +:+ pretty (len links) +:+ " links healthy")
  else (Healthy, pretty up +:+ " of " +:+ pretty (len links) +:+ " links up").

(** ** The state of the views *)

Inductive Tab := Overview | Links | Traffic | Reliability | System | Debug.
#[export] Instance Tab_eq_dec : EqDecision Tab.
Proof. solve_decision. Defined.

Definition ALL : list Tab := [Overview; Links; Traffic; Reliability; System; Debug].
Definition title (t : Tab) : string :=
  match t with
  | Overview => "Overview" | Links => "Links" | Traffic => "Traffic"
  | Reliability => "Reliability" | System => "System" | Debug => "Debug"
  end.
Definition short_title (t : Tab) : string :=
  match t with
  | Overview => "Ovw" | Links => "Lnk" | Traffic => "Trf"
  | Reliability => "Rel" | System => "Sys" | Debug => "Dbg"
  end.

(** [position], whose [unwrap] and the indexing are panics where they fail. *)
Fixpoint position (t : Tab) (ts : list Tab) : outcome nat :=
  match ts with
  | [] => Panic
  | u :: ts => if decide (t = u) then Ok 0%nat else n ← position t ts; Ok (S n)
  end.
Definition tab_at (i : nat) : outcome Tab := match ALL !! i with Some t => Ok t | None => Panic end.
Definition tab_next (t : Tab) : outcome Tab :=
  i ← position t ALL; tab_at ((i + 1) mod length ALL)%nat.
Definition tab_prev (t : Tab) : outcome Tab :=
  i ← position t ALL; tab_at ((i + length ALL - 1) mod length ALL)%nat.

(** A character is its code point. *)
Definition from_digit (c : Z) : option Tab :=
  if (48 <=? c) && (c <=? 57) then
    let d := c - 48 in
    if d =? 0 then None else ALL !! Z.to_nat (d - 1)
  else None.

Record Ui := mkUi { tab : Tab; link_selected : Z; link_detail : bool; log_scroll : Z }.
Definition Ui_default : Ui := mkUi Overview 0 false 0.

Definition usize_max : Z := 2 ^ 64 - 1.
Definition saturating_add (x y : Z) : Z := Z.min (x + y) usize_max.

Inductive KeyCode :=
  | KeyTab | KeyBackTab | KeyChar (c : Z) | KeyUp | KeyDown | KeyEnter
  | KeyPageUp | KeyPageDown | KeyEsc | KeyOther.

Definition set_tab (t : Tab) (ui : Ui) : Ui :=
  mkUi t (link_selected ui) (link_detail ui) (log_scroll ui).
Definition set_selected (n : Z) (ui : Ui) : Ui :=
  mkUi (tab ui) n (link_detail ui) (log_scroll ui).
Definition set_detail (b : bool) (ui : Ui) : Ui :=
  mkUi (tab ui) (link_selected ui) b (log_scroll ui).
Definition set_scroll (n : Z) (ui : Ui) : Ui :=
  mkUi (tab ui) (link_selected ui) (link_detail ui) n.

Definition handle_key (code : KeyCode) (link_count : Z) (ui : Ui) : outcome Ui :=
  match code, tab ui with
  | KeyTab, t => t ← tab_next t; Ok (set_tab t ui)
  | KeyBackTab, t => t ← tab_prev t; Ok (set_tab t ui)
  | KeyChar c, _ => Ok match from_digit c with Some t => set_tab t ui | None => ui end
  | KeyUp, Links => Ok (set_selected (sat_sub (link_selected ui) 1) ui)
  | KeyDown, Links =>
      Ok (set_selected (Z.min (wrap 64 (link_selected ui + 1)) (sat_sub link_count 1)) ui)
  | KeyEnter, Links => Ok (set_detail (negb (link_detail ui)) ui)
  | KeyUp, Debug => Ok (set_scroll (saturating_add (log_scroll ui) 1) ui)
  | KeyDown, Debug => Ok (set_scroll (sat_sub (log_scroll ui) 1) ui)
  | KeyPageUp, Debug => Ok (set_scroll (saturating_add (log_scroll ui) 10) ui)
  | KeyPageDown, Debug => Ok (set_scroll (sat_sub (log_scroll ui) 10) ui)
  | _, _ => Ok ui
  end.

(** [run_app]: a key that went down, with control held or not, or anything else
    that ends the wait. [None] is the end of the program. *)
Inductive app_event := Pressed (code : KeyCode) (control : bool) | NothingPressed.

(** The selection is brought into range before the views are drawn. *)
Definition before_draw (link_count : Z) (ui : Ui) : Ui :=
  set_selected (Z.min (link_selected ui) (sat_sub link_count 1)) ui.

Definition quits (code : KeyCode) (control : bool) : bool :=
  match code with KeyChar c => (c =? 113) || ((c =? 99) && control) | _ => false end.

Definition app_turn (ev : app_event) (link_count : Z) (ui : Ui) : outcome (option Ui) :=
  match ev with
  | NothingPressed => Ok (Some ui)
  | Pressed code control =>
      if quits code control then Ok None
      else match code with
           | KeyEsc => Ok (if link_detail ui then Some (set_detail false ui) else None)
           | _ => ui ← handle_key code link_count ui; Ok (Some ui)
           end
  end.

(** ** What is kept of the snapshots *)

Record History := mkHistory {
  tunnel_tx : list f64; tunnel_rx : list f64; link_total : gmap string (list f64) }.
Definition History_default : History := mkHistory [] [] ∅.
Definition series_push (v : f64) (s : list f64) : list f64 := push_capped HISTORY_SAMPLES s v.

Record SharedState := mkState {
  snapshot : option Snapshot;
  connected : bool;
  last_update : option Z;
  logs : list (Z * LogEntry);
  events : list (Z * EventRecord);
  history : History;
  socket_path : option string }.
Definition SharedState_new (socket_path : option string) : SharedState :=
  mkState None false None [] [] History_default socket_path.

Definition on_connect (s : SharedState) : SharedState :=
  mkState (snapshot s) true (last_update s) [] [] History_default (socket_path s).

Definition or_zero (v : option f64) : f64 := default f64.zero v.

Definition tunnel_rates (snap : Snapshot) : f64 * f64 :=
  let t := telemetry (sn_daemon snap) in
  if negb (String.eqb (health t) "") then (tx_mbps (snap_rates t), rx_mbps (snap_rates t))
  else
    foldl (λ acc l, ((acc.1 + or_zero (local_tx_throughput_mbps l))%f64,
                     (acc.2 + or_zero (local_rx_throughput_mbps l))%f64))
      (f64.zero, f64.zero) (List.filter is_up (sn_links snap)).

Definition record_link (h : gmap string (list f64)) (l : LinkSnapshot) : gmap string (list f64) :=
  let total := (or_zero (local_tx_throughput_mbps l) + or_zero (local_rx_throughput_mbps l))%f64 in
  <[ln_name l := series_push total (default [] (h !! ln_name l))]> h.

Definition ingest (now : Z) (snap : Snapshot) (s : SharedState) : SharedState :=
  let '(tx, rx) := tunnel_rates snap in
  let h := history s in
  mkState (Some snap) (connected s) (Some now)
    (foldl (push_capped LOG_CAPACITY) (logs s) (new_log_lines snap))
    (foldl (push_capped EVENT_CAPACITY) (events s) (new_events snap))
    (mkHistory (series_push tx (tunnel_tx h)) (series_push rx (tunnel_rx h))
       (foldl record_link (link_total h) (sn_links snap)))
    (socket_path s).

Definition is_fresh (now : Z) (s : SharedState) : bool :=
  connected s && match last_update s with Some t => sat_sub now t <? STALE_AFTER | None => false end.

Definition shown_health (now : Z) (s : SharedState) : Health * string :=
  match snapshot s with
  | None =>
      if connected s then (Starting, "waiting for first snapshot")
      else (Disconnected, "not connected to the daemon")
  | Some snap =>
      if negb (is_fresh now s) then (Disconnected, "no recent data from the daemon")
      else
        let t := telemetry (sn_daemon snap) in
        match parse_health (health t) with
        | Some h => (h, health_reason t)
        | None => fallback_health (sn_links snap)
        end
  end.

(** ** Graphs in text *)

Definition SPARK : list string := ["▁"; "▂"; "▃"; "▄"; "▅"; "▆"; "▇"; "█"].

Definition level (peak v : f64) : nat :=
  if (peak <=? f64.zero)%f64 || (v <=? f64.zero)%f64 then 0%nat
  else Z.to_nat (f64.to_u64 (f64.round (f64.min (v / peak) f64.one * f64.of_Z (len SPARK - 1))%f64)).

Definition spark (values : list f64) (width : nat) (max : f64) : outcome (list string) :=
  if bool_decide (width = 0%nat) then Ok []
  else
    let tail := drop (length values - width) values in
    let peak := if (f64.zero <? max)%f64 then max else foldl f64.max f64.zero tail in
    cells ← mapM (λ v, match SPARK !! level peak v with Some c => Ok c | None => Panic end) tail;
    Ok (replicate (width - length tail) " " ++ cells).

Definition bar (ratio : f64) (width : nat) : outcome (list string) :=
  let ratio := if is_finite ratio then f64.clamp ratio f64.zero f64.one else f64.zero in
  let filled := Z.to_nat (f64.to_u64 (f64.round (ratio * f64.of_Z (Z.of_nat width))%f64)) in
  if bool_decide (filled ≤ width)%nat
  then Ok (replicate filled "█" ++ replicate (width - filled) "░") else Panic.

(** ** Finding the control socket ([main.rs]) *)

Inductive SocketSource := Fixed (path : string) | AutoDetect.
Inductive AutoDetectOutcome := Found (path : string) | NoneFound | Ambiguous (paths : list string).

Definition run_dir : string := "/run/mlvpn".

(** The file names of the directory, if it can be read; [None] for a name that
    is not UTF-8. *)
Definition control_socket_name (name : string) : bool :=
  negb (ends_with ".command.sock" name) && ends_with ".sock" name.
Definition scan_auto_socket_dir (dir : option (list (option string))) : AutoDetectOutcome :=
  match List.filter control_socket_name (omap id (default [] dir)) with
  | [n] => Found (run_dir +:+ "/" +:+ n)
  | [] => NoneFound
  | ns => Ambiguous ((λ n, run_dir +:+ "/" +:+ n) <$> ns)
  end.

Definition MLVPN_SYSTEMD_UNIT : string := "mlvpn.service".

Inductive ServiceStatus := Active | InactiveOrFailed | Unknown.

(** From the output of [systemctl is-active], if it could be run. *)
Definition systemd_service_status (output : option string) : ServiceStatus :=
  match trim_unicode <$> output with
  | Some s =>
      if existsb (String.eqb s) ["active"; "activating"; "reloading"] then Active
      else if existsb (String.eqb s) ["inactive"; "failed"; "deactivating"] then InactiveOrFailed
      else Unknown
  | None => Unknown
  end.

(** The command line that starts the unit, and its error. *)
Definition start_command (is_root : bool) : list string :=
  if is_root then ["systemctl"; "start"; MLVPN_SYSTEMD_UNIT]
  else ["sudo"; "systemctl"; "start"; MLVPN_SYSTEMD_UNIT].
Definition start_service (is_root : bool) (run : list string → string + bool) : option string :=
  match run (start_command is_root) with
  | inl e => Some e
  | inr success =>
      if success then None else Some ("systemctl start " +:+ MLVPN_SYSTEMD_UNIT +:+ " failed")
  end.

Section source.
Context (debug_paths : list string → string).

(** [answer] is what is typed at the prompt. The result is a source or an error,
    with whether the unit was started. *)
Definition resolve_socket_source (explicit : option string) (dir : option (list (option string)))
    (status_output : option string) (answer : string + string) (is_root : bool)
    (run : list string → string + bool) : (string + SocketSource) * bool :=
  match explicit with
  | Some p => (inr (Fixed p), false)
  | None =>
      match scan_auto_socket_dir dir with
      | Found path => (inr (Fixed path), false)
      | Ambiguous found =>
          (inl ("multiple control sockets found under /run/mlvpn: " +:+ debug_paths found
                +:+ " -- pass --socket to pick one"), false)
      | NoneFound =>
          match systemd_service_status status_output with
          | Active => (inr AutoDetect, false)
          | InactiveOrFailed =>
              match answer with
              | inl e => (inl e, false)
              | inr typed =>
                  if String.eqb (to_ascii_lowercase (trim_unicode typed)) "y" then
                    match start_service is_root run with
                    | Some e => (inl e, true)
                    | None => (inr AutoDetect, true)
                    end
                  else (inl ("no control socket found under /run/mlvpn; pass --socket explicitly, or start "
                             +:+ MLVPN_SYSTEMD_UNIT +:+ " yourself first"), false)
              end
          | Unknown =>
              (inl "no control socket found under /run/mlvpn; pass --socket explicitly, or check that mlvpnd is running with [control] enabled (the default)", false)
          end
      end
  end.
End source.

(** ** The reader ([reader_thread]) *)

(** The thread is between two attempts, or reads the lines of a connection. *)
Record Reader := mkReader { source : SocketSource; reading : bool; shared : SharedState }.

(** An attempt, with what the directory shows and whether the socket can be
    connected to; a line, parsed or not; the end of the connection. *)
Inductive reader_event :=
  | Attempt (dir : option (list (option string))) (connects : bool)
  | GotLine (now : Z) (parsed : option Snapshot)
  | Ended.

Definition set_path (p : string) (s : SharedState) : SharedState :=
  mkState (snapshot s) (connected s) (last_update s) (logs s) (events s) (history s) (Some p).
Definition set_connected (b : bool) (s : SharedState) : SharedState :=
  mkState (snapshot s) b (last_update s) (logs s) (events s) (history s) (socket_path s).

(** The path to try, with the source it is pinned to. *)
Definition pick_path (dir : option (list (option string))) (src : SocketSource) (s : SharedState)
    : option SharedState * SocketSource :=
  match src with
  | Fixed p => (Some s, src)
  | AutoDetect =>
      match scan_auto_socket_dir dir with
      | Found p => (Some (set_path p s), Fixed p)
      | NoneFound | Ambiguous _ => (None, AutoDetect)
      end
  end.

Definition reader_step (e : reader_event) (r : Reader) : option Reader :=
  match e, reading r with
  | Attempt dir connects, false =>
      Some match pick_path dir (source r) (shared r) with
           | (None, src) => mkReader src false (set_connected false (shared r))
           | (Some s, src) =>
               if connects then mkReader src true (on_connect s)
               else mkReader src false (set_connected false s)
           end
  | GotLine now parsed, true =>
      Some match parsed with
           | Some snap => mkReader (source r) true (ingest now snap (shared r))
           | None => r
           end
  | Ended, true => Some (mkReader (source r) false (set_connected false (shared r)))
  | _, _ => None
  end.

Definition reader_start (src : SocketSource) : Reader :=
  mkReader src false (SharedState_new (match src with Fixed p => Some p | AutoDetect => None end)).

Fixpoint reader_run (evs : list reader_event) (r : Reader) : option Reader :=
  match evs with
  | [] => Some r
  | e :: evs => r ← reader_step e r; reader_run evs r
  end.

(** ** The graphs fit *)

Lemma f64_mul_comm x y : (x * y)%f64 = (y * x)%f64.
Proof.
  unfold f64.mul, SFmul. destruct x as [sx|sx| |sx mx ex], y as [sy|sy| |sy my ey];
    try done; rewrite (xorb_comm sx); try done.
  by rewrite (Pos.mul_comm mx), (Z.add_comm ex).
Qed.

(** A share of [n] cells is at most [n] cells. *)
Lemma share_bounded n y :
  0 ≤ n < 2 ^ 53 → wf y = true → within f64.zero f64.one y →
  0 ≤ f64.to_u64 (f64.round (y * f64.of_Z n)%f64) ≤ n.
Proof.
  intros Hn Hw [H0 H1]. destruct (Z.eq_dec n 0) as [->|].
  { apply nonneg_cases in H0 as [[[] ->]|[-> |(m & e & ->)]]; done. }
  destruct (of_Z_value n) as (m & e & E & _); [lia|].
  rewrite f64_mul_comm. apply round_between; [lia|lia| | |].
  - apply mul_wf; [apply of_Z_wf|done].
  - apply nonneg_mul; [rewrite E; by eexists _, _|done].
  - apply mul_le; [rewrite E; by eexists _, _|apply of_Z_wf|done|by split].
Qed.

Lemma bar_total ratio width :
  wf ratio = true → Z.of_nat width < 2 ^ 53 →
  ∃ cells, bar ratio width = Ok cells ∧ length cells = width.
Proof.
  intros Hw Hn. unfold bar. set (r := if is_finite ratio then _ else _).
  assert (wf r = true ∧ within f64.zero f64.one r) as [Hr Hin].
  { subst r. destruct (is_finite ratio) eqn:Ef; [|by split].
    split; [by apply clamp_wf|]. apply clamp_within; [by destruct ratio|done]. }
  pose proof (share_bounded (Z.of_nat width) r) as [H0 H1]; [lia|done|done|].
  rewrite bool_decide_true by lia. eexists. split; [done|].
  rewrite length_app, !length_replicate. lia.
Qed.

Lemma level_bounded peak v : (level peak v < length SPARK)%nat.
Proof.
  unfold level. destruct (_ || _) eqn:E; [cbn; lia|].
  apply orb_false_iff in E as [Ep Ev].
  set (y := f64.min _ _). assert (wf y = true ∧ within f64.zero f64.one y) as [Hw Hy].
  { subst y. split; [apply min_wf; [apply div_wf|done]|].
    destruct (f64.is_nan (v / peak)%f64) eqn:En.
    { unfold f64.min. rewrite En. by split. }
    split; [|by apply min_le_r].
    assert (fle f64.zero (v / peak)%f64) as Hq; [|unfold f64.min; rewrite En; by repeat case_match].
    destruct peak as [sp|[]| |[] mp ep]; try done;
      destruct v as [sv|[]| |[] mv ev]; try done.
    apply nonneg_div; [done|by eexists _, _]. }
  pose proof (share_bounded (len SPARK - 1) y) as [H0 H1]; [by vm_compute|done|done|].
  set (k := f64.to_u64 _) in *. clearbody k. change (len SPARK - 1) with 7 in H1.
  change (length SPARK) with 8%nat. lia.
Qed.

Lemma spark_total values width max :
  ∃ cells, spark values width max = Ok cells ∧ length cells = width.
Proof.
  unfold spark. case_bool_decide as Hz; [subst; by exists []|].
  set (tail := drop (length values - width) values). set (peak := if (f64.zero <? max)%f64 then max else foldl f64.max f64.zero tail).
  assert (∃ cells, mapM (λ v : f64, match SPARK !! level peak v with Some c => Ok c | None => Panic end) tail
    = Ok cells ∧ length cells = length tail) as (cells & -> & Hl).
  { clearbody tail peak. induction tail as [|v tail (cells & IH & Hl)]; [by exists []|].
    destruct (lookup_lt_is_Some_2 SPARK (level peak v)) as [c Hc]; [apply level_bounded|].
    exists (c :: cells). cbn. rewrite Hc. cbn. rewrite IH. by rewrite <-Hl. }
  eexists. split; [done|]. rewrite length_app, length_replicate, Hl. subst tail.
  rewrite length_drop. lia.
Qed.

(** ** The keys *)

Lemma tab_next_prev t : ∃ n, tab_next t = Ok n ∧ tab_prev n = Ok t.
Proof. destruct t; (eexists; split; reflexivity). Qed.

Lemma tab_prev_ok t : ∃ n, tab_prev t = Ok n.
Proof. destruct t; (eexists; reflexivity). Qed.

(** A machine word, and a selection that names a link if there is one. *)
Definition ui_ok (link_count : Z) (ui : Ui) : Prop :=
  0 ≤ log_scroll ui ≤ usize_max ∧ 0 ≤ link_selected ui ≤ sat_sub link_count 1.

(** Whatever key is pressed the viewer goes on or quits; before the views are
    drawn the selection is in range whatever the number of links became. *)
Lemma keys_handled ev link_count link_count' ui :
  0 ≤ link_count < 2 ^ 64 → 0 ≤ link_count' → ui_ok link_count ui →
  match app_turn ev link_count ui with
  | Ok (Some ui') => ui_ok link_count ui' ∧ ui_ok link_count' (before_draw link_count' ui')
  | Ok None => True
  | _ => False
  end.
Proof.
  intros Hc Hc' [Hs Hl].
  assert (∀ ui, ui_ok link_count ui →
    ui_ok link_count ui ∧ ui_ok link_count' (before_draw link_count' ui)) as Hdraw.
  { intros u [Hs1 Hl1]. split; [done|]. split; cbn; [done|]. unfold sat_sub in *. lia. }
  assert (∀ t, ui_ok link_count (set_tab t ui)) as Htab by (intros t; by split).
  destruct ev as [code control|]; [|by apply Hdraw]. cbn [app_turn].
  destruct (quits code control); [done|]. unfold usize_max, sat_sub in Hs, Hl.
  destruct code; cbn [handle_key].
  - destruct (tab_next_prev (tab ui)) as (n & -> & _). cbn. by apply Hdraw.
  - destruct (tab_prev_ok (tab ui)) as (n & ->). cbn. by apply Hdraw.
  - cbn. destruct (from_digit c); by apply Hdraw.
  - destruct (tab ui); cbn; apply Hdraw; split; cbn; unfold sat_sub, saturating_add, usize_max; lia.
  - destruct (tab ui); cbn; apply Hdraw; split; cbn; unfold wrap, sat_sub, saturating_add, usize_max;
      try lia. rewrite Z.mod_small by lia. lia.
  - destruct (tab ui); cbn; apply Hdraw; split; cbn; unfold sat_sub, usize_max; lia.
  - destruct (tab ui); cbn; apply Hdraw; split; cbn; unfold sat_sub, saturating_add, usize_max; lia.
  - destruct (tab ui); cbn; apply Hdraw; split; cbn; unfold sat_sub, saturating_add, usize_max; lia.
  - destruct (link_detail ui); [|done]. by apply Hdraw.
  - cbn. by apply Hdraw.
Qed.

(** ** The viewer follows the daemon *)

Definition newest {A} (n : nat) (l : list A) : list A := drop (length l - n) l.

(** The lines of a connection that carry these snapshots, read at these times. *)
Definition lines_of (ts : list Z) (snaps : list Snapshot) : list reader_event :=
  zip_with (λ t snap, GotLine t (Some snap)) ts snaps.

Lemma lines_ingested ts snaps r :
  reading r = true → length ts = length snaps →
  ∃ r', reader_run (lines_of ts snaps) r = Some r' ∧ reading r' = true ∧
    connected (shared r') = connected (shared r) ∧
    logs (shared r') =
      foldl (push_capped LOG_CAPACITY) (logs (shared r)) (concat (new_log_lines <$> snaps)) ∧
    events (shared r') =
      foldl (push_capped EVENT_CAPACITY) (events (shared r)) (concat (new_events <$> snaps)) ∧
    (snaps ≠ [] → snapshot (shared r') = last snaps ∧ last_update (shared r') = last ts).
Proof.
  revert snaps r. induction ts as [|t ts IH]; intros [|snap snaps] r Hr Hl; try done.
  { exists r. by split_and!. }
  injection Hl as Hl. cbn [lines_of zip_with reader_run reader_step]. rewrite Hr. cbn [mbind option_bind].
  destruct (IH snaps (mkReader (source r) true (ingest t snap (shared r)))) as
    (r' & Hrun & Hrd & Hc & Hlog & Hev & Hlast); [done|done|].
  exists r'. cbn [shared] in *. unfold ingest in *. destruct (tunnel_rates snap) as [tx rx].
  cbn [connected logs events] in *. rewrite !fmap_cons. cbn [concat]. rewrite !foldl_app.
  split_and!; try done. intros _. destruct snaps as [|snap' snaps].
  - destruct ts; [|done]. cbn in Hrun. injection Hrun as <-. done.
  - destruct ts as [|t' ts]; [done|]. by apply Hlast.
Qed.

Section viewer.
Context (addr_to_string : SocketAddr → string).

Lemma written_grows ops s :
  ∃ more, written (client (serve_run addr_to_string ops s)) = written (client s) ++ more.
Proof.
  revert s. induction ops as [|op ops IH]; intros s; [by exists []; rewrite app_nil_r|].
  change (serve_run addr_to_string (op :: ops) s)
    with (serve_run addr_to_string ops (serve_step addr_to_string op s)).
  destruct (IH (serve_step addr_to_string op s)) as [more ->]. destruct op; cbn; [eauto..|].
  rewrite <-app_assoc. eauto.
Qed.

Lemma written_first v ops s : written (client (serve_run addr_to_string (ServeTick v :: ops) s)) ≠ [].
Proof.
  change (serve_run addr_to_string (ServeTick v :: ops) s)
    with (serve_run addr_to_string ops (serve_step addr_to_string (ServeTick v) s)).
  destruct (written_grows ops (serve_step addr_to_string (ServeTick v) s)) as [more ->].
  cbn. by destruct (written (client s)).
Qed.

(** C36. A viewer that connects shows what the daemon has. However earlier
    connections ended, once it has read the snapshots of this one it holds the
    newest 2000 log lines and 500 events of those the daemon had when it
    connected or since, each once and in order, as long as no more than a ringful
    comes between two snapshots and no thread of the daemon overtakes another
    between taking a line's number and appending it. It shows the health the
    daemon gave last, for three seconds, and then, or once the connection ends,
    that it is disconnected. *)
Theorem viewer_follows r dir past_logs past_events v ops ts :
  reading r = false → is_Some (pick_path dir (source r) (shared r)).1 →
  in_order 0 (log_steps ops) → in_order 0 (event_steps ops) →
  paced LOG_RING_CAPACITY 0 (log_ops ops) → paced EVENT_RING_CAPACITY 0 (event_ops ops) →
  len past_logs + len (log_steps ops) + 2 < 2 ^ 64 →
  len past_events + len (event_steps ops) + 2 < 2 ^ 64 →
  let sent := written (client (serve_run addr_to_string (ServeTick v :: ops)
                                 (connected_to past_logs past_events))) in
  length ts = length sent →
  let bl := backlog LOG_RING_CAPACITY past_logs in
  let be := backlog EVENT_RING_CAPACITY past_events in
  ∃ r' snap t,
    reader_run (Attempt dir true :: lines_of ts sent) r = Some r' ∧
    last sent = Some snap ∧ last ts = Some t ∧
    logs (shared r') = newest LOG_CAPACITY
      (numbered (Z.of_nat bl + 1) (drop bl past_logs ++ polled [] (log_ops ops))) ∧
    events (shared r') = newest EVENT_CAPACITY
      (numbered (Z.of_nat be + 1) (drop be past_events ++ polled [] (event_ops ops))) ∧
    (∀ now h, health (telemetry (sn_daemon snap)) = Health_as_str h →
       let '(g, reason) := shown_health now (shared r') in
       if sat_sub now t <? STALE_AFTER
       then label g = Health_as_str h ∧ reason = health_reason (telemetry (sn_daemon snap))
       else g = Disconnected) ∧
    (∀ r'' now, reader_step Ended r' = Some r'' → (shown_health now (shared r'')).1 = Disconnected).
Proof.
  intros Hr [s Hpick] Ol Oe Pl Pe Bl Be sent Hts bl be.
  destruct (client_stream addr_to_string past_logs past_events v ops Ol Oe Pl Pe Bl Be) as [El Ee].
  assert (sent ≠ []) as Hne.
  { unfold sent. by apply written_first. }
  destruct (pick_path dir (source r) (shared r)) as [os src] eqn:Ep. cbn in Hpick. subst os.
  destruct (lines_ingested ts sent (mkReader src true (on_connect s))) as
    (r' & Hrun & Hrd & Hc & Hlog & Hev & Hlast); [done|done|].
  destruct (Hlast Hne) as [Hsnap Hup]. destruct (last_is_Some sent) as [_ Hs].
  destruct (Hs Hne) as [snap Esnap]. destruct (last_is_Some ts) as [_ Ht].
  destruct Ht as [t Et]; [by intros ->; apply Hne, nil_length_inv|].
  exists r', snap, t. split_and!; try done.
  - cbn [reader_run reader_step]. by rewrite Hr, Ep.
  - rewrite Hlog. cbn [shared on_connect logs].
    rewrite foldl_push_capped by (unfold LOG_CAPACITY; cbn [length]; lia).
    by rewrite (El : concat (new_log_lines <$> sent) = _).
  - rewrite Hev. cbn [shared on_connect events].
    rewrite foldl_push_capped by (unfold EVENT_CAPACITY; cbn [length]; lia).
    by rewrite (Ee : concat (new_events <$> sent) = _).
  - intros now h Hh. unfold shown_health, is_fresh. rewrite Hsnap, Esnap, Hup, Et, Hc. cbn [shared connected on_connect andb].
    destruct (sat_sub now t <? STALE_AFTER); [|done]. cbn [negb]. rewrite Hh. by destruct h.
  - intros r'' now He. cbn [reader_step] in He. rewrite Hrd in He. injection He as <-.
    unfold shown_health. cbn [shared set_connected snapshot is_fresh connected andb negb].
    by rewrite Hsnap, Esnap.
Qed.

End viewer.

Module tui_example.
Import snapshot_example.

(** A viewer that lost one connection and finds the next socket by itself. *)
Definition lost : Reader :=
  mkReader AutoDetect false
    (mkState None false (Some 0) [(7, line "old")] [] History_default None).
Definition run_files : option (list (option string)) :=
  Some [Some "vpn.command.sock"; None; Some "vpn.sock"].
Definition served : Served :=
  serve_run (λ _, "addr") (ServeTick view :: ops) (connected_to [line "a"; line "b"] []).
Definition first_read : Z := 10 * 1000000000.
Definition times : list Z := [first_read; first_read + 500000000].

Lemma viewer_follows_witness :
  ∃ r', reader_run (Attempt run_files true :: lines_of times (written (client served))) lost = Some r' ∧
    logs (shared r') = [(1, line "a"); (2, line "b"); (3, line "c"); (4, line "d")] ∧
    (shown_health (first_read + 3400000000) (shared r')).1 = Starting ∧
    (shown_health (first_read + 3500000000) (shared r')).1 = Disconnected.
Proof.
  destruct (viewer_follows (λ _, "addr") lost run_files [line "a"; line "b"] [] view ops times)
    as (r' & snap & t & Hrun & Hs & Ht & Hlog & _ & Hh & _);
    [reflexivity|vm_compute; eauto|vm_compute; split_and!; lia|vm_compute; lia
    |vm_compute; lia|vm_compute; lia|vm_compute; reflexivity
    |vm_compute; reflexivity|vm_compute; reflexivity|].
  exists r'. split; [exact Hrun|]. split; [exact Hlog|].
  injection Ht as <-. injection Hs as <-.
  split.
  - pose proof (Hh (first_read + 3400000000) Telemetry.Starting eq_refl) as H.
    destruct (shown_health _ _) as [g reason]. destruct H as [H _]. by destruct g.
  - pose proof (Hh (first_read + 3500000000) Telemetry.Starting eq_refl) as H.
    destruct (shown_health _ _) as [g reason]. exact H.
Defined.

(** The command socket is not taken for the one the viewer reads. *)
Example found_one : scan_auto_socket_dir run_files = Found "/run/mlvpn/vpn.sock".
Proof. reflexivity. Qed.
Example declined :
  resolve_socket_source (λ _, "") None (Some []) (Some ("inactive" +:+ String (Ascii.ascii_of_nat 10) ""))
    (inr "n") true (λ _, inr true)
  = (inl "no control socket found under /run/mlvpn; pass --socket explicitly, or start mlvpn.service yourself first", false).
Proof. vm_compute. reflexivity. Qed.
Example sparks : spark [f64.zero; f64.of_Z 5; f64.of_Z 10] 4 f64.zero = Ok [" "; "▁"; "▅"; "█"].
Proof. vm_compute. reflexivity. Qed.
Example half_bar : bar (f64.lit 1 2) 4 = Ok ["█"; "█"; "░"; "░"].
Proof. vm_compute. reflexivity. Qed.

End tui_example.
