(* ===== verification/TuiViews.v ===== *)
(** * The views of the terminal viewer ([src/bin/mlvpn-tui]: [theme.rs], [chrome.rs], [views])

    The text and the style of every line the viewer draws. Where the lines are
    put on the screen is up to a third-party library. The text of a float with a
    given number of decimals is a parameter. *)

From Stdlib Require Import SpecFloat.
From S2P Require Import Prelude Bytes F64 Text Events Telemetry Snapshot Diag Web Rounding Tui.

(** ** Characters ([str::chars] of UTF-8 text) *)

Definition continues (a : Ascii.ascii) : bool := (128 <=? code a) && (code a <? 192).
Fixpoint char_count (s : string) : nat :=
  match s with
  | EmptyString => 0
  | String a s => if continues a then char_count s else S (char_count s)
  end.
Fixpoint take_chars (n : nat) (s : string) : string :=
  match s with
  | EmptyString => EmptyString
  | String a r =>
      if continues a then String a (take_chars n r)
      else match n with O => EmptyString | S n => String a (take_chars n r) end
  end.

Definition blanks (n : nat) : string := cat (replicate n " ").
(** [{:<w$}] and [{:>w$}]. *)
Definition pad_right (w : nat) (s : string) : string := s +:+ blanks (w - char_count s).
Definition pad_left (w : nat) (s : string) : string := blanks (w - char_count s) +:+ s.

Definition truncate (s : string) (max_chars : nat) : string :=
  if bool_decide (char_count s ≤ max_chars)%nat then s
  else take_chars (max_chars - 1) s +:+ "…".

(** ** Styles *)

Record Style := mkStyle { fg : option Color; is_bold : bool; is_reversed : bool }.
Definition plain : Style := mkStyle None false false.
Definition in_color (c : Color) : Style := mkStyle (Some c) false false.

Definition COLOR_GOOD : Color := Green.
Definition COLOR_WARN : Color := Yellow.
Definition COLOR_BAD : Color := Red.
Definition COLOR_MUTED : Color := DarkGray.
Definition COLOR_ACCENT : Color := Cyan.

Definition muted : Style := in_color COLOR_MUTED.
Definition bold (c : Color) : Style := mkStyle (Some c) true false.

Definition state_symbol (state : string) : string :=
  if String.eqb state "up" then "●" else if String.eqb state "down" then "×" else "…".
Definition state_style (state : string) : Style :=
  if String.eqb state "up" then bold COLOR_GOOD
  else if String.eqb state "down" then bold COLOR_BAD else in_color COLOR_WARN.
Definition score_style (score : f64) : Style :=
  if (score <=? f64.zero)%f64 then muted
  else if (score <? f64.lit 1 2)%f64 then in_color COLOR_WARN else in_color COLOR_GOOD.
Definition loss_style (pct : option f64) : Style :=
  match pct with
  | None => muted
  | Some p =>
      if (p <=? f64.zero)%f64 then in_color COLOR_GOOD
      else if (p <? f64.of_Z 5)%f64 then in_color COLOR_WARN else in_color COLOR_BAD
  end.
Definition pct_used_style (pct : f64) : Style :=
  if (f64.of_Z 90 <=? pct)%f64 then in_color COLOR_BAD
  else if (f64.of_Z 70 <=? pct)%f64 then in_color COLOR_WARN else in_color COLOR_GOOD.
Definition counter_style (v : Z) (nonzero : Color) : Style := if 0 <? v then in_color nonzero else muted.
Definition event_style (severity : string) : Style :=
  if String.eqb severity "error" then bold COLOR_BAD
  else if String.eqb severity "warn" then in_color COLOR_WARN else plain.
Definition event_symbol (severity : string) : string :=
  if String.eqb severity "error" then "×" else if String.eqb severity "warn" then "!" else "·".

(** A span of text in one style, and a line of them. *)
Definition Span : Type := string * Style.
Definition Line : Type := list Span.
Definition raw (s : string) : Span := (s, plain).
Definition styled (s : string) (st : Style) : Span := (s, st).
Definition kv (label value : string) (st : Style) : Line := [styled (label +:+ ": ") muted; styled value st].

(** ** Numbers *)

Definition fmt_log_timestamp (unix_ts_ms : Z) : string :=
  let secs := unix_ts_ms / 1000 in
  pad2 ((secs / 3600) mod 24) +:+ ":" +:+ pad2 ((secs / 60) mod 60) +:+ ":" +:+ pad2 (secs mod 60).

Definition fmt_duration_secs (total_secs : Z) : string :=
  let d := total_secs / 86400 in
  let h := total_secs mod 86400 / 3600 in
  let m := total_secs mod 3600 / 60 in
  let s := total_secs mod 60 in
  if 0 <? d then z d +:+ "d" +:+ pad2 h +:+ "h"
  else if 0 <? h then z h +:+ "h" +:+ pad2 m +:+ "m"
  else if 0 <? m then z m +:+ "m" +:+ pad2 s +:+ "s"
  else z s +:+ "s".
Definition fmt_duration_ms (ms : Z) : string := fmt_duration_secs (ms / 1000).
Definition count_text (v : option Z) : string := match v with Some v => z v | None => "-" end.

Section views.
Context (fmt : nat → f64 → string).

Definition or_dash (f : f64 → string) (v : option f64) : string :=
  match v with Some v => f v | None => "-" end.
Definition fmt_ms : option f64 → string := or_dash (λ v, fmt 1%nat v +:+ "ms").
Definition fmt_pct : option f64 → string := or_dash (λ v, fmt 1%nat v +:+ "%").
Definition fmt_mbps : option f64 → string := or_dash (λ v, fmt 1%nat v +:+ "Mbps").
Definition fmt_load : option f64 → string := or_dash (fmt 2%nat).
Definition fmt_rate (mbps : f64) : string :=
  if (f64.of_Z 100 <=? mbps)%f64 then fmt 0%nat mbps +:+ " Mbps"
  else if (f64.one <=? mbps)%f64 then fmt 1%nat mbps +:+ " Mbps"
  else fmt 0%nat (mbps * f64.of_Z 1000)%f64 +:+ " kbps".
Definition fmt_us_as_ms (us : Z) : string := fmt 1%nat (f64.of_Z us / f64.of_Z 1000)%f64 +:+ " ms".

(** The loop over [UNITS] from the unit the value is in. *)
Fixpoint in_unit (value : f64) (unit : string) (larger : list string) : string :=
  match larger with
  | u :: us =>
      if (f64.of_Z 1024 <=? value)%f64 then in_unit (value / f64.of_Z 1024)%f64 u us
      else fmt 1%nat value +:+ unit
  | [] => fmt 1%nat value +:+ unit
  end.
Definition fmt_bytes (bytes : Z) : string :=
  let value := f64.of_Z bytes in
  if (f64.of_Z 1024 <=? value)%f64
  then in_unit (value / f64.of_Z 1024)%f64 "KB" ["MB"; "GB"; "TB"] else z bytes +:+ "B".
Definition fmt_bytes_opt (v : option Z) : string :=
  match v with Some v => fmt_bytes v | None => "-" end.

(** ** The frame ([chrome.rs], [views/mod.rs]) *)

Inductive Density := Compact | Normal.
Definition for_area (width height : Z) : Density :=
  if (width <? 80) || (height <? 20) then Compact else Normal.
Definition is_compact (d : Density) : bool := match d with Compact => true | Normal => false end.

Definition banner (now : Z) (s : SharedState) (hostname : string) (compact : bool) : Line :=
  let '(h, reason) := shown_health now s in
  [styled (symbol h +:+ " " +:+ label h) (bold (color h)); raw (" - " +:+ reason)]
  ++ (if compact then []
      else [styled
        match snapshot s with
        | Some snap =>
            let secs := tunnel_uptime_secs (telemetry (sn_daemon snap)) in
            "   " +:+ hostname +:+ " · tunnel '" +:+ sn_tunnel_name snap +:+ "' (" +:+ sn_mode snap
            +:+ ")" +:+ (if 0 <? secs then " · up " +:+ fmt_duration_secs secs else "")
        | None => "   " +:+ hostname
        end muted]).

Definition tab_bar (active : Tab) (compact : bool) : Line :=
  imap (λ i t, styled (" " +:+ z (Z.of_nat i + 1) +:+ " " +:+ (if compact then short_title t else title t)
                       +:+ " ")
                 (if decide (t = active) then mkStyle (Some COLOR_ACCENT) true true else muted)) ALL.

Definition hints (t : Tab) (compact : bool) : string :=
  if compact then "Tab/1-6 · q quit"
  else match t with
       | Links => "↑↓ select · Enter detail · Tab/1-6 views · q quit"
       | Debug => "↑↓/PgUp/PgDn scroll logs · Tab/1-6 views · q quit"
       | _ => "Tab/Shift-Tab or 1-6 switch views · q quit"
       end.
Definition age (now : Z) (t : Z) : string := fmt 1%nat (f64.as_secs_f64 (sat_sub now t)).
Definition footer (now : Z) (s : SharedState) (t : Tab) (compact : bool) : Line :=
  let conn := if connected s
              then match last_update s with
                   | Some u => "live (" +:+ age now u +:+ "s)"
                   | None => "connected"
                   end
              else "disconnected" in
  [styled (hints t compact) muted; raw "  ";
   styled conn (in_color (if is_fresh now s then COLOR_GOOD else COLOR_BAD));
   styled match socket_path s with
          | Some p => if compact then "" else "  " +:+ p
          | None => ""
          end muted].

(** ** Events and logs ([theme.rs], [views/overview.rs], [views/debug.rs]) *)

Definition event_line (e : EventRecord) : Line :=
  let st := event_style (er_severity e) in
  [styled (fmt_log_timestamp (er_unix_ts_ms e)) muted; raw " ";
   styled (event_symbol (er_severity e)) st; raw " "; styled (pad_right 20 (er_kind e)) st]
  ++ match er_link e with Some l => [styled (" " +:+ l) (in_color COLOR_ACCENT)] | None => [] end
  ++ [raw ("  " +:+ er_message e)].

(** The rows a list has in an area. *)
Definition visible_rows (height : Z) (d : Density) : Z :=
  match d with Compact => height | Normal => sat_sub height 2 end.

Definition recent_events (height : Z) (d : Density) (s : SharedState) : list Line :=
  match events s with
  | [] => [[styled "no events yet" muted]]
  | es => (λ e : Z * EventRecord, event_line e.2) <$> take (Z.to_nat (visible_rows height d)) (reverse es)
  end.

Definition log_line (e : LogEntry) : Line :=
  [styled (fmt_log_timestamp (log_unix_ts_ms e)) muted; raw " ";
   styled (pad_right 5 (log_level e))
     (if String.eqb (log_level e) "ERROR" then bold COLOR_BAD
      else if String.eqb (log_level e) "WARN" then in_color COLOR_WARN else plain);
   raw " "; styled (pad_right 24 (truncate (default "-" (log_target e)) 24)) muted;
   raw " "; raw (log_message e)].

(** [VecDeque::range], a panic out of range. *)
Definition range {A} (start stop : Z) (l : list A) : outcome (list A) :=
  if (start <=? stop) && (stop <=? len l)
  then Ok (take (Z.to_nat (stop - start)) (drop (Z.to_nat start) l)) else Panic.
Definition visible_logs (height : Z) (d : Density) (ui : Ui) (s : SharedState)
    : outcome (list (Z * LogEntry)) :=
  let total := len (logs s) in
  let stop := sat_sub total (Z.min (log_scroll ui) total) in
  range (sat_sub stop (visible_rows height d)) stop (logs s).
Definition logs_view (height : Z) (d : Density) (ui : Ui) (s : SharedState) : outcome (string * list Line) :=
  shown ← visible_logs height d ui s;
  Ok (if log_scroll ui =? 0 then "Logs"
      else "Logs (scrolled up " +:+ z (log_scroll ui) +:+ " -- Down/PgDn to follow)",
      map (λ e : Z * LogEntry, log_line e.2) shown).

Definition connection_lines (now : Z) (s : SharedState) : list Line :=
  [kv "Socket" (default "(searching under /run/mlvpn)" (socket_path s)) plain;
   kv "Connection" (if connected s then "open" else "closed, retrying")
     (in_color (if connected s then COLOR_GOOD else COLOR_BAD));
   kv "Last snapshot" match last_update s with Some t => age now t +:+ "s ago" | None => "never" end plain;
   kv "Tunnel" match snapshot s with
               | Some n => "'" +:+ sn_tunnel_name n +:+ "' (" +:+ sn_mode n +:+ ")"
               | None => "-"
               end plain;
   kv "Buffered" (z (len (events s)) +:+ " events, " +:+ z (len (logs s)) +:+ " log lines") muted].

(** ** Links ([views/links.rs]) *)

Inductive Col :=
  | ColLink | ColState | ColRole | ColUpFor | ColRtt | ColJitter | ColLoss | ColRx | ColTx
  | ColScore | ColFlags.
#[export] Instance Col_eq_dec : EqDecision Col.
Proof. solve_decision. Defined.

Definition columns (width : Z) : list Col :=
  if 110 <=? width then
    [ColLink; ColState; ColRole; ColUpFor; ColRtt; ColJitter; ColLoss; ColRx; ColTx; ColScore; ColFlags]
  else if 80 <=? width then [ColLink; ColState; ColRole; ColRtt; ColLoss; ColRx; ColTx; ColFlags]
  else if 50 <=? width then [ColLink; ColState; ColRtt; ColLoss; ColTx; ColFlags]
  else [ColLink; ColState; ColLoss].

Definition header (c : Col) : string :=
  match c with
  | ColLink => "Link" | ColState => "State" | ColRole => "Role" | ColUpFor => "For" | ColRtt => "RTT"
  | ColJitter => "Jitter" | ColLoss => "Loss" | ColRx => "Rx" | ColTx => "Tx" | ColScore => "Score"
  | ColFlags => "Flags"
  end.

Definition role (l : LinkSnapshot) (any_primary : bool) : Span :=
  if ln_is_primary l then styled "Primary" (bold COLOR_GOOD)
  else if any_primary then styled "Failover" muted
  else if is_up l then styled "Bonded" (in_color COLOR_ACCENT)
  else raw "".

Definition errs (l : LinkSnapshot) : bool :=
  (0 <? tx_send_failed_total l) || (0 <? wg_rejected_total l) || (0 <? wg_substituted_total l).
Definition flags (l : LinkSnapshot) : Span :=
  let out := (if degraded l then ["DEG"] else [])
             ++ (if 0 <? tx_queue_full_total l then ["QF"] else [])
             ++ (if errs l then ["ERR"] else []) in
  match out with
  | [] => styled "-" muted
  | _ => styled (String.concat " " out) (in_color (if errs l then COLOR_BAD else COLOR_WARN))
  end.

Definition cell (c : Col) (l : LinkSnapshot) (any_primary : bool) : Span :=
  match c with
  | ColLink => raw (ln_name l)
  | ColState => styled (state_symbol (ln_state l) +:+ " " +:+ ln_state l) (state_style (ln_state l))
  | ColRole => role l any_primary
  | ColUpFor => raw (fmt_duration_ms (ln_state_duration_ms l))
  | ColRtt => raw (fmt_ms (local_rtt_ms l))
  | ColJitter => raw (fmt_ms (local_jitter_ms l))
  | ColLoss => styled (fmt_pct (local_loss_pct l)) (loss_style (local_loss_pct l))
  | ColRx => raw (fmt_mbps (local_rx_throughput_mbps l))
  | ColTx => raw (fmt_mbps (local_tx_throughput_mbps l))
  | ColScore => styled (fmt 2%nat (ln_score l)) (score_style (ln_score l))
  | ColFlags => flags l
  end.

(** The header and the rows of the table, each with whether it is selected. *)
Definition table (width : Z) (snap : Snapshot) (selected : option Z) : list string * list (list Span * bool) :=
  let cols := columns width in
  let any_primary := existsb ln_is_primary (sn_links snap) in
  (header <$> cols,
   imap (λ i l, ((λ c, cell c l any_primary) <$> cols, bool_decide (selected = Some (Z.of_nat i))))
     (sn_links snap)).

(** A [u16]. *)
Definition table_height (snap : Snapshot) (d : Density) : Z :=
  let rows := wrap 16 (len (sn_links snap) + 1) in
  match d with Normal => wrap 16 (rows + 2) | Compact => rows end.

Definition section_line (name : string) : Line := [styled name (bold COLOR_ACCENT)].
Definition counter (label : string) (v : Z) (nonzero : Color) : Span :=
  styled (label +:+ " " +:+ z v) (counter_style v nonzero).

Definition peer_lines (l : LinkSnapshot) : list Line :=
  match peer_rtt_ms l, Snapshot.peer_name l with
  | None, None => [[styled "(no StatsShare received yet)" muted]]
  | _, _ =>
      let stale := match peer_stats_age_ms l with Some a => 5000 <? a | None => true end in
      let base := if stale then muted else plain in
      let age := match peer_stats_age_ms l with
                 | Some a => "   [" +:+ fmt 1%nat (f64.of_Z a / f64.of_Z 1000)%f64 +:+ "s ago]"
                 | None => ""
                 end in
      [[styled ("rtt " +:+ fmt_ms (peer_rtt_ms l) +:+ "  jitter " +:+ fmt_ms (peer_jitter_ms l)
                +:+ "  loss ") base;
        styled (fmt_pct (peer_loss_pct l)) (if stale then base else loss_style (peer_loss_pct l));
        styled ("   " +:+ fmt_mbps (peer_throughput_mbps l) +:+ age) base]]
  end.

Definition detail_lines (l : LinkSnapshot) : list Line :=
  [[styled (state_symbol (ln_state l) +:+ " " +:+ ln_state l) (state_style (ln_state l));
    raw (" for " +:+ fmt_duration_ms (ln_state_duration_ms l) +:+ "   iface " +:+ ln_bind_interface l
         +:+ "   local port " +:+ z (ln_local_port l) +:+ "   remote " +:+ default "-" (ln_remote_addr l))];
   [raw ("role " +:+ (if ln_is_primary l then "Primary" else (role l false).1) +:+ "   score "
         +:+ fmt 2%nat (ln_score l) +:+ "   congestion share x" +:+ fmt 2%nat (congestion_factor l)
         +:+ (if degraded l then "   DEGRADED" else ""))];
   [raw ""];
   section_line "This side";
   [raw ("rtt " +:+ fmt_ms (local_rtt_ms l) +:+ "  jitter " +:+ fmt_ms (local_jitter_ms l) +:+ "  loss ");
    styled (fmt_pct (local_loss_pct l)) (loss_style (local_loss_pct l));
    raw ("   rx " +:+ fmt_mbps (local_rx_throughput_mbps l) +:+ "  tx "
         +:+ fmt_mbps (local_tx_throughput_mbps l))];
   [match local_active_bandwidth_mbps l with
    | None => styled "probe: off, or no result yet" muted
    | Some a => raw ("probe: " +:+ fmt_mbps (Some a) +:+ " (confirmed ceiling "
                     +:+ fmt_mbps (local_confirmed_ceiling_mbps l) +:+ ")")
    end];
   section_line "Peer's view"]
  ++ peer_lines l
  ++ [section_line "Totals";
      [raw ("tx " +:+ fmt_bytes (ln_tx_bytes l) +:+ " (" +:+ z (ln_tx_packets l) +:+ " pkts)   rx "
            +:+ fmt_bytes (ln_rx_bytes l) +:+ " (" +:+ z (ln_rx_packets l) +:+ " pkts)")];
      section_line "Send queue";
      [raw ("depth " +:+ z (tx_queue_depth l) +:+ "   delay " +:+ fmt_us_as_ms (tx_queue_delay_us l)
            +:+ " (max " +:+ fmt_us_as_ms (tx_queue_delay_max_us l) +:+ ")   send wait "
            +:+ fmt_us_as_ms (tx_send_wait_us l))];
      section_line "Errors";
      [counter "queue full" (tx_queue_full_total l) COLOR_WARN; raw "   ";
       counter "send failed" (tx_send_failed_total l) COLOR_BAD; raw "   ";
       counter "rerouted away" (tx_rerouted_total l) COLOR_WARN];
      [counter "wg rejected" (wg_rejected_total l) COLOR_BAD; raw "   ";
       counter "wg substituted" (wg_substituted_total l) COLOR_BAD]].

(** What the Links view shows: the table with its selected row, the lines of the
    selected link, or both. *)
Definition links_view (width height : Z) (snap : Snapshot) (ui : Ui) (d : Density)
    : outcome (option (list string * list (list Span * bool)) * option (list Line)) :=
  match sn_links snap with
  | [] => Ok (None, Some [[styled "waiting for data..." muted]])
  | ls =>
      let sel := Z.min (link_selected ui) (len ls - 1) in
      if negb (link_detail ui) then Ok (Some (table width snap (Some sel)), None)
      else
        l ← match ls !! Z.to_nat sel with Some l => Ok l | None => Panic end;
        if height <? wrap 16 (table_height snap d + 12) then Ok (None, Some (detail_lines l))
        else Ok (Some (table width snap (Some sel)), Some (detail_lines l))
  end.

(** ** Overview and Reliability *)

Definition fec_summary (snap : Snapshot) : string :=
  let fec := snap_fec (telemetry (sn_daemon snap)) in
  if negb (fs_enabled fec) then "off"
  else (if 2 <=? fs_parity fec then "P+Q" else "XOR") +:+ " 1-in-" +:+ z (fs_group_size fec) +:+ " ("
       +:+ fs_placement fec +:+ ")".

Definition or_dash_text (s : string) : string := if String.eqb s "" then "-" else s.

Definition tunnel_lines (snap : Snapshot) : list Line :=
  let t := telemetry (sn_daemon snap) in
  let '(tx, rx) := tunnel_rates snap in
  [kv "Links up" (z (len (List.filter is_up (sn_links snap))) +:+ " of " +:+ z (len (sn_links snap))) plain;
   kv "Scheduler" (or_dash_text (snap_mode t)) plain;
   kv "Tx / Rx" (fmt_rate tx +:+ " / " +:+ fmt_rate rx) plain;
   kv "MTU" (z (local_tunnel_mtu (sn_daemon snap))) plain;
   kv "Uptime" (if String.eqb (health t) "" then "-" else fmt_duration_secs (tunnel_uptime_secs t)) plain;
   kv "Version" (local_version (sn_daemon snap)) plain].

Definition count (label : string) (v : Z) (nonzero : Color) : Line :=
  kv label (z v) (counter_style v nonzero).

Definition reliability_lines (snap : Snapshot) : list Line :=
  let d := sn_daemon snap in
  let t := telemetry d in
  [kv "FEC" (fec_summary snap) plain;
   count "FEC recovered" (d_fec_recovered_total d) COLOR_GOOD;
   count "FEC unrecoverable" (d_fec_unrecoverable_total d) COLOR_BAD;
   kv "Reorder depth" (z (rs_depth (snap_reorder t)) +:+ " (peak " +:+ z (rs_max_depth (snap_reorder t))
                       +:+ ")") plain;
   count "Late frames" (rs_late_total (snap_reorder t)) COLOR_WARN;
   count "Drops" (wrap 64 (outbound_queue_dropped_total d + rx_pipeline_dropped_total t)) COLOR_BAD].

Definition fec_lines (snap : Snapshot) : list Line :=
  let d := sn_daemon snap in
  [kv "Mode" (fec_summary snap) plain;
   count "Groups sent" (fec_groups_sent_total d) COLOR_ACCENT;
   [styled "Parity sent: " muted;
    raw ("P " +:+ z (fec_parity_p_sent_total d) +:+ "   Q " +:+ z (fec_parity_q_sent_total d))];
   count "Recovered (rx)" (d_fec_recovered_total d) COLOR_GOOD;
   count "Unrecoverable" (d_fec_unrecoverable_total d) COLOR_BAD].

Definition reorder_lines (snap : Snapshot) : list Line :=
  let r := snap_reorder (telemetry (sn_daemon snap)) in
  [kv "Window" (z (rs_window_ms r) +:+ " ms") plain;
   kv "Depth now / peak" (z (rs_depth r) +:+ " / " +:+ z (rs_max_depth r)) plain;
   kv "Wait recent / max" (fmt_us_as_ms (rs_wait_recent_us r) +:+ " / " +:+ fmt_us_as_ms (rs_wait_max_us r))
     plain;
   count "Late frames" (rs_late_total r) COLOR_WARN;
   count "Duplicates" (rs_duplicate_total r) COLOR_WARN;
   count "Timed out" (rs_timeout_total r) COLOR_WARN].

Definition some_or_0 (v : option Z) : Z := default 0 v.
Definition drop_lines (snap : Snapshot) : list Line :=
  let d := sn_daemon snap in
  let t := telemetry d in
  [count "Outbound queue drops" (outbound_queue_dropped_total d) COLOR_BAD;
   count "Rx pipeline drops" (rx_pipeline_dropped_total t) COLOR_BAD;
   count "TUN drops" (sum_u64 [some_or_0 (ts_rx_dropped (d_tun d)); some_or_0 (ts_tx_dropped (d_tun d))])
     COLOR_BAD;
   count "TUN errors" (sum_u64 [some_or_0 (ts_rx_errors (d_tun d)); some_or_0 (ts_tx_errors (d_tun d))])
     COLOR_BAD;
   count "Link tx queue full" (sum_u64 (tx_queue_full_total <$> sn_links snap)) COLOR_WARN;
   count "Link send failures" (sum_u64 (tx_send_failed_total <$> sn_links snap)) COLOR_BAD;
   count "WireGuard rejected" (d_wg_rejected_total d) COLOR_BAD;
   count "WireGuard substituted" (d_wg_substituted_total d) COLOR_BAD;
   count "Rerouted frames" (reroutes_total t) COLOR_WARN].

(** ** System ([views/system.rs]) *)

Definition host_lines (d : DaemonSnapshot) : outcome (list Line) :=
  let s := d_system d in
  mem ← match mem_total_kb s, mem_available_kb s with
        | Some total, Some avail =>
            if 0 <? total then
              let used := sat_sub total avail in
              let pct := (f64.of_Z used / f64.of_Z total * f64.of_Z 100)%f64 in
              cells ← bar (pct / f64.of_Z 100)%f64 10;
              Ok [styled "Memory: " muted;
                  raw (fmt_bytes (wrap 64 (used * 1024)) +:+ " / " +:+ fmt_bytes (wrap 64 (total * 1024))
                       +:+ " ");
                  styled (fmt 0%nat pct +:+ "% ") (pct_used_style pct);
                  styled (cat cells) (pct_used_style pct)]
            else Ok (kv "Memory" "-" muted)
        | _, _ => Ok (kv "Memory" "-" muted)
        end;
  Ok [kv "Load" (fmt_load (load1 s) +:+ " " +:+ fmt_load (load5 s) +:+ " " +:+ fmt_load (load15 s)) plain;
      mem;
      kv "Uptime" match sys_uptime_secs s with Some u => fmt_duration_secs u | None => "-" end plain].

Definition process_lines (d : DaemonSnapshot) : list Line :=
  let t := telemetry d in
  [kv "CPU" (fmt_pct (snap_cpu_pct t)) plain;
   kv "Resident memory" (fmt_bytes_opt ((λ k, wrap 64 (k * 1024)) <$> snap_rss_kb t)) plain;
   kv "Threads" (count_text (snap_threads t)) plain;
   kv "Open files" (count_text (snap_open_fds t)) plain].

Definition tun_lines (d : DaemonSnapshot) : list Line :=
  let t := d_tun d in
  let bad := sum_u64 (some_or_0 <$> [ts_rx_errors t; ts_tx_errors t; ts_rx_dropped t; ts_tx_dropped t]) in
  [kv "Interface" (iface t) plain;
   kv "Rx / Tx" (fmt_bytes_opt (ts_rx_bytes t) +:+ " / " +:+ fmt_bytes_opt (ts_tx_bytes t)) plain;
   kv "Errors rx/tx" (count_text (ts_rx_errors t) +:+ " / " +:+ count_text (ts_tx_errors t))
     (counter_style bad COLOR_BAD);
   kv "Dropped rx/tx" (count_text (ts_rx_dropped t) +:+ " / " +:+ count_text (ts_tx_dropped t))
     (counter_style bad COLOR_BAD)].

Definition queue_lines (d : DaemonSnapshot) : outcome (list Line) :=
  let ratio := if 0 <? outbound_queue_capacity d
               then (f64.of_Z (outbound_queue_len d) / f64.of_Z (outbound_queue_capacity d))%f64
               else f64.zero in
  let st := in_color (if (f64.lit 75 100 <? ratio)%f64 then COLOR_BAD
                      else if (f64.lit 25 100 <? ratio)%f64 then COLOR_WARN else COLOR_GOOD) in
  cells ← bar ratio 12;
  Ok [[styled "Fill: " muted; styled (cat cells) st;
       raw (" " +:+ z (outbound_queue_len d) +:+ " / " +:+ z (outbound_queue_capacity d))];
      count "Dropped (lifetime)" (outbound_queue_dropped_total d) COLOR_BAD].

Definition version_line (d : DaemonSnapshot) : Line :=
  [styled "Version: " muted; raw (local_version d)]
  ++ match Snapshot.peer_version d with
     | Some p =>
         if String.eqb p (local_version d) then [styled " (peer matches)" muted]
         else [raw "   Peer: "; styled (p +:+ " (MISMATCH)") (in_color COLOR_BAD)]
     | None => [styled "   Peer: unknown" muted]
     end.

Definition mtu_line (d : DaemonSnapshot) : Line :=
  [styled "Tunnel MTU: " muted; raw (z (local_tunnel_mtu d))]
  ++ match peer_applied_tunnel_mtu d, peer_tunnel_mtu d with
     | Some applied, _ =>
         if applied =? local_tunnel_mtu d then [styled " (peer matches)" muted]
         else [raw "   Peer applied: "; styled (z applied +:+ " (not converged)") (in_color COLOR_BAD)]
     | None, Some cap =>
         if cap <? local_tunnel_mtu d then
           [raw "   Peer capability: "; styled (z cap +:+ " (not converged)") (in_color COLOR_BAD)]
         else [styled ("   Peer capability: " +:+ z cap) muted]
     | None, None => [styled "   Peer: unknown" muted]
     end.

(** ** Traffic ([views/traffic.rs]) *)

(** A bar and a blank, where there is room for one. *)
Definition bar_span (ratio : f64) (width : nat) (c : Color) : outcome Line :=
  if bool_decide (0 < width)%nat
  then cells ← bar ratio width; Ok [styled (cat cells +:+ " ") (in_color c)] else Ok [].

Definition rate_line (label : string) (now scale : f64) (bar_w spark_w : nat) (hist : list f64) (c : Color)
    : outcome Line :=
  b ← bar_span (now / scale)%f64 bar_w c;
  s ← (if bool_decide (0 < spark_w)%nat
       then cells ← spark hist spark_w scale; Ok [styled (cat cells) muted] else Ok []);
  Ok ([styled (label +:+ " ") (bold c); raw (pad_left 11 (fmt_rate now) +:+ " ")] ++ b ++ s).

Definition inner_width (width : Z) (compact : bool) : Z := if compact then width else sat_sub width 2.

Definition tunnel_rate_lines (width : Z) (compact : bool) (s : SharedState) (snap : Snapshot)
    : outcome (list Line) :=
  let '(tx, rx) := tunnel_rates snap in
  let tx_hist := tunnel_tx (history s) in
  let rx_hist := tunnel_rx (history s) in
  let scale := f64.max (foldl f64.max (f64.max tx rx) (tx_hist ++ rx_hist)) f64.one in
  let room := sat_sub (inner_width width compact) (3 + 1 + 12 + 2) in
  let bar_w := Z.min (room / 2) 30 in
  let spark_w := Z.min (sat_sub room bar_w) 60 in
  l1 ← rate_line "Tx" tx scale (Z.to_nat bar_w) (Z.to_nat spark_w) tx_hist COLOR_ACCENT;
  l2 ← rate_line "Rx" rx scale (Z.to_nat bar_w) (Z.to_nat spark_w) rx_hist COLOR_GOOD;
  Ok [l1; l2].

Section link_rates.
Context (inner_w : Z) (compact : bool) (s : SharedState) (snap : Snapshot).

Definition total_tx : f64 :=
  foldl f64.add f64.zero
    ((λ l, or_zero (local_tx_throughput_mbps l)) <$> List.filter is_up (sn_links snap)).
Definition link_scale : f64 :=
  foldl (λ m l, f64.max (f64.max m (or_zero (local_tx_throughput_mbps l)))
                  (or_zero (local_rx_throughput_mbps l))) f64.one (sn_links snap).
Definition name_width : nat :=
  match (λ l, char_count (ln_name l)) <$> sn_links snap with
  | [] => 4
  | ws => (foldr Nat.max 0 ws `max` 4) `min` 14
  end%nat.
Definition link_bar : nat :=
  if compact then 0%nat
  else
    let lroom := sat_sub inner_w (Z.of_nat name_width + 2 + 2 * (3 + 12) + 13) in
    Z.to_nat (Z.min (sat_sub (lroom / 2) 1) 20).

Definition link_rate_lines (l : LinkSnapshot) : outcome (list Line) :=
  let ltx := or_zero (local_tx_throughput_mbps l) in
  let lrx := or_zero (local_rx_throughput_mbps l) in
  let share := if is_up l && (f64.zero <? total_tx)%f64
               then pad_left 3 (fmt 0%nat (ltx / total_tx * f64.of_Z 100)%f64) +:+ "%" else "  - " in
  b1 ← bar_span (ltx / link_scale)%f64 link_bar COLOR_ACCENT;
  b2 ← bar_span (lrx / link_scale)%f64 link_bar COLOR_GOOD;
  let first := [styled (state_symbol (ln_state l) +:+ " ") (state_style (ln_state l));
                raw (pad_right name_width (truncate (ln_name l) name_width) +:+ " ");
                styled "Tx " muted; raw (pad_left 11 (fmt_rate ltx) +:+ " ")]
               ++ b1 ++ [styled "Rx " muted; raw (pad_left 11 (fmt_rate lrx) +:+ " ")] ++ b2
               ++ [styled ("tx share " +:+ share) muted] in
  match (if compact then None else link_total (history s) !! ln_name l) with
  | Some h =>
      let w := Z.to_nat (Z.min (sat_sub inner_w (Z.of_nat name_width + 4)) 60) in
      cells ← spark h w f64.zero;
      Ok [first; [raw (blanks (name_width + 3)); styled (cat cells) muted]]
  | None => Ok [first]
  end.

Definition all_link_lines : outcome (list Line) :=
  rows ← mapM link_rate_lines (sn_links snap);
  Ok match mjoin rows with [] => [[styled "no links" muted]] | ls => ls end.
End link_rates.

(** ** The body ([draw_body]) *)

(** The lines of each panel of the view that is on, with its title, in a body of
    that size whose panels of events and of log lines have heights the layout
    gives them. The Links view and the table of the Overview are [links_view]
    and [table]. *)
Definition body_panels (now width height events_h logs_h : Z) (s : SharedState) (ui : Ui) (d : Density)
    : outcome (list (string * list Line)) :=
  let compact := is_compact d in
  match tab ui, snapshot s with
  | Debug, _ =>
      logs ← logs_view logs_h d ui s;
      Ok (if compact then [logs]
          else [("Connection", connection_lines now s); ("Recent events", recent_events events_h d s); logs])
  | t, None => Ok [(title t, [[styled "waiting for data..." muted]])]
  | Overview, Some snap =>
      Ok (if compact then [("Recent events", recent_events events_h d s)]
          else [("Tunnel", tunnel_lines snap); ("Reliability", reliability_lines snap);
                ("Recent events", recent_events events_h d s)])
  | Links, Some snap =>
      '(_, detail) ← links_view width height snap ui d;
      Ok match detail with Some ls => [("Link", ls)] | None => [] end
  | Traffic, Some snap =>
      tunnel ← tunnel_rate_lines width compact s snap;
      links ← all_link_lines (inner_width width compact) compact s snap;
      Ok [("Tunnel (last minute)", tunnel); ("Links", links)]
  | Reliability, Some snap =>
      Ok [("FEC", fec_lines snap); ("Reorder buffer", reorder_lines snap);
          ("Drops and errors", drop_lines snap)]
  | System, Some snap =>
      host ← host_lines (sn_daemon snap);
      queue ← queue_lines (sn_daemon snap);
      Ok [("Host", host); ("Daemon process", process_lines (sn_daemon snap));
          ("TUN interface", tun_lines (sn_daemon snap));
          ("Outbound queue and session",
           queue ++ [version_line (sn_daemon snap); mtu_line (sn_daemon snap)])]
  end.

(** ** Every view can be drawn *)

Lemma bar_span_total x y width c :
  Z.of_nat width < 2 ^ 53 → ∃ sp, bar_span (x / y)%f64 width c = Ok sp.
Proof.
  intros Hw. unfold bar_span. case_bool_decide; [|eauto].
  destruct (bar_total (x / y)%f64 width) as (cells & -> & _); [apply div_wf|done|]. cbn. eauto.
Qed.

Lemma rate_line_total label now scale bar_w spark_w hist c :
  Z.of_nat bar_w < 2 ^ 53 → ∃ l, rate_line label now scale bar_w spark_w hist c = Ok l.
Proof.
  intros Hw. unfold rate_line. destruct (bar_span_total now scale bar_w c Hw) as [b ->]. cbn.
  case_bool_decide; cbn; [|eauto].
  destruct (spark_total hist spark_w scale) as (cells & -> & _). cbn. eauto.
Qed.

Lemma tunnel_rate_lines_total width compact s snap :
  ∃ ls, tunnel_rate_lines width compact s snap = Ok ls.
Proof.
  unfold tunnel_rate_lines. destruct (tunnel_rates snap) as [tx rx].
  do 2 (edestruct rate_line_total as [? ->]; [lia|cbn]). eauto.
Qed.

Lemma link_rate_lines_total inner_w compact s snap l :
  ∃ ls, link_rate_lines inner_w compact s snap l = Ok ls.
Proof.
  unfold link_rate_lines.
  assert (Z.of_nat (link_bar inner_w compact snap) < 2 ^ 53) as Hb
    by (unfold link_bar; destruct compact; lia).
  do 2 (edestruct bar_span_total as [? ->]; [exact Hb|cbn]).
  destruct (if compact then None else _) as [h|]; [|eauto].
  edestruct spark_total as (? & -> & _). cbn. eauto.
Qed.

Lemma all_link_lines_total inner_w compact s snap :
  ∃ ls, all_link_lines inner_w compact s snap = Ok ls.
Proof.
  unfold all_link_lines.
  assert (∀ ls, ∃ rows, mapM (link_rate_lines inner_w compact s snap) ls = Ok rows) as Hm.
  { induction ls as [|l ls [rows IH]]; [by exists []|]. cbn.
    destruct (link_rate_lines_total inner_w compact s snap l) as [row ->]. cbn. rewrite IH. cbn. eauto. }
  destruct (Hm (sn_links snap)) as [rows ->]. cbn. eauto.
Qed.

Lemma host_lines_total d : ∃ ls, host_lines d = Ok ls.
Proof.
  unfold host_lines.
  destruct (mem_total_kb (d_system d)) as [total|], (mem_available_kb (d_system d)) as [avail|];
    cbn [mbind outcome_bind]; try (eexists; reflexivity).
  destruct (0 <? total); cbn [mbind outcome_bind]; [|eexists; reflexivity].
  edestruct bar_total as (? & -> & _); [apply div_wf|lia|]. eexists. reflexivity.
Qed.

Lemma queue_lines_total d : ∃ ls, queue_lines d = Ok ls.
Proof.
  unfold queue_lines. set (ratio := if 0 <? _ then _ else _).
  assert (wf ratio = true) as Hw by (subst ratio; case_match; [apply div_wf|done]).
  destruct (bar_total ratio 12 Hw) as (cells & -> & _); [lia|]. cbn. eauto.
Qed.

(** The log lines on the screen are the ones that end [log_scroll] lines before
    the newest, as many as there are rows and lines for. *)
Lemma visible_logs_spec height d ui s :
  0 ≤ height → 0 ≤ log_scroll ui →
  let rows := Z.to_nat (visible_rows height d) in
  let upto := take (length (logs s) - Z.to_nat (log_scroll ui)) (logs s) in
  visible_logs height d ui s = Ok (drop (length upto - rows) upto).
Proof.
  intros Hh Hs rows upto. unfold visible_logs, range.
  assert (0 ≤ visible_rows height d) as Hr by (unfold visible_rows, sat_sub; destruct d; lia).
  assert (length upto = length (logs s) - Z.to_nat (log_scroll ui))%nat as Hu
    by (unfold upto; rewrite length_take; lia).
  unfold sat_sub, len. rewrite (proj2 (andb_true_iff _ _)) by (split; apply Z.leb_le; lia).
  rewrite Hu. unfold upto. f_equal. rewrite skipn_firstn_comm. f_equal; [lia|]. f_equal. lia.
Qed.

(** Every view can be drawn at every size, whatever the daemon sent and whatever
    keys were pressed: no index, slice or repetition on the way panics. *)
Theorem every_view_renders now width height events_h logs_h s ui d :
  0 ≤ logs_h → 0 ≤ log_scroll ui → 0 ≤ link_selected ui →
  ∃ panels, body_panels now width height events_h logs_h s ui d = Ok panels.
Proof.
  intros Hh Hs Hl. unfold body_panels. destruct (tab ui), (snapshot s) as [snap|]; try (cbn; by eauto).
  - unfold links_view. destruct (sn_links snap) as [|l ls] eqn:El; cbn; [eauto|].
    destruct (negb (link_detail ui)); cbn; [eauto|].
    destruct (lookup_lt_is_Some_2 (l :: ls) (Z.to_nat (Z.min (link_selected ui) (len (l :: ls) - 1))))
      as [x Hx]; [unfold len; cbn [length]; lia|].
    rewrite Hx. cbn. case_match; cbn; eauto.
  - destruct (tunnel_rate_lines_total width (is_compact d) s snap) as [? ->]. cbn.
    destruct (all_link_lines_total (inner_width width (is_compact d)) (is_compact d) s snap) as [? ->].
    cbn. eauto.
  - destruct (host_lines_total (sn_daemon snap)) as [? ->]. cbn.
    destruct (queue_lines_total (sn_daemon snap)) as [? ->]. cbn. eauto.
  - unfold logs_view. rewrite visible_logs_spec by done. cbn. eauto.
  - unfold logs_view. rewrite visible_logs_spec by done. cbn. eauto.
Qed.

(** A narrower table has some of the columns of a wider one, in the same order,
    and always the name and the state. *)
Lemma columns_shrink w w' :
  w ≤ w' → columns w `sublist_of` columns w' ∧ ∃ rest, columns w = ColLink :: ColState :: rest.
Proof.
  intros Hw. unfold columns. split; [|repeat case_match; eauto].
  repeat case_match; try lia; by repeat constructor.
Qed.

(** The flags are a dash exactly when nothing is wrong, and red exactly for
    errors. *)
Lemma flags_spec l :
  ((flags l).1 = "-" ↔ degraded l = false ∧ tx_queue_full_total l ≤ 0 ∧ errs l = false) ∧
  (fg (flags l).2 = Some COLOR_BAD ↔ errs l = true).
Proof.
  unfold flags. destruct (degraded l), (0 <? tx_queue_full_total l) eqn:E, (errs l); cbn;
    (apply Z.ltb_lt in E || apply Z.ltb_ge in E); split; naive_solver lia.
Qed.

End views.
