(* ===== verification/Startup.v ===== *)
(** * Starting and stopping ([main.rs], [tunnel.rs]: [run])

    What happens between the configuration and the tasks, in the order the calls
    are made; what the tasks start with; and the goodbye at the end. Binding a
    link is [LinkSocket], giving up root [Host], the tasks are modelled in the
    files that name them. *)

From S2P Require Import Prelude Bytes F64 Rounding Configuration Protocol Fec Mtu Delivery Link Scheduler Tuning Bandwidth LinkIo LinkLife Diag Host Cli Node.
Import scheduler.

(** ** [main.rs] *)

Section main.
Context `{OS : Os}.
#[local] Existing Instances Sys_ret Sys_bind.

(** [Link::bind], with the link's interface MTU, and what building the TUN
    device, starting the resize thread and parsing an address answer. *)
Context {Bound : Type} (bind_link : Z → LinkConfig → f64 → bool → outcome (Bound * option Z)).
Context (build : TunRequest → option string) (spawn_resizer : option IoError).
Context (parse_ip : string → string + IpAddr).

Definition lift {A} (o : outcome A) : Sys A := λ p, (o, p).

(** The loop over the configured links, from the [i]th. *)
Fixpoint bind_links (cfg : Config) (i : Z) (ls : list LinkConfig) : outcome (list (Bound * option Z)) :=
  match ls with
  | [] => Ok []
  | l :: ls =>
      guard_err (255 <? i) (config_err "too many links (max 255)");;
      b ← bind_link i l (ewma_alpha (scheduler cfg)) (bool_decide (mode cfg = Client));
      rest ← bind_links cfg (i + 1) ls;
      Ok (b :: rest)
  end.

Record TunnelParams := mkParams {
  tp_mode : Mode;
  tp_mtu : Z;
  tp_clamp_mss : bool;
  tp_scheduler : SchedulerConfig;
  tp_name : string;
  tp_control_socket : option string;
  tp_group_access : bool;
  tp_command_socket : option string;
  tp_watch : option (WatchParams * string);
  tp_local_addr : IpAddr;
  tp_tunnel : TunnelConfig;
  tp_interfaces : list string }.

Definition tunnel_local_addr (cfg : Config) : outcome IpAddr :=
  '(text, _) ← parse_cidr (address (tunnel cfg));
  match parse_ip text with
  | inr ip => Ok ip
  | inl e => Err (config_err ("tunnel.address '" +:+ address (tunnel cfg)
                              +:+ "' has an unparseable address: " +:+ e))
  end.

(** [run] up to the call of [tunnel::run]: the links, the TUN device that was
    asked for and the parameters of the tunnel. *)
Definition run (cfg : Config) : Sys (list Bound * TunRequest * TunnelParams) :=
  bound ← lift (bind_links cfg 0 (links cfg));
  let mtu := (effective_tunnel_mtu (tunnel cfg) (snd <$> bound) (mtu_reservation_bytes (scheduler cfg))
                None).1 in
  tun ← lift (open_tun (tunnel cfg) mtu build);
  drop_at_startup DropTarget_default;;
  lift match spawn_resizer with Some e => Err (Io e) | None => Ok tt end;;
  local ← lift (tunnel_local_addr cfg);
  lift (Ok (fst <$> bound, tun,
    mkParams (mode cfg) mtu (clamp_mss (tunnel cfg)) (scheduler cfg) (tunnel_name (tunnel cfg))
      (control_socket cfg) (group_access (control cfg)) (command_socket cfg)
      (diagnostics_watch (diagnostics cfg)) local (tunnel cfg) (bind_interface <$> links cfg))).

(** ** What holds when the tasks start *)

Lemma lift_bind {A B} (o : outcome A) (f : A → Sys B) p b p' :
  (lift o ≫= f) p = (Ok b, p') → ∃ a, o = Ok a ∧ f a p = (Ok b, p').
Proof. unfold lift, mbind, Sys_bind. destruct o as [a|e|]; try done. by exists a. Qed.


Lemma bind_links_spec cfg ls : ∀ i bound,
  0 ≤ i → bind_links cfg i ls = Ok bound →
  (ls = [] ∨ i + len ls ≤ 256) ∧ length bound = length ls ∧
  ∀ k b, bound !! k = Some b → ∃ l, ls !! k = Some l ∧
    bind_link (i + Z.of_nat k) l (ewma_alpha (scheduler cfg)) (bool_decide (mode cfg = Client)) = Ok b.
Proof.
  induction ls as [|l ls IH]; intros i bound Hi H; cbn [bind_links] in H.
  { injection H as <-. split_and!; [by left|done|]. intros k b Hb. by rewrite lookup_nil in Hb. }
  apply bind_Ok in H as ([] & Hg%guard_err_Ok%Z.ltb_ge & H). apply bind_Ok in H as (b0 & Hb & H).
  apply bind_Ok in H as (rest & Hr & H). injection H as <-.
  destruct (IH (i + 1) rest) as (Hn & Hl & Hk); [lia|done|].
  split_and!.
  - right. unfold len in *. cbn [length]. destruct Hn as [->|Hn]; [cbn; lia|lia].
  - cbn. by rewrite Hl.
  - intros [|k] b Hb0; cbn in Hb0.
    + injection Hb0 as <-. exists l. split; [done|]. by rewrite Z.add_0_r.
    + destruct (Hk k b Hb0) as (l' & ? & <-). exists l'. split; [done|]. f_equal. lia.
Qed.

Lemma open_tun_ok cfg mtu tun :
  open_tun cfg mtu build = Ok tun →
  tn_mtu tun = mtu ∧ build tun = None ∧ parse_cidr (address cfg) = Ok (tn_ipv4 tun).
Proof.
  unfold open_tun. intros (v4 & H4 & H)%bind_Ok. apply bind_Ok in H as (v6 & _ & H).
  cbv zeta in H. destruct (build _) eqn:E; [done|]. injection H as <-. done.
Qed.

(** When the tasks are started every configured link is bound, under its own
    number below 256; the MTU the TUN device was created with is the one the
    tasks start from; the last change of the process was giving up root, which
    succeeded; and the address the self-test listens on is the device's. *)
Theorem startup_ready cfg p bound tun params p' :
  run cfg p = (Ok (bound, tun, params), p') →
  len (links cfg) ≤ 256 ∧ length bound = length (links cfg) ∧
  (∀ k b, bound !! k = Some b → ∃ l m, links cfg !! k = Some l ∧
     bind_link (Z.of_nat k) l (ewma_alpha (scheduler cfg)) (bool_decide (mode cfg = Client)) = Ok (b, m)) ∧
  tn_mtu tun = tp_mtu params ∧ build tun = None ∧
  drop_at_startup DropTarget_default p = (Ok tt, p') ∧
  parse_ip (tn_ipv4 tun).1 = inr (tp_local_addr params).
Proof.
  unfold run. intros H.
  apply lift_bind in H as (b & Hb & H). apply lift_bind in H as (t & Ht & H).
  apply bind_sys in H as ([] & q & Hdrop & H).
  apply lift_bind in H as ([] & Hres & H). apply lift_bind in H as (local & Hloc & H).
  unfold lift in H. injection H as <- <- <- <-.
  destruct (bind_links_spec cfg (links cfg) 0 b) as (Hn & Hl & Hk); [done|done|].
  destruct (open_tun_ok _ _ _ Ht) as (Hmtu & Hbuild & Hcidr).
  split_and!; try done.
  - unfold len in *. destruct Hn as [->|Hn]; [by vm_compute|lia].
  - by rewrite length_fmap.
  - intros k x Hx. apply list_lookup_fmap_Some in Hx as ([x' m] & -> & Hx).
    destruct (Hk k _ Hx) as (l & Hl' & Hbind). exists l, m. split; [done|]. by rewrite Z.add_0_l in Hbind.
  - unfold tunnel_local_addr in Hloc. rewrite Hcidr in Hloc. cbn in Hloc.
    destruct (tn_ipv4 t) as [text prefix]. cbn. case_match; [done|]. by injection Hloc as <-.
Qed.

End main.

(** ** [tunnel.rs]: what the tasks start with *)

(** A probe is given four times the longest interval the link can come to, and
    at least half a second. *)
Definition probe_timeout_ms (cfg : SchedulerConfig) (lc : LinkConfig) : Z :=
  let longest := if auto_tune_probe_interval cfg
                 then Z.max (probe_interval_ms lc) (probe_interval_max_ms cfg)
                 else probe_interval_ms lc in
  Z.max (Z.min (longest * 4) (2 ^ 64 - 1)) 500.
Definition tracker_for (cfg : SchedulerConfig) (lc : LinkConfig) : ProbeTracker :=
  ProbeTracker_new (probe_timeout_ms cfg lc * 1000000).

(** A link as [Link::bind] and the race for its address leave it, with its id. *)
Definition link_start (cfg : SchedulerConfig) (now : Z) (x : Link * Z * option SocketAddr) : NodeLink :=
  let '(l, id, remote) := x in
  mkNodeLink l id remote (probe_interval_ms (config l)) (ewma_alpha cfg) (tracker_for cfg (config l))
    (ThroughputTestReceiveState_new now) 0.
Definition node_start (cfg : SchedulerConfig) (now : Z) (ls : list (Link * Z * option SocketAddr)) : Node :=
  mkNode (link_start cfg now <$> ls) Scheduler_new [] 0 ∅ ThroughputTestContext_new None None None None
    0 [] [].

Inductive Task :=
  | LinkReceiver (idx : nat) | LinkProber (idx : nat) | FamilyFallbackWatch (idx : nat)
  | ActiveBandwidthProber (idx : nat)
  | TelemetryRun
  | Serve (path : string) (group_access : bool)
  | ServeCommands (path : string)
  | TestListener (local : IpAddr) | TestTcpListener (local : IpAddr)
  | DiagnosticsWatchLoop (watch : WatchParams * string)
  | MtuMonitorLoop
  | LinkTxWorker (idx : nat) | CongestionLoop | DeliveryLoop
  | OutboundSender (allow_spill : bool)
  | OutboundQueueDropReporter | TunReader | RxPipelineTask | ReorderTuningLoop.

Definition allow_spill_of (cfg : SchedulerConfig) : bool :=
  negb (primary_link_mode cfg || follow_peer_primary cfg).

Definition link_tasks (idx : nat) : list Task :=
  [LinkReceiver idx; LinkProber idx; FamilyFallbackWatch idx; ActiveBandwidthProber idx].
Definition socket_tasks (params : TunnelParams) : list Task :=
  match tp_control_socket params with Some p => [Serve p (tp_group_access params)] | None => [] end
  ++ match tp_command_socket params with Some p => [ServeCommands p] | None => [] end.
Definition self_test_tasks (params : TunnelParams) : list Task :=
  [TestListener (tp_local_addr params); TestTcpListener (tp_local_addr params)].
Definition watch_tasks (params : TunnelParams) : list Task :=
  match tp_watch params with Some w => [DiagnosticsWatchLoop w] | None => [] end ++ [MtuMonitorLoop].
Definition sending_tasks (params : TunnelParams) (n : nat) : list Task :=
  (LinkTxWorker <$> List.seq 0 n)
  ++ [CongestionLoop; DeliveryLoop; OutboundSender (allow_spill_of (tp_scheduler params));
      OutboundQueueDropReporter; TunReader].

(** The tasks in the order they are spawned. *)
Definition tasks (params : TunnelParams) (n : nat) : list Task :=
  mjoin (link_tasks <$> List.seq 0 n) ++ [TelemetryRun] ++ socket_tasks params
  ++ self_test_tasks params ++ watch_tasks params ++ sending_tasks params n
  ++ [RxPipelineTask; ReorderTuningLoop].

(** [broadcast_disconnect]: one frame to every link that has a peer address, all
    with one sequence number. *)
Definition goodbye (s : Z) (i : nat) (x : NodeLink) : list (nat * option SocketAddr * list Z) :=
  match nl_remote x with
  | Some r => [(i, Some r, frame_with Disconnect (nl_id x) s [])]
  | None => []
  end.
Definition broadcast_disconnect (n : Node) : Node :=
  with_outbox (wrap 64 (n_send_seq n + 1))
    (n_outbox n ++ mjoin (imap (goodbye (n_send_seq n)) (n_links n))) n.

(** ** Probes outlast the tuning *)

Lemma sweep_keeps now pseq t0 t :
  outstanding t !! pseq = Some t0 → sat_sub now t0 < timeout t →
  outstanding (sweep_timeouts now t).1 !! pseq = Some t0 ∧ timeout (sweep_timeouts now t).1 = timeout t.
Proof. intros H Hn. unfold sweep_timeouts. cbn. split; [|done]. by apply map_lookup_filter_Some. Qed.

Lemma fixed_interval cfg lc a t :
  auto_tune_probe_interval cfg = false → tuned_reach cfg lc a t →
  effective_probe_interval_ms t = probe_interval_ms lc.
Proof.
  intros Hf. induction 1 as [now now'|i x s s' _ IH _|t t' timer _ IH Ht]; [done|done|].
  unfold tune, tune_interval in Ht. rewrite Hf in Ht. cbn [mbind outcome_bind] in Ht.
  apply bind_Ok in Ht as (u & Hu & Ht). injection Ht as <- _. rewrite <-IH.
  unfold tune_alpha in Hu. destruct (auto_tune_ewma_alpha cfg); [|by injection Hu as <-].
  apply bind_Ok in Hu as (x & _ & Hu). case_match; by injection Hu as <-.
Qed.

(** C34. A probe is not written off while it may still be answered: at whatever
    interval the tuning of its link has come to, it stays among the outstanding
    ones through every sweep of the next four intervals, and an answer in that
    time is measured. *)
Theorem probes_outlast_tuning cfg lc a t pseq sent_at sweeps answered :
  0 ≤ probe_interval_ms lc → probe_interval_ms lc ≤ probe_interval_max_ms cfg →
  probe_interval_max_ms cfg < 2 ^ 52 → fle (ewma_alpha_min cfg) (ewma_alpha_max cfg) →
  f64.is_nan a = false → tuned_reach cfg lc a t →
  let four := 4 * effective_probe_interval_ms t * 1000000 in
  Forall (λ now, sent_at ≤ now < sent_at + four) sweeps →
  let tr := foldl (λ tr now, (sweep_timeouts now tr).1)
              (record_sent sent_at pseq (tracker_for cfg lc)) sweeps in
  outstanding tr !! pseq = Some sent_at ∧
  (record_reply answered pseq tr).2 =
    Some (f64.as_secs_f64 (sat_sub answered sent_at) * f64.of_Z 1000)%f64.
Proof.
  intros H1 H2 H3 H4 Ha Hr four Hs tr.
  assert (four ≤ probe_timeout_ms cfg lc * 1000000) as Ht.
  { unfold four, probe_timeout_ms.
    destruct (reach_tuned_ok cfg lc H1 H2 H3 H4 a t Ha Hr) as [Hi _].
    destruct (auto_tune_probe_interval cfg) eqn:E; [lia|].
    rewrite (fixed_interval _ _ _ _ E Hr) in *. lia. }
  assert (∀ tr0, outstanding tr0 !! pseq = Some sent_at → four ≤ timeout tr0 →
    outstanding (foldl (λ tr now, (sweep_timeouts now tr).1) tr0 sweeps) !! pseq = Some sent_at) as Hk.
  { clear tr. induction Hs as [|now sweeps Hn _ IH]; intros tr0 H0 Ht0; [done|]. cbn [foldl].
    destruct (sweep_keeps now pseq sent_at tr0 H0) as [Hk Hkt]; [unfold sat_sub; lia|].
    apply IH; [done|by rewrite Hkt]. }
  assert (outstanding tr !! pseq = Some sent_at) as Ho
    by (unfold tr; apply Hk; [apply lookup_insert_eq|exact Ht]).
  split; [exact Ho|]. unfold record_reply. by rewrite Ho.
Qed.

(** ** Goodbye *)

Lemma goodbyes_from s (xs : list NodeLink) : ∀ i,
  NoDup (fst ∘ fst <$> mjoin (imap (λ k, goodbye s (i + k)%nat) xs)) ∧
  ∀ k to f, (k, to, f) ∈ mjoin (imap (λ k, goodbye s (i + k)%nat) xs) ↔
    ∃ j x r, k = (i + j)%nat ∧ xs !! j = Some x ∧ nl_remote x = Some r ∧ to = Some r ∧
             f = frame_with Disconnect (nl_id x) s [].
Proof.
  induction xs as [|x xs IH]; intros i.
  { split; [constructor|]. intros k to f. split; [by intros ?%not_elem_of_nil|].
    intros (j & x & r & _ & Hx & _). by rewrite lookup_nil in Hx. }
  rewrite imap_cons. cbn [mjoin list_join]. rewrite (imap_ext _ (λ k, goodbye s (S i + k)%nat))
    by (intros; cbn; f_equal; lia). destruct (IH (S i)) as [Hnd Hin].
  replace (i + 0)%nat with i by lia. split.
  - rewrite fmap_app. apply NoDup_app. split_and!; [|intros k Hk Hk'|exact Hnd].
    + unfold goodbye. destruct (nl_remote x); repeat constructor. by intros ?%not_elem_of_nil.
    + apply list_elem_of_fmap in Hk as ([[k1 ?] ?] & -> & Hk).
      apply list_elem_of_fmap in Hk' as ([[k2 to] f] & E & Hk'). cbn in E. subst k2.
      apply Hin in Hk' as (j & ? & ? & -> & _). unfold goodbye in Hk.
      destruct (nl_remote x); [|by apply elem_of_nil in Hk].
      apply list_elem_of_singleton in Hk. injection Hk as ? _ _. lia.
  - intros k to f. rewrite elem_of_app, Hin. split.
    + intros [Hk|(j & y & r & -> & Hy & Hrest)].
      * unfold goodbye in Hk. destruct (nl_remote x) as [r|] eqn:E; [|by apply elem_of_nil in Hk].
        apply list_elem_of_singleton in Hk. injection Hk as -> -> ->.
        exists 0%nat, x, r. split_and!; [lia|done..].
      * exists (S j), y, r. split; [lia|done].
    + intros ([|j] & y & r & -> & Hy & Hrem & -> & ->); cbn in Hy.
      * left. injection Hy as <-. unfold goodbye. rewrite Hrem. apply list_elem_of_singleton.
        f_equal. f_equal. lia.
      * right. exists j, y, r. split; [lia|done].
Qed.

(** A node that stops says so once to every peer address it knows, with one
    sequence number; the peer that hears it notes where it came from and goes
    on: nothing else of its state changes. *)
Theorem goodbye_heard a b i x r c cfg j from y :
  n_links a !! i = Some x → nl_remote x = Some r → fits 64 (n_send_seq a) → n_links b !! j = Some y →
  ∃ sent, n_outbox (broadcast_disconnect a) = n_outbox a ++ sent ∧
    NoDup (fst ∘ fst <$> sent) ∧
    (∀ k to f, (k, to, f) ∈ sent → ∃ z, n_links a !! k = Some z ∧ nl_remote z = to ∧ to ≠ None) ∧
    let f := frame_with Disconnect (nl_id x) (n_send_seq a) [] in
    (i, Some r, f) ∈ sent ∧
    handle_incoming c cfg j f from b = Ok (on_link j (with_remote (Some from)) b).
Proof.
  intros Hx Hr Hs Hy. destruct (goodbyes_from (n_send_seq a) (n_links a) 0) as [Hnd Hin].
  exists (mjoin (imap (goodbye (n_send_seq a)) (n_links a))). split_and!; [done|exact Hnd| |].
  - intros k to f (z & z' & r' & -> & Hz & Hr' & -> & _)%Hin. exists z'. by rewrite Hr'.
  - intros f. split; [apply Hin; exists i, x, r; by split_and!|]. unfold f.
    unfold handle_incoming. rewrite frame_decode by done. cbn [or_return ptype bool_decide].
    rewrite !bool_decide_false by done. done.
Qed.

Module startup_example.
Import tuning_example.

Definition ms (n : Z) : Z := n * 1000000.
Definition swept : ProbeTracker :=
  foldl (λ tr now, (sweep_timeouts now tr).1) (record_sent 0 7 (tracker_for cfg lc)) [ms 200; ms 400; ms 799].

Lemma probes_outlast_tuning_witness :
  outstanding swept !! 7 = Some 0 ∧
  (record_reply (ms 450) 7 swept).2 = Some (f64.as_secs_f64 (sat_sub (ms 450) 0) * f64.of_Z 1000)%f64.
Proof.
  apply (probes_outlast_tuning cfg lc (f64.lit 2 10) fresh 7 0 [ms 200; ms 400; ms 799] (ms 450));
    [by vm_compute..|apply tuned_start|].
  repeat constructor; vm_compute; congruence.
Defined.

(** At the timeout the probe is a miss. *)
Example swept_away :
  outstanding (sweep_timeouts (ms 8000) (record_sent 0 7 (tracker_for cfg lc))).1 !! 7 = None.
Proof. vm_compute. reflexivity. Qed.

Definition peers : list (Link * Z * option SocketAddr) :=
  [(mkLink (sample_link "wan0") Probing 0 sample_stats false, 0, Some node_example.there);
   (mkLink (sample_link "wan1") Probing 0 sample_stats false, 1, None)].
Example one_goodbye :
  n_outbox (broadcast_disconnect (node_start cfg 0 peers)) =
    [(0%nat, Some node_example.there, frame_with Disconnect 0 0 [])].
Proof. vm_compute. reflexivity. Qed.

End startup_example.
